(* ===== verification/_CoqProject ===== *)
-Q . S2P
Prelude.v
PyStr.v
TaskState.v
SegmentLog.v
SegmentLogFacts.v
SegmentLogHistory.v
SegmentLogExample.v
ObjectStore.v
ObjectStoreExample.v
Calendar.v
CalendarFacts.v
CalendarDecision.v
SearchTables.v
SearchLanguage.v
SearchLexing.v
SearchCanonical.v
SearchQueryFacts.v
SearchExample.v
Pressure.v
PressureFacts.v
PressureControl.v
PressureSlices.v
PressureBaseline.v
PressureBaselineFacts.v
PressureExample.v
Keyset.v
SearchPages.v
SearchPagesFacts.v
SearchWalk.v
SearchMeili.v
SearchPagesExample.v
SearchDelivery.v
SearchDeliveryFacts.v
SearchDeliverySpec.v
SearchDeliverySlices.v
SearchDeliveryExample.v
TaskRuns.v
TaskPipeline.v
TaskEngine.v
TaskPipelineFacts.v
TaskPipelineSteps.v
TaskCommands.v
TaskPipelineSpec.v
TaskPipelineExample.v
ArtifactLedger.v
ArtifactLedgerFacts.v
ArtifactImport.v
ArtifactLedgerSpec.v
ArtifactLedgerExample.v
GitlleryLog.v
GitlleryOutbox.v
GitlleryOutboxFacts.v
GitlleryOutboxSpec.v
GitlleryOutboxExample.v
AdminOperations.v
AdminRuntime.v
AdminRuntimeFacts.v
AdminRuntimeSpec.v
AdminRecovery.v
AdminExample.v
SchedulerBatches.v
SchedulerFacts.v
SchedulerSpec.v
SchedulerSlices.v
SchedulerExample.v
DownloadAdmission.v
DownloadAdmissionSpec.v
Programs.v
HeavyIO.v
HeavyIOWorker.v
HeavyIOWorld.v
HeavyIOFacts.v
HeavyIOLeases.v
HeavyIOSpec.v
SearchRebuild.v
SearchRebuildFacts.v
SearchRebuildSpec.v
SearchRebuildRun.v
WorkHeat.v
WorkHeatSpec.v
