(* ===== verification/Prelude.v ===== *)
(** * auto-gallery: a verification development

    auto-gallery is a self-hosted media library.  Its backend (Python, under
    [src/backend]) subscribes to creators on remote sites, downloads and imports
    their works in background jobs, records curation in an append-only history,
    and serves searches over the result.  This library models the parts that
    decide something -- state machines, logs, schedules, parsers, controllers,
    paging and delivery protocols -- as executable functions and transition
    systems, and proves what the rest of the program relies on.

    ** How the parts interact

    A scheduler asks the calendar ([Calendar]) whether a subscription is due and
    enqueues a download job, which [DownloadAdmission] lets into the queue; a batch over all subscriptions
    ([SchedulerBatches]) runs in slices as an administrator operation
    ([AdminOperations]), as other maintenance does.  Workers run download and import jobs; every status
    change goes through the state machine ([TaskState]) and is projected onto
    parent jobs and task runs ([TaskRuns], [TaskPipeline]), as are the commands
    of operators ([TaskEngine]).  Import executions take works from the
    artifact ledger under leases ([ArtifactLedger], [ArtifactImport]).  Background work runs in slices that the
    resource pressure controller ([Pressure]) and the leases of [HeavyIO] admit.  Imports and edits leave
    rows in a search outbox that a delivery worker copies into the search engine
    ([SearchDelivery]); queries are written in a small language
    ([SearchLanguage]) and their results are paged with cursors ([SearchPages],
    [SearchMeili]).  Curation commits are stored in segment repositories
    ([SegmentLog]), to which an outbox carries them ([GitlleryOutbox]), and a
    content-addressed object store ([ObjectStore]).

    ** Files

    - [Prelude], [PyStr]: fallible code as [result], loops, list and integer
      lemmas, tactics; Python strings as code points, [str] methods, the
      [Unicode] interface.
    - [TaskState] ([app/models/task_state.py]): status tables and [_transition].
      Theorems: [cancelled] is absorbing; every other download can still be
      completed; legacy names are equivalent to the new ones.
    - [SegmentLog] ([gitllery_format/repository.py]): [initialise], [append],
      [verify] and the iterators over configuration, manifest and segment files.
      [SegmentLogHistory] relates a repository to the list of commits it
      represents: [append] then iterate is the identity on histories, every
      reachable repository verifies, segments keep their limits, an append that
      is retried after a lost answer adds nothing.
    - [ObjectStore] ([app/services/gitllery/objects.py]): loose objects, packs
      and the two-entry pack cache; the cache never changes an answer, and what
      [write_many] stores is read back.
    - [Calendar] ([app/services/subscription_calendar.py],
      [app/schemas/schedule.py]): rules, occurrences, the due decision, rule
      validation.  [CalendarFacts] and [CalendarDecision]: the scan finds the
      earliest occurrence, a decision is due exactly in its window, a slot fires
      once, validated rules always recur, normalisation keeps the schedule.
    - [SearchTables], [SearchLanguage] ([app/services/search_language.py],
      [source_search_identity.py]): lexer, parser, validation, canonical text,
      filter edits.  [SearchLexing], [SearchCanonical], [SearchQueryFacts]: the
      lexer is exact, quoting round trips, canonical text is a fixed point,
      edits change exactly what they name.
    - [Pressure] ([app/services/resource_pressure_state.py] and the samples and
      profiles beside it), [PressureBaseline]: the controller of the resource
      mode, its thresholds, the learned baseline.  [PressureFacts],
      [PressureControl], [PressureSlices], [PressureBaselineFacts]: the
      controller invariant, exact entry and exit conditions of critical mode
      over whole histories, the memory floor of admitted slices, the window.
    - [Keyset], [SearchPages], [SearchMeili] ([app/services/search_pagination.py]
      and the paging code of [search.py]): sort orders, cursor texts, the
      shuffle ring in SQL and as Meilisearch filters.  [SearchPagesFacts],
      [SearchWalk]: following cursors visits every work once, and both engines
      serve the same shuffled page.
    - [SearchDelivery] ([app/services/search_projection_outbox.py],
      [search_delivery.py], [remote_search_flight.py]): outbox, receipts, marker,
      worker positions and engine as one world with crashes between any two
      durable actions.  [SearchDeliveryFacts]: the
      invariant; [SearchDeliverySpec]: refinement of
      an abstract mirror, settled entities are current, single flight;
      [SearchDeliverySlices]: request sizes and the length of a slice.
    - [TaskRuns], [TaskPipeline], [TaskEngine] ([app/services/tasks.py],
      [import_lifecycle.py], [job_manifest.py], [download_failure_evidence.py],
      [download_finalization.py], [task_actions.py], [task_engine.py], the
      preparation in [download_dispatch.py] and [import_dispatch.py],
      [app/jobs/import_execution.py], [app/repositories/download_job.py]): the
      rows of jobs and task runs as one database, each command, claim,
      completion and stale detection as a function on it.
      [TaskPipelineFacts], [TaskPipelineSteps],
      [TaskCommands], [TaskPipelineSpec]: task runs show their jobs in every
      reachable state, all status changes follow the tables, granted commands
      succeed, bounded parents are elected from their children.
    - [ArtifactLedger] ([app/services/artifact_ledger.py]): every statement of
      the artifact inventory; [ArtifactImport]: the claim, renew, insert and
      checkpoint protocol of the batch loop of [app/jobs/import_runner.py] over
      the ledger and the task pipeline, with expiring leases, crashes and
      retries.  [ArtifactLedgerFacts], [ArtifactLedgerSpec]: works are imported
      once, one execution holds a work, executions that lost their import are
      fenced off, what a claim answers and writes, retries get failed works
      back, registration is idempotent, live leases block retries.
    - [GitlleryLog]: the write operation of a commit log as the interface
      [CommitLog] with its laws, and its implementation by segment
      repositories; [GitlleryOutbox] ([app/services/gitllery_outbox.py],
      [gitllery/slicing.py]): intents, targets, claims under tokens and leases,
      checkpoints and the slice of a worker, interleaved in a transition
      system.  [GitlleryOutboxFacts]: its invariant;
      [GitlleryOutboxSpec]: repositories hold every completed commit once and
      in order, complete intents are on disk, checkpoints agree with the logs,
      nothing gets stuck, what planning creates, a slice is a run of the
      system.  [GitlleryOutboxExample] also shows what goes wrong without the
      lease and the planning discipline.
    - [AdminOperations] ([app/services/operations.py],
      [admin_dispatch_recovery.py], the policy of [task_actions.py]): the
      registry, durable attempts and their preparation, publication, claim,
      callbacks, hand-off, retry and recovery; [AdminRuntime]
      ([app/jobs/admin_operations.py]): workers with execution leases, a queue
      that loses jobs, sessions that are lost unnoticed.
      [AdminRuntimeFacts], [AdminRuntimeSpec]: one active operation per scope,
      transactions of attempts never interleave, dispatch records stay
      well-formed, offered retries are carried out; [AdminRecovery]: one sweep
      delivers a lost operation again.
    - [SchedulerBatches] ([app/services/scheduler_batches.py]): subscription
      sync batches on that runtime, commit by commit.  [SchedulerFacts],
      [SchedulerSpec]: at most one active batch, closed batches are settled,
      terminal items are final; [SchedulerSlices]: what the end of a slice
      does, repeated admission, the batch whose operation failed,
      a cancellation ends.
    - [DownloadAdmission] ([app/services/queue_admission.py],
      [backpressure.py], [device_profile.py]): capacity checks, the publication
      of downloads under the admission lock, producer batches, producers side
      by side.  [DownloadAdmissionSpec]: the ceiling on waiting downloads, what
      the answer of a publication says, the slots of a batch.
    - [Programs]: code beside other processes as a tree of its calls, with a
      weakest precondition for what one process owns.  [HeavyIO]
      ([app/services/heavy_io.py]): keys, lock files, renewable leases, slots
      and adaptive slices as such programs; [HeavyIOWorker]
      ([resource_aware_worker.py]): the admission of a job by its worker;
      [HeavyIOWorld]: Redis with its scripts and expiry, the lock files, the
      marker of [remote_search_flight.py], and all processes side by side, call
      by call.  [HeavyIOFacts], [HeavyIOLeases]: the invariants of the
      locks and of the leases; [HeavyIOSpec]: slices
      exclude each other, a remote request fences, ended slots leave nothing
      behind, reserved memory is bounded, the background lane gets its turn, a
      long wait overflows.
    - [SearchRebuild] ([app/services/search_rebuild.py]): the phases of an index
      rebuild, its receipts and the engine's commands, beside changes of the
      domain and ordinary delivery.  [SearchRebuildFacts]: the invariant of
      staging and live documents and that each phase keeps it;
      [SearchRebuildSpec]: a rebuilt index answers
      from the database; [SearchRebuildRun]: a rebuild that is not swapped in
      is harmless, one that is left to itself ends.
    - [WorkHeat] ([app/services/work_heat_queue.py]): a request for the
      recomputation of a source and the repair of deferred jobs as programs of
      their Redis calls beside the workers of RQ.  [WorkHeatSpec]: assertions
      that the workers leave true, a program logic over them, and with it:
      recomputations never overlap, no request is lost, no deferred job is
      stuck.
    - Files ending in [Example] hold concrete instances: interfaces filled with
      executable functions, runs of the transition systems, and the application
      of each theorem that has hypotheses at such an instance.

    ** Conventions

    A call that may raise returns [result]; the error is the exception.  State
    is passed explicitly; a database transaction is one function on the rows,
    since the row locks of the code make it atomic, and a rolled back
    transaction returns no state.  Where processes crash or interleave, the
    model is a step relation over the durable actions.  Floats are exact
    rationals ([Q]) with Python's rounding written out; integers are [Z], as
    Python's are unbounded.  Times are integers (seconds or microseconds, as
    each file says) and clocks are arguments.

    What lies outside the repository is an interface with the documented laws
    the code relies on: [Unicode] (character database), [Codec] and [StoreCodec]
    (JSON, zlib, SHA-256), [Zone] (time zone database), [SourceUrls] (URL
    classification of the providers), [CursorWire] (cursor JSON and hashes),
    [ColumnOrder] (order of a sort column).  Each is instantiated in an
    [Example] file.

    ** Bounds and fuel

    The calendar scans are bounded by the 800 days of the code itself;
    [CalendarDecision] proves the bound enough for validated rules.  Chains of
    segments are followed with fuel one more than the number of files, which a
    chain without repetition cannot exceed.  The loop of an
    outbox slice is bounded by the limit of the code, at most 100 claims, the
    recovery sweep and the slices of a batch by 25 rows.  The
    delivery slice is bounded by
    twelve durable actions, proved, not assumed.  All other functions recurse
    on their data.

    ** Not modelled

    The HTTP routers, schemas and authentication ([app/api], [app/auth.py]), the
    ORM models beyond the columns named above, migrations ([alembic]), the web
    frontend ([admin-web]) and the scripts are glue or input/output.  The
    clients of gallery-dl, Redis, Meilisearch and the remote sites
    ([app/providers], [app/remote_discovery]) talk to programs that are not
    here.  Import and download runners ([app/jobs/import_runner.py],
    [download.py]) mostly move files and rows; of them the lease, claim and
    completion protocols are modelled.  Curation, backups and offline restore,
    creator and alias bookkeeping, remote accounts and asset deduplication are
    left for later.

    ** Plan

    Next in order: the curation service over the segment log, and the URL
    parsing of the providers as an instance of [SourceUrls]. *)

From stdpp Require Import base gmap strings list numbers sorting.
From Stdlib Require Import ZArith QArith Lia.

Open Scope Z_scope.

(** ** Fallible code

    A Python call that may raise is a value of [result E A]: [Ok] for a normal
    return, [Err] for the exception it raises. *)

Inductive result (E A : Type) : Type :=
| Ok (a : A)
| Err (e : E).
Arguments Ok {E A} a.
Arguments Err {E A} e.

Global Instance result_ret {E} : MRet (result E) := λ A a, Ok a.
Global Instance result_bind {E} : MBind (result E) := λ A B f r,
  match r with Ok a => f a | Err e => Err e end.

Declare Scope result_scope.
Delimit Scope result_scope with res.

(** [guard_or b e] is [if not b: raise e]. *)
Definition guard_or {E} (b : bool) (e : E) : result E unit :=
  if b then Ok tt else Err e.

Definition is_ok {E A} (r : result E A) : bool :=
  match r with Ok _ => true | Err _ => false end.

Lemma result_bind_ok {E A B} (r : result E A) (f : A → result E B) b :
  r ≫= f = Ok b ↔ ∃ a, r = Ok a ∧ f a = Ok b.
Proof. destruct r; cbn; naive_solver. Qed.

Lemma result_bind_err {E A B} (r : result E A) (f : A → result E B) e :
  r ≫= f = Err e ↔ r = Err e ∨ ∃ a, r = Ok a ∧ f a = Err e.
Proof. destruct r; cbn; naive_solver. Qed.

Lemma guard_or_ok {E} b (e : E) x : guard_or b e = Ok x ↔ b = true.
Proof. destruct b, x; cbn; naive_solver. Qed.

(** ** A fallible loop: [for x in l: acc = f(acc, x)] *)

Fixpoint foldM {E A B} (f : A → B → result E A) (a : A) (l : list B) : result E A :=
  match l with
  | [] => Ok a
  | b :: l' => f a b ≫= λ a', foldM f a' l'
  end.

Fixpoint mapM_res {E A B} (f : A → result E B) (l : list A) : result E (list B) :=
  match l with
  | [] => Ok []
  | a :: l' => f a ≫= λ b, mapM_res f l' ≫= λ bs, Ok (b :: bs)
  end.

Lemma foldM_app {E A B} (f : A → B → result E A) a l1 l2 :
  foldM f a (l1 ++ l2) = foldM f a l1 ≫= λ a', foldM f a' l2.
Proof.
  revert a. induction l1 as [|b l1 IH]; intros a; cbn; [done|].
  destruct (f a b); cbn; auto.
Qed.

(** Induction over a successful fallible loop: an invariant kept by every
    successful iteration holds at the end. *)
Lemma foldM_inv {E A B} (f : A → B → result E A) (P : A → Prop) l a a' :
  (∀ x b y, P x → f x b = Ok y → P y) →
  P a → foldM f a l = Ok a' → P a'.
Proof.
  intros Hstep. revert a. induction l as [|b l IH]; intros a Ha; cbn.
  - by intros [= ->].
  - intros (a1 & Hf & Hrest)%result_bind_ok. eauto.
Qed.

Lemma mapM_res_ok {E A B} (f : A → result E B) l bs :
  mapM_res f l = Ok bs ↔ Forall2 (λ a b, f a = Ok b) l bs.
Proof.
  revert bs. induction l as [|a l IH]; intros bs; cbn.
  - split; [intros [= <-]; constructor|inversion 1; done].
  - rewrite result_bind_ok. split.
    + intros (b & Hb & (bs' & Hbs' & [= <-])%result_bind_ok).
      constructor; [done|]. by apply IH.
    + inversion 1; subst. eexists; split; [done|].
      apply result_bind_ok. eexists; split; [by apply IH|done].
Qed.

Lemma Forall2_elem_l {A B} (R : A → B → Prop) la lb a :
  Forall2 R la lb → a ∈ la → ∃ b, b ∈ lb ∧ R a b.
Proof.
  induction 1 as [|x y la lb HR _ IH]; [by intros ?%not_elem_of_nil|].
  setoid_rewrite elem_of_cons. naive_solver.
Qed.

Lemma Forall2_elem_r {A B} (R : A → B → Prop) la lb b :
  Forall2 R la lb → b ∈ lb → ∃ a, a ∈ la ∧ R a b.
Proof.
  induction 1 as [|x y la lb HR _ IH]; [by intros ?%not_elem_of_nil|].
  setoid_rewrite elem_of_cons. naive_solver.
Qed.

(** ** Development tactics *)

(** Split hypotheses about successful or failed monadic code. *)
Ltac res_simpl :=
  repeat match goal with
  | H : _ ≫= _ = Ok _ |- _ => apply result_bind_ok in H as (? & ? & ?)
  | H : guard_or _ _ = Ok _ |- _ => apply guard_or_ok in H
  | H : Ok _ = Ok _ |- _ => injection H as H; subst
  | H : Err _ = Err _ |- _ => injection H as H; subst
  | H : Ok _ = Err _ |- _ => discriminate H
  | H : Err _ = Ok _ |- _ => discriminate H
  end.

(** Case analysis on the innermost test of the goal or of a hypothesis. *)
Ltac case_test :=
  match goal with
  | H : context [if ?b then _ else _] |- _ => destruct b eqn:?
  | |- context [if ?b then _ else _] => destruct b eqn:?
  end.

(** ** Association lists: a Python dict literal, in insertion order *)

Fixpoint assoc {K V} `{EqDecision K} (k : K) (l : list (K * V)) : option V :=
  match l with
  | [] => None
  | (k', v) :: l' => if decide (k = k') then Some v else assoc k l'
  end.

Lemma assoc_elem_of {K V} `{EqDecision K} (k : K) (l : list (K * V)) v :
  assoc k l = Some v → (k, v) ∈ l.
Proof.
  induction l as [|[k' v'] l IH]; cbn; [done|].
  case_decide as Hk; [intros [= ->]; subst; left|right; auto].
Qed.

Lemma assoc_map {K V W} `{EqDecision K} (f : V → W) (k : K) (l : list (K * V)) :
  assoc k ((λ p, (p.1, f p.2)) <$> l) = f <$> assoc k l.
Proof. induction l as [|[k' v] l IH]; cbn; [done|]. by case_decide. Qed.

Lemma assoc_is_Some {K V} `{EqDecision K} (k : K) (l : list (K * V)) :
  is_Some (assoc k l) ↔ k ∈ l.*1.
Proof.
  induction l as [|[k' v'] l IH]; cbn.
  - split; [by intros [? [=]]|by intros ?%not_elem_of_nil].
  - case_decide as Hk; subst.
    + split; [left|eauto].
    + rewrite IH, elem_of_cons. naive_solver.
Qed.

(** ** [sorted(set(l))] for a strict weak order

    Of equivalent elements the set keeps one. *)

Fixpoint insert_unique {A} (ltb : A → A → bool) (x : A) (l : list A) : list A :=
  match l with
  | [] => [x]
  | y :: l' => if ltb x y then x :: l
               else if ltb y x then y :: insert_unique ltb x l'
               else l
  end.

Definition sorted_set {A} (ltb : A → A → bool) (l : list A) : list A :=
  foldr (insert_unique ltb) [] l.

Section SortedSet.
Context {A : Type} (ltb : A → A → bool).
Hypothesis ltb_trans : ∀ a b c, ltb a b = true → ltb b c = true → ltb a c = true.

Lemma insert_unique_elem x y l : y ∈ insert_unique ltb x l → y = x ∨ y ∈ l.
Proof.
  induction l as [|z l IH]; cbn; [by intros ->%list_elem_of_singleton; left|].
  repeat case_test; rewrite ?elem_of_cons; naive_solver.
Qed.

Lemma insert_unique_keeps x y l : y ∈ l → y ∈ insert_unique ltb x l.
Proof.
  induction l as [|z l IH]; cbn; [by intros ?%not_elem_of_nil|].
  repeat case_test; rewrite ?elem_of_cons; naive_solver.
Qed.

Lemma insert_unique_covers x l :
  ∃ y, y ∈ insert_unique ltb x l ∧ (y = x ∨ ltb x y = false ∧ ltb y x = false).
Proof.
  induction l as [|z l IH]; cbn; [exists x; by rewrite list_elem_of_singleton; auto|].
  destruct (ltb x z) eqn:E1; [exists x; rewrite elem_of_cons; auto|].
  destruct (ltb z x) eqn:E2; [|exists z; rewrite elem_of_cons; auto].
  destruct IH as (y & Hy & Heq). exists y. rewrite elem_of_cons. auto.
Qed.

Lemma insert_unique_sorted x l :
  StronglySorted (λ a b, ltb a b = true) l →
  StronglySorted (λ a b, ltb a b = true) (insert_unique ltb x l).
Proof.
  induction 1 as [|y l Hs IH Hall]; cbn; [by repeat constructor|].
  destruct (ltb x y) eqn:E1; [|destruct (ltb y x) eqn:E2].
  - constructor; [by constructor|]. constructor; [done|].
    eapply Forall_impl; [done|]. eauto.
  - constructor; [done|]. apply Forall_forall. intros z Hz%insert_unique_elem.
    rewrite Forall_forall in Hall. naive_solver.
  - by constructor.
Qed.

Lemma sorted_set_sorted l : StronglySorted (λ a b, ltb a b = true) (sorted_set ltb l).
Proof. induction l; cbn; [constructor|by apply insert_unique_sorted]. Qed.

Lemma sorted_set_elem x l : x ∈ sorted_set ltb l → x ∈ l.
Proof.
  induction l as [|y l IH]; cbn; [done|].
  intros Hx%insert_unique_elem. rewrite elem_of_cons. naive_solver.
Qed.

Lemma sorted_set_covers x l :
  x ∈ l → ∃ y, y ∈ sorted_set ltb l ∧ (y = x ∨ ltb x y = false ∧ ltb y x = false).
Proof.
  induction l as [|z l IH]; cbn; [by intros ?%not_elem_of_nil|].
  intros [->|Hx]%elem_of_cons; [apply insert_unique_covers|].
  destruct (IH Hx) as (y & Hy & Heq). eauto using insert_unique_keeps.
Qed.

(** When order-equivalent elements of [l] are equal, no element is lost. *)
Lemma elem_of_sorted_set x l :
  (∀ y, x ∈ l → y ∈ l → ltb x y = false → ltb y x = false → y = x) →
  x ∈ sorted_set ltb l ↔ x ∈ l.
Proof.
  intros Heq. split; [apply sorted_set_elem|].
  intros Hx. destruct (sorted_set_covers x l Hx) as (y & Hy & [->|[H1 H2]]); [done|].
  by rewrite <-(Heq y) by eauto using sorted_set_elem.
Qed.
End SortedSet.

Lemma sorted_set_nil {A} (ltb : A → A → bool) l : sorted_set ltb l = [] ↔ l = [].
Proof.
  split; [|by intros ->]. destruct l as [|x l]; [done|]. cbn. intros E.
  destruct (insert_unique_covers ltb x (sorted_set ltb l)) as (y & Hy & _).
  unfold sorted_set in Hy. by rewrite E, elem_of_nil in Hy.
Qed.

(** ** Exact rationals for the floats the program computes with *)

Definition Qltb (a b : Q) : bool := negb (Qle_bool b a).

Lemma Qltb_lt a b : Qltb a b = true ↔ (a < b)%Q.
Proof.
  unfold Qltb. rewrite negb_true_iff. split.
  - intros H. apply Qnot_le_lt. intros Hle. apply Qle_bool_iff in Hle. congruence.
  - intros H. apply not_true_is_false. intros Hle%Qle_bool_iff. by apply Qlt_not_le in H.
Qed.

Lemma Qltb_ge a b : Qltb a b = false ↔ (b <= a)%Q.
Proof.
  unfold Qltb. rewrite negb_false_iff. apply Qle_bool_iff.
Qed.

Lemma filter_sublist {A} (p : A → bool) (l : list A) : List.filter p l `sublist_of` l.
Proof. induction l as [|x l IH]; cbn; [done|]. case_test; by constructor. Qed.

(** ** [list(dict.fromkeys(l))]: the first occurrences, in order *)

Definition fromkeys {A} `{EqDecision A} (l : list A) : list A :=
  foldl (λ seen x, if bool_decide (x ∈ seen) then seen else seen ++ [x]) [] l.

Section FromKeys.
Context {A : Type} `{EqDecision A}.

Lemma fromkeys_fold (seen l : list A) : NoDup seen →
  let r := foldl (λ seen x, if bool_decide (x ∈ seen) then seen else seen ++ [x]) seen l in
  NoDup r ∧ ∀ x, x ∈ r ↔ x ∈ seen ∨ x ∈ l.
Proof.
  revert seen. induction l as [|y l IH]; intros seen Hs; cbn.
  - split; [done|]. intros x. rewrite elem_of_nil. tauto.
  - case_bool_decide as Hy.
    + destruct (IH seen Hs) as [H1 H2]. split; [done|]. intros x. rewrite H2, elem_of_cons.
      split; [tauto|]. intros [?|[->|?]]; tauto.
    + destruct (IH (seen ++ [y])) as [H1 H2]; [apply NoDup_app; split_and!; [done|set_solver|apply NoDup_singleton]|].
      split; [done|]. intros x. rewrite H2, elem_of_app, !elem_of_cons, elem_of_nil. tauto.
Qed.

Lemma fromkeys_NoDup (l : list A) : NoDup (fromkeys l).
Proof. apply fromkeys_fold. constructor. Qed.

Lemma elem_of_fromkeys (l : list A) x : x ∈ fromkeys l ↔ x ∈ l.
Proof. destruct (fromkeys_fold [] l) as [_ H]; [constructor|]. unfold fromkeys. rewrite H, elem_of_nil. tauto. Qed.
End FromKeys.

(** ** Generic list facts *)

Lemma forallb_Forall_iff {A} (f : A → bool) l :
  forallb f l = true ↔ Forall (λ x, f x = true) l.
Proof.
  rewrite forallb_forall, List.Forall_forall. done.
Qed.

Lemma Forall2_rev {A B} (P : A → B → Prop) l k :
  Forall2 P l k → Forall2 P (rev l) (rev k).
Proof. induction 1; cbn; [constructor|]. apply Forall2_app; [done|]. by repeat constructor. Qed.

Lemma filter_all {A} (P : A → Prop) `{∀ x, Decision (P x)} (l : list A) :
  Forall P l → filter P l = l.
Proof. induction 1; [done|]. by rewrite filter_cons_True; f_equal. Qed.

Create HintDb gallery discriminated.
Create Rewrite HintDb gallery.
#[export] Hint Constructors Forall Forall2 : gallery.
#[export] Hint Resolve Nat.le_refl Z.le_refl : gallery.
#[export] Hint Rewrite @length_app @length_map : gallery.
