(* ===== verification/PyStr.v ===== *)
(** * Python strings

    A Python [str] is the list of its code points.  The operations below are
    the [str] methods and builtins the modelled modules use.  What depends on
    the Unicode character database beyond the fixed white-space set is the
    class [Unicode]; its laws fix the ASCII range. *)

From stdpp Require Import base strings list numbers.
From S2P Require Import Prelude.

Abbreviation pystr := (list Z).

(** A literal (ASCII) string. *)
Definition u (s : string) : pystr :=
  (λ a, Z.of_N (Ascii.N_of_ascii a)) <$> String.list_ascii_of_string s.

(** ** White space ([str.isspace] on one character) *)
Definition py_isspace (c : Z) : bool :=
  ((9 <=? c) && (c <=? 13)) || ((28 <=? c) && (c <=? 32)) || (c =? 133) || (c =? 160) ||
  (c =? 5760) || ((8192 <=? c) && (c <=? 8202)) || (c =? 8232) || (c =? 8233) ||
  (c =? 8239) || (c =? 8287) || (c =? 12288).

Fixpoint lstrip (s : pystr) : pystr :=
  match s with
  | c :: s' => if py_isspace c then lstrip s' else s
  | [] => []
  end.
Definition rstrip (s : pystr) : pystr := rev (lstrip (rev s)).
Definition strip (s : pystr) : pystr := rstrip (lstrip s).

(** ** Searching and splitting *)
Fixpoint startswith (s prefix : pystr) : bool :=
  match prefix, s with
  | [], _ => true
  | p :: prefix', c :: s' => (p =? c) && startswith s' prefix'
  | _ :: _, [] => false
  end.
Definition endswith (s suffix : pystr) : bool := startswith (rev s) (rev suffix).
Definition mem_char (c : Z) (s : pystr) : bool := existsb (Z.eqb c) s.

Fixpoint contains (s sub : pystr) : bool :=
  startswith s sub || match s with [] => false | _ :: s' => contains s' sub end.

(** [s.split(sep)] for a one-character separator. *)
Fixpoint split_on (sep : Z) (s : pystr) : list pystr :=
  match s with
  | [] => [[]]
  | c :: s' =>
      if c =? sep then [] :: split_on sep s'
      else match split_on sep s' with
           | part :: parts => (c :: part) :: parts
           | [] => [[c]]
           end
  end.

(** [s.split(sep, 1)], as the parts around the first separator. *)
Fixpoint partition_on (sep : Z) (s : pystr) : option (pystr * pystr) :=
  match s with
  | [] => None
  | c :: s' =>
      if c =? sep then Some ([], s')
      else match partition_on sep s' with
           | Some (a, b) => Some (c :: a, b)
           | None => None
           end
  end.

(** [s.replace(c, r)] for a one-character pattern. *)
Definition replace_char (c : Z) (r s : pystr) : pystr :=
  s ≫= λ x, if x =? c then r else [x].

(** [sep.join(parts)] *)
Fixpoint join (sep : pystr) (parts : list pystr) : pystr :=
  match parts with
  | [] => []
  | [p] => p
  | p :: parts' => p ++ sep ++ join sep parts'
  end.

(** String order: by code point. *)
Fixpoint str_ltb (a b : pystr) : bool :=
  match a, b with
  | [], _ :: _ => true
  | x :: a', y :: b' => (x <? y) || ((x =? y) && str_ltb a' b')
  | _, [] => false
  end.

(** ** Case and digits *)

Definition is_ascii (s : pystr) : bool := forallb (λ c, (0 <=? c) && (c <? 128)) s.
Definition ascii_lower (c : Z) : Z := if (65 <=? c) && (c <=? 90) then c + 32 else c.
Definition ascii_upper (c : Z) : Z := if (97 <=? c) && (c <=? 122) then c - 32 else c.
Definition ascii_digit (c : Z) : option Z :=
  if (48 <=? c) && (c <=? 57) then Some (c - 48) else None.
Definition ascii_alnum (c : Z) : bool :=
  ((48 <=? c) && (c <=? 57)) || ((65 <=? c) && (c <=? 90)) || ((97 <=? c) && (c <=? 122)).

(** The Unicode character database: [str.lower], [str.upper], the decimal
    digit value of a character ([int], regex [\d]) and regex [\w]. *)
Class Unicode := {
  lower : pystr → pystr;
  upper : pystr → pystr;
  decimal : Z → option Z;
  word_char : Z → bool;
  lower_ascii : ∀ s, is_ascii s = true → lower s = ascii_lower <$> s;
  lower_prefix : ∀ a b, is_ascii a = true → ∃ r, lower (a ++ b) = (ascii_lower <$> a) ++ r;
  lower_lower : ∀ s, lower (lower s) = lower s;
  lower_strip : ∀ s, strip s = s → strip (lower s) = lower s;
  upper_ascii : ∀ s, is_ascii s = true → upper s = ascii_upper <$> s;
  decimal_ascii : ∀ c, 0 <= c < 128 → decimal c = ascii_digit c;
  decimal_range : ∀ c d, decimal c = Some d → 0 <= d <= 9;
  word_ascii : ∀ c, 0 <= c < 128 → word_char c = ascii_alnum c || (c =? 95) }.

(** [int(s)] on a string: surrounding white space, a sign, decimal digits,
    single underscores between digits. *)
Fixpoint int_digits `{Unicode} (s : pystr) (acc : Z) (after_digit : bool) : option Z :=
  match s with
  | [] => if after_digit then Some acc else None
  | c :: s' =>
      if (c =? 95) then (if after_digit then int_digits s' acc false else None)
      else match decimal c with
           | Some d => int_digits s' (10 * acc + d) true
           | None => None
           end
  end.

Definition py_int `{Unicode} (s : pystr) : option Z :=
  match strip s with
  | 45 :: s' => Z.opp <$> int_digits s' 0 false
  | 43 :: s' => int_digits s' 0 false
  | s' => int_digits s' 0 false
  end.

(** ** Decimal printing ([str(n)] for an int) *)

Fixpoint digits_of (fuel : nat) (n : Z) (acc : pystr) : pystr :=
  match fuel with
  | O => acc
  | S fuel' =>
      let acc' := (48 + n mod 10) :: acc in
      if n / 10 =? 0 then acc' else digits_of fuel' (n / 10) acc'
  end.

(** A number below [2^k] has at most [k] decimal digits, so [Z.log2] gives
    enough fuel. *)
Definition py_str_int (n : Z) : pystr :=
  if n <? 0 then 45 :: digits_of (S (Z.to_nat (Z.log2 (- n)))) (- n) []
  else digits_of (S (Z.to_nat (Z.log2 n))) n [].

(** ** Facts *)

Lemma startswith_app s p : startswith (p ++ s) p = true.
Proof. induction p as [|c p IH]; cbn; [by destruct s|]. by rewrite Z.eqb_refl, IH. Qed.

Lemma startswith_spec s p : startswith s p = true ↔ ∃ s', s = p ++ s'.
Proof.
  split.
  - revert s. induction p as [|c p IH]; intros [|x s]; cbn; try done; [by eexists..|].
    intros [->%Z.eqb_eq (s' & ->)%IH]%andb_true_iff. by exists s'.
  - intros [s' ->]. apply startswith_app.
Qed.

Lemma mem_char_elem c s : mem_char c s = true ↔ c ∈ s.
Proof.
  unfold mem_char. rewrite existsb_exists. setoid_rewrite Z.eqb_eq.
  setoid_rewrite <-list_elem_of_In. naive_solver.
Qed.

Lemma mem_char_false c s : mem_char c s = false ↔ c ∉ s.
Proof. rewrite <-mem_char_elem. by destruct (mem_char c s). Qed.

Lemma lstrip_no_space s :
  match s with c :: _ => py_isspace c = false | [] => True end → lstrip s = s.
Proof. destruct s as [|c s]; cbn; [done|]. by intros ->. Qed.

Lemma lstrip_head s : match lstrip s with c :: _ => py_isspace c = false | [] => True end.
Proof. induction s as [|c s IH]; cbn; [done|]. by destruct (py_isspace c) eqn:E. Qed.

Lemma lstrip_lstrip s : lstrip (lstrip s) = lstrip s.
Proof. apply lstrip_no_space, lstrip_head. Qed.

Lemma lstrip_suffix s : lstrip s `suffix_of` s.
Proof.
  induction s as [|c s IH]; cbn; [done|]. destruct (py_isspace c); [|done].
  by apply suffix_cons_r.
Qed.

Lemma lstrip_snoc s c :
  py_isspace c = false → ∃ s', lstrip (s ++ [c]) = s' ++ [c].
Proof.
  intros Hc. induction s as [|x s IH]; cbn; [rewrite Hc; by exists []|].
  destruct (py_isspace x); [done|]. by exists (x :: s).
Qed.

(** Stripping twice is stripping once. *)
Lemma strip_strip s : strip (strip s) = strip s.
Proof.
  unfold strip at 2 3. set (t := lstrip s). unfold strip.
  assert (Ht := lstrip_head s). fold t in Ht.
  assert (lstrip (rstrip t) = rstrip t) as ->.
  { apply lstrip_no_space. unfold rstrip. destruct t as [|c t']; [done|].
    cbn [rev]. destruct (lstrip_snoc (rev t') c Ht) as [s' ->].
    rewrite rev_app_distr. done. }
  unfold rstrip. by rewrite rev_involutive, lstrip_lstrip.
Qed.

Lemma lstrip_all_nonspace s : forallb (λ c, negb (py_isspace c)) s = true → lstrip s = s.
Proof.
  destruct s as [|c s]; cbn; [done|].
  by intros [->%negb_true_iff _]%andb_true_iff.
Qed.

Lemma strip_nonspace s : forallb (λ c, negb (py_isspace c)) s = true → strip s = s.
Proof.
  intros Hs. unfold strip, rstrip. rewrite (lstrip_all_nonspace s) by done.
  rewrite lstrip_all_nonspace; [apply rev_involutive|].
  rewrite forallb_Forall_iff in *. by rewrite <-Permutation_rev.
Qed.

Lemma split_on_app sep a b :
  sep ∉ a → split_on sep (a ++ sep :: b) = a :: split_on sep b.
Proof.
  induction a as [|c a IH]; cbn; [by rewrite Z.eqb_refl|].
  intros [Hc Ha]%not_elem_of_cons. apply Z.eqb_neq in Hc. rewrite Z.eqb_sym, Hc.
  by rewrite IH.
Qed.

Lemma split_on_none sep a : sep ∉ a → split_on sep a = [a].
Proof.
  induction a as [|c a IH]; cbn; [done|].
  intros [Hc Ha]%not_elem_of_cons. apply Z.eqb_neq in Hc. rewrite Z.eqb_sym, Hc.
  by rewrite IH.
Qed.

Lemma str_ltb_trans a b c : str_ltb a b = true → str_ltb b c = true → str_ltb a c = true.
Proof.
  revert b c. induction a as [|x a IH]; intros [|y b] [|z c]; cbn; try done.
  rewrite !orb_true_iff, !andb_true_iff, !Z.ltb_lt, !Z.eqb_eq.
  intros [?|[-> ?]] [?|[-> ?]]; [left; lia..|]. right. eauto.
Qed.

Lemma str_ltb_total a b : str_ltb a b = false → str_ltb b a = false → a = b.
Proof.
  revert b. induction a as [|x a IH]; intros [|y b]; cbn; try done.
  rewrite !orb_false_iff, !andb_false_iff, !Z.ltb_ge, !Z.eqb_neq.
  intros [? H1] [? H2]. assert (x = y) as -> by lia. f_equal. naive_solver.
Qed.

Lemma elem_of_sorted_strings (x : pystr) l : x ∈ sorted_set str_ltb l ↔ x ∈ l.
Proof. apply elem_of_sorted_set. intros y _ _ ? ?. symmetry. by apply str_ltb_total. Qed.

Lemma lstrip_eq s : lstrip s = s ↔ match s with c :: _ => py_isspace c = false | [] => True end.
Proof.
  split; [|apply lstrip_no_space]. intros E. rewrite <-E. apply lstrip_head.
Qed.

(** A string is stripped when neither end is white space. *)
Lemma strip_eq s :
  match s with c :: _ => py_isspace c = false | [] => True end →
  match rev s with c :: _ => py_isspace c = false | [] => True end → strip s = s.
Proof.
  intros Hh Hl. unfold strip, rstrip. rewrite (lstrip_no_space s) by done.
  rewrite lstrip_no_space by done. apply rev_involutive.
Qed.

Lemma strip_ends s :
  strip s = s →
  match s with c :: _ => py_isspace c = false | [] => True end ∧
  match rev s with c :: _ => py_isspace c = false | [] => True end.
Proof.
  intros E. assert (lstrip s = s) as El.
  { assert (Hs := lstrip_suffix s). unfold strip, rstrip in E.
    assert (length s <= length (lstrip s))%nat as Hlen.
    { rewrite <-E at 1. rewrite length_rev.
      assert (Hr := suffix_length _ _ (lstrip_suffix (rev (lstrip s)))).
      by rewrite length_rev in Hr. }
    destruct Hs as [k Hk]. assert (Hk' := f_equal length Hk). rewrite length_app in Hk'.
    destruct k; [done|]. cbn in Hk'. lia. }
  split; [by apply lstrip_eq|]. unfold strip in E. rewrite El in E. unfold rstrip in E.
  apply (f_equal (@rev Z)) in E. rewrite rev_involutive in E. by apply lstrip_eq.
Qed.

Lemma ascii_lower_space c : py_isspace (ascii_lower c) = py_isspace c.
Proof.
  unfold ascii_lower. case_test; [|done].
  apply andb_true_iff in Heqb as [?%Z.leb_le ?%Z.leb_le].
  assert (∀ x, 65 <= x <= 122 → py_isspace x = false) as Hx.
  { intros x Hx. unfold py_isspace. repeat rewrite orb_false_iff || rewrite andb_false_iff.
    rewrite !Z.leb_gt, !Z.eqb_neq. lia. }
  rewrite !Hx; [done|lia..].
Qed.

Lemma ascii_lower_idemp c : ascii_lower (ascii_lower c) = ascii_lower c.
Proof.
  unfold ascii_lower. destruct ((65 <=? c) && (c <=? 90)) eqn:E; [|by rewrite E].
  apply andb_true_iff in E as [?%Z.leb_le ?%Z.leb_le].
  by rewrite (proj2 (Z.leb_gt (c + 32) 90)), andb_false_r by lia.
Qed.

(** The ASCII part of the database. *)
Global Instance ascii_unicode : Unicode.
Proof.
  refine {| lower s := ascii_lower <$> s; upper s := ascii_upper <$> s;
            decimal := ascii_digit; word_char c := ascii_alnum c || (c =? 95) |}; try done.
  - intros a b _. exists (ascii_lower <$> b). apply fmap_app.
  - intros s. rewrite <-list_fmap_compose. apply list_fmap_ext. intros i x _.
    apply ascii_lower_idemp.
  - intros s [Hh Hl]%strip_ends. apply strip_eq.
    + destruct s; [done|]. cbn. by rewrite ascii_lower_space.
    + rewrite <-map_rev. destruct (rev s); [done|]. cbn. by rewrite ascii_lower_space.
  - intros c d. unfold ascii_digit. case_test; [|done]. intros [= <-].
    apply andb_true_iff in Heqb as [?%Z.leb_le ?%Z.leb_le]. lia.
Defined.


(** A prefix test reads no further than the prefix. *)
Lemma startswith_take a r p :
  startswith (a ++ r) p = true → startswith a (take (length a) p) = true.
Proof.
  revert p. induction a as [|c a IH]; intros [|x p]; cbn; try done.
  rewrite !andb_true_iff. naive_solver.
Qed.
