(* ===== verification/TaskState.v ===== *)
(** * Task state machine

    [backend/app/models/task_state.py]: the canonical status constants of the
    download and import pipelines, the tables of allowed transitions, the
    backward-compatible status names, and [_transition], which every job
    status change goes through.  A job is modelled by the two fields
    [_transition] reads and writes. *)

From stdpp Require Import base gmap strings list relations.
From S2P Require Import Prelude.

(** ** Status constants *)

Definition DOWNLOAD_ENQUEUED : string := "enqueued".
Definition DOWNLOAD_DOWNLOADING : string := "downloading".
Definition DOWNLOAD_DOWNLOADED : string := "downloaded".
Definition DOWNLOAD_IMPORTING : string := "importing".
Definition DOWNLOAD_COMPLETE : string := "complete".
Definition DOWNLOAD_PAUSED : string := "paused".
Definition DOWNLOAD_CANCELLED : string := "cancelled".
Definition DOWNLOAD_FAILED : string := "failed".
Definition DOWNLOAD_STALE : string := "stale".

Definition IMPORT_ENQUEUED : string := "enqueued".
Definition IMPORT_RUNNING : string := "running".
Definition IMPORT_COMPLETE : string := "complete".
Definition IMPORT_PAUSED : string := "paused".
Definition IMPORT_CANCELLED : string := "cancelled".
Definition IMPORT_FAILED : string := "failed".
Definition IMPORT_STALE : string := "stale".

(** ** Status sets *)

Definition DOWNLOAD_TERMINAL_STATUSES : gset string :=
  {[ DOWNLOAD_COMPLETE; DOWNLOAD_CANCELLED; DOWNLOAD_FAILED ]}.
Definition DOWNLOAD_RUNNING_STATUSES : gset string :=
  {[ DOWNLOAD_ENQUEUED; DOWNLOAD_DOWNLOADING; DOWNLOAD_DOWNLOADED; DOWNLOAD_IMPORTING ]}.
Definition DOWNLOAD_RETRYABLE_STATUSES : gset string :=
  {[ DOWNLOAD_FAILED; DOWNLOAD_STALE; DOWNLOAD_DOWNLOADING; DOWNLOAD_COMPLETE ]}.
Definition DOWNLOAD_PAUSABLE_STATUSES : gset string :=
  {[ DOWNLOAD_ENQUEUED; DOWNLOAD_DOWNLOADING; DOWNLOAD_DOWNLOADED; DOWNLOAD_IMPORTING ]}.
Definition DOWNLOAD_CANCELLABLE_STATUSES : gset string :=
  {[ DOWNLOAD_ENQUEUED; DOWNLOAD_DOWNLOADING; DOWNLOAD_DOWNLOADED; DOWNLOAD_IMPORTING;
     DOWNLOAD_PAUSED; DOWNLOAD_FAILED; DOWNLOAD_STALE ]}.
Definition IMPORT_TERMINAL_STATUSES : gset string :=
  {[ IMPORT_COMPLETE; IMPORT_CANCELLED; IMPORT_FAILED ]}.
Definition IMPORT_PAUSABLE_STATUSES : gset string :=
  {[ IMPORT_ENQUEUED; IMPORT_RUNNING ]}.
Definition IMPORT_CANCELLABLE_STATUSES : gset string :=
  {[ IMPORT_ENQUEUED; IMPORT_RUNNING; IMPORT_PAUSED; IMPORT_FAILED; IMPORT_STALE ]}.

(** ** Allowed transitions *)

Definition ALLOWED_DOWNLOAD_TRANSITIONS : gmap string (gset string) := {[
  DOWNLOAD_ENQUEUED := {[ DOWNLOAD_DOWNLOADING; DOWNLOAD_PAUSED; DOWNLOAD_CANCELLED;
                          DOWNLOAD_FAILED; DOWNLOAD_STALE ]};
  DOWNLOAD_DOWNLOADING := {[ DOWNLOAD_DOWNLOADED; DOWNLOAD_PAUSED; DOWNLOAD_CANCELLED;
                             DOWNLOAD_FAILED; DOWNLOAD_STALE ]};
  DOWNLOAD_DOWNLOADED := {[ DOWNLOAD_IMPORTING; DOWNLOAD_COMPLETE; DOWNLOAD_PAUSED;
                            DOWNLOAD_CANCELLED; DOWNLOAD_FAILED; DOWNLOAD_STALE ]};
  DOWNLOAD_IMPORTING := {[ DOWNLOAD_COMPLETE; DOWNLOAD_PAUSED; DOWNLOAD_CANCELLED;
                           DOWNLOAD_FAILED; DOWNLOAD_STALE ]};
  DOWNLOAD_PAUSED := {[ DOWNLOAD_ENQUEUED; DOWNLOAD_IMPORTING; DOWNLOAD_CANCELLED;
                        DOWNLOAD_FAILED; DOWNLOAD_STALE ]};
  DOWNLOAD_FAILED := {[ DOWNLOAD_ENQUEUED; DOWNLOAD_CANCELLED; DOWNLOAD_IMPORTING ]};
  DOWNLOAD_STALE := {[ DOWNLOAD_ENQUEUED; DOWNLOAD_CANCELLED; DOWNLOAD_IMPORTING ]};
  DOWNLOAD_COMPLETE := {[ DOWNLOAD_ENQUEUED ]};
  DOWNLOAD_CANCELLED := ∅ ]}.

Definition ALLOWED_IMPORT_TRANSITIONS : gmap string (gset string) := {[
  IMPORT_ENQUEUED := {[ IMPORT_RUNNING; IMPORT_PAUSED; IMPORT_CANCELLED;
                        IMPORT_FAILED; IMPORT_STALE ]};
  IMPORT_RUNNING := {[ IMPORT_COMPLETE; IMPORT_PAUSED; IMPORT_CANCELLED;
                       IMPORT_FAILED; IMPORT_STALE ]};
  IMPORT_PAUSED := {[ IMPORT_ENQUEUED; IMPORT_CANCELLED; IMPORT_FAILED; IMPORT_STALE ]};
  IMPORT_FAILED := {[ IMPORT_ENQUEUED; IMPORT_CANCELLED ]};
  IMPORT_STALE := {[ IMPORT_ENQUEUED; IMPORT_CANCELLED ]};
  IMPORT_COMPLETE := ∅;
  IMPORT_CANCELLED := ∅ ]}.

(** ** Backward compatibility *)

Definition OLD_TO_NEW_DOWNLOAD : gmap string string := {[
  "pending" := DOWNLOAD_ENQUEUED;
  "downloading" := DOWNLOAD_DOWNLOADING;
  "downloaded" := DOWNLOAD_DOWNLOADED;
  "importing" := DOWNLOAD_IMPORTING;
  "complete" := DOWNLOAD_COMPLETE;
  "paused" := DOWNLOAD_PAUSED;
  "failed" := DOWNLOAD_FAILED;
  "stale" := DOWNLOAD_STALE ]}.

Definition OLD_TO_NEW_IMPORT : gmap string string := {[
  "pending" := IMPORT_ENQUEUED;
  "running" := IMPORT_RUNNING;
  "complete" := IMPORT_COMPLETE;
  "failed" := IMPORT_FAILED;
  "stale" := IMPORT_STALE ]}.

(** ** Priorities and stages *)

Definition TaskPriority_label (value : Z) : string + Z :=
  match assoc value [(0, "low"); (10, "normal"); (20, "high"); (30, "critical")]%Z with
  | Some l => inl l
  | None => inr value
  end.

Definition PipelineStage_ordered_stages : list string :=
  [ "enqueued"; "configuring"; "downloading"; "post_download"; "enqueuing_import";
    "importing"; "import_indexing"; "complete" ].

(** ** Transition validation *)

Record Job := mkJob { status : string; error_log : option string }.

Record InvalidTaskTransition := mkInvalid {
  invalid_from : string; invalid_to : string; invalid_allowed : gset string }.

Definition _normalize_status (status : string) (mapping : gmap string string) : string :=
  default status (mapping !! status).

Definition _transition (job : Job) (allowed : gmap string (gset string))
    (new_status : string) (error : option string)
    (status_mapping : option (gmap string string)) : result InvalidTaskTransition Job :=
  let normalize s := match status_mapping with
                     | Some m => if decide (m = ∅) then s else _normalize_status s m
                     | None => s end in
  let new_status := normalize new_status in
  let old_status := normalize (status job) in
  let set_error j := match error with
                     | Some _ => mkJob (status j) error
                     | None => j end in
  if decide (old_status = new_status) then Ok (set_error job)
  else
    let allowed_targets := default ∅ (allowed !! old_status) in
    if decide (new_status ∈ allowed_targets)
    then Ok (set_error (mkJob new_status (error_log job)))
    else Err (mkInvalid old_status new_status allowed_targets).

Definition transition_download_job (job : Job) (new_status : string)
    (error : option string) : result InvalidTaskTransition Job :=
  _transition job ALLOWED_DOWNLOAD_TRANSITIONS new_status error (Some OLD_TO_NEW_DOWNLOAD).

Definition transition_import_job (job : Job) (new_status : string)
    (error : option string) : result InvalidTaskTransition Job :=
  _transition job ALLOWED_IMPORT_TRANSITIONS new_status error (Some OLD_TO_NEW_IMPORT).

(** ** The tables as relations *)

(** The edges of a transition table, as a list: facts about every edge are
    then decided by evaluation. *)
Definition edges (T : gmap string (gset string)) : list (string * string) :=
  map_to_list T ≫= λ p, (λ t, (p.1, t)) <$> elements p.2.

Definition edge (T : gmap string (gset string)) (s t : string) : Prop :=
  t ∈ default ∅ (T !! s).

Global Instance edge_dec T s t : Decision (edge T s t).
Proof. unfold edge. apply _. Defined.

Lemma elem_of_edges T s t : (s, t) ∈ edges T ↔ edge T s t.
Proof.
  unfold edges, edge. rewrite list_elem_of_bind. split.
  - intros ([s' ts] & Hin & Hmem). cbn in *.
    apply list_elem_of_fmap in Hin as (t' & [= -> ->] & Hel%elem_of_elements).
    apply elem_of_map_to_list in Hmem. by rewrite Hmem.
  - destruct (T !! s) as [ts|] eqn:Hts; cbn; [|set_solver].
    intros Ht. exists (s, ts). split; [|by apply elem_of_map_to_list].
    apply list_elem_of_fmap. exists t. split; [done|by apply elem_of_elements].
Qed.

(** A test that evaluates to true on the edge list holds of every edge; the
    same for the elements of a status set. *)
Lemma edges_check T (f : string → string → bool) :
  forallb (λ p, f p.1 p.2) (edges T) = true → ∀ s t, edge T s t → f s t = true.
Proof.
  intros Hall s t Hst%elem_of_edges%list_elem_of_In.
  rewrite forallb_Forall_iff, List.Forall_forall in Hall. exact (Hall _ Hst).
Qed.

Lemma set_check (X : gset string) (f : string → bool) :
  forallb f (elements X) = true → ∀ s, s ∈ X → f s = true.
Proof.
  intros Hall s Hs%elem_of_elements%list_elem_of_In.
  rewrite forallb_Forall_iff, List.Forall_forall in Hall. exact (Hall _ Hs).
Qed.

(** The meaning of the two entry points in terms of [edge]. *)
Definition norm (M : gmap string string) (s : string) : string := _normalize_status s M.

Lemma transition_spec T M job s e job' : M ≠ ∅ →
  _transition job T s e (Some M) = Ok job' ↔
  error_log job' = match e with Some _ => e | None => error_log job end ∧
  ((norm M (status job) = norm M s ∧ status job' = status job) ∨
   (norm M (status job) ≠ norm M s ∧ edge T (norm M (status job)) (norm M s) ∧
    status job' = norm M s)).
Proof.
  intros HM. unfold _transition, edge. rewrite (decide_False (P := M = ∅)) by done.
  change (_normalize_status ?x M) with (norm M x).
  repeat case_decide; destruct e, job' as [st' er'], job as [st er]; cbn in *;
    naive_solver.
Qed.

Lemma download_spec job s e job' :
  transition_download_job job s e = Ok job' ↔
  error_log job' = match e with Some _ => e | None => error_log job end ∧
  ((norm OLD_TO_NEW_DOWNLOAD (status job) = norm OLD_TO_NEW_DOWNLOAD s ∧
    status job' = status job) ∨
   (norm OLD_TO_NEW_DOWNLOAD (status job) ≠ norm OLD_TO_NEW_DOWNLOAD s ∧
    edge ALLOWED_DOWNLOAD_TRANSITIONS (norm OLD_TO_NEW_DOWNLOAD (status job))
         (norm OLD_TO_NEW_DOWNLOAD s) ∧
    status job' = norm OLD_TO_NEW_DOWNLOAD s)).
Proof. by apply transition_spec. Qed.

Lemma import_spec job s e job' :
  transition_import_job job s e = Ok job' ↔
  error_log job' = match e with Some _ => e | None => error_log job end ∧
  ((norm OLD_TO_NEW_IMPORT (status job) = norm OLD_TO_NEW_IMPORT s ∧
    status job' = status job) ∨
   (norm OLD_TO_NEW_IMPORT (status job) ≠ norm OLD_TO_NEW_IMPORT s ∧
    edge ALLOWED_IMPORT_TRANSITIONS (norm OLD_TO_NEW_IMPORT (status job))
         (norm OLD_TO_NEW_IMPORT s) ∧
    status job' = norm OLD_TO_NEW_IMPORT s)).
Proof. by apply transition_spec. Qed.

(** A pipeline run: the requests [(new_status, error_log)] applied in order. *)
Definition run_download (job : Job) (reqs : list (string * option string)) :=
  foldM (λ j r, transition_download_job j r.1 r.2) job reqs.
Definition run_import (job : Job) (reqs : list (string * option string)) :=
  foldM (λ j r, transition_import_job j r.1 r.2) job reqs.

(** ** Properties *)

(** Progress rank of the four running statuses. *)
Definition rank (s : string) : nat :=
  if decide (s = DOWNLOAD_ENQUEUED) then 0
  else if decide (s = DOWNLOAD_DOWNLOADING) then 1
  else if decide (s = DOWNLOAD_DOWNLOADED) then 2 else 3.

Lemma running_edges_advance s t :
  edge ALLOWED_DOWNLOAD_TRANSITIONS s t →
  s ∈ DOWNLOAD_RUNNING_STATUSES → t ∈ DOWNLOAD_RUNNING_STATUSES → (rank s < rank t)%nat.
Proof.
  intros Hed. apply (bool_decide_eq_true (_ → _ → _)). revert s t Hed.
  apply edges_check. vm_compute. reflexivity.
Qed.

Lemma norm_running s :
  s ∈ DOWNLOAD_RUNNING_STATUSES → norm OLD_TO_NEW_DOWNLOAD s = s.
Proof.
  intros Hs. unfold DOWNLOAD_RUNNING_STATUSES in Hs.
  repeat setoid_rewrite elem_of_union in Hs.
  destruct_or!; apply elem_of_singleton in Hs as ->; reflexivity.
Qed.

(** No row of either table leads out of [cancelled]. *)
Lemma cancelled_no_edge t :
  ¬ edge ALLOWED_DOWNLOAD_TRANSITIONS DOWNLOAD_CANCELLED t ∧
  ¬ edge ALLOWED_IMPORT_TRANSITIONS DOWNLOAD_CANCELLED t.
Proof. split; apply not_elem_of_empty. Qed.

Lemma run_download_cancelled job reqs job' :
  status job = DOWNLOAD_CANCELLED → run_download job reqs = Ok job' →
  status job' = DOWNLOAD_CANCELLED.
Proof.
  apply (foldM_inv _ (λ j, status j = DOWNLOAD_CANCELLED)). intros x [s e] y Hx.
  intros [_ [[_ ->]|(_ & Hed & _)]]%download_spec; [done|].
  rewrite Hx in Hed. by apply cancelled_no_edge in Hed.
Qed.

Lemma run_import_cancelled job reqs job' :
  status job = DOWNLOAD_CANCELLED → run_import job reqs = Ok job' →
  status job' = DOWNLOAD_CANCELLED.
Proof.
  apply (foldM_inv _ (λ j, status j = DOWNLOAD_CANCELLED)). intros x [s e] y Hx.
  intros [_ [[_ ->]|(_ & Hed & _)]]%import_spec; [done|].
  rewrite Hx in Hed. by apply cancelled_no_edge in Hed.
Qed.

(** A cancelled download or import job stays cancelled: no sequence of
    requests that [_transition] accepts, with any error logs, changes the
    status of a cancelled job. *)
Theorem cancelled_absorbing job reqs job' :
  status job = DOWNLOAD_CANCELLED →
  run_download job reqs = Ok job' ∨ run_import job reqs = Ok job' →
  status job' = DOWNLOAD_CANCELLED.
Proof.
  intros Hc [Hrun|Hrun]; eauto using run_download_cancelled, run_import_cancelled.
Qed.

Lemma cancelled_absorbing_witness :
  ∃ job', run_download (mkJob "cancelled" None) [("cancelled", Some "again")] = Ok job' ∧
          status job' = DOWNLOAD_CANCELLED.
Proof.
  eexists. split; [vm_compute; reflexivity|].
  apply (cancelled_absorbing (mkJob "cancelled" None) [("cancelled", Some "again")]);
    [reflexivity|left; vm_compute; reflexivity].
Defined.

(** A download job never moves backwards while it stays inside the
    running statuses: after any accepted requests for running statuses its
    progress rank has not decreased, so a job is re-enqueued only after it
    was paused, failed, stale or complete. *)
Theorem running_never_regresses job reqs job' :
  status job ∈ DOWNLOAD_RUNNING_STATUSES →
  Forall (λ r, r.1 ∈ DOWNLOAD_RUNNING_STATUSES) reqs →
  run_download job reqs = Ok job' →
  status job' ∈ DOWNLOAD_RUNNING_STATUSES ∧ (rank (status job) ≤ rank (status job'))%nat.
Proof.
  intros Hjob Hreqs. revert job Hjob. unfold run_download.
  induction Hreqs as [|[s e] reqs Hs _ IH]; intros job Hjob Hrun; cbn in Hrun.
  { res_simpl. auto. }
  res_simpl. rename x into job1. apply download_spec in H as [_ Hst]. cbn in Hs.
  rewrite !norm_running in Hst by done.
  assert (status job1 ∈ DOWNLOAD_RUNNING_STATUSES ∧
          (rank (status job) ≤ rank (status job1))%nat) as [Hj1 Hle].
  { destruct Hst as [[_ ->]|(_ & Hed & ->)]; [done|].
    split; [done|]. apply running_edges_advance in Hed; [lia|done|done]. }
  destruct (IH job1 Hj1 H0). split; [done|lia].
Qed.

Lemma running_never_regresses_witness :
  ∃ job', run_download (mkJob "enqueued" None) [("downloading", None); ("downloaded", None)]
          = Ok job' ∧ (rank "enqueued" ≤ rank (status job'))%nat.
Proof.
  eexists. split; [vm_compute; reflexivity|].
  apply (running_never_regresses (mkJob "enqueued" None)
           [("downloading", None); ("downloaded", None)]).
  - apply (bool_decide_unpack _). vm_compute. exact I.
  - repeat constructor; apply (bool_decide_unpack _); vm_compute; exact I.
  - vm_compute. reflexivity.
Defined.

(** The statuses of a download job. *)
Definition download_statuses : gset string := dom ALLOWED_DOWNLOAD_TRANSITIONS.

Lemma download_edges_closed s t :
  edge ALLOWED_DOWNLOAD_TRANSITIONS s t → t ∈ download_statuses.
Proof.
  intros Hed. refine (proj1 (bool_decide_eq_true _) _). revert s t Hed.
  apply edges_check. vm_compute. reflexivity.
Qed.

(** Every status of the download table except [cancelled] can still reach
    [complete] through accepted requests, and accepted requests never leave
    the table: from a known status a run ends in a known status. *)
Theorem download_always_completable job :
  status job ∈ download_statuses →
  (status job ≠ DOWNLOAD_CANCELLED ↔
   ∃ reqs job', run_download job reqs = Ok job' ∧ status job' = DOWNLOAD_COMPLETE) ∧
  ∀ reqs job', run_download job reqs = Ok job' → status job' ∈ download_statuses.
Proof.
  intros Hjob. split.
  - split.
    + intros Hne.
      assert (status job ∈ elements download_statuses) as Hin by by apply elem_of_elements.
      destruct job as [st er]. cbn in *. vm_compute in Hin.
      exists (if decide (st = DOWNLOAD_COMPLETE) then []
              else if decide (st = DOWNLOAD_IMPORTING) then [("complete", None)]
              else if decide (st = DOWNLOAD_DOWNLOADED) then [("complete", None)]
              else if decide (st = DOWNLOAD_DOWNLOADING)
                   then [("downloaded", None); ("complete", None)]
              else if decide (st = DOWNLOAD_ENQUEUED)
                   then [("downloading", None); ("downloaded", None); ("complete", None)]
              else [("importing", None); ("complete", None)]).
      exists (mkJob DOWNLOAD_COMPLETE er).
      repeat (apply elem_of_cons in Hin as [->|Hin]; [try (vm_compute; done); done|]).
      by apply not_elem_of_nil in Hin.
    + intros (reqs & job' & Hrun & Hc) Hst.
      apply (run_download_cancelled _ _ _ Hst) in Hrun. by rewrite Hrun in Hc.
  - intros reqs job'. revert Hjob. unfold run_download.
    apply (foldM_inv _ (λ j, status j ∈ download_statuses)). intros x [s e] y Hx.
    intros [_ [[_ ->]|(_ & Hed & ->)]]%download_spec; [done|].
    by apply download_edges_closed in Hed.
Qed.

Lemma download_always_completable_witness :
  ∃ reqs job', run_download (mkJob "stale" None) reqs = Ok job' ∧
               status job' = DOWNLOAD_COMPLETE.
Proof.
  apply (download_always_completable (mkJob "stale" None)).
  - apply (bool_decide_unpack _). vm_compute. exact I.
  - discriminate.
Defined.

(** Normalisation is idempotent for a map whose targets are fixed points. *)
Lemma norm_idemp M s :
  map_Forall (λ _ t, default t (M !! t) = t) M → norm M (norm M s) = norm M s.
Proof.
  intros Hall. unfold norm, _normalize_status.
  destruct (M !! s) as [t|] eqn:Hs; cbn; [|by rewrite Hs]. exact (Hall _ _ Hs).
Qed.

(** Two outcomes of a request that denote the same status. *)
Definition same_outcome (M : gmap string string)
    (a b : result InvalidTaskTransition Job) : Prop :=
  match a, b with
  | Ok a, Ok b => norm M (status a) = norm M (status b) ∧ error_log a = error_log b
  | Err a, Err b => a = b
  | _, _ => False
  end.

Definition renamed (M : gmap string string) (job : Job) : Job :=
  mkJob (norm M (status job)) (error_log job).

Lemma transition_renamed T M job s e :
  map_Forall (λ _ t, default t (M !! t) = t) M → M ≠ ∅ →
  same_outcome M (_transition job T s e (Some M))
    (_transition (renamed M job) T (norm M s) e (Some M)).
Proof.
  intros Hall HM. unfold same_outcome, _transition.
  rewrite !(decide_False (P := M = ∅)) by done.
  change (_normalize_status ?x M) with (norm M x).
  unfold renamed. cbn [status error_log]. rewrite !norm_idemp by done.
  repeat case_decide; destruct e; cbn; rewrite ?norm_idemp by done; done.
Qed.

(** The legacy status names are interchangeable with the new ones in both
    pipelines: a request made with legacy names is accepted exactly when the
    request with the current names is, and both leave jobs that denote the
    same status with the same error log. *)
Theorem legacy_names_equivalent job s e :
  same_outcome OLD_TO_NEW_DOWNLOAD
    (transition_download_job job s e)
    (transition_download_job (renamed OLD_TO_NEW_DOWNLOAD job)
       (norm OLD_TO_NEW_DOWNLOAD s) e) ∧
  same_outcome OLD_TO_NEW_IMPORT
    (transition_import_job job s e)
    (transition_import_job (renamed OLD_TO_NEW_IMPORT job) (norm OLD_TO_NEW_IMPORT s) e).
Proof.
  split; apply transition_renamed; try done;
    apply (bool_decide_unpack _); vm_compute; exact I.
Qed.

(** A status set is exactly the sources of the edges into a status. *)
Lemma set_is_preimage T (X : gset string) t :
  forallb (λ p, bool_decide (p.2 = t → p.1 ∈ X)) (edges T) = true →
  forallb (λ s, bool_decide (edge T s t)) (elements X) = true →
  ∀ s, s ∈ X ↔ edge T s t.
Proof.
  intros He HX s. split; intros Hs.
  - apply (bool_decide_eq_true (edge T s t)). exact (set_check X _ HX s Hs).
  - apply (edges_check T (λ s t', bool_decide (t' = t → s ∈ X)) He) in Hs.
    apply bool_decide_eq_true in Hs. by apply Hs.
Qed.

(** The operator actions agree with the tables, but for one entry: the
    pausable and the cancellable sets are exactly the statuses with an edge
    to [paused] and to [cancelled]; the retryable statuses are those with an
    edge to [enqueued] other than [paused], and [downloading], for which a
    retry is always refused by [_transition]. *)
Theorem operator_sets_match_table s :
  (s ∈ DOWNLOAD_PAUSABLE_STATUSES ↔ edge ALLOWED_DOWNLOAD_TRANSITIONS s DOWNLOAD_PAUSED) ∧
  (s ∈ DOWNLOAD_CANCELLABLE_STATUSES ↔
     edge ALLOWED_DOWNLOAD_TRANSITIONS s DOWNLOAD_CANCELLED) ∧
  (s ∈ DOWNLOAD_RETRYABLE_STATUSES ↔
     (edge ALLOWED_DOWNLOAD_TRANSITIONS s DOWNLOAD_ENQUEUED ∧ s ≠ DOWNLOAD_PAUSED) ∨
     s = DOWNLOAD_DOWNLOADING) ∧
  (s ∈ IMPORT_PAUSABLE_STATUSES ↔ edge ALLOWED_IMPORT_TRANSITIONS s IMPORT_PAUSED) ∧
  (s ∈ IMPORT_CANCELLABLE_STATUSES ↔ edge ALLOWED_IMPORT_TRANSITIONS s IMPORT_CANCELLED) ∧
  (∀ e, ∃ err, transition_download_job (mkJob DOWNLOAD_DOWNLOADING e) DOWNLOAD_ENQUEUED None
               = Err err).
Proof.
  split_and!; try by (apply set_is_preimage; vm_compute; reflexivity).
  - rewrite <-(set_is_preimage ALLOWED_DOWNLOAD_TRANSITIONS
      ({[DOWNLOAD_PAUSED]} ∪ DOWNLOAD_RETRYABLE_STATUSES ∖ {[DOWNLOAD_DOWNLOADING]})
      DOWNLOAD_ENQUEUED) by (vm_compute; reflexivity).
    assert (DOWNLOAD_PAUSED ∉ DOWNLOAD_RETRYABLE_STATUSES) by
      (apply (bool_decide_unpack _); vm_compute; exact I).
    assert (DOWNLOAD_DOWNLOADING ∈ DOWNLOAD_RETRYABLE_STATUSES) by
      (apply (bool_decide_unpack _); vm_compute; exact I).
    destruct (decide (s = DOWNLOAD_DOWNLOADING)) as [->|]; set_solver.
  - intros e. eexists. vm_compute. reflexivity.
Qed.
