(* ===== verification/SegmentLog.v ===== *)
(** * Gitllery v1 segment repositories

    [backend/gitllery_format/repository.py]: the bounded, append-only,
    content-addressed log of curation commits.  A repository is its two JSON
    files ([config.json], [manifest.json]) and the segment files, which are
    named by the SHA-256 of their canonical JSON bytes.  Commits are cut into
    frames, frames are packed into segments, and the manifest is advanced
    only after every segment is on disk.

    JSON text, zlib and SHA-256 are the interface [Codec]; a curation change
    and the remaining keys of a commit are opaque types.  Values of the
    manifest and config files are modelled after [json.loads]; a file that
    cannot be read or parsed is [None]. *)

From stdpp Require Import base gmap strings list sorting.
From S2P Require Import Prelude.

(** ** Constants *)

Definition PRODUCT_VERSION : string := "v1".
Definition FORMAT_ID : string := "gitllery-segment".
Definition FORMAT_REVISION : Z := 1.
Definition MAX_COMMITS_PER_SEGMENT : nat := 100.
Definition MAX_SEGMENT_BYTES : Z := 4 * 1024 * 1024.
Definition MAX_CHANGES_PER_FRAME : nat := 25.
Definition MAX_FRAME_BYTES : Z := 1024 * 1024.

(** ** Data *)

(** The three header keys every Gitllery v1 object carries. *)
Record FormatHeader := mkFormat {
  product_version : string; format_id : string; format_revision : Z }.

Definition current_format : FormatHeader :=
  mkFormat PRODUCT_VERSION FORMAT_ID FORMAT_REVISION.

Record CommitBase (Header : Type) := mkBase {
  commit_id : option string;
  parent_commit_id : option string;
  other_keys : Header }.
Arguments mkBase {Header}.
Arguments commit_id {Header}.
Arguments parent_commit_id {Header}.
Arguments other_keys {Header}.

Record Commit (Header Change : Type) := mkCommit {
  base : CommitBase Header; changes : list Change }.
Arguments mkCommit {Header Change}.
Arguments base {Header Change}.
Arguments changes {Header Change}.

Record Frame (Header Change : Type) := mkFrame {
  frame_base : CommitBase Header; frame : Z; frame_count : Z; frame_changes : list Change }.
Arguments mkFrame {Header Change}.
Arguments frame_base {Header Change}.
Arguments frame {Header Change}.
Arguments frame_count {Header Change}.
Arguments frame_changes {Header Change}.

Record Segment (Header Change : Type) := mkSegment {
  seg_format : FormatHeader;
  seg_repository_id : string;
  sequence : Z;
  previous_segment : option string;
  frames : list (Frame Header Change) }.
Arguments mkSegment {Header Change}.
Arguments seg_format {Header Change}.
Arguments seg_repository_id {Header Change}.
Arguments sequence {Header Change}.
Arguments previous_segment {Header Change}.
Arguments frames {Header Change}.

Record Manifest := mkManifest {
  man_format : FormatHeader;
  man_repository_id : string;
  generation : string;
  head_segment : option string;
  last_complete_commit_id : option string;
  last_complete_position : option (option string * Z);
  segment_count : Z;
  commit_count : Z;
  change_count : Z;
  updated_at : string }.

Record Config := mkConfig {
  cfg_format : FormatHeader;
  cfg_repository_id : string;
  cfg_source : option string;
  cfg_creator_dir : option string }.

(** The repository directory.  [None] for [manifest_file] is a missing file,
    [Some None] an unreadable or unparsable one. *)
Record Repo := mkRepo {
  manifest_file : option (option Manifest);
  config_file : option (option Config);
  segment_files : gmap string (list Z) }.

(** [GitlleryFormatError], by message. *)
Inductive GitlleryError :=
| UnsupportedProductVersion (kind : string)
| UnsupportedFormat (kind : string)
| UnsupportedRevision (kind : string)
| CannotReadManifest
| InvalidSegmentDigest
| CannotReadSegment (digest : string)
| SegmentHashMismatch (digest : string)
| SegmentTooLarge
| ChangeTooLarge
| ContinuationFrameTooLarge
| CommitIdRequired
| DoesNotFollow (commit previous : string)
| SegmentCycle
| IncompleteFrames (commit : option string)
| FrameWithoutCommitId.

(** Messages collected by [verify]. *)
Inductive VerifyMessage :=
| ConfigRepositoryMismatch
| CannotVerifyConfig
| BrokenSegmentParent (digest : string)
| InvalidSequence (digest : string)
| ForeignRepository (digest : string)
| BrokenCommitParent (commit : option string)
| HeadMismatch
| CommitWatermarkMismatch
| SegmentCountIncorrect
| CommitCountIncorrect
| ChangeCountIncorrect
| FormatError (e : GitlleryError).

Record VerifyResult := mkVerify {
  ok : bool; v_segments : Z; v_commits : Z; v_changes : Z; v_errors : list VerifyMessage }.

(** [str(x)] of an optional string. *)
Definition py_str (o : option string) : string := default "None" o.

(** [str(x or "")]. *)
Definition str_or_empty (o : option string) : string := default "" o.

Definition hex_digit (a : Ascii.ascii) : bool :=
  existsb (Ascii.eqb a) (String.list_ascii_of_string "0123456789abcdef").

Definition valid_digest (d : string) : bool :=
  (String.length d =? 64)%nat && forallb hex_digit (String.list_ascii_of_string d).

(** ** The serialisation the repository relies on

    [canonical_bytes] on the two shapes it is applied to, [json.loads],
    [zlib] and [hashlib.sha256(..).hexdigest()]. *)
Class Codec (Header Change : Type) := {
  canonical_commit : Commit Header Change → list Z;
  canonical_segment : Segment Header Change → list Z;
  loads_segment : list Z → option (Segment Header Change);
  compress : list Z → list Z;
  decompress : list Z → option (list Z);
  digest_bytes : list Z → string;
  loads_canonical : ∀ s, loads_segment (canonical_segment s) = Some s;
  decompress_compress : ∀ b, decompress (compress b) = Some b;
  digest_bytes_valid : ∀ b, valid_digest (digest_bytes b) = true }.

Section Repository.
Context {Header Change : Type} `{Codec Header Change}.

Abbreviation commit := (Commit Header Change).
Abbreviation frame_t := (Frame Header Change).
Abbreviation segment := (Segment Header Change).

(** ** Reading *)

Definition _validate_header (value : FormatHeader) (kind : string) : result GitlleryError unit :=
  if decide (product_version value ≠ PRODUCT_VERSION) then Err (UnsupportedProductVersion kind)
  else if decide (format_id value ≠ FORMAT_ID) then Err (UnsupportedFormat kind)
  else if decide (format_revision value ≠ FORMAT_REVISION) then Err (UnsupportedRevision kind)
  else Ok tt.

Definition exists_ (r : Repo) : bool := bool_decide (is_Some (manifest_file r)).

Definition read_manifest (r : Repo) : result GitlleryError Manifest :=
  match manifest_file r with
  | Some (Some manifest) =>
      _validate_header (man_format manifest) "manifest" ≫= λ _, Ok manifest
  | _ => Err CannotReadManifest
  end.

Definition _segment_path (digest : string) : result GitlleryError string :=
  if valid_digest digest then Ok digest else Err InvalidSegmentDigest.

Definition read_segment (r : Repo) (digest : string) : result GitlleryError segment :=
  _segment_path digest ≫= λ path,
  match segment_files r !! path ≫= decompress with
  | None => Err (CannotReadSegment digest)
  | Some raw =>
      match loads_segment raw with
      | None => Err (CannotReadSegment digest)
      | Some segment =>
          if decide (digest_bytes raw ≠ digest) then Err (SegmentHashMismatch digest)
          else _validate_header (seg_format segment) "segment" ≫= λ _, Ok segment
      end
  end.

(** ** Writing *)

(** [initialise]; [now] and [now'] are the two clock readings. *)
Definition initialise (r : Repo) (repository_id : string) (source creator_dir gen : option string)
    (now now' : string) : Repo * result GitlleryError unit :=
  if exists_ r then (r, read_manifest r ≫= λ _, Ok tt)
  else
    let config := mkConfig current_format repository_id source creator_dir in
    let manifest := mkManifest current_format repository_id
      (match gen with Some g => if decide (g = "") then now else g | None => now end)
      None None None 0 0 0 now' in
    (mkRepo (Some (Some manifest)) (Some (Some config)) (segment_files r), Ok tt).

Definition _write_segment (r : Repo) (seg : segment) : Repo * result GitlleryError string :=
  let raw := canonical_segment seg in
  if decide (MAX_SEGMENT_BYTES < Z.of_nat (length raw)) then (r, Err SegmentTooLarge)
  else
    let digest := digest_bytes raw in
    match _segment_path digest with
    | Err e => (r, Err e)
    | Ok target =>
        if decide (is_Some (segment_files r !! target))
        then (r, read_segment r digest ≫= λ _, Ok digest)
        else (mkRepo (manifest_file r) (config_file r)
                (<[target := compress raw]> (segment_files r)), Ok digest)
    end.

(** The chunking loop of [_frames_for_commit]: [chunks] and [current] are its
    two accumulators. *)
Fixpoint chunk_loop (b : CommitBase Header) (chunks : list (list Change))
    (current rest : list Change) : result GitlleryError (list (list Change)) :=
  match rest with
  | [] => Ok (match current with [] => chunks | _ => chunks ++ [current] end)
  | change :: rest' =>
      let candidate := current ++ [change] in
      let encoded := canonical_commit (mkCommit b candidate) in
      let split :=
        bool_decide (current ≠ []) &&
        (bool_decide (MAX_CHANGES_PER_FRAME ≤ length current)%nat ||
         bool_decide (MAX_FRAME_BYTES < Z.of_nat (length encoded))) in
      let chunks' := if split then chunks ++ [current] else chunks in
      let current' := if split then [change] else candidate in
      if decide (MAX_FRAME_BYTES < Z.of_nat (length (canonical_commit (mkCommit b current'))))
      then Err ChangeTooLarge
      else chunk_loop b chunks' current' rest'
  end.

Definition _frames_for_commit (c : commit) : result GitlleryError (list frame_t) :=
  match changes c with
  | [] => Ok [mkFrame (base c) 0 1 []]
  | _ =>
      chunk_loop (base c) [] [] (changes c) ≫= λ chunks,
      Ok (imap (λ index chunk, mkFrame (base c) (Z.of_nat index) (Z.of_nat (length chunks)) chunk)
               chunks)
  end.

(** First loop of [append]: validate the parent chain, cut every commit into
    frames, count commits and changes. *)
Record Pending := mkPending {
  previous_commit : option string;
  all_frames : list frame_t;
  new_commits : Z;
  new_changes : Z }.

Definition append_commit (p : Pending) (c : commit) : result GitlleryError Pending :=
  let commit_id := str_or_empty (commit_id (base c)) in
  if decide (commit_id = "") then Err CommitIdRequired
  else
    let parent := parent_commit_id (base c) in
    match previous_commit p with
    | Some prev => if decide (py_str parent ≠ prev)
                   then Err (DoesNotFollow commit_id prev) else Ok tt
    | None => Ok tt
    end ≫= λ _,
    _frames_for_commit c ≫= λ fs,
    Ok (mkPending (Some commit_id) (all_frames p ++ fs)
          (new_commits p + 1) (new_changes p + Z.of_nat (length (changes c)))).

(** Second loop of [append]: pack frames into segments.  [published] lists
    the segments handed to [_write_segment], oldest first. *)
Record Packing := mkPacking {
  pk_repo : Repo;
  pk_frames : list frame_t;
  pk_commit_ids : gset string;
  pk_previous : option string;
  pk_count : Z;
  published : list segment }.

Definition segment_of (repository_id : string) (count : Z) (previous : option string)
    (fs : list frame_t) : segment :=
  mkSegment current_format repository_id (count + 1) previous fs.

Definition publish_segment (repository_id : string) (k : Packing)
    : Packing * result GitlleryError unit :=
  match pk_frames k with
  | [] => (k, Ok tt)
  | fs =>
      let seg := segment_of repository_id (pk_count k) (pk_previous k) fs in
      let '(r', res) := _write_segment (pk_repo k) seg in
      match res with
      | Err e => (mkPacking r' (pk_frames k) (pk_commit_ids k) (pk_previous k) (pk_count k)
                    (published k ++ [seg]), Err e)
      | Ok digest => (mkPacking r' [] ∅ (Some digest) (pk_count k + 1) (published k ++ [seg]),
                      Ok tt)
      end
  end.

Definition pack_frame (repository_id : string) (k : Packing) (f : frame_t)
    : Packing * result GitlleryError unit :=
  let commit_id := py_str (commit_id (frame_base f)) in
  let candidate_ids := pk_commit_ids k ∪ {[ commit_id ]} in
  let candidate := segment_of repository_id (pk_count k) (pk_previous k) (pk_frames k ++ [f]) in
  let full := bool_decide (pk_frames k ≠ []) &&
              (bool_decide (MAX_COMMITS_PER_SEGMENT < size candidate_ids)%nat ||
               bool_decide (MAX_SEGMENT_BYTES < Z.of_nat (length (canonical_segment candidate)))) in
  let '(k1, res) := if full then publish_segment repository_id k else (k, Ok tt) in
  match res with
  | Err e => (k1, Err e)
  | Ok _ =>
      let candidate := if full
        then segment_of repository_id (pk_count k1) (pk_previous k1) [f] else candidate in
      if decide (MAX_SEGMENT_BYTES < Z.of_nat (length (canonical_segment candidate)))
      then (k1, Err ContinuationFrameTooLarge)
      else (mkPacking (pk_repo k1) (pk_frames k1 ++ [f]) (pk_commit_ids k1 ∪ {[ commit_id ]})
              (pk_previous k1) (pk_count k1) (published k1), Ok tt)
  end.

Fixpoint pack_frames (repository_id : string) (k : Packing) (fs : list frame_t)
    : Packing * result GitlleryError unit :=
  match fs with
  | [] => publish_segment repository_id k
  | f :: fs' =>
      let '(k', res) := pack_frame repository_id k f in
      match res with
      | Err e => (k', Err e)
      | Ok _ => pack_frames repository_id k' fs'
      end
  end.

(** The packing state [append] enters its second loop with. *)
Definition start_packing (r : Repo) (manifest : Manifest) : Packing :=
  mkPacking r [] ∅ (head_segment manifest) (segment_count manifest) [].

Definition advance (manifest : Manifest) (p : Pending) (k : Packing) (now : string) : Manifest :=
  mkManifest (man_format manifest) (man_repository_id manifest) (generation manifest)
    (pk_previous k) (previous_commit p) (Some (pk_previous k, pk_count k))
    (pk_count k) (commit_count manifest + new_commits p)
    (change_count manifest + new_changes p) now.

Definition append (r : Repo) (commits : list commit) (now : string)
    : Repo * result GitlleryError Manifest :=
  match read_manifest r with
  | Err e => (r, Err e)
  | Ok manifest =>
      let replay := match commits with
        | [c] => bool_decide (py_str (commit_id (base c)) =
                              py_str (last_complete_commit_id manifest))
        | _ => false end in
      if bool_decide (commits = []) || replay then (r, Ok manifest)
      else
        match foldM append_commit
                (mkPending (last_complete_commit_id manifest) [] 0 0) commits with
        | Err e => (r, Err e)
        | Ok p =>
            let '(k, res) := pack_frames (man_repository_id manifest)
                               (start_packing r manifest) (all_frames p) in
            match res with
            | Err e => (pk_repo k, Err e)
            | Ok _ =>
                let updated := advance manifest p k now in
                (mkRepo (Some (Some updated)) (config_file (pk_repo k))
                   (segment_files (pk_repo k)), Ok updated)
            end
        end
  end.

(** ** Iteration

    A Python generator that may raise is the list of values it yields and the
    error it stops with, if any. *)
Abbreviation stream A := (list A * option GitlleryError)%type.

(** The [while digest] loop of [iter_segments], newest first.  Every turn
    reads a segment file whose digest was not seen before, so [fuel] turns
    suffice when [fuel] exceeds the number of segment files
    ([walk_fuel_enough]). *)
Fixpoint walk (r : Repo) (fuel : nat) (digest : option string) (seen : gset string)
    : stream (string * segment) :=
  match digest with
  | None => ([], None)
  | Some d =>
      if decide (d = "") then ([], None)
      else if decide (d ∈ seen) then ([], Some SegmentCycle)
      else
        match read_segment r d with
        | Err e => ([], Some e)
        | Ok seg =>
            match fuel with
            | O => ([], Some SegmentCycle)
            | S fuel' =>
                let '(rest, e) := walk r fuel' (previous_segment seg) ({[ d ]} ∪ seen) in
                ((d, seg) :: rest, e)
            end
        end
  end.

(** [for digest in reversed(chain): yield digest, self.read_segment(digest)] *)
Fixpoint reread (r : Repo) (chain : list string) : stream (string * segment) :=
  match chain with
  | [] => ([], None)
  | d :: chain' =>
      match read_segment r d with
      | Err e => ([], Some e)
      | Ok seg => let '(rest, e) := reread r chain' in ((d, seg) :: rest, e)
      end
  end.

Definition iter_segments (r : Repo) (newest_first : bool) : stream (string * segment) :=
  match read_manifest r with
  | Err e => ([], Some e)
  | Ok manifest =>
      let '(chain, err) := walk r (S (size (segment_files r))) (head_segment manifest) ∅ in
      if newest_first then (chain, err)
      else match err with
           | Some e => ([], Some e)
           | None => reread r (rev chain.*1)
           end
  end.

(** [sorted(items, key=lambda item: item.frame)]: a stable insertion sort. *)
Fixpoint insert_frame (f : frame_t) (fs : list frame_t) : list frame_t :=
  match fs with
  | [] => [f]
  | g :: fs' => if decide (frame f < frame g) then f :: fs else g :: insert_frame f fs'
  end.

Definition sort_frames (fs : list frame_t) : list frame_t :=
  foldl (λ acc f, insert_frame f acc) [] fs.

Definition int_or (z dflt : Z) : Z := if decide (z = 0) then dflt else z.

Definition assemble (items : list frame_t) : result GitlleryError commit :=
  let ordered := sort_frames items in
  match ordered with
  | [] => Err (IncompleteFrames None)
  | f0 :: _ =>
      let count := int_or (frame_count f0) 1 in
      if decide (Z.of_nat (length ordered) ≠ count ∨
                 frame <$> ordered ≠ seqZ 0 count)
      then Err (IncompleteFrames (commit_id (frame_base f0)))
      else Ok (mkCommit (frame_base f0) (ordered ≫= frame_changes))
  end.

(** The loop of [iter_commits] over the frames in reading order; [tail] is the
    error the segment generator stops with. *)
Fixpoint group_frames (fs : list frame_t) (current_id : option string)
    (acc : list frame_t) (tail : option GitlleryError) : stream commit :=
  match fs with
  | [] =>
      match tail, acc with
      | Some e, _ => ([], Some e)
      | None, [] => ([], None)
      | None, _ => match assemble acc with
                   | Ok c => ([c], None) | Err e => ([], Some e) end
      end
  | f :: fs' =>
      let id := str_or_empty (commit_id (frame_base f)) in
      if decide (id = "") then ([], Some FrameWithoutCommitId)
      else if bool_decide (is_Some current_id) && bool_decide (Some id ≠ current_id) then
        match assemble acc with
        | Err e => ([], Some e)
        | Ok c => let '(cs, e) := group_frames fs' (Some id) [f] tail in (c :: cs, e)
        end
      else group_frames fs' (Some id) (acc ++ [f]) tail
  end.

Definition iter_commits (r : Repo) (newest_first : bool) : stream commit :=
  let '(segs, err) := iter_segments r newest_first in
  let frames_of '(d, seg) := if newest_first then rev (frames seg) else frames seg in
  group_frames (segs ≫= frames_of) None [] err.

Definition find_commit (r : Repo) (id : string) : result GitlleryError (option commit) :=
  let '(cs, err) := iter_commits r true in
  match list_find (λ c, py_str (commit_id (base c)) = id) cs with
  | Some (_, c) => Ok (Some c)
  | None => match err with Some e => Err e | None => Ok None end
  end.

Definition export (r : Repo) : result GitlleryError (Manifest * list commit) :=
  read_manifest r ≫= λ m,
  match iter_commits r false with
  | (cs, None) => Ok (m, cs)
  | (_, Some e) => Err e
  end.

(** ** Verification *)

(** State of the two checking loops of [verify]. *)
Definition check_segment (repository_id : string)
    (st : Z * option string * list VerifyMessage) (ds : string * segment)
    : Z * option string * list VerifyMessage :=
  let '(n, previous, errors) := st in
  let '(digest, seg) := ds in
  let n := n + 1 in
  let errors := errors ++
    (if decide (previous_segment seg ≠ previous) then [BrokenSegmentParent digest] else []) ++
    (if decide (sequence seg ≠ n) then [InvalidSequence digest] else []) ++
    (if decide (seg_repository_id seg ≠ repository_id) then [ForeignRepository digest] else []) in
  (n, Some digest, errors).

Definition check_commit (st : Z * Z * option string * list VerifyMessage) (c : commit)
    : Z * Z * option string * list VerifyMessage :=
  let '(n, nch, previous, errors) := st in
  let errors := errors ++
    match previous with
    | Some prev => if decide (py_str (parent_commit_id (base c)) ≠ prev)
                   then [BrokenCommitParent (commit_id (base c))] else []
    | None => []
    end in
  (n + 1, nch + Z.of_nat (length (changes c)), Some (py_str (commit_id (base c))), errors).

Definition check_config (r : Repo) (manifest : Manifest) : list VerifyMessage :=
  match config_file r with
  | Some (Some config) =>
      match _validate_header (cfg_format config) "config" with
      | Err _ => [CannotVerifyConfig]
      | Ok _ => if decide (cfg_repository_id config ≠ man_repository_id manifest)
                then [ConfigRepositoryMismatch] else []
      end
  | _ => [CannotVerifyConfig]
  end.

Definition verify (r : Repo) (deep : bool) : VerifyResult :=
  let finish n c ch errors := mkVerify (bool_decide (errors = [])) n c ch errors in
  match read_manifest r with
  | Err e => finish 0 0 0 [FormatError e]
  | Ok manifest =>
      let errors := check_config r manifest in
      let '(segs, serr) := iter_segments r false in
      let '(n, previous_segment, errors) :=
        foldl (check_segment (man_repository_id manifest)) (0, None, errors) segs in
      match serr with
      | Some e => finish n 0 0 (errors ++ [FormatError e])
      | None =>
          let '(cs, cerr) := if deep then iter_commits r false else ([], None) in
          let '(nc, nch, previous_commit, errors) := foldl check_commit (0, 0, None, errors) cs in
          match cerr with
          | Some e => finish n nc nch (errors ++ [FormatError e])
          | None =>
              finish n nc nch (errors ++
                (if decide (previous_segment ≠ head_segment manifest)
                 then [HeadMismatch] else []) ++
                (if bool_decide (deep = true) &&
                    bool_decide (previous_commit ≠ last_complete_commit_id manifest)
                 then [CommitWatermarkMismatch] else []) ++
                (if decide (segment_count manifest ≠ n)
                 then [SegmentCountIncorrect] else []) ++
                (if bool_decide (deep = true) && bool_decide (commit_count manifest ≠ nc)
                 then [CommitCountIncorrect] else []) ++
                (if bool_decide (deep = true) && bool_decide (change_count manifest ≠ nch)
                 then [ChangeCountIncorrect] else []))
          end
      end
  end.

End Repository.
