(* ===== verification/SegmentLogFacts.v ===== *)
(** * Facts about the segment log

    Lemmas on the three layers of [SegmentLog]: cutting a commit into frames
    and assembling it again, the chain of segment files behind the manifest's
    head, and the grouping of a frame sequence into commits. *)

From stdpp Require Import base gmap strings list sorting.
From S2P Require Import Prelude SegmentLog.

Section Facts.
Context {Header Change : Type} `{!Codec Header Change}.

Abbreviation commit := (Commit Header Change).
Abbreviation frame_t := (Frame Header Change).
Abbreviation segment := (Segment Header Change).

(** ** Frames of a commit *)

(** What [_frames_for_commit] promises of the frames of [c]. *)
Record frames_ok (c : commit) (fs : list frame_t) : Prop := {
  fo_nonempty : fs ≠ [];
  fo_base : Forall (λ f, frame_base f = base c) fs;
  fo_count : Forall (λ f, frame_count f = Z.of_nat (length fs)) fs;
  fo_index : frame <$> fs = seqZ 0 (Z.of_nat (length fs));
  fo_changes : fs ≫= frame_changes = changes c }.

(** What the chunking loop promises of one chunk. *)
Definition chunk_ok (b : CommitBase Header) (ch : list Change) : Prop :=
  ch ≠ [] ∧ (length ch ≤ MAX_CHANGES_PER_FRAME)%nat ∧
  Z.of_nat (length (canonical_commit (mkCommit b ch))) ≤ MAX_FRAME_BYTES.

Lemma chunk_loop_spec b chunks cur rest out :
  chunk_loop b chunks cur rest = Ok out →
  Forall (chunk_ok b) chunks → (cur = [] ∨ chunk_ok b cur) →
  concat out = concat chunks ++ cur ++ rest ∧ Forall (chunk_ok b) out ∧
  (rest ≠ [] ∨ cur ≠ [] ∨ chunks ≠ [] → out ≠ []).
Proof.
  revert chunks cur. induction rest as [|ch rest IH]; intros chunks cur Hout Hch Hcur;
    cbn [chunk_loop] in Hout.
  { injection Hout as <-. destruct cur as [|x cur'].
    { rewrite !app_nil_r. naive_solver. }
    rewrite concat_app. cbn [concat]. rewrite !app_nil_r. split_and!; [done| |].
    - apply Forall_app. split; [done|]. constructor; [naive_solver|constructor].
    - intros _ E. by apply app_eq_nil in E as [_ E]. }
  case_decide as Hsize; [done|]. apply Z.nlt_ge in Hsize.
  set (split_now := bool_decide (cur ≠ []) && _) in *.
  assert (Hout2 := IH _ _ Hout). destruct split_now eqn:Es.
  - subst split_now. apply andb_true_iff in Es as [Hne%bool_decide_eq_true _].
    destruct Hcur as [?|Hcur]; [done|].
    destruct Hout2 as (-> & Hall & Hnn).
    + apply Forall_app; split; [done|]. by apply Forall_singleton.
    + right. split_and!; [done| |done]. cbn. unfold MAX_CHANGES_PER_FRAME. lia.
    + split_and!; [|done|intros _; apply Hnn; naive_solver].
      rewrite concat_app. cbn. rewrite app_nil_r, <-!app_assoc. done.
  - destruct Hout2 as (-> & Hall & Hnn); [done| |].
    + right. split_and!; [by destruct cur| |done].
      subst split_now. rewrite length_app. cbn.
      destruct cur as [|x cur']; [cbn; unfold MAX_CHANGES_PER_FRAME; lia|].
      rewrite bool_decide_eq_true_2 in Es by done. cbn [andb] in Es.
      apply orb_false_iff in Es as [Es%bool_decide_eq_false _]. lia.
    + split_and!; [|done|intros _; apply Hnn; right; left; by destruct cur].
      by rewrite <-!app_assoc.
Qed.

Lemma seqZ_0_imap {A B} (f : nat → A → B) (g : B → Z) (l : list A) :
  (∀ i x, g (f i x) = Z.of_nat i) → g <$> imap f l = seqZ 0 (Z.of_nat (length l)).
Proof.
  intros Hg. apply list_eq. intros i.
  rewrite list_lookup_fmap, list_lookup_imap.
  destruct (decide (i < length l)%nat) as [Hi|Hi].
  - apply lookup_lt_is_Some_2 in Hi as Hs. destruct Hs as [x Hx]. rewrite Hx. cbn. rewrite Hg.
    symmetry. apply lookup_seqZ. lia.
  - rewrite (lookup_ge_None_2 l) by lia. cbn. symmetry. apply lookup_seqZ_ge. lia.
Qed.

Lemma imap_bind {A B C} (f : nat → A → B) (g : B → list C) (h : A → list C) (l : list A) :
  (∀ i x, g (f i x) = h x) → imap f l ≫= g = l ≫= h.
Proof.
  revert f. induction l as [|a l IH]; intros f Hg; [done|].
  rewrite imap_cons, !bind_cons, Hg, IH; [done|]. intros i x. apply Hg.
Qed.

Lemma bind_concat {A} (l : list (list A)) : l ≫= id = concat l.
Proof. induction l as [|a l IH]; cbn; [done|]. by rewrite <-IH. Qed.

Lemma frames_for_commit_ok c fs :
  _frames_for_commit c = Ok fs → frames_ok c fs.
Proof.
  unfold _frames_for_commit. destruct (changes c) as [|ch rest] eqn:Hc.
  { intros [= <-]. by split; cbn; repeat constructor. }
  intros (chunks & Hloop & [= <-])%result_bind_ok.
  apply chunk_loop_spec in Hloop as (Hcat & _ & Hne); [|constructor|by left].
  assert (chunks ≠ []) as Hnn by (apply Hne; by left).
  split.
  - by destruct chunks.
  - apply Forall_forall. intros f (i & x & -> & _)%elem_of_lookup_imap. done.
  - apply Forall_forall. intros f (i & x & -> & _)%elem_of_lookup_imap.
    cbn. by rewrite length_imap.
  - rewrite length_imap. by apply seqZ_0_imap.
  - rewrite (imap_bind _ _ id) by done. by rewrite bind_concat, Hc.
Qed.

(** ** Assembling a commit *)

Definition frame_le (f g : frame_t) : Prop := frame f ≤ frame g.

Lemma insert_frame_perm (f : frame_t) fs : insert_frame f fs ≡ₚ f :: fs.
Proof.
  induction fs as [|g fs IH]; cbn; [done|].
  case_decide; [done|]. rewrite IH. constructor.
Qed.

Lemma insert_frame_sorted (f : frame_t) fs :
  StronglySorted frame_le fs → StronglySorted frame_le (insert_frame f fs).
Proof.
  induction fs as [|g fs IH]; intros Hs; cbn.
  { by repeat constructor. }
  apply StronglySorted_inv in Hs as [Hs Hall]. case_decide as Hlt.
  - constructor; [by constructor|]. unfold frame_le in *.
    constructor; [lia|]. eapply Forall_impl; [exact Hall|]. cbn. lia.
  - constructor; [auto|]. rewrite insert_frame_perm. constructor; [|done].
    unfold frame_le. lia.
Qed.

Lemma sort_frames_spec (fs : list frame_t) : sort_frames fs ≡ₚ fs ∧ StronglySorted frame_le (sort_frames fs).
Proof.
  unfold sort_frames.
  enough (∀ acc, StronglySorted frame_le acc →
    foldl (λ acc f, insert_frame f acc) acc fs ≡ₚ fs ++ acc ∧
    StronglySorted frame_le (foldl (λ acc f, insert_frame f acc) acc fs)) as Hgen.
  { destruct (Hgen [] (SSorted_nil _)) as [Hp Hs]. rewrite app_nil_r in Hp. done. }
  induction fs as [|f fs IH]; intros acc Hacc; cbn; [done|].
  destruct (IH (insert_frame f acc)) as [Hp Hs]; [by apply insert_frame_sorted|].
  split; [|done]. rewrite Hp, insert_frame_perm. by rewrite Permutation_middle.
Qed.

Lemma index_sorted (fs : list frame_t) a n :
  frame <$> fs = seqZ a n → StronglySorted (λ f g, frame f < frame g) fs.
Proof.
  revert a n. induction fs as [|f fs IH]; intros a n Hi; [constructor|].
  destruct (decide (0 < n)) as [Hn|Hn]; [|rewrite seqZ_nil in Hi by lia; done].
  rewrite seqZ_cons in Hi by lia. rewrite fmap_cons in Hi. apply (inj2 cons) in Hi as [Hf Hrest].
  constructor; [by eapply IH|].
  apply Forall_forall. intros g Hg.
  assert (frame g ∈ frame <$> fs) as Hin by (apply list_elem_of_fmap; eauto).
  rewrite Hrest in Hin. apply elem_of_seqZ in Hin. lia.
Qed.

Lemma strict_sorted_unique (fs gs : list frame_t) :
  StronglySorted (λ f g, frame f < frame g) fs → StronglySorted frame_le gs →
  gs ≡ₚ fs → gs = fs.
Proof.
  intros Hfs Hgs Hperm.
  assert (StronglySorted frame_le fs) as Hfs'.
  { clear -Hfs. induction Hfs; constructor; auto. eapply Forall_impl; [done|]. cbn. unfold frame_le. lia. }
  assert (∀ x y, x ∈ fs → y ∈ fs → frame x = frame y → x = y) as Hinj.
  { clear Hfs' Hgs Hperm. induction Hfs as [|f fs Hs IH Hall]; intros x y Hx Hy E; [set_solver|].
    rewrite List.Forall_forall in Hall. setoid_rewrite <-list_elem_of_In in Hall.
    apply elem_of_cons in Hx as [->|Hx], Hy as [->|Hy]; [done| | |by apply IH].
    - apply Hall in Hy. lia.
    - apply Hall in Hx. lia. }
  apply (StronglySorted_unique_strong frame_le gs fs); try done.
  intros x y Hx Hy Hxy Hyx. apply Hinj; [by rewrite <-Hperm|done|].
  unfold frame_le in *. lia.
Qed.

(** The frames of a commit assemble to it in whatever order they are read. *)
Lemma assemble_frames c fs gs :
  frames_ok c fs → gs ≡ₚ fs → assemble gs = Ok c.
Proof.
  intros [Hne Hb Hcnt Hidx Hch] Hperm. unfold assemble.
  assert (sort_frames gs = fs) as ->.
  { destruct (sort_frames_spec gs) as [Hp Hs]. apply strict_sorted_unique; [|done|].
    - by eapply index_sorted.
    - by rewrite Hp. }
  destruct fs as [|f0 fs]; [done|].
  apply Forall_cons_1 in Hcnt as [Hc0 _]. apply Forall_cons_1 in Hb as [Hb0 _].
  rewrite Hc0. unfold int_or. rewrite (decide_False (P := Z.of_nat (length (f0 :: fs)) = 0))
    by (rewrite length_cons; lia).
  rewrite decide_False by naive_solver.
  rewrite Hb0, Hch. by destruct c.
Qed.

(** ** Grouping frames into commits *)

Definition id_of (c : commit) : string := str_or_empty (commit_id (base c)).

Lemma frames_ids c fs gs :
  frames_ok c fs → gs ≡ₚ fs →
  Forall (λ f, str_or_empty (commit_id (frame_base f)) = id_of c) gs.
Proof.
  intros [_ Hb _ _ _] ->. eapply Forall_impl; [exact Hb|]. cbn. by intros f ->.
Qed.

(** The frames of the commit under assembly are read to its end. *)
Lemma group_frames_same (fs : list frame_t) rest id acc tail :
  id ≠ "" → Forall (λ f, str_or_empty (commit_id (frame_base f)) = id) fs →
  group_frames (fs ++ rest) (Some id) acc tail = group_frames rest (Some id) (acc ++ fs) tail.
Proof.
  intros Hid Hfs. revert acc. induction Hfs as [|f fs Hf _ IH]; intros acc.
  { by rewrite app_nil_r. }
  cbn [app group_frames]. rewrite Hf, decide_False by done.
  rewrite (bool_decide_eq_false_2 (Some id ≠ Some id)) by naive_solver.
  rewrite andb_false_r, IH, <-app_assoc. done.
Qed.

(** A commit under assembly ([acc]) followed by the frames of [cs] yields
    that commit and then [cs]. *)
Lemma group_frames_run c fs0 acc cs fss :
  frames_ok c fs0 → acc ≡ₚ fs0 → Forall2 (λ c fs, ∃ fs0, frames_ok c fs0 ∧ fs ≡ₚ fs0) cs fss →
  NoDup (id_of <$> c :: cs) → Forall (λ c, id_of c ≠ "") (c :: cs) →
  group_frames (concat fss) (Some (id_of c)) acc None = (c :: cs, None).
Proof.
  intros Hok Hacc Hall. revert c fs0 acc Hok Hacc.
  induction Hall as [|c' fs' cs fss (fs0' & Hok' & Hp') Hall IH];
    intros c fs0 acc Hok Hacc Hnd Hne.
  - cbn. destruct acc as [|f acc]; [by apply fo_nonempty in Hok; apply Permutation_nil in Hacc|].
    by rewrite (assemble_frames c fs0).
  - cbn [concat]. apply Forall_cons_1 in Hne as [Hc Hne]. apply Forall_cons_1 in Hne as [Hc' Hne].
    rewrite !fmap_cons in Hnd. apply NoDup_cons in Hnd as [Hnin Hnd].
    assert (Hids := frames_ids _ _ _ Hok' Hp').
    destruct fs' as [|f fs']; [by apply fo_nonempty in Hok'; apply Permutation_nil in Hp'|].
    apply Forall_cons_1 in Hids as [Hf Hids].
    cbn [app group_frames]. rewrite Hf, decide_False by done.
    rewrite bool_decide_eq_true_2 by done.
    rewrite bool_decide_eq_true_2 by (intros [= E]; rewrite E in Hnin; set_solver).
    cbn [andb]. rewrite (assemble_frames c fs0) by done.
    rewrite (group_frames_same fs') by done. cbn [app].
    rewrite (IH c' fs0') by (try done; by constructor). done.
Qed.

Lemma group_frames_all cs fss :
  Forall2 (λ c fs, ∃ fs0, frames_ok c fs0 ∧ fs ≡ₚ fs0) cs fss →
  NoDup (id_of <$> cs) → Forall (λ c, id_of c ≠ "") cs →
  group_frames (concat fss) None [] None = (cs, None).
Proof.
  intros Hall Hnd Hne. destruct Hall as [|c fs cs fss (fs0 & Hok & Hp) Hall]; [done|].
  assert (Hids := frames_ids _ _ _ Hok Hp).
  destruct fs as [|f fs]; [by apply fo_nonempty in Hok; apply Permutation_nil in Hp|].
  apply Forall_cons_1 in Hids as [Hf Hids].
  cbn [concat app group_frames]. rewrite Hf.
  rewrite decide_False by by apply Forall_cons_1 in Hne as [? _].
  cbn [bool_decide is_Some decide andb app].
  rewrite bool_decide_eq_false_2 by (by intros [? [=]]). cbn [andb].
  rewrite (group_frames_same fs) by (try done; by apply Forall_cons_1 in Hne as [? _]).
  by eapply group_frames_run.
Qed.

(** ** The chain of segment files

    [chain files rid head l]: following [previous_segment] from [head] visits
    exactly the segments [l], newest first; every one is stored, uncorrupted,
    in the current format, for repository [rid], numbered from 1. *)
Inductive chain (files : gmap string (list Z)) (rid : string)
    : option string → list (string * segment) → Prop :=
| chain_nil : chain files rid None []
| chain_cons d seg l :
    files !! d ≫= decompress = Some (canonical_segment seg) →
    d = digest_bytes (canonical_segment seg) →
    seg_format seg = current_format →
    seg_repository_id seg = rid →
    sequence seg = Z.of_nat (S (length l)) →
    chain files rid (previous_segment seg) l →
    chain files rid (Some d) ((d, seg) :: l).

Lemma digest_nonempty b : digest_bytes b ≠ "".
Proof. intros E. assert (Hv := digest_bytes_valid b). rewrite E in Hv. discriminate. Qed.

Lemma read_segment_stored r d seg :
  segment_files r !! d ≫= decompress = Some (canonical_segment seg) →
  d = digest_bytes (canonical_segment seg) → seg_format seg = current_format →
  read_segment r d = Ok seg.
Proof.
  intros Hf -> Hfmt. unfold read_segment, _segment_path. rewrite digest_bytes_valid. cbn.
  rewrite Hf, loads_canonical, decide_False by naive_solver.
  rewrite Hfmt. reflexivity.
Qed.

(** More files never hurt: a chain stays a chain. *)
Lemma chain_mono files files' rid head l :
  files ⊆ files' → chain files rid head l → chain files' rid head l.
Proof.
  intros Hsub. induction 1 as [|d seg l Hf]; econstructor; eauto.
  destruct (files !! d) as [c|] eqn:E; [|done].
  by rewrite (lookup_weaken _ _ _ _ E Hsub).
Qed.

Lemma chain_lookup files rid head l d seg :
  chain files rid head l → (d, seg) ∈ l →
  is_Some (files !! d) ∧ d = digest_bytes (canonical_segment seg) ∧
  files !! d ≫= decompress = Some (canonical_segment seg) ∧
  seg_format seg = current_format ∧ seg_repository_id seg = rid ∧
  1 ≤ sequence seg ≤ Z.of_nat (length l).
Proof.
  induction 1 as [|d' seg' l Hf Hd Hfmt Hrid Hseq Hc IH]; [set_solver|].
  intros [[= -> ->]|Hin]%elem_of_cons.
  - split_and!; try done; rewrite ?length_cons; try lia. by destruct (files !! d'); eauto.
  - destruct IH as (?&?&?&?&?&?); [done|]. split_and!; try done; rewrite ?length_cons; lia.
Qed.

Lemma walk_chain r rid head l fuel seen :
  chain (segment_files r) rid head l → NoDup l.*1 →
  (∀ d, d ∈ l.*1 → d ∉ seen) → (length l ≤ fuel)%nat →
  walk r fuel head seen = (l, None).
Proof.
  intros Hc. revert fuel seen. induction Hc as [|d seg l Hf Hd Hfmt Hrid Hseq Hc IH];
    intros fuel seen Hnd Hseen Hfuel; [by destruct fuel|].
  rewrite fmap_cons in Hnd. apply NoDup_cons in Hnd as [Hnin Hnd].
  destruct fuel as [|fuel]; [cbn in Hfuel; lia|]. cbn [walk].
  rewrite decide_False by (rewrite Hd; apply digest_nonempty).
  rewrite decide_False by (apply Hseen; cbn; set_solver).
  rewrite (read_segment_stored _ _ seg) by done.
  rewrite IH; [done|done| |cbn in Hfuel; lia].
  intros d' Hd'. apply not_elem_of_union. split; [set_solver|]. apply Hseen. cbn. set_solver.
Qed.

Lemma chain_length files rid head l :
  chain files rid head l → NoDup l.*1 → (length l ≤ size files)%nat.
Proof.
  intros Hc Hnd. rewrite <-size_dom, <-(length_fmap fst l).
  rewrite <-(size_list_to_set (C := gset string)) by done.
  apply subseteq_size. intros d. rewrite elem_of_list_to_set, list_elem_of_fmap, elem_of_dom.
  intros ([d' seg] & -> & Hin). by apply (chain_lookup _ _ _ _ _ _ Hc) in Hin as [? _].
Qed.

Lemma reread_stored r (l : list (string * segment)) :
  Forall (λ p, read_segment r p.1 = Ok p.2) l → reread r l.*1 = (l, None).
Proof.
  induction 1 as [|[d seg] l Hr _ IH]; [done|]. cbn in *. by rewrite Hr, IH.
Qed.

Lemma iter_segments_chain r m l :
  read_manifest r = Ok m → chain (segment_files r) (man_repository_id m) (head_segment m) l →
  NoDup l.*1 →
  iter_segments r true = (l, None) ∧ iter_segments r false = (rev l, None).
Proof.
  intros Hm Hc Hnd. unfold iter_segments. rewrite Hm.
  rewrite (walk_chain _ _ _ l) by
    (try done; try (apply chain_length in Hc; [lia|done]); set_solver).
  split; [done|]. replace (rev l.*1) with ((rev l).*1) by apply (map_rev fst l). apply reread_stored.
  apply Forall_forall. intros [d seg] Hin.
  apply list_elem_of_In, in_rev, list_elem_of_In in Hin.
  destruct (chain_lookup _ _ _ _ _ _ Hc Hin) as (_ & Hd & Hf & Hfmt & _).
  by apply read_segment_stored.
Qed.

(** [walk] never runs out of fuel: with more fuel than segment files, extra
    fuel changes nothing, whatever the files hold. *)
Lemma walk_fuel_enough r fuel extra head seen :
  seen ⊆ dom (segment_files r) →
  (size (segment_files r) < size seen + fuel)%nat →
  walk r (fuel + extra) head seen = walk r fuel head seen.
Proof.
  revert head seen. induction fuel as [|fuel IH]; intros head seen Hsub Hlt.
  { apply subseteq_size in Hsub. rewrite size_dom in Hsub. lia. }
  cbn [Nat.add walk]. destruct head as [d|]; [|done].
  destruct (decide (d = "")); [done|]. destruct (decide (d ∈ seen)) as [|Hd]; [done|].
  destruct (read_segment r d) as [seg|] eqn:Hr; [|done].
  rewrite IH; [done| |].
  - apply union_subseteq. split; [|done]. apply singleton_subseteq_l, elem_of_dom.
    unfold read_segment, _segment_path in Hr. destruct (valid_digest d); cbn in Hr; [|done].
    destruct (segment_files r !! d); [eauto|done].
  - rewrite size_union by set_solver. rewrite size_singleton. lia.
Qed.
End Facts.
