(* ===== verification/SegmentLogHistory.v ===== *)
(** * The history a segment log represents

    [SegmentLog.append] against its abstract specification: a repository is a
    list of commits; [append] extends the list or, when it raises, leaves it
    as it was; the iterators enumerate it and [verify] accepts it. *)

From stdpp Require Import base gmap strings list sorting.
From S2P Require Import Prelude SegmentLog SegmentLogFacts.

Section History.
Context {Header Change : Type} `{!Codec Header Change}.

Abbreviation commit := (Commit Header Change).
Abbreviation frame_t := (Frame Header Change).
Abbreviation segment := (Segment Header Change).
Abbreviation packing := (Packing (Header := Header) (Change := Change)).

(** SHA-256 does not collide on a set of byte strings. *)
Definition collision_free (U : list Z → Prop) : Prop :=
  ∀ a b, U a → U b → digest_bytes a = digest_bytes b → a = b.

Definition stored_in (U : list Z → Prop) (files : gmap string (list Z)) : Prop :=
  ∀ d raw, files !! d ≫= decompress = Some raw → U raw.

Definition frame_ids (fs : list frame_t) : gset string :=
  list_to_set ((λ f, py_str (commit_id (frame_base f))) <$> fs).

(** The size limits of a published segment. *)
Definition seg_bounded (seg : segment) : Prop :=
  Z.of_nat (length (canonical_segment seg)) ≤ MAX_SEGMENT_BYTES ∧
  (size (frame_ids (frames seg)) ≤ MAX_COMMITS_PER_SEGMENT)%nat ∧
  Forall (λ f, (length (frame_changes f) ≤ MAX_CHANGES_PER_FRAME)%nat) (frames seg).

(** All frames of a chain, oldest first ([l] is newest first). *)
Definition chain_frames (l : list (string * segment)) : list frame_t :=
  rev l ≫= λ p, frames p.2.

Lemma chain_frames_cons d (seg : segment) l :
  chain_frames ((d, seg) :: l) = chain_frames l ++ frames seg.
Proof. unfold chain_frames. cbn. by rewrite bind_app, bind_singleton. Qed.

(** ** Writing one segment *)

Lemma write_segment_keeps r (seg : segment) r' res :
  _write_segment r seg = (r', res) →
  manifest_file r' = manifest_file r ∧ config_file r' = config_file r ∧
  segment_files r ⊆ segment_files r'.
Proof.
  unfold _write_segment. case_decide; [by intros [= <- <-]|].
  destruct (_segment_path _) as [t|]; [|by intros [= <- <-]].
  case_decide as Ht; [by intros [= <- <-]|].
  intros [= <- <-]. cbn. split_and!; [done..|].
  apply insert_subseteq. by apply eq_None_not_Some.
Qed.

Lemma write_segment_ok U r (seg : segment) r' d :
  collision_free U → stored_in U (segment_files r) → U (canonical_segment seg) →
  _write_segment r seg = (r', Ok d) →
  d = digest_bytes (canonical_segment seg) ∧
  Z.of_nat (length (canonical_segment seg)) ≤ MAX_SEGMENT_BYTES ∧
  segment_files r' !! d ≫= decompress = Some (canonical_segment seg) ∧
  stored_in U (segment_files r').
Proof.
  intros Hcf Hst HU. unfold _write_segment, _segment_path.
  case_decide as Hsz; [done|]. apply Z.nlt_ge in Hsz. rewrite digest_bytes_valid.
  case_decide as Hex.
  - intros [= <- Hread]. destruct (read_segment r _) as [s'|] eqn:Hr; cbn in Hread; [|done].
    injection Hread as <-. split_and!; try done.
    unfold read_segment, _segment_path in Hr. rewrite digest_bytes_valid in Hr. cbn in Hr.
    destruct (segment_files r !! _ ≫= decompress) as [raw|] eqn:Hraw; [|done].
    destruct (loads_segment raw); [|done]. case_decide as Hd; [done|].
    f_equal. apply Hcf; [by eapply Hst|done|done].
  - intros [= <- <-]. cbn [segment_files]. split_and!; try done.
    + rewrite lookup_insert_eq. cbn. apply decompress_compress.
    + intros d' raw. rewrite lookup_insert. case_decide; [|apply Hst].
      cbn. rewrite decompress_compress. by intros [= <-].
Qed.

(** ** Packing *)

(** The invariant of the packing loop; [l] is the chain published so far and
    [fs] the frames handed to the loop so far. *)
Record packing_ok (U : list Z → Prop) (r0 : Repo) (rid : string) (k : packing)
    (l : list (string * segment)) (fs : list frame_t) : Prop := {
  po_manifest : manifest_file (pk_repo k) = manifest_file r0;
  po_config : config_file (pk_repo k) = config_file r0;
  po_files : segment_files r0 ⊆ segment_files (pk_repo k);
  po_stored : stored_in U (segment_files (pk_repo k));
  po_chain : chain (segment_files (pk_repo k)) rid (pk_previous k) l;
  po_nodup : NoDup l.*1;
  po_count : pk_count k = Z.of_nat (length l);
  po_frames : chain_frames l ++ pk_frames k = fs;
  po_ids : pk_commit_ids k = frame_ids (pk_frames k);
  po_ids_bound : (size (pk_commit_ids k) ≤ MAX_COMMITS_PER_SEGMENT)%nat;
  po_bounded : Forall (λ p, seg_bounded p.2) l }.

Definition small_frame (f : frame_t) : Prop :=
  (length (frame_changes f) ≤ MAX_CHANGES_PER_FRAME)%nat.

Lemma publish_ok U r0 rid k l fs k' :
  collision_free U → packing_ok U r0 rid k l fs → Forall small_frame (pk_frames k) →
  publish_segment rid k = (k', Ok tt) →
  Forall (λ s, U (canonical_segment s)) (published k') →
  ∃ l', packing_ok U r0 rid k' l' fs ∧ pk_frames k' = [] ∧ (l' = [] → l = []).
Proof.
  intros Hcf Hk Hsmall Hpub HU. unfold publish_segment in Hpub.
  destruct (pk_frames k) as [|f fs'] eqn:Hfs.
  { injection Hpub as <-. by exists l. }
  rewrite <-Hfs in *. set (seg := segment_of rid (pk_count k) (pk_previous k) (pk_frames k)) in *.
  destruct (_write_segment (pk_repo k) seg) as [r' [d|e]] eqn:Hw; [|done].
  injection Hpub as <-. cbn [published] in HU. apply Forall_app in HU as [_ HU].
  apply Forall_cons_1 in HU as [HU _].
  destruct Hk as [Hm Hc Hf Hst Hch Hnd Hcnt Hfr Hids Hib Hbd].
  destruct (write_segment_keeps _ _ _ _ Hw) as (Hm' & Hc' & Hsub).
  destruct (write_segment_ok _ _ _ _ _ Hcf Hst HU Hw) as (Hd & Hsz & Hlk & Hst').
  exists ((d, seg) :: l). split_and!; [|done|done].
  split; cbn [pk_repo pk_previous pk_count pk_frames pk_commit_ids]; try done.
  - by rewrite Hm', Hm.
  - by rewrite Hc', Hc.
  - by etrans.
  - constructor; try done; [cbn; lia|]. by eapply chain_mono.
  - rewrite fmap_cons. constructor; [|done].
    intros ([d0 seg0] & Hd0 & Hin)%list_elem_of_fmap. cbn in Hd0. subst d0.
    destruct (chain_lookup _ _ _ _ _ _ Hch Hin) as (_ & Hd' & Hlk' & _ & _ & Hseq).
    assert (canonical_segment seg0 = canonical_segment seg) as E.
    { apply Hcf; [by eapply Hst|done|congruence]. }
    apply (f_equal loads_segment) in E. rewrite !loads_canonical in E.
    injection E as ->. cbn in Hseq. lia.
  - rewrite length_cons. lia.
  - rewrite chain_frames_cons, app_nil_r. exact Hfr.
  - cbn. unfold MAX_COMMITS_PER_SEGMENT. rewrite size_empty. lia.
  - constructor; [|done]. split_and!; [done| |done].
    change (frames (d, seg).2) with (pk_frames k). by rewrite <-Hids.
Qed.

Lemma publish_keeps rid (k : packing) k' res :
  publish_segment rid k = (k', res) →
  manifest_file (pk_repo k') = manifest_file (pk_repo k) ∧
  config_file (pk_repo k') = config_file (pk_repo k) ∧
  segment_files (pk_repo k) ⊆ segment_files (pk_repo k') ∧
  published k `prefix_of` published k'.
Proof.
  unfold publish_segment. destruct (pk_frames k); [by intros [= <- <-]|].
  destruct (_write_segment _ _) as [r' [d|e]] eqn:Hw; intros [= <- <-]; cbn;
    destruct (write_segment_keeps _ _ _ _ Hw) as (-> & -> & ?);
    split_and!; try done; by apply prefix_app_r.
Qed.

Lemma pack_frame_keeps rid (k : packing) f k' res :
  pack_frame rid k f = (k', res) →
  manifest_file (pk_repo k') = manifest_file (pk_repo k) ∧
  config_file (pk_repo k') = config_file (pk_repo k) ∧
  segment_files (pk_repo k) ⊆ segment_files (pk_repo k') ∧
  published k `prefix_of` published k'.
Proof.
  unfold pack_frame. set (full := _ && _). intros Hp.
  destruct (if full then publish_segment rid k else (k, Ok tt)) as [k1 [u|e]] eqn:H1.
  - assert (manifest_file (pk_repo k1) = manifest_file (pk_repo k) ∧
            config_file (pk_repo k1) = config_file (pk_repo k) ∧
            segment_files (pk_repo k) ⊆ segment_files (pk_repo k1) ∧
            published k `prefix_of` published k1) as Hk1.
    { destruct full; [by eapply publish_keeps|by injection H1 as <-]. }
    case_decide; injection Hp as <- <-; exact Hk1.
  - injection Hp as <- <-. destruct full; [by eapply publish_keeps|done].
Qed.

Lemma pack_frames_keeps rid fs (k : packing) k' res :
  pack_frames rid k fs = (k', res) →
  manifest_file (pk_repo k') = manifest_file (pk_repo k) ∧
  config_file (pk_repo k') = config_file (pk_repo k) ∧
  segment_files (pk_repo k) ⊆ segment_files (pk_repo k') ∧
  published k `prefix_of` published k'.
Proof.
  revert k. induction fs as [|f fs IH]; intros k; cbn; [apply publish_keeps|].
  destruct (pack_frame rid k f) as [k1 [u|e]] eqn:Hf.
  - intros (Hm & Hc & Hs & Hp)%IH. apply pack_frame_keeps in Hf as (Hm1 & Hc1 & Hs1 & Hp1).
    split_and!; [congruence|congruence|by etrans|by etrans].
  - intros [= <- <-]. by eapply pack_frame_keeps.
Qed.

Lemma frame_ids_snoc (fs : list frame_t) f :
  frame_ids (fs ++ [f]) = frame_ids fs ∪ {[ py_str (commit_id (frame_base f)) ]}.
Proof. unfold frame_ids. rewrite fmap_app, list_to_set_app_L. cbn. set_solver. Qed.

Lemma pack_frame_ok U r0 rid k l fs f k' :
  collision_free U → packing_ok U r0 rid k l fs → Forall small_frame (pk_frames k) →
  pack_frame rid k f = (k', Ok tt) →
  Forall (λ s, U (canonical_segment s)) (published k') →
  ∃ l', packing_ok U r0 rid k' l' (fs ++ [f]) ∧
        (pk_frames k' = pk_frames k ++ [f] ∨ pk_frames k' = [f]).
Proof.
  intros Hcf Hk Hsmall Hpack HU. unfold pack_frame in Hpack.
  set (full := _ && _) in Hpack.
  destruct (if full then publish_segment rid k else (k, Ok tt)) as [k1 [[]|e]] eqn:H1; [|done].
  case_decide; [done|]. injection Hpack as <-. cbn [published pk_frames] in *.
  assert (∃ l1, packing_ok U r0 rid k1 l1 fs ∧ (pk_frames k1 = pk_frames k ∨ pk_frames k1 = []) ∧
            (size (pk_commit_ids k1 ∪ {[ py_str (commit_id (frame_base f)) ]})
             ≤ MAX_COMMITS_PER_SEGMENT)%nat) as (l1 & Hk1 & Hfr1 & Hsz).
  { destruct full eqn:Hfull.
    - destruct (publish_ok U r0 rid k l fs k1) as (l1 & Hk1 & Hnil & _); try done.
      exists l1. split_and!; [done|by right|].
      rewrite (po_ids _ _ _ _ _ _ Hk1), Hnil. unfold frame_ids. cbn.
      rewrite (left_id_L ∅ (∪)), size_singleton. unfold MAX_COMMITS_PER_SEGMENT. lia.
    - injection H1 as <-. exists l. split_and!; [done|by left|].
      subst full. apply andb_false_iff in Hfull as [Hnil|Hor].
      + apply bool_decide_eq_false, dec_stable in Hnil.
        rewrite (po_ids _ _ _ _ _ _ Hk), Hnil. unfold frame_ids. cbn.
        rewrite (left_id_L ∅ (∪)), size_singleton. unfold MAX_COMMITS_PER_SEGMENT. lia.
      + apply orb_false_iff in Hor as [Hor%bool_decide_eq_false _]. lia. }
  exists l1. split.
  - destruct Hk1 as [Hm Hc Hf Hst Hch Hnd Hcnt Hfr Hids Hib Hbd].
    split; cbn [pk_repo pk_previous pk_count pk_frames pk_commit_ids]; try done.
    + by rewrite <-Hfr, app_assoc.
    + by rewrite frame_ids_snoc, Hids.
  - destruct Hfr1 as [->| ->]; [by left|by right].
Qed.

Lemma pack_frames_ok U r0 rid k l fs0 fs k' :
  collision_free U → packing_ok U r0 rid k l fs0 →
  Forall small_frame (pk_frames k) → Forall small_frame fs →
  pack_frames rid k fs = (k', Ok tt) →
  Forall (λ s, U (canonical_segment s)) (published k') →
  ∃ l', packing_ok U r0 rid k' l' (fs0 ++ fs) ∧ pk_frames k' = [].
Proof.
  intros Hcf. revert k l fs0. induction fs as [|f fs IH]; intros k l fs0 Hk Hsm Hfs Hpack HU;
    cbn in Hpack.
  { destruct (publish_ok U r0 rid k l fs0 k') as (l' & Hk' & Hnil & _); try done.
    exists l'. by rewrite app_nil_r. }
  destruct (pack_frame rid k f) as [k1 [[]|e]] eqn:Hf; [|done].
  apply Forall_cons_1 in Hfs as [Hf1 Hfs].
  destruct (pack_frames_keeps _ _ _ _ _ Hpack) as (_ & _ & _ & [ext Hext]).
  destruct (pack_frame_ok U r0 rid k l fs0 f k1) as (l1 & Hk1 & Hfr1); try done.
  { rewrite Hext in HU. by apply Forall_app in HU as [? _]. }
  destruct (IH k1 l1 (fs0 ++ [f])) as (l' & Hk' & Hnil); try done.
  { destruct Hfr1 as [->| ->]; [apply Forall_app; split|]; try done; by apply Forall_singleton. }
  exists l'. by rewrite <-app_assoc in Hk'.
Qed.

(** ** Commit lists *)

(** Every commit names its predecessor; [prev] is the commit before [cs]. *)
Fixpoint linked (prev : option string) (cs : list commit) : Prop :=
  match cs with
  | [] => True
  | c :: cs' =>
      match prev with Some p => py_str (parent_commit_id (base c)) = p | None => True end ∧
      linked (Some (id_of c)) cs'
  end.

Definition last_id (prev : option string) (cs : list commit) : option string :=
  foldl (λ _ c, Some (id_of c)) prev cs.

Definition total_changes (cs : list commit) : Z :=
  foldr (λ c n, Z.of_nat (length (changes c)) + n) 0 cs.

Lemma last_id_app prev cs cs' : last_id prev (cs ++ cs') = last_id (last_id prev cs) cs'.
Proof. apply foldl_app. Qed.

Lemma total_changes_app cs cs' : total_changes (cs ++ cs') = total_changes cs + total_changes cs'.
Proof.
  unfold total_changes. induction cs as [|c cs IH]; [done|].
  cbn [app foldr]. rewrite IH. lia.
Qed.

Lemma linked_app prev cs cs' :
  linked prev (cs ++ cs') ↔ linked prev cs ∧ linked (last_id prev cs) cs'.
Proof.
  revert prev. induction cs as [|c cs IH]; intros prev; cbn [app linked]; [naive_solver|].
  rewrite IH. cbn [last_id foldl]. naive_solver.
Qed.

Lemma id_of_py_str (c : commit) : id_of c ≠ "" → py_str (commit_id (base c)) = id_of c.
Proof. unfold id_of. by destruct (commit_id (base c)). Qed.

Lemma append_commits_ok p cs p' :
  foldM append_commit p cs = Ok p' →
  ∃ fss, Forall2 (λ c fs, _frames_for_commit c = Ok fs) cs fss ∧
    all_frames p' = all_frames p ++ concat fss ∧ linked (previous_commit p) cs ∧
    previous_commit p' = last_id (previous_commit p) cs ∧
    new_commits p' = new_commits p + Z.of_nat (length cs) ∧
    new_changes p' = new_changes p + total_changes cs ∧
    Forall (λ c, id_of c ≠ "") cs.
Proof.
  revert p. induction cs as [|c cs IH]; intros p Hf; cbn in Hf.
  { injection Hf as <-. exists []. rewrite app_nil_r. cbn. split_and!; try done; lia. }
  apply result_bind_ok in Hf as (p1 & H1 & Hf). unfold append_commit in H1.
  change (str_or_empty (commit_id (base c))) with (id_of c) in H1.
  case_decide as Hid; [done|].
  apply result_bind_ok in H1 as ([] & Hpar & (fs & Hfs & [= <-])%result_bind_ok).
  destruct (IH _ Hf) as (fss & Hall & Haf & Hl & Hpc & Hn & Hc & Hne).
  exists (fs :: fss). cbn [all_frames previous_commit new_commits new_changes] in *.
  split_and!.
  - by constructor.
  - rewrite Haf. cbn. by rewrite app_assoc.
  - split; [|done]. destruct (previous_commit p); [|done]. by case_decide.
  - done.
  - rewrite Hn, length_cons. lia.
  - rewrite Hc. unfold total_changes. cbn [foldr]. lia.
  - by constructor.
Qed.

Lemma frames_small c fs : _frames_for_commit c = Ok fs → Forall small_frame fs.
Proof.
  unfold _frames_for_commit. destruct (changes c) as [|ch rest] eqn:Hc.
  { intros [= <-]. constructor; [|constructor]. unfold small_frame. cbn. lia. }
  intros (chunks & Hloop & [= <-])%result_bind_ok.
  apply chunk_loop_spec in Hloop as (_ & Hall & _); [|constructor|by left].
  apply Forall_forall. intros f (i & x & -> & Hx)%elem_of_lookup_imap.
  rewrite Forall_lookup in Hall. by destruct (Hall _ _ Hx) as (_ & ? & _).
Qed.

(** ** The representation invariant *)

Record history (r : Repo) (m : Manifest) (l : list (string * segment)) (cs : list commit) : Prop := {
  h_manifest : read_manifest r = Ok m;
  h_config : check_config r m = [];
  h_chain : chain (segment_files r) (man_repository_id m) (head_segment m) l;
  h_nodup : NoDup l.*1;
  h_bounded : Forall (λ p, seg_bounded p.2) l;
  h_segments : segment_count m = Z.of_nat (length l);
  h_frames : ∃ fss, Forall2 frames_ok cs fss ∧ concat fss = chain_frames l;
  h_last : last_complete_commit_id m = last_id None cs;
  h_commits : commit_count m = Z.of_nat (length cs);
  h_changes : change_count m = total_changes cs;
  h_linked : linked None cs;
  h_ids : Forall (λ c, id_of c ≠ "") cs;
  h_fresh : NoDup (id_of <$> cs) }.

Lemma check_segments_ok rid files head l errs :
  chain files rid head l →
  foldl (check_segment rid) (0, None, errs) (rev l) = (Z.of_nat (length l), head, errs).
Proof.
  induction 1 as [|d seg l Hf Hd Hfmt Hrid Hseq Hc IH]; [done|].
  cbn [rev]. rewrite foldl_app, IH. cbn [foldl check_segment].
  rewrite (decide_False (P := previous_segment seg ≠ _)) by naive_solver.
  rewrite (decide_False (P := sequence seg ≠ _)) by (rewrite Hseq; lia).
  rewrite (decide_False (P := seg_repository_id seg ≠ _)) by naive_solver.
  cbn [app]. rewrite app_nil_r. do 2 f_equal. rewrite length_cons. lia.
Qed.

Lemma check_commits_ok cs n nch prev errs :
  linked prev cs → Forall (λ c, id_of c ≠ "") cs →
  foldl check_commit (n, nch, prev, errs) cs =
  (n + Z.of_nat (length cs), nch + total_changes cs, last_id prev cs, errs).
Proof.
  revert n nch prev. induction cs as [|c cs IH]; intros n nch prev Hl Hne.
  { cbn. do 3 f_equal; lia. }
  destruct Hl as [Hp Hl]. apply Forall_cons_1 in Hne as [Hid Hne]. cbn [foldl check_commit].
  replace (match prev with Some _ => _ | None => [] end) with (@nil VerifyMessage).
  2: { destruct prev; [|done]. by rewrite decide_False by naive_solver. }
  rewrite app_nil_r, id_of_py_str by done. rewrite IH by done.
  rewrite length_cons. unfold total_changes, last_id. cbn [foldr foldl].
  do 3 f_equal; lia.
Qed.

Lemma history_reads r m l cs :
  history r m l cs →
  iter_commits r false = (cs, None) ∧ iter_commits r true = (rev cs, None).
Proof.
  intros Hh. destruct (iter_segments_chain r m l) as [Ht Hf]; try apply Hh.
  destruct (h_frames _ _ _ _ Hh) as (fss & Hall & Hcat).
  unfold iter_commits. rewrite Ht, Hf. split.
  - replace (rev l ≫= _) with (concat fss)
      by (rewrite Hcat; unfold chain_frames; apply list_bind_ext; [by intros []|done]).
    apply group_frames_all; try apply Hh.
    eapply Forall2_impl; [exact Hall|]. eauto.
  - replace (l ≫= _) with (concat (rev ((λ fs, rev fs) <$> fss))).
    2: { transitivity (rev (chain_frames l)).
         - rewrite <-Hcat. clear. induction fss as [|fs fss IH]; cbn; [done|].
           rewrite concat_app, rev_app_distr. cbn. by rewrite app_nil_r, <-IH.
         - unfold chain_frames. clear. induction l as [|[d seg] l IH]; cbn; [done|].
           rewrite bind_app, bind_singleton, rev_app_distr, IH. done. }
    apply group_frames_all.
    + apply Forall2_rev. apply Forall2_fmap_r. eapply Forall2_impl; [exact Hall|].
      intros c fs Hok. exists fs. split; [done|]. symmetry. apply Permutation_rev.
    + change (id_of <$> rev cs) with (map id_of (rev cs)). rewrite map_rev.
      rewrite <-Permutation_rev. apply Hh.
    + rewrite <-Permutation_rev. apply Hh.
Qed.

Lemma history_verifies r m l cs :
  history r m l cs →
  verify r true =
  mkVerify true (Z.of_nat (length l)) (Z.of_nat (length cs)) (total_changes cs) [].
Proof.
  intros Hh. destruct (history_reads _ _ _ _ Hh) as [Hc _].
  destruct (iter_segments_chain r m l) as [_ Hf]; try apply Hh.
  unfold verify. rewrite (h_manifest _ _ _ _ Hh), Hf, (h_config _ _ _ _ Hh).
  rewrite (check_segments_ok _ _ _ _ _ (h_chain _ _ _ _ Hh)), Hc.
  rewrite check_commits_ok by apply Hh. rewrite !Z.add_0_l.
  rewrite (h_last _ _ _ _ Hh), (h_segments _ _ _ _ Hh), (h_commits _ _ _ _ Hh),
    (h_changes _ _ _ _ Hh).
  repeat (rewrite decide_False by naive_solver).
  rewrite !(bool_decide_eq_false_2 (_ ≠ _)) by naive_solver. rewrite !andb_false_r. done.
Qed.

(** ** [append] refines list append *)

(** The segments an [append] hands to [_write_segment]. *)
Definition attempted (r : Repo) (new : list commit) : list segment :=
  match read_manifest r with
  | Err _ => []
  | Ok m =>
      match foldM append_commit (mkPending (last_complete_commit_id m) [] 0 0) new with
      | Err _ => []
      | Ok p => published (pack_frames (man_repository_id m) (start_packing r m)
                             (all_frames p)).1
      end
  end.

(** The byte strings one [append] hashes or compares by hash. *)
Definition universe (r : Repo) (new : list commit) (raw : list Z) : Prop :=
  (∃ d, segment_files r !! d ≫= decompress = Some raw) ∨
  raw ∈ canonical_segment <$> attempted r new.

(** New commits carry ids of their own; ["None"] is not an id. *)
Definition fresh_commits (cs new : list commit) : Prop :=
  NoDup (id_of <$> cs ++ new) ∧
  Forall (λ c, ∃ id, commit_id (base c) = Some id ∧ id ≠ "None") new.

Lemma not_replay m cs c :
  last_complete_commit_id m = last_id None cs → fresh_commits cs [c] →
  py_str (commit_id (base c)) ≠ py_str (last_complete_commit_id m).
Proof.
  intros Hl [Hnd Hid] E. rewrite Hl in E.
  apply Forall_cons_1 in Hid as [(id & Hid & Hne) _]. rewrite Hid in E. cbn in E.
  destruct (decide (cs = [])) as [->|Hcs]; [done|].
  destruct (exists_last Hcs) as (cs' & c' & ->).
  rewrite last_id_app in E. cbn in E. rewrite !fmap_app, NoDup_app in Hnd.
  destruct Hnd as (_ & Hdis & _). apply (Hdis (id_of c')); [set_solver|].
  rewrite <-E. unfold id_of. cbn. rewrite Hid. set_solver.
Qed.

Lemma history_start_packing r m l cs new :
  history r m l cs →
  packing_ok (universe r new) r (man_repository_id m) (start_packing r m) l (chain_frames l).
Proof.
  intros Hh. split; cbn; try done; try apply Hh.
  - intros d raw Hd. left. eauto.
  - apply app_nil_r.
  - rewrite size_empty. lia.
Qed.

Lemma read_manifest_inv r m :
  read_manifest r = Ok m →
  manifest_file r = Some (Some m) ∧ _validate_header (man_format m) "manifest" = Ok tt.
Proof.
  unfold read_manifest. destruct (manifest_file r) as [[m0|]|]; [|done..].
  intros ([] & Hv & [= ->])%result_bind_ok. done.
Qed.

Lemma append_extends r m l cs new now r' m' :
  history r m l cs → fresh_commits cs new → collision_free (universe r new) →
  append r new now = (r', Ok m') →
  ∃ l', history r' m' l' (cs ++ new).
Proof.
  intros Hh Hfresh Hcf Happ. unfold append in Happ.
  rewrite (h_manifest _ _ _ _ Hh) in Happ.
  destruct (decide (new = [])) as [->|Hne].
  { injection Happ as <- <-. exists l. by rewrite app_nil_r. }
  rewrite (bool_decide_eq_false_2 (new = [])) in Happ by done. cbn [orb] in Happ.
  assert (match new with
          | [c] => bool_decide (py_str (commit_id (base c)) = py_str (last_complete_commit_id m))
          | _ => false end = false) as Hrep.
  { destruct new as [|c [|]]; try done. apply bool_decide_eq_false_2.
    eapply not_replay; [apply Hh|done]. }
  rewrite Hrep in Happ. clear Hrep.
  destruct (foldM append_commit _ new) as [p|e] eqn:Hp; [|done].
  destruct (pack_frames _ _ _) as [k [[]|e]] eqn:Hk; [|done].
  injection Happ as <- <-.
  destruct (append_commits_ok _ _ _ Hp) as (fss & Hall & Haf & Hl & Hpc & Hn & Hc & Hids).
  cbn [all_frames previous_commit new_commits new_changes app] in *.
  assert (Forall (λ s, universe r new (canonical_segment s)) (published k)) as HU.
  { apply Forall_forall. intros s Hs. right. apply list_elem_of_fmap. exists s. split; [done|].
    unfold attempted. by rewrite (h_manifest _ _ _ _ Hh), Hp, Hk. }
  destruct (pack_frames_ok (universe r new) r (man_repository_id m) (start_packing r m) l
              (chain_frames l) (all_frames p) k)
    as (l' & Hk' & Hnil); try done; [by apply (history_start_packing _ _ _ cs)| |].
  { rewrite Haf. apply Forall_concat. clear -Hall.
    induction Hall; constructor; auto. by eapply frames_small. }
  exists l'. destruct Hk' as [Hm Hcf' Hf Hst Hch Hnd Hcnt Hfr _ _ Hbd].
  rewrite Hnil, app_nil_r in Hfr.
  destruct (h_frames _ _ _ _ Hh) as (fss0 & Hall0 & Hcat0).
  split; cbn [segment_files man_repository_id head_segment segment_count
              last_complete_commit_id commit_count change_count advance]; try done.
  - destruct (read_manifest_inv _ _ (h_manifest _ _ _ _ Hh)) as [_ Hv].
    unfold read_manifest. cbn [manifest_file man_format advance]. by rewrite Hv.
  - unfold check_config. cbn. rewrite Hcf'. apply (h_config _ _ _ _ Hh).
  - exists (fss0 ++ fss). split.
    + apply Forall2_app; [done|]. eapply Forall2_impl; [exact Hall|].
      intros; by apply frames_for_commit_ok.
    + by rewrite concat_app, Hcat0, <-Haf, Hfr.
  - by rewrite last_id_app, Hpc, (h_last _ _ _ _ Hh).
  - rewrite (h_commits _ _ _ _ Hh), Hn, length_app. lia.
  - rewrite (h_changes _ _ _ _ Hh), Hc, total_changes_app. lia.
  - apply linked_app. split; [apply Hh|]. by rewrite <-(h_last _ _ _ _ Hh).
  - apply Forall_app. split; [apply Hh|done].
  - apply Hfresh.
Qed.

(** An [append] that raises leaves the represented history unchanged. *)
Lemma append_failure_keeps r m l cs new now r' e :
  history r m l cs → append r new now = (r', Err e) → history r' m l cs.
Proof.
  intros Hh Happ. unfold append in Happ. rewrite (h_manifest _ _ _ _ Hh) in Happ.
  destruct (_ || _); [done|].
  destruct (foldM append_commit _ new) as [p|e'] eqn:Hp; [|by injection Happ as <- <-].
  destruct (pack_frames _ _ _) as [k [u|e']] eqn:Hk; [done|]. injection Happ as <- <-.
  destruct (pack_frames_keeps _ _ _ _ _ Hk) as (Hm & Hc & Hs & _). cbn in Hm, Hc, Hs.
  destruct Hh. split; try done.
  - unfold read_manifest in *. by rewrite Hm.
  - unfold check_config in *. by rewrite Hc.
  - by eapply chain_mono.
Qed.

Lemma initialise_history r rid source dir gen now now' r' :
  manifest_file r = None → initialise r rid source dir gen now now' = (r', Ok tt) →
  ∃ m, history r' m [] [].
Proof.
  intros Hr Hi. unfold initialise, exists_ in Hi.
  rewrite bool_decide_eq_false_2 in Hi by (rewrite Hr; by intros [? [=]]).
  injection Hi as <-. eexists.
  split; [reflexivity|..]; cbn; try done; try constructor.
  - unfold check_config. cbn. by rewrite decide_False by naive_solver.
  - by exists [].
Qed.

(** ** Reachable repositories

    [reaches r cs]: [r] was initialised and then saw any sequence of [append]
    calls; [cs] are the commits of the calls that returned.  A call that
    raised (or a process that died before the manifest was replaced) only
    leaves extra segment files behind. *)
Inductive reaches : Repo → list commit → Prop :=
| reach_initialise r rid source dir gen now now' r' :
    manifest_file r = None →
    initialise r rid source dir gen now now' = (r', Ok tt) →
    reaches r' []
| reach_append r cs new now r' m' :
    reaches r cs → fresh_commits cs new → collision_free (universe r new) →
    append r new now = (r', Ok m') →
    reaches r' (cs ++ new)
| reach_failed_append r cs new now r' e :
    reaches r cs → append r new now = (r', Err e) →
    reaches r' cs.

Lemma reaches_history r cs : reaches r cs → ∃ m l, history r m l cs.
Proof.
  induction 1 as [r rid source dir gen now now' r' Hr Hi
                 |r cs new now r' m' _ (m & l & Hh) Hfresh Hcf Happ
                 |r cs new now r' e _ (m & l & Hh) Happ].
  - destruct (initialise_history _ _ _ _ _ _ _ _ Hr Hi) as (m & Hh). eauto.
  - destruct (append_extends _ _ _ _ _ _ _ _ Hh Hfresh Hcf Happ) as (l' & Hh'). eauto.
  - exists m, l. by eapply append_failure_keeps.
Qed.



(** The published segments respect the format's limits: at most 4 MiB of
    canonical JSON, at most 100 distinct commits and at most 25 changes in
    every frame. *)
Theorem segments_bounded r cs :
  reaches r cs →
  ∃ l, iter_segments r false = (l, None) ∧ Forall (λ p, seg_bounded p.2) l.
Proof.
  intros (m & l & Hh)%reaches_history. exists (rev l). split.
  - eapply (iter_segments_chain r m l); apply Hh.
  - rewrite <-Permutation_rev. apply Hh.
Qed.

(** C20: [append] is safe to retry.  Appending a fresh commit and appending
    the same commit again returns the manifest of the first call and changes
    nothing; and looking the commit up by id finds it. *)
Theorem append_retry_safe r cs c now now' r' m' :
  reaches r cs → fresh_commits cs [c] → collision_free (universe r [c]) →
  append r [c] now = (r', Ok m') →
  append r' [c] now' = (r', Ok m') ∧ find_commit r' (id_of c) = Ok (Some c).
Proof.
  intros (m & l & Hh)%reaches_history Hfresh Hcf Happ.
  destruct (append_extends _ _ _ _ _ _ _ _ Hh Hfresh Hcf Happ) as (l' & Hh').
  assert (id_of c ≠ "") as Hid.
  { assert (Hids := h_ids _ _ _ _ Hh'). apply Forall_app in Hids as [_ Hids].
    by apply Forall_cons_1 in Hids as [? _]. }
  split.
  - unfold append. rewrite (h_manifest _ _ _ _ Hh').
    rewrite (h_last _ _ _ _ Hh'), last_id_app. cbn [last_id foldl].
    rewrite (bool_decide_eq_false_2 ([c] = [])) by done.
    by rewrite bool_decide_eq_true_2 by by apply id_of_py_str.
  - unfold find_commit. destruct (history_reads _ _ _ _ Hh') as [_ ->].
    rewrite rev_app_distr. cbn [rev app list_find].
    by rewrite decide_True by by apply id_of_py_str.
Qed.

(** The replay test compares [str(None)] with [str(None)].  On a
    repository without commits, appending a single commit that has no
    [commit_id] (or the id ["None"]) is taken for a replay: the call returns
    the old manifest and drops the commit instead of raising. *)
Theorem missing_id_taken_for_replay r m (c : commit) now :
  read_manifest r = Ok m → last_complete_commit_id m = None →
  commit_id (base c) = None ∨ commit_id (base c) = Some "None" →
  append r [c] now = (r, Ok m) ∧
  append_commit (mkPending None [] 0 0) (mkCommit (mkBase None None (other_keys (base c))) [])
    = Err CommitIdRequired.
Proof.
  intros Hm Hl Hid. split; [|done]. unfold append. rewrite Hm, Hl.
  assert (py_str (commit_id (base c)) = py_str None) as -> by by destruct Hid as [->| ->].
  rewrite (bool_decide_eq_true_2 (py_str None = py_str None)) by done.
  by rewrite orb_true_r.
Qed.
End History.
