(* ===== verification/SegmentLogExample.v ===== *)
(** * A concrete segment log

    An instance of [Codec] by executable functions (an injective bit encoding
    for the JSON text, the identity for zlib, a 256-bit polynomial hash for
    SHA-256), on which the hypotheses of the theorems of [SegmentLogHistory]
    hold and the repository operations evaluate. *)

From stdpp Require Import base gmap strings list countable.
From S2P Require Import Prelude SegmentLog SegmentLogFacts SegmentLogHistory.

(** ** Bit strings *)

Fixpoint pos_bits (p : positive) : list Z :=
  match p with
  | xH => []
  | xO p' => 0 :: pos_bits p'
  | xI p' => 1 :: pos_bits p'
  end.

Fixpoint bits_pos (l : list Z) : positive :=
  match l with
  | [] => xH
  | b :: l' => if decide (b = 0) then xO (bits_pos l') else xI (bits_pos l')
  end.

Lemma bits_pos_bits p : bits_pos (pos_bits p) = p.
Proof. induction p as [p IH|p IH|]; cbn; by rewrite ?IH. Qed.

(** ** Segments of unit headers and integer changes as countable data *)

Abbreviation ex_commit := (Commit unit Z).
Abbreviation ex_segment := (Segment unit Z).

Abbreviation frame_tuple :=
  (((option string * option string) * (Z * Z)) * list Z)%type.
Abbreviation segment_tuple :=
  (((string * string) * (Z * string)) * ((Z * option string) * list frame_tuple))%type.

Definition frame_to (f : Frame unit Z) : frame_tuple :=
  (((commit_id (frame_base f), parent_commit_id (frame_base f)), (frame f, frame_count f)),
   frame_changes f).
Definition frame_of (t : frame_tuple) : Frame unit Z :=
  let '(((i, p), (n, c)), ch) := t in mkFrame (mkBase i p tt) n c ch.

Definition segment_to (s : ex_segment) : segment_tuple :=
  (((product_version (seg_format s), format_id (seg_format s)),
    (format_revision (seg_format s), seg_repository_id s)),
   ((sequence s, previous_segment s), frame_to <$> frames s)).
Definition segment_of_tuple (t : segment_tuple) : ex_segment :=
  let '(((v, f), (rv, rid)), ((sq, pv), fs)) := t in
  mkSegment (mkFormat v f rv) rid sq pv (frame_of <$> fs).

Lemma frame_of_to f : frame_of (frame_to f) = f.
Proof. by destruct f as [[i p []] n c ch]. Qed.

Lemma segment_of_to s : segment_of_tuple (segment_to s) = s.
Proof.
  destruct s as [[v f rv] rid sq pv fs]. cbn. f_equal.
  rewrite <-list_fmap_compose. rewrite <-(list_fmap_id fs) at 2.
  apply list_fmap_ext. intros i x _. apply frame_of_to.
Qed.

(** ** A 64-digit hexadecimal digest *)

Definition hex_char (z : Z) : Ascii.ascii :=
  nth (Z.to_nat (z mod 16)) (String.list_ascii_of_string "0123456789abcdef")
    (Ascii.ascii_of_nat 48).

Fixpoint hex_string (n : nat) (z : Z) : string :=
  match n with
  | O => ""
  | S n' => String (hex_char z) (hex_string n' (z / 16))
  end.

Definition poly_hash (b : list Z) : Z :=
  foldl (λ h x, (h * 257 + x + 1) mod (2 ^ 256 - 189)) 7 b.

Definition ex_digest (b : list Z) : string := hex_string 64 (poly_hash b).

Lemma hex_char_hex z : hex_digit (hex_char z) = true.
Proof.
  unfold hex_char. assert (0 <= z mod 16 < 16)%Z as Hz by (apply Z.mod_pos_bound; lia).
  assert (∃ n, z mod 16 = Z.of_nat n ∧ (n < 16)%nat) as (n & -> & Hn).
  { exists (Z.to_nat (z mod 16)). lia. }
  rewrite Nat2Z.id. do 16 (destruct n as [|n]; [reflexivity|]). lia.
Qed.

Lemma hex_string_valid n z :
  String.length (hex_string n z) = n ∧
  forallb hex_digit (String.list_ascii_of_string (hex_string n z)) = true.
Proof.
  revert z. induction n as [|n IH]; intros z; [done|]. destruct (IH (z / 16)) as [Hl Hd].
  cbn [hex_string String.length String.list_ascii_of_string forallb].
  by rewrite Hl, hex_char_hex, Hd.
Qed.

Lemma ex_digest_valid b : valid_digest (ex_digest b) = true.
Proof.
  unfold valid_digest, ex_digest. destruct (hex_string_valid 64 (poly_hash b)) as [-> ->]. done.
Qed.

Global Instance ex_codec : Codec unit Z.
Proof.
  refine {|
    canonical_commit c := changes c;
    canonical_segment s := pos_bits (encode (segment_to s));
    loads_segment b := segment_of_tuple <$> decode (bits_pos b);
    compress b := b;
    decompress b := Some b;
    digest_bytes := ex_digest |}.
  - intros s. rewrite bits_pos_bits, decode_encode. exact (f_equal Some (segment_of_to s)).
  - done.
  - apply ex_digest_valid.
Defined.

(** ** A repository with one commit *)

Definition ex_dir : Repo := mkRepo None None ∅.
Definition ex_repo : Repo := (initialise ex_dir "repo" None None None "t0" "t1").1.
Definition ex_c : ex_commit := mkCommit (mkBase (Some "c1") None tt) [10; 20; 30].
Definition ex_repo1 : Repo := (append ex_repo [ex_c] "t2").1.

Lemma ex_reaches : reaches ex_repo (@nil ex_commit).
Proof. by apply (reach_initialise ex_dir "repo" None None None "t0" "t1"). Qed.

Lemma ex_fresh : fresh_commits [] [ex_c].
Proof. split; [apply (bool_decide_unpack _); exact I|]. constructor; [|constructor]. by exists "c1". Qed.

Lemma ex_collision_free : collision_free (universe ex_repo [ex_c]).
Proof.
  assert (∃ s, attempted ex_repo [ex_c] = [s]) as [s Hs] by (eexists; vm_compute; reflexivity).
  assert (∀ raw, universe ex_repo [ex_c] raw → raw = canonical_segment s) as Hone.
  { intros raw [[d Hd]|Hin].
    - change (segment_files ex_repo) with (∅ : gmap string (list Z)) in Hd.
      by rewrite lookup_empty in Hd.
    - rewrite Hs in Hin. by apply list_elem_of_singleton in Hin. }
  intros a b Ha%Hone Hb%Hone _. congruence.
Qed.

Lemma ex_append_ok : ∃ m, append ex_repo [ex_c] "t2" = (ex_repo1, Ok m).
Proof. eexists. vm_compute. reflexivity. Qed.

Lemma ex_reaches1 : reaches ex_repo1 [ex_c].
Proof.
  destruct ex_append_ok as [m Hm].
  exact (reach_append _ _ _ _ _ _ ex_reaches ex_fresh ex_collision_free Hm).
Qed.

(** ** The theorems at this repository *)



Lemma segments_bounded_witness :
  ∃ l, iter_segments ex_repo1 false = (l, None) ∧ Forall (λ p, seg_bounded p.2) l.
Proof. exact (segments_bounded ex_repo1 [ex_c] ex_reaches1). Defined.

Lemma append_retry_safe_witness :
  ∃ m, append ex_repo1 [ex_c] "t9" = (ex_repo1, Ok m) ∧
       find_commit ex_repo1 "c1" = Ok (Some ex_c).
Proof.
  destruct ex_append_ok as [m Hm]. exists m.
  exact (append_retry_safe ex_repo [] ex_c "t2" "t9" ex_repo1 m
           ex_reaches ex_fresh ex_collision_free Hm).
Defined.

Lemma missing_id_taken_for_replay_witness :
  ∃ m, append ex_repo [mkCommit (mkBase None None tt) [7]] "t2" = (ex_repo, Ok m).
Proof.
  eexists.
  refine (proj1 (missing_id_taken_for_replay ex_repo _ (mkCommit (mkBase None None tt) [7])
                   "t2" _ _ _)); [reflexivity|reflexivity|by left].
Defined.
