(* ===== verification/ObjectStore.v ===== *)
(** * The content-addressed object store

    [backend/app/services/gitllery/objects.py]: loose objects and packs of
    zlib-compressed canonical JSON, addressed by the SHA-256 of the canonical
    bytes, with a two-entry cache of decoded packs.

    A payload is a curation object: a JSON object whose ["type"] is neither
    ["gitllery-pack"] nor ["gitllery-pack-pointer"], the two types the store
    writes itself. *)

From stdpp Require Import base gmap strings list.
From S2P Require Import Prelude SegmentLog.

(** A decoded file: what [read] distinguishes by its ["type"]. *)
Inductive Stored (Payload : Type) :=
| Object (payload : Payload)
| PackPointer (pack : option string)   (* [None]: not a string *)
| Pack (objects : list (string * Payload)).
Arguments Object {Payload}.
Arguments PackPointer {Payload}.
Arguments Pack {Payload}.

(** [canonical_bytes], [json.loads], [zlib] and [sha256] on those files. *)
Class StoreCodec (Payload : Type) := {
  canonical_bytes : Stored Payload → list Z;
  loads : list Z → option (Stored Payload);
  zcompress : list Z → list Z;
  zdecompress : list Z → option (list Z);
  sha256 : list Z → string;
  loads_canonical_bytes : ∀ v, loads (canonical_bytes v) = Some v;
  zdecompress_compress : ∀ b, zdecompress (zcompress b) = Some b;
  sha256_valid : ∀ b, valid_digest (sha256 b) = true }.

Inductive ReadError :=
| FileMissing | Undecodable | InvalidPackPointer | AbsentFromPack.

Section Store.
Context {Payload : Type} `{StoreCodec Payload}.

(** The directory ([objects/xx/yyy], [objects/packs/*.pack]) and the cache,
    oldest entry first. *)
Record ObjectStore := mkStore {
  object_files : gmap string (list Z);
  pack_files : gmap string (list Z);
  pack_cache : list (string * Stored Payload) }.

Definition hash_payload (payload : Payload) : string :=
  sha256 (canonical_bytes (Object payload)).

Definition store_exists (s : ObjectStore) (digest : string) : bool :=
  bool_decide (is_Some (object_files s !! digest)).

Definition write (s : ObjectStore) (payload : Payload) : ObjectStore * string :=
  let raw := canonical_bytes (Object payload) in
  let digest := sha256 raw in
  if store_exists s digest then (s, digest)
  else (mkStore (<[digest := zcompress raw]> (object_files s)) (pack_files s) (pack_cache s),
        digest).

(** A dict comprehension over [zip(digests, payloads)]: a repeated key keeps
    its first position and takes the last value. *)
Fixpoint dict_set (k : string) (v : Payload) (d : list (string * Payload)) :=
  match d with
  | [] => [(k, v)]
  | (k', v') :: d' => if decide (k = k') then (k, v) :: d' else (k', v') :: dict_set k v d'
  end.

Definition missing_objects (s : ObjectStore) (payloads : list Payload)
    : list (string * Payload) :=
  foldl (λ d p, if store_exists s (hash_payload p) then d else dict_set (hash_payload p) p d)
        [] payloads.

(** Publishing the object names, after the pack is durable. *)
Definition publish_pointer (pack_digest : string) (s : ObjectStore) (digest : string)
    : ObjectStore :=
  if store_exists s digest then s
  else mkStore (<[digest := zcompress (canonical_bytes (PackPointer (Some pack_digest)))]>
                  (object_files s)) (pack_files s) (pack_cache s).

Definition write_pack (s : ObjectStore) (objects : list (string * Payload))
    : ObjectStore * string :=
  let raw := canonical_bytes (Pack objects) in
  let pack_digest := sha256 raw in
  if decide (is_Some (pack_files s !! pack_digest)) then (s, pack_digest)
  else (mkStore (object_files s) (<[pack_digest := zcompress raw]> (pack_files s))
          (pack_cache s), pack_digest).

Definition write_many (s : ObjectStore) (payloads : list Payload)
    : ObjectStore * list string :=
  let digests := hash_payload <$> payloads in
  match missing_objects s payloads with
  | [] => (s, digests)
  | missing =>
      let '(s1, pack_digest) := write_pack s missing in
      (foldl (publish_pointer pack_digest) s1 missing.*1, digests)
  end.

Definition load_file (c : option (list Z)) : result ReadError (Stored Payload) :=
  match c with
  | None => Err FileMissing
  | Some b => match zdecompress b ≫= loads with
              | None => Err Undecodable | Some v => Ok v end
  end.

(** [OrderedDict] operations on the cache. *)
Definition cache_get (c : list (string * Stored Payload)) (k : string) := assoc k c.
Definition cache_touch (c : list (string * Stored Payload)) (k : string) :=
  match assoc k c with
  | Some v => filter (λ p, p.1 ≠ k) c ++ [(k, v)]
  | None => c
  end.
Definition cache_put (c : list (string * Stored Payload)) (k : string) (v : Stored Payload) :=
  let c' := c ++ [(k, v)] in
  if decide (2 < length c')%nat then tail c' else c'.

(** The pack a pointer refers to, through the cache. *)
Definition open_pack (s : ObjectStore) (pack_digest : string)
    : ObjectStore * result ReadError (Stored Payload) :=
  match cache_get (pack_cache s) pack_digest with
  | Some v => (mkStore (object_files s) (pack_files s) (cache_touch (pack_cache s) pack_digest),
               Ok v)
  | None =>
      match load_file (pack_files s !! pack_digest) with
      | Err e => (s, Err e)
      | Ok v => (mkStore (object_files s) (pack_files s)
                   (cache_put (pack_cache s) pack_digest v), Ok v)
      end
  end.

(** The last step of [read]: an object as it is, a pack through its index. *)
Definition select (digest : string) (v : Stored Payload) : result ReadError (Stored Payload) :=
  match v with
  | Pack objects => match assoc digest objects with
                    | Some p => Ok (Object p) | None => Err AbsentFromPack end
  | _ => Ok v
  end.

Definition read (s : ObjectStore) (digest : string)
    : ObjectStore * result ReadError (Stored Payload) :=
  match load_file (object_files s !! digest) with
  | Err e => (s, Err e)
  | Ok (PackPointer pack) =>
      match pack with
      | Some pack_digest =>
          if valid_digest pack_digest then
            let '(s', v) := open_pack s pack_digest in (s', v ≫= select digest)
          else (s, Err InvalidPackPointer)
      | None => (s, Err InvalidPackPointer)
      end
  | Ok v => (s, select digest v)
  end.

Definition verify_object (s : ObjectStore) (digest : string) : ObjectStore * bool :=
  let '(s', v) := read s digest in
  (s', match v with
       | Err _ => false
       | Ok v => bool_decide (sha256 (canonical_bytes v) = digest)
       end).

(** ** The cache is transparent *)

(** [read] without the cache. *)
Definition read_direct (s : ObjectStore) (digest : string) : result ReadError (Stored Payload) :=
  match load_file (object_files s !! digest) with
  | Err e => Err e
  | Ok (PackPointer pack) =>
      match pack with
      | Some pack_digest =>
          if valid_digest pack_digest
          then load_file (pack_files s !! pack_digest) ≫= select digest
          else Err InvalidPackPointer
      | None => Err InvalidPackPointer
      end
  | Ok v => select digest v
  end.

(** Every cached pack is the decoded content of its file, and the cache holds
    at most two. *)
Definition coherent (s : ObjectStore) : Prop :=
  (length (pack_cache s) ≤ 2)%nat ∧ NoDup (pack_cache s).*1 ∧
  ∀ k v, (k, v) ∈ pack_cache s → load_file (pack_files s !! k) = Ok v.

Lemma filter_key_length (c : list (string * Stored Payload)) k v :
  NoDup c.*1 → (k, v) ∈ c → length (filter (λ p, p.1 ≠ k) c) = (length c - 1)%nat.
Proof.
  induction c as [|[k' v'] c IH]; [by intros _ ?%not_elem_of_nil|].
  rewrite fmap_cons. intros [Hnin Hnd]%NoDup_cons [[= -> ->]|Hin]%elem_of_cons.
  - rewrite filter_cons_False by naive_solver. cbn. rewrite Nat.sub_0_r.
    f_equal. apply filter_all. apply Forall_forall. intros [a b] Hab. cbn.
    intros ->. apply Hnin. apply list_elem_of_fmap. by exists (k', b).
  - rewrite filter_cons_True.
    + cbn. rewrite IH by done. destruct c; [by apply not_elem_of_nil in Hin|]. cbn. lia.
    + cbn. intros ->. apply Hnin, list_elem_of_fmap. by exists (k, v).
Qed.

Lemma cache_touch_coherent s k v :
  coherent s → assoc k (pack_cache s) = Some v →
  coherent (mkStore (object_files s) (pack_files s) (cache_touch (pack_cache s) k)).
Proof.
  intros (Hlen & Hnd & Hc) Hk. assert (Hin := assoc_elem_of _ _ _ Hk).
  unfold coherent, cache_touch. cbn. rewrite Hk. split_and!.
  - rewrite length_app, (filter_key_length _ k v) by done. cbn.
    destruct (pack_cache s); [by apply not_elem_of_nil in Hin|cbn in *; lia].
  - rewrite fmap_app. apply NoDup_app. split_and!; [| |apply NoDup_singleton].
    + eapply sublist_NoDup; [exact Hnd|]. apply fmap_sublist, sublist_filter.
    + cbn. intros x ([a b] & -> & [Hne _]%list_elem_of_filter)%list_elem_of_fmap.
      cbn in *. set_solver.
  - intros k' v' [[_ Hin']%list_elem_of_filter|Hs]%elem_of_app; [by apply Hc|].
    apply list_elem_of_singleton in Hs as [= -> ->]. by apply Hc.
Qed.

Lemma cache_put_coherent s k v :
  coherent s → assoc k (pack_cache s) = None → load_file (pack_files s !! k) = Ok v →
  coherent (mkStore (object_files s) (pack_files s) (cache_put (pack_cache s) k v)).
Proof.
  intros (Hlen & Hnd & Hc) Hk Hv. unfold coherent, cache_put. cbn.
  assert (k ∉ (pack_cache s).*1) as Hnin.
  { intros Hin%assoc_is_Some. rewrite Hk in Hin. by destruct Hin. }
  assert (NoDup (pack_cache s ++ [(k, v)]).*1) as Hnd'.
  { rewrite fmap_app. apply NoDup_app. split_and!; [done| |apply NoDup_singleton].
    intros x Hx ->%list_elem_of_singleton. done. }
  assert (∀ k' v', (k', v') ∈ pack_cache s ++ [(k, v)] →
            load_file (pack_files s !! k') = Ok v') as Hall.
  { intros k' v' [?|Hs]%elem_of_app; [by apply Hc|].
    by apply list_elem_of_singleton in Hs as [= -> ->]. }
  case_decide as Hl.
  - rewrite length_app in Hl. cbn in Hl.
    destruct (pack_cache s ++ [(k, v)]) as [|x c] eqn:E; [by destruct (pack_cache s)|].
    cbn. assert (length (x :: c) = S (length (pack_cache s))) as Hlc
      by (rewrite <-E, length_app; cbn; lia).
    cbn in Hlc. split_and!; [lia| |].
    + rewrite fmap_cons in Hnd'. by apply NoDup_cons in Hnd' as [_ ?].
    + intros k' v' Hin. apply Hall. by right.
  - split_and!; [lia|done|done].
Qed.

Lemma read_transparent s d :
  coherent s →
  (read s d).2 = read_direct s d ∧ coherent (read s d).1 ∧
  object_files (read s d).1 = object_files s ∧ pack_files (read s d).1 = pack_files s.
Proof.
  intros Hs. unfold read, read_direct.
  destruct (load_file (object_files s !! d)) as [[p|[pd|]|objs]|e]; try done.
  destruct (valid_digest pd); [|done]. unfold open_pack, cache_get.
  destruct (assoc pd (pack_cache s)) as [v|] eqn:Hv; cbn.
  - destruct Hs as (Hl & Hnd & Hc). rewrite (Hc _ _ (assoc_elem_of _ _ _ Hv)).
    split_and!; try done. by eapply cache_touch_coherent.
  - destruct (load_file (pack_files s !! pd)) as [v|e] eqn:Hlf; cbn; [|done].
    split_and!; try done. by apply cache_put_coherent.
Qed.

(** A client's reads, one after the other. *)
Fixpoint read_all (s : ObjectStore) (ds : list string)
    : ObjectStore * list (result ReadError (Stored Payload)) :=
  match ds with
  | [] => (s, [])
  | d :: ds' => let '(s1, v) := read s d in
                let '(s2, vs) := read_all s1 ds' in (s2, v :: vs)
  end.

(** C34: the pack cache is invisible.  Starting from a store with an empty
    cache, any sequence of reads returns, read for read, what the files say
    without the cache, and the cache never holds more than two packs. *)
Theorem reads_ignore_cache files packs ds :
  let s := mkStore files packs [] in
  (read_all s ds).2 = read_direct s <$> ds ∧ coherent (read_all s ds).1.
Proof.
  enough (∀ s, coherent s →
    (read_all s ds).2 = read_direct s <$> ds ∧ coherent (read_all s ds).1) as Hgen.
  { apply Hgen. split_and!; cbn; [lia|constructor|by intros ?? ?%not_elem_of_nil]. }
  induction ds as [|d ds IH]; intros s Hs; [done|]. cbn [read_all].
  destruct (read_transparent s d Hs) as (Hv & Hs1 & Ho & Hp).
  destruct (read s d) as [s1 v]. cbn in *. destruct (IH s1 Hs1) as [Hvs Hs2].
  destruct (read_all s1 ds) as [s2 vs]. cbn in *. split; [|done].
  rewrite Hvs, Hv. f_equal. apply list_fmap_ext. intros _ x _.
  unfold read_direct. by rewrite Ho, Hp.
Qed.

(** ** Content addressing *)

(** Every object name resolves to a payload with that hash, and every pack
    file decodes to a value with the hash it is named by. *)
Definition sound (s : ObjectStore) : Prop :=
  (∀ d, is_Some (object_files s !! d) →
     ∃ p, read_direct s d = Ok (Object p) ∧ hash_payload p = d) ∧
  (∀ pd, is_Some (pack_files s !! pd) →
     ∃ v, load_file (pack_files s !! pd) = Ok v ∧ sha256 (canonical_bytes v) = pd).

(** The values whose hashes a [write_many] may compare. *)
Definition hashed (s : ObjectStore) (ps : list Payload) (v : Stored Payload) : Prop :=
  (∃ d, read_direct s d = Ok v) ∨ (∃ pd, load_file (pack_files s !! pd) = Ok v) ∨
  (∃ p, v = Object p ∧ p ∈ ps) ∨ v = Pack (missing_objects s ps).

Definition no_collision (U : Stored Payload → Prop) : Prop :=
  ∀ a b, U a → U b → sha256 (canonical_bytes a) = sha256 (canonical_bytes b) → a = b.

Lemma load_compressed v : load_file (Some (zcompress (canonical_bytes v))) = Ok v.
Proof. unfold load_file. rewrite zdecompress_compress. cbn. by rewrite loads_canonical_bytes. Qed.

Lemma elem_of_dict_set k v d x :
  x ∈ dict_set k v d → x = (k, v) ∨ x ∈ d.
Proof.
  induction d as [|[k' v'] d IH]; cbn; [set_solver|]. case_decide; set_solver.
Qed.

Lemma assoc_dict_set k v d k' :
  assoc k' (dict_set k v d) = if decide (k' = k) then Some v else assoc k' d.
Proof.
  induction d as [|[k0 v0] d IH]; cbn; [by repeat case_decide|].
  repeat (case_decide; cbn; subst; try done).
  all: rewrite ?IH; by repeat case_decide.
Qed.

Lemma missing_objects_spec s ps :
  (∀ k p, (k, p) ∈ missing_objects s ps →
     k = hash_payload p ∧ object_files s !! k = None ∧ p ∈ ps) ∧
  (∀ p, p ∈ ps → object_files s !! hash_payload p = None →
     is_Some (assoc (hash_payload p) (missing_objects s ps))).
Proof.
  unfold missing_objects. rewrite <-(reverse_involutive ps).
  induction (reverse ps) as [|p l IH].
  { cbn. split; [by intros ?? ?%not_elem_of_nil|by intros ? ?%not_elem_of_nil]. }
  rewrite reverse_cons, foldl_app. cbn [foldl]. destruct IH as [IH1 IH2].
  unfold store_exists. case_bool_decide as Hex; split.
  - intros k q Hin. destruct (IH1 _ _ Hin) as (?&?&?). set_solver.
  - intros q [Hq|Hq]%elem_of_app Hn; [by apply IH2|].
    apply list_elem_of_singleton in Hq as ->. rewrite Hn in Hex. by destruct Hex.
  - intros k q [[= -> ->]|Hin]%elem_of_dict_set.
    + split_and!; [done|by apply eq_None_not_Some|set_solver].
    + destruct (IH1 _ _ Hin) as (?&?&?). set_solver.
  - intros q [Hq|Hq]%elem_of_app Hn; rewrite assoc_dict_set; case_decide; eauto.
    apply list_elem_of_singleton in Hq as ->. done.
Qed.

Lemma publish_pointers_lookup pd ks s d :
  object_files (foldl (publish_pointer pd) s ks) !! d =
  match object_files s !! d with
  | Some c => Some c
  | None => if decide (d ∈ ks)
            then Some (zcompress (canonical_bytes (PackPointer (Some pd)))) else None
  end ∧ pack_files (foldl (publish_pointer pd) s ks) = pack_files s.
Proof.
  revert s. induction ks as [|k ks IH]; intros s; cbn [foldl].
  { by destruct (object_files s !! d). }
  destruct (IH (publish_pointer pd s k)) as [-> ->].
  unfold publish_pointer, store_exists. case_bool_decide as Hk; cbn; (split; [|done]).
  - destruct (object_files s !! d) eqn:Hd; [done|].
    assert (d ≠ k) by (intros ->; rewrite Hd in Hk; by destruct Hk).
    repeat case_decide; set_solver.
  - apply eq_None_not_Some in Hk. destruct (decide (k = d)) as [<-|Hne].
    + rewrite lookup_insert_eq, Hk. by rewrite decide_True by set_solver.
    + rewrite lookup_insert_ne by done.
      destruct (object_files s !! d); [done|]. repeat case_decide; set_solver.
Qed.

Lemma write_pack_ok U s objs s1 pd :
  no_collision U → U (Pack objs) → (∀ v pd, load_file (pack_files s !! pd) = Ok v → U v) →
  sound s → write_pack s objs = (s1, pd) →
  load_file (pack_files s1 !! pd) = Ok (Pack objs) ∧ sha256 (canonical_bytes (Pack objs)) = pd ∧
  pack_files s ⊆ pack_files s1 ∧ object_files s1 = object_files s ∧
  (∀ pd', is_Some (pack_files s1 !! pd') → pd' = pd ∨ is_Some (pack_files s !! pd')).
Proof.
  intros Hcf HU HUp [_ Hpk]. unfold write_pack. case_decide as Hex; intros [= <- <-].
  - destruct (Hpk _ Hex) as (v & Hv & Hsha).
    assert (v = Pack objs) as -> by (apply Hcf; eauto). split_and!; try done. by right.
  - cbn. rewrite lookup_insert_eq. split_and!; [apply load_compressed|done| |done|].
    + apply insert_subseteq. by apply eq_None_not_Some.
    + intros pd'. rewrite lookup_insert. case_decide; auto.
Qed.

(** Reading is stable under new pack files and new object names. *)
Lemma read_direct_mono s s' d v :
  object_files s' !! d = object_files s !! d → pack_files s ⊆ pack_files s' →
  read_direct s d = Ok v → read_direct s' d = Ok v.
Proof.
  intros Ho Hp. unfold read_direct. rewrite Ho.
  destruct (load_file (object_files s !! d)) as [[p|[pd|]|objs]|e]; try done.
  destruct (valid_digest pd); [|done].
  intros (w & Hw & Hsel)%result_bind_ok.
  destruct (pack_files s !! pd) as [c|] eqn:Hc; [|done].
  rewrite (lookup_weaken _ _ _ _ Hc Hp), Hw. exact Hsel.
Qed.

(** A payload whose object exists is the one stored. *)
Lemma stored_object s ps p : sound s → no_collision (hashed s ps) → p ∈ ps →
  is_Some (object_files s !! hash_payload p) → read_direct s (hash_payload p) = Ok (Object p).
Proof.
  intros [Ho _] Hcf Hp Hex. destruct (Ho _ Hex) as (q & Hq & Hh). rewrite Hq. f_equal.
  apply Hcf; [left; eauto|right; right; left; eauto|exact Hh].
Qed.

(** Publishing the pointers of a written pack: what could be read still can,
    the new names read their objects, and the store stays sound. *)
Lemma publish_pack_ok s s1 pd m :
  sound s → (∀ d q, (d, q) ∈ m → hash_payload q = d) →
  load_file (pack_files s1 !! pd) = Ok (Pack m) → sha256 (canonical_bytes (Pack m)) = pd →
  pack_files s ⊆ pack_files s1 → object_files s1 = object_files s →
  (∀ pd', is_Some (pack_files s1 !! pd') → pd' = pd ∨ is_Some (pack_files s !! pd')) →
  let s' := foldl (publish_pointer pd) s1 m.*1 in
  sound s' ∧ (∀ d v, read_direct s d = Ok v → read_direct s' d = Ok v) ∧
  (∀ d q, assoc d m = Some q → object_files s !! d = None → read_direct s' d = Ok (Object q)).
Proof.
  intros Hs Hm Hlp Hsha Hsub Hof Hpd s'.
  assert (∀ d, object_files s' !! d = match object_files s !! d with
    | Some c => Some c
    | None => if decide (d ∈ m.*1)
              then Some (zcompress (canonical_bytes (PackPointer (Some pd)))) else None end) as HO.
  { intros d. rewrite <-Hof. apply publish_pointers_lookup. }
  assert (pack_files s' = pack_files s1) as HP by (apply (publish_pointers_lookup pd _ s1 "")).
  assert (∀ d v, read_direct s d = Ok v → read_direct s' d = Ok v) as Hmono.
  { intros d v Hv. apply (read_direct_mono s); [|by rewrite HP|exact Hv].
    rewrite HO. unfold read_direct in Hv. by destruct (object_files s !! d). }
  assert (∀ d q, assoc d m = Some q → object_files s !! d = None → read_direct s' d = Ok (Object q)) as Hnew.
  { intros d q Hq Hn. unfold read_direct. rewrite HO, Hn, decide_True
      by (apply list_elem_of_fmap; exists (d, q); split; [done|by apply assoc_elem_of]).
    rewrite load_compressed, <-Hsha, sha256_valid, Hsha, HP, Hlp. cbn. by rewrite Hq. }
  split_and!; [|done..]. destruct Hs as [Ho Hpk]. split.
  - intros d Hd. rewrite HO in Hd. destruct (object_files s !! d) as [c|] eqn:Hod.
    + destruct (Ho d) as (p & Hp & Hh); [by rewrite Hod|]. eauto.
    + case_decide as Hk; [|by destruct Hd]. apply assoc_is_Some in Hk as [q Hq].
      exists q. split; [by apply Hnew|]. by apply Hm, assoc_elem_of.
  - rewrite HP. intros pd' [->|[c Hc]]%Hpd; [eauto|].
    rewrite (lookup_weaken _ _ _ _ Hc Hsub), <-Hc. apply Hpk. by rewrite Hc.
Qed.

(** C31: [write_many] stores what it is given.  On a sound store, and barring
    a SHA-256 collision among the values involved, it returns the content
    hashes of the payloads, keeps the store sound, keeps every object that
    could be read readable with the same content, and afterwards every
    payload is read back, and verified, under its hash. *)
Theorem write_many_stores s ps s' ds :
  sound s → no_collision (hashed s ps) → write_many s ps = (s', ds) →
  ds = hash_payload <$> ps ∧ sound s' ∧
  (∀ d v, read_direct s d = Ok v → read_direct s' d = Ok v) ∧
  (∀ p, p ∈ ps → read_direct s' (hash_payload p) = Ok (Object p)).
Proof.
  intros Hs Hcf Hw. destruct (missing_objects_spec s ps) as [Hm1 Hm2].
  unfold write_many in Hw. destruct (missing_objects s ps) as [|x0 m0] eqn:Hm.
  { injection Hw as <- <-. split_and!; try done. intros p Hp. apply (stored_object s ps); try done.
    destruct (object_files s !! hash_payload p) eqn:E; [eauto|].
    destruct (Hm2 p Hp E) as [? [=]]. }
  rewrite <-Hm in *. clear x0 m0 Hm. set (m := missing_objects s ps) in *.
  destruct (write_pack s m) as [s1 pd] eqn:Hwp. injection Hw as <- <-.
  destruct (write_pack_ok (hashed s ps) s m s1 pd) as (Hlp & Hsha & Hsub & Hof & Hpd); try done.
  { by right; right; right. }
  { intros v pd' Hv. right; left. eauto. }
  assert (∀ d q, (d, q) ∈ m → hash_payload q = d) as Hh by (intros d q Hin; by destruct (Hm1 _ _ Hin)).
  destruct (publish_pack_ok s s1 pd m) as (Hs' & Hmono & Hnew); try done.
  split_and!; [done..|]. intros p Hp. destruct (object_files s !! hash_payload p) as [c|] eqn:Hod.
  - apply Hmono, (stored_object s ps); [done..|]. by rewrite Hod.
  - destruct (Hm2 p Hp Hod) as [q Hq]. rewrite (Hnew _ _ Hq Hod). apply assoc_elem_of in Hq.
    destruct (Hm1 _ _ Hq) as (Hqh & _ & Hqps). f_equal. apply Hcf; [right; right; left; eauto..|by symmetry].
Qed.
End Store.
Arguments ObjectStore : clear implicits.
