(* ===== verification/ObjectStoreExample.v ===== *)
(** * A concrete object store

    An instance of [StoreCodec] on which the hypotheses of
    [write_many_stores] hold. *)

From stdpp Require Import base gmap strings list countable.
From S2P Require Import Prelude SegmentLog SegmentLogExample ObjectStore.

Abbreviation stored_sum := (Z + (option string + list (string * Z)))%type.

Definition stored_to (v : Stored Z) : stored_sum :=
  match v with
  | Object p => inl p
  | PackPointer o => inr (inl o)
  | Pack l => inr (inr l)
  end.
Definition stored_from (t : stored_sum) : Stored Z :=
  match t with
  | inl p => Object p
  | inr (inl o) => PackPointer o
  | inr (inr l) => Pack l
  end.

Global Instance ex_store_codec : StoreCodec Z.
Proof.
  refine {|
    canonical_bytes v := pos_bits (encode (stored_to v));
    loads b := stored_from <$> decode (bits_pos b);
    zcompress b := b;
    zdecompress b := Some b;
    sha256 := ex_digest |}.
  - intros v. rewrite bits_pos_bits, decode_encode. by destruct v.
  - done.
  - apply ex_digest_valid.
Defined.

Definition ex_empty : ObjectStore Z := mkStore ∅ ∅ [].

Lemma ex_empty_sound : sound ex_empty.
Proof. split; intros d Hd; cbn in Hd; rewrite lookup_empty in Hd; by destruct Hd. Qed.

Lemma ex_no_collision : no_collision (hashed ex_empty [6]).
Proof.
  assert (∀ v, hashed ex_empty [6] v →
    v = Object 6 ∨ v = Pack (missing_objects ex_empty [6])) as Hcases.
  { intros v [[d Hd]|[[pd Hp]|[(p & -> & Hp)|Hm]]].
    - unfold read_direct in Hd. cbn in Hd. by rewrite lookup_empty in Hd.
    - cbn in Hp. by rewrite lookup_empty in Hp.
    - apply list_elem_of_singleton in Hp as ->. auto.
    - auto. }
  intros a b [->| ->]%Hcases [->| ->]%Hcases; try reflexivity;
    intros E; exfalso; revert E; vm_compute; discriminate.
Qed.

Lemma write_many_stores_witness :
  read_direct (write_many ex_empty [6]).1 (hash_payload 6) = Ok (Object 6).
Proof.
  destruct (write_many ex_empty [6]) as [s' ds] eqn:Hw.
  refine (proj2 (proj2 (proj2 (write_many_stores ex_empty [6] s' ds
            ex_empty_sound ex_no_collision Hw))) 6 _).
  left.
Defined.
