(* ===== verification/Calendar.v ===== *)
(** * Calendar schedules of subscriptions

    [backend/app/services/subscription_calendar.py] (recurrence rules, next
    and latest occurrence, the due decision) and
    [backend/app/schemas/schedule.py] (validation of the rules).

    A [date] is its proleptic Gregorian ordinal ([date.toordinal()]); a wall
    clock reading is the number of microseconds since midnight of ordinal 0;
    an instant is a number of UTC microseconds.  The time zone database is the
    record [Zone].  Two datetimes with the same [tzinfo] compare by wall clock
    only, as in Python.  Dates are not bounded to the years 1 to 9999. *)

From stdpp Require Import base strings list numbers sorting.
From S2P Require Import Prelude PyStr.

(** ** Dates *)

Definition SECOND : Z := 1000000.
Definition MINUTE : Z := 60 * SECOND.
Definition DAY : Z := 86400 * SECOND.

Definition _DAYS_BEFORE_MONTH (month : Z) : Z :=
  nth (Z.to_nat month) [0; 0; 31; 59; 90; 120; 151; 181; 212; 243; 273; 304; 334] 0.
Definition _DAYS_IN_MONTH (month : Z) : Z :=
  nth (Z.to_nat month) [0; 31; 28; 31; 30; 31; 30; 31; 31; 30; 31; 30; 31] 0.
Definition Z_of_bool (b : bool) : Z := if b then 1 else 0.

(** [date.fromordinal(n)] as (year, month, day). *)
Definition ord2ymd (ordinal : Z) : Z * Z * Z :=
  let n := ordinal - 1 in
  let n400 := n / 146097 in let n := n mod 146097 in
  let n100 := n / 36524 in let n := n mod 36524 in
  let n4 := n / 1461 in let n := n mod 1461 in
  let n1 := n / 365 in let n := n mod 365 in
  let year := n400 * 400 + 1 + n100 * 100 + n4 * 4 + n1 in
  if (n1 =? 4) || (n100 =? 4) then (year - 1, 12, 31)
  else
    let leapyear := (n1 =? 3) && (negb (n4 =? 24) || (n100 =? 3)) in
    let month := Z.shiftr (n + 50) 5 in
    let preceding := _DAYS_BEFORE_MONTH month + Z_of_bool ((2 <? month) && leapyear) in
    if n <? preceding then
      let month := month - 1 in
      let preceding := preceding - (_DAYS_IN_MONTH month + Z_of_bool ((month =? 2) && leapyear)) in
      (year, month, n - preceding + 1)
    else (year, month, n - preceding + 1).

Definition isoweekday (ordinal : Z) : Z := if ordinal mod 7 =? 0 then 7 else ordinal mod 7.

Definition isleap (year : Z) : bool :=
  (year mod 4 =? 0) && (negb (year mod 100 =? 0) || (year mod 400 =? 0)).

(** [calendar.monthrange(year, month)[1]] *)
Definition last_day_of (year month : Z) : Z :=
  _DAYS_IN_MONTH month + Z_of_bool ((month =? 2) && isleap year).

(** ** Clock times *)

Record time := mkTime { hour : Z; minute : Z; second : Z }.
Global Instance time_eq_dec : EqDecision time.
Proof. solve_decision. Defined.

Definition clock (t : time) : Z := (hour t * 3600 + minute t * 60 + second t) * SECOND.

Definition valid_clock (h m s : Z) : bool :=
  (0 <=? h) && (h <=? 23) && (0 <=? m) && (m <=? 59) && (0 <=? s) && (s <=? 59).

Section Times.
Context `{Unicode}.

Definition int_parts (parts : list pystr) : option (list Z) := mapM py_int parts.

Definition _parse_time (value : pystr) : option time :=
  match int_parts (split_on 58 (strip value)) with
  | None => None
  | Some parts =>
      match parts with
      | [h; m] => if valid_clock h m 0 then Some (mkTime h m 0) else None
      | [h; m; s] => if valid_clock h m s then Some (mkTime h m s) else None
      | _ => None
      end
  end.

(** [f"{n:02d}"] for [0 <= n < 100], and [time.isoformat()] of a time without
    microseconds. *)
Definition two_digits (n : Z) : pystr := [48 + n / 10; 48 + n mod 10].
Definition isoformat (t : time) : pystr :=
  two_digits (hour t) ++ [58] ++ two_digits (minute t) ++ [58] ++ two_digits (second t).

(** ** Rules *)

Inductive frequency := daily | weekly | monthly | other_frequency.
Global Instance frequency_eq_dec : EqDecision frequency.
Proof. solve_decision. Defined.

(** A recurrence rule, as stored after validation: [weekdays] and
    [month_days] hold integers; an absent key is an empty list. *)
Record rule := mkRule {
  rule_frequency : frequency;
  times : list pystr;
  weekdays : list Z;
  month_days : list Z }.

Definition daily_rule_from_legacy (scheduled_times : option pystr) : option rule :=
  let parsed := sorted_set str_ltb
    (isoformat <$> omap _parse_time (split_on 44 (default [] scheduled_times))) in
  match parsed with
  | [] => None
  | _ => Some (mkRule daily parsed [] [])
  end.

(** What [effective_calendar_rule] reads of a subscription and of the
    scheduler configuration. *)
Record schedule_settings := mkSettings {
  schedule_mode : option string;
  schedule_rule : option rule;
  scheduled_times : option pystr }.

Definition effective_calendar_rule (subject config : schedule_settings) : option rule :=
  let uses_own_rule := bool_decide (schedule_mode subject = Some "calendar") ||
                       bool_decide (schedule_mode subject = Some "fixed_time") in
  let chosen := if uses_own_rule then subject else config in
  match schedule_rule chosen with
  | Some r => if bool_decide (rule_frequency r ≠ other_frequency) then Some r
              else daily_rule_from_legacy (scheduled_times chosen)
  | None => daily_rule_from_legacy (scheduled_times chosen)
  end.

(** ** Validation of rules on input *)

Inductive RuleError :=
| TimesFormat | TimesValue | TimesEmpty | WeekdaysInvalid | MonthDaysInvalid.

Definition normalize_clock_time (raw : pystr) : result RuleError pystr :=
  let parts := split_on 58 (strip raw) in
  if negb ((length parts =? 2)%nat || (length parts =? 3)%nat) then Err TimesFormat
  else
    match parts with
    | p0 :: p1 :: rest =>
        match py_int p0, py_int p1,
              match rest with [] => Some 0 | p2 :: _ => py_int p2 end with
        | Some h, Some m, Some s =>
            if valid_clock h m s then Ok (isoformat (mkTime h m s)) else Err TimesValue
        | _, _, _ => Err TimesFormat
        end
    | _ => Err TimesFormat
    end.

Definition normalize_clock_times (values : list pystr) : result RuleError (list pystr) :=
  mapM_res normalize_clock_time values ≫= λ normalized,
  match normalized with
  | [] => Err TimesEmpty
  | _ => Ok (sorted_set str_ltb normalized)
  end.

Definition validate_weekdays (value : list Z) : result RuleError (list Z) :=
  let days := sorted_set Z.ltb value in
  if bool_decide (days = []) || existsb (λ day, (day <? 1) || (7 <? day)) days
  then Err WeekdaysInvalid else Ok days.

Definition validate_month_days (value : list Z) : result RuleError (list Z) :=
  let days := sorted_set Z.ltb value in
  if bool_decide (days = []) || existsb (λ day, (day <? 1) || (31 <? day)) days
  then Err MonthDaysInvalid else Ok days.

(** [CalendarScheduleRule]: the union of the three rule models, chosen by
    [frequency]. *)
Definition CalendarScheduleRule (f : frequency) (ts : list pystr) (wd md : list Z)
    : result RuleError rule :=
  normalize_clock_times ts ≫= λ ts',
  match f with
  | daily => Ok (mkRule daily ts' [] [])
  | weekly => validate_weekdays wd ≫= λ wd', Ok (mkRule weekly ts' wd' [])
  | monthly => validate_month_days md ≫= λ md', Ok (mkRule monthly ts' [] md')
  | other_frequency => Err TimesFormat
  end.

(** ** Local time *)

(** A datetime in the schedule's zone: its wall clock and [fold]. *)
Record local_dt := mkLocal { wall : Z; fold : bool }.

(** [instant.astimezone(tz)] and [local.astimezone(timezone.utc)]. *)
Record Zone := mkZone { to_local : Z → local_dt; to_utc : local_dt → Z }.

Definition date_of (w : Z) : Z := w / DAY.

Definition _valid_local (day : Z) (value : time) (tz : Zone) : option local_dt :=
  let candidate := mkLocal (day * DAY + clock value) false in
  let round_trip := to_local tz (to_utc tz candidate) in
  if decide (wall round_trip ≠ wall candidate) then None else Some candidate.

Definition _days_for_date (r : rule) (day : Z) : bool :=
  match rule_frequency r with
  | daily => true
  | weekly => bool_decide (isoweekday day ∈ weekdays r)
  | monthly =>
      let '(y, m, d) := ord2ymd day in
      let last_day := last_day_of y m in
      let selected := omap (λ requested,
        if (1 <=? requested) && (requested <=? 31)
        then Some (Z.min requested last_day) else None) (month_days r) in
      bool_decide (d ∈ selected)
  | other_frequency => false
  end.

(** Same-zone datetimes are ordered by wall clock; the candidates all have
    [fold=0], so a set of them has one element per wall clock. *)
Definition local_ltb (a b : local_dt) : bool := wall a <? wall b.

Definition occurrences_on (r : rule) (day : Z) (tz : Zone) : list local_dt :=
  if negb (_days_for_date r day) then []
  else sorted_set local_ltb
         (omap (λ raw, match _parse_time raw with
                       | None => None
                       | Some parsed => _valid_local day parsed tz
                       end) (times r)).

(** ** Occurrences around a local time *)

(** [for offset in range(from, from + n)]: first day whose scan succeeds. *)
Fixpoint scan_days {A} (f : Z → option A) (offset : Z) (n : nat) : option A :=
  match n with
  | O => None
  | S n' => match f offset with
            | Some a => Some a
            | None => scan_days f (offset + 1) n'
            end
  end.

Definition next_calendar_occurrence (r : rule) (local_after : local_dt) (tz : Zone)
    : option local_dt :=
  scan_days (λ offset,
    snd <$> list_find (λ candidate, wall local_after < wall candidate)
              (occurrences_on r (date_of (wall local_after) + offset) tz)) 0 800.

(** [max(candidates, default=None)] *)
Definition max_local (l : list local_dt) : option local_dt :=
  match l with
  | [] => None
  | x :: l' => Some (foldl (λ best c, if local_ltb best c then c else best) x l')
  end.

Definition _latest_within (r : rule) (local_now : local_dt) (tz : Zone) (grace : Z)
    : option local_dt :=
  let earliest := wall local_now - grace in
  let days := Z.max 1 (grace / DAY + 2) in
  max_local (seqZ 0 (days + 1) ≫= λ offset,
    filter (λ c, earliest <= wall c <= wall local_now)
      (occurrences_on r (date_of (wall local_now) - offset) tz)).

Definition _latest_occurrence (r : rule) (local_now : local_dt) (tz : Zone) : option local_dt :=
  scan_days (λ offset,
    max_local (filter (λ c, wall c <= wall local_now)
      (occurrences_on r (date_of (wall local_now) - offset) tz))) 0 800.

(** ** The decision *)

Inductive reason :=
| fixed_time_not_reached | calendar_not_reached | already_synced_in_slot
| already_attempted_in_slot | fixed_time_backlog_due | calendar_due
| calendar_missed_skipped.
Global Instance reason_eq_dec : EqDecision reason.
Proof. solve_decision. Defined.

(** The returned dict; a key that a branch does not set is [None], and a
    datetime stands for its [isoformat()]. *)
Record decision := mkDecision {
  due : bool;
  why : reason;
  next_due_at : option local_dt;
  scheduled_for : option local_dt;
  missed_slot : option local_dt;
  window_start : option local_dt;
  window_end : option local_dt }.

(** [slot + grace]: wall-clock addition, which resets [fold]. *)
Definition plus (d : local_dt) (delta : Z) : local_dt := mkLocal (wall d + delta) false.

(** [value is None or value < slot] *)
Definition none_or_before (value : option local_dt) (slot : local_dt) : bool :=
  match value with None => true | Some v => local_ltb v slot end.

Definition grace_of (scan_minutes : Z) : Z := (Z.max 5 scan_minutes + 5) * MINUTE.

Definition not_reached (legacy_fixed_time : bool) : reason :=
  if legacy_fixed_time then fixed_time_not_reached else calendar_not_reached.

(** The last part of [calendar_decision]: nothing is due now. *)
Definition not_due (r : rule) (local_now : local_dt) (tz : Zone) (grace : Z)
    (persisted created synced attempted : option local_dt) (legacy_fixed_time : bool)
    (next_slot : option local_dt) : decision :=
  let previous_slot := match persisted with
                       | Some p => Some p
                       | None => _latest_occurrence r local_now tz
                       end in
  let missed := match previous_slot with
    | None => false
    | Some p => (wall p <=? wall local_now - grace) &&
                match created with None => true | Some c => negb (local_ltb p c) end &&
                none_or_before synced p && none_or_before attempted p
    end in
  mkDecision false (if missed then calendar_missed_skipped else not_reached legacy_fixed_time)
    next_slot None
    (if missed then previous_slot else None) next_slot ((λ s, plus s grace) <$> next_slot).

(** From [if slot is not None and local_now <= slot + grace] on. *)
Definition slot_decision (r : rule) (local_now : local_dt) (tz : Zone) (grace : Z)
    (persisted created synced attempted slot : option local_dt) (legacy_fixed_time : bool)
    : decision :=
  let next_slot := next_calendar_occurrence r local_now tz in
  let payload d w n s := mkDecision d w n (Some s) None (Some s) (Some (plus s grace)) in
  match slot with
  | Some s =>
      if wall local_now <=? wall s + grace then
        if negb (none_or_before synced s) then payload false already_synced_in_slot next_slot s
        else if negb (none_or_before attempted s)
        then payload false already_attempted_in_slot next_slot s
        else payload true (if legacy_fixed_time then fixed_time_backlog_due else calendar_due)
               (Some s) s
      else not_due r local_now tz grace persisted created synced attempted legacy_fixed_time
             next_slot
  | None => not_due r local_now tz grace persisted created synced attempted legacy_fixed_time
              next_slot
  end.

Definition calendar_decision (r : rule) (now : Z) (tz : Zone) (scan_minutes : Z)
    (persisted_next_sync_at last_synced_at last_attempted_at created_at : option Z)
    (legacy_fixed_time : bool) : decision :=
  let local_now := to_local tz now in
  let grace := grace_of scan_minutes in
  let persisted := to_local tz <$> persisted_next_sync_at in
  let synced := to_local tz <$> last_synced_at in
  let attempted := to_local tz <$> last_attempted_at in
  let created := to_local tz <$> created_at in
  if match persisted with Some p => local_ltb local_now p | None => false end then
    mkDecision false (not_reached legacy_fixed_time) persisted None None None None
  else
    let slot := match persisted with
                | Some p => Some p
                | None => _latest_within r local_now tz grace
                end in
    let slot := match slot, created with
                | Some s, Some c => if local_ltb s c then None else Some s
                | _, _ => slot
                end in
    slot_decision r local_now tz grace persisted created synced attempted slot legacy_fixed_time.

End Times.
