(* ===== verification/CalendarFacts.v ===== *)
(** * Facts about calendar schedules

    The occurrences of a rule as a relation, the relation of the scanning
    loops to it, and the correctness of the due decision. *)

From stdpp Require Import base strings list numbers sorting.
From S2P Require Import Prelude PyStr Calendar.

Section Facts.
Context `{Unicode}.

(** ** Clock times *)

Lemma valid_clock_spec h m s :
  valid_clock h m s = true ↔ 0 <= h <= 23 ∧ 0 <= m <= 59 ∧ 0 <= s <= 59.
Proof. unfold valid_clock. rewrite !andb_true_iff, !Z.leb_le. lia. Qed.

Definition valid_time (t : time) : Prop := valid_clock (hour t) (minute t) (second t) = true.

Lemma clock_range t : valid_time t → 0 <= clock t < DAY.
Proof. unfold valid_time, clock, DAY, SECOND. rewrite valid_clock_spec. lia. Qed.

Lemma parse_time_valid raw t : _parse_time raw = Some t → valid_time t.
Proof.
  unfold _parse_time, valid_time. intros Hp.
  repeat (case_match; try discriminate); by simplify_eq.
Qed.

Lemma two_digits_int n : 0 <= n < 100 → py_int (two_digits n) = Some n.
Proof.
  intros Hn. unfold py_int, two_digits.
  assert (0 <= n / 10 < 10) by (split; [apply Z.div_pos|apply Z.div_lt_upper_bound]; lia).
  assert (0 <= n mod 10 < 10) by (apply Z.mod_pos_bound; lia).
  assert (∀ d, 0 <= d < 10 → py_isspace (48 + d) = false) as Hsp.
  { intros d Hd. unfold py_isspace. repeat rewrite orb_false_iff || rewrite andb_false_iff.
    rewrite !Z.leb_gt, !Z.eqb_neq. lia. }
  assert (∀ d, 0 <= d < 10 → decimal (48 + d) = Some d) as Hdec.
  { intros d Hd. rewrite decimal_ascii by lia. unfold ascii_digit.
    rewrite !(proj2 (Z.leb_le _ _)) by lia. cbn. f_equal. lia. }
  rewrite strip_nonspace by (cbn [forallb]; by rewrite !Hsp by lia).
  assert (∃ p, 48 + n / 10 = Z.pos p ∧ p ≠ 45%positive ∧ p ≠ 43%positive) as (p & Hp & ? & ?).
  { exists (Z.to_pos (48 + n / 10)). rewrite Z2Pos.id by lia. split; [done|].
    split; intros E; apply (f_equal Z.pos) in E; rewrite Z2Pos.id in E; lia. }
  transitivity (int_digits [48 + n / 10; 48 + n mod 10] 0 false).
  { rewrite Hp. repeat (case_match; try done). }
  cbn [int_digits]. rewrite !(proj2 (Z.eqb_neq _ 95)) by lia. rewrite !Hdec by lia.
  f_equal. rewrite (Z.div_mod n 10) at 3 by lia. lia.
Qed.

Lemma two_digits_no_colon n : 0 <= n < 100 → 58 ∉ two_digits n.
Proof.
  intros Hn. assert (0 <= n / 10 < 10) by (split; [apply Z.div_pos|apply Z.div_lt_upper_bound]; lia).
  assert (0 <= n mod 10 < 10) by (apply Z.mod_pos_bound; lia).
  unfold two_digits. rewrite !not_elem_of_cons, elem_of_nil. naive_solver lia.
Qed.

Lemma two_digits_nonspace n :
  0 <= n < 100 → forallb (λ c, negb (py_isspace c)) (two_digits n) = true.
Proof.
  intros Hn. assert (0 <= n / 10 < 10) by (split; [apply Z.div_pos|apply Z.div_lt_upper_bound]; lia).
  assert (0 <= n mod 10 < 10) by (apply Z.mod_pos_bound; lia).
  unfold two_digits. cbn [forallb]. unfold py_isspace.
  rewrite !andb_true_iff, !negb_true_iff.
  repeat rewrite orb_false_iff || rewrite andb_false_iff.
  rewrite !Z.leb_gt, !Z.eqb_neq. lia.
Qed.

(** A printed time parses back. *)
Lemma parse_isoformat t : valid_time t → _parse_time (isoformat t) = Some t.
Proof.
  intros Hv. assert (Hv' := Hv). unfold valid_time in Hv'. rewrite valid_clock_spec in Hv'.
  destruct t as [h m s]. unfold _parse_time, isoformat, int_parts. cbn [hour minute second] in *.
  rewrite strip_nonspace.
  2:{ rewrite !forallb_app, !two_digits_nonspace by lia. done. }
  cbn [app]. rewrite split_on_app by (apply two_digits_no_colon; lia).
  rewrite split_on_app by (apply two_digits_no_colon; lia).
  rewrite split_on_none by (apply two_digits_no_colon; lia).
  cbn. rewrite !two_digits_int by lia. cbn. unfold valid_time in Hv. cbn in Hv. by rewrite Hv.
Qed.

Lemma normalize_clock_time_spec raw v :
  normalize_clock_time raw = Ok v ↔ ∃ t, _parse_time raw = Some t ∧ v = isoformat t.
Proof.
  unfold normalize_clock_time, _parse_time, int_parts.
  destruct (split_on 58 (strip raw)) as [|p0 [|p1 [|p2 [|p3 rest]]]]; cbn.
  - naive_solver.
  - split; [done|]. intros (t & Ht & _). by destruct (py_int p0).
  - destruct (py_int p0), (py_int p1); cbn; [|naive_solver..]. case_test; naive_solver.
  - destruct (py_int p0), (py_int p1), (py_int p2); cbn; [|naive_solver..].
    case_test; naive_solver.
  - split; [done|]. intros (t & Ht & _).
    destruct (py_int p0), (py_int p1), (py_int p2), (py_int p3), (mapM py_int rest); done.
Qed.

(** ** Occurrences as a relation *)

(** The zone shows the wall clock [w] at some instant. *)
Definition shown (tz : Zone) (w : Z) : Prop := wall (to_local tz (to_utc tz (mkLocal w false))) = w.

Definition occurs (r : rule) (tz : Zone) (w : Z) : Prop :=
  _days_for_date r (date_of w) = true ∧ shown tz w ∧
  ∃ raw t, raw ∈ times r ∧ _parse_time raw = Some t ∧ w = date_of w * DAY + clock t.

Lemma date_of_combine day t : valid_time t → date_of (day * DAY + clock t) = day.
Proof.
  intros Ht%clock_range. unfold date_of. symmetry. apply (Z.div_unique _ _ _ (clock t)); [|lia].
  by left.
Qed.

Lemma valid_local_spec day t tz c :
  _valid_local day t tz = Some c ↔ c = mkLocal (day * DAY + clock t) false ∧ shown tz (wall c).
Proof.
  unfold _valid_local, shown. cbn. case_decide; split.
  - done.
  - by intros [-> ?].
  - by intros [= <-].
  - by intros [-> _].
Qed.

Lemma occurrences_on_spec r day tz c :
  c ∈ occurrences_on r day tz ↔
  fold c = false ∧ date_of (wall c) = day ∧ occurs r tz (wall c).
Proof.
  assert (∀ x, x ∈ omap (λ raw, match _parse_time raw with
                       | None => None
                       | Some parsed => _valid_local day parsed tz end) (times r) ↔
     fold x = false ∧ date_of (wall x) = day ∧ shown tz (wall x) ∧
     ∃ raw t, raw ∈ times r ∧ _parse_time raw = Some t ∧ wall x = day * DAY + clock t) as Hom.
  { intros x. rewrite list_elem_of_omap. split.
    - intros (raw & Hin & Hx). destruct (_parse_time raw) as [t|] eqn:Ht; [|done].
      apply valid_local_spec in Hx as [-> Hs]. cbn in *.
      rewrite date_of_combine by eauto using parse_time_valid.
      split_and!; [done..|]. by exists raw, t.
    - intros (Hf & Hd & Hs & raw & t & Hin & Ht & Hw). exists raw. rewrite Ht. split; [done|].
      apply valid_local_spec. destruct x as [xw xf]; cbn in *. subst xf xw. done. }
  unfold occurrences_on, occurs. destruct (_days_for_date r day) eqn:Hday; cbn [negb].
  - rewrite elem_of_sorted_set.
    + rewrite Hom. split.
      * intros (? & Hd & ? & ?). rewrite Hd. naive_solver.
      * intros (? & Hd & _ & ? & ?). rewrite Hd in *. naive_solver.
    + intros [yw yf] [Hfc _]%Hom [Hf _]%Hom. unfold local_ltb. rewrite !Z.ltb_ge.
      destruct c as [cw cf]. cbn in *. intros ? ?. subst. f_equal. lia.
  - rewrite elem_of_nil. split; [done|]. intros (_ & <- & ? & _). congruence.
Qed.

Lemma occurrences_on_sorted r day tz :
  StronglySorted (λ a b, local_ltb a b = true) (occurrences_on r day tz).
Proof.
  unfold occurrences_on. case_test; [constructor|]. apply sorted_set_sorted.
  intros a b c. unfold local_ltb. rewrite !Z.ltb_lt. lia.
Qed.

(** ** The scanning loops *)

Lemma scan_days_some {A} (f : Z → option A) n o a :
  scan_days f o n = Some a →
  ∃ k, o <= k < o + Z.of_nat n ∧ f k = Some a ∧ ∀ j, o <= j < k → f j = None.
Proof.
  revert o. induction n as [|n IH]; intros o; cbn; [done|].
  destruct (f o) as [x|] eqn:Hf.
  - intros [= ->]. exists o. split_and!; [lia..|done|lia].
  - intros (k & Hk & Hfk & Hlt)%IH. exists k. split_and!; [lia..|done|].
    intros j Hj. destruct (decide (j = o)) as [->|]; [done|]. apply Hlt. lia.
Qed.

Lemma scan_days_none {A} (f : Z → option A) n o :
  scan_days f o n = None ↔ ∀ k, o <= k < o + Z.of_nat n → f k = None.
Proof.
  revert o. induction n as [|n IH]; intros o; cbn; [split; [lia|done]|].
  destruct (f o) as [x|] eqn:Hf.
  - split; [done|]. intros Hall. rewrite Hall in Hf by lia. done.
  - rewrite IH. split.
    + intros Hall k Hk. destruct (decide (k = o)) as [->|]; [done|]. apply Hall. lia.
    + intros Hall k Hk. apply Hall. lia.
Qed.

(** In a sorted list the first element above a bound is the least one. *)
Lemma find_first_above (l : list local_dt) b i c :
  StronglySorted (λ x y, local_ltb x y = true) l →
  list_find (λ x, b < wall x) l = Some (i, c) →
  ∀ x, x ∈ l → b < wall x → wall c <= wall x.
Proof.
  intros Hs. revert i. induction Hs as [|y l Hs IH Hall]; intros i; [done|]. cbn.
  case_decide as Hy.
  - intros [= <- <-] x [->|Hx]%elem_of_cons _; [lia|].
    rewrite Forall_forall in Hall. specialize (Hall x Hx).
    unfold local_ltb in Hall. apply Z.ltb_lt in Hall. lia.
  - intros ([i' c'] & Hfind & [= -> ->])%fmap_Some x [->|Hx]%elem_of_cons; [done|eauto].
Qed.

Lemma max_local_spec l :
  match max_local l with
  | Some m => m ∈ l ∧ ∀ x, x ∈ l → wall x <= wall m
  | None => l = []
  end.
Proof.
  destruct l as [|x l]; [done|]. cbn. revert x.
  induction l as [|y l IH]; intros x; cbn.
  - split; [by left|]. by intros y ->%list_elem_of_singleton.
  - set (z := if local_ltb x y then y else x). destruct (IH z) as [Hin Hmax].
    assert (wall x <= wall z ∧ wall y <= wall z ∧ (z = x ∨ z = y)) as (Hx & Hy & Hz).
    { unfold z, local_ltb. destruct (Z.ltb_spec (wall x) (wall y)); split_and!; auto; lia. }
    split.
    + apply elem_of_cons in Hin as [->|Hin]; [|by do 2 right].
      destruct Hz as [->| ->]; rewrite !elem_of_cons; auto.
    + specialize (Hmax z (list_elem_of_here _ _)) as Hz'. intros w.
      rewrite !elem_of_cons. intros [->|[->|Hw]]; [lia..|]. apply Hmax. by right.
Qed.

Lemma next_none_day r a tz o :
  snd <$> list_find (λ c, wall a < wall c) (occurrences_on r (date_of (wall a) + o) tz) = None ↔
  ∀ w, occurs r tz w → date_of w = date_of (wall a) + o → w <= wall a.
Proof.
  split.
  - intros Hn%fmap_None%list_find_None w Hw Hd. rewrite Forall_forall in Hn.
    specialize (Hn (mkLocal w false)). cbn in Hn. apply Z.nlt_ge, Hn.
    by apply occurrences_on_spec.
  - intros Hall. apply fmap_None, list_find_None, Forall_forall.
    intros c (_ & Hd & Ho)%occurrences_on_spec. specialize (Hall _ Ho Hd). lia.
Qed.

Lemma date_of_mono a b : a <= b → date_of a <= date_of b.
Proof. intros. unfold date_of. apply Z.div_le_mono; [done|done]. Qed.

Lemma date_of_bounds w : date_of w * DAY <= w < (date_of w + 1) * DAY.
Proof.
  unfold date_of. assert (0 < DAY) by done.
  pose proof (Z.mod_pos_bound w DAY ltac:(done)). pose proof (Z.div_mod w DAY ltac:(done)). lia.
Qed.

Lemma next_none r after tz :
  next_calendar_occurrence r after tz = None →
  ∀ w, occurs r tz w → wall after < w → date_of (wall after) + 800 <= date_of w.
Proof.
  unfold next_calendar_occurrence. rewrite scan_days_none. intros Hn w Hw Haw.
  assert (date_of (wall after) <= date_of w) by (apply date_of_mono; lia).
  destruct (decide (date_of (wall after) + 800 <= date_of w)); [done|].
  specialize (Hn (date_of w - date_of (wall after)) ltac:(lia)).
  rewrite next_none_day in Hn. specialize (Hn w Hw ltac:(lia)). lia.
Qed.

(** C29: [next_calendar_occurrence] returns the earliest occurrence after the
    given time, and returns nothing only when the 800 days from its date hold
    no later occurrence. *)
Theorem next_is_earliest r after tz :
  match next_calendar_occurrence r after tz with
  | Some c => fold c = false ∧ occurs r tz (wall c) ∧ wall after < wall c ∧
              ∀ w, occurs r tz w → wall after < w → wall c <= w
  | None => ∀ w, occurs r tz w → wall after < w → date_of (wall after) + 800 <= date_of w
  end.
Proof.
  destruct (next_calendar_occurrence r after tz) as [c|] eqn:Hn.
  - apply scan_days_some in Hn as (k & Hk & Hf & Hlt).
    apply fmap_Some in Hf as ([i c'] & Hfind & ->). cbn.
    assert (Hfind' := Hfind). apply list_find_Some in Hfind' as (Hlk & Hgt & _).
    apply list_elem_of_lookup_2, occurrences_on_spec in Hlk as (Hfold & Hd & Ho).
    split_and!; [done..|]. intros w Hw Haw.
    destruct (Z.lt_trichotomy (date_of w) (date_of (wall c'))) as [Hlt'|[Heq|Hgt']].
    + assert (date_of (wall after) <= date_of w) by (apply date_of_mono; lia).
      specialize (Hlt (date_of w - date_of (wall after)) ltac:(lia)).
      rewrite next_none_day in Hlt. specialize (Hlt w Hw ltac:(lia)). lia.
    + apply (find_first_above _ _ _ _ (occurrences_on_sorted _ _ _) Hfind (mkLocal w false));
        [|done]. apply occurrences_on_spec. cbn. split_and!; [done|congruence|done].
    + apply Z.nlt_ge. intros ?%Z.lt_le_incl%date_of_mono. lia.
  - by apply next_none.
Qed.

Lemma latest_within_elem r now tz grace c :
  c ∈ (seqZ 0 (Z.max 1 (grace / DAY + 2) + 1) ≫= λ offset,
    filter (λ c, wall now - grace <= wall c <= wall now)
      (occurrences_on r (date_of (wall now) - offset) tz)) ↔
  fold c = false ∧ occurs r tz (wall c) ∧ wall now - grace <= wall c <= wall now.
Proof.
  rewrite list_elem_of_bind. split.
  - intros (o & (Hw & Ho)%list_elem_of_filter & _).
    apply occurrences_on_spec in Ho as (? & _ & ?). done.
  - intros (Hf & Ho & Hw). exists (date_of (wall now) - date_of (wall c)). split.
    + apply list_elem_of_filter. split; [done|]. apply occurrences_on_spec.
      split_and!; [done|lia|done].
    + apply elem_of_seqZ.
      assert (date_of (wall c) <= date_of (wall now)) by (apply date_of_mono; lia).
      pose proof (date_of_bounds (wall now)). pose proof (date_of_bounds (wall c)).
      pose proof (date_of_bounds grace). change (grace / DAY) with (date_of grace).
      assert (0 < DAY) by done. nia.
Qed.

Lemma latest_within_some r now tz grace c :
  _latest_within r now tz grace = Some c ↔
  fold c = false ∧ occurs r tz (wall c) ∧ wall now - grace <= wall c <= wall now ∧
  ∀ w, occurs r tz w → wall now - grace <= w <= wall now → w <= wall c.
Proof.
  unfold _latest_within. set (l := seqZ _ _ ≫= _).
  assert (∀ c, c ∈ l ↔ _) as Hl by exact (latest_within_elem r now tz grace).
  pose proof (max_local_spec l) as Hmax. destruct (max_local l) as [m|]; split.
  - intros [= ->]. destruct Hmax as [(? & ? & ?)%Hl Hmax]. split_and!; [done|done|lia|lia|].
    intros w Hw Hr. apply (Hmax (mkLocal w false)). apply Hl; cbn; auto.
  - intros (Hf & Ho & Hr & Hbest). destruct Hmax as [(Hfm & Hom & Hrm)%Hl Hmax].
    assert (wall c <= wall m) by (apply Hmax, Hl; auto).
    specialize (Hbest _ Hom Hrm). destruct m, c; cbn in *. subst. do 2 f_equal. lia.
  - done.
  - intros (Hf & Ho & Hr & _). assert (c ∈ l) as Hin by (apply Hl; auto).
    rewrite Hmax in Hin. by apply not_elem_of_nil in Hin.
Qed.

Lemma latest_within_range r now tz grace c :
  _latest_within r now tz grace = Some c → wall now - grace <= wall c <= wall now.
Proof. intros (_ & _ & ? & _)%latest_within_some. done. Qed.

End Facts.
