(* ===== verification/CalendarDecision.v ===== *)
(** * The due decision of calendar schedules

    Validated rules always have a next occurrence; normalisation keeps the
    schedule; a slot fires at most once and only inside its window. *)

From stdpp Require Import base strings list numbers sorting.
From S2P Require Import Prelude PyStr Calendar CalendarFacts.

Section Decision.
Context `{Unicode}.

(** ** Validated rules recur *)

(** A weekday is met in any seven consecutive days. *)
Lemma weekday_met n d : 1 <= d <= 7 → ∃ k, 1 <= k <= 7 ∧ isoweekday (n + k) = d.
Proof.
  intros Hd. exists ((d - n - 1) mod 7 + 1).
  pose proof (Z.mod_pos_bound (d - n - 1) 7 ltac:(done)). split; [lia|].
  assert ((n + ((d - n - 1) mod 7 + 1)) mod 7 = d mod 7) as E.
  { pose proof (Z.div_mod (d - n - 1) 7 ltac:(done)).
    replace (n + ((d - n - 1) mod 7 + 1)) with (d + - ((d - n - 1) / 7) * 7) by lia.
    by rewrite Z.mod_add. }
  unfold isoweekday. rewrite E.
  destruct (decide (d = 7)) as [->|]; [done|].
  rewrite Z.mod_small by lia. by rewrite (proj2 (Z.eqb_neq d 0)) by lia.
Qed.

(** The first 31 ordinals of a year, in the 400-100-4-1 decomposition, are the
    days of January. *)
Lemma january a b c d e :
  0 <= b <= 3 → 0 <= c <= 24 → 0 <= d <= 3 → 0 <= e <= 30 →
  ∃ y, ord2ymd (1 + 146097 * a + 36524 * b + 1461 * c + 365 * d + e) = (y, 1, e + 1).
Proof.
  intros Hb Hc Hd He. unfold ord2ymd.
  set (n := 1 + _ + _ + _ + _ + _ - 1).
  assert (n / 146097 = a ∧ n mod 146097 = 36524 * b + 1461 * c + 365 * d + e) as [-> ->].
  { split; symmetry; [apply (Z.div_unique n _ a (36524 * b + 1461 * c + 365 * d + e))
                     |apply (Z.mod_unique n _ a)]; unfold n; lia. }
  set (n1 := 36524 * b + _ + _ + _).
  assert (n1 / 36524 = b ∧ n1 mod 36524 = 1461 * c + 365 * d + e) as [-> ->].
  { split; symmetry; [apply (Z.div_unique n1 _ b (1461 * c + 365 * d + e))
                     |apply (Z.mod_unique n1 _ b)]; unfold n1; lia. }
  set (n2 := 1461 * c + _ + _).
  assert (n2 / 1461 = c ∧ n2 mod 1461 = 365 * d + e) as [-> ->].
  { split; symmetry; [apply (Z.div_unique n2 _ c (365 * d + e))
                     |apply (Z.mod_unique n2 _ c)]; unfold n2; lia. }
  set (n3 := 365 * d + e).
  assert (n3 / 365 = d ∧ n3 mod 365 = e) as [-> ->].
  { split; symmetry; [apply (Z.div_unique n3 _ d e)|apply (Z.mod_unique n3 _ d)];
      unfold n3; lia. }
  rewrite (proj2 (Z.eqb_neq d 4)), (proj2 (Z.eqb_neq b 4)) by lia. cbn [orb].
  eexists. rewrite Z.shiftr_div_pow2 by done. change (2 ^ 5) with 32.
  destruct (decide (e <= 13)).
  - replace ((e + 50) / 32) with 1 by (apply (Z.div_unique _ _ _ (e + 18)); lia).
    change (_DAYS_BEFORE_MONTH 1 + Z_of_bool ((2 <? 1) && _)) with 0.
    rewrite (proj2 (Z.ltb_ge e 0)) by lia. by rewrite Z.sub_0_r.
  - replace ((e + 50) / 32) with 2 by (apply (Z.div_unique _ _ _ (e - 14)); lia).
    change (_DAYS_BEFORE_MONTH 2 + Z_of_bool ((2 <? 2) && _)) with 31.
    rewrite (proj2 (Z.ltb_lt e 31)) by lia.
    change (31 - (_DAYS_IN_MONTH (2 - 1) + Z_of_bool ((2 - 1 =? 2) && _))) with 0.
    by rewrite Z.sub_0_r.
Qed.

(** A year starts within the 366 days after any ordinal. *)
Lemma year_start n :
  ∃ a b c d, 0 <= b <= 3 ∧ 0 <= c <= 24 ∧ 0 <= d <= 3 ∧
    n < 1 + 146097 * a + 36524 * b + 1461 * c + 365 * d <= n + 366.
Proof.
  set (m := n - 1). set (a := m / 146097). set (r := m mod 146097).
  set (b := r / 36524). set (r1 := r mod 36524). set (c := r1 / 1461). set (r2 := r1 mod 1461).
  set (d := r2 / 365). set (e := r2 mod 365).
  pose proof (Z.div_mod m 146097 ltac:(done)) as E1.
  pose proof (Z.mod_pos_bound m 146097 ltac:(done)) as B1.
  pose proof (Z.div_mod r 36524 ltac:(done)) as E2.
  pose proof (Z.mod_pos_bound r 36524 ltac:(done)) as B2.
  pose proof (Z.div_mod r1 1461 ltac:(done)) as E3.
  pose proof (Z.mod_pos_bound r1 1461 ltac:(done)) as B3.
  pose proof (Z.div_mod r2 365 ltac:(done)) as E4.
  pose proof (Z.mod_pos_bound r2 365 ltac:(done)) as B4.
  fold a r in E1, B1. fold b r1 in E2, B2. fold c r2 in E3, B3. fold d e in E4, B4.
  assert (n = m + 1) by (unfold m; lia). clearbody m a r b r1 c r2 d e.
  assert (0 <= b <= 4) by lia. assert (0 <= c <= 24) by lia. assert (0 <= d <= 4) by lia.
  destruct (decide (b = 4)); [exists (a + 1), 0, 0, 0; lia|].
  destruct (decide (d <= 2 ∧ r1 < 36524 - 365)) as [[? ?]|].
  { destruct (decide (c = 24 ∧ d = 3)); exists a, b, c, (d + 1); lia. }
  destruct (decide (c <= 23)); [exists a, b, (c + 1), 0; lia|].
  destruct (decide (b <= 2)); [exists a, (b + 1), 0, 0; lia|].
  exists (a + 1), 0, 0, 0. lia.
Qed.

Lemma month_day_met n d :
  1 <= d <= 31 → ∃ k, 1 <= k <= 400 ∧ ∃ y, ord2ymd (n + k) = (y, 1, d).
Proof.
  intros Hd. destruct (year_start n) as (a & b & c & d4 & Hb & Hc & Hd4 & Hn).
  exists (1 + 146097 * a + 36524 * b + 1461 * c + 365 * d4 + (d - 1) - n). split; [lia|].
  destruct (january a b c d4 (d - 1) Hb Hc Hd4 ltac:(lia)) as [y Hy].
  exists y. rewrite Z.add_sub_assoc, Z.add_simpl_l, Hy. do 2 f_equal. lia.
Qed.

Lemma validated_days (bad : Z → bool) (value days : list Z) (e : RuleError) :
  (if bool_decide (sorted_set Z.ltb value = []) || existsb bad (sorted_set Z.ltb value)
   then Err e else Ok (sorted_set Z.ltb value)) = Ok days →
  (∃ d, d ∈ days) ∧ (∀ d, d ∈ days → bad d = false) ∧ ∀ d, d ∈ days ↔ d ∈ value.
Proof.
  case_test; [done|]. intros [= <-]. apply orb_false_iff in Heqb as [Hne Hall].
  split_and!.
  - apply bool_decide_eq_false in Hne. destruct (sorted_set _ _) as [|d l]; [done|].
    exists d. by left.
  - intros d Hd%list_elem_of_In. destruct (bad d) eqn:E; [|done].
    rewrite <-Hall. symmetry. apply existsb_exists. eauto.
  - intros d. apply elem_of_sorted_set. intros y _ _. rewrite !Z.ltb_ge. lia.
Qed.

Lemma normalize_clock_times_spec values ts :
  normalize_clock_times values = Ok ts →
  ts ≠ [] ∧ (∀ v, v ∈ ts ↔ ∃ raw t, raw ∈ values ∧ _parse_time raw = Some t ∧ v = isoformat t) ∧
  ∀ raw, raw ∈ values → is_Some (_parse_time raw).
Proof.
  unfold normalize_clock_times. intros (vs & Hvs%mapM_res_ok & Hts)%result_bind_ok.
  destruct vs as [|v0 vs0] eqn:Evs; [done|]. rewrite <-Evs in *. injection Hts as <-.
  split_and!.
  - rewrite sorted_set_nil. by subst.
  - intros v. rewrite elem_of_sorted_strings. split.
    + intros Hv. destruct (Forall2_elem_r _ _ _ _ Hvs Hv) as (raw & Hraw & Hn).
      apply normalize_clock_time_spec in Hn as (t & ? & ?). eauto.
    + intros (raw & t & Hraw & Ht & ->).
      destruct (Forall2_elem_l _ _ _ _ Hvs Hraw) as (v & Hv & Hn).
      apply normalize_clock_time_spec in Hn as (t' & Ht' & ->). by simplify_eq.
  - intros raw Hraw. destruct (Forall2_elem_l _ _ _ _ Hvs Hraw) as (v & Hv & Hn).
    apply normalize_clock_time_spec in Hn as (t & ? & _). eauto.
Qed.

(** A day of the rule comes within 400 days after any date. *)
Definition recurs (r : rule) : Prop :=
  ∀ n, ∃ k, 1 <= k <= 400 ∧ _days_for_date r (n + k) = true.

Lemma validated_recurs f ts wd md r :
  CalendarScheduleRule f ts wd md = Ok r → recurs r.
Proof.
  unfold CalendarScheduleRule. intros (ts' & _ & Hr)%result_bind_ok n.
  destruct f; cbn in Hr; [injection Hr as <-; by exists 1|..|done];
    apply result_bind_ok in Hr as (ds & Hds & [= <-]);
    apply validated_days in Hds as ((d & Hd) & Hrange & _);
    specialize (Hrange d Hd); apply orb_false_iff in Hrange as [?%Z.ltb_ge ?%Z.ltb_ge].
  - destruct (weekday_met n d) as (k & Hk & Hw); [lia|]. exists k. split; [lia|].
    unfold _days_for_date. cbn. rewrite Hw. by apply bool_decide_eq_true.
  - destruct (month_day_met n d) as (k & Hk & y & Hy); [lia|]. exists k. split; [lia|].
    unfold _days_for_date. cbn -[ord2ymd]. rewrite Hy. apply bool_decide_eq_true.
    apply list_elem_of_omap. exists d. split; [done|].
    rewrite (proj2 (Z.leb_le 1 d)), (proj2 (Z.leb_le d 31)) by lia.
    change (last_day_of y 1) with 31. cbn [andb]. f_equal. lia.
Qed.

(** A clock time the zone shows on every day: not one that a clock change
    skips. *)
Definition never_skipped (tz : Zone) (t : time) : Prop :=
  ∀ day, is_Some (_valid_local day t tz).

(** A rule that passed validation, with a time that the zone never skips,
    always has a next occurrence, so the 800-day scan of
    [next_calendar_occurrence] is long enough. *)
Theorem validated_rule_has_next f ts wd md r tz raw after :
  CalendarScheduleRule f ts wd md = Ok r → raw ∈ times r →
  (∀ t, _parse_time raw = Some t → never_skipped tz t) →
  ∃ c, next_calendar_occurrence r after tz = Some c.
Proof.
  intros Hr Hraw Hskip. destruct (next_calendar_occurrence r after tz) as [c|] eqn:Hn; [by eauto|].
  exfalso. assert (times_ok : is_Some (_parse_time raw)).
  { unfold CalendarScheduleRule in Hr. apply result_bind_ok in Hr as (ts' & Hts & Hr).
    apply normalize_clock_times_spec in Hts as (_ & Hts & _).
    assert (times r = ts') as Ht.
    { destruct f; cbn in Hr; res_simpl; done. }
    rewrite Ht, Hts in Hraw. destruct Hraw as (raw' & t & _ & Ht' & ->).
    rewrite parse_isoformat; eauto using parse_time_valid. }
  destruct times_ok as [t Ht].
  destruct (validated_recurs _ _ _ _ _ Hr (date_of (wall after))) as (k & Hk & Hday).
  destruct (Hskip t Ht (date_of (wall after) + k)) as [c [-> Hs]%valid_local_spec].
  assert (date_of ((date_of (wall after) + k) * DAY + clock t) = date_of (wall after) + k) as Hd.
  { eauto using date_of_combine, parse_time_valid. }
  pose proof (clock_range t (parse_time_valid _ _ Ht)).
  pose proof (date_of_bounds (wall after)).
  eapply next_none in Hn; [rewrite Hd in Hn; lia|..|].
  - split_and!; [by rewrite Hd|exact Hs|]. cbn. rewrite Hd. by exists raw, t.
  - assert (0 < DAY) by done. cbn. nia.
Qed.

(** ** Normalisation keeps the schedule *)

Lemma occurs_times r r' tz w :
  (∀ day, _days_for_date r day = _days_for_date r' day) →
  (∀ t, (∃ raw, raw ∈ times r ∧ _parse_time raw = Some t) ↔
        (∃ raw, raw ∈ times r' ∧ _parse_time raw = Some t)) →
  occurs r tz w ↔ occurs r' tz w.
Proof.
  intros Hd Ht. unfold occurs. rewrite Hd.
  assert (∀ ts : list pystr, (∃ raw t, raw ∈ ts ∧ _parse_time raw = Some t ∧ w = date_of w * DAY + clock t) ↔
    ∃ t, (∃ raw, raw ∈ ts ∧ _parse_time raw = Some t) ∧ w = date_of w * DAY + clock t) as Hswap.
  { intros ts. split; [intros (raw & t & ? & ? & ?)|intros (t & (raw & ? & ?) & ?)]; eauto 6. }
  rewrite !Hswap. by setoid_rewrite Ht.
Qed.

Lemma parse_printed_times (ts : list pystr) (P : time → Prop) t :
  (∀ v, v ∈ ts ↔ ∃ t, P t ∧ v = isoformat t) → (∀ t, P t → valid_time t) →
  (∃ v, v ∈ ts ∧ _parse_time v = Some t) ↔ P t.
Proof.
  intros Hts HP. setoid_rewrite Hts. split.
  - intros (v & (t' & Ht' & ->) & Hp). rewrite parse_isoformat in Hp by auto. by simplify_eq.
  - intros Ht. exists (isoformat t). rewrite parse_isoformat by auto. eauto.
Qed.

Lemma days_for_date_ext f ts wd md ts' wd' md' day :
  (f = weekly → ∀ d, d ∈ wd ↔ d ∈ wd') → (f = monthly → ∀ d, d ∈ md ↔ d ∈ md') →
  _days_for_date (mkRule f ts wd md) day = _days_for_date (mkRule f ts' wd' md') day.
Proof.
  intros Hw Hm. destruct f; unfold _days_for_date; cbn -[ord2ymd]; [done|..|done].
  - apply bool_decide_ext. by apply Hw.
  - destruct (ord2ymd day) as [[y m] d]. apply bool_decide_ext.
    rewrite !list_elem_of_omap. by setoid_rewrite Hm.
Qed.

(** Validation and the conversion of legacy comma-separated times rewrite
    a rule without moving it: the stored rule has exactly the occurrences of
    the rule that was entered, in every zone. *)
Theorem normalisation_keeps_schedule :
  (∀ f ts wd md r tz w, CalendarScheduleRule f ts wd md = Ok r →
     occurs r tz w ↔ occurs (mkRule f ts wd md) tz w) ∧
  (∀ s r tz w, daily_rule_from_legacy (Some s) = Some r →
     occurs r tz w ↔ occurs (mkRule daily (split_on 44 s) [] []) tz w).
Proof.
  split.
  - intros f ts wd md r tz w (ts' & Hts & Hr)%result_bind_ok.
    apply normalize_clock_times_spec in Hts as (_ & Hts & _).
    assert (∃ wd' md', r = mkRule f ts' wd' md' ∧ (f = weekly → ∀ d, d ∈ wd' ↔ d ∈ wd) ∧
                       (f = monthly → ∀ d, d ∈ md' ↔ d ∈ md)) as (wd' & md' & -> & Hw & Hm).
    { destruct f; cbn in Hr; [|apply result_bind_ok in Hr as (ds & Hds & Hr);
        apply validated_days in Hds as (_ & _ & Hds)..|done]; injection Hr as <-;
        eexists _, _; (split; [done|split]); intros ?; done. }
    apply occurs_times; [intros; by apply days_for_date_ext|].
    intros t. cbn. rewrite (parse_printed_times ts' (λ t, ∃ raw, raw ∈ ts ∧ _parse_time raw = Some t));
      [done|intros v; rewrite Hts; naive_solver|intros t' (? & _ & ?); eauto using parse_time_valid].
  - intros s r tz w. unfold daily_rule_from_legacy. cbn [default].
    set (ts := sorted_set _ _). intros Hr.
    assert (r = mkRule daily ts [] []) as -> by (destruct ts; by simplify_eq).
    apply occurs_times; [done|]. intros t. cbn [times].
    rewrite (parse_printed_times ts (λ t, ∃ raw, raw ∈ split_on 44 s ∧ _parse_time raw = Some t));
      [done| |intros t' (? & _ & ?); eauto using parse_time_valid].
    intros v. unfold ts. rewrite elem_of_sorted_strings, list_elem_of_fmap.
    setoid_rewrite list_elem_of_omap. naive_solver.
Qed.

(** ** The decision *)

Lemma none_or_before_spec tz (v : option Z) s :
  none_or_before (to_local tz <$> v) s = true ↔
  ∀ i, v = Some i → wall (to_local tz i) < wall s.
Proof.
  destruct v as [i|]; cbn; unfold local_ltb; rewrite ?Z.ltb_lt; naive_solver.
Qed.

(** The slot a decision considers before the window and repeat tests. *)
Definition slot_considered (r : rule) (now : Z) (tz : Zone) (scan_minutes : Z)
    (persisted : option Z) (s : local_dt) : Prop :=
  match persisted with
  | Some p => s = to_local tz p ∧ wall s <= wall (to_local tz now)
  | None => _latest_within r (to_local tz now) tz (grace_of scan_minutes) = Some s
  end.

(** [if slot is not None and created is not None and slot < created: slot = None] *)
Lemma created_test tz (cr : option Z) (s0 s : local_dt) :
  match to_local tz <$> cr with
  | Some c => if local_ltb s0 c then None else Some s0
  | None => Some s0
  end = Some s ↔ s0 = s ∧ ∀ c, cr = Some c → wall (to_local tz c) <= wall s.
Proof.
  destruct cr as [c|]; cbn; [|naive_solver].
  destruct (local_ltb _ _) eqn:E; [apply Z.ltb_lt in E|apply Z.ltb_ge in E]; split.
  - done.
  - intros [-> Hc]. specialize (Hc c eq_refl). lia.
  - intros [= <-]. split; [done|]. by intros ? [= <-].
  - by intros [-> _].
Qed.

(** When the decision is due, and for which slot. *)
Definition due_for (r : rule) (now : Z) (tz : Zone) (scan_minutes : Z)
    (persisted synced attempted created : option Z) (s : local_dt) : Prop :=
  slot_considered r now tz scan_minutes persisted s ∧
  wall (to_local tz now) <= wall s + grace_of scan_minutes ∧
  (∀ c, created = Some c → wall (to_local tz c) <= wall s) ∧
  (∀ i, synced = Some i → wall (to_local tz i) < wall s) ∧
  (∀ i, attempted = Some i → wall (to_local tz i) < wall s).

Lemma slot_decision_due r L tz g p cr sy at_ slot legacy s :
  due (slot_decision r L tz g p cr sy at_ slot legacy) = true ∧
  scheduled_for (slot_decision r L tz g p cr sy at_ slot legacy) = Some s ↔
  slot = Some s ∧ wall L <= wall s + g ∧ none_or_before sy s = true ∧
  none_or_before at_ s = true.
Proof.
  unfold slot_decision, not_due. generalize (next_calendar_occurrence r L tz). intros next.
  destruct slot as [s'|]; cbn [due scheduled_for]; [|naive_solver].
  destruct (Z.leb_spec (wall L) (wall s' + g)); cbn [due scheduled_for]; [|naive_solver lia].
  destruct (none_or_before sy s') eqn:?, (none_or_before at_ s') eqn:?;
    cbn [due scheduled_for negb]; naive_solver congruence.
Qed.

Lemma decision_due r now tz scan p sy at_ cr legacy s :
  due (calendar_decision r now tz scan p sy at_ cr legacy) = true ∧
  scheduled_for (calendar_decision r now tz scan p sy at_ cr legacy) = Some s ↔
  due_for r now tz scan p sy at_ cr s.
Proof.
  unfold due_for, slot_considered, calendar_decision. cbv zeta.
  rewrite <-(none_or_before_spec tz sy s), <-(none_or_before_spec tz at_ s).
  destruct p as [p|]; cbn [fmap option_fmap option_map].
  - destruct (local_ltb (to_local tz now) (to_local tz p)) eqn:E.
    { apply Z.ltb_lt in E. cbn [due]. split; [naive_solver|]. intros ([-> ?] & _). lia. }
    apply Z.ltb_ge in E. rewrite slot_decision_due, created_test. naive_solver.
  - rewrite slot_decision_due. destruct (_latest_within _ _ _ _) as [w|]; [|naive_solver].
    rewrite created_test. naive_solver.
Qed.


(** A zone with a fixed offset from UTC. *)
Definition fixed_offset (o : Z) : Zone :=
  mkZone (λ i, mkLocal (i + o) false) (λ l, wall l - o).

End Decision.

(** A zone with one clock change: two hours ahead of UTC before the instant
    [T], one hour ahead from then on. *)
Definition fall_back (T : Z) : Zone :=
  mkZone (λ i, if i <? T then mkLocal (i + 120 * MINUTE) false
               else mkLocal (i + 60 * MINUTE) (i <? T + 60 * MINUTE))
         (λ l, if fold l then wall l - 60 * MINUTE
               else if wall l - 120 * MINUTE <? T then wall l - 120 * MINUTE
               else wall l - 60 * MINUTE).

(** The lateness window is measured on the wall clock, so a clock change
    reopens it: with scan interval 5 the window is ten minutes, yet in a zone
    that turns its clock back one hour a slot is due again a full hour after
    its instant. *)
Theorem window_reopens_at_fall_back :
  let T := 738000 * DAY in
  let r := mkRule daily [u "01:45"] [] [] in
  let now := T - 15 * MINUTE + 60 * MINUTE in
  let d := calendar_decision r now (fall_back T) 5 None None None None false in
  due d = true ∧ why d = calendar_due ∧
  ∃ s, scheduled_for d = Some s ∧ now - to_utc (fall_back T) s = 60 * MINUTE ∧
       grace_of 5 = 10 * MINUTE.
Proof.
  split; [vm_compute; reflexivity|]. split; [vm_compute; reflexivity|].
  exists (mkLocal (738000 * DAY + 105 * MINUTE) false).
  split; [|split]; vm_compute; reflexivity.
Qed.

(** ** Sample runs *)

Definition ex_rule : rule := mkRule weekly [u "09:30:00"] [1; 7] [].
Definition ex_now : Z := 738003 * DAY + 571 * MINUTE.
Definition ex_later : Z := 738004 * DAY + 574 * MINUTE.

Lemma fixed_offset_never_skips o t : never_skipped (fixed_offset o) t.
Proof.
  intros day. unfold _valid_local. rewrite decide_False; [by eauto|]. cbn. lia.
Qed.

Lemma validated_rule_has_next_witness :
  ∃ c, next_calendar_occurrence ex_rule (mkLocal ex_now false) (fixed_offset 0) = Some c.
Proof.
  apply (validated_rule_has_next weekly [u " 9:30"; u "9:30:0"] [7; 1; 7] [] ex_rule
           (fixed_offset 0) (u "09:30:00")).
  - vm_compute. reflexivity.
  - left.
  - intros t _. apply fixed_offset_never_skips.
Defined.

