(* ===== verification/SearchTables.v ===== *)
(** * Search language: vocabulary

    The tables of [backend/app/services/search_language.py]: scopes, result
    types, qualifier keys and the result types each value applies to.  A dict
    is an association list in insertion order, a [frozenset] a list without
    duplicates. *)

From stdpp Require Import base strings list.
From S2P Require Import Prelude PyStr.

Inductive SearchTarget :=
| works | creators | tags | repositories | subscriptions | tasks | scheduler.
Global Instance SearchTarget_eq_dec : EqDecision SearchTarget.
Proof. solve_decision. Defined.

Definition SCOPE_TARGETS : list (pystr * list SearchTarget) := [
  (u "global", [works; creators; tags; repositories; subscriptions]);
  (u "works", [works]);
  (u "creators", [creators]);
  (u "tags", [tags]);
  (u "repositories", [repositories]);
  (u "subscriptions", [subscriptions]);
  (u "tasks", [tasks]);
  (u "scheduler", [scheduler]);
  (u "creator-picker", [creators])].

Definition TYPE_TARGETS : list (pystr * SearchTarget) := [
  (u "work", works);
  (u "creator", creators);
  (u "tag", tags);
  (u "repo", repositories);
  (u "subscription", subscriptions)].

Definition TYPE_ALIASES : list (pystr * pystr) := [
  (u "works", u "work");
  (u "creators", u "creator");
  (u "tags", u "tag");
  (u "repository", u "repo");
  (u "repositories", u "repo");
  (u "repos", u "repo");
  (u "subscriptions", u "subscription")].

Definition QUALIFIER_KEYS : list pystr := [
  u "type"; u "repo"; u "creator"; u "tag"; u "source"; u "is"; u "has"; u "status"; u "kind";
  u "posted"; u "created"; u "updated"; u "synced"; u "sort"; u "uid"; u "pid"; u "url"].

Definition NEGATABLE_KEYS : list pystr := [
  u "repo"; u "creator"; u "tag"; u "source"; u "is"; u "has"; u "uid"; u "pid"; u "url"].

Definition IS_TARGETS : list (pystr * list SearchTarget) := [
  (u "favorite", [works; creators]);
  (u "nsfw", [works]);
  (u "sfw", [works]);
  (u "ai", [works]);
  (u "human", [works]);
  (u "visible", [works]);
  (u "trashed", [works]);
  (u "active", [creators; subscriptions]);
  (u "inactive", [creators; subscriptions]);
  (u "enabled", [repositories]);
  (u "disabled", [repositories; scheduler]);
  (u "auth-ok", [repositories]);
  (u "auth-error", [repositories]);
  (u "sync-enabled", [subscriptions]);
  (u "sync-disabled", [subscriptions]);
  (u "never-synced", [subscriptions]);
  (u "due", [scheduler]);
  (u "blocked", [scheduler]);
  (u "waiting", [scheduler]);
  (u "manual", [scheduler])].

Definition HAS_TARGETS : list (pystr * list SearchTarget) := [
  (u "tags", [works]);
  (u "description", [works]);
  (u "multiple-assets", [works]);
  (u "image", [works]);
  (u "animation", [works]);
  (u "video", [works]);
  (u "subscription", [creators]);
  (u "repository", [creators]);
  (u "danbooru", [creators]);
  (u "last-sync", [repositories; subscriptions]);
  (u "source-creator-id", [repositories])].

Definition QUALIFIER_TARGETS : list (pystr * list SearchTarget) := [
  (u "repo", [works; repositories; subscriptions; tasks; scheduler]);
  (u "creator", [works; creators; repositories; subscriptions; tasks; scheduler]);
  (u "tag", [works; tags]);
  (u "source", [works; repositories; subscriptions; tasks; scheduler]);
  (u "status", [tasks]);
  (u "kind", [tasks]);
  (u "posted", [works]);
  (u "created", [works; creators; tags; repositories; subscriptions; tasks]);
  (u "updated", [works; creators; tags; repositories; subscriptions; tasks]);
  (u "synced", [repositories; subscriptions]);
  (u "uid", [works; creators; repositories; subscriptions]);
  (u "pid", [works]);
  (u "url", [works; creators; repositories; subscriptions])].

Definition SORT_TARGETS : list (pystr * list SearchTarget) := [
  (u "relevance", [works; creators; tags; repositories; subscriptions; tasks; scheduler]);
  (u "heat-desc", [works]);
  (u "random", [works]);
  (u "posted-desc", [works]);
  (u "posted-asc", [works]);
  (u "created-desc", [works; creators; tags; repositories; subscriptions; tasks]);
  (u "created-asc", [works; creators; tags; repositories; subscriptions; tasks]);
  (u "updated-desc", [works; creators; tags; repositories; subscriptions; tasks]);
  (u "updated-asc", [works; creators; tags; repositories; subscriptions; tasks]);
  (u "name-asc", [creators; tags; repositories; subscriptions]);
  (u "name-desc", [creators; tags; repositories; subscriptions]);
  (u "usage-desc", [tags]);
  (u "last-sync-desc", [repositories; subscriptions]);
  (u "last-sync-asc", [repositories; subscriptions]);
  (u "title-asc", [works]);
  (u "title-desc", [works])].

Definition TASK_STATUSES : list pystr := [
  u "enqueued"; u "pending"; u "running"; u "downloading"; u "downloaded"; u "importing";
  u "complete"; u "failed"; u "stale"; u "paused"; u "cancelled"].

Definition TASK_KINDS : list pystr := [
  u "download"; u "import"; u "admin"].

Definition CONFLICTING_IS_VALUES : list (list pystr) := [
  [u "nsfw"; u "sfw"];
  [u "ai"; u "human"];
  [u "visible"; u "trashed"];
  [u "active"; u "inactive"];
  [u "enabled"; u "disabled"];
  [u "auth-ok"; u "auth-error"];
  [u "sync-enabled"; u "sync-disabled"]].

