(* ===== verification/SearchLanguage.v ===== *)
(** * The compound-search language

    [backend/app/services/search_language.py]: lexer, parser, validation,
    canonical form and the visual-filter edits, with the source identities of
    [backend/app/services/source_search_identity.py].

    The classification of public URLs is the interface [SourceUrls], which the
    providers implement.  [datetime.fromisoformat] enters as an acceptance
    test [iso_datetime], on which nothing is assumed.  Diagnostics keep code,
    span and token text; messages and suggestions are left out. *)

From stdpp Require Import base strings list.
From S2P Require Import Prelude PyStr SearchTables.

(** ** Interface to the providers *)

Inductive url_kind := url_creator | url_work.
Global Instance url_kind_eq_dec : EqDecision url_kind.
Proof. solve_decision. Defined.

Record ParsedSourceURL := mkParsedURL {
  url_source : pystr; kind : url_kind; normalized_url : pystr }.

(** [parse_source_url]; [Err tt] is the [ValueError] of [urlparse]. *)
Class SourceUrls := {
  parse_source_url : pystr → result unit (option ParsedSourceURL);
  iso_datetime : pystr → bool }.

(** What canonical queries rely on: a normalised URL is printable as it is and
    is classified as itself. *)
Definition http_url `{Unicode} (v : pystr) : bool :=
  startswith (lower v) (u "http://") || startswith (lower v) (u "https://").

Class SourceUrlLaws `{Unicode} (U : SourceUrls) : Prop := {
  url_other : ∀ v, http_url (strip v) = false → parse_source_url v = Ok None;
  url_normalised : ∀ v p, parse_source_url v = Ok (Some p) →
    parse_source_url (normalized_url p) = Ok (Some p);
  url_stripped : ∀ v p, parse_source_url v = Ok (Some p) →
    strip (normalized_url p) = normalized_url p ∧ normalized_url p ≠ [] }.

(** ** Data *)

Record SearchDiagnostic := mkDiag { code : string; dstart : Z; dend : Z; dtoken : pystr }.

Inductive SearchError :=
| SearchQueryError (diagnostic : SearchDiagnostic)
| ValueError
| IndexError.

Record SearchTerm := mkTerm {
  t_value : pystr; t_quoted : bool; t_start : Z; t_end : Z }.

Record SearchQualifier := mkQual {
  key : pystr; value : pystr; negated : bool; quoted : bool; q_start : Z; q_end : Z }.

Inductive SearchToken := Term (t : SearchTerm) | Qualifier (q : SearchQualifier).

Record SearchQuery := mkQuery {
  raw_query : pystr; canonical : pystr; scope : pystr;
  tokens : list SearchToken; targets : list SearchTarget }.

Definition as_qualifier (t : SearchToken) : option SearchQualifier :=
  match t with Qualifier q => Some q | Term _ => None end.
Definition as_term (t : SearchToken) : option SearchTerm :=
  match t with Term t => Some t | Qualifier _ => None end.
Definition terms (q : SearchQuery) : list SearchTerm := omap as_term (tokens q).
Definition qualifiers (q : SearchQuery) : list SearchQualifier := omap as_qualifier (tokens q).

(** [SearchQuery.values(key, negated=...)] *)
Definition query_values (q : SearchQuery) (k : pystr) (neg : option bool) : list pystr :=
  value <$> List.filter (λ t, bool_decide (key t = k) &&
                              match neg with None => true | Some b => eqb (negated t) b end)
                        (qualifiers q).

Record Lexeme := mkLexeme { lraw : pystr; lstart : Z; lend : Z }.

Definition _error (c : string) (l : Lexeme) : SearchError :=
  SearchQueryError (mkDiag c (lstart l) (lend l) (lraw l)).

(** Characters the grammar names. *)
Definition QUOTE : Z := 34.
Definition BACKSLASH : Z := 92.
Definition COLON : Z := 58.
Definition FULLWIDTH_COLON : Z := 65306.
Definition DASH : Z := 45.

(** ** Lexer

    One pass over the characters.  [cur] is the lexeme being read: its start,
    its characters so far, and the flags [quoted] and [escaped]. *)
Fixpoint lex_from (s : pystr) (index : Z) (cur : option (Z * pystr * bool * bool))
    : result SearchError (list Lexeme) :=
  match s, cur with
  | [], None => Ok []
  | [], Some (start, raw, q, _) =>
      if q then Err (_error "unclosed_quote" (mkLexeme raw start index))
      else Ok [mkLexeme raw start index]
  | c :: s', None =>
      if py_isspace c then lex_from s' (index + 1) None
      else lex_from s' (index + 1) (Some (index, [c], c =? QUOTE, false))
  | c :: s', Some (start, raw, q, esc) =>
      if esc then lex_from s' (index + 1) (Some (start, raw ++ [c], q, false))
      else if (c =? BACKSLASH) && q then lex_from s' (index + 1) (Some (start, raw ++ [c], q, true))
      else if c =? QUOTE then lex_from s' (index + 1) (Some (start, raw ++ [c], negb q, false))
      else if py_isspace c && negb q then
        lex_from s' (index + 1) None ≫= λ rest, Ok (mkLexeme raw start index :: rest)
      else lex_from s' (index + 1) (Some (start, raw ++ [c], q, false))
  end.

Definition _lex (query : pystr) : result SearchError (list Lexeme) := lex_from query 0 None.

Fixpoint find_colon_from (s : pystr) (index : Z) (q esc : bool) : Z :=
  match s with
  | [] => -1
  | c :: s' =>
      if esc then find_colon_from s' (index + 1) q false
      else if (c =? BACKSLASH) && q then find_colon_from s' (index + 1) q true
      else if c =? QUOTE then find_colon_from s' (index + 1) (negb q) false
      else if ((c =? COLON) || (c =? FULLWIDTH_COLON)) && negb q then index
      else find_colon_from s' (index + 1) q false
  end.

Definition _find_colon (v : pystr) : Z := find_colon_from v 0 false false.

(** ** Values *)

(** The unescaping loop of [_decode_value]. *)
Fixpoint unescape (s : pystr) (escaped : bool) : pystr :=
  match s with
  | [] => if escaped then [BACKSLASH] else []
  | c :: s' =>
      if escaped then c :: unescape s' false
      else if c =? BACKSLASH then unescape s' true
      else c :: unescape s' false
  end.

Definition _decode_value (raw : pystr) (l : Lexeme) : result SearchError (pystr * bool) :=
  match raw with
  | [] => Err (_error "missing_value" l)
  | c :: body =>
      if negb (c =? QUOTE) then
        if mem_char QUOTE raw then Err (_error "invalid_quote" l) else Ok (raw, false)
      else if (length raw <? 2)%nat || negb (endswith raw [QUOTE])
      then Err (_error "unclosed_quote" l)
      else
        match unescape (removelast body) false with
        | [] => Err (_error "missing_value" l)
        | v => Ok (v, true)
        end
  end.

Definition needs_quotes (v : pystr) : bool :=
  bool_decide (v = []) || existsb py_isspace v ||
  existsb (λ c, (c =? QUOTE) || (c =? BACKSLASH)) v.

Definition escape (v : pystr) : pystr :=
  replace_char QUOTE [BACKSLASH; QUOTE] (replace_char BACKSLASH [BACKSLASH; BACKSLASH] v).

Definition _canonical_value (v : pystr) : pystr :=
  if needs_quotes v then [QUOTE] ++ escape v ++ [QUOTE] else v.

Definition _canonical_token (t : SearchToken) : pystr :=
  match t with
  | Term t =>
      if t_quoted t || existsb py_isspace (t_value t) then _canonical_value (t_value t)
      else t_value t
  | Qualifier q =>
      let prefix := if negated q then [DASH] else [] in
      let v := _canonical_value (value q) in
      let v := if bool_decide (key q = u "url") && negb (startswith v [QUOTE])
               then [QUOTE] ++ value q ++ [QUOTE] else v in
      prefix ++ key q ++ [COLON] ++ v
  end.

Section Language.
Context `{Unicode} `{SourceUrls}.

(** [DATE_RE]: an optional operator, four, two and two digits with dashes,
    and optionally [T] followed by non-spaces. *)
Definition digit (c : Z) : bool := bool_decide (is_Some (decimal c)).

Definition date_operator (v : pystr) : pystr :=
  match v with
  | 60 :: 61 :: r | 62 :: 61 :: r => r
  | 60 :: r | 62 :: r | 61 :: r => r
  | _ => v
  end.

Definition date_value (v : pystr) : bool :=
  match v with
  | y1 :: y2 :: y3 :: y4 :: 45 :: m1 :: m2 :: 45 :: d1 :: d2 :: rest =>
      forallb digit [y1; y2; y3; y4; m1; m2; d1; d2] &&
      match rest with
      | [] => true
      | t :: r => ((t =? 84) || (t =? 116)) && bool_decide (r ≠ []) &&
                  forallb (λ c, negb (py_isspace c)) r
      end
  | _ => false
  end.

(** The value handed to [_parse_date] is stripped, so the end anchor of the
    expression is the end of the string. *)
Definition _parse_date (v : pystr) (l : Lexeme) : result SearchError unit :=
  let d := date_operator v in
  if negb (date_value d) then Err (_error "invalid_date" l)
  else if iso_datetime (replace_char 122 (u "+00:00") (replace_char 90 (u "+00:00") d))
  then Ok tt else Err (_error "invalid_date" l).

(** ** Source identities *)

Definition IDENTITY_SOURCES : list pystr := [
  u "pixiv"; u "x"; u "iwara"; u "danbooru"; u "weibo"; u "bilibili"; u "pinterest";
  u "lofter"; u "manual"].

Definition normalize_source_name (v : pystr) : pystr :=
  let normalized := lower (strip v) in
  if bool_decide (normalized = u "twitter") then u "x" else normalized.

Definition parse_source_identity (v : pystr) : option (pystr * pystr) :=
  match partition_on 47 v with
  | None => None
  | Some (raw_source, raw_identity) =>
      let source := normalize_source_name raw_source in
      let identity := strip raw_identity in
      if negb (bool_decide (source ∈ IDENTITY_SOURCES)) then None
      else if bool_decide (identity = []) then None
      else if existsb py_isspace identity then None
      else Some (source, identity)
  end.

(** ** Validation of one qualifier *)

Definition in_table {V} (k : pystr) (t : list (pystr * V)) : bool :=
  bool_decide (is_Some (assoc k t)).

Definition is_date_key (k : pystr) : bool :=
  bool_decide (k ∈ [u "posted"; u "created"; u "updated"; u "synced"]).

Definition check_value (ok : bool) (v : pystr) (l : Lexeme) : result SearchError pystr :=
  if ok then Ok v else Err (_error "invalid_value" l).

(** The value [_validate_value] stores for a key. *)
Definition normal_value (k v0 : pystr) (l : Lexeme) : result SearchError pystr :=
  let v := strip v0 in
  let lv := lower v in
  if bool_decide (k = u "type") then
    let tv := default lv (assoc lv TYPE_ALIASES) in
    check_value (in_table tv TYPE_TARGETS) tv l
  else if bool_decide (k = u "is") then check_value (in_table lv IS_TARGETS) lv l
  else if bool_decide (k = u "has") then check_value (in_table lv HAS_TARGETS) lv l
  else if bool_decide (k = u "sort") then check_value (in_table lv SORT_TARGETS) lv l
  else if bool_decide (k = u "status") then check_value (bool_decide (lv ∈ TASK_STATUSES)) lv l
  else if bool_decide (k = u "kind") then check_value (bool_decide (lv ∈ TASK_KINDS)) lv l
  else if is_date_key k then _parse_date v l ≫= λ _, Ok v
  else if bool_decide (k = u "source") then
    Ok (if bool_decide (lv = u "twitter") then u "x" else lv)
  else if bool_decide (k = u "uid") || bool_decide (k = u "pid") then
    match parse_source_identity v with
    | Some (source, identity) => Ok (source ++ [47] ++ identity)
    | None => Err (_error "invalid_identity" l)
    end
  else if bool_decide (k = u "url") then
    match parse_source_url v with
    | Err _ => Err ValueError
    | Ok None => Err (_error "unsupported_url" l)
    | Ok (Some p) => Ok (normalized_url p)
    end
  else Ok v.

Definition _validate_value (token : SearchQualifier) (l : Lexeme)
    : result SearchError SearchQualifier :=
  normal_value (key token) (value token) l ≫= λ v,
  Ok (mkQual (key token) v (negated token) (quoted token) (q_start token) (q_end token)).

(** ** Validation of the whole query *)

(** A [KeyError] of the table lookups cannot happen for validated tokens; it
    is [Some []] here. *)
Definition _targets_for_token (token : SearchQualifier)
    : result SearchError (option (list SearchTarget)) :=
  if bool_decide (key token = u "type") then
    Ok (Some (match assoc (value token) TYPE_TARGETS with Some t => [t] | None => [] end))
  else if bool_decide (key token = u "is") then Ok (Some (default [] (assoc (value token) IS_TARGETS)))
  else if bool_decide (key token = u "has") then
    Ok (Some (default [] (assoc (value token) HAS_TARGETS)))
  else if bool_decide (key token = u "sort") then
    Ok (Some (default [] (assoc (value token) SORT_TARGETS)))
  else if bool_decide (key token = u "url") then
    match parse_source_url (value token) with
    | Err _ => Err ValueError
    | Ok (Some p) => if bool_decide (kind p = url_work) then Ok (Some [works])
                     else Ok (assoc (key token) QUALIFIER_TARGETS)
    | Ok None => Ok (assoc (key token) QUALIFIER_TARGETS)
    end
  else Ok (assoc (key token) QUALIFIER_TARGETS).

Definition token_error (c : string) (token : SearchQualifier) : SearchError :=
  SearchQueryError (mkDiag c (q_start token) (q_end token) (_canonical_token (Qualifier token))).

(** The loop that narrows [allowed]. *)
Definition narrow (scope_name : pystr) (typed : bool) (allowed : list SearchTarget)
    (token : SearchQualifier) : result SearchError (list SearchTarget) :=
  if bool_decide (key token = u "type") then Ok allowed
  else
    _targets_for_token token ≫= λ token_targets,
    match token_targets with
    | None => Ok allowed
    | Some supported =>
        let compatible := filter (λ t, t ∈ supported) allowed in
        if bool_decide (compatible = []) then Err (token_error "qualifier_not_available" token)
        else Ok (if bool_decide (scope_name = u "global") && negb typed then compatible else allowed)
    end.

Definition has_key (k : pystr) (t : SearchQualifier) : bool := bool_decide (key t = k).

(** Some pair of mutually exclusive [is:] values is requested. *)
Definition is_conflict (qs : list SearchQualifier) : option SearchQualifier :=
  let positive := value <$> List.filter (λ t, has_key (u "is") t && negb (negated t)) qs in
  let clash := List.filter (λ c, (1 <? length (List.filter (λ v, bool_decide (v ∈ positive)) c))%nat)
                 CONFLICTING_IS_VALUES in
  match clash with
  | [] => None
  | c :: _ => head (List.filter (λ t, has_key (u "is") t && bool_decide (value t ∈ c) &&
                                      bool_decide (value t ∈ positive)) qs)
  end.

(** A pair both required and excluded; the first one in query order. *)
Definition same_pair (a b : SearchQualifier) : bool :=
  bool_decide (key a = key b) && bool_decide (value a = value b).
Definition sign_conflict (qs : list SearchQualifier) : option SearchQualifier :=
  head (List.filter (λ t, existsb (λ t', same_pair t t' && negb (eqb (negated t) (negated t'))) qs) qs).

Definition _validate_query (toks : list SearchToken) (scope_name : pystr)
    : result SearchError (list SearchTarget) :=
  let scope_targets := default [] (assoc scope_name SCOPE_TARGETS) in
  let qs := omap as_qualifier toks in
  let type_tokens := List.filter (has_key (u "type")) qs in
  let requested := omap (λ t, assoc (value t) TYPE_TARGETS) type_tokens in
  match type_tokens with
  | [] => Ok scope_targets
  | t :: _ => if forallb (λ r, bool_decide (r ∈ scope_targets)) requested
              then Ok (filter (λ a, a ∈ requested) scope_targets)
              else Err (token_error "type_not_available" t)
  end ≫= λ allowed,
  foldM (narrow scope_name (negb (bool_decide (type_tokens = [])))) allowed qs ≫= λ allowed,
  match is_conflict qs with
  | Some t => Err (token_error "conflicting_values" t)
  | None =>
  match sign_conflict qs with
  | Some t => Err (token_error "conflicting_values" t)
  | None =>
  match List.filter (has_key (u "sort")) qs with
  | _ :: t :: _ => Err (token_error "duplicate_sort" t)
  | [t] => if bool_decide (value t = u "relevance") && bool_decide (omap as_term toks = [])
           then Err (token_error "relevance_requires_text" t) else Ok tt
  | [] => Ok tt
  end ≫= λ _,
  match allowed with
  | [] => Err (match qs with
               | t :: _ => token_error "no_compatible_type" t
               | [] => SearchQueryError (mkDiag "no_compatible_type" 0 0 [])
               end)
  | _ => Ok (filter (λ t, t ∈ allowed) scope_targets)
  end end end.

(** ** Parser *)

(** [KEY_RE]; its end anchor also accepts one final newline. *)
Definition key_char (c : Z) : bool := ascii_alnum c || (c =? DASH).
Definition key_start (c : Z) : bool := ascii_alnum c && negb ((48 <=? c) && (c <=? 57)).
Definition KEY_RE (k : pystr) : bool :=
  match k with
  | [] => false
  | c :: r => key_start c &&
              (forallb key_char r ||
               (endswith r [10] && forallb key_char (removelast r)))
  end.

(** The tail of the loop body: a plain or quoted term. *)
Definition parse_term (l : Lexeme) : result SearchError SearchToken :=
  _decode_value (lraw l) l ≫= λ '(v, q),
  if negb q && bool_decide (upper v = u "OR") then Err (_error "unsupported_operator" l)
  else if negb q && (mem_char 40 v || mem_char 41 v) then Err (_error "unsupported_grouping" l)
  else Ok (Term (mkTerm v q (lstart l) (lend l))).

(** The body of the loop of [parse_search_query]. *)
Definition parse_lexeme (l : Lexeme) : result SearchError SearchToken :=
  let neg := startswith (lraw l) [DASH] in
  let raw_url := if neg then tail (lraw l) else lraw l in
  match parse_source_url raw_url with
  | Err _ => Err ValueError
  | Ok parsed_url =>
      if http_url raw_url then
        match parsed_url with
        | None => Err (_error "unsupported_url" l)
        | Some p => Ok (Qualifier (mkQual (u "url") (normalized_url p) neg true (lstart l) (lend l)))
        end
      else
        let colon_at := _find_colon (lraw l) in
        let key_from := if neg then 1 else 0 in
        let k := lower (take (Z.to_nat (colon_at - key_from)) (drop (Z.to_nat key_from) (lraw l))) in
        if (key_from <? colon_at) && KEY_RE k then
          if negb (bool_decide (k ∈ QUALIFIER_KEYS)) then Err (_error "unknown_qualifier" l)
          else if neg && negb (bool_decide (k ∈ NEGATABLE_KEYS)) then Err (_error "invalid_negation" l)
          else
            _decode_value (drop (Z.to_nat (colon_at + 1)) (lraw l)) l ≫= λ '(v, q),
            _validate_value (mkQual k v neg q (lstart l) (lend l)) l ≫= λ token,
            Ok (Qualifier token)
        else parse_term l
  end.

Definition parse_search_query (query scope_name : pystr) : result SearchError SearchQuery :=
  if negb (in_table scope_name SCOPE_TARGETS) then Err ValueError
  else
    _lex query ≫= λ lexemes,
    mapM_res parse_lexeme lexemes ≫= λ toks,
    _validate_query toks scope_name ≫= λ targets,
    Ok (mkQuery query (join [32] (_canonical_token <$> toks)) scope_name toks targets).

(** ** Visual-filter edits *)

Inductive operation := op_set | op_add | op_toggle | op_remove | op_replace_group | op_unknown.

Definition probe_text (neg : bool) (k v : pystr) : pystr :=
  (if neg then [DASH] else []) ++ k ++ [COLON] ++ _canonical_value v.

(** [parse_search_query(probe).qualifiers[0]] *)
Definition probe_for (neg : bool) (k v scope_name : pystr) : result SearchError SearchQualifier :=
  parse_search_query (probe_text neg k v) scope_name ≫= λ q,
  match qualifiers q with t :: _ => Ok t | [] => Err IndexError end.

Definition same_filter (p t : SearchQualifier) : bool :=
  bool_decide (key t = key p) && bool_decide (value t = value p) && eqb (negated t) (negated p).

Definition keep_unless (drop_it : SearchQualifier → bool) (toks : list SearchToken)
    : list SearchToken :=
  List.filter (λ t, match t with Qualifier q => negb (drop_it q) | Term _ => true end) toks.

Definition is_same_filter (p : SearchQualifier) (t : SearchToken) : bool :=
  match t with Qualifier q => same_filter p q | Term _ => false end.

Fixpoint pop_first (f : SearchToken → bool) (toks : list SearchToken) : option (list SearchToken) :=
  match toks with
  | [] => None
  | t :: toks' => if f t then Some toks' else cons t <$> pop_first f toks'
  end.

Definition append_probe (probe : option SearchQualifier) (toks : list SearchToken) :=
  match probe with Some p => toks ++ [Qualifier p] | None => toks end.

Definition edit_tokens (op : operation) (k : pystr) (v : option pystr) (neg : bool)
    (probe : option SearchQualifier) (replaced : list pystr) (existing : list SearchToken)
    : result SearchError (list SearchToken) :=
  match op with
  | op_set => Ok (append_probe probe
                   (keep_unless (λ t, has_key k t && eqb (negated t) neg) existing))
  | op_add =>
      Ok (match probe with
          | Some p => if existsb (is_same_filter p) existing then existing
                      else existing ++ [Qualifier p]
          | None => existing
          end)
  | op_toggle =>
      match probe with
      | None => Err ValueError
      | Some p => Ok (match pop_first (is_same_filter p) existing with
                      | Some rest => rest
                      | None => existing ++ [Qualifier p]
                      end)
      end
  | op_remove =>
      Ok (keep_unless (λ t, has_key k t &&
            match v with
            | None => true
            | Some v => bool_decide (value t = match probe with Some p => value p | None => v end) &&
                        eqb (negated t) neg
            end) existing)
  | op_replace_group =>
      Ok (append_probe probe
            (keep_unless (λ t, has_key k t && bool_decide (value t ∈ replaced) &&
                               eqb (negated t) neg) existing))
  | op_unknown => Err ValueError
  end.

Definition compose_search_query (query scope_name k : pystr) (v : option pystr)
    (op : operation) (neg : bool) (replace_values : list pystr) : result SearchError SearchQuery :=
  parse_search_query query scope_name ≫= λ parsed,
  let k := lower k in
  if negb (bool_decide (k ∈ QUALIFIER_KEYS)) then Err ValueError
  else
    match v with
    | None => Ok None
    | Some v => probe_for neg k v scope_name ≫= λ p, Ok (Some p)
    end ≫= λ probe,
    match op with
    | op_replace_group =>
        mapM_res (λ item, probe_for false k item scope_name ≫= λ p, Ok (value p)) replace_values
    | _ => Ok []
    end ≫= λ replaced,
    edit_tokens op k v neg probe replaced (tokens parsed) ≫= λ toks,
    parse_search_query (join [32] (_canonical_token <$> toks)) scope_name.

(** ** Catalogue of the discoverable language *)

Record CatalogEntry := mkEntry { e_key : pystr; negatable : bool; e_values : list pystr }.

Definition supports (ts supported : list SearchTarget) : bool :=
  existsb (λ t, bool_decide (t ∈ supported)) ts.

Definition catalog_values (k : pystr) (ts : list SearchTarget) : option (list pystr) :=
  let table T := Some (fst <$> List.filter (λ p, supports ts (snd p)) T) in
  if bool_decide (k = u "type") then
    Some (fst <$> List.filter (λ p, bool_decide (snd p ∈ ts)) TYPE_TARGETS)
  else if bool_decide (k = u "is") then table IS_TARGETS
  else if bool_decide (k = u "has") then table HAS_TARGETS
  else if bool_decide (k = u "sort") then table SORT_TARGETS
  else if bool_decide (k = u "status") && bool_decide (tasks ∈ ts) then
    Some (sorted_set str_ltb TASK_STATUSES)
  else if bool_decide (k = u "kind") && bool_decide (tasks ∈ ts) then
    Some (sorted_set str_ltb TASK_KINDS)
  else if bool_decide (k = u "uid") || bool_decide (k = u "pid") then
    Some ((λ s, s ++ [47]) <$> sorted_set str_ltb IDENTITY_SOURCES)
  else match assoc k QUALIFIER_TARGETS with
       | Some supported => if supports ts supported then Some [] else None
       | None => Some []
       end.

Definition qualifier_catalog (scope_name : pystr) : list CatalogEntry :=
  let ts := default [] (assoc scope_name SCOPE_TARGETS) in
  omap (λ k,
    if bool_decide (k = u "type") && negb (bool_decide (scope_name = u "global")) then None
    else vs ← catalog_values k ts; Some (mkEntry k (bool_decide (k ∈ NEGATABLE_KEYS)) vs))
  (sorted_set str_ltb QUALIFIER_KEYS).

End Language.
