(* ===== verification/SearchLexing.v ===== *)
(** * Search language: lexemes and quoted values

    What the lexer accepts and how it splits a query, and that quoting and
    unquoting of values are inverse. *)

From stdpp Require Import base strings list.
From S2P Require Import Prelude PyStr SearchTables SearchLanguage.

(** ** Scanning *)

(** One step of the flags [(quoted, escaped)]; [None] when the lexeme ends. *)
Definition step (q esc : bool) (c : Z) : option (bool * bool) :=
  if esc then Some (q, false)
  else if (c =? BACKSLASH) && q then Some (q, true)
  else if c =? QUOTE then Some (negb q, false)
  else if py_isspace c && negb q then None
  else Some (q, false).

Fixpoint scan (q esc : bool) (s : pystr) : option (bool * bool) :=
  match s with
  | [] => Some (q, esc)
  | c :: s' => '(q', esc') ← step q esc c; scan q' esc' s'
  end.

Lemma scan_app q e a b : scan q e (a ++ b) = '(q', e') ← scan q e a; scan q' e' b.
Proof.
  revert q e. induction a as [|c a IH]; intros q e; cbn; [done|].
  destruct (step q e c) as [[q' e']|]; cbn; [apply IH|done].
Qed.

(** A complete lexeme: non-empty, all its quotes closed, no white space
    outside quotes. *)
Definition closed (tok : pystr) : Prop :=
  tok ≠ [] ∧ ∃ e, scan false false tok = Some (false, e).

Lemma lex_from_scan s : ∀ rest i st raw q e q' e',
  scan q e s = Some (q', e') →
  lex_from (s ++ rest) i (Some (st, raw, q, e)) =
  lex_from rest (i + Z.of_nat (length s)) (Some (st, raw ++ s, q', e')).
Proof.
  induction s as [|c s IH]; intros rest i st raw q e q' e' Hs; cbn in Hs.
  { simplify_eq. by rewrite app_nil_r, Z.add_0_r. }
  destruct (step q e c) as [[q1 e1]|] eqn:Hst; [|done]. cbn in Hs.
  assert (lex_from ((c :: s) ++ rest) i (Some (st, raw, q, e)) =
          lex_from (s ++ rest) (i + 1) (Some (st, raw ++ [c], q1, e1))) as ->.
  { unfold step in Hst. cbn [app lex_from]. repeat case_test; by simplify_eq. }
  rewrite (IH _ _ _ _ _ _ _ _ Hs), <-app_assoc. f_equal. cbn [length]. lia.
Qed.

(** Entering a lexeme. *)
Lemma lex_from_start c s i : py_isspace c = false →
  lex_from (c :: s) i None = lex_from s (i + 1) (Some (i, [c], c =? QUOTE, false)).
Proof. cbn. by intros ->. Qed.

Lemma step_first c :
  step false false c = if py_isspace c then None else Some (c =? QUOTE, false).
Proof.
  unfold step. rewrite andb_false_r. destruct (Z.eqb_spec c QUOTE) as [->|]; [done|].
  by rewrite andb_true_r.
Qed.

(** The last flag of a complete lexeme is false: [escaped] is only set inside
    quotes. *)
Lemma scan_unescaped s : ∀ q e e',
  (q = false → e = false) → scan q e s = Some (false, e') → e' = false.
Proof.
  induction s as [|c s IH]; intros q e e' Hqe; cbn; [intros [= -> <-]; auto|].
  destruct (step q e c) as [[q1 e1]|] eqn:Hst; cbn; [|done]. apply IH.
  unfold step in Hst. intros ->.
  destruct e; [by simplify_eq|].
  destruct ((c =? BACKSLASH) && q) eqn:E; [simplify_eq; by rewrite andb_false_r in E|].
  repeat case_test; by simplify_eq.
Qed.

Lemma lex_closed tok rest i : closed tok →
  lex_from (tok ++ rest) i None =
  lex_from rest (i + Z.of_nat (length tok)) (Some (i, tok, false, false)).
Proof.
  intros [Hne [e He]]. assert (e = false) as -> by by eapply scan_unescaped.
  destruct tok as [|c tok]; [done|]. cbn [scan] in He. rewrite step_first in He.
  destruct (py_isspace c) eqn:Hc; [done|]. cbn in He.
  rewrite <-app_comm_cons, lex_from_start by done.
  rewrite (lex_from_scan _ _ _ _ _ _ _ _ _ He). cbn. f_equal. lia.
Qed.

(** A list of complete lexemes printed with single spaces is lexed back. *)
Lemma lex_join toks : Forall closed toks →
  ∀ i, ∃ ls, lex_from (join [32] toks) i None = Ok ls ∧ lraw <$> ls = toks.
Proof.
  induction 1 as [|tok toks Htok Hall IH]; intros i; [by exists []|].
  destruct toks as [|tok' toks].
  - exists [mkLexeme tok i (i + Z.of_nat (length tok))]. cbn [join].
    rewrite <-(app_nil_r tok) at 1. by rewrite lex_closed.
  - change (join [32] (tok :: tok' :: toks)) with (tok ++ [32] ++ join [32] (tok' :: toks)).
    rewrite lex_closed by done. cbn [app lex_from].
    destruct (IH (i + Z.of_nat (length tok) + 1)) as (ls & -> & Hls). cbn.
    eexists. split; [done|]. cbn. by rewrite Hls.
Qed.

(** ** What the lexer returns *)

(** [cuts i s ls]: from position [i] on, [s] is white space, the lexemes [ls]
    at their spans, and white space between any two of them. *)
Inductive cuts : Z → pystr → list Lexeme → Prop :=
| cuts_end i gap : forallb py_isspace gap = true → cuts i gap []
| cuts_last i gap tok :
    forallb py_isspace gap = true → closed tok →
    let st := i + Z.of_nat (length gap) in
    cuts i (gap ++ tok) [mkLexeme tok st (st + Z.of_nat (length tok))]
| cuts_more i gap tok c rest ls :
    forallb py_isspace gap = true → closed tok → py_isspace c = true →
    let st := i + Z.of_nat (length gap) in
    cuts (st + Z.of_nat (length tok) + 1) rest ls →
    cuts i (gap ++ tok ++ c :: rest) (mkLexeme tok st (st + Z.of_nat (length tok)) :: ls).

(** Split a string at the end of its first complete scan. *)
Lemma lex_from_cur s : ∀ i st raw q e ls,
  lex_from s i (Some (st, raw, q, e)) = Ok ls →
  ∃ a q' e', scan q e a = Some (q', e') ∧ q' = false ∧
   ((s = a ∧ ls = [mkLexeme (raw ++ a) st (i + Z.of_nat (length a))]) ∨
    ∃ c b ls', s = a ++ c :: b ∧ py_isspace c = true ∧
      lex_from b (i + Z.of_nat (length a) + 1) None = Ok ls' ∧
      ls = mkLexeme (raw ++ a) st (i + Z.of_nat (length a)) :: ls').
Proof.
  induction s as [|c s IH]; intros i st raw q e ls Hl.
  { cbn in Hl. destruct q; [done|]. injection Hl as <-.
    exists [], false, e. split_and!; [done..|]. left. by rewrite app_nil_r, Z.add_0_r. }
  destruct (step q e c) as [[q1 e1]|] eqn:Hst.
  - assert (lex_from s (i + 1) (Some (st, raw ++ [c], q1, e1)) = Ok ls) as Hl'.
    { rewrite <-Hl. symmetry. unfold step in Hst. cbn [lex_from].
      repeat case_test; by simplify_eq. }
    apply IH in Hl' as (a & q' & e' & Hsc & -> & Hcase).
    exists (c :: a), false, e'. cbn [scan]. rewrite Hst. cbn [mbind option_bind].
    replace (i + Z.of_nat (length (c :: a))) with (i + 1 + Z.of_nat (length a)) by (cbn; lia).
    rewrite <-app_assoc in Hcase. split_and!; [done..|].
    destruct Hcase as [[-> ->]|(c' & b & ls' & -> & ? & ? & ->)]; [by left|right]. by exists c', b, ls'.
  - exists [], q, e. unfold step in Hst. cbn [lex_from] in Hl.
    destruct e; [done|]. repeat (case_test; try done).
    apply andb_true_iff in Heqb1 as [Hsp Hq]. apply negb_true_iff in Hq as ->.
    apply result_bind_ok in Hl as (ls' & Hl' & [= <-]).
    split_and!; [done..|]. right. exists c, s, ls'.
    change (Z.of_nat (@length Z [])) with 0. by rewrite app_nil_r, Z.add_0_r.
Qed.

Lemma lex_sound_from n : ∀ s i ls, (length s < n)%nat →
  lex_from s i None = Ok ls → cuts i s ls.
Proof.
  induction n as [|n IH]; intros s i ls Hn Hl; [lia|].
  assert (∃ gap s', s = gap ++ s' ∧ forallb py_isspace gap = true ∧
    lex_from s' (i + Z.of_nat (length gap)) None = Ok ls ∧
    match s' with [] => True | c :: _ => py_isspace c = false end)
    as (gap & s' & -> & Hgap & Hl' & Hs').
  { clear IH Hn. revert i Hl. induction s as [|c s IHs]; intros i Hl.
    - by exists [], [].
    - cbn [lex_from] in Hl. destruct (py_isspace c) eqn:Hc.
      + apply IHs in Hl as (gap & s' & -> & ? & ? & ?). exists (c :: gap), s'.
        cbn [length app forallb]. rewrite Hc.
        replace (i + Z.of_nat (S (length gap))) with (i + 1 + Z.of_nat (length gap)) by lia. done.
      + exists [], (c :: s). cbn [length app]. rewrite Z.add_0_r. cbn [lex_from]. by rewrite Hc. }
  destruct s' as [|c s']; [cbn in Hl'; injection Hl' as <-; rewrite app_nil_r; by constructor|].
  rewrite lex_from_start in Hl' by done.
  apply lex_from_cur in Hl' as (a & q' & e' & Hsc & -> & Hcase).
  assert (closed (c :: a)) as Hcl.
  { split; [done|]. exists e'. cbn [scan]. by rewrite step_first, Hs'. }
  assert (∀ z, z + 1 + Z.of_nat (length a) = z + Z.of_nat (length (c :: a))) as Hz by (intros; cbn; lia).
  rewrite Hz in Hcase. destruct Hcase as [[-> ->]|(c' & b & ls' & -> & Hsp & Hl' & ->)].
  - by apply cuts_last.
  - apply (cuts_more i gap (c :: a) c' b ls'); try done. apply IH; [|done].
    revert Hn. rewrite length_app. cbn. rewrite length_app. cbn. lia.
Qed.

Lemma cuts_closed i s ls : cuts i s ls → Forall closed (lraw <$> ls).
Proof. induction 1; cbn; auto. Qed.

(** The lexer cuts a query exactly: the accepted lexemes, at the reported
    spans, are the maximal runs outside white space with closed quotes, they
    cover the query up to white space, and printing them with single spaces
    and lexing again gives the same lexemes. *)
Theorem lexer_exact query ls :
  _lex query = Ok ls →
  cuts 0 query ls ∧
  ∃ ls', _lex (join [32] (lraw <$> ls)) = Ok ls' ∧ lraw <$> ls' = lraw <$> ls.
Proof.
  intros Hl. assert (cuts 0 query ls) as Hc by (eapply lex_sound_from; [apply Nat.lt_succ_diag_r|done]).
  split; [done|]. apply lex_join. by eapply cuts_closed.
Qed.

(** ** Quoting *)

(** Escaping is character by character. *)
Definition escape_char (c : Z) : pystr :=
  if c =? BACKSLASH then [BACKSLASH; BACKSLASH]
  else if c =? QUOTE then [BACKSLASH; QUOTE] else [c].

Lemma escape_bind v : escape v = v ≫= escape_char.
Proof.
  unfold escape, replace_char. induction v as [|c v IH]; cbn; [done|].
  rewrite bind_app. cbn in IH. rewrite IH. f_equal. unfold escape_char.
  destruct (Z.eqb_spec c BACKSLASH); [done|]. cbn. by rewrite app_nil_r.
Qed.

Lemma unescape_char c r : unescape (escape_char c ++ r) false = c :: unescape r false.
Proof.
  unfold escape_char. destruct (Z.eqb_spec c BACKSLASH) as [->|Hb]; [done|].
  destruct (Z.eqb_spec c QUOTE) as [->|Hq]; [done|]. cbn.
  by rewrite (proj2 (Z.eqb_neq c BACKSLASH)) by done.
Qed.

Lemma unescape_escape v : unescape (escape v) false = v.
Proof.
  rewrite escape_bind. induction v as [|c v IH]; [done|].
  rewrite bind_cons, unescape_char. by f_equal.
Qed.

Lemma unescape_plain v : BACKSLASH ∉ v → unescape v false = v.
Proof.
  induction v as [|c v IH]; [done|]. intros [Hc Hv]%not_elem_of_cons. cbn.
  rewrite (proj2 (Z.eqb_neq c BACKSLASH)) by done. by rewrite IH.
Qed.

Lemma scan_escape v : scan true false (escape v) = Some (true, false).
Proof.
  rewrite escape_bind. induction v as [|c v IH]; [done|].
  rewrite bind_cons, scan_app. unfold escape_char.
  destruct (Z.eqb_spec c BACKSLASH) as [->|Hb]; [exact IH|].
  destruct (Z.eqb_spec c QUOTE) as [->|Hq]; [exact IH|].
  cbn [scan]. unfold step. rewrite (proj2 (Z.eqb_neq c BACKSLASH)) by done.
  rewrite (proj2 (Z.eqb_neq c QUOTE)) by done. by rewrite andb_false_r.
Qed.

(** A string without white space or quotes, outside and inside quotes. *)
Definition bare_chars (v : pystr) : Prop := Forall (λ c, py_isspace c = false ∧ c ≠ QUOTE) v.

Lemma scan_bare v : bare_chars v → scan false false v = Some (false, false).
Proof.
  induction 1 as [|c v [Hsp Hq] _ IH]; [done|]. cbn [scan]. rewrite step_first, Hsp.
  rewrite (proj2 (Z.eqb_neq c QUOTE)) by done. exact IH.
Qed.

Lemma scan_bare_quoted v : bare_chars v → BACKSLASH ∉ v → scan true false v = Some (true, false).
Proof.
  induction 1 as [|c v [Hsp Hq] _ IH]; [done|]. intros [Hc Hv]%not_elem_of_cons. cbn [scan].
  unfold step. rewrite (proj2 (Z.eqb_neq c BACKSLASH)), (proj2 (Z.eqb_neq c QUOTE)), Hsp by done.
  cbn. auto.
Qed.

Lemma needs_quotes_false v :
  needs_quotes v = false ↔ v ≠ [] ∧ bare_chars v ∧ BACKSLASH ∉ v.
Proof.
  unfold needs_quotes, bare_chars. rewrite !orb_false_iff, bool_decide_eq_false.
  assert (∀ f : Z → bool, existsb f v = false ↔ ∀ x, x ∈ v → f x = false) as Hex.
  { intros f. split.
    - intros E x Hx%list_elem_of_In. apply not_true_is_false. intros Hf.
      apply not_true_iff_false in E. apply E, existsb_exists. eauto.
    - intros Hall. apply not_true_is_false. rewrite existsb_exists.
      intros (x & Hx%list_elem_of_In & Hf). by rewrite Hall in Hf. }
  rewrite !Hex, Forall_forall. setoid_rewrite orb_false_iff. setoid_rewrite Z.eqb_neq.
  split.
  - intros [[? Hsp] Hq]. split_and!; [done| |].
    + intros x Hx. split; [by apply Hsp|by apply Hq].
    + intros Hb. by destruct (Hq _ Hb).
  - intros (? & Hall & Hb). split; [split; [done|]|]; intros x Hx.
    + by apply Hall.
    + split; [by apply Hall|]. by intros ->.
Qed.

Lemma bare_no_quote v : bare_chars v → mem_char QUOTE v = false.
Proof.
  intros Hall. apply mem_char_false. intros Hq.
  unfold bare_chars in Hall. rewrite Forall_forall in Hall. by destruct (Hall _ Hq).
Qed.

Lemma endswith_snoc s c : endswith (s ++ [c]) [c] = true.
Proof. unfold endswith. rewrite rev_app_distr. cbn. rewrite Z.eqb_refl. by destruct (rev s). Qed.

(** Decoding a value between quotes. *)
Lemma decode_quoted body v l :
  unescape body false = v → v ≠ [] →
  _decode_value ([QUOTE] ++ body ++ [QUOTE]) l = Ok (v, true).
Proof.
  intros Hu Hv. unfold _decode_value. cbn [app]. rewrite Z.eqb_refl. cbn [negb].
  assert ((length (QUOTE :: body ++ [QUOTE]) <? 2)%nat = false) as ->.
  { apply Nat.ltb_ge. cbn. rewrite length_app. cbn. lia. }
  rewrite app_comm_cons, endswith_snoc. cbn [orb negb].
  rewrite removelast_last, Hu. by destruct v.
Qed.

Lemma decode_bare v l : v ≠ [] → bare_chars v → _decode_value v l = Ok (v, false).
Proof.
  intros Hne Hb. unfold _decode_value. rewrite (bare_no_quote v Hb).
  destruct v as [|c v]; [done|]. inversion Hb as [|? ? [_ Hq] _]; subst.
  by rewrite (proj2 (Z.eqb_neq c QUOTE)) by done.
Qed.

(** A canonical value decodes to the value. *)
Lemma decode_canonical v l :
  v ≠ [] → _decode_value (_canonical_value v) l = Ok (v, needs_quotes v).
Proof.
  intros Hv. unfold _canonical_value. destruct (needs_quotes v) eqn:E.
  - apply decode_quoted; [apply unescape_escape|done].
  - apply needs_quotes_false in E as (_ & ? & _). by apply decode_bare.
Qed.

Lemma scan_canonical v : scan false false (_canonical_value v) = Some (false, false).
Proof.
  unfold _canonical_value. destruct (needs_quotes v) eqn:E.
  - cbn. rewrite scan_app, scan_escape. done.
  - apply needs_quotes_false in E as (_ & ? & _). by apply scan_bare.
Qed.

Lemma canonical_closed v : v ≠ [] → closed (_canonical_value v).
Proof.
  intros Hv. split; [|eauto using scan_canonical].
  unfold _canonical_value. by destruct (needs_quotes v).
Qed.

Lemma decode_nonempty raw l v q : _decode_value raw l = Ok (v, q) → v ≠ [].
Proof.
  intros Hd ->. unfold _decode_value in Hd. destruct raw as [|c body]; [done|].
  repeat case_test; try done. by destruct (unescape _ _).
Qed.

Lemma decode_unquoted raw l v : _decode_value raw l = Ok (v, false) → v = raw ∧ QUOTE ∉ raw.
Proof.
  unfold _decode_value. destruct raw as [|c body]; [done|]. repeat case_test; try done.
  - intros [= <-]. split; [done|]. by apply mem_char_false.
  - by destruct (unescape _ _).
Qed.

Lemma scan_no_quote s x : scan false false s = Some x → QUOTE ∉ s → bare_chars s.
Proof.
  induction s as [|c s IH]; [constructor|]. cbn [scan]. rewrite step_first.
  intros Hs [Hc Hq]%not_elem_of_cons. destruct (py_isspace c) eqn:E; [done|]. cbn in Hs.
  rewrite (proj2 (Z.eqb_neq c QUOTE)) in Hs by done. constructor; [done|by apply IH].
Qed.

(** Quoting is lossless.  The canonical form of any non-empty value is
    one lexeme, whatever characters the value has, and decoding it gives the
    value back; the empty value has no spelling that decodes. *)
Theorem canonical_value_roundtrip v l :
  (v ≠ [] → closed (_canonical_value v) ∧
            _decode_value (_canonical_value v) l = Ok (v, needs_quotes v)) ∧
  (∀ raw q, _decode_value raw l ≠ Ok ([], q)).
Proof.
  split.
  - intros Hv. split; [by apply canonical_closed|by apply decode_canonical].
  - intros raw q Hd. by apply decode_nonempty in Hd.
Qed.
