(* ===== verification/SearchCanonical.v ===== *)
(** * Search language: canonical queries

    The canonical text of a parsed query parses to the same query.  Spans and
    quoting marks are presentation: two tokens are the same when they are
    equal without them. *)

From stdpp Require Import base strings list.
From S2P Require Import Prelude PyStr SearchTables SearchLanguage SearchLexing.

(** A token without its span and quoting mark. *)
Definition bare (t : SearchToken) : SearchToken :=
  match t with
  | Term t => Term (mkTerm (t_value t) false 0 0)
  | Qualifier q => Qualifier (mkQual (key q) (value q) (negated q) false 0 0)
  end.

(** The value of a call that returns. *)
Definition ok_part {E A} (r : result E A) : option A :=
  match r with Ok a => Some a | Err _ => None end.

Lemma ok_part_some {E A} (r : result E A) a : ok_part r = Some a ↔ r = Ok a.
Proof. destruct r; cbn; naive_solver. Qed.

Lemma ok_part_bind {E A B} (r : result E A) (f : A → result E B) :
  ok_part (r ≫= f) = ok_part r ≫= λ a, ok_part (f a).
Proof. by destruct r. Qed.

Lemma ok_part_bind_ext {E A B} (r r' : result E A) (f g : A → result E B) :
  ok_part r = ok_part r' → (∀ a, ok_part (f a) = ok_part (g a)) →
  ok_part (r ≫= f) = ok_part (r' ≫= g).
Proof. intros Hr Hf. rewrite !ok_part_bind, Hr. destruct (ok_part r'); cbn; auto. Qed.

Lemma ok_part_if {E A} (b : bool) (r r' : result E A) :
  ok_part (if b then r else r') = if b then ok_part r else ok_part r'.
Proof. by destruct b. Qed.

Section Canonical.
Context `{Unicode} `{SourceUrls}.

(** ** Diagnostics aside, a lexeme is parsed by its text alone *)

Lemma decode_ok raw l l' : ok_part (_decode_value raw l) = ok_part (_decode_value raw l').
Proof.
  unfold _decode_value. destruct raw; [done|]. repeat case_test; try done.
  by destruct (unescape _ _).
Qed.

Lemma normal_ok k v l l' : ok_part (normal_value k v l) = ok_part (normal_value k v l').
Proof.
  unfold normal_value, check_value, _parse_date. rewrite !ok_part_if, !ok_part_bind, !ok_part_if.
  destruct (parse_source_identity (strip v)) as [[? ?]|];
    destruct (parse_source_url (strip v)) as [[?|]|?]; done.
Qed.

Lemma parse_lexeme_ok l l' : lraw l = lraw l' →
  bare <$> ok_part (parse_lexeme l) = bare <$> ok_part (parse_lexeme l').
Proof.
  intros E. unfold parse_lexeme, parse_term, _validate_value. rewrite E.
  destruct (parse_source_url _) as [pu|]; [|done].
  destruct (http_url _); [by destruct pu|].
  repeat (rewrite ok_part_if || rewrite ok_part_bind).
  set (raw := drop (Z.to_nat (_ + 1)) _). rewrite (decode_ok raw l l'), (decode_ok (lraw l') l l').
  destruct (ok_part (_decode_value (lraw l') l')) as [[v q]|] eqn:E1;
  destruct (ok_part (_decode_value raw l')) as [[v' q']|] eqn:E2; cbn [mbind option_bind];
    rewrite ?ok_part_bind; cbn [key value]; try rewrite (normal_ok _ v' l l');
    try destruct (ok_part (normal_value _ v' l')); cbn; repeat case_test; done.
Qed.

(** ** The validated value is a fixed point of the validation *)

(** A lower-case ASCII word without surrounding space. *)
Definition plain_word (v : pystr) : bool :=
  is_ascii v && bool_decide (ascii_lower <$> v = v) && bool_decide (strip v = v).

Lemma plain_word_fixed v : plain_word v = true → lower v = v ∧ strip v = v.
Proof.
  unfold plain_word. rewrite !andb_true_iff, !bool_decide_eq_true.
  intros [[Ha Hl] Hs]. by rewrite lower_ascii.
Qed.

(** The words the validation compares with. *)
Definition vocabulary : list pystr :=
  TYPE_TARGETS.*1 ++ IS_TARGETS.*1 ++ HAS_TARGETS.*1 ++ SORT_TARGETS.*1 ++ TASK_STATUSES ++
  TASK_KINDS ++ IDENTITY_SOURCES.

Lemma vocabulary_plain : forallb plain_word vocabulary = true.
Proof. vm_compute. reflexivity. Qed.

Lemma vocabulary_fixed v : v ∈ vocabulary → lower (strip v) = v ∧ strip v = v.
Proof.
  intros Hv%list_elem_of_In.
  pose proof (proj1 (forallb_forall _ _) vocabulary_plain v Hv) as Hp.
  by destruct (plain_word_fixed v Hp) as [? ->].
Qed.

Lemma in_table_elem {V} v (T : list (pystr * V)) : in_table v T = true ↔ v ∈ T.*1.
Proof. unfold in_table. by rewrite bool_decide_eq_true, assoc_is_Some. Qed.

Lemma check_value_ok b v l w : check_value b v l = Ok w ↔ b = true ∧ w = v.
Proof. unfold check_value. destruct b; naive_solver. Qed.

Lemma types_not_aliases :
  forallb (λ v, bool_decide (assoc v TYPE_ALIASES = None)) TYPE_TARGETS.*1 = true.
Proof. vm_compute. reflexivity. Qed.

Lemma type_value_fixed tv : in_table tv TYPE_TARGETS = true →
  lower (strip tv) = tv ∧ assoc tv TYPE_ALIASES = None.
Proof.
  intros Hin%in_table_elem. split.
  - apply vocabulary_fixed. unfold vocabulary. apply elem_of_app. by left.
  - apply list_elem_of_In in Hin.
    by apply (proj1 (forallb_forall _ _) types_not_aliases), bool_decide_eq_true in Hin.
Qed.

Lemma identity_sources_sound :
  forallb (λ s, bool_decide (s ≠ [] ∧ (47 ∉ s) ∧ s ≠ u "twitter")) IDENTITY_SOURCES = true.
Proof. vm_compute. reflexivity. Qed.

Lemma identity_fixed v source identity :
  parse_source_identity v = Some (source, identity) →
  let w := source ++ [47] ++ identity in
  strip w = w ∧ parse_source_identity w = Some (source, identity).
Proof.
  unfold parse_source_identity at 1. destruct (partition_on 47 v) as [[rs ri]|]; [|done].
  repeat case_test; try done. intros [= <- <-].
  apply negb_false_iff, bool_decide_eq_true in Heqb. apply bool_decide_eq_false in Heqb0.
  set (s := normalize_source_name rs) in *. set (i := strip ri) in *.
  assert (lower (strip s) = s ∧ strip s = s) as [Hl Hs].
  { apply vocabulary_fixed. unfold vocabulary. rewrite !elem_of_app. tauto. }
  assert (strip i = i) as Hi by apply strip_strip.
  assert (s ≠ [] ∧ (47 ∉ s) ∧ s ≠ u "twitter") as (Hne & Hslash & Htw).
  { apply list_elem_of_In in Heqb.
    by apply (proj1 (forallb_forall _ _) identity_sources_sound), bool_decide_eq_true in Heqb. }
  cbn zeta. split.
  - apply strip_eq.
    + apply strip_ends in Hs as [Hh _]. by destruct s.
    + rewrite !rev_app_distr. apply strip_ends in Hi as [_ Ht].
      destruct (rev i) eqn:E; [|done]. exfalso. apply Heqb0.
      rewrite <-(rev_involutive i), E. done.
  - unfold parse_source_identity. cbn [app].
    assert (partition_on 47 (s ++ 47 :: i) = Some (s, i)) as ->.
    { clear - Hslash. induction s as [|c s IH]; [done|]. cbn.
      apply not_elem_of_cons in Hslash as [Hc Hs].
      rewrite (proj2 (Z.eqb_neq c 47)) by done. by rewrite IH. }
    assert (normalize_source_name s = s) as ->.
    { unfold normalize_source_name. rewrite Hl. by rewrite bool_decide_eq_false_2. }
    rewrite (bool_decide_eq_true_2 (s ∈ _)) by done. cbn [negb].
    rewrite Hi, bool_decide_eq_false_2 by done. by rewrite Heqb1.
Qed.

Lemma normal_idemp `{!SourceUrlLaws H0} k v l w l' :
  normal_value k v l = Ok w → normal_value k w l' = Ok w.
Proof.
  assert (∀ x, x ∈ vocabulary → lower (strip x) = x) as Hfix by (intros x Hx; by apply vocabulary_fixed).
  unfold vocabulary in Hfix. repeat setoid_rewrite elem_of_app in Hfix.
  intros Hn. apply ok_part_some. rewrite (normal_ok k w l' l). apply ok_part_some.
  unfold normal_value in *. cbn zeta in *.
  repeat match type of Hn with
  | (if ?b then check_value _ _ _ else _) = _ => destruct b eqn:?
  end.
  - apply check_value_ok in Hn as [Hin ->]. destruct (type_value_fixed _ Hin) as [-> ->].
    by apply check_value_ok.
  - apply check_value_ok in Hn as [Hin ->]. apply in_table_elem in Hin as Hin'.
    rewrite Hfix by tauto. by apply check_value_ok.
  - apply check_value_ok in Hn as [Hin ->]. apply in_table_elem in Hin as Hin'.
    rewrite Hfix by tauto. by apply check_value_ok.
  - apply check_value_ok in Hn as [Hin ->]. apply in_table_elem in Hin as Hin'.
    rewrite Hfix by tauto. by apply check_value_ok.
  - apply check_value_ok in Hn as [Hin ->]. apply bool_decide_eq_true in Hin as Hin'.
    rewrite Hfix by tauto. by apply check_value_ok.
  - apply check_value_ok in Hn as [Hin ->]. apply bool_decide_eq_true in Hin as Hin'.
    rewrite Hfix by tauto. by apply check_value_ok.
  - destruct (is_date_key k).
    { apply result_bind_ok in Hn as ([] & Hd & [= <-]). rewrite strip_strip.
      apply result_bind_ok. eauto. }
    destruct (bool_decide (k = u "source")).
    { injection Hn as <-. destruct (bool_decide (lower (strip v) = u "twitter")) eqn:E.
      - rewrite Hfix; [done|]. do 6 right. apply list_elem_of_In. cbn. tauto.
      - rewrite lower_strip by apply strip_strip. by rewrite lower_lower, E. }
    destruct (_ || _).
    { destruct (parse_source_identity _) as [[s i]|] eqn:E; [|done]. injection Hn as <-.
      destruct (identity_fixed _ _ _ E) as [Hs Hp]. cbn [app] in Hs, Hp. by rewrite Hs, Hp. }
    destruct (bool_decide (k = u "url")).
    { destruct (parse_source_url (strip v)) as [[p|]|] eqn:E; [|done..]. injection Hn as <-.
      destruct (url_stripped _ _ E) as [-> _]. by rewrite (url_normalised _ _ E). }
    injection Hn as <-. by rewrite strip_strip.
Qed.

(** ** A canonical token is parsed back *)

(** What the parser's dispatch needs of a qualifier key. *)
Definition key_ok (k : pystr) : bool :=
  is_ascii k && bool_decide (ascii_lower <$> k = k) && KEY_RE k &&
  forallb (λ c, negb (py_isspace c) && negb (c =? QUOTE) && negb (c =? COLON) &&
                negb (c =? FULLWIDTH_COLON)) k &&
  negb (startswith k [DASH]) &&
  negb (startswith (k ++ [COLON]) (take (length (k ++ [COLON])) (u "http://"))) &&
  negb (startswith (k ++ [COLON]) (take (length (k ++ [COLON])) (u "https://"))).

Lemma keys_ok : forallb key_ok QUALIFIER_KEYS = true.
Proof. vm_compute. reflexivity. Qed.

Lemma key_facts k : k ∈ QUALIFIER_KEYS →
  lower k = k ∧ KEY_RE k = true ∧ is_ascii k = true ∧ bare_chars k ∧
  Forall (λ c, c ≠ COLON ∧ c ≠ FULLWIDTH_COLON) k ∧ startswith k [DASH] = false ∧ k ≠ [] ∧
  ∀ r, http_url (k ++ COLON :: r) = false.
Proof.
  intros Hk%list_elem_of_In. assert (Hok := proj1 (forallb_forall _ _) keys_ok k Hk).
  assert (k ≠ []) as Hne by by intros ->.
  unfold key_ok in Hok. rewrite !andb_true_iff, !negb_true_iff, bool_decide_eq_true in Hok.
  destruct Hok as [[[[[[Ha Hl] Hre] Hch] Hd] Hh1] Hh2].
  assert (∀ c, c ∈ k → py_isspace c = false ∧ c ≠ QUOTE ∧ c ≠ COLON ∧ c ≠ FULLWIDTH_COLON) as Hc.
  { intros c Hcin%list_elem_of_In. rewrite forallb_forall in Hch. apply Hch in Hcin.
    rewrite !andb_true_iff, !negb_true_iff, !Z.eqb_neq in Hcin. tauto. }
  split_and!; try done.
  - by rewrite lower_ascii.
  - apply Forall_forall. intros c ?%Hc. tauto.
  - apply Forall_forall. intros c ?%Hc. tauto.
  - intros r. destruct (lower_prefix (k ++ [COLON]) r) as [r' Hr'].
    { unfold is_ascii in *. by rewrite forallb_app, Ha. }
    rewrite fmap_app, Hl in Hr'. change (ascii_lower <$> [COLON]) with [COLON] in Hr'.
    unfold http_url. rewrite (cons_middle COLON k r), app_assoc, Hr'.
    apply orb_false_iff. split; apply not_true_is_false; intros Hs%startswith_take; congruence.
Qed.

Lemma find_colon_key k rest :
  bare_chars k → Forall (λ c, c ≠ COLON ∧ c ≠ FULLWIDTH_COLON) k →
  _find_colon (k ++ COLON :: rest) = Z.of_nat (length k).
Proof.
  intros Hb Hc. unfold _find_colon.
  assert (∀ i, find_colon_from (k ++ COLON :: rest) i false false = i + Z.of_nat (length k)) as ->;
    [|lia].
  revert Hc. induction Hb as [|c k [Hsp Hq] _ IH]; intros Hc i.
  { cbn. lia. }
  apply Forall_cons_1 in Hc as [[Hc1 Hc2] Hc]. cbn [app find_colon_from].
  rewrite andb_false_r, (proj2 (Z.eqb_neq c QUOTE)), (proj2 (Z.eqb_neq c COLON)),
    (proj2 (Z.eqb_neq c FULLWIDTH_COLON)) by done.
  cbn [orb andb]. rewrite IH by done. cbn. lia.
Qed.

(** The value part of a printed qualifier. *)
Definition printed_value (q : SearchQualifier) : pystr :=
  let v := _canonical_value (value q) in
  if bool_decide (key q = u "url") && negb (startswith v [QUOTE])
  then [QUOTE] ++ value q ++ [QUOTE] else v.

Lemma printed_spec q : value q ≠ [] →
  (∀ l, ∃ b, _decode_value (printed_value q) l = Ok (value q, b)) ∧
  scan false false (printed_value q) = Some (false, false) ∧
  strip (printed_value q) = printed_value q ∧ printed_value q ≠ [].
Proof.
  intros Hv. unfold printed_value. set (v := value q) in *.
  assert (∀ body, strip ([QUOTE] ++ body ++ [QUOTE]) = [QUOTE] ++ body ++ [QUOTE]) as Hst.
  { intros body. apply strip_eq; [done|]. by rewrite !rev_app_distr. }
  unfold _canonical_value. destruct (needs_quotes v) eqn:En.
  - rewrite startswith_app, andb_false_r.
    split_and!; [intros l; exists true; apply decode_quoted; [apply unescape_escape|done]| |done..].
    cbn. rewrite scan_app, scan_escape. done.
  - apply needs_quotes_false in En as (_ & Hb & Hbs). case_test.
    + split_and!; [intros l; exists true; apply decode_quoted; [by apply unescape_plain|done]| |done..].
      cbn. rewrite scan_app, scan_bare_quoted by done. done.
    + split_and!; [intros l; exists false; by apply decode_bare|by apply scan_bare| |done].
      apply strip_nonspace, forallb_Forall_iff, Forall_impl with (1 := Hb). by intros c [-> _].
Qed.

(** A qualifier as the parser makes it. *)
Definition wf_qualifier (q : SearchQualifier) : Prop :=
  key q ∈ QUALIFIER_KEYS ∧ (negated q = true → key q ∈ NEGATABLE_KEYS) ∧ value q ≠ [] ∧
  ∀ l, normal_value (key q) (value q) l = Ok (value q).

Lemma strip_tail_app a w : w ≠ [] → strip w = w →
  match a with c :: _ => py_isspace c = false | [] => True end → strip (a ++ w) = a ++ w.
Proof.
  intros Hw [Hh Ht]%strip_ends Ha. apply strip_eq; [by destruct a|].
  rewrite rev_app_distr. destruct (rev w) eqn:E; [|done].
  apply (f_equal (@rev Z)) in E. by rewrite rev_involutive in E.
Qed.

(** The printed text before the value of a qualifier. *)
Definition head_text (neg : bool) (k : pystr) : pystr := (if neg then [DASH] else []) ++ k.

Lemma head_text_facts neg k : k ∈ QUALIFIER_KEYS →
  bare_chars (head_text neg k) ∧
  Forall (λ c, c ≠ COLON ∧ c ≠ FULLWIDTH_COLON) (head_text neg k) ∧
  length (head_text neg k) = ((if neg then 1 else 0) + length k)%nat ∧
  ∀ r, startswith (head_text neg k ++ r) [DASH] = neg.
Proof.
  intros Hk. destruct (key_facts _ Hk) as (_ & _ & _ & Hb & Hcol & Hdash & Hne & _).
  unfold head_text. split_and!.
  - apply Forall_app. split; [|done]. destruct neg; by repeat constructor.
  - apply Forall_app. split; [|done]. destruct neg; by repeat constructor.
  - by destruct neg.
  - intros r. rewrite <-app_assoc. destruct neg; [apply startswith_app|]. apply not_true_is_false.
    intros [s' Hs']%startswith_spec. destruct k as [|c k]; [done|].
    cbn in Hs'. injection Hs' as -> _. cbn in Hdash. by destruct k.
Qed.

(** A lexeme [key:w] or [-key:w] with a known key is parsed as a qualifier. *)
Lemma parse_key_value `{!SourceUrlLaws H0} k neg w l : k ∈ QUALIFIER_KEYS →
  lraw l = head_text neg k ++ COLON :: w → strip w = w → w ≠ [] →
  parse_lexeme l =
    if neg && negb (bool_decide (k ∈ NEGATABLE_KEYS)) then Err (_error "invalid_negation" l)
    else _decode_value w l ≫= λ '(v, q),
         _validate_value (mkQual k v neg q (lstart l) (lend l)) l ≫= λ token, Ok (Qualifier token).
Proof.
  intros Hk Hl Hsw Hw.
  destruct (key_facts _ Hk) as (Hlow & Hre & _ & Hb & _ & _ & Hne & Hhttp).
  destruct (head_text_facts neg k Hk) as (Hhb & Hhc & Hlen & Hdash).
  assert ((if neg then tail (lraw l) else lraw l) = k ++ COLON :: w) as Hurl.
  { rewrite Hl. by destruct neg. }
  assert (strip (k ++ COLON :: w) = k ++ COLON :: w) as Hsb.
  { apply strip_tail_app; [done|by apply (strip_tail_app [COLON] w)|].
    destruct k; [done|]. by inversion Hb as [|? ? [? _] _]. }
  unfold parse_lexeme. rewrite Hl, Hdash, <-Hl, Hurl, url_other, Hhttp by (rewrite Hsb; apply Hhttp).
  rewrite Hl, find_colon_key, Hlen by done.
  assert (drop (Z.to_nat (if neg then 1 else 0)) (head_text neg k ++ COLON :: w) = k ++ COLON :: w)
    as -> by by destruct neg.
  assert (Z.to_nat (Z.of_nat ((if neg then 1 else 0) + length k) - (if neg then 1 else 0)) = length k)
    as -> by (destruct neg; lia).
  assert (Z.to_nat (Z.of_nat ((if neg then 1 else 0) + length k) + 1) =
          length (head_text neg k ++ [COLON])) as -> by (rewrite length_app, Hlen; cbn; lia).
  assert (drop (length (head_text neg k ++ [COLON])) (head_text neg k ++ COLON :: w) = w) as ->.
  { rewrite (cons_middle COLON (head_text neg k) w), app_assoc. apply drop_app_length. }
  rewrite take_app_length, Hlow, Hre.
  assert (((if neg then 1 else 0) <? Z.of_nat ((if neg then 1 else 0) + length k)) = true) as ->.
  { apply Z.ltb_lt. destruct k; [done|]. destruct neg; cbn [length]; lia. }
  cbn [andb]. by rewrite (bool_decide_eq_true_2 (k ∈ QUALIFIER_KEYS)).
Qed.

Lemma reparse_qualifier `{!SourceUrlLaws H0} q l : wf_qualifier q →
  lraw l = _canonical_token (Qualifier q) →
  ∃ b, parse_lexeme l =
       Ok (Qualifier (mkQual (key q) (value q) (negated q) b (lstart l) (lend l))).
Proof.
  intros (Hk & Hneg & Hv & Hfix) Hl.
  destruct (printed_spec q Hv) as (Hdec & _ & Hstrip & Hpne).
  destruct (Hdec l) as [b Hb]. exists b.
  rewrite (parse_key_value (key q) (negated q) (printed_value q) l); [|done| |done..].
  - assert (negated q && negb (bool_decide (key q ∈ NEGATABLE_KEYS)) = false) as ->.
    { destruct (negated q); [|done]. by rewrite bool_decide_eq_true_2 by auto. }
    rewrite Hb. unfold _validate_value. cbn. by rewrite Hfix.
  - rewrite Hl. unfold head_text. by rewrite <-app_assoc.
Qed.
End Canonical.
