(* ===== verification/SearchQueryFacts.v ===== *)
(** * Search language: whole queries and their edits

    Validation ignores presentation, canonical text is a fixed point of the
    parser, and visual-filter edits change exactly the tokens they name. *)

From stdpp Require Import base strings list.
From S2P Require Import Prelude PyStr SearchTables SearchLanguage SearchLexing SearchCanonical.

(** Filtering commutes with a map the test does not see. *)
Lemma filter_fmap_inv {A B} (f : A → B) (p : B → bool) (p' : A → bool) (l : list A) :
  (∀ x, p (f x) = p' x) → List.filter p (f <$> l) = f <$> List.filter p' l.
Proof.
  intros Hp. induction l as [|x l IH]; cbn; [done|]. rewrite Hp.
  destruct (p' x); cbn; by rewrite <-IH.
Qed.

Lemma existsb_fmap {A B} (f : A → B) (p : B → bool) (l : list A) :
  existsb p (f <$> l) = existsb (λ x, p (f x)) l.
Proof. induction l as [|x l IH]; cbn; [done|]. by rewrite IH. Qed.

Section Queries.
Context `{Unicode} `{SourceUrls}.

(** ** Validation ignores presentation *)

Definition bq (q : SearchQualifier) : SearchQualifier :=
  mkQual (key q) (value q) (negated q) false 0 0.

Lemma bare_qualifiers (toks : list SearchToken) : omap as_qualifier (bare <$> toks) = bq <$> omap as_qualifier toks.
Proof. induction toks as [|[t|q] toks IH]; cbn; [done|exact IH|by f_equal]. Qed.

Lemma bare_terms (toks : list SearchToken) :
  omap as_term (bare <$> toks) = [] ↔ omap as_term toks = [].
Proof. induction toks as [|[t|q] toks IH]; cbn; done. Qed.

Lemma narrow_bq sc ty a q : ok_part (narrow sc ty a (bq q)) = ok_part (narrow sc ty a q).
Proof.
  unfold narrow. cbn [key bq]. case_test; [done|].
  change (_targets_for_token (bq q)) with (_targets_for_token q).
  destruct (_targets_for_token q) as [[?|]|]; cbn; [|done..]. by case_test.
Qed.

Lemma foldM_ok_part {E A B} (f g : A → B → result E A) (h : B → B) :
  (∀ a b, ok_part (f a (h b)) = ok_part (g a b)) →
  ∀ (l : list B) a, ok_part (foldM f a (h <$> l)) = ok_part (foldM g a l).
Proof.
  intros Hfg. induction l as [|b l IH]; intros a; cbn; [done|].
  rewrite !ok_part_bind, Hfg. destruct (ok_part (g a b)); cbn; [apply IH|done].
Qed.

Lemma has_key_bq k q : has_key k (bq q) = has_key k q.
Proof. done. Qed.

Lemma values_bq (l : list SearchQualifier) : value <$> (bq <$> l) = value <$> l.
Proof. rewrite <-list_fmap_compose. by apply list_fmap_ext. Qed.

Lemma head_bq (l : list SearchQualifier) : head (bq <$> l) = bq <$> head l.
Proof. by destruct l. Qed.

Lemma is_conflict_bq (qs : list SearchQualifier) : is_conflict (bq <$> qs) = bq <$> is_conflict qs.
Proof.
  unfold is_conflict.
  rewrite (filter_fmap_inv bq _ (λ t, has_key (u "is") t && negb (negated t))) by done.
  rewrite values_bq. destruct (List.filter _ CONFLICTING_IS_VALUES) as [|c cs]; [done|].
  rewrite (filter_fmap_inv bq _ _ qs (λ x, eq_refl)). apply head_bq.
Qed.

Lemma sign_conflict_bq (qs : list SearchQualifier) : sign_conflict (bq <$> qs) = bq <$> sign_conflict qs.
Proof.
  unfold sign_conflict.
  rewrite (filter_fmap_inv bq _ (λ t, existsb (λ t', same_pair t t' &&
    negb (eqb (negated t) (negated t'))) qs)).
  - apply head_bq.
  - intros x. by rewrite existsb_fmap.
Qed.

Lemma validate_bare (toks : list SearchToken) sc :
  ok_part (_validate_query (bare <$> toks) sc) = ok_part (_validate_query toks sc).
Proof.
  unfold _validate_query. rewrite bare_qualifiers. set (qs := omap as_qualifier toks).
  rewrite !(filter_fmap_inv bq _ _ qs (has_key_bq _)).
  rewrite is_conflict_bq, sign_conflict_bq.
  assert (∀ l : list SearchQualifier, omap (λ t, assoc (value t) TYPE_TARGETS) (bq <$> l) =
               omap (λ t, assoc (value t) TYPE_TARGETS) l) as Hom.
  { induction l as [|x l IH]; cbn -[TYPE_TARGETS]; [done|].
    destruct (assoc (value x) TYPE_TARGETS); [f_equal|]; exact IH. }
  rewrite Hom. set (ty := List.filter (has_key (u "type")) qs).
  assert (bool_decide (bq <$> ty = []) = bool_decide (ty = [])) as ->.
  { apply bool_decide_ext. by destruct ty. }
  apply ok_part_bind_ext; [destruct ty; [done|]; cbn; by case_test|]. intros a.
  apply ok_part_bind_ext; [apply foldM_ok_part; intros; apply narrow_bq|]. intros a'.
  destruct (is_conflict qs); [done|]. destruct (sign_conflict qs); [done|].
  apply ok_part_bind_ext; [|intros _; by destruct a'].
  destruct (List.filter (has_key (u "sort")) qs) as [|t [|t' ts]]; [done| |done].
  cbn [fmap list_fmap value bq]. rewrite (bool_decide_ext _ _ (bare_terms toks)). by case_test.
Qed.

(** ** Canonical tokens are parsed back *)

(** A token whose canonical text reads as the same token: a qualifier with a
    value, and a term that is unquoted, needs its quotes, or reads as a term
    without them. *)
Definition unambiguous (t : SearchToken) : bool :=
  match t with
  | Qualifier q => bool_decide (value q ≠ [])
  | Term t => negb (t_quoted t) || needs_quotes (t_value t) ||
              match parse_lexeme (mkLexeme (t_value t) 0 0) with
              | Ok (Term _) => true | _ => false end
  end.

Definition wf_token (t : SearchToken) : Prop :=
  closed (_canonical_token t) ∧
  ∀ l, lraw l = _canonical_token t →
    ∃ t', parse_lexeme l = Ok t' ∧ bare t' = bare t ∧ _canonical_token t' = _canonical_token t.

Lemma url_key : u "url" ∈ QUALIFIER_KEYS ∧ u "url" ∈ NEGATABLE_KEYS.
Proof. split; apply (bool_decide_eq_true _); vm_compute; reflexivity. Qed.

Lemma parsed_qualifier `{!SourceUrlLaws H0} l q :
  parse_lexeme l = Ok (Qualifier q) → value q ≠ [] → wf_qualifier q.
Proof.
  intros Hp Hv. unfold parse_lexeme in Hp.
  destruct (parse_source_url _) as [pu|] eqn:Hu; [|done]. destruct (http_url _).
  - destruct pu as [p|]; [|done]. injection Hp as <-. cbn in *.
    split_and!; [apply url_key|intros _; apply url_key|done|].
    intros l'. cbn [key value]. destruct (url_stripped _ _ Hu) as [Hs _].
    change (normal_value (u "url") (normalized_url p) l' = Ok (normalized_url p)).
    unfold normal_value. rewrite Hs. cbn -[u parse_source_url]. by rewrite (url_normalised _ _ Hu).
  - case_test.
    + case_test; [done|]. apply negb_false_iff, bool_decide_eq_true in Heqb0.
      case_test; [done|]. apply result_bind_ok in Hp as ([v qd] & _ & Hp).
      apply result_bind_ok in Hp as (tok & Hval & [= ->]).
      unfold _validate_value in Hval. apply result_bind_ok in Hval as (w & Hw & [= <-]).
      cbn [key value negated] in *. split_and!; [done| |done|].
      * cbn [negated]. intros E. apply andb_false_iff in Heqb1 as [Hn|Hn]; [congruence|].
        by apply negb_false_iff, bool_decide_eq_true in Hn.
      * intros l'. by eapply normal_idemp.
    + unfold parse_term in Hp. apply result_bind_ok in Hp as ([v qd] & _ & Hp).
      repeat case_test; done.
Qed.

Lemma parsed_term l t : parse_lexeme l = Ok (Term t) →
  _decode_value (lraw l) l = Ok (t_value t, t_quoted t).
Proof.
  intros Hp. unfold parse_lexeme in Hp.
  destruct (parse_source_url _) as [pu|]; [|done]. destruct (http_url _); [by destruct pu|].
  destruct (_ && KEY_RE _).
  - destruct (negb _); [done|]. destruct (_ && _); [done|].
    apply result_bind_ok in Hp as ([v qd] & _ & Hp). by apply result_bind_ok in Hp as (tok & _ & [=]).
  - unfold parse_term in Hp. apply result_bind_ok in Hp as ([v qd] & Hd & Hp).
    repeat case_test; try done. by injection Hp as <-.
Qed.

Lemma wf_of_qualifier `{!SourceUrlLaws H0} q : wf_qualifier q → wf_token (Qualifier q).
Proof.
  intros Hwf. split.
  - destruct Hwf as (Hk & _ & Hv & _).
    destruct (key_facts _ Hk) as (_ & _ & _ & Hb & _). destruct (printed_spec q Hv) as (_ & Hs & _).
    change (_canonical_token (Qualifier q)) with
      ((if negated q then [DASH] else []) ++ key q ++ COLON :: printed_value q).
    split; [by destruct (negated q), (key q)|]. exists false.
    rewrite (cons_middle COLON), !app_assoc, scan_app, scan_bare; [exact Hs|].
    repeat apply Forall_app_2; [destruct (negated q); by repeat constructor|done|by repeat constructor].
  - intros l Hl. destruct (reparse_qualifier q l Hwf Hl) as [b Hb]. by eexists.
Qed.

Lemma find_colon_quoted v i : find_colon_from (escape v ++ [QUOTE]) i true false = -1.
Proof.
  rewrite escape_bind. revert i. induction v as [|c v IH]; intros i; [done|].
  rewrite bind_cons, <-app_assoc. unfold escape_char.
  destruct (Z.eqb_spec c BACKSLASH) as [->|Hb]; [apply IH|].
  destruct (Z.eqb_spec c QUOTE) as [->|Hq]; [apply IH|]. cbn [app find_colon_from].
  rewrite (proj2 (Z.eqb_neq c BACKSLASH)), (proj2 (Z.eqb_neq c QUOTE)) by done.
  cbn [andb negb]. rewrite andb_false_r. apply IH.
Qed.

(** A quoted lexeme is a term. *)
Lemma parse_quoted `{!SourceUrlLaws H0} v l : v ≠ [] →
  lraw l = [QUOTE] ++ escape v ++ [QUOTE] →
  parse_lexeme l = Ok (Term (mkTerm v true (lstart l) (lend l))).
Proof.
  intros Hv Hl. unfold parse_lexeme.
  assert (startswith (lraw l) [DASH] = false) as -> by by rewrite Hl.
  assert (strip (lraw l) = lraw l) as Hs.
  { rewrite Hl. apply strip_eq; [done|]. by rewrite !rev_app_distr. }
  assert (http_url (lraw l) = false) as Hh.
  { rewrite Hl. destruct (lower_prefix [QUOTE] (escape v ++ [QUOTE]) eq_refl) as [r Hr].
    unfold http_url. by rewrite Hr. }
  rewrite url_other by by rewrite Hs. rewrite Hh.
  assert (_find_colon (lraw l) = -1) as ->.
  { rewrite Hl. unfold _find_colon. cbn [app find_colon_from]. apply find_colon_quoted. }
  cbn [Z.ltb Z.compare andb]. unfold parse_term. rewrite Hl, (decode_quoted (escape v) v) by
    (apply unescape_escape || done). done.
Qed.

(** A bare string that reads as a term, at any span. *)
Lemma wf_bare v tq t0 st en : v ≠ [] → bare_chars v →
  parse_lexeme t0 = Ok (Term tq) → lraw t0 = v → ∀ b, (b = true → needs_quotes v = false) →
  wf_token (Term (mkTerm v b st en)).
Proof.
  intros Hv Hb Hp Hraw b Hbq.
  assert (_canonical_token (Term (mkTerm v b st en)) = v) as Hcan.
  { cbn. assert (existsb py_isspace v = false) as ->.
    { apply not_true_is_false. intros (x & Hx%list_elem_of_In & Hsp)%existsb_exists.
      unfold bare_chars in Hb. rewrite Forall_forall in Hb. destruct (Hb x Hx). congruence. }
    destruct b; [|done]. unfold _canonical_value. by rewrite Hbq. }
  split; rewrite Hcan; [split; eauto using scan_bare|]. intros l Hl.
  assert (Hok := parse_lexeme_ok l t0 ltac:(congruence)). rewrite Hp in Hok. cbn in Hok.
  destruct (parse_lexeme l) as [t'|] eqn:Hp'; [|done]. cbn in Hok. injection Hok as Hok.
  assert (_decode_value v t0 = Ok (t_value tq, t_quoted tq)) as Hd
    by (rewrite <-Hraw at 1; by apply parsed_term).
  rewrite decode_bare in Hd by done. injection Hd as Hd _.
  exists t'. split; [done|]. destruct t' as [t'|]; [|done]. cbn in Hok. injection Hok as Hok.
  apply parsed_term in Hp'. rewrite Hl, decode_bare in Hp' by done. injection Hp' as Hv' Hq'.
  cbn. rewrite <-Hv', <-Hq'. split; [done|]. cbn. cbn in Hcan. destruct b; [|done].
  assert (existsb py_isspace v = false) as ->; [|done].
  specialize (Hbq eq_refl). unfold needs_quotes in Hbq.
  by apply orb_false_iff in Hbq as [[_ ?]%orb_false_iff _].
Qed.

Lemma parsed_wf `{!SourceUrlLaws H0} l t :
  closed (lraw l) → parse_lexeme l = Ok t → unambiguous t = true → wf_token t.
Proof.
  intros [Hne [e Hcl]] Hp Hun. destruct t as [t|q].
  - assert (Hd := parsed_term _ _ Hp).
    destruct t as [v b st en]. cbn in Hd, Hun.
    assert (v ≠ []) as Hv by by eapply decode_nonempty. destruct b; cbn in Hun.
    + destruct (needs_quotes v) eqn:En; cbn in Hun.
      * assert (_canonical_token (Term (mkTerm v true st en)) = _canonical_value v) as Hc by done.
        split; rewrite Hc; [by apply canonical_closed|]. unfold _canonical_value. rewrite En.
        intros l' Hl'. eexists. split; [by apply parse_quoted|]. split; [done|].
        cbn. unfold _canonical_value. by rewrite En.
      * apply needs_quotes_false in En as En'. destruct En' as (_ & Hb & _).
        destruct (parse_lexeme (mkLexeme v 0 0)) as [[t0|]|] eqn:Hp0; [|done..].
        eapply (wf_bare v t0 (mkLexeme v 0 0)); done.
    + apply decode_unquoted in Hd as [-> Hq]. eapply wf_bare; eauto using scan_no_quote. done.
  - cbn in Hun. apply bool_decide_eq_true in Hun.
    eauto using wf_of_qualifier, parsed_qualifier.
Qed.

(** ** Whole queries *)

Definition same_token (t t' : SearchToken) : Prop :=
  bare t' = bare t ∧ _canonical_token t' = _canonical_token t.

Lemma reparse_tokens toks : Forall wf_token toks →
  ∃ ls toks', _lex (join [32] (_canonical_token <$> toks)) = Ok ls ∧
    mapM_res parse_lexeme ls = Ok toks' ∧ bare <$> toks' = bare <$> toks ∧
    _canonical_token <$> toks' = _canonical_token <$> toks.
Proof.
  intros Hwf. destruct (lex_join (_canonical_token <$> toks)) with (i := 0) as (ls & Hlex & Hls).
  { apply Forall_fmap. by apply Forall_impl with (1 := Hwf); intros t [? _]. }
  assert (∃ toks', Forall2 (λ l t', parse_lexeme l = Ok t') ls toks' ∧
    bare <$> toks' = bare <$> toks ∧
    _canonical_token <$> toks' = _canonical_token <$> toks) as (toks' & Hp & Hb & Hc).
  { clear Hlex. revert ls Hls. induction Hwf as [|t toks [_ Ht] _ IH]; intros [|l ls] Hls; try done.
    - exists []. split; [constructor|done].
    - cbn in Hls. injection Hls as Hl Hls. destruct (Ht l Hl) as (t' & Hp & Hb & Hc).
      destruct (IH ls Hls) as (toks' & Hps & Hbs & Hcs). exists (t' :: toks'). cbn.
      split; [by constructor|]. by rewrite Hb, Hc, Hbs, Hcs. }
  exists ls, toks'. split_and!; [done| |done|done]. by apply mapM_res_ok.
Qed.

Lemma parse_query_ok s sc q : parse_search_query s sc = Ok q ↔
  in_table sc SCOPE_TARGETS = true ∧ ∃ ls, _lex s = Ok ls ∧
  mapM_res parse_lexeme ls = Ok (tokens q) ∧ _validate_query (tokens q) sc = Ok (targets q) ∧
  q = mkQuery s (join [32] (_canonical_token <$> tokens q)) sc (tokens q) (targets q).
Proof.
  unfold parse_search_query. destruct (in_table sc SCOPE_TARGETS); cbn [negb]; [|naive_solver].
  split.
  - intros (ls & Hls & (toks & Htoks & (ts & Hts & [= <-])%result_bind_ok)%result_bind_ok)%result_bind_ok.
    split; [done|]. by exists ls.
  - intros (_ & ls & -> & Hm & Hv & Hq). cbn. rewrite Hm. cbn. rewrite Hv. cbn. by rewrite <-Hq.
Qed.

Lemma query_token_wf `{!SourceUrlLaws H0} s sc q t :
  parse_search_query s sc = Ok q → t ∈ tokens q → unambiguous t = true → wf_token t.
Proof.
  intros (_ & ls & Hlex & Hm & _)%parse_query_ok Ht Hun. apply mapM_res_ok in Hm.
  destruct (Forall2_elem_r _ _ _ _ Hm Ht) as (l & Hl & Hp).
  assert (Forall closed (lraw <$> ls)) as Hcl.
  { apply (cuts_closed 0 s), (lex_sound_from (S (length s))); [lia|done]. }
  rewrite Forall_fmap, Forall_forall in Hcl. by apply (parsed_wf l); [apply Hcl|..].
Qed.

Lemma query_tokens_wf `{!SourceUrlLaws H0} s sc q :
  parse_search_query s sc = Ok q → Forall (λ t, unambiguous t = true) (tokens q) →
  Forall wf_token (tokens q).
Proof.
  rewrite !Forall_forall. eauto using query_token_wf.
Qed.

(** Parsing the canonical text of well-formed tokens. *)
Lemma parse_printed_tokens toks sc q :
  Forall wf_token toks →
  parse_search_query (join [32] (_canonical_token <$> toks)) sc = Ok q →
  bare <$> tokens q = bare <$> toks ∧
  _canonical_token <$> tokens q = _canonical_token <$> toks.
Proof.
  intros (ls & toks' & Hlex & Hm & Hb & Hc)%reparse_tokens.
  intros (_ & ls' & Hlex' & Hm' & _)%parse_query_ok. rewrite Hlex in Hlex'. injection Hlex' as <-.
  rewrite Hm in Hm'. by injection Hm' as <-.
Qed.


(** ** Edits *)

Lemma wf_same t t' : bare t' = bare t → _canonical_token t' = _canonical_token t →
  wf_token t → wf_token t'.
Proof. intros Hb Hc [Hcl Hp]. split; rewrite Hc; [done|]. by rewrite Hb. Qed.

(** Well-formed tokens that validate are parsed from their canonical text. *)
Lemma parse_printed toks sc ts : Forall wf_token toks →
  in_table sc SCOPE_TARGETS = true → _validate_query toks sc = Ok ts →
  ∃ q, parse_search_query (join [32] (_canonical_token <$> toks)) sc = Ok q ∧
       bare <$> tokens q = bare <$> toks ∧ targets q = ts.
Proof.
  intros (ls & toks' & Hlex & Hm & Hb & Hc)%reparse_tokens Hsc Hv.
  exists (mkQuery (join [32] (_canonical_token <$> toks))
            (join [32] (_canonical_token <$> toks)) sc toks' ts).
  split; [|done]. apply parse_query_ok. cbn [tokens targets]. split; [done|].
  exists ls. rewrite Hc. split_and!; [done|done| |done].
  apply ok_part_some. rewrite <-validate_bare, Hb, validate_bare. by apply ok_part_some.
Qed.

Lemma wf_tokens_same (toks toks' : list SearchToken) :
  Forall wf_token toks → bare <$> toks' = bare <$> toks →
  _canonical_token <$> toks' = _canonical_token <$> toks → Forall wf_token toks'.
Proof.
  intros Hwf. revert toks'. induction Hwf as [|t toks Ht _ IH]; intros [|t' toks']; cbn; try done.
  intros [= Hb Hbs] [= Hc Hcs]. constructor; [by eapply wf_same|by apply IH].
Qed.

Lemma probe_wf `{!SourceUrlLaws H0} neg k v sc p :
  probe_for neg k v sc = Ok p → value p ≠ [] → wf_token (Qualifier p).
Proof.
  unfold probe_for. intros (q & Hq & Hp)%result_bind_ok Hv.
  destruct (qualifiers q) as [|t qs] eqn:Hqs; [done|]. injection Hp as ->.
  apply (query_token_wf _ _ _ _ Hq); [|by apply bool_decide_eq_true].
  assert (p ∈ qualifiers q) as Hin by (rewrite Hqs; left).
  apply list_elem_of_omap in Hin as ([t|q'] & Hin & Heq); [done|]. by injection Heq as ->.
Qed.

(** [compose_search_query] with a value, as an edit of the parsed tokens. *)
Lemma compose_ok query sc k v op neg q : op ≠ op_replace_group →
  compose_search_query query sc k (Some v) op neg [] = Ok q ↔
  ∃ parsed p toks, parse_search_query query sc = Ok parsed ∧ lower k ∈ QUALIFIER_KEYS ∧
    probe_for neg (lower k) v sc = Ok p ∧
    edit_tokens op (lower k) (Some v) neg (Some p) [] (tokens parsed) = Ok toks ∧
    parse_search_query (join [32] (_canonical_token <$> toks)) sc = Ok q.
Proof.
  intros Hop. unfold compose_search_query. rewrite result_bind_ok. split.
  - intros (parsed & Hparsed & Hrest). case_test; [done|].
    apply negb_false_iff, bool_decide_eq_true in Heqb.
    apply result_bind_ok in Hrest as (op_ & (p & Hp & [= <-])%result_bind_ok & Hrest).
    apply result_bind_ok in Hrest as (repl & Hrepl & Hrest).
    assert (repl = []) as -> by (destruct op; by simplify_eq).
    apply result_bind_ok in Hrest as (toks & Htoks & Hq). eauto 10.
  - intros (parsed & p & toks & Hparsed & Hk & Hp & Htoks & Hq). exists parsed. split; [done|].
    rewrite (bool_decide_eq_true_2 (lower k ∈ _)) by done. cbn [negb]. rewrite Hp. cbn [mbind result_bind].
    assert (∀ (r : result SearchError (list pystr)),
      match op with op_replace_group => r | _ => Ok [] end = Ok []) as Hr by by destruct op.
    rewrite Hr. cbn [mbind result_bind]. by rewrite Htoks.
Qed.

(** The probe has the requested key and sign. *)
Lemma canonical_value_strip v :
  strip (_canonical_value v) = _canonical_value v ∧ _canonical_value v ≠ [].
Proof.
  unfold _canonical_value. destruct (needs_quotes v) eqn:En.
  - split; [|done]. apply strip_eq; [done|]. by rewrite !rev_app_distr.
  - apply needs_quotes_false in En as (? & Hb & _). split; [|done].
    apply strip_nonspace, forallb_Forall_iff, Forall_impl with (1 := Hb). by intros c [-> _].
Qed.

Lemma probe_key `{!SourceUrlLaws H0} neg k v sc p : k ∈ QUALIFIER_KEYS →
  probe_for neg k v sc = Ok p → key p = k ∧ negated p = neg.
Proof.
  intros Hk. unfold probe_for. intros (q & (_ & ls & Hlex & Hm & _)%parse_query_ok & Hp)%result_bind_ok.
  assert (probe_text neg k v = head_text neg k ++ COLON :: _canonical_value v) as Ht
    by (unfold probe_text, head_text; by rewrite <-app_assoc).
  destruct (head_text_facts neg k Hk) as (Hhb & _).
  assert (closed (probe_text neg k v)) as Hcl.
  { rewrite Ht, (cons_middle COLON), app_assoc. split; [by destruct (head_text neg k)|].
    exists false. rewrite scan_app, scan_bare; [apply scan_canonical|].
    apply Forall_app. split; [done|by repeat constructor]. }
  destruct (lex_join [probe_text neg k v]) with (i := 0) as (ls' & Hls' & Hraw); [by constructor|].
  cbn [join] in Hls'. unfold _lex in Hlex. rewrite Hls' in Hlex. injection Hlex as <-.
  destruct ls' as [|l [|? ?]]; [done| |done]. injection Hraw as Hraw.
  apply mapM_res_ok in Hm. inversion Hm as [|? t ? ts Hpl Hrest Heq1 Heq2]; subst.
  inversion Hrest; subst. unfold qualifiers in Hp. rewrite <-Heq2 in Hp.
  destruct (canonical_value_strip v) as [Hs Hne].
  rewrite (parse_key_value k neg (_canonical_value v) l) in Hpl by (done || by rewrite Hraw).
  case_test; [done|]. apply result_bind_ok in Hpl as ([w b] & _ & Hpl).
  apply result_bind_ok in Hpl as (tok & (w' & _ & [= <-])%result_bind_ok & [= <-]).
  cbn in Hp. by injection Hp as <-.
Qed.

Lemma is_same_filter_bare p t t' : bare t = bare t' → is_same_filter p t = is_same_filter p t'.
Proof. destruct t, t'; cbn; try done. by intros [= Hk Hv Hn]; unfold same_filter; rewrite Hk, Hv, Hn. Qed.

Lemma pop_first_none {f} (toks : list SearchToken) : existsb f toks = false → pop_first f toks = None.
Proof.
  induction toks as [|t toks IH]; cbn; [done|].
  intros [-> ?]%orb_false_iff. by rewrite IH.
Qed.

Lemma pop_first_last p (toks toks1 : list SearchToken) :
  existsb (is_same_filter p) toks = false → bare <$> toks1 = bare <$> (toks ++ [Qualifier p]) →
  ∃ rest, pop_first (is_same_filter p) toks1 = Some rest ∧ bare <$> rest = bare <$> toks ∧
          ∀ t, t ∈ rest → t ∈ toks1.
Proof.
  revert toks1. induction toks as [|t toks IH]; intros [|t1 toks1]; cbn; try done.
  - intros _ [= Hb Hnil]. apply fmap_nil_inv in Hnil as ->.
    rewrite (is_same_filter_bare p t1 (Qualifier p)) by done.
    assert (is_same_filter p (Qualifier p) = true) as ->.
    { cbn. unfold same_filter. rewrite !bool_decide_eq_true_2 by done. by rewrite eqb_reflx. }
    exists []. split_and!; [done|done|]. by intros t ?%not_elem_of_nil.
  - intros [Hn Hns]%orb_false_iff [= Hb Hbs].
    rewrite (is_same_filter_bare p t1 t), Hn by done.
    destruct (IH toks1 Hns Hbs) as (rest & -> & Hr & Hin). exists (t1 :: rest). cbn.
    split_and!; [done|by rewrite Hb, Hr|]. intros x. rewrite !elem_of_cons. naive_solver.
Qed.

(** Toggling a filter twice restores the query.  If a query parses with
    unambiguous tokens and does not have the filter, toggling it on and then
    toggling it on the resulting canonical text succeeds and leaves the
    original tokens. *)
Theorem toggle_twice_restores `{!SourceUrlLaws H0} query sc k v neg parsed p q1 :
  parse_search_query query sc = Ok parsed → Forall (λ t, unambiguous t = true) (tokens parsed) →
  probe_for neg (lower k) v sc = Ok p → value p ≠ [] →
  existsb (is_same_filter p) (tokens parsed) = false →
  compose_search_query query sc k (Some v) op_toggle neg [] = Ok q1 →
  ∃ q2, compose_search_query (canonical q1) sc k (Some v) op_toggle neg [] = Ok q2 ∧
        bare <$> tokens q2 = bare <$> tokens parsed ∧ targets q2 = targets parsed.
Proof.
  intros Hparsed Hun Hp Hv Hnew Hc1.
  apply compose_ok in Hc1 as (parsed' & p' & toks & E1 & Hk & E2 & Hedit & Hq1); [|done].
  rewrite Hparsed in E1. injection E1 as <-. rewrite Hp in E2. injection E2 as <-.
  cbn in Hedit. rewrite pop_first_none in Hedit by done. injection Hedit as <-.
  assert (Forall wf_token (tokens parsed ++ [Qualifier p])) as Hwf.
  { apply Forall_app. split; [by eapply query_tokens_wf|]. constructor; [|done].
    by eapply probe_wf. }
  destruct (parse_printed_tokens _ _ _ Hwf Hq1) as [Hb1 Hcan1].
  assert (canonical q1 = join [32] (_canonical_token <$> (tokens parsed ++ [Qualifier p]))) as Hcq1.
  { apply parse_query_ok in Hq1 as Hq1'. destruct Hq1' as (_ & _ & _ & _ & _ & ->).
    cbn [canonical tokens]. by rewrite Hcan1. }
  destruct (pop_first_last p (tokens parsed) (tokens q1) Hnew Hb1) as (rest & Hpop & Hbr & Hin).
  assert (Forall wf_token (tokens q1)) as Hwf1 by by eapply wf_tokens_same.
  apply parse_query_ok in Hparsed as (Hsc & _ & _ & _ & Hval & _).
  destruct (parse_printed rest sc (targets parsed)) as (q2 & Hq2 & Hb2 & Ht2); [|done| |].
  - rewrite Forall_forall in *. auto.
  - apply ok_part_some. rewrite <-validate_bare, Hbr, validate_bare. by apply ok_part_some.
  - exists q2. rewrite <-Hbr. split_and!; [|done|done]. apply compose_ok; [done|].
    exists q1, p, rest. split_and!; [by rewrite Hcq1|done|done| |done]. cbn. by rewrite Hpop.
Qed.

(** The values [query_values] reads, on a list of tokens. *)
Definition filter_values (toks : list SearchToken) (k : pystr) (neg : bool) : list pystr :=
  value <$> List.filter (λ t, bool_decide (key t = k) && eqb (negated t) neg)
                        (omap as_qualifier toks).

Lemma filter_values_bare toks k neg : filter_values (bare <$> toks) k neg = filter_values toks k neg.
Proof.
  unfold filter_values. rewrite bare_qualifiers, (filter_fmap_inv bq _ _ _ (λ x, eq_refl)).
  apply values_bq.
Qed.

Lemma keep_unless_bare d (toks : list SearchToken) : (∀ q, d (bq q) = d q) →
  bare <$> keep_unless d toks = keep_unless d (bare <$> toks).
Proof.
  intros Hd. symmetry. apply filter_fmap_inv. intros [t|q]; cbn; [done|]. f_equal. apply Hd.
Qed.

Lemma filter_idemp {A} (f : A → bool) l : List.filter f (List.filter f l) = List.filter f l.
Proof.
  induction l as [|x l IH]; cbn; [done|]. destruct (f x) eqn:E; cbn; [rewrite E; by f_equal|done].
Qed.

Lemma kept_values k neg toks :
  filter_values (keep_unless (λ t, has_key k t && eqb (negated t) neg) toks) k neg = [].
Proof.
  unfold filter_values. induction toks as [|[t|q] toks IH]; cbn; [done|exact IH|].
  destruct (has_key k q && eqb (negated q) neg) eqn:E; cbn; [exact IH|].
  unfold has_key in E. rewrite E. exact IH.
Qed.

Lemma filter_values_app a b k neg :
  filter_values (a ++ b) k neg = filter_values a k neg ++ filter_values b k neg.
Proof. unfold filter_values. by rewrite omap_app, List.filter_app, fmap_app. Qed.

(** Setting a filter replaces the filters of the same key and sign and
    touches nothing else: the edited query has exactly one value for them, the
    requested one, and all its other tokens, in order, are those of the
    original query. *)
Theorem set_replaces_exactly `{!SourceUrlLaws H0} query sc k v neg parsed p q :
  parse_search_query query sc = Ok parsed → Forall (λ t, unambiguous t = true) (tokens parsed) →
  probe_for neg (lower k) v sc = Ok p → value p ≠ [] →
  compose_search_query query sc k (Some v) op_set neg [] = Ok q →
  let other := keep_unless (λ t, has_key (lower k) t && eqb (negated t) neg) in
  query_values q (lower k) (Some neg) = [value p] ∧
  bare <$> other (tokens q) = bare <$> other (tokens parsed).
Proof.
  intros Hparsed Hun Hp Hv Hc other.
  apply compose_ok in Hc as (parsed' & p' & toks & E1 & Hk & E2 & Hedit & Hq); [|done].
  rewrite Hparsed in E1. injection E1 as <-. rewrite Hp in E2. injection E2 as <-.
  cbn in Hedit. injection Hedit as <-. fold other in Hq.
  destruct (probe_key _ _ _ _ _ Hk Hp) as [Hkp Hnp].
  assert (Forall wf_token (other (tokens parsed) ++ [Qualifier p])) as Hwf.
  { apply Forall_app. split; [|constructor; [by eapply probe_wf|done]].
    assert (Hw := query_tokens_wf _ _ _ Hparsed Hun). rewrite Forall_forall in *.
    intros t Ht. apply Hw, list_elem_of_In. apply list_elem_of_In, List.filter_In in Ht. apply Ht. }
  destruct (parse_printed_tokens _ _ _ Hwf Hq) as [Hb _].
  assert (other (other (tokens parsed) ++ [Qualifier p]) = other (tokens parsed)) as Ho.
  { unfold other, keep_unless. rewrite List.filter_app. cbn. unfold has_key.
    rewrite Hkp, Hnp, bool_decide_eq_true_2, eqb_reflx by done. cbn. rewrite app_nil_r.
    apply filter_idemp. }
  assert (∀ q, has_key (lower k) (bq q) && eqb (negated (bq q)) neg =
               has_key (lower k) q && eqb (negated q) neg) as Hd by done.
  split.
  - change (query_values q (lower k) (Some neg)) with (filter_values (tokens q) (lower k) neg).
    rewrite <-filter_values_bare, Hb, filter_values_bare, filter_values_app.
    unfold other. rewrite kept_values. cbn. unfold filter_values. cbn.
    by rewrite Hkp, Hnp, bool_decide_eq_true_2, eqb_reflx by done.
  - unfold other in *. by rewrite keep_unless_bare, Hb, <-keep_unless_bare, Ho by done.
Qed.
End Queries.
