(* ===== verification/SearchExample.v ===== *)
(** * Search language: sample queries

    Witnesses for the theorems on the search language, over the ASCII
    character database and a URL classifier that knows no source, and the
    queries whose canonical text changes their meaning. *)

From stdpp Require Import base strings list.
From S2P Require Import Prelude PyStr SearchTables SearchLanguage.
From S2P Require Import SearchLexing SearchCanonical SearchQueryFacts.

Definition no_urls : SourceUrls :=
  {| parse_source_url v := Ok None; iso_datetime v := true |}.

Lemma no_urls_laws : SourceUrlLaws no_urls.
Proof. by constructor. Qed.

Definition ex_scope : pystr := u "works".

(** [hello -tag:"a b" is:favorite], and the same with [sort:random]. *)
Definition ex_query : pystr :=
  u "hello -tag:" ++ [QUOTE] ++ u "a b" ++ [QUOTE] ++ u " is:favorite".
Definition ex_parsed : SearchQuery :=
  mkQuery ex_query ex_query ex_scope
    [Term (mkTerm (u "hello") false 0 5);
     Qualifier (mkQual (u "tag") (u "a b") true true 6 16);
     Qualifier (mkQual (u "is") (u "favorite") false false 17 28)] [works].
Definition ex_probe : SearchQualifier := mkQual (u "sort") (u "random") false false 0 11.

Lemma ex_parsed_ok :
  parse_search_query (H0 := no_urls) ex_query ex_scope = Ok ex_parsed.
Proof. vm_compute. reflexivity. Qed.

Lemma lexer_exact_witness :
  cuts 0 (u "a b") [mkLexeme (u "a") 0 1; mkLexeme (u "b") 2 3].
Proof. apply (lexer_exact (u "a b")). vm_compute. reflexivity. Defined.


Definition ex_toggled : SearchQuery :=
  mkQuery (ex_query ++ u " sort:random") (ex_query ++ u " sort:random") ex_scope
    (tokens ex_parsed ++ [Qualifier (mkQual (u "sort") (u "random") false false 29 40)]) [works].

Lemma toggle_twice_restores_witness :
  ∃ q2, compose_search_query (H0 := no_urls) (canonical ex_toggled) ex_scope (u "Sort")
          (Some (u "Random")) op_toggle false [] = Ok q2 ∧
        bare <$> tokens q2 = bare <$> tokens ex_parsed ∧ targets q2 = targets ex_parsed.
Proof.
  apply (toggle_twice_restores (H0 := no_urls) (SourceUrlLaws0 := no_urls_laws)
           ex_query ex_scope (u "Sort") (u "Random") false ex_parsed ex_probe ex_toggled).
  - vm_compute. reflexivity.
  - repeat constructor; vm_compute; reflexivity.
  - vm_compute. reflexivity.
  - discriminate.
  - vm_compute. reflexivity.
  - vm_compute. reflexivity.
Defined.

Lemma set_replaces_exactly_witness :
  query_values ex_toggled (u "sort") (Some false) = [u "random"].
Proof.
  apply (set_replaces_exactly (H0 := no_urls) (SourceUrlLaws0 := no_urls_laws)
           ex_query ex_scope (u "Sort") (u "Random") false ex_parsed ex_probe ex_toggled).
  - vm_compute. reflexivity.
  - repeat constructor; vm_compute; reflexivity.
  - vm_compute. reflexivity.
  - discriminate.
  - vm_compute. reflexivity.
Defined.

(** Text in double quotes. *)
Definition quoted_text (s : string) : pystr := [QUOTE] ++ u s ++ [QUOTE].

Definition edited (query : pystr) : result SearchError SearchQuery :=
  compose_search_query (H0 := no_urls) query ex_scope (u "sort") (Some (u "random"))
    op_set false [].

(** An edit of an unrelated filter can change a quoted search.  The
    canonical text drops quotes that the value does not need, so after setting
    [sort:random] the quoted text ["tag:cat"] has become the filter
    [tag:cat], and the quoted texts ["OR"] and ["(cat)"], which parse, make
    the edit fail. *)
Theorem edit_rereads_quoted_text :
  (∃ q, parse_search_query (H0 := no_urls) (quoted_text "tag:cat") ex_scope = Ok q ∧
        t_value <$> terms q = [u "tag:cat"] ∧ qualifiers q = []) ∧
  (∃ q, edited (quoted_text "tag:cat") = Ok q ∧ terms q = [] ∧
        query_values q (u "tag") (Some false) = [u "cat"]) ∧
  (∀ s, s = "OR" ∨ s = "(cat)" →
     is_ok (parse_search_query (H0 := no_urls) (quoted_text s) ex_scope) = true ∧
     is_ok (edited (quoted_text s)) = false).
Proof.
  split_and!.
  - eexists. split_and!; [vm_compute; reflexivity..].
  - eexists. split_and!; [vm_compute; reflexivity..].
  - intros s [->| ->]; split; vm_compute; reflexivity.
Qed.

(** A blank filter value makes later edits fail.  The value of [tag:" "]
    is stripped to the empty string after the test for a missing value, so the
    query parses, but its canonical text has no spelling that parses and every
    edit of the query is rejected. *)
Theorem blank_value_breaks_edits :
  let query := u "tag:" ++ quoted_text " " in
  (∃ q, parse_search_query (H0 := no_urls) query ex_scope = Ok q ∧
        query_values q (u "tag") None = [[]] ∧
        is_ok (parse_search_query (H0 := no_urls) (canonical q) ex_scope) = false) ∧
  is_ok (edited query) = false.
Proof.
  cbv zeta. split; [|vm_compute; reflexivity].
  eexists. split_and!; [vm_compute; reflexivity..].
Qed.
