(* ===== verification/Pressure.v ===== *)
(** * Resource pressure: thresholds, profiles and the controller

    [backend/app/services/resource_pressure_state.py], the properties of
    [ResourceSample] in [resource_pressure_sampling.py], and the consumers
    [resource_profile_permit] and [profile_slice_limits] of
    [resource_pressure.py].

    Python floats are exact rationals; [round(x, n)] rounds halves to even.
    The settings the code reads are the record [Settings]; clock readings and
    the [datetime.now] text are arguments.  Of the snapshot only what its
    consumers decide on is modelled; the descriptive fields are left out. *)

From stdpp Require Import base strings list numbers.
From Stdlib Require Import QArith Qround.
From S2P Require Import Prelude PyStr.

Open Scope Z_scope.

Definition GIB : Z := 1024 ^ 3.
Definition MIB : Z := 1024 ^ 2.
Definition LOCAL_CGROUP_WARNING_SECONDS : Q := 60.

(** ** Arithmetic *)

Definition qmax (a b : Q) : Q := if Qle_bool a b then b else a.
Definition qmin (a b : Q) : Q := if Qle_bool a b then a else b.

(** [int(x)]: truncation toward zero. *)
Definition py_trunc (x : Q) : Z := if Qle_bool 0 x then Qfloor x else Qceiling x.

(** Round to the nearest integer, halves to even. *)
Definition round_even (x : Q) : Z :=
  let f := Qfloor x in
  match Qcompare (x - inject_Z f) (1 # 2) with
  | Lt => f
  | Gt => f + 1
  | Eq => if Z.even f then f else f + 1
  end.

(** [round(x, 4)], [round(x, 3)] and [round(x, 2)]. *)
Definition round3 (x : Q) : Q := (round_even (x * 1000)) # 1000.
Definition round4 (x : Q) : Q := (round_even (x * 10000)) # 10000.
Definition round2 (x : Q) : Q := (round_even (x * 100)) # 100.

(** [a or b] for optional numbers: [None] and zero are false. *)
Definition or_num (a : option Q) (b : Q) : Q :=
  match a with Some x => if Qeq_bool x 0 then b else x | None => b end.

(** ** Configuration *)

Record Settings := mkSettings {
  governance_mode : pystr;
  enforced_profiles : pystr;
  budget_min_scale : Q;
  budget_decrease_factor : Q;
  budget_increase_step : Q;
  budget_increase_stable_seconds : Q;
  governance_max_scale : Q;
  budget_base_read : Q;
  budget_base_write : Q;
  foreground_min_samples : Z;
  foreground_p95_limit_ms : Q;
  foreground_slow_samples : Z;
  memory_reserve_mode : pystr;
  memory_reserve_ratio : Q;
  memory_reserve_min_mb : Z;
  memory_reserve_max_mb : Z;
  warning_available_mb : Z;
  pause_available_mb : Z;
  resume_available_mb : Z;
  cfg_warning_swap : Q; cfg_pause_swap : Q; cfg_critical_swap : Q;
  cfg_swap_activity_mb_per_minute : Q;
  cfg_pause_memory_psi : Q; cfg_pause_io_psi : Q;
  cfg_pause_samples : Z; cfg_failure_samples : Z; cfg_resume_seconds : Q }.

Record PressureThresholds := mkThresholds {
  warning_available_bytes : Z;
  pause_available_bytes : Z;
  resume_available_bytes : Z;
  warning_swap_free_ratio : Q;
  pause_swap_free_ratio : Q;
  critical_swap_free_ratio : Q;
  swap_activity_limit : Q;
  pause_memory_psi : Q;
  pause_io_psi : Q;
  pause_samples : Z;
  failure_samples : Z;
  resume_seconds : Q }.

Definition automatic_memory_reserve_bytes (memory_total_bytes : Z) (ratio : Q)
    (minimum_bytes maximum_bytes : Z) : Z :=
  let lower := Z.max (128 * MIB) minimum_bytes in
  let upper := Z.max lower maximum_bytes in
  let proportional := py_trunc (inject_Z (Z.max 0 memory_total_bytes) * qmax (1 # 100) ratio) in
  Z.min upper (Z.max lower proportional).

(** [detected] is [MemTotal], when it can be read. *)
Definition thresholds_from_settings `{Unicode} (cfg : Settings) (detected : option Z)
    : PressureThresholds :=
  let total := match detected with Some t => Z.max 0 t | None => 0 end in
  let auto := bool_decide (lower (strip (memory_reserve_mode cfg)) = u "auto") &&
              bool_decide (total ≠ 0) in
  let pause_available :=
    if auto then automatic_memory_reserve_bytes total (memory_reserve_ratio cfg)
                   (memory_reserve_min_mb cfg * MIB) (memory_reserve_max_mb cfg * MIB)
    else pause_available_mb cfg * MIB in
  let warning_available := Z.max (pause_available + 128 * MIB)
                                 (py_trunc (inject_Z pause_available * (12 # 10))) in
  let resume_available := Z.max (pause_available + 256 * MIB)
                                (py_trunc (inject_Z pause_available * (14 # 10))) in
  mkThresholds
    (if auto then warning_available else warning_available_mb cfg * MIB)
    pause_available
    (if auto then resume_available else resume_available_mb cfg * MIB)
    (cfg_warning_swap cfg) (cfg_pause_swap cfg) (cfg_critical_swap cfg)
    (cfg_swap_activity_mb_per_minute cfg * inject_Z MIB / 60)
    (cfg_pause_memory_psi cfg) (cfg_pause_io_psi cfg)
    (Z.max 1 (cfg_pause_samples cfg)) (Z.max 1 (cfg_failure_samples cfg))
    (qmax 0 (cfg_resume_seconds cfg)).

(** ** Workload profiles *)

Record ResourceProfile := mkProfile {
  profile_name : pystr;
  memory_reservation_bytes : Z;
  base_slice_seconds : option Q;
  base_work_units : Z }.

Definition RESOURCE_PROFILES : list (pystr * ResourceProfile) := [
  (u "light", mkProfile (u "light") 0 (Some 30%Q) 100);
  (u "download_network", mkProfile (u "download_network") (128 * MIB) None 1);
  (u "import_db", mkProfile (u "import_db") (96 * MIB) (Some 20%Q) 25);
  (u "image_derive", mkProfile (u "image_derive") (256 * MIB) (Some 20%Q) 1);
  (u "video_derive", mkProfile (u "video_derive") (384 * MIB) (Some 20%Q) 1);
  (u "search_index", mkProfile (u "search_index") (192 * MIB) (Some 20%Q) 2000);
  (u "git_projection", mkProfile (u "git_projection") (128 * MIB) (Some 20%Q) 1);
  (u "maintenance", mkProfile (u "maintenance") (256 * MIB) (Some 20%Q) 1)].

Definition RESOURCE_PROFILE_ALIASES : list (pystr * pystr) := [
  (u "download", u "download_network"); (u "downloads", u "download_network");
  (u "import", u "import_db"); (u "imports", u "import_db");
  (u "import-projection", u "import_db"); (u "media", u "video_derive");
  (u "image", u "image_derive"); (u "video", u "video_derive");
  (u "search", u "search_index"); (u "meili", u "search_index");
  (u "git", u "git_projection"); (u "gitllery", u "git_projection");
  (u "operations", u "maintenance"); (u "backup", u "maintenance");
  (u "sqlite", u "maintenance"); (u "vacuum", u "maintenance");
  (u "dedup", u "image_derive")].

Section Controller.
Context `{Unicode}.

Definition workload_profile_name (workload : option pystr) : pystr :=
  let w := match workload with Some (c :: w') => c :: w' | _ => u "light" end in
  let normalized := replace_char 95 [45] (lower (strip w)) in
  let starts p := startswith normalized (u p) in
  let has p := contains normalized (u p) in
  match assoc normalized RESOURCE_PROFILE_ALIASES with
  | Some direct => direct
  | None =>
      if starts "download" then u "download_network"
      else if starts "import" then u "import_db"
      else if has "media-derivative" || has "media-derive" then u "video_derive"
      else if has "image" || has "asset-dedup" then u "image_derive"
      else if has "video" || has "ffmpeg" then u "video_derive"
      else if starts "search" || has "meili" then u "search_index"
      else if has "gitllery-projection" || starts "git-projection" then u "git_projection"
      else if has "operation:gitllery" then u "maintenance"
      else if has "gitllery" || starts "git" then u "git_projection"
      else if starts "backup" || starts "sqlite" || has "vacuum" || starts "operation"
      then u "maintenance"
      else if bool_decide (normalized ∈ [u "light"; u "scheduled"; u "default"]) then u "light"
      else u "maintenance"
  end.

(** [None]: every profile. *)
Definition _configured_enforced_profiles (cfg : Settings) : option (list pystr) :=
  let raw := strip (enforced_profiles cfg) in
  match raw with
  | [] => None
  | _ => Some ((λ v, workload_profile_name (Some v)) <$>
               List.filter (λ v, negb (bool_decide (strip v = []))) (split_on 44 raw))
  end.

Definition profile_soft_budget_enforced (cfg : Settings) (name : pystr) : bool :=
  if negb (bool_decide (lower (strip (governance_mode cfg)) = u "enforce")) then false
  else match _configured_enforced_profiles cfg with
       | None => true
       | Some configured => bool_decide (name ∈ configured)
       end.

(** ** Samples *)

Record ResourceSample := mkSample {
  memory_available_bytes : Z;
  swap_total_bytes : Z;
  swap_free_bytes : Z;
  memory_full_avg10 : option Q;
  io_full_avg10 : option Q;
  swap_in_bytes_per_second : option Q;
  swap_out_bytes_per_second : option Q;
  memory_available_change : option Q;
  cgroup_memory_max_delta : option Z;
  cgroup_memory_oom_delta : option Z;
  cgroup_memory_oom_kill_delta : option Z;
  foreground_p95_ms : option Q;
  foreground_sample_count : Z;
  foreground_sample_generation : Z;
  memory_psi_soft_trigger : option Q;
  io_psi_soft_trigger : option Q;
  sampled_at : option string }.

Definition swap_free_ratio (s : ResourceSample) : Q :=
  if swap_total_bytes s <=? 0 then 1%Q
  else (inject_Z (swap_free_bytes s) / inject_Z (swap_total_bytes s))%Q.

Definition swap_activity_bytes_per_second (s : ResourceSample) : option Q :=
  match swap_in_bytes_per_second s, swap_out_bytes_per_second s with
  | Some a, Some b => Some (a + b)%Q
  | Some a, None => Some a
  | None, b => b
  end.

(** ** Controller state *)

Inductive mode := normal | constrained | critical.
Global Instance mode_eq_dec : EqDecision mode.
Proof. solve_decision. Defined.

Record State := mkState {
  controller_mode : mode;
  status : string;
  reasons : list string;
  throughput_scale : Q;
  generation : Z;
  pause_count : Z;
  failure_count : Z;
  recovery_started_at : option Q;
  stable_since : option Q;
  last_increase_at : option Q;
  foreground_slow_count : Z;
  foreground_last_generation : option Z;
  current_sample : option ResourceSample;
  sampled_at_ : option string;
  trigger_reasons : list string;
  snapshot_now : option Q;
  cgroup_max_until : Q;
  cgroup_oom_until : Q;
  cgroup_max_delta : Z;
  cgroup_oom_delta : Z }.

Definition set_controller_mode (v : mode) (s : State) : State :=
  mkState v (status s) (reasons s) (throughput_scale s) (generation s) (pause_count s)
    (failure_count s) (recovery_started_at s) (stable_since s) (last_increase_at s)
    (foreground_slow_count s) (foreground_last_generation s) (current_sample s)
    (sampled_at_ s) (trigger_reasons s) (snapshot_now s) (cgroup_max_until s)
    (cgroup_oom_until s) (cgroup_max_delta s) (cgroup_oom_delta s).
Definition set_status (v : string) (s : State) : State :=
  mkState (controller_mode s) v (reasons s) (throughput_scale s) (generation s)
    (pause_count s) (failure_count s) (recovery_started_at s) (stable_since s)
    (last_increase_at s) (foreground_slow_count s) (foreground_last_generation s)
    (current_sample s) (sampled_at_ s) (trigger_reasons s) (snapshot_now s)
    (cgroup_max_until s) (cgroup_oom_until s) (cgroup_max_delta s) (cgroup_oom_delta s).
Definition set_reasons (v : list string) (s : State) : State :=
  mkState (controller_mode s) (status s) v (throughput_scale s) (generation s)
    (pause_count s) (failure_count s) (recovery_started_at s) (stable_since s)
    (last_increase_at s) (foreground_slow_count s) (foreground_last_generation s)
    (current_sample s) (sampled_at_ s) (trigger_reasons s) (snapshot_now s)
    (cgroup_max_until s) (cgroup_oom_until s) (cgroup_max_delta s) (cgroup_oom_delta s).
Definition set_throughput_scale (v : Q) (s : State) : State :=
  mkState (controller_mode s) (status s) (reasons s) v (generation s) (pause_count s)
    (failure_count s) (recovery_started_at s) (stable_since s) (last_increase_at s)
    (foreground_slow_count s) (foreground_last_generation s) (current_sample s)
    (sampled_at_ s) (trigger_reasons s) (snapshot_now s) (cgroup_max_until s)
    (cgroup_oom_until s) (cgroup_max_delta s) (cgroup_oom_delta s).
Definition set_generation (v : Z) (s : State) : State :=
  mkState (controller_mode s) (status s) (reasons s) (throughput_scale s) v (pause_count
    s) (failure_count s) (recovery_started_at s) (stable_since s) (last_increase_at s)
    (foreground_slow_count s) (foreground_last_generation s) (current_sample s)
    (sampled_at_ s) (trigger_reasons s) (snapshot_now s) (cgroup_max_until s)
    (cgroup_oom_until s) (cgroup_max_delta s) (cgroup_oom_delta s).
Definition set_pause_count (v : Z) (s : State) : State :=
  mkState (controller_mode s) (status s) (reasons s) (throughput_scale s) (generation s) v
    (failure_count s) (recovery_started_at s) (stable_since s) (last_increase_at s)
    (foreground_slow_count s) (foreground_last_generation s) (current_sample s)
    (sampled_at_ s) (trigger_reasons s) (snapshot_now s) (cgroup_max_until s)
    (cgroup_oom_until s) (cgroup_max_delta s) (cgroup_oom_delta s).
Definition set_failure_count (v : Z) (s : State) : State :=
  mkState (controller_mode s) (status s) (reasons s) (throughput_scale s) (generation s)
    (pause_count s) v (recovery_started_at s) (stable_since s) (last_increase_at s)
    (foreground_slow_count s) (foreground_last_generation s) (current_sample s)
    (sampled_at_ s) (trigger_reasons s) (snapshot_now s) (cgroup_max_until s)
    (cgroup_oom_until s) (cgroup_max_delta s) (cgroup_oom_delta s).
Definition set_recovery_started_at (v : option Q) (s : State) : State :=
  mkState (controller_mode s) (status s) (reasons s) (throughput_scale s) (generation s)
    (pause_count s) (failure_count s) v (stable_since s) (last_increase_at s)
    (foreground_slow_count s) (foreground_last_generation s) (current_sample s)
    (sampled_at_ s) (trigger_reasons s) (snapshot_now s) (cgroup_max_until s)
    (cgroup_oom_until s) (cgroup_max_delta s) (cgroup_oom_delta s).
Definition set_stable_since (v : option Q) (s : State) : State :=
  mkState (controller_mode s) (status s) (reasons s) (throughput_scale s) (generation s)
    (pause_count s) (failure_count s) (recovery_started_at s) v (last_increase_at s)
    (foreground_slow_count s) (foreground_last_generation s) (current_sample s)
    (sampled_at_ s) (trigger_reasons s) (snapshot_now s) (cgroup_max_until s)
    (cgroup_oom_until s) (cgroup_max_delta s) (cgroup_oom_delta s).
Definition set_last_increase_at (v : option Q) (s : State) : State :=
  mkState (controller_mode s) (status s) (reasons s) (throughput_scale s) (generation s)
    (pause_count s) (failure_count s) (recovery_started_at s) (stable_since s) v
    (foreground_slow_count s) (foreground_last_generation s) (current_sample s)
    (sampled_at_ s) (trigger_reasons s) (snapshot_now s) (cgroup_max_until s)
    (cgroup_oom_until s) (cgroup_max_delta s) (cgroup_oom_delta s).
Definition set_foreground_slow_count (v : Z) (s : State) : State :=
  mkState (controller_mode s) (status s) (reasons s) (throughput_scale s) (generation s)
    (pause_count s) (failure_count s) (recovery_started_at s) (stable_since s)
    (last_increase_at s) v (foreground_last_generation s) (current_sample s) (sampled_at_
    s) (trigger_reasons s) (snapshot_now s) (cgroup_max_until s) (cgroup_oom_until s)
    (cgroup_max_delta s) (cgroup_oom_delta s).
Definition set_foreground_last_generation (v : option Z) (s : State) : State :=
  mkState (controller_mode s) (status s) (reasons s) (throughput_scale s) (generation s)
    (pause_count s) (failure_count s) (recovery_started_at s) (stable_since s)
    (last_increase_at s) (foreground_slow_count s) v (current_sample s) (sampled_at_ s)
    (trigger_reasons s) (snapshot_now s) (cgroup_max_until s) (cgroup_oom_until s)
    (cgroup_max_delta s) (cgroup_oom_delta s).
Definition set_current_sample (v : option ResourceSample) (s : State) : State :=
  mkState (controller_mode s) (status s) (reasons s) (throughput_scale s) (generation s)
    (pause_count s) (failure_count s) (recovery_started_at s) (stable_since s)
    (last_increase_at s) (foreground_slow_count s) (foreground_last_generation s) v
    (sampled_at_ s) (trigger_reasons s) (snapshot_now s) (cgroup_max_until s)
    (cgroup_oom_until s) (cgroup_max_delta s) (cgroup_oom_delta s).
Definition set_sampled_at_ (v : option string) (s : State) : State :=
  mkState (controller_mode s) (status s) (reasons s) (throughput_scale s) (generation s)
    (pause_count s) (failure_count s) (recovery_started_at s) (stable_since s)
    (last_increase_at s) (foreground_slow_count s) (foreground_last_generation s)
    (current_sample s) v (trigger_reasons s) (snapshot_now s) (cgroup_max_until s)
    (cgroup_oom_until s) (cgroup_max_delta s) (cgroup_oom_delta s).
Definition set_trigger_reasons (v : list string) (s : State) : State :=
  mkState (controller_mode s) (status s) (reasons s) (throughput_scale s) (generation s)
    (pause_count s) (failure_count s) (recovery_started_at s) (stable_since s)
    (last_increase_at s) (foreground_slow_count s) (foreground_last_generation s)
    (current_sample s) (sampled_at_ s) v (snapshot_now s) (cgroup_max_until s)
    (cgroup_oom_until s) (cgroup_max_delta s) (cgroup_oom_delta s).
Definition set_snapshot_now (v : option Q) (s : State) : State :=
  mkState (controller_mode s) (status s) (reasons s) (throughput_scale s) (generation s)
    (pause_count s) (failure_count s) (recovery_started_at s) (stable_since s)
    (last_increase_at s) (foreground_slow_count s) (foreground_last_generation s)
    (current_sample s) (sampled_at_ s) (trigger_reasons s) v (cgroup_max_until s)
    (cgroup_oom_until s) (cgroup_max_delta s) (cgroup_oom_delta s).
Definition set_cgroup (max_until oom_until : Q) (max_delta oom_delta : Z) (s : State) : State :=
  mkState (controller_mode s) (status s) (reasons s) (throughput_scale s) (generation s)
    (pause_count s) (failure_count s) (recovery_started_at s) (stable_since s)
    (last_increase_at s) (foreground_slow_count s) (foreground_last_generation s)
    (current_sample s) (sampled_at_ s) (trigger_reasons s) (snapshot_now s) max_until
    oom_until max_delta oom_delta.

(** [ResourcePressureStateMachine.__init__] *)
Definition initial : State :=
  mkState normal "normal" [] 1 0 0 0 None None None 0 None None None [] None 0 0 0 0.

Definition _legacy_status (m : mode) : string :=
  match m with normal => "normal" | constrained => "warning" | critical => "paused" end.

Definition _set_mode (m : mode) (s : State) : State :=
  let s := if bool_decide (m ≠ controller_mode s) then set_generation (generation s + 1) s else s in
  set_status (_legacy_status m) (set_controller_mode m s).

Definition _set_scale (v : Q) (s : State) : State :=
  let v := round4 (qmax 0 (qmin 1 v)) in
  let s := if Qeq_bool v (throughput_scale s) then s else set_generation (generation s + 1) s in
  set_throughput_scale v s.

Definition min_scale (cfg : Settings) : Q := qmax (1 # 100) (qmin 1 (budget_min_scale cfg)).

Definition _decrease_budget (cfg : Settings) (s : State) : State :=
  let factor := qmax (5 # 100) (qmin (95 # 100) (budget_decrease_factor cfg)) in
  _set_scale (qmax (min_scale cfg) (throughput_scale s * factor)) s.

Definition _increase_budget (cfg : Settings) (now : Q) (s : State) : State :=
  let step := qmax (1 # 1000) (qmin (1 # 4) (budget_increase_step cfg)) in
  set_last_increase_at (Some now)
    (_set_scale (qmin 1 (qmax (min_scale cfg) (throughput_scale s) + step)) s).

Definition _reset_stable_window (s : State) : State := set_stable_since None s.

Definition stable_seconds (cfg : Settings) : Q := qmax 1 (budget_increase_stable_seconds cfg).

Definition _recover_budget_if_stable (cfg : Settings) (now : Q) (s : State) : State :=
  if Qle_bool 1 (throughput_scale s) then set_stable_since (Some (or_num (stable_since s) now)) s
  else match stable_since s with
  | None => set_stable_since (Some now) s
  | Some since =>
      if Qltb (now - since) (stable_seconds cfg) then s
      else if match last_increase_at s with
              | Some last => Qltb (now - last) (stable_seconds cfg)
              | None => false
              end then s
      else _increase_budget cfg now s
  end.

Definition restore_paused (t : PressureThresholds) (given : list string) (s : State) : State :=
  let s := _set_scale 0 (_set_mode critical s) in
  let rs := match given with [] => ["restored_pressure_latch"%string] | _ => given end in
  _reset_stable_window
    (set_recovery_started_at None
      (set_failure_count 0
        (set_pause_count (pause_samples t)
          (set_trigger_reasons rs (set_reasons rs s))))).

(** [reasons.append(name)] under a condition. *)
Definition reason_if (b : bool) (name : string) : list string := if b then [name] else [].

Definition _hard_reasons (t : PressureThresholds) (s : ResourceSample) : list string :=
  reason_if (memory_available_bytes s <? pause_available_bytes t) "memory_available_critical" ++
  reason_if (Qltb (swap_free_ratio s) (critical_swap_free_ratio t)) "swap_free_critical" ++
  reason_if (Qltb (swap_free_ratio s) (pause_swap_free_ratio t) &&
             match swap_activity_bytes_per_second s with
             | Some a => Qle_bool (swap_activity_limit t) a
             | None => false end &&
             match memory_available_change s with Some c => Qltb c 0 | None => false end)
            "swap_activity_critical" ++
  reason_if (match cgroup_memory_oom_kill_delta s with Some d => 0 <? d | None => false end)
            "cgroup_oom_kill".

Definition _soft_reasons (t : PressureThresholds) (s : ResourceSample) : list string :=
  let memory_psi_trigger := or_num (memory_psi_soft_trigger s) (pause_memory_psi t) in
  let io_psi_trigger := or_num (io_psi_soft_trigger s) (pause_io_psi t) in
  reason_if (memory_available_bytes s <? warning_available_bytes t) "memory_available_low" ++
  reason_if (Qltb (swap_free_ratio s) (warning_swap_free_ratio t)) "swap_free_low" ++
  reason_if (match memory_full_avg10 s with
             | Some v => Qle_bool memory_psi_trigger v | None => false end) "memory_psi_high" ++
  reason_if (match io_full_avg10 s with
             | Some v => Qle_bool io_psi_trigger v | None => false end) "io_psi_high".

Definition _hard_recovered (t : PressureThresholds) (s : ResourceSample) : bool :=
  (resume_available_bytes t <=? memory_available_bytes s) && bool_decide (_hard_reasons t s = []).

(** ** [update] *)

Definition delta_or_zero (d : option Z) : Z := Z.max 0 (default 0 d).

(** The local cgroup warnings. *)
Definition note_cgroup (x : ResourceSample) (now : Q) (s : State) : State :=
  let max_delta := delta_or_zero (cgroup_memory_max_delta x) in
  let oom_delta := delta_or_zero (cgroup_memory_oom_delta x) in
  set_cgroup
    (if max_delta =? 0 then cgroup_max_until s else now + LOCAL_CGROUP_WARNING_SECONDS)
    (if oom_delta =? 0 then cgroup_oom_until s else now + LOCAL_CGROUP_WARNING_SECONDS)
    (if max_delta =? 0 then cgroup_max_delta s else max_delta)
    (if oom_delta =? 0 then cgroup_oom_delta s else oom_delta) s.

(** [if sample is None] *)
Definition update_failure (t : PressureThresholds) (cfg : Settings) (s : State) : State :=
  let was_critical := bool_decide (controller_mode s = critical) in
  let s := set_reasons ["resource_metrics_unavailable"%string]
    (set_foreground_slow_count 0
      (_reset_stable_window
        (set_recovery_started_at None
          (set_pause_count 0
            (set_failure_count (failure_count s + 1) (set_current_sample None s)))))) in
  if failure_samples t <=? failure_count s then
    let s := _set_scale 0 (_set_mode critical s) in
    if was_critical then s else set_trigger_reasons ["resource_metrics_unavailable"%string] s
  else if was_critical then s
  else _decrease_budget cfg (_set_mode constrained s).

(** The foreground latency streak. *)
Definition note_foreground (cfg : Settings) (x : ResourceSample) (s : State) : State :=
  if foreground_sample_count x =? 0 then set_foreground_slow_count 0 s
  else if match foreground_last_generation s with
          | None => true
          | Some g => g <? foreground_sample_generation x
          end then
    let s := set_foreground_last_generation (Some (foreground_sample_generation x)) s in
    if match foreground_p95_ms x with
       | None => false
       | Some p => (Z.max 30 (foreground_min_samples cfg) <=? foreground_sample_count x) &&
                   Qltb (foreground_p95_limit_ms cfg) p
       end
    then set_foreground_slow_count (foreground_slow_count s + 1) s
    else set_foreground_slow_count 0 s
  else s.

(** [if self.controller_mode == "critical"] *)
Definition update_critical (t : PressureThresholds) (cfg : Settings) (x : ResourceSample)
    (now : Q) (soft : list string) (s : State) : State :=
  let s := _set_scale 0 s in
  match _hard_reasons t x with
  | _ :: _ => set_reasons (_hard_reasons t x)
                (_reset_stable_window (set_recovery_started_at None s))
  | [] =>
      if negb (_hard_recovered t x) then
        set_reasons (match soft with [] => ["recovery_threshold_not_met"%string] | _ => soft end)
          (set_recovery_started_at None s)
      else
        let started := default now (recovery_started_at s) in
        let s := set_recovery_started_at (Some started) s in
        if Qltb (now - started) (resume_seconds t) then
          set_reasons ("recovery_stabilizing"%string :: soft) s
        else
          let s := set_recovery_started_at None (set_pause_count 0 s) in
          let s := _set_mode (match soft with [] => normal | _ => constrained end) s in
          let s := set_trigger_reasons [] (set_reasons soft s) in
          match soft with
          | _ :: _ => _decrease_budget cfg (_reset_stable_window s)
          | [] => set_last_increase_at (Some now)
                    (set_stable_since (Some now) (_set_scale (min_scale cfg) s))
          end
  end.

(** [if hard_reasons] outside critical mode. *)
Definition update_hard (t : PressureThresholds) (cfg : Settings) (x : ResourceSample) (s : State)
    : State :=
  let hard := _hard_reasons t x in
  let s := _reset_stable_window s in
  let s := set_pause_count (if bool_decide ("cgroup_oom_kill"%string ∈ hard) then pause_samples t
                            else pause_count s + 1) s in
  let s := set_reasons hard s in
  if pause_samples t <=? pause_count s
  then set_trigger_reasons hard (_set_scale 0 (_set_mode critical s))
  else _decrease_budget cfg (_set_mode constrained s).

(** The last part: no hard reason, not critical. *)
Definition update_soft (cfg : Settings) (now : Q) (soft : list string) (s : State) : State :=
  let s := set_trigger_reasons [] (set_recovery_started_at None (set_pause_count 0 s)) in
  match soft with
  | _ :: _ => _decrease_budget cfg (set_reasons soft (_set_mode constrained (_reset_stable_window s)))
  | [] => _recover_budget_if_stable cfg now (set_reasons [] (_set_mode normal s))
  end.

Definition update_sample (t : PressureThresholds) (cfg : Settings) (x : ResourceSample) (now : Q)
    (s : State) : State :=
  let s := note_cgroup x now s in
  let s := set_sampled_at_ (match sampled_at x with
                            | Some a => if decide (a = ""%string) then sampled_at_ s else Some a
                            | None => sampled_at_ s end)
             (set_current_sample (Some x) s) in
  let s := note_foreground cfg x (set_failure_count 0 s) in
  let soft := _soft_reasons t x ++
    reason_if (Z.max 3 (foreground_slow_samples cfg) <=? foreground_slow_count s)
              "foreground_latency_high" in
  if bool_decide (controller_mode s = critical) then update_critical t cfg x now soft s
  else match _hard_reasons t x with
       | _ :: _ => update_hard t cfg x s
       | [] => update_soft cfg now soft s
       end.

(** [update(sample, now=now)]; [stamp] is the text of [datetime.now]. *)
Definition update (t : PressureThresholds) (cfg : Settings) (sample : option ResourceSample)
    (now : Q) (stamp : string) (s : State) : State :=
  let s := set_sampled_at_ (Some stamp) (set_snapshot_now (Some now) s) in
  match sample with
  | None => update_failure t cfg s
  | Some x => update_sample t cfg x now s
  end.

(** ** The published snapshot *)

Record ProfileBudget := mkBudget {
  pb_allowed : bool;
  pb_soft_enforced : bool;
  pb_reason : option string;
  pb_reservation_capacity : Z;
  pb_slice_seconds : option Q;
  pb_work_units : Z }.

Definition capped_scale (cfg : Settings) (s : State) : Q :=
  qmin (throughput_scale s) (qmax (1 # 100) (qmin 1 (governance_max_scale cfg))).

Definition _profile_budget (t : PressureThresholds) (cfg : Settings) (s : State)
    (p : ResourceProfile) : ProfileBudget :=
  let light := bool_decide (profile_name p = u "light") in
  let reason :=
    if light then None
    else if bool_decide (controller_mode s = critical) then Some "controller_critical"%string
    else match current_sample s with
         | None => Some "resource_metrics_unavailable"%string
         | Some x => if memory_available_bytes x - memory_reservation_bytes p <? pause_available_bytes t
                     then Some "profile_memory_reserve"%string else None
         end in
  let allowed := bool_decide (reason = None) in
  let soft_enforced := profile_soft_budget_enforced cfg (profile_name p) in
  let effective_scale :=
    if bool_decide (controller_mode s = critical) then 0%Q
    else if negb soft_enforced then 1%Q else capped_scale cfg s in
  let scale := if allowed then effective_scale else 0%Q in
  mkBudget allowed soft_enforced reason
    (match current_sample s with
     | Some x => Z.max 0 (memory_available_bytes x - pause_available_bytes t) | None => 0 end)
    ((λ b, round2 (b * qmax (1 # 10) scale)) <$> base_slice_seconds p)
    (Z.max 1 (py_trunc (inject_Z (base_work_units p) * qmax (1 # 10) scale))).

(** The parts of [snapshot()] that its consumers decide on. *)
Record Budget := mkBudgets {
  b_governance_mode : pystr;
  b_effective_scale : Q;
  b_read_bps : Z;
  b_write_bps : Z;
  b_profiles : list (pystr * ProfileBudget) }.

Record Snapshot := mkSnapshot {
  sn_status : string;
  sn_controller_mode : option mode;
  sn_budget : option Budget }.

Definition snapshot_governance (cfg : Settings) : pystr :=
  if bool_decide (lower (governance_mode cfg) = u "shadow") then u "shadow" else u "enforce".

Definition snapshot (t : PressureThresholds) (cfg : Settings) (s : State) : Snapshot :=
  let effective_scale :=
    if bool_decide (controller_mode s = critical) then 0%Q
    else if bool_decide (snapshot_governance cfg = u "shadow") then 1%Q
    else capped_scale cfg s in
  mkSnapshot (status s) (Some (controller_mode s))
    (Some (mkBudgets (snapshot_governance cfg) effective_scale
       (py_trunc (budget_base_read cfg * inject_Z MIB * effective_scale))
       (py_trunc (budget_base_write cfg * inject_Z MIB * effective_scale))
       ((λ p, (p.1, _profile_budget t cfg s p.2)) <$> RESOURCE_PROFILES))).

(** ** Consumers *)

(** [resource_profile_permit]: the permit, its reason, and whether it comes
    from a published profile. *)
Definition resource_profile_permit (sn : Snapshot) (workload : option pystr)
    : bool * option string :=
  let name := workload_profile_name workload in
  match sn_budget sn ≫= λ b, assoc name (b_profiles b) with
  | Some p => (pb_allowed p, pb_reason p)
  | None =>
      let allowed := negb (bool_decide (sn_status sn = "paused"%string)) in
      (allowed, if allowed then None else Some "legacy_pressure_pause"%string)
  end.

Record ResourceSliceLimits := mkLimits {
  sl_profile : pystr;
  sl_allowed : bool;
  sl_work_units : Z;
  sl_slice_seconds : option Q;
  sl_effective_scale : Q;
  sl_reason : option string }.

Definition default_profile : ResourceProfile := mkProfile (u "maintenance") (256 * MIB) (Some 20%Q) 1.

Definition profile_slice_limits (cfg : Settings) (sn : Snapshot) (workload : option pystr)
    (max_work_units : option Z) (max_slice_seconds : option Q) : ResourceSliceLimits :=
  let name := workload_profile_name workload in
  let base := default default_profile (assoc name RESOURCE_PROFILES) in
  let '(permitted, permit_reason) := resource_profile_permit sn workload in
  let paused := bool_decide (sn_status sn = "paused"%string) in
  let is_critical := match sn_controller_mode sn with
    | Some m => bool_decide (m = critical)
    | None => match sn_budget sn ≫= λ b, assoc name (b_profiles b) with
              | Some _ => paused
              | None => negb permitted
              end
    end in
  let published : option ProfileBudget := sn_budget sn ≫= λ b, assoc name (b_profiles b) in
  let enforce := match sn_budget sn with
    | Some b => negb (bool_decide (lower (b_governance_mode b) = u "shadow"))
    | None => true end in
  let allowed := permitted && negb is_critical && negb paused in
  let scale := match sn_budget sn with
    | Some b => qmax 0 (qmin 1 (b_effective_scale b)) | None => 1%Q end in
  if negb allowed then
    mkLimits name false 0 (Some 0%Q) (if is_critical then 0%Q else scale)
      (Some (default "resource_pressure"%string permit_reason))
  else
    let unit_cap := Z.max 1 (base_work_units base) in
    let unit_cap := match max_work_units with
      | Some m => Z.min unit_cap (Z.max 1 m) | None => unit_cap end in
    let seconds_cap := match max_slice_seconds with
      | None => base_slice_seconds base
      | Some m => let caller := qmax (1 # 1000) m in
                  Some (match base_slice_seconds base with
                        | None => caller | Some b => qmin b caller end)
      end in
    let soft_enforced := match published with Some p => pb_soft_enforced p | None => enforce end in
    if negb soft_enforced then mkLimits name true unit_cap seconds_cap 1 None
    else
      let scale := qmax (min_scale cfg) scale in
      let published_units := match published with
        | Some p => pb_work_units p
        | None => py_trunc (inject_Z (base_work_units base) * scale)
        end in
      let seconds := (λ cap,
        let published_seconds := match published ≫= pb_slice_seconds with
          | Some v => v | None => (cap * scale)%Q end in
        qmin cap (qmax (1 # 1000) published_seconds)) <$> seconds_cap in
      mkLimits name true (Z.min unit_cap (Z.max 1 published_units)) seconds scale None.

(** [profile_slice_cooldown_seconds]; [jitter] is the factor drawn by
    [random.uniform(0.85, 1.15)], when jitter is on. *)
Definition profile_slice_cooldown_seconds (cfg : Settings) (sn : Snapshot) (elapsed_seconds max_seconds : Q)
    (jitter : option Q) (workload : option pystr) : Q :=
  let governance := match sn_budget sn with
    | Some b => match b_governance_mode b with [] => u "enforce" | m => lower m end
    | None => u "enforce" end in
  let paused := bool_decide (sn_status sn = "paused"%string) in
  let is_critical := match sn_controller_mode sn with
    | Some m => bool_decide (m = critical) | None => paused end in
  let enforce := bool_decide (governance = u "enforce") in
  let enforce := match workload with
    | None => enforce
    | Some _ =>
        if match sn_budget sn ≫= λ b, assoc (workload_profile_name workload) (b_profiles b) with
           | Some p => pb_soft_enforced p | None => enforce end
        then enforce else false
    end in
  if negb enforce || is_critical || paused then 0
  else
    let elapsed := qmax 0 elapsed_seconds in
    let scale := match sn_budget sn with Some b => b_effective_scale b | None => 1%Q end in
    let cap := qmax 0 max_seconds in
    if Qle_bool elapsed 0 || Qle_bool cap 0 || Qle_bool 1 scale then 0
    else
      let scale := qmax (min_scale cfg) (qmin 1 scale) in
      let delay := (elapsed * (1 / scale - 1))%Q in
      let delay := match jitter with
        | Some f => if Qltb 0 delay then (delay * f)%Q else delay
        | None => delay end in
      round3 (qmin cap (qmax 0 delay)).

End Controller.
