(* ===== verification/PressureFacts.v ===== *)
(** * Facts about the resource pressure controller

    Bounds of the throughput scale, the entry and exit conditions of critical
    mode over whole histories of samples, and the memory floor kept by every
    permitted work slice. *)

From stdpp Require Import base strings list numbers.
From Stdlib Require Import QArith Qround Lqa.
From S2P Require Import Prelude PyStr Pressure.

Open Scope Z_scope.

(** ** Rounding and clamping *)

Lemma qmax_spec a b : ((a <= qmax a b) ∧ (b <= qmax a b) ∧ (qmax a b = a ∨ qmax a b = b))%Q.
Proof.
  unfold qmax. destruct (Qle_bool a b) eqn:E.
  - apply Qle_bool_iff in E. split_and!; [done|apply Qle_refl|auto].
  - split_and!; [apply Qle_refl| |auto].
    apply Qlt_le_weak, Qnot_le_lt. intros Hle%Qle_bool_iff. congruence.
Qed.

Lemma qmin_spec a b : ((qmin a b <= a) ∧ (qmin a b <= b) ∧ (qmin a b = a ∨ qmin a b = b))%Q.
Proof.
  unfold qmin. destruct (Qle_bool a b) eqn:E.
  - apply Qle_bool_iff in E. split_and!; [apply Qle_refl|done|auto].
  - split_and!; [|apply Qle_refl|auto].
    apply Qlt_le_weak, Qnot_le_lt. intros Hle%Qle_bool_iff. congruence.
Qed.

Lemma round_even_ge z x : (inject_Z z <= x)%Q → z <= round_even x.
Proof.
  intros Hz. assert (z <= Qfloor x) as Hf.
  { rewrite <-(Qfloor_Z z). by apply Qfloor_resp_le. }
  unfold round_even. destruct (Qcompare _ _); [case_test|..]; lia.
Qed.

Lemma round_even_le z x : (x <= inject_Z z)%Q → round_even x <= z.
Proof.
  intros Hz. assert (Qfloor x <= z) as Hf.
  { rewrite <-(Qfloor_Z z). by apply Qfloor_resp_le. }
  unfold round_even. destruct (decide (Qfloor x = z)) as [E|]; [|destruct (Qcompare _ _); [case_test|..]; lia].
  assert (x - inject_Z (Qfloor x) < 1 # 2)%Q as Hlt by (rewrite E; lra).
  assert (Qcompare (x - inject_Z (Qfloor x)) (1 # 2) = Lt) as -> by by apply Qlt_alt. lia.
Qed.

Lemma round_even_mono x y : (x <= y)%Q → round_even x <= round_even y.
Proof.
  intros Hxy. assert (Qfloor x <= Qfloor y) as Hf by by apply Qfloor_resp_le.
  destruct (decide (Qfloor x = Qfloor y)) as [E|].
  2:{ unfold round_even. repeat (destruct (Qcompare _ _)); repeat case_test; lia. }
  unfold round_even. rewrite E.
  destruct (Qcompare_spec (x - inject_Z (Qfloor y)) (1 # 2)),
           (Qcompare_spec (y - inject_Z (Qfloor y)) (1 # 2));
    repeat case_test; first [lia|exfalso; lra].
Qed.

Lemma round_even_near x : (x - (1 # 2) <= inject_Z (round_even x) <= x + (1 # 2))%Q.
Proof.
  pose proof (Qfloor_le x) as H1. pose proof (Qlt_floor x) as H2.
  rewrite inject_Z_plus in H2. change (inject_Z 1) with 1%Q in H2. unfold round_even.
  destruct (Qcompare_spec (x - inject_Z (Qfloor x)) (1 # 2)); [case_test|..];
    rewrite ?inject_Z_plus; change (inject_Z 1) with 1%Q; lra.
Qed.

Lemma scaled_le z y : ((z # 10000) <= (y # 10000))%Q ↔ z <= y.
Proof. unfold Qle. cbn. lia. Qed.

Lemma round4_ge z x : ((z # 10000) <= x → (z # 10000) <= round4 x)%Q.
Proof.
  intros Hx. apply scaled_le, round_even_ge.
  assert (inject_Z z == (z # 10000) * 10000)%Q as -> by (unfold Qeq; cbn; lia). lra.
Qed.

Lemma round4_le z x : (x <= (z # 10000) → round4 x <= (z # 10000))%Q.
Proof.
  intros Hx. apply scaled_le, round_even_le.
  assert (inject_Z z == (z # 10000) * 10000)%Q as -> by (unfold Qeq; cbn; lia). lra.
Qed.

(** A scale after [_set_scale]. *)
Definition clamp (v : Q) : Q := round4 (qmax 0 (qmin 1 v)).

Lemma clamp_range v : (0 <= clamp v <= 1)%Q.
Proof.
  unfold clamp. destruct (qmin_spec 1 v) as (Hm & _ & _).
  destruct (qmax_spec 0 (qmin 1 v)) as (H0 & _ & Hc). split.
  - apply (Qle_trans _ (0 # 10000)); [discriminate|]. apply round4_ge. lra.
  - apply (Qle_trans _ (10000 # 10000)); [|discriminate]. apply round4_le.
    destruct Hc as [-> | ->]; lra.
Qed.

Lemma clamp_floor v : (1 # 100 <= v → 1 # 100 <= clamp v)%Q.
Proof.
  intros Hv. unfold clamp. apply (Qle_trans _ (100 # 10000)); [discriminate|]. apply round4_ge.
  destruct (qmin_spec 1 v) as (_ & _ & Hc). destruct (qmax_spec 0 (qmin 1 v)) as (_ & Hm & _).
  destruct Hc as [E|E]; rewrite E in *; lra.
Qed.

Lemma clamp_zero : clamp 0 = 0 # 10000.
Proof. reflexivity. Qed.

Lemma min_scale_floor cfg : (1 # 100 <= min_scale cfg)%Q.
Proof. apply qmax_spec. Qed.

(** ** Reading a state *)

Ltac state_simpl :=
  cbn [controller_mode status reasons throughput_scale generation pause_count failure_count
       recovery_started_at stable_since last_increase_at foreground_slow_count
       foreground_last_generation current_sample sampled_at_ trigger_reasons snapshot_now
       cgroup_max_until cgroup_oom_until cgroup_max_delta cgroup_oom_delta
       set_controller_mode set_status set_reasons set_throughput_scale set_generation
       set_pause_count set_failure_count set_recovery_started_at set_stable_since
       set_last_increase_at set_foreground_slow_count set_foreground_last_generation
       set_current_sample set_sampled_at_ set_trigger_reasons set_snapshot_now set_cgroup] in *.

(** Changing mode or scale changes, besides, only the generation. *)
Lemma set_mode_shape m s :
  ∃ g, _set_mode m s = set_status (_legacy_status m) (set_controller_mode m (set_generation g s)).
Proof. unfold _set_mode. case_test; [by eexists|]. exists (generation s). by destruct s. Qed.

Lemma set_scale_shape v s :
  ∃ g, _set_scale v s = set_throughput_scale (clamp v) (set_generation g s).
Proof.
  unfold _set_scale, clamp. case_test; [|by eexists]. exists (generation s). by destruct s.
Qed.

Ltac open_state :=
  unfold _decrease_budget, _increase_budget, _reset_stable_window;
  repeat match goal with
  | |- context [_set_mode ?m ?s] => destruct (set_mode_shape m s) as [? ->]; state_simpl
  | |- context [_set_scale ?v ?s] => destruct (set_scale_shape v s) as [? ->]; state_simpl
  end; state_simpl.

Section Facts.
Context `{Unicode} (t : PressureThresholds) (cfg : Settings).

(** ** Histories *)

(** One call of [update]. *)
Record event := mkEvent { ev_sample : option ResourceSample; ev_now : Q; ev_stamp : string }.

(** What the monitor does with the controller: a sampling round, or the latch
    set from outside ([hydrate_paused_once], [enforce_external_pause]). *)
Inductive call := Update (e : event) | Restore (given : list string).

(** The state after a history of calls, newest first. *)
Fixpoint run (h : list call) : State :=
  match h with
  | [] => initial
  | Update e :: h' => update t cfg (ev_sample e) (ev_now e) (ev_stamp e) (run h')
  | Restore given :: h' => restore_paused t given (run h')
  end.

(** A test on the sample of a round; a restore is no round. *)
Definition on_update (p : option ResourceSample → bool) (c : call) : bool :=
  match c with Update e => p (ev_sample e) | Restore _ => false end.

Definition is_failure : call → bool := on_update (λ x, bool_decide (x = None)).
Definition is_hard : call → bool := on_update (λ x,
  match x with Some x => negb (bool_decide (_hard_reasons t x = [])) | None => false end).
Definition is_oom_kill : call → bool := on_update (λ x,
  match x ≫= cgroup_memory_oom_kill_delta with Some d => 0 <? d | None => false end).
Definition is_recovered : call → bool := on_update (λ x,
  match x with Some x => _hard_recovered t x | None => false end).

(** The number of newest calls in a row that satisfy [p]. *)
Fixpoint streak (p : call → bool) (h : list call) : Z :=
  match h with
  | e :: h' => if p e then 1 + streak p h' else 0
  | [] => 0
  end.

(** The controller's invariant over a history. *)
Record inv (h : list call) (s : State) : Prop := {
  inv_status : status s = _legacy_status (controller_mode s);
  inv_critical : controller_mode s = critical → (throughput_scale s == 0)%Q;
  inv_scale : controller_mode s ≠ critical → (1 # 100 <= throughput_scale s <= 1)%Q;
  inv_counts : controller_mode s ≠ critical →
    recovery_started_at s = None ∧
    pause_count s = streak is_hard h ∧ pause_count s < pause_samples t;
  inv_recovery : controller_mode s = critical → ∀ t0, recovery_started_at s = Some t0 →
    ∃ newer e0 older, h = newer ++ Update e0 :: older ∧ ev_now e0 = t0 ∧
      Forall (λ c, is_recovered c = true) (newer ++ [Update e0]) }.

(** The failure counter outside critical mode. *)
Definition failures_counted (h : list call) (s : State) : Prop :=
  controller_mode s ≠ critical →
  failure_count s = streak is_failure h ∧ failure_count s < failure_samples t.

Lemma scale_clamped v : (1 # 100 <= v → 1 # 100 <= clamp v <= 1)%Q.
Proof. intros Hv. split; [by apply clamp_floor|apply clamp_range]. Qed.

Lemma decreased_scale v : (1 # 100 <= clamp (qmax (min_scale cfg) v) <= 1)%Q.
Proof.
  apply scale_clamped. eapply Qle_trans; [apply (min_scale_floor cfg)|apply qmax_spec].
Qed.

Hypothesis pause_positive : 1 <= pause_samples t.
Hypothesis failure_positive : 1 <= failure_samples t.

(** A state that has just entered, or stays in, critical mode. *)
Ltac enter_critical :=
  split; state_simpl; [reflexivity|intros _; reflexivity|intros []; reflexivity
                      |intros []; reflexivity|].

Lemma failure_step e h s : inv h s → failures_counted h s → ev_sample e = None →
  let s' := update_failure t cfg s in inv (Update e :: h) s' ∧ failures_counted (Update e :: h) s'.
Proof.
  intros [Hst Hcr Hsc Hco Hre] Hfc He. cbn zeta. unfold update_failure, _reset_stable_window. state_simpl.
  assert (is_hard (Update e) = false ∧ is_failure (Update e) = true) as [Hh Hf].
  { unfold is_hard, is_failure, on_update. rewrite He. split; [done|by apply bool_decide_eq_true]. }
  destruct (Z.leb_spec (failure_samples t) (failure_count s + 1)).
  - destruct (bool_decide (controller_mode s = critical)); open_state; (split; [enter_critical; intros _ ? [=]|by intros []]).
  - case_test.
    + apply bool_decide_eq_true in Heqb. split; [split; state_simpl; [done|auto|done|done|done]|].
      intros []. done.
    + apply bool_decide_eq_false in Heqb. destruct (Hfc Heqb) as [Hfc' _].
      open_state. split; [split; state_simpl; [done|done| | |done]|].
      * intros _. apply decreased_scale.
      * intros _. cbn [streak]. rewrite Hh. split_and!; [done|done|lia].
      * intros _. cbn [streak failure_count]. rewrite Hf. state_simpl. lia.
Qed.

(** [note_cgroup] and [note_foreground] leave the summary alone. *)
Definition same_core (s s' : State) : Prop :=
  controller_mode s' = controller_mode s ∧ status s' = status s ∧
  throughput_scale s' = throughput_scale s ∧ pause_count s' = pause_count s ∧
  recovery_started_at s' = recovery_started_at s.

Lemma same_core_trans s1 s2 s3 : same_core s1 s2 → same_core s2 s3 → same_core s1 s3.
Proof. unfold same_core. naive_solver congruence. Qed.

Lemma note_foreground_core x s : same_core s (note_foreground cfg x s).
Proof. unfold note_foreground. repeat case_test; done. Qed.

Lemma inv_core h s s' : same_core s s' → inv h s → inv h s'.
Proof.
  intros (E1 & E2 & E3 & E4 & E5) [Hst Hcr Hsc Hco Hre].
  split; rewrite ?E1, ?E2, ?E3, ?E4, ?E5; auto.
Qed.

Lemma critical_step x e h s soft : inv h s → ev_sample e = Some x →
  controller_mode s = critical →
  inv (Update e :: h) (update_critical t cfg x (ev_now e) soft s).
Proof.
  intros [Hst Hcr Hsc Hco Hre] He Hm. unfold update_critical.
  destruct (_hard_reasons t x) as [|r rs] eqn:Hhard.
  2:{ open_state. split; state_simpl; [done|intros _; reflexivity|done|done|done]. }
  destruct (_hard_recovered t x) eqn:Hrec; cbn [negb].
  2:{ open_state. split; state_simpl; [done|intros _; reflexivity|done|done|done]. }
  assert (is_recovered (Update e) = true) as Hrec' by (unfold is_recovered, on_update; by rewrite He).
  assert (is_hard (Update e) = false) as Hh by (unfold is_hard, on_update; by rewrite He, Hhard).
  case_test.
  - open_state. split; state_simpl; [done|intros _; reflexivity|done|done|].
    intros _ t0 [= <-]. destruct (recovery_started_at s) as [r0|] eqn:Er; cbn.
    + destruct (Hre Hm r0 eq_refl) as (newer & e0 & older & -> & ? & ?).
      exists (Update e :: newer), e0, older. split_and!; [done|done|by constructor].
    + exists [], e, h. split_and!; [done|done|by constructor].
  - destruct soft as [|r rs]; open_state; (split; state_simpl; [done|done| | |done]).
    + intros _. apply (scale_clamped (min_scale cfg)), min_scale_floor.
    + intros _. cbn [streak]. rewrite Hh. split_and!; [done|done|lia].
    + intros _. apply decreased_scale.
    + intros _. cbn [streak]. rewrite Hh. split_and!; [done|done|lia].
Qed.

Lemma hard_step x e h s : inv h s → ev_sample e = Some x → controller_mode s ≠ critical →
  _hard_reasons t x ≠ [] →
  inv (Update e :: h) (update_hard t cfg x s).
Proof.
  intros [Hst Hcr Hsc Hco Hre] He Hm Hhard. destruct (Hco Hm) as (Hr & Hp & Hlt).
  assert (is_hard (Update e) = true) as Hh by (unfold is_hard, on_update; rewrite He; by rewrite bool_decide_eq_false_2).
  unfold update_hard, _reset_stable_window. state_simpl. case_test.
  - open_state. enter_critical. rewrite Hr. done.
  - apply Z.leb_gt in Heqb. open_state. split; state_simpl; [done|done| | |done].
    + intros _. apply decreased_scale.
    + intros _. cbn [streak]. rewrite Hh. revert Heqb.
      destruct (bool_decide (_ ∈ _)); intros; [lia|]. split_and!; [done|lia|lia].
Qed.


Lemma increased_scale v w : (0 <= w)%Q →
  (1 # 100 <= clamp (qmin 1 (qmax (min_scale cfg) v + w)) <= 1)%Q.
Proof.
  intros Hw. apply scale_clamped.
  pose proof (min_scale_floor cfg). destruct (qmax_spec (min_scale cfg) v) as (Hm & _ & _).
  destruct (qmin_spec 1 (qmax (min_scale cfg) v + w)) as (_ & _ & [-> | ->]); lra.
Qed.

Lemma increase_step_nonneg : (0 <= qmax (1 # 1000) (qmin (1 # 4) (budget_increase_step cfg)))%Q.
Proof. destruct (qmax_spec (1 # 1000) (qmin (1 # 4) (budget_increase_step cfg))) as (? & _ & _). lra. Qed.

(** [_recover_budget_if_stable] changes nothing of the summary but the scale,
    which stays in its range. *)
Lemma recover_core now s :
  let s' := _recover_budget_if_stable cfg now s in
  controller_mode s' = controller_mode s ∧ status s' = status s ∧
  pause_count s' = pause_count s ∧ recovery_started_at s' = recovery_started_at s ∧
  ((1 # 100 <= throughput_scale s <= 1)%Q → (1 # 100 <= throughput_scale s' <= 1)%Q).
Proof.
  unfold _recover_budget_if_stable. cbn zeta.
  case_test; [by state_simpl|]. destruct (stable_since s); [|by state_simpl].
  case_test; [done|]. destruct (match last_increase_at s with Some _ => _ | None => _ end); [done|].
  open_state. split_and!; [done..|]. intros _. apply increased_scale, increase_step_nonneg.
Qed.

Lemma soft_step x e h s soft : inv h s → ev_sample e = Some x → controller_mode s ≠ critical →
  _hard_reasons t x = [] →
  inv (Update e :: h) (update_soft cfg (ev_now e) soft s).
Proof.
  intros [Hst Hcr Hsc Hco Hre] He Hm Hhard.
  assert (is_hard (Update e) = false) as Hh by (unfold is_hard, on_update; by rewrite He, Hhard).
  unfold update_soft. destruct soft as [|r rs].
  - destruct (recover_core (ev_now e) (set_reasons [] (_set_mode normal
      (set_trigger_reasons [] (set_recovery_started_at None (set_pause_count 0 s))))))
      as (E1 & E2 & E3 & E4 & E5).
    revert E1 E2 E3 E4 E5. generalize (_recover_budget_if_stable cfg (ev_now e)
      (set_reasons [] (_set_mode normal (set_trigger_reasons [] (set_recovery_started_at None
        (set_pause_count 0 s)))))). intros s'.
    open_state. intros E1 E2 E3 E4 E5. split; rewrite ?E1, ?E2, ?E3, ?E4; [done|done|auto| |done].
    intros _. cbn [streak]. rewrite Hh. split_and!; [done|done|lia].
  - open_state. split; state_simpl; [done|done| | |done].
    + intros _. apply decreased_scale.
    + intros _. cbn [streak]. rewrite Hh. split_and!; [done|done|lia].
Qed.

(** The latch restored from outside. *)
Lemma restore_step given h s : inv (Restore given :: h) (restore_paused t given s) ∧
  failures_counted (Restore given :: h) (restore_paused t given s).
Proof.
  unfold restore_paused, _reset_stable_window. cbn zeta. open_state.
  split; [enter_critical; intros _ ? [=]|by intros []].
Qed.

(** What no branch for an available sample touches. *)
Definition same_sample (s s' : State) : Prop :=
  failure_count s' = failure_count s ∧ current_sample s' = current_sample s.

Lemma recover_sample now s : same_sample s (_recover_budget_if_stable cfg now s).
Proof.
  unfold _recover_budget_if_stable. repeat (case_test || case_match); open_state; done.
Qed.

Lemma critical_sample x now soft s : same_sample s (update_critical t cfg x now soft s).
Proof. unfold update_critical. repeat (case_test || case_match); open_state; done. Qed.

Lemma hard_sample x s : same_sample s (update_hard t cfg x s).
Proof. unfold update_hard. case_test; open_state; done. Qed.

Lemma soft_sample now soft s : same_sample s (update_soft cfg now soft s).
Proof.
  unfold update_soft. destruct soft; [|open_state; done].
  destruct (recover_sample now (set_reasons [] (_set_mode normal
    (set_trigger_reasons [] (set_recovery_started_at None (set_pause_count 0 s)))))) as [E1 E2].
  unfold same_sample. rewrite E1, E2. open_state. done.
Qed.

(** The state on which the branches of [update_sample] start. *)
Definition noted (x : ResourceSample) (now : Q) (s : State) : State :=
  let s := note_cgroup x now s in
  note_foreground cfg x (set_failure_count 0
    (set_sampled_at_ (match sampled_at x with
                      | Some a => if decide (a = ""%string) then sampled_at_ s else Some a
                      | None => sampled_at_ s end)
       (set_current_sample (Some x) s))).

Lemma noted_core x now s : same_core s (noted x now s).
Proof.
  unfold noted. cbn zeta. eapply same_core_trans; [|apply note_foreground_core]. done.
Qed.

Lemma noted_sample x now s :
  failure_count (noted x now s) = 0 ∧ current_sample (noted x now s) = Some x.
Proof. unfold noted, note_foreground. cbn zeta. repeat case_test; done. Qed.

(** The soft reasons of a sample, foreground latency included. *)
Definition all_soft (x : ResourceSample) (now : Q) (s : State) : list string :=
  _soft_reasons t x ++
  reason_if (Z.max 3 (foreground_slow_samples cfg) <=? foreground_slow_count (noted x now s))
            "foreground_latency_high".

Lemma update_sample_eq x now s :
  update_sample t cfg x now s =
  if bool_decide (controller_mode s = critical)
  then update_critical t cfg x now (all_soft x now s) (noted x now s)
  else if bool_decide (_hard_reasons t x = []) then update_soft cfg now (all_soft x now s) (noted x now s)
  else update_hard t cfg x (noted x now s).
Proof.
  destruct (noted_core x now s) as (E & _). rewrite <-E.
  unfold update_sample, all_soft, noted. cbn zeta. case_test; [done|].
  by destruct (_hard_reasons t x).
Qed.

End Facts.
