(* ===== verification/PressureControl.v ===== *)
(** * What the pressure controller promises

    The controller invariant, the exact conditions under which critical mode is
    entered and left, and the memory floor that every permitted work slice
    respects, all over arbitrary histories of [update] calls. *)

From stdpp Require Import base strings list numbers sets.
From Stdlib Require Import QArith Qround Lqa.
From S2P Require Import Prelude PyStr Pressure PressureFacts.

Open Scope Z_scope.

Section Control.
Context `{Unicode} (t : PressureThresholds) (cfg : Settings).
Hypothesis pause_samples_positive : 1 <= pause_samples t.
Hypothesis failure_samples_positive : 1 <= failure_samples t.

Lemma stamped_core s e :
  same_core s (set_sampled_at_ (Some (ev_stamp e)) (set_snapshot_now (Some (ev_now e)) s)).
Proof. done. Qed.

Lemma sample_step x e h s : inv t h s → ev_sample e = Some x →
  inv t (Update e :: h) (update_sample t cfg x (ev_now e) s).
Proof.
  intros Hi He. pose proof (noted_core cfg x (ev_now e) s) as Hc.
  pose proof (inv_core t h _ _ Hc Hi) as Hn. destruct Hc as (Em & _).
  rewrite update_sample_eq, <-Em. case_bool_decide as Hm.
  - by eapply critical_step; [apply pause_samples_positive|..].
  - case_bool_decide as Hh.
    + by eapply soft_step; [apply pause_samples_positive|..].
    + by eapply hard_step.
Qed.

(** An update with a sample stores it and clears the failure counter. *)
Lemma sample_stored x now s :
  failure_count (update_sample t cfg x now s) = 0 ∧
  current_sample (update_sample t cfg x now s) = Some x.
Proof.
  rewrite update_sample_eq. destruct (noted_sample cfg x now s) as [Ef Es].
  rewrite <-Ef, <-Es.
  case_bool_decide; [apply critical_sample|case_bool_decide; [apply soft_sample|apply hard_sample]].
Qed.

Lemma update_step e h s : inv t h s → failures_counted t h s →
  let s' := update t cfg (ev_sample e) (ev_now e) (ev_stamp e) s in
  inv t (Update e :: h) s' ∧ failures_counted t (Update e :: h) s'.
Proof.
  intros Hi Hf. pose proof (inv_core t h _ _ (stamped_core s e) Hi) as Hi'.
  unfold update. cbn zeta. destruct (ev_sample e) as [x|] eqn:He.
  - split; [by apply sample_step|]. intros _. destruct (sample_stored x (ev_now e)
      (set_sampled_at_ (Some (ev_stamp e)) (set_snapshot_now (Some (ev_now e)) s))) as [-> _].
    cbn [streak]. unfold is_failure, on_update. rewrite He. cbn.
    lia.
  - apply (failure_step t cfg pause_samples_positive); [done|exact Hf|done].
Qed.

Lemma run_inv h : inv t h (run t cfg h) ∧ failures_counted t h (run t cfg h).
Proof.
  induction h as [|[e|given] h [IH1 IH2]]; [|by apply update_step|apply restore_step].
  split; [split; cbn; [done|done|intros _; lra|intros _; split_and!; [done|done|lia]|done]|].
  intros _. cbn. lia.
Qed.

(** A failed reading drops the sample; it ends in critical mode when it was
    there before or the failures have reached their limit. *)
Lemma failure_effect s :
  current_sample (update_failure t cfg s) = None ∧
  (controller_mode (update_failure t cfg s) = critical ↔
   controller_mode s = critical ∨ failure_samples t <= failure_count s + 1).
Proof.
  unfold update_failure. cbn zeta.
  match goal with |- context [set_reasons ?r ?x] =>
    assert (current_sample (set_reasons r x) = None ∧
            controller_mode (set_reasons r x) = controller_mode s ∧
            failure_count (set_reasons r x) = failure_count s + 1) as E by (by split_and!);
    revert E; generalize (set_reasons r x); intros s' (E1 & E2 & E3) end.
  rewrite E3. destruct (Z.leb_spec (failure_samples t) (failure_count s + 1));
    case_bool_decide; open_state; rewrite ?E1, ?E2; split; [done|naive_solver lia..].
Qed.

Lemma run_sample e h : current_sample (run t cfg (Update e :: h)) = ev_sample e.
Proof.
  cbn [run]. unfold update. destruct (ev_sample e) as [x|].
  - destruct (sample_stored x (ev_now e) (set_sampled_at_ (Some (ev_stamp e))
      (set_snapshot_now (Some (ev_now e)) (run t cfg h)))) as [_ E]. exact E.
  - apply failure_effect.
Qed.

Lemma oom_kill_reason x :
  "cgroup_oom_kill"%string ∈ _hard_reasons t x ↔
  match cgroup_memory_oom_kill_delta x with Some d => 0 <? d | None => false end = true.
Proof.
  unfold _hard_reasons, reason_if. rewrite !elem_of_app.
  destruct (match cgroup_memory_oom_kill_delta x with Some _ => _ | None => _ end);
    repeat case_test; set_solver.
Qed.

(** Which branches end in critical mode. *)
Lemma critical_after_hard x s :
  controller_mode (update_hard t cfg x s) = critical ↔
  "cgroup_oom_kill"%string ∈ _hard_reasons t x ∨ pause_samples t <= pause_count s + 1.
Proof.
  unfold update_hard. cbn zeta.
  match goal with |- context [set_reasons ?r ?y] =>
    assert (pause_count (set_reasons r y) =
      if bool_decide ("cgroup_oom_kill"%string ∈ _hard_reasons t x) then pause_samples t
      else pause_count s + 1) as E by reflexivity;
    revert E; generalize (set_reasons r y); intros s' -> end.
  case_bool_decide; case_test; open_state.
  - naive_solver.
  - apply Z.leb_gt in Heqb. lia.
  - apply Z.leb_le in Heqb. naive_solver.
  - apply Z.leb_gt in Heqb. split; [done|]. intros [|]; [done|lia].
Qed.

Lemma critical_exit x now soft s :
  controller_mode (update_critical t cfg x now soft s) ≠ critical → controller_mode s = critical →
  _hard_recovered t x = true ∧
  (resume_seconds t <= now - default now (recovery_started_at s))%Q.
Proof.
  intros Hn Hm. revert Hn. unfold update_critical, _reset_stable_window. cbn zeta.
  destruct (_hard_reasons t x); [|open_state; by intros []].
  destruct (_hard_recovered t x); cbn [negb]; [|open_state; by intros []].
  open_state. case_test; [state_simpl; by intros []|]. intros _. split; [done|].
  by apply Qltb_ge.
Qed.

Lemma soft_not_critical now soft s : controller_mode (update_soft cfg now soft s) ≠ critical.
Proof.
  unfold update_soft. destruct soft; [|by open_state].
  destruct (recover_core cfg now (set_reasons [] (_set_mode normal
    (set_trigger_reasons [] (set_recovery_started_at None (set_pause_count 0 s)))))) as (-> & _).
  by open_state.
Qed.

Lemma legacy_paused m : _legacy_status m = "paused"%string ↔ m = critical.
Proof. by destruct m. Qed.

(** C40: after any history of [update] and [restore_paused] calls the published status is the legacy
    name of the controller mode, work is stopped (scale zero) exactly in
    critical mode, and otherwise the throughput scale lies between one percent
    and full speed. *)
Theorem controller_invariant h :
  let s := run t cfg h in
  status s = _legacy_status (controller_mode s) ∧
  ((throughput_scale s == 0)%Q ↔ controller_mode s = critical) ∧
  (controller_mode s ≠ critical → (1 # 100 <= throughput_scale s <= 1)%Q) ∧
  (status s = "paused"%string ↔ (throughput_scale s == 0)%Q).
Proof.
  cbn zeta. destruct (run_inv h) as [[Hst Hcr Hsc _ _] _].
  assert ((throughput_scale (run t cfg h) == 0)%Q ↔ controller_mode (run t cfg h) = critical) as Hz.
  { split; [|done]. intros Hz. destruct (decide (controller_mode (run t cfg h) = critical)) as [|Hm];
      [done|]. specialize (Hsc Hm). lra. }
  split_and!; [done|done|done|]. rewrite Hz, Hst. apply legacy_paused.
Qed.

(** Outside critical mode, an [update] call enters it exactly when the
    metrics have been unavailable for [failure_samples] calls in a row, the
    sample reports an out-of-memory kill, or hard reasons have been present
    for [pause_samples] samples in a row. *)
Theorem enters_critical_exactly e h :
  controller_mode (run t cfg h) ≠ critical →
  controller_mode (run t cfg (Update e :: h)) = critical ↔
  failure_samples t <= streak is_failure (Update e :: h) ∨
  is_oom_kill (Update e) = true ∨ pause_samples t <= streak (is_hard t) (Update e :: h).
Proof.
  intros Hm. destruct (run_inv h) as [[_ _ _ Hco _] Hf]. destruct (Hco Hm) as (_ & Hp & _).
  destruct (Hf Hm) as [Hfc _]. clear Hco Hf.
  cbn [run streak]. unfold update, is_failure, is_oom_kill, is_hard, on_update.
  destruct (ev_sample e) as [x|] eqn:He.
  - rewrite bool_decide_eq_false_2 by done. rewrite update_sample_eq. state_simpl.
    rewrite bool_decide_eq_false_2 by done. cbn [mbind option_bind]. rewrite <-oom_kill_reason.
    case_bool_decide as Hh; cbn [negb].
    + split; [by intros ?%soft_not_critical|]. rewrite Hh, elem_of_nil. lia.
    + rewrite critical_after_hard. destruct (noted_core cfg x (ev_now e)
        (set_sampled_at_ (Some (ev_stamp e)) (set_snapshot_now (Some (ev_now e)) (run t cfg h))))
        as (_ & _ & _ & -> & _). state_simpl. rewrite Hp, Z.add_comm. split; [tauto|]. intros [|]; [lia|done].
  - rewrite bool_decide_eq_true_2 by done. destruct (failure_effect (set_sampled_at_ (Some (ev_stamp e))
      (set_snapshot_now (Some (ev_now e)) (run t cfg h)))) as [_ ->]. state_simpl.
    rewrite Hfc, Z.add_comm. naive_solver lia.
Qed.

(** Critical mode is left only after an unbroken run of samples, each
    with memory back above the resume threshold and no hard reason, that spans
    at least [resume_seconds]. *)
Theorem leaves_critical_recovered e h :
  controller_mode (run t cfg h) = critical →
  controller_mode (run t cfg (Update e :: h)) ≠ critical →
  ∃ newer e0 older, Update e :: h = newer ++ Update e0 :: older ∧
    Forall (λ c, is_recovered t c = true) (newer ++ [Update e0]) ∧
    (resume_seconds t <= ev_now e - ev_now e0)%Q.
Proof.
  intros Hm. destruct (run_inv h) as [[_ _ _ _ Hre] _]. specialize (Hre Hm).
  cbn [run]. unfold update. destruct (ev_sample e) as [x|] eqn:He.
  - rewrite update_sample_eq. state_simpl. rewrite bool_decide_eq_true_2 by done.
    intros Hn. apply critical_exit in Hn as (Hrec & Hspan).
    2:{ by destruct (noted_core cfg x (ev_now e) (set_sampled_at_ (Some (ev_stamp e))
          (set_snapshot_now (Some (ev_now e)) (run t cfg h)))) as (-> & _). }
    destruct (noted_core cfg x (ev_now e) (set_sampled_at_ (Some (ev_stamp e))
      (set_snapshot_now (Some (ev_now e)) (run t cfg h)))) as (_ & _ & _ & _ & Er).
    rewrite Er in Hspan. state_simpl.
    assert (is_recovered t (Update e) = true) as Hrec' by (unfold is_recovered, on_update; by rewrite He).
    destruct (recovery_started_at (run t cfg h)) as [r0|].
    + destruct (Hre r0 eq_refl) as (newer & e0 & older & -> & <- & Hall).
      exists (Update e :: newer), e0, older. split_and!; [done|by constructor|done].
    + exists [], e, h. split_and!; [done|by constructor|done].
  - intros []. apply failure_effect. by left.
Qed.
End Control.
