(* ===== verification/PressureSlices.v ===== *)
(** * Work slices under resource pressure

    Which workloads the published snapshot admits, how large an admitted slice
    may be, and the ordering of the automatic memory thresholds. *)

From stdpp Require Import base strings list numbers sets.
From Stdlib Require Import QArith Qround Lqa.
From S2P Require Import Prelude PyStr Pressure PressureFacts PressureControl.

Open Scope Z_scope.

Section Slices.
Context `{Unicode} (t : PressureThresholds) (cfg : Settings).

(** ** Profiles *)

Definition profile_known (name : pystr) : Prop :=
  ∃ p, assoc name RESOURCE_PROFILES = Some p ∧ profile_name p = name.

(** Every alias and every built-in answer names a profile. *)
Lemma aliases_known : Forall (λ a, profile_known a.2) RESOURCE_PROFILE_ALIASES.
Proof. repeat constructor; eexists; split; vm_compute; reflexivity. Qed.

Lemma builtin_known : Forall (λ n, profile_known (u n))
  ["light"; "download_network"; "import_db"; "image_derive"; "video_derive"; "search_index";
   "git_projection"; "maintenance"]%string.
Proof. repeat constructor; eexists; split; vm_compute; reflexivity. Qed.

Lemma workload_known w : profile_known (workload_profile_name w).
Proof.
  unfold workload_profile_name. cbn zeta.
  set (n := replace_char _ _ _). clearbody n. clear w.
  destruct (assoc n RESOURCE_PROFILE_ALIASES) as [d|] eqn:E.
  - apply assoc_elem_of in E. pose proof aliases_known as Hk. rewrite Forall_forall in Hk.
    by apply (Hk (n, d)).
  - pose proof builtin_known as Hk. rewrite Forall_forall in Hk.
    repeat (case_test; [apply Hk; by repeat constructor|]). apply Hk. by repeat constructor.
Qed.

(** ** Permits *)

Hypothesis pause_samples_positive : 1 <= pause_samples t.
Hypothesis failure_samples_positive : 1 <= failure_samples t.

(** The reading that a profile needs: nothing for light work; otherwise the
    newest sample with the pause threshold still free beside the reservation. *)
Definition memory_floor_kept (e : event) (p : ResourceProfile) : Prop :=
  profile_name p = u "light" ∨
  ∃ x, ev_sample e = Some x ∧
    pause_available_bytes t <= memory_available_bytes x - memory_reservation_bytes p.

Lemma budget_allowed s e p : current_sample s = ev_sample e →
  pb_allowed (_profile_budget t cfg s p) = true ↔
  profile_name p = u "light" ∨ (controller_mode s ≠ critical ∧ memory_floor_kept e p).
Proof.
  intros Hs. unfold _profile_budget, memory_floor_kept. cbn [pb_allowed].
  rewrite Hs, bool_decide_eq_true.
  case_bool_decide as Hl; [naive_solver|]. case_bool_decide as Hm; [naive_solver|]. destruct (ev_sample e) as [x|]; [|naive_solver].
  destruct (Z.ltb_spec (memory_available_bytes x - memory_reservation_bytes p)
    (pause_available_bytes t)); naive_solver lia.
Qed.

(** What [profile_slice_limits] makes of a published profile. *)
Lemma slice_of_budget sn b m pb p workload max_units max_seconds :
  let name := workload_profile_name workload in
  let l := profile_slice_limits cfg sn workload max_units max_seconds in
  sn_budget sn = Some b → sn_controller_mode sn = Some m → sn_status sn = _legacy_status m →
  assoc name (b_profiles b) = Some pb → assoc name RESOURCE_PROFILES = Some p →
  sl_allowed l = pb_allowed pb && negb (bool_decide (m = critical)) ∧
  (sl_allowed l = true → 1 <= sl_work_units l <= Z.max 1 (base_work_units p) ∧
     (∀ k, max_units = Some k → sl_work_units l <= Z.max 1 k)) ∧
  (sl_allowed l = false → sl_work_units l = 0 ∧ is_Some (sl_reason l)).
Proof.
  cbn zeta. intros Hb Hm Hst Hpb Hp. unfold profile_slice_limits, resource_profile_permit.
  rewrite Hb, Hm. cbn [mbind option_bind]. rewrite Hpb, Hp, Hst. cbn [default from_option].
  assert (bool_decide (_legacy_status m = "paused"%string) = bool_decide (m = critical)) as ->
    by (apply bool_decide_ext, legacy_paused).
  destruct (pb_allowed pb), (bool_decide (m = critical)); cbn [andb negb];
    [split_and!; cbn; [done|done|by eauto]| |split_and!; cbn; [done|done|by eauto]..].
  destruct (pb_soft_enforced pb); cbn; (split; [done|]); (split; [|done]); intros _;
    destruct max_units as [k|]; (split; [lia|]); intros ? [=]; subst; lia.
Qed.

(** A work slice is admitted exactly when the controller is not critical
    and, for anything but light work, the newest sample leaves the pause
    threshold free after the profile's memory reservation; an admitted slice
    has at least one unit and at most the profile's and the caller's limits;
    a refused slice has none and says why. *)
Theorem slice_admission e h workload max_units max_seconds :
  let s := run t cfg (Update e :: h) in
  let l := profile_slice_limits cfg (snapshot t cfg s) workload max_units max_seconds in
  ∃ p, assoc (workload_profile_name workload) RESOURCE_PROFILES = Some p ∧
    (sl_allowed l = true ↔ controller_mode s ≠ critical ∧ memory_floor_kept e p) ∧
    (sl_allowed l = true → 1 <= sl_work_units l <= Z.max 1 (base_work_units p) ∧
       (∀ m, max_units = Some m → sl_work_units l <= Z.max 1 m)) ∧
    (sl_allowed l = false → sl_work_units l = 0 ∧ is_Some (sl_reason l)).
Proof.
  cbn zeta. destruct (workload_known workload) as (p & Hp & Hname). exists p. split; [done|].
  pose proof (budget_allowed (run t cfg (Update e :: h)) e p (run_sample t cfg e h)) as Ha.
  destruct (run_inv t cfg pause_samples_positive failure_samples_positive (Update e :: h)) as [[Hst _ _ _ _] _].
  revert Ha Hst. generalize (run t cfg (Update e :: h)). intros s Ha Hst.
  pose proof (assoc_map (_profile_budget t cfg s) (workload_profile_name workload) RESOURCE_PROFILES)
    as Hb. rewrite Hp in Hb.
  destruct (slice_of_budget (snapshot t cfg s) (default (mkBudgets [] 0 0 0 []) (sn_budget (snapshot t cfg s)))
    (controller_mode s) (_profile_budget t cfg s p) p workload max_units max_seconds) as (El & Hin & Hout);
    [done|done|done|exact Hb|done|].
  split; [|done]. rewrite El, andb_true_iff, Ha, negb_true_iff, bool_decide_eq_false.
  unfold memory_floor_kept. clear. tauto.
Qed.

(** C26: [workload_profile_name] always names a profile of the table, so no
    workload falls back to an unlisted budget, and it maps every profile name
    to itself. *)
Theorem workload_name_total w :
  is_Some (assoc (workload_profile_name w) RESOURCE_PROFILES) ∧
  Forall (λ p, workload_profile_name (Some p.1) = p.1) RESOURCE_PROFILES.
Proof.
  split; [destruct (workload_known w) as (p & -> & _); by eexists|].
  repeat constructor; unfold workload_profile_name; cbn [fst];
    cbn zeta; (rewrite lower_ascii by reflexivity); vm_compute; reflexivity.
Qed.

(** ** Thresholds *)

Lemma py_trunc_spec x : (0 <= x)%Q →
  (inject_Z (py_trunc x) <= x ∧ x < inject_Z (py_trunc x) + 1)%Q.
Proof.
  intros Hx. unfold py_trunc. apply Qle_bool_iff in Hx as ->.
  split; [apply Qfloor_le|]. rewrite <-(inject_Z_plus _ 1). apply Qlt_floor.
Qed.

Lemma reserve_bounds total ratio lo hi :
  Z.max (128 * MIB) lo <= automatic_memory_reserve_bytes total ratio lo hi
                       <= Z.max (Z.max (128 * MIB) lo) hi.
Proof. unfold automatic_memory_reserve_bytes. lia. Qed.

(** With an automatic reserve and a known amount of memory, the reserve is
    at least 128 MiB and within its configured bounds, and the three memory
    thresholds are strictly ordered: pause below warning below resume. *)
Theorem automatic_thresholds_ordered total :
  lower (strip (memory_reserve_mode cfg)) = u "auto" → 0 < total →
  let th := thresholds_from_settings cfg (Some total) in
  128 * MIB <= pause_available_bytes th ∧
  pause_available_bytes th <= Z.max (Z.max (128 * MIB) (memory_reserve_min_mb cfg * MIB))
                                    (memory_reserve_max_mb cfg * MIB) ∧
  pause_available_bytes th < warning_available_bytes th < resume_available_bytes th ∧
  1 <= pause_samples th ∧ 1 <= failure_samples th.
Proof.
  intros Hmode Htotal. cbn zeta. unfold thresholds_from_settings. cbn zeta.
  rewrite (bool_decide_eq_true_2 _ Hmode), (bool_decide_eq_true_2 (Z.max 0 total ≠ 0)) by lia.
  cbn [andb pause_available_bytes warning_available_bytes resume_available_bytes
       pause_samples failure_samples].
  pose proof (reserve_bounds (Z.max 0 total) (memory_reserve_ratio cfg)
    (memory_reserve_min_mb cfg * MIB) (memory_reserve_max_mb cfg * MIB)) as Hb.
  set (p := automatic_memory_reserve_bytes _ _ _ _) in *. clearbody p.
  assert (1 <= MIB) as Hmib by by vm_compute.
  assert (0 < p) as Hp by lia. assert (inject_Z 10 <= inject_Z p)%Q as Hq.
  { rewrite <-Zle_Qle. assert (10 <= 128 * MIB) by by vm_compute. lia. }
  change (inject_Z 10) with 10%Q in Hq.
  destruct (py_trunc_spec (inject_Z p * (12 # 10))) as [Hw1 Hw2]; [lra|].
  destruct (py_trunc_spec (inject_Z p * (14 # 10))) as [Hr1 Hr2]; [lra|].
  assert (py_trunc (inject_Z p * (12 # 10)) < py_trunc (inject_Z p * (14 # 10))) as Hlt.
  { rewrite Zlt_Qlt. lra. }
  split_and!; lia.
Qed.

(** ** Cooldown *)

Lemma round3_near x : (x - (1 # 2000) <= round3 x <= x + (1 # 2000))%Q.
Proof.
  unfold round3. pose proof (round_even_near (x * 1000)) as Hn.
  assert ((round_even (x * 1000) # 1000) == inject_Z (round_even (x * 1000)) * (1 # 1000))%Q as ->
    by (unfold Qeq; cbn; lia). lra.
Qed.

(** What a snapshot must say for the cooldown to apply. *)
Definition enforced_for (b : Budget) (workload : option pystr) : Prop :=
  lower (b_governance_mode b) = u "enforce" ∧
  match workload with
  | None => True
  | Some _ => ∃ p, assoc (workload_profile_name workload) (b_profiles b) = Some p ∧
                   pb_soft_enforced p = true
  end.

Lemma qmax_0 x : (0 <= x)%Q → qmax 0 x = x.
Proof. intros Hx. unfold qmax. by apply Qle_bool_iff in Hx as ->. Qed.

Lemma slice_scale_range v : (0 < qmax (min_scale cfg) (qmin 1 v) <= 1)%Q.
Proof.
  pose proof (min_scale_floor cfg).
  destruct (qmax_spec (min_scale cfg) (qmin 1 v)) as (H1 & _ & H2).
  destruct (qmin_spec 1 v) as (H3 & _ & _). split; [lra|].
  destruct H2 as [-> | ->]; [|done]. unfold min_scale in *.
  destruct (qmax_spec (1 # 100) (qmin 1 (budget_min_scale cfg))) as (_ & _ & H4).
  destruct (qmin_spec 1 (budget_min_scale cfg)) as (H5 & _ & _). destruct H4 as [-> | ->]; lra.
Qed.

(** After an enforced slice of [elapsed] seconds under a reduced scale,
    the cooldown keeps the duty cycle: to half a millisecond it is the idle
    time that makes the active share equal to the scale (but at least the
    minimum scale), cut at the caller's limit. *)
Theorem cooldown_duty_cycle sn b m elapsed cap workload :
  sn_budget sn = Some b → sn_controller_mode sn = Some m → sn_status sn = _legacy_status m →
  m ≠ critical → enforced_for b workload → (b_effective_scale b < 1)%Q →
  (0 < elapsed)%Q → (0 < cap)%Q →
  let d := profile_slice_cooldown_seconds cfg sn elapsed cap None workload in
  let scale := qmax (min_scale cfg) (qmin 1 (b_effective_scale b)) in
  ∃ idle, (elapsed == scale * (elapsed + idle))%Q ∧
    (qmin cap idle - (1 # 2000) <= d <= qmin cap idle + (1 # 2000))%Q.
Proof.
  intros Hb Hm Hst Hnc [Hg Hw] Hscale He Hc. cbn zeta. unfold profile_slice_cooldown_seconds. cbn zeta.
  rewrite Hb, Hm, Hst. cbn [mbind option_bind].
  rewrite (bool_decide_eq_false_2 (m = critical)) by done.
  rewrite (bool_decide_eq_false_2 (_legacy_status m = _)) by by rewrite legacy_paused.
  assert (match b_governance_mode b with [] => u "enforce" | x :: l => lower (x :: l) end = u "enforce") as ->
    by by destruct (b_governance_mode b).
  rewrite (bool_decide_eq_true_2 (u "enforce" = u "enforce")) by done.
  assert (match workload with
    | Some _ => if match assoc (workload_profile_name workload) (b_profiles b) with
                   | Some p => pb_soft_enforced p | None => true end then true else false
    | None => true end = true) as ->.
  { destruct workload; [|done]. destruct Hw as (p & -> & ->). done. }
  rewrite !qmax_0 by lra. cbn [negb orb].
  assert (Qle_bool elapsed 0 || Qle_bool cap 0 || Qle_bool 1 (b_effective_scale b) = false) as ->.
  { assert (∀ x y, (x < y)%Q → Qle_bool y x = false) as Hlt
      by (intros x y Hxy; apply negb_true_iff; by apply Qltb_lt).
    by rewrite !Hlt. }
  pose proof (slice_scale_range (b_effective_scale b)) as Hs.
  set (scale := qmax _ _) in *.
  assert (0 <= elapsed * (1 / scale - 1))%Q as Hd.
  { assert (1 <= 1 / scale)%Q; [|nra]. apply Qle_shift_div_l; lra. }
  rewrite qmax_0 by done. exists (elapsed * (1 / scale - 1))%Q. split; [field; lra|apply round3_near].
Qed.
End Slices.
