(* ===== verification/PressureBaseline.v ===== *)
(** * The learned pressure baseline

    [PressureBaselineWindow] of [backend/app/services/resource_pressure.py]: a
    bounded window of idle pressure readings, its percentiles, and the soft
    trigger it lends to the controller; and the cooldown between work slices.

    The clock is an argument.  [hydrate] receives the decoded payload: one
    entry per JSON sample, [None] where the conversion to numbers fails. *)

From stdpp Require Import base strings list numbers sorting.
From Stdlib Require Import QArith Qround Lqa.
From S2P Require Import Prelude PyStr Pressure PressureFacts.

Open Scope Z_scope.

Definition PRESSURE_BASELINE_WINDOW_SECONDS : Z := 24 * 60 * 60.
Definition PRESSURE_BASELINE_SAMPLE_SECONDS : Q := 60.
Definition PRESSURE_BASELINE_MIN_SAMPLES : Z := 10.
Definition PRESSURE_BASELINE_PERSIST_SECONDS : Q := 300.

(** [maxlen] of the deque. *)
Definition BASELINE_MAXLEN : nat := Z.to_nat (PRESSURE_BASELINE_WINDOW_SECONDS / 60 + 16).

(** One reading: time, memory and io pressure. *)
Record reading_at := mkReading { r_at : Q; r_memory : option Q; r_io : option Q }.

Record Window := mkWindow {
  w_samples : list reading_at;   (** oldest first *)
  w_hydrated : bool;
  w_dirty : bool;
  w_last_persisted_at : Q;
  w_last_observed_at : Q }.

Definition fresh_window : Window := mkWindow [] false false 0 0.

(** [deque.append] and [deque(l)] with [maxlen]: the oldest entries go. *)
Definition bounded {A} (l : list A) : list A := drop (length l - BASELINE_MAXLEN) l.
Definition deque_append {A} (l : list A) (x : A) : list A := bounded (l ++ [x]).

(** [sorted(l, key=...)], a stable sort. *)
Fixpoint insert_by {A} (key : A → Q) (x : A) (l : list A) : list A :=
  match l with
  | [] => [x]
  | y :: l' => if Qltb (key y) (key x) then y :: insert_by key x l' else x :: y :: l'
  end.
Definition sort_by {A} (key : A → Q) (l : list A) : list A := foldr (insert_by key) [] l.

Definition cutoff (now : Q) : Q := (now - inject_Z PRESSURE_BASELINE_WINDOW_SECONDS)%Q.

(** The loop of [_prune]: the kept samples and whether one was dropped. *)
Fixpoint prune_samples (c : Q) (l : list reading_at) : list reading_at * bool :=
  match l with
  | [] => ([], false)
  | r :: l' => if Qltb (r_at r) c then ((prune_samples c l').1, true) else (l, false)
  end.

Definition _prune (now : Q) (w : Window) : Window :=
  let '(kept, dropped) := prune_samples (cutoff now) (w_samples w) in
  mkWindow kept (w_hydrated w) (w_dirty w || dropped) (w_last_persisted_at w) (w_last_observed_at w).

(** Whether [hydrate] keeps an entry. *)
Definition hydrate_keeps (now : Q) (r : reading_at) : bool :=
  negb (Qltb (r_at r) (cutoff now) || Qltb (now + 300) (r_at r)) &&
  negb (bool_decide (r_memory r = None) && bool_decide (r_io r = None)).

Definition hydrate (payload : list (option reading_at)) (now : Q) (w : Window) : Window :=
  if w_hydrated w then w
  else
    let added := foldl (λ acc v,
      match v with
      | Some r => if hydrate_keeps now r then deque_append acc r else acc
      | None => acc
      end) (w_samples w) payload in
    let samples := bounded (sort_by r_at added) in
    mkWindow samples true false now
      (match last samples with Some r => r_at r | None => w_last_observed_at w end).

Definition _percentile (values : list Q) (percentile : Q) : option Q :=
  let ordered := sort_by id values in
  let n := Z.of_nat (length values) in
  let rank := Z.max 1 (py_trunc (percentile * inject_Z n + (999999 # 1000000))) in
  match values with
  | [] => None
  | _ => round4 <$> ordered !! Z.to_nat (Z.min (n - 1) (rank - 1))
  end.

Record statistics := mkStatistics {
  memory_median : option Q; memory_p95 : option Q;
  io_median : option Q; io_p95 : option Q;
  memory_sample_count : Z; io_sample_count : Z;
  sample_count : Z; ready : bool }.

(** [_statistics] on the pruned window. *)
Definition _statistics (samples : list reading_at) : statistics :=
  let memory_values := omap r_memory samples in
  let io_values := omap r_io samples in
  let mc := Z.of_nat (length memory_values) in
  let ic := Z.of_nat (length io_values) in
  mkStatistics
    (_percentile memory_values (50 # 100)) (_percentile memory_values (95 # 100))
    (_percentile io_values (50 # 100)) (_percentile io_values (95 # 100))
    mc ic (Z.max mc ic) (PRESSURE_BASELINE_MIN_SAMPLES <=? Z.max mc ic).

(** The four settings [enrich] reads. *)
Record BaselineSettings := mkBaselineSettings {
  memory_psi_margin : Q; io_psi_margin : Q; memory_psi_cap : Q; io_psi_cap : Q }.

(** A reading below its cap. *)
Definition within_cap (cap : Q) (v : option Q) : option Q :=
  match v with
  | Some x => if Qle_bool 0 x && Qle_bool x cap then Some x else None
  | None => None
  end.

Definition swap_hazard (t : PressureThresholds) (x : ResourceSample) : bool :=
  Qltb (swap_free_ratio x) (pause_swap_free_ratio t) &&
  Qle_bool (swap_activity_limit t) (default 0%Q (swap_activity_bytes_per_second x)) &&
  Qltb (default 0%Q (memory_available_change x)) 0.

Definition safe_host (t : PressureThresholds) (x : ResourceSample) : bool :=
  (pause_available_bytes t <=? memory_available_bytes x) &&
  Qle_bool (critical_swap_free_ratio t) (swap_free_ratio x) &&
  negb (swap_hazard t x) &&
  bool_decide (default 0 (cgroup_memory_oom_kill_delta x) = 0).

(** A soft trigger: the configured threshold, or the learned level plus its
    margin under the cap. *)
Definition learned_trigger (threshold margin cap : Q) (is_ready : bool) (count : Z) (p95 : option Q) : Q :=
  match p95 with
  | Some v => if is_ready && (PRESSURE_BASELINE_MIN_SAMPLES <=? count)
              then qmin (qmax threshold (v + margin)) (qmax threshold cap) else threshold
  | None => threshold
  end.

Record enriched := mkEnriched {
  e_statistics : statistics;
  e_observed : bool;
  e_memory_trigger : Q;
  e_io_trigger : Q }.

(** The observation of [enrich], on the pruned window. *)
Definition observe (t : PressureThresholds) (b : BaselineSettings) (heavy_idle : bool)
    (x : ResourceSample) (now : Q) (w : Window) : Window * bool :=
  if heavy_idle && Qle_bool PRESSURE_BASELINE_SAMPLE_SECONDS (now - w_last_observed_at w) &&
     safe_host t x then
    let m := within_cap (qmax (pause_memory_psi t) (memory_psi_cap b)) (memory_full_avg10 x) in
    let i := within_cap (qmax (pause_io_psi t) (io_psi_cap b)) (io_full_avg10 x) in
    match m, i with
    | None, None => (w, false)
    | _, _ => (mkWindow (deque_append (w_samples w) (mkReading now m i)) (w_hydrated w) true
                 (w_last_persisted_at w) now, true)
    end
  else (w, false).

Definition enrich (t : PressureThresholds) (b : BaselineSettings) (heavy_idle : bool)
    (x : ResourceSample) (now : Q) (w : Window) : Window * enriched :=
  let '(w, observed) := observe t b heavy_idle x now (_prune now w) in
  let w := _prune now w in
  let st := _statistics (w_samples w) in
  (w, mkEnriched st observed
    (round4 (learned_trigger (pause_memory_psi t) (memory_psi_margin b) (memory_psi_cap b)
               (ready st) (memory_sample_count st) (memory_p95 st)))
    (round4 (learned_trigger (pause_io_psi t) (io_psi_margin b) (io_psi_cap b)
               (ready st) (io_sample_count st) (io_p95 st)))).

(** The samples of [persistence_payload], when it is due. *)
Definition persistence_payload (now : Q) (w : Window) : Window * option (list reading_at) :=
  let w := _prune now w in
  (w, if negb (w_dirty w) || Qltb (now - w_last_persisted_at w) PRESSURE_BASELINE_PERSIST_SECONDS
      then None else Some (w_samples w)).

Definition mark_persisted (now : Q) (w : Window) : Window :=
  mkWindow (w_samples w) (w_hydrated w) false now (w_last_observed_at w).
