(* ===== verification/PressureBaselineFacts.v ===== *)
(** * Facts about the learned pressure baseline

    The window stays sorted, bounded and inside its time span; percentiles are
    nearest-rank; a learned trigger never leaves the configured safety range;
    a persisted window is read back. *)

From stdpp Require Import base strings list numbers sorting.
From Stdlib Require Import QArith Qround Lqa Sorted.
From S2P Require Import Prelude PyStr Pressure PressureFacts PressureBaseline.

Open Scope Z_scope.

(** ** Stable sorting *)

Section SortBy.
Context {A : Type} (key : A → Q).
Abbreviation by_key := (λ a b : A, (key a <= key b)%Q).

Lemma insert_by_perm x l : insert_by key x l ≡ₚ x :: l.
Proof.
  induction l as [|y l IH]; cbn; [done|]. case_test; [|done].
  rewrite IH. apply Permutation_swap.
Qed.

Lemma sort_by_perm l : sort_by key l ≡ₚ l.
Proof. induction l as [|x l IH]; cbn; [done|]. by rewrite insert_by_perm, IH. Qed.

Lemma insert_by_sorted x l :
  StronglySorted by_key l → StronglySorted by_key (insert_by key x l).
Proof.
  induction 1 as [|y l Hl IH Hy]; cbn; [by repeat constructor|]. case_test.
  - constructor; [done|]. rewrite insert_by_perm. constructor; [|done].
    apply Qlt_le_weak. by apply Qltb_lt.
  - apply Qltb_ge in Heqb. constructor; [by constructor|]. constructor; [done|].
    eapply Forall_impl; [exact Hy|]. intros z Hz. cbn in *. by apply (Qle_trans _ (key y)).
Qed.

Lemma sort_by_sorted l : StronglySorted by_key (sort_by key l).
Proof. induction l; cbn; [constructor|by apply insert_by_sorted]. Qed.

Lemma sort_by_id l : StronglySorted by_key l → sort_by key l = l.
Proof.
  induction 1 as [|y l Hl IH Hy]; [done|]. change (insert_by key y (sort_by key l) = y :: l).
  rewrite IH. destruct l as [|z l]; cbn; [done|]. inversion_clear Hy as [|? ? Hyz _].
  by apply Qltb_ge in Hyz as ->.
Qed.

Lemma sorted_drop n l : StronglySorted by_key l → StronglySorted by_key (drop n l).
Proof.
  intros Hl. revert n. induction Hl as [|y l Hl IH Hy]; intros [|n]; cbn; [constructor..|by constructor|done].
Qed.

Lemma sorted_app l1 l2 : StronglySorted by_key l1 → StronglySorted by_key l2 →
  (∀ a b, a ∈ l1 → b ∈ l2 → (key a <= key b)%Q) → StronglySorted by_key (l1 ++ l2).
Proof.
  induction 1 as [|y l Hl IH Hy]; intros H2 Hab; cbn; [done|]. constructor.
  - apply IH; [done|]. intros a b Ha. apply Hab. by right.
  - apply Forall_app. split; [done|]. apply Forall_forall. intros b Hb. apply Hab; [left|done].
Qed.

(** Everything up to an index is at most, everything from it on at least, the
    element there. *)
Lemma sorted_split l i v : StronglySorted by_key l → l !! i = Some v →
  Forall (λ x, (key x <= key v)%Q) (take (S i) l) ∧ Forall (λ x, (key v <= key x)%Q) (drop i l).
Proof.
  intros Hl. revert i. induction Hl as [|y l Hl IH Hy]; intros [|i]; cbn; try done.
  - intros [= ->]. split; constructor; auto using Qle_refl.
  - intros Hv. destruct (IH i Hv) as [H1 H2]. split; [|done]. constructor; [|done].
    rewrite Forall_forall in Hy. apply Hy. by eapply list_elem_of_lookup_2.
Qed.
End SortBy.

Lemma filter_length_all {A} (p : A → bool) l : Forall (λ x, p x = true) l → length (List.filter p l) = length l.
Proof. induction 1 as [|x l Hx _ IH]; cbn; [done|]. by rewrite Hx; cbn; rewrite IH. Qed.

Lemma filter_none {A} (p : A → bool) l : Forall (λ x, p x = false) l → List.filter p l = [].
Proof. induction 1 as [|x l Hx _ IH]; cbn; [done|]. by rewrite Hx. Qed.

Lemma filter_length_perm {A} (p : A → bool) l l' : l ≡ₚ l' →
  length (List.filter p l) = length (List.filter p l').
Proof.
  induction 1; cbn; [done|by case_test; cbn; rewrite IHPermutation|by repeat case_test|congruence].
Qed.

Lemma bounded_length {A} (l : list A) : (length (bounded l) <= BASELINE_MAXLEN)%nat.
Proof. unfold bounded. rewrite length_drop. lia. Qed.

Lemma bounded_id {A} (l : list A) : (length l <= BASELINE_MAXLEN)%nat → bounded l = l.
Proof. intros Hl. unfold bounded. by replace (length l - BASELINE_MAXLEN)%nat with 0%nat by lia. Qed.

Lemma elem_of_bounded {A} (x : A) l : x ∈ bounded l → x ∈ l.
Proof. intros Hx. rewrite <-(take_drop (length l - BASELINE_MAXLEN) l). apply elem_of_app. by right. Qed.

(** ** Percentiles *)

Lemma py_trunc_pos z d : 0 <= z → py_trunc (z # d) = z / Z.pos d.
Proof.
  intros Hz. unfold py_trunc. assert (Qle_bool 0 (z # d) = true) as ->; [|done].
  apply Qle_bool_iff. unfold Qle. cbn. lia.
Qed.

Global Instance py_trunc_proper : Proper (Qeq ==> eq) py_trunc.
Proof. 
  intros x y E. unfold py_trunc. rewrite (Qfloor_comp _ _ E), (Qceiling_comp _ _ E).
  assert (Qle_bool 0 x = Qle_bool 0 y) as ->; [|done].
  apply eq_true_iff_eq. rewrite !Qle_bool_iff. by rewrite E.
Qed.

Lemma rank_at_least l i v : StronglySorted (λ a b : Q, (id a <= id b)%Q) l → l !! i = Some v →
  (S i <= length (List.filter (λ x, Qle_bool x v) l))%nat.
Proof.
  intros Hs Hv. destruct (sorted_split id l i v Hs Hv) as [Hle _].
  rewrite <-(take_drop (S i) l), List.filter_app, length_app, filter_length_all.
  - apply lookup_lt_Some in Hv. rewrite length_take. lia.
  - eapply Forall_impl; [exact Hle|]. intros x Hx. by apply Qle_bool_iff.
Qed.

Lemma rank_at_most l i v : StronglySorted (λ a b : Q, (id a <= id b)%Q) l → l !! i = Some v →
  (length (List.filter (λ x, Qltb x v) l) <= i)%nat.
Proof.
  intros Hs Hv. destruct (sorted_split id l i v Hs Hv) as [_ Hge].
  rewrite <-(take_drop i l), List.filter_app, length_app, (filter_none _ (drop i l)).
  - cbn. pose proof (List.filter_length_le (λ x, Qltb x v) (take i l)).
    rewrite length_take in *. lia.
  - eapply Forall_impl; [exact Hge|]. intros x Hx. by apply Qltb_ge.
Qed.

(** The rank is the share rounded up. *)
Lemma nearest_rank k n : 1 <= k <= 100 → 1 <= n →
  let q := py_trunc ((k # 100) * inject_Z n + (999999 # 1000000)) in
  1 <= q <= n ∧ k * n <= 100 * q ∧ 100 * (q - 1) < k * n.
Proof.
  intros Hk Hn. cbn zeta.
  assert ((k # 100) * inject_Z n + (999999 # 1000000) ==
          (k * n * 10000 + 999999) # 1000000)%Q as ->.
  { unfold Qeq. cbn. lia. }
  rewrite py_trunc_pos by nia.
  pose proof (Z.div_mod (k * n * 10000 + 999999) 1000000 ltac:(done)).
  pose proof (Z.mod_pos_bound (k * n * 10000 + 999999) 1000000 ltac:(done)).
  split_and!; nia.
Qed.

(** For a whole percentage, [_percentile] is the nearest-rank percentile:
    a value of the list that at least that share of the values do not exceed
    and fewer than that share lie strictly below. *)
Theorem percentile_nearest_rank values k :
  values ≠ [] → 1 <= k <= 100 →
  ∃ v, v ∈ values ∧ _percentile values (k # 100) = Some (round4 v) ∧
    k * Z.of_nat (length values) <=
      100 * Z.of_nat (length (List.filter (λ x, Qle_bool x v) values)) ∧
    100 * Z.of_nat (length (List.filter (λ x, Qltb x v) values)) <
      k * Z.of_nat (length values).
Proof.
  intros Hne Hk. set (n := Z.of_nat (length values)).
  assert (1 <= n) as Hn by (destruct values; [done|cbn in n; lia]).
  pose proof (sort_by_perm id values) as Hperm. pose proof (sort_by_sorted id values) as Hsort.
  destruct (nearest_rank k n Hk Hn) as (Hq & Hhi & Hlo).
  set (q := py_trunc _) in *.
  destruct (sort_by id values !! Z.to_nat (q - 1)) as [v|] eqn:Hv.
  2:{ apply lookup_ge_None in Hv. rewrite Hperm in Hv. lia. }
  exists v. split_and!.
  - rewrite <-Hperm. by eapply list_elem_of_lookup_2.
  - unfold _percentile. fold n. fold q. replace (Z.min (n - 1) (Z.max 1 q - 1)) with (q - 1) by lia.
    rewrite Hv. by destruct values.
  - rewrite <-(filter_length_perm _ _ _ Hperm).
    pose proof (rank_at_least _ _ _ Hsort Hv). lia.
  - rewrite <-(filter_length_perm _ _ _ Hperm).
    pose proof (rank_at_most _ _ _ Hsort Hv). lia.
Qed.

(** ** The window *)

(** A reading with at least one value. *)
Definition has_value (r : reading_at) : Prop := is_Some (r_memory r) ∨ is_Some (r_io r).

Record window_ok (w : Window) : Prop := {
  ok_sorted : StronglySorted (λ a b, (r_at a <= r_at b)%Q) (w_samples w);
  ok_bounded : (length (w_samples w) <= BASELINE_MAXLEN)%nat;
  ok_latest : Forall (λ r, (r_at r <= w_last_observed_at w)%Q) (w_samples w);
  ok_values : Forall has_value (w_samples w) }.

Definition inside (now : Q) (r : reading_at) : bool := negb (Qltb (r_at r) (cutoff now)).

Lemma prune_filter c l : StronglySorted (λ a b, (r_at a <= r_at b)%Q) l →
  (prune_samples c l).1 = List.filter (λ r, negb (Qltb (r_at r) c)) l.
Proof.
  induction 1 as [|y l Hl IH Hy]; cbn; [done|]. destruct (Qltb (r_at y) c) eqn:E; cbn; [done|].
  f_equal. symmetry. apply List.forallb_filter_id. apply forallb_forall. intros z Hz.
  apply negb_true_iff, Qltb_ge. apply Qltb_ge in E. rewrite List.Forall_forall in Hy.
  specialize (Hy z Hz). cbn in Hy. lra.
Qed.

Lemma prune_suffix c l : ∃ n, (prune_samples c l).1 = drop n l.
Proof.
  induction l as [|r l [n IH]]; cbn; [by exists 0%nat|]. case_test; [by exists (S n)|by exists 0%nat].
Qed.

Lemma prune_shape now w : ∃ n d,
  _prune now w = mkWindow (drop n (w_samples w)) (w_hydrated w) d (w_last_persisted_at w)
                   (w_last_observed_at w).
Proof.
  unfold _prune. destruct (prune_suffix (cutoff now) (w_samples w)) as [n Hn].
  destruct (prune_samples _ _) as [kept d]. cbn in Hn. subst. by eexists _, _.
Qed.

Lemma prune_ok now w : window_ok w → window_ok (_prune now w).
Proof.
  intros [Hs Hb Hl Hv]. destruct (prune_shape now w) as (n & d & ->). split; cbn.
  - by apply (sorted_drop r_at).
  - rewrite length_drop. lia.
  - by apply Forall_drop.
  - by apply Forall_drop.
Qed.

Lemma Forall_bounded {A} (P : A → Prop) l : Forall P l → Forall P (bounded l).
Proof. apply Forall_drop. Qed.

Lemma observe_ok t b heavy x now w : window_ok w → window_ok (observe t b heavy x now w).1.
Proof.
  intros [Hs Hb Hl Hv]. unfold observe. case_test; [|done].
  apply andb_true_iff in Heqb0 as [[_ Hdue%Qle_bool_iff]%andb_true_iff _].
  set (m := within_cap _ _). set (i := within_cap _ _).
  assert ((m = None ∧ i = None) ∨ has_value (mkReading now m i)) as [[-> ->]|Hval].
  { unfold has_value. cbn. destruct m, i; eauto. }
  { done. }
  assert (window_ok (mkWindow (deque_append (w_samples w) (mkReading now m i)) (w_hydrated w) true
    (w_last_persisted_at w) now)) as Hok; [|by destruct m, i].
  assert (Forall (λ r, (r_at r <= now)%Q) (w_samples w)) as Hnow.
  { eapply Forall_impl; [exact Hl|]. intros r Hr. cbn in *. unfold PRESSURE_BASELINE_SAMPLE_SECONDS in Hdue. lra. }
  split; cbn; unfold deque_append.
  - apply (sorted_drop r_at), (sorted_app r_at); [done|by repeat constructor|].
    intros a c Ha ->%list_elem_of_singleton. rewrite Forall_forall in Hnow. by apply Hnow.
  - apply bounded_length.
  - apply Forall_bounded, Forall_app. split; [done|]. constructor; [apply Qle_refl|constructor].
  - apply Forall_bounded, Forall_app. split; [done|]. by constructor.
Qed.

Lemma sorted_last_max (l : list reading_at) r : StronglySorted (λ a b, (r_at a <= r_at b)%Q) l →
  last l = Some r → Forall (λ x, (r_at x <= r_at r)%Q) l.
Proof.
  intros Hs Hr. rewrite last_lookup in Hr. destruct (sorted_split r_at _ _ _ Hs Hr) as [Hle _].
  rewrite take_ge in Hle; [done|]. apply lookup_lt_Some in Hr. lia.
Qed.

Lemma hydrate_ok payload now w : window_ok w → window_ok (hydrate payload now w).
Proof.
  intros [Hs Hb Hl Hv]. unfold hydrate. case_test; [done|]. cbn zeta.
  set (added := foldl _ _ _). assert (Forall has_value added) as Ha.
  { unfold added. clear -Hv. revert Hv. generalize (w_samples w).
    induction payload as [|[r|] payload IH]; intros l Hv; cbn; [done| |auto]. apply IH.
    destruct (hydrate_keeps now r) eqn:E; [|done]. apply Forall_bounded, Forall_app.
    split; [done|]. constructor; [|constructor]. unfold hydrate_keeps in E. unfold has_value.
    apply andb_true_iff in E as [_ E]. destruct (r_memory r), (r_io r); eauto. done. }
  assert (StronglySorted (λ a b, (r_at a <= r_at b)%Q) (bounded (sort_by r_at added))) as Hsort
    by apply (sorted_drop r_at), sort_by_sorted.
  split; cbn; [done|apply bounded_length| |].
  - destruct (last _) as [r|] eqn:E; [by apply sorted_last_max|].
    apply last_None in E. rewrite E. constructor.
  - apply Forall_bounded. by rewrite sort_by_perm.
Qed.

(** ** Histories of the window *)

Inductive window_call :=
| Hydrate (payload : list (option reading_at)) (now : Q)
| Enrich (heavy_idle : bool) (x : ResourceSample) (now : Q)
| Persist (now : Q)
| Persisted (now : Q).

Section Histories.
Context (t : PressureThresholds) (b : BaselineSettings).

Definition window_step (c : window_call) (w : Window) : Window :=
  match c with
  | Hydrate payload now => hydrate payload now w
  | Enrich heavy x now => (enrich t b heavy x now w).1
  | Persist now => (persistence_payload now w).1
  | Persisted now => mark_persisted now w
  end.

(** The window after a history of calls, newest first. *)
Definition window_run (h : list window_call) : Window := foldr window_step fresh_window h.

Lemma enrich_window heavy x now w :
  (enrich t b heavy x now w).1 = _prune now (observe t b heavy x now (_prune now w)).1.
Proof. unfold enrich. by destruct (observe _ _ _ _ _ _). Qed.

Lemma window_run_ok h : window_ok (window_run h).
Proof.
  induction h as [|c h IH]; [split; cbn; [constructor|lia|constructor..]|].
  change (window_ok (window_step c (window_run h))). destruct c; cbn.
  - by apply hydrate_ok.
  - rewrite enrich_window. by apply prune_ok, observe_ok, prune_ok.
  - by apply prune_ok.
  - by destruct IH.
Qed.

(** Whatever the clock does and whatever payload is loaded, the window
    stays sorted by time and within its size, and the samples on which the
    statistics of [enrich] are computed are exactly those of the window (with
    the new observation, if any) that lie inside the last day. *)
Theorem baseline_window_exact h heavy x now :
  let w := window_run h in
  let '(observed_w, _) := observe t b heavy x now (_prune now w) in
  let '(w', result) := enrich t b heavy x now w in
  window_ok w ∧ window_ok w' ∧
  w_samples (_prune now w) = List.filter (inside now) (w_samples w) ∧
  w_samples w' = List.filter (inside now) (w_samples observed_w) ∧
  e_statistics result = _statistics (w_samples w').
Proof.
  cbn zeta. pose proof (window_run_ok h) as Hok. pose proof (window_run_ok (Enrich heavy x now :: h)) as Hok'.
  change (window_ok (enrich t b heavy x now (window_run h)).1) in Hok'.
  pose proof (observe_ok t b heavy x now _ (prune_ok now _ Hok)) as Hob.
  assert (∀ w, window_ok w → w_samples (_prune now w) = List.filter (inside now) (w_samples w)) as Hp.
  { intros w [Hs _ _ _]. rewrite <-(prune_filter (cutoff now)) by done. unfold _prune.
    by destruct (prune_samples _ _). }
  unfold enrich in *. destruct (observe t b heavy x now _) as [w1 o]. cbn in *.
  split_and!; [done|done|by apply Hp|by apply Hp|done].
Qed.

(** ** Triggers *)

Lemma round4_mono x y : (x <= y)%Q → (round4 x <= round4 y)%Q.
Proof. intros Hxy. unfold round4. apply scaled_le, round_even_mono. lra. Qed.

Lemma learned_trigger_range threshold margin cap r n v :
  (threshold <= learned_trigger threshold margin cap r n v <= qmax threshold cap)%Q.
Proof.
  destruct (qmax_spec threshold cap) as (Hm & _ & _). unfold learned_trigger.
  destruct v as [v|]; [|split; [apply Qle_refl|done]].
  case_test; [|split; [apply Qle_refl|done]].
  destruct (qmin_spec (qmax threshold (v + margin)) (qmax threshold cap)) as (_ & H2 & Hc).
  destruct (qmax_spec threshold (v + margin)) as (H3 & _ & _).
  split; [|done]. by destruct Hc as [-> | ->].
Qed.

(** A learned soft trigger is never below the configured threshold nor
    above the larger of the threshold and the safety cap (both rounded to four
    places as published), and it is the threshold itself until ten readings of
    its kind lie in the window. *)
Theorem learned_triggers_bounded h heavy x now :
  let e := (enrich t b heavy x now (window_run h)).2 in
  (round4 (pause_memory_psi t) <= e_memory_trigger e
     <= round4 (qmax (pause_memory_psi t) (memory_psi_cap b)))%Q ∧
  (round4 (pause_io_psi t) <= e_io_trigger e
     <= round4 (qmax (pause_io_psi t) (io_psi_cap b)))%Q ∧
  (memory_sample_count (e_statistics e) < 10 → e_memory_trigger e = round4 (pause_memory_psi t)) ∧
  (io_sample_count (e_statistics e) < 10 → e_io_trigger e = round4 (pause_io_psi t)).
Proof.
  unfold enrich. destruct (observe _ _ _ _ _ _) as [w o]. cbn [snd e_memory_trigger e_io_trigger
    e_statistics]. generalize (_statistics (w_samples (_prune now w))). intros st.
  assert (∀ th m c n p, n < 10 → learned_trigger th m c (ready st) n p = th) as Hfew.
  { intros th m c n p Hn. unfold learned_trigger. destruct p; [|done].
    assert ((PRESSURE_BASELINE_MIN_SAMPLES <=? n) = false) as -> by (apply Z.leb_gt; done).
    by rewrite andb_false_r. }
  split_and!; try (apply round4_mono, learned_trigger_range); intros Hn; by rewrite Hfew.
Qed.

(** ** Persistence *)

(** Loading readings that are all kept and fit just appends them. *)
Lemma hydrate_appends now l acc :
  Forall (λ r, hydrate_keeps now r = true) l → (length acc + length l <= BASELINE_MAXLEN)%nat →
  foldl (λ acc v, match v with
                  | Some r => if hydrate_keeps now r then deque_append acc r else acc
                  | None => acc end) acc (Some <$> l) = acc ++ l.
Proof.
  intros Hk. revert acc. induction Hk as [|r l Hr _ IH]; intros acc Hlen; cbn in *.
  - by rewrite app_nil_r.
  - rewrite Hr. unfold deque_append. rewrite bounded_id by (rewrite length_app; cbn; lia).
    rewrite IH by (rewrite length_app; cbn; lia). by rewrite <-app_assoc.
Qed.

(** A window persisted by one process and loaded by a fresh one, within
    five minutes of clock skew, is the same window, last observation
    included. *)
Theorem baseline_persist_roundtrip h now now' saved :
  let w := window_run h in
  (persistence_payload now w).2 = Some saved → saved ≠ [] →
  Forall (λ r, inside now' r = true ∧ (r_at r <= now' + 300)%Q) saved →
  let w' := hydrate (Some <$> saved) now' fresh_window in
  w_samples w' = saved ∧ w_samples w' = w_samples (_prune now w) ∧ w_hydrated w' = true ∧
  w_dirty w' = false ∧ (r_at <$> last saved) = Some (w_last_observed_at w').
Proof.
  cbn zeta. intros Hsave Hne Hin. unfold persistence_payload in Hsave. cbn in Hsave.
  case_test; [done|]. injection Hsave as Hsave.
  destruct (prune_ok now _ (window_run_ok h)) as [Hs Hb _ Hv]. rewrite Hsave in *.
  unfold hydrate. cbn [w_hydrated fresh_window w_samples]. cbn zeta.
  rewrite hydrate_appends, app_nil_l, sort_by_id, bounded_id; [|done|done| |cbn; lia].
  - split_and!; [done|done|done|done|]. cbn. destruct (last saved) eqn:E; [done|].
    by apply last_None in E.
  - rewrite Forall_forall in *. intros r Hr. destruct (Hin r Hr) as [H1 H2].
    unfold inside in H1. apply negb_true_iff in H1. unfold hydrate_keeps. rewrite H1.
    apply Qltb_ge in H2. rewrite H2. cbn. destruct (Hv r Hr) as [[? ->]|[? ->]]; cbn; [done|].
    by rewrite andb_false_r.
Qed.
End Histories.
