(* ===== verification/PressureExample.v ===== *)
(** * Resource pressure on concrete readings

    The controller with the default settings of [config.py] on an eight
    gigabyte host: it enters critical mode after three low readings, stays
    there through the stabilisation minute and comes back; plus the reading of
    a padded governance mode. *)

From stdpp Require Import base strings list numbers.
From Stdlib Require Import QArith Qround.
From S2P Require Import Prelude PyStr Pressure PressureFacts PressureControl PressureSlices PressureBaseline PressureBaselineFacts.

Open Scope Z_scope.

(** The defaults of [Settings], with the given governance mode. *)
Definition defaults (mode : pystr) : Settings :=
  mkSettings mode [] (10 # 100) (50 # 100) (10 # 100) 30 1 20 10 30 500 3
    (u "auto") (15 # 100) 384 2560 1536 1280 1792
    (30 # 100) (25 # 100) (15 # 100) 64 2 15 3 3 60.

Definition host : PressureThresholds :=
  thresholds_from_settings (defaults (u "enforce")) (Some (8 * GIB)).

(** A reading with [available] bytes of memory and nothing else to report. *)
Definition reading (available : Z) : ResourceSample :=
  mkSample available 0 0 None None None None None None None None None 0 0 None None None.

Definition at_ (now : Z) (available : Z) : event :=
  mkEvent (Some (reading available)) (inject_Z now) "".

Definition low_history : list call := [Update (at_ 5 GIB); Update (at_ 0 GIB)].
Definition critical_history : list call := Update (at_ 10 GIB) :: low_history.
Definition recovering_history : list call := Update (at_ 20 (6 * GIB)) :: critical_history.

Lemma enters_critical_witness :
  controller_mode (run host (defaults (u "enforce")) (Update (at_ 10 GIB) :: low_history)) = critical ↔
  failure_samples host <= streak is_failure (Update (at_ 10 GIB) :: low_history) ∨
  is_oom_kill (Update (at_ 10 GIB)) = true ∨ pause_samples host <= streak (is_hard host) (Update (at_ 10 GIB) :: low_history).
Proof.
  apply (enters_critical_exactly host (defaults (u "enforce"))); vm_compute; congruence.
Defined.

Lemma leaves_critical_witness :
  ∃ newer e0 older, Update (at_ 80 (6 * GIB)) :: recovering_history = newer ++ Update e0 :: older ∧
    Forall (λ c, is_recovered host c = true) (newer ++ [Update e0]) ∧
    (resume_seconds host <= inject_Z 80 - ev_now e0)%Q.
Proof.
  apply (leaves_critical_recovered host (defaults (u "enforce")) ltac:(by vm_compute)
    ltac:(by vm_compute) (at_ 80 (6 * GIB)) recovering_history); vm_compute; congruence.
Defined.

Lemma controller_invariant_witness :
  let s := run host (defaults (u "enforce")) critical_history in
  status s = "paused"%string ∧ (throughput_scale s == 0)%Q.
Proof.
  cbn zeta. destruct (controller_invariant host (defaults (u "enforce")) ltac:(by vm_compute)
    ltac:(by vm_compute) critical_history) as (_ & Hz & _ & Hp).
  assert (throughput_scale (run host (defaults (u "enforce")) critical_history) == 0)%Q as H0
    by (apply Hz; vm_compute; reflexivity).
  split; [by apply Hp|done].
Defined.

Lemma slice_admission_witness :
  ∃ p, assoc (u "import_db") RESOURCE_PROFILES = Some p ∧ memory_floor_kept host (at_ 0 (6 * GIB)) p.
Proof.
  destruct (slice_admission host (defaults (u "enforce")) ltac:(by vm_compute) ltac:(by vm_compute)
    (at_ 0 (6 * GIB)) [] (Some (u "imports")) (Some 7) None) as (p & Hp & Ha & _).
  exists p. split; [exact Hp|]. apply Ha. vm_compute. reflexivity.
Defined.

Lemma automatic_thresholds_witness :
  128 * MIB <= pause_available_bytes host < resume_available_bytes host.
Proof.
  destruct (automatic_thresholds_ordered (defaults (u "enforce")) (8 * GIB)) as (H1 & _ & H2 & _);
    [vm_compute; reflexivity..|]. fold host in H1, H2. lia.
Defined.

(** Two low readings leave a quarter of the throughput: three idle seconds per
    active one. *)
Definition constrained_snapshot : Snapshot :=
  snapshot host (defaults (u "enforce")) (run host (defaults (u "enforce")) low_history).

Lemma cooldown_witness :
  ∃ idle, (1 == (1 # 4) * (1 + idle))%Q ∧
    (qmin 30 idle - (1 # 2000) <=
       profile_slice_cooldown_seconds (defaults (u "enforce")) constrained_snapshot 1 30 None (Some (u "imports"))
     <= qmin 30 idle + (1 # 2000))%Q.
Proof.
  destruct (cooldown_duty_cycle (defaults (u "enforce")) constrained_snapshot
    (default (mkBudgets [] 0 0 0 []) (sn_budget constrained_snapshot)) constrained 1 30
    (Some (u "imports"))) as (idle & H1 & H2); [reflexivity|reflexivity|vm_compute; reflexivity|done| |vm_compute; reflexivity|vm_compute; reflexivity|vm_compute; reflexivity|].
  - split; [vm_compute; reflexivity|]. eexists. split; vm_compute; reflexivity.
  - exists idle. split; [|exact H2]. rewrite H1 at 1. apply Qmult_comp; [vm_compute; reflexivity|reflexivity].
Defined.

(** The settings validator accepts a governance mode with surrounding
    blanks (it strips before comparing), but the snapshot compares the text
    unstripped: for [" shadow"] it publishes enforcement and a reduced scale
    although no profile's soft budget is enforced. *)
Theorem padded_shadow_published_as_enforce :
  let cfg := defaults (u " shadow") in
  let sn := snapshot host cfg (run host cfg low_history) in
  lower (strip (governance_mode cfg)) = u "shadow" ∧
  snapshot_governance cfg = u "enforce" ∧
  (∀ name, profile_soft_budget_enforced cfg name = false) ∧
  match sn_budget sn with Some b => (b_effective_scale b < 1)%Q | None => False end.
Proof. cbn zeta. split_and!; [vm_compute; reflexivity..|done|vm_compute; reflexivity]. Qed.

(** ** The learned baseline *)

Definition baseline_defaults : BaselineSettings := mkBaselineSettings (1 # 2) 3 5 30.

(** An idle reading of the pressure averages. *)
Definition idle_reading (memory io : Q) : ResourceSample :=
  mkSample (6 * GIB) 0 0 (Some memory) (Some io) None None None None None None None 0 0 None None None.

Definition learning : list window_call :=
  [Enrich true (idle_reading (3 # 10) 4) 1100; Enrich true (idle_reading (1 # 10) 2) 1000].

Lemma percentile_witness :
  ∃ v, v ∈ [3; 1; 2]%Q ∧ _percentile [3; 1; 2]%Q (50 # 100) = Some (round4 v) ∧
    50 * 3 <= 100 * Z.of_nat (length (List.filter (λ x, Qle_bool x v) [3; 1; 2]%Q)).
Proof.
  destruct (percentile_nearest_rank [3; 1; 2]%Q 50) as (v & H1 & H2 & H3 & _); [done|lia|].
  by exists v.
Defined.

Lemma persist_roundtrip_witness :
  let saved := w_samples (window_run host baseline_defaults learning) in
  length saved = 2%nat ∧ w_samples (hydrate (Some <$> saved) 1500 fresh_window) = saved.
Proof.
  cbn zeta. split; [vm_compute; reflexivity|].
  apply (baseline_persist_roundtrip host baseline_defaults learning 1400 1500).
  - vm_compute. reflexivity.
  - vm_compute. congruence.
  - vm_compute. repeat constructor; congruence.
Defined.
