(* ===== verification/Keyset.v ===== *)
(** * Keyset pagination over a sorted selection

    The semantics of [SELECT ... WHERE ... ORDER BY ... OFFSET ... LIMIT] on a
    list of rows with distinct identities, and the lemmas that relate a seek
    condition to a position of the ordered rows. *)

From stdpp Require Import base list numbers sorting.
From Stdlib Require Import Sorted.
From S2P Require Import Prelude.

Open Scope Z_scope.

(** A strict order on rows that is total between rows of distinct identity. *)
Class RowOrder {A} (ident : A → Z) (lt : A → A → bool) : Prop := {
  lt_irrefl x : lt x x = false;
  lt_trans x y z : lt x y = true → lt y z = true → lt x z = true;
  lt_total x y : ident x ≠ ident y → lt x y = true ∨ lt y x = true }.

(** [ORDER BY]. *)
Fixpoint insert_row {A} (lt : A → A → bool) (x : A) (l : list A) : list A :=
  match l with
  | [] => [x]
  | y :: l' => if lt x y then x :: l else y :: insert_row lt x l'
  end.
Fixpoint order_by {A} (lt : A → A → bool) (l : list A) : list A :=
  match l with
  | [] => []
  | x :: l' => insert_row lt x (order_by lt l')
  end.

(** The whole statement. *)
Definition select_rows {A} (cond : A → bool) (lt : A → A → bool) (offset limit : nat) (table : list A)
    : list A :=
  take limit (drop offset (order_by lt (List.filter cond table))).

(** The opposite order. *)
Definition descending {A} (lt : A → A → bool) : A → A → bool := λ x y, lt y x.

Section Keyset.
Context {A : Type} (ident : A → Z).

Lemma insert_row_perm lt x (l : list A) : insert_row lt x l ≡ₚ x :: l.
Proof.
  induction l as [|y l IH]; cbn; [done|]. case_test; [done|]. rewrite IH. apply Permutation_swap.
Qed.

Lemma order_by_perm lt (l : list A) : order_by lt l ≡ₚ l.
Proof. induction l as [|x l IH]; cbn; [done|]. by rewrite insert_row_perm, IH. Qed.

(** Sorted with distinct identities. *)
Abbreviation sorted lt := (StronglySorted (λ x y : A, lt x y = true)).
Abbreviation distinct l := (NoDup (ident <$> l)).

Section Order.
Context (lt : A → A → bool) `{!RowOrder ident lt}.

Lemma lt_asym x y : lt x y = true → lt y x = false.
Proof.
  intros H1. destruct (lt y x) eqn:H2; [|done]. pose proof (lt_trans _ _ _ H1 H2) as H3.
  by rewrite lt_irrefl in H3.
Qed.

Lemma descending_order : RowOrder ident (descending lt).
Proof.
  split; unfold descending; intros.
  - apply lt_irrefl.
  - by eapply lt_trans.
  - destruct (lt_total x y); auto.
Qed.

Lemma insert_row_sorted x l : sorted lt l → ident x ∉ ident <$> l → sorted lt (insert_row lt x l).
Proof.
  induction 1 as [|y l Hl IH Hy]; cbn; intros Hx; [by repeat constructor|].
  apply not_elem_of_cons in Hx as [Hxy Hx]. destruct (lt x y) eqn:E.
  - constructor; [by constructor|]. constructor; [done|].
    eapply Forall_impl; [exact Hy|]. intros z Hz. by eapply lt_trans.
  - constructor; [by apply IH|]. rewrite insert_row_perm. constructor; [|done].
    destruct (lt_total x y Hxy) as [|]; [congruence|done].
Qed.

Lemma order_by_sorted l : distinct l → sorted lt (order_by lt l).
Proof.
  induction l as [|x l IH]; cbn; [constructor|]. intros [Hx Hl]%NoDup_cons.
  apply insert_row_sorted; [by apply IH|]. by rewrite order_by_perm.
Qed.

Lemma sorted_unique l l' : sorted lt l → sorted lt l' → l ≡ₚ l' → l = l'.
Proof.
  apply StronglySorted_unique_strong. intros x y _ _ H1 H2. apply lt_asym in H1. congruence.
Qed.

Lemma filter_sorted p l : sorted lt l → sorted lt (List.filter p l).
Proof.
  induction 1 as [|y l Hl IH Hy]; cbn; [constructor|]. case_test; [|done]. constructor; [done|].
  rewrite List.Forall_forall in *. intros z [Hz _]%List.filter_In. by apply Hy.
Qed.

Lemma filter_perm (p : A → bool) l l' : l ≡ₚ l' → List.filter p l ≡ₚ List.filter p l'.
Proof.
  induction 1; cbn; [done|by case_test; rewrite IHPermutation| |by etrans].
  repeat case_test; [apply Permutation_swap|done..].
Qed.

Lemma distinct_filter p l : distinct l → distinct (List.filter p l).
Proof.
  induction l as [|x l IH]; cbn; [done|]. intros [Hx Hl]%NoDup_cons.
  case_test; [|by apply IH]. cbn. apply NoDup_cons. split; [|by apply IH].
  intros (y & Hy & Hin)%list_elem_of_fmap. apply Hx. rewrite Hy. apply list_elem_of_fmap_2.
  apply list_elem_of_In in Hin. apply List.filter_In in Hin as [Hin _]. by apply list_elem_of_In.
Qed.

(** A condition commutes with the order. *)
Lemma order_by_filter p l : distinct l → order_by lt (List.filter p l) = List.filter p (order_by lt l).
Proof.
  intros Hl. apply sorted_unique.
  - by apply order_by_sorted, distinct_filter.
  - by apply filter_sorted, order_by_sorted.
  - rewrite order_by_perm. apply filter_perm. by rewrite order_by_perm.
Qed.

Lemma sorted_rev l : sorted lt l → sorted (descending lt) (rev l).
Proof.
  induction 1 as [|y l Hl IH Hy]; cbn; [constructor|].
  assert (∀ l1, sorted (descending lt) l1 → Forall (λ z, lt y z = true) l1 →
          sorted (descending lt) (l1 ++ [y])) as Happ.
  { clear. induction 1 as [|z l1 Hl1 IH1 Hz]; intros HF; cbn; [by repeat constructor|].
    inversion_clear HF. constructor; [by apply IH1|]. apply Forall_app. by repeat constructor. }
  apply Happ; [done|]. by rewrite <-(Permutation_rev l).
Qed.

(** ** Seeking *)

(** In the ordered rows, what follows a row is what exceeds it. *)
Lemma filter_after l1 x l2 : sorted lt (l1 ++ x :: l2) → List.filter (lt x) (l1 ++ x :: l2) = l2.
Proof.
  rewrite List.filter_app. induction l1 as [|y l1 IH]; cbn; intros Hs.
  - rewrite lt_irrefl. inversion_clear Hs as [|? ? _ Hx]. apply List.forallb_filter_id.
    apply List.forallb_forall. by apply List.Forall_forall.
  - inversion_clear Hs as [|? ? Hs' Hy]. apply Forall_app in Hy as [_ [Hyx _]%Forall_cons].
    rewrite (lt_asym _ _ Hyx). by apply IH.
Qed.

Lemma filter_before l1 x l2 : sorted lt (l1 ++ x :: l2) →
  List.filter (λ y, lt y x) (l1 ++ x :: l2) = l1.
Proof.
  rewrite List.filter_app. induction l1 as [|y l1 IH]; cbn; intros Hs.
  - rewrite lt_irrefl. inversion_clear Hs as [|? ? _ Hx]. clear -Hx RowOrder0.
    induction Hx as [|z l2 Hz _ IH]; cbn; [done|]. by rewrite (lt_asym _ _ Hz).
  - inversion_clear Hs as [|? ? Hs' Hy]. apply Forall_app in Hy as [_ [Hyx _]%Forall_cons].
    rewrite Hyx. cbn. f_equal. by apply IH.
Qed.
End Order.

(** The opposite order is the reversed list. *)
Lemma order_by_descending lt `{!RowOrder ident lt} l :
  distinct l → order_by (descending lt) l = rev (order_by lt l).
Proof.
  intros Hl. pose proof (descending_order lt). apply (sorted_unique (descending lt)).
  - by apply order_by_sorted.
  - by apply sorted_rev, order_by_sorted.
  - by rewrite <-Permutation_rev, !order_by_perm.
Qed.
End Keyset.

(** A page that runs over the end of one list continues in the next. *)
Lemma take_spill {A} n (l1 l2 : list A) :
  take n l1 ++ take (n - length (take n l1)) l2 = take n (l1 ++ l2).
Proof. rewrite take_app, length_take. do 2 f_equal. lia. Qed.

Lemma drop_middle {A} (l1 l2 : list A) x : drop (S (length l1)) (l1 ++ x :: l2) = l2.
Proof. rewrite drop_app_ge by lia. by replace (S (length l1) - length l1)%nat with 1%nat by lia. Qed.

(** ** Pages *)

Lemma insert_row_ext {A} (lt lt' : A → A → bool) x l :
  (∀ y, y ∈ l → lt x y = lt' x y) → insert_row lt x l = insert_row lt' x l.
Proof.
  induction l as [|y l IH]; cbn; intros E; [done|]. rewrite (E y) by left.
  case_test; [done|]. f_equal. apply IH. intros z Hz. apply E. by right.
Qed.

(** Only the order between the rows themselves matters. *)
Lemma order_by_ext {A} (lt lt' : A → A → bool) l :
  (∀ x y, x ∈ l → y ∈ l → lt x y = lt' x y) → order_by lt l = order_by lt' l.
Proof.
  induction l as [|x l IH]; cbn; intros E; [done|].
  rewrite IH by (intros; apply E; by right). apply insert_row_ext. intros y Hy.
  apply E; [left|right]. by rewrite order_by_perm in Hy.
Qed.

Lemma filter_ext {A} (p q : A → bool) l :
  (∀ x, x ∈ l → p x = q x) → List.filter p l = List.filter q l.
Proof.
  intros E. apply List.filter_ext_in. intros x Hx. apply E. by apply list_elem_of_In.
Qed.

Section Pages.
Context {A : Type} (ident : A → Z) (lt : A → A → bool) `{!RowOrder ident lt}.
Context (table : list A) (Hdistinct : NoDup (ident <$> table)).
Abbreviation rows := (order_by lt table).

Lemma rows_split i b : rows !! i = Some b → rows = take i rows ++ b :: drop (S i) rows.
Proof. intros Hb. by rewrite take_drop_middle. Qed.

(** The rows after, and before, the row at a position. *)
Lemma after_position i b : rows !! i = Some b →
  order_by lt (List.filter (lt b) table) = drop (S i) rows.
Proof.
  intros Hb. rewrite (order_by_filter ident lt) by done. rewrite (rows_split i b Hb) at 1.
  apply (filter_after ident lt). rewrite <-rows_split by done. by apply (order_by_sorted ident lt).
Qed.

Lemma before_position i b : rows !! i = Some b →
  order_by (descending lt) (List.filter (λ y, lt y b) table) = rev (take i rows).
Proof.
  intros Hb. rewrite (order_by_descending ident lt) by by apply distinct_filter. f_equal.
  rewrite (order_by_filter ident lt) by done. rewrite (rows_split i b Hb) at 1.
  apply (filter_before ident lt). rewrite <-rows_split by done. by apply (order_by_sorted ident lt).
Qed.
End Pages.

(** Follow the cursor of the last row until a page is empty. *)
Fixpoint follow {A} (page : option A → list A) (fuel : nat) (cursor : option A) : list A :=
  match fuel with
  | O => []
  | S fuel' =>
      match last (page cursor) with
      | None => []
      | Some b => page cursor ++ follow page fuel' (Some b)
      end
  end.

(** A walk over pages that each continue right after their cursor visits every
    row once, in order. *)
Lemma follow_complete {A} (page : option A → list A) (rows : list A) n fuel :
  (1 <= n)%nat → page None = take n rows →
  (∀ i b, rows !! i = Some b → page (Some b) = take n (drop (S i) rows)) →
  (length rows < fuel)%nat → follow page fuel None = rows.
Proof.
  intros Hn Hfirst Hnext Hfuel.
  assert (∀ fuel k c, page c = take n (drop k rows) → (length rows - k < fuel)%nat →
          follow page fuel c = drop k rows) as Hwalk; [|by apply (Hwalk fuel 0%nat None); [|lia]].
  clear fuel Hfuel Hfirst. induction fuel as [|fuel IH]; intros k c Hc Hlen; [lia|].
  cbn. rewrite Hc. destruct (last (take n (drop k rows))) as [b|] eqn:E.
  - rewrite last_lookup, lookup_take_Some, lookup_drop in E. destruct E as [E _].
    assert (k + pred (length (take n (drop k rows))) < length rows)%nat as Hlt by by apply lookup_lt_Some in E.
    set (m := length (take n (drop k rows))) in *.
    assert (m = n `min` (length rows - k))%nat as Hm by (unfold m; by rewrite length_take, length_drop).
    rewrite (IH (S (k + pred m))) by first [by apply Hnext|lia].
    rewrite <-(take_drop n (drop k rows)) at 2. f_equal. rewrite drop_drop.
    destruct (decide (n <= length rows - k)%nat); [f_equal; lia|]. by rewrite !drop_ge by lia.
  - apply last_None in E. apply (f_equal length) in E. rewrite length_take, length_drop in E.
    by rewrite drop_ge by (cbn in E; lia).
Qed.
