(* ===== verification/SearchPages.v ===== *)
(** * Search pages: sort order, cursors and the shuffle ring

    [backend/app/services/search_pagination.py] and the code of
    [backend/app/services/search.py] that reads pages with it
    ([_fetch_random_work_page], [_work_seek_expression], the paging parts of
    [_search_works_db] and of [_search_meili_random_works]).

    A table is the list of the rows that satisfy the query's own conditions;
    statements have the semantics of [Keyset].  A column value is an element of
    a totally ordered type; an identifier is the integer of its UUID.  The JSON
    text of a cursor and the two hash functions are the interface [CursorWire];
    base64, with its padding, is written out. *)

From stdpp Require Import base strings list numbers.
From S2P Require Import Prelude PyStr SearchTables SearchLanguage Keyset.

Open Scope Z_scope.

(** ** Rows *)

Class ColumnOrder (V : Type) := {
  vlt : V → V → bool;
  vlt_irrefl x : vlt x x = false;
  vlt_trans x y z : vlt x y = true → vlt y z = true → vlt x z = true;
  vlt_total x y : x ≠ y → vlt x y = true ∨ vlt y x = true }.

(** The columns of [Work] that sorting reads; [None] is NULL. *)
Record Work (V : Type) := mkWork {
  work_id : Z;
  shuffle_key : Z;
  column : pystr → option V }.
Arguments mkWork {V} _ _ _.
Arguments work_id {V} _.
Arguments shuffle_key {V} _.
Arguments column {V} _ _.

Inductive page_error :=
| StaleCursor          (** "Invalid or stale works cursor" *)
| BadSeed
| BadBoundary
| BadShuffleKey
| BadPhase.

(** ** Sort specification *)

(** [value.rsplit("-", 1)[0]] *)
Definition rsplit_dash (s : pystr) : pystr :=
  if bool_decide (45 ∈ s) then join [45] (removelast (split_on 45 s)) else s.

Definition SORT_ATTRIBUTES : list (pystr * pystr) := [
  (u "created", u "created_at"); (u "updated", u "updated_at"); (u "posted", u "posted_at");
  (u "heat", u "heat_score"); (u "title", u "title"); (u "name", u "name");
  (u "last-sync", u "last_synced_at")].

(** [(query.values("sort") or ("created-desc",))[0]] *)
Definition selected_sort (query : SearchQuery) : pystr :=
  match query_values query (u "sort") None with s :: _ => s | [] => u "created-desc" end.

(** The attribute and whether it is ascending; [getattr(model, attribute,
    model.created_at)] on [Work] is [work_column]. *)
Definition _sql_sort_spec (query : SearchQuery) : pystr * bool :=
  let value := selected_sort query in
  (default (u "created_at") (assoc (rsplit_dash value) SORT_ATTRIBUTES), endswith value (u "-asc")).

(** The columns [Work] has, with nullability. *)
Definition WORK_COLUMNS : list (pystr * bool) := [
  (u "created_at", false); (u "updated_at", false); (u "posted_at", true);
  (u "heat_score", true); (u "title", true)].

Definition work_column (attribute : pystr) : pystr :=
  match assoc attribute WORK_COLUMNS with Some _ => attribute | None => u "created_at" end.

Definition column_nullable (attribute : pystr) : bool :=
  default false (assoc (work_column attribute) WORK_COLUMNS).

Section Pages.
Context {V : Type} `{!EqDecision V} `{!ColumnOrder V}.

Definition value_of (attribute : pystr) (w : Work V) : option V := column w (work_column attribute).

(** [ORDER BY column, id] of [_apply_sql_sort].  A column that is not nullable
    has no NULL placement of its own and gets the database's (last when
    ascending). *)
Definition _apply_sql_sort (query : SearchQuery) (reverse : bool) (x y : Work V) : bool :=
  let '(attribute, ascending) := _sql_sort_spec query in
  let asc := if reverse then negb ascending else ascending in
  let nulls_last := if column_nullable attribute then negb reverse else asc in
  let by_id := if asc then work_id x <? work_id y else work_id y <? work_id x in
  match value_of attribute x, value_of attribute y with
  | Some a, Some b => if vlt a b then asc else if vlt b a then negb asc else by_id
  | Some _, None => nulls_last
  | None, Some _ => negb nulls_last
  | None, None => by_id
  end.

(** The seek condition; a comparison with NULL does not hold. *)
Definition _work_seek_expression (query : SearchQuery) (after : bool) (value : option V) (identity : Z)
    (w : Work V) : bool :=
  let '(attribute, ascending) := _sql_sort_spec query in
  let forward_identity := if ascending then identity <? work_id w else work_id w <? identity in
  let backward_identity := if ascending then work_id w <? identity else identity <? work_id w in
  let identity_expression := if after then forward_identity else backward_identity in
  let col := value_of attribute w in
  match value with
  | None =>
      let same_null := bool_decide (col = None) && identity_expression in
      if after then same_null else bool_decide (col ≠ None) || same_null
  | Some v =>
      let greater := match col with Some c => vlt v c | None => false end in
      let less := match col with Some c => vlt c v | None => false end in
      let value_expression :=
        if ascending then (if after then greater else less) else (if after then less else greater) in
      let same_value := bool_decide (col = Some v) && identity_expression in
      if after then value_expression || bool_decide (col = None) || same_value
      else value_expression || same_value
  end.

(** ** Base64 with the URL alphabet *)

Definition b64_char (v : Z) : Z :=
  if v <? 26 then 65 + v else if v <? 52 then 71 + v else if v <? 62 then v - 4
  else if v =? 62 then 45 else 95.

(** The value of a character; [+] and [/] are accepted beside [-] and [_]. *)
Definition b64_value (c : Z) : option Z :=
  if (65 <=? c) && (c <=? 90) then Some (c - 65)
  else if (97 <=? c) && (c <=? 122) then Some (c - 71)
  else if (48 <=? c) && (c <=? 57) then Some (c + 4)
  else if (c =? 45) || (c =? 43) then Some 62
  else if (c =? 95) || (c =? 47) then Some 63
  else None.

(** [base64.urlsafe_b64encode] *)
Fixpoint urlsafe_b64encode (b : list Z) : pystr :=
  match b with
  | x :: y :: z :: b' =>
      b64_char (x / 4) :: b64_char (x mod 4 * 16 + y / 16) ::
      b64_char (y mod 16 * 4 + z / 64) :: b64_char (z mod 64) :: urlsafe_b64encode b'
  | [x; y] => [b64_char (x / 4); b64_char (x mod 4 * 16 + y / 16); b64_char (y mod 16 * 4); 61]
  | [x] => [b64_char (x / 4); b64_char (x mod 4 * 16); 61; 61]
  | [] => []
  end.

(** [base64.urlsafe_b64decode]: other characters are skipped, a filled quad
    with its padding ends the text, an open quad is an error. *)
Fixpoint b64_loop (s : pystr) (quad_pos pads left : Z) : option (list Z) :=
  match s with
  | [] => if quad_pos =? 0 then Some [] else None
  | c :: s' =>
      if c =? 61 then
        if (2 <=? quad_pos) && (4 <=? quad_pos + (pads + 1)) then Some []
        else b64_loop s' quad_pos (pads + 1) left
      else match b64_value c with
        | None => b64_loop s' quad_pos pads left
        | Some v =>
            if quad_pos =? 0 then b64_loop s' 1 0 v
            else if quad_pos =? 1 then cons (left * 4 + v / 16) <$> b64_loop s' 2 0 (v mod 16)
            else if quad_pos =? 2 then cons (left * 16 + v / 4) <$> b64_loop s' 3 0 (v mod 4)
            else cons (left * 64 + v) <$> b64_loop s' 0 0 0
        end
  end.
Definition urlsafe_b64decode (s : pystr) : option (list Z) :=
  if is_ascii s then b64_loop s 0 0 0 else None.

(** [encoded.rstrip("=")] and [cursor + "=" * (-len(cursor) % 4)] *)
Fixpoint drop_equals (s : pystr) : pystr :=
  match s with c :: s' => if c =? 61 then drop_equals s' else s | [] => [] end.
Definition rstrip_equals (s : pystr) : pystr := rev (drop_equals (rev s)).
Definition pad_equals (s : pystr) : pystr :=
  s ++ repeat 61 (Z.to_nat ((- Z.of_nat (length s)) mod 4)).

(** ** Cursors *)

(** The JSON objects of the two cursor kinds; an absent key is [None]. *)
Record WorkPayload := mkWorkPayload {
  wp_v : option Z; wp_q : option pystr; wp_sfw : bool; wp_sort : option pystr;
  wp_seek : option pystr; wp_value : option V; wp_id : option Z }.

Record RandomPayload := mkRandomPayload {
  rp_v : option Z; rp_q : option pystr; rp_sfw : bool; rp_sort : option pystr;
  rp_seed : option Z; rp_phase : option Z; rp_seek : option pystr;
  rp_key : option Z; rp_id : option Z }.

Definition is_uuid (i : Z) : Prop := 0 <= i < 2 ^ 128.
Definition is_byte (b : Z) : Prop := 0 <= b < 256.

(** [sha256(...).hexdigest()[:16]], [blake2b(..., digest_size=8)] and the JSON
    text of a payload in bytes, whose values ([datetime.isoformat], [float],
    [str], the UUID text) are read back by the conversions of the decoders. *)
Class CursorWire := {
  sha256_16 : pystr → pystr;
  blake2b_8 : list Z → list Z;
  dumps_work : WorkPayload → list Z;
  loads_work : list Z → option WorkPayload;
  dumps_random : RandomPayload → list Z;
  loads_random : list Z → option RandomPayload;
  dumps_work_bytes p : dumps_work p ≠ [] ∧ Forall is_byte (dumps_work p);
  dumps_random_bytes p : dumps_random p ≠ [] ∧ Forall is_byte (dumps_random p);
  loads_random_uuid b p i : loads_random b = Some p → rp_id p = Some i → is_uuid i;
  loads_dumps_work p : (∀ i, wp_id p = Some i → is_uuid i) → loads_work (dumps_work p) = Some p;
  loads_dumps_random p : (∀ i, rp_id p = Some i → is_uuid i) → loads_random (dumps_random p) = Some p }.

Context `{!CursorWire}.

Definition _encode_work_cursor (query : SearchQuery) (w : Work V) (seek : pystr) (force_sfw : bool)
    : pystr :=
  let '(attribute, _) := _sql_sort_spec query in
  rstrip_equals (urlsafe_b64encode (dumps_work
    (mkWorkPayload (Some 1) (Some (sha256_16 (canonical query))) force_sfw
       (Some (selected_sort query)) (Some seek) (column w attribute) (Some (work_id w))))).

Definition is_seek (s : option pystr) : bool :=
  bool_decide (s = Some (u "after")) || bool_decide (s = Some (u "before")).

Definition _decode_work_cursor (cursor : pystr) (query : SearchQuery) (force_sfw : bool)
    : result page_error (pystr * option V * Z) :=
  match urlsafe_b64decode (pad_equals cursor) ≫= loads_work with
  | None => Err StaleCursor
  | Some p =>
      if negb (bool_decide (wp_v p = Some 1)) ||
         negb (bool_decide (wp_q p = Some (sha256_16 (canonical query)))) ||
         negb (Bool.eqb (wp_sfw p) force_sfw) ||
         negb (bool_decide (wp_sort p = Some (selected_sort query))) ||
         negb (is_seek (wp_seek p))
      then Err StaleCursor
      else match wp_seek p, wp_id p with
           | Some seek, Some i => Ok (seek, wp_value p, i)
           | _, _ => Err StaleCursor
           end
  end.

Record RandomWorkCursor := mkRandomCursor {
  rc_seek : pystr; rc_key : Z; rc_identity : Z; rc_phase : Z }.

Definition SHUFFLE_RING_SIZE : Z := Z.shiftl 1 63.

(** [seed.to_bytes(4, "big")] and [int.from_bytes(digest, "big")] *)
Definition to_bytes4 (n : Z) : list Z :=
  [n / 2 ^ 24 mod 256; n / 2 ^ 16 mod 256; n / 2 ^ 8 mod 256; n mod 256].
Definition from_bytes (b : list Z) : Z := foldl (λ acc x, acc * 256 + x) 0 b.

Definition _shuffle_ring_start (seed : Z) : result page_error Z :=
  if (0 <=? seed) && (seed <=? 0xFFFFFFFF)
  then Ok (Z.land (from_bytes (blake2b_8 (to_bytes4 seed))) (SHUFFLE_RING_SIZE - 1))
  else Err BadSeed.

Definition is_phase (p : Z) : bool := (p =? 0) || (p =? 1).

Definition _encode_random_work_cursor (query : SearchQuery) (w : Work V) (seek : pystr)
    (force_sfw : bool) (seed phase : Z) : result page_error pystr :=
  if negb (is_seek (Some seek)) || negb (is_phase phase) then Err BadBoundary
  else Ok (rstrip_equals (urlsafe_b64encode (dumps_random
    (mkRandomPayload (Some 2) (Some (sha256_16 (canonical query))) force_sfw (Some (u "random"))
       (Some seed) (Some phase) (Some seek) (Some (shuffle_key w)) (Some (work_id w)))))).

Definition _decode_random_work_cursor (cursor : pystr) (query : SearchQuery) (force_sfw : bool)
    (seed : Z) : result page_error RandomWorkCursor :=
  match urlsafe_b64decode (pad_equals cursor) ≫= loads_random with
  | None => Err StaleCursor
  | Some p =>
      if negb (bool_decide (rp_v p = Some 2)) ||
         negb (bool_decide (rp_q p = Some (sha256_16 (canonical query)))) ||
         negb (Bool.eqb (rp_sfw p) force_sfw) ||
         negb (bool_decide (rp_sort p = Some (u "random"))) ||
         negb (bool_decide (rp_seed p = Some seed)) ||
         negb (match rp_phase p with Some ph => is_phase ph | None => false end) ||
         negb (is_seek (rp_seek p))
      then Err StaleCursor
      else match rp_key p, rp_seek p, rp_id p, rp_phase p with
           | Some key, Some seek, Some i, Some phase =>
               if (0 <=? key) && (key <? SHUFFLE_RING_SIZE)
               then Ok (mkRandomCursor seek key i phase) else Err StaleCursor
           | _, _, _, _ => Err StaleCursor
           end
  end.

(** ** Pages from the database *)

(** [ORDER BY shuffle_key, id] *)
Definition ring_lt (x y : Work V) : bool :=
  (shuffle_key x <? shuffle_key y) ||
  ((shuffle_key x =? shuffle_key y) && (work_id x <? work_id y)).

Definition phase_condition (start phase : Z) (w : Work V) : bool :=
  if phase =? 0 then start <=? shuffle_key w else shuffle_key w <? start.

(** The seek condition of a ring page. *)
Definition ring_seek (reverse : bool) (boundary : option RandomWorkCursor) (w : Work V) : bool :=
  match boundary with
  | None => true
  | Some b =>
      if reverse then (shuffle_key w <? rc_key b) ||
                      ((shuffle_key w =? rc_key b) && (work_id w <? rc_identity b))
      else (rc_key b <? shuffle_key w) ||
           ((shuffle_key w =? rc_key b) && (rc_identity b <? work_id w))
  end.

(** One statement on one phase of the ring: it returns the rows, and how many
    rows its condition selects without offset and limit. *)
Definition fetcher := Z → nat → bool → nat → option RandomWorkCursor → list (Work V) * nat.

Definition fetch_phase (table : list (Work V)) (start : Z) : fetcher :=
  λ phase count reverse phase_offset boundary,
  if (count =? 0)%nat then ([], 0%nat)
  else
    let cond := λ w, phase_condition start phase w && ring_seek reverse boundary w in
    (select_rows cond (if reverse then descending ring_lt else ring_lt) phase_offset count table,
     length (List.filter cond table)).

(** The phase that follows in the direction of travel. *)
Definition adjacent_phase (reverse : bool) (phase : Z) : option Z :=
  if reverse && (phase =? 1) then Some 0
  else if negb reverse && (phase =? 0) then Some 1
  else None.

(** The rows around a decoded cursor. *)
Definition ring_cursor_page (fetch : fetcher) (limit : nat) (b : RandomWorkCursor) : list (Work V) :=
  let reverse := bool_decide (rc_seek b = u "before") in
  let rows := (fetch (rc_phase b) limit reverse 0%nat (Some b)).1 in
  let rows :=
    if (length rows <? limit)%nat then
      match adjacent_phase reverse (rc_phase b) with
      | Some p => rows ++ (fetch p (limit - length rows)%nat reverse 0%nat None).1
      | None => rows
      end
    else rows in
  if reverse then rev rows else rows.

(** The cursor must lie in the phase it names. *)
Definition ring_cursor (cursor : pystr) (query : SearchQuery) (force_sfw : bool) (seed start : Z)
    : result page_error RandomWorkCursor :=
  _decode_random_work_cursor cursor query force_sfw seed ≫= λ b,
  if rc_phase b =? (if start <=? rc_key b then 0 else 1) then Ok b else Err StaleCursor.

Definition _fetch_random_work_page (table : list (Work V)) (query : SearchQuery)
    (offset limit : nat) (force_sfw : bool) (cursor : option pystr) (seed : Z)
    : result page_error (list (Work V)) :=
  _shuffle_ring_start seed ≫= λ start,
  let fetch := fetch_phase table start in
  match cursor with
  | Some ((_ :: _) as c) =>
      ring_cursor c query force_sfw seed start ≫= λ b, Ok (ring_cursor_page fetch limit b)
  | _ =>
      let phase_zero_count := length (List.filter (phase_condition start 0) table) in
      let '(phase, phase_offset) :=
        if negb (offset =? 0)%nat && (phase_zero_count <=? offset)%nat
        then (1, (offset - phase_zero_count)%nat) else (0, offset) in
      let rows := (fetch phase limit false phase_offset None).1 in
      Ok (if (phase =? 0) && (length rows <? limit)%nat
          then rows ++ (fetch 1 (limit - length rows)%nat false 0%nat None).1 else rows)
  end.

(** The cursor texts a ring page carries ([cursor_work] reads the same two
    columns back from a hit). *)
Definition ring_next_cursor (query : SearchQuery) (force_sfw : bool) (seed start : Z)
    (w : Work V) (seek : pystr) : result page_error pystr :=
  _encode_random_work_cursor query w seek force_sfw seed (if start <=? shuffle_key w then 0 else 1).

(** The page of [_search_works_db] sorted by a column. *)
Definition sorted_work_page (table : list (Work V)) (query : SearchQuery) (offset limit : nat)
    (force_sfw : bool) (cursor : option pystr) : result page_error (list (Work V)) :=
  match cursor with
  | Some ((_ :: _) as c) =>
      _decode_work_cursor c query force_sfw ≫= λ '(seek, boundary, boundary_id),
      let reverse := bool_decide (seek = u "before") in
      let rows := select_rows (_work_seek_expression query (bool_decide (seek = u "after")) boundary boundary_id)
                    (_apply_sql_sort query reverse) 0%nat limit table in
      Ok (if reverse then rev rows else rows)
  | _ => Ok (select_rows (λ _, true) (_apply_sql_sort query false) offset limit table)
  end.
End Pages.
