(* ===== verification/SearchPagesFacts.v ===== *)
(** * Facts about search pages

    Cursor texts are read back; every page is a slice of one fixed order of the
    matching works; following the next cursor visits each work once. *)

From stdpp Require Import base strings list numbers.
From S2P Require Import Prelude PyStr SearchTables SearchLanguage Keyset SearchPages.

Open Scope Z_scope.

(** ** Base64 *)

Lemma b64_value_char v : 0 <= v < 64 → b64_value (b64_char v) = Some v ∧ b64_char v ≠ 61.
Proof.
  intros Hv. unfold b64_char.
  repeat match goal with |- context [if ?b then _ else _] =>
    lazymatch b with context [b64_value] => fail | _ => destruct b eqn:? end end;
    unfold b64_value; rewrite ?Z.ltb_lt, ?Z.ltb_ge, ?Z.eqb_eq, ?Z.eqb_neq in *;
    repeat match goal with |- context [if ?b then _ else _] => destruct b eqn:? end;
    rewrite ?andb_true_iff, ?andb_false_iff, ?orb_true_iff, ?orb_false_iff, ?Z.leb_le, ?Z.leb_gt,
      ?Z.eqb_eq, ?Z.eqb_neq in *; (split; [f_equal|]; lia) || lia.
Qed.

Lemma b64_char_ascii v : 0 <= v < 64 → 0 <= b64_char v < 128.
Proof.
  intros Hv. unfold b64_char. repeat case_test; rewrite ?Z.ltb_lt, ?Z.ltb_ge in *; lia.
Qed.

(** One more digit of a quad. *)
Lemma b64_loop_char v s quad pads left : 0 <= v < 64 →
  b64_loop (b64_char v :: s) quad pads left =
  if quad =? 0 then b64_loop s 1 0 v
  else if quad =? 1 then cons (left * 4 + v / 16) <$> b64_loop s 2 0 (v mod 16)
  else if quad =? 2 then cons (left * 16 + v / 4) <$> b64_loop s 3 0 (v mod 4)
  else cons (left * 64 + v) <$> b64_loop s 0 0 0.
Proof.
  intros Hv. destruct (b64_value_char v Hv) as [E1 E2]. cbn.
  apply Z.eqb_neq in E2 as ->. by rewrite E1.
Qed.

(** Induction over the groups of three bytes. *)
Lemma bytes3_ind (P : list Z → Prop) :
  P [] → (∀ x, P [x]) → (∀ x y, P [x; y]) →
  (∀ x y z b, P b → P (x :: y :: z :: b)) → ∀ b, P b.
Proof.
  intros H0 H1 H2 H3. assert (∀ b, P b ∧ (∀ x, P (x :: b)) ∧ ∀ x y, P (x :: y :: b)) as Hb; [|apply Hb].
  induction b as [|z b (IH1 & IH2 & IH3)]; [auto|]. split_and!; auto.
Qed.

Ltac quads := Z.to_euclidean_division_equations; lia.

Lemma b64_loop_end left : b64_loop [61; 61] 2 0 left = Some [] ∧ b64_loop [61] 3 0 left = Some [].
Proof. done. Qed.

Lemma b64_loop_encode b : Forall is_byte b → b64_loop (urlsafe_b64encode b) 0 0 0 = Some b.
Proof.
  unfold is_byte. induction b as [|x|x y|x y z b IH] using bytes3_ind; intros Hb; [done|..].
  - inversion_clear Hb. cbn [urlsafe_b64encode]. rewrite !b64_loop_char by quads. cbn [Z.eqb Pos.eqb].
    destruct (b64_loop_end ((x mod 4 * 16) mod 16)) as [-> _]. cbn [fmap option_fmap option_map].
    do 2 f_equal. quads.
  - inversion_clear Hb as [|? ? Hx Hb']. inversion_clear Hb'. cbn [urlsafe_b64encode].
    rewrite !b64_loop_char by quads. cbn [Z.eqb Pos.eqb].
    destruct (b64_loop_end ((y mod 16 * 4) mod 4)) as [_ ->]. cbn [fmap option_fmap option_map].
    f_equal. f_equal; [quads|]. f_equal. quads.
  - inversion_clear Hb as [|? ? Hx Hb']. inversion_clear Hb' as [|? ? Hy Hb''].
    inversion_clear Hb'' as [|? ? Hz Hb]. cbn [urlsafe_b64encode].
    rewrite !b64_loop_char by quads. cbn [Z.eqb Pos.eqb]. rewrite IH by done.
    cbn [fmap option_fmap option_map]. f_equal. f_equal; [quads|]. f_equal; [quads|]. f_equal. quads.
Qed.

Lemma encode_ascii b : Forall is_byte b → is_ascii (urlsafe_b64encode b) = true.
Proof.
  assert (∀ v, 0 <= v < 64 → (0 <=? b64_char v) && (b64_char v <? 128) = true) as Hc.
  { intros v Hv%b64_char_ascii. rewrite andb_true_iff, Z.leb_le, Z.ltb_lt. lia. }
  unfold is_byte, is_ascii. induction b as [|x|x y|x y z b IH] using bytes3_ind; intros Hb; [done|..];
    repeat match goal with H : Forall _ (_ :: _) |- _ => inversion_clear H end; cbn [urlsafe_b64encode forallb];
    rewrite !Hc by quads; auto.
Qed.

(** ** Padding *)

Lemma rstrip_equals_app s n : 61 ∉ s → rstrip_equals (s ++ repeat 61 n) = s.
Proof.
  intros Hs. induction n as [|n IH].
  - rewrite app_nil_r. unfold rstrip_equals. rewrite <-(List.rev_involutive s) at 2. f_equal.
    assert (61 ∉ rev s) as Hr by by rewrite <-Permutation_rev.
    destruct (rev s) as [|c r]; [done|]. apply not_elem_of_cons in Hr as [Hc _]. cbn.
    by assert ((c =? 61) = false) as -> by (by apply Z.eqb_neq).
  - transitivity (rstrip_equals (s ++ repeat 61 n)); [|done]. unfold rstrip_equals. f_equal.
    assert (repeat 61 (S n) = repeat 61 n ++ [61]) as -> by apply List.repeat_cons.
    by rewrite app_assoc, rev_app_distr.
Qed.

(** The text without padding, and how much padding it had. *)
Lemma encode_shape b : Forall is_byte b →
  ∃ core k, urlsafe_b64encode b = core ++ repeat 61 k ∧ (61 ∉ core) ∧
    k = Z.to_nat ((- Z.of_nat (length core)) mod 4).
Proof.
  assert (∀ v, 0 <= v < 64 → 61 ≠ b64_char v) as Hc.
  { intros v Hv. symmetry. by apply b64_value_char. }
  unfold is_byte. induction b as [|x|x y|x y z b IH] using bytes3_ind; intros Hb;
    repeat match goal with H : Forall _ (_ :: _) |- _ => inversion_clear H end; cbn [urlsafe_b64encode].
  - exists [], 0%nat. split_and!; [done|apply not_elem_of_nil|done].
  - eexists [_; _], 2%nat. split_and!; [reflexivity| |reflexivity].
    rewrite !not_elem_of_cons. split_and!; [apply Hc; quads..|apply not_elem_of_nil].
  - eexists [_; _; _], 1%nat. split_and!; [reflexivity| |reflexivity].
    rewrite !not_elem_of_cons. split_and!; [apply Hc; quads..|apply not_elem_of_nil].
  - destruct IH as (core & k & -> & Hn & Hk); [done|]. eexists (_ :: _ :: _ :: _ :: core), k.
    split_and!; [reflexivity| |].
    + rewrite !not_elem_of_cons. split_and!; [apply Hc; quads..|done].
    + rewrite Hk. f_equal. cbn [length]. rewrite !Nat2Z.inj_succ. quads.
Qed.

(** A cursor text without its padding is decoded to the bytes it encodes. *)
Lemma cursor_bytes b : Forall is_byte b →
  urlsafe_b64decode (pad_equals (rstrip_equals (urlsafe_b64encode b))) = Some b.
Proof.
  intros Hb. destruct (encode_shape b Hb) as (core & k & E & Hn & Hk).
  assert (pad_equals (rstrip_equals (urlsafe_b64encode b)) = urlsafe_b64encode b) as ->.
  { rewrite E, rstrip_equals_app by done. unfold pad_equals. by rewrite <-Hk. }
  unfold urlsafe_b64decode. by rewrite encode_ascii, b64_loop_encode.
Qed.

Lemma cursor_nonempty b : b ≠ [] → Forall is_byte b → rstrip_equals (urlsafe_b64encode b) ≠ [].
Proof.
  intros Hne Hb E. pose proof (cursor_bytes b Hb) as Hc. rewrite E in Hc. cbn in Hc.
  by injection Hc as <-.
Qed.

Lemma filter_and {A} (p q : A → bool) l :
  List.filter (λ x, p x && q x) l = List.filter q (List.filter p l).
Proof.
  induction l as [|x l IH]; cbn; [done|]. destruct (p x); cbn; [|done]. destruct (q x); by rewrite IH.
Qed.

Section Facts.
Context {V : Type} `{!EqDecision V} `{!ColumnOrder V} `{!CursorWire (V := V)}.
Implicit Types (table : list (Work V)) (w : Work V).

(** ** The ring *)

Global Instance ring_order : RowOrder work_id (ring_lt (V := V)).
Proof.
  split; unfold ring_lt; intros *.
  - rewrite !Z.ltb_irrefl. by rewrite andb_false_r.
  - rewrite !orb_true_iff, !andb_true_iff, !Z.ltb_lt, !Z.eqb_eq. lia.
  - rewrite !orb_true_iff, !andb_true_iff, !Z.ltb_lt, !Z.eqb_eq. lia.
Qed.

Section Ring.
Context (table : list (Work V)) (start : Z) (Hdistinct : NoDup (work_id <$> table)).

(** The rows of one phase, and the whole ring from its starting point. *)
Definition phase_rows (phase : Z) : list (Work V) :=
  order_by ring_lt (List.filter (phase_condition start phase) table).
Definition ring_rows : list (Work V) := phase_rows 0 ++ phase_rows 1.

Lemma ring_rows_perm : ring_rows ≡ₚ table.
Proof.
  unfold ring_rows, phase_rows. rewrite !order_by_perm. clear Hdistinct.
  induction table as [|w l IH]; cbn; [done|]. unfold phase_condition at 1 3. cbn.
  destruct (Z.leb_spec start (shuffle_key w)), (Z.ltb_spec (shuffle_key w) start); try lia; cbn.
  - by rewrite IH.
  - by rewrite <-Permutation_middle, IH.
Qed.

Lemma phase_rows_in phase w : w ∈ phase_rows phase → phase_condition start phase w = true.
Proof.
  unfold phase_rows. rewrite order_by_perm. intros Hw%list_elem_of_In. apply List.filter_In in Hw as [_ Hw]. exact Hw.
Qed.

Lemma fetch_all phase n reverse offset :
  (fetch_phase table start phase n reverse offset None).1 =
  take n (drop offset (if reverse then rev (phase_rows phase) else phase_rows phase)).
Proof.
  unfold fetch_phase. destruct (Nat.eqb_spec n 0) as [->|]; [done|]. cbn [fst]. unfold select_rows.
  rewrite (filter_ext _ (phase_condition start phase)) by (intros; apply andb_true_r).
  destruct reverse; [|done]. do 2 f_equal. apply (order_by_descending work_id ring_lt). by apply distinct_filter.
Qed.

(** A cursor on a row of the ring. *)
Definition cursor_on (seek : pystr) (phase : Z) w : RandomWorkCursor :=
  mkRandomCursor seek (shuffle_key w) (work_id w) phase.

Lemma ring_seek_after seek phase w x : ring_seek false (Some (cursor_on seek phase w)) x = ring_lt w x.
Proof. unfold ring_seek, ring_lt. cbn. by rewrite (Z.eqb_sym (shuffle_key x)). Qed.

Lemma fetch_after seek phase n w i : phase_rows phase !! i = Some w →
  (fetch_phase table start phase n false 0%nat (Some (cursor_on seek phase w))).1 =
  take n (drop (S i) (phase_rows phase)).
Proof.
  intros Hw. unfold fetch_phase. destruct (Nat.eqb_spec n 0) as [->|]; [done|]. cbn [fst].
  unfold select_rows. rewrite drop_0. f_equal. rewrite filter_and.
  rewrite (filter_ext _ (ring_lt w)) by (intros; apply ring_seek_after).
  apply (after_position work_id ring_lt); [by apply distinct_filter|done].
Qed.

Lemma fetch_before seek phase n w i : phase_rows phase !! i = Some w →
  (fetch_phase table start phase n true 0%nat (Some (cursor_on seek phase w))).1 =
  take n (rev (take i (phase_rows phase))).
Proof.
  intros Hw. unfold fetch_phase. destruct (Nat.eqb_spec n 0) as [->|]; [done|]. cbn [fst].
  unfold select_rows. rewrite drop_0. f_equal. rewrite filter_and.
  rewrite (filter_ext _ (λ x, ring_lt x w)) by done.
  apply (before_position work_id ring_lt); [by apply distinct_filter|done].
Qed.

(** The phase of a row. *)
Definition phase_of w : Z := if start <=? shuffle_key w then 0 else 1.

(** Where a position of the ring lies. *)
Lemma ring_position i w : ring_rows !! i = Some w →
  (phase_of w = 0 ∧ phase_rows 0 !! i = Some w ∧ (i < length (phase_rows 0))%nat) ∨
  (phase_of w = 1 ∧ phase_rows 1 !! (i - length (phase_rows 0))%nat = Some w ∧
   (length (phase_rows 0) <= i)%nat).
Proof.
  unfold ring_rows, phase_of. intros [Hw|[Hlen Hw]]%lookup_app_Some.
  - left. pose proof (phase_rows_in 0 w (list_elem_of_lookup_2 _ _ _ Hw)) as Hc. cbn in Hc.
    rewrite Hc. split_and!; [done|done|by eapply lookup_lt_Some].
  - right. pose proof (phase_rows_in 1 w (list_elem_of_lookup_2 _ _ _ Hw)) as Hc. cbn in Hc.
    apply Z.ltb_lt in Hc. assert ((start <=? shuffle_key w) = false) as -> by (apply Z.leb_gt; lia).
    by split_and!.
Qed.

(** A page that goes over to the next phase when it is short. *)
Lemma spill n (l1 l2 : list (Work V)) :
  (if (length (take n l1) <? n)%nat then take n l1 ++ take (n - length (take n l1)) l2 else take n l1) =
  take n (l1 ++ l2).
Proof.
  rewrite <-take_spill. destruct (Nat.ltb_spec (length (take n l1)) n); [done|].
  by replace (n - length (take n l1))%nat with 0%nat by lia; rewrite app_nil_r.
Qed.

Lemma ring_page_after n i w : ring_rows !! i = Some w →
  ring_cursor_page (fetch_phase table start) n (cursor_on (u "after") (phase_of w) w) =
  take n (drop (S i) ring_rows).
Proof.
  intros Hw. unfold ring_cursor_page. cbn [rc_seek rc_phase cursor_on].
  rewrite bool_decide_eq_false_2 by done.
  destruct (ring_position i w Hw) as [(-> & Hi & Hlt)|(-> & Hi & Hge)]; cbn [adjacent_phase andb negb Z.eqb];
    rewrite (fetch_after _ _ n w _ Hi); unfold ring_rows.
  - rewrite fetch_all, drop_0, spill, drop_app_le by lia. done.
  - rewrite drop_app_ge by lia. replace (S i - length (phase_rows 0))%nat with (S (i - length (phase_rows 0))) by lia.
    by case_test.
Qed.

Lemma ring_page_before n i w : ring_rows !! i = Some w →
  ring_cursor_page (fetch_phase table start) n (cursor_on (u "before") (phase_of w) w) =
  rev (take n (rev (take i ring_rows))).
Proof.
  intros Hw. unfold ring_cursor_page. cbn [rc_seek rc_phase cursor_on].
  rewrite bool_decide_eq_true_2 by done. f_equal.
  destruct (ring_position i w Hw) as [(-> & Hi & Hlt)|(-> & Hi & Hge)]; cbn [adjacent_phase andb negb Z.eqb Pos.eqb];
    rewrite (fetch_before _ _ n w _ Hi); unfold ring_rows.
  - rewrite take_app_le by lia. by case_test.
  - rewrite (take_app_ge (phase_rows 0)) by lia. by rewrite fetch_all, drop_0, spill, rev_app_distr.
Qed.
End Ring.
End Facts.
