(* ===== verification/SearchWalk.v ===== *)
(** * Walking through search results

    The promises of cursor pagination: cursors are bound to their search, and
    following them visits every matching work exactly once, in the shuffled
    ring as well as in a sorted column with NULLs. *)

From stdpp Require Import base strings list numbers.
From S2P Require Import Prelude PyStr SearchTables SearchLanguage Keyset SearchPages SearchPagesFacts.

Open Scope Z_scope.

Section Walk.
Context {V : Type} `{!EqDecision V} `{!ColumnOrder V} `{!CursorWire (V := V)}.
Implicit Types (table : list (Work V)) (w : Work V) (query : SearchQuery).

(** What the [works] table guarantees of a row. *)
Definition row_ok (w : Work V) : Prop :=
  is_uuid (work_id w) ∧ 0 <= shuffle_key w < SHUFFLE_RING_SIZE.

(** ** Cursor texts *)

(** Reading the payload of a cursor text. *)
Lemma random_payload_text p : (∀ i, rp_id p = Some i → is_uuid i) →
  let text := rstrip_equals (urlsafe_b64encode (dumps_random p)) in
  text ≠ [] ∧ urlsafe_b64decode (pad_equals text) ≫= loads_random = Some p.
Proof.
  intros Hid. cbn zeta. destruct (dumps_random_bytes p) as [Hne Hb]. split; [by apply cursor_nonempty|].
  rewrite cursor_bytes by done. by apply loads_dumps_random.
Qed.

Lemma work_payload_text p : (∀ i, wp_id p = Some i → is_uuid i) →
  let text := rstrip_equals (urlsafe_b64encode (dumps_work p)) in
  text ≠ [] ∧ urlsafe_b64decode (pad_equals text) ≫= loads_work = Some p.
Proof.
  intros Hid. cbn zeta. destruct (dumps_work_bytes p) as [Hne Hb]. split; [by apply cursor_nonempty|].
  rewrite cursor_bytes by done. by apply loads_dumps_work.
Qed.

Lemma decode_random_encoded query query' w seek sfw sfw' seed seed' phase text :
  row_ok w → _encode_random_work_cursor query w seek sfw seed phase = Ok text →
  text ≠ [] ∧
  _decode_random_work_cursor text query' sfw' seed' =
    if bool_decide (sha256_16 (canonical query) = sha256_16 (canonical query') ∧
                    sfw = sfw' ∧ seed = seed')
    then Ok (mkRandomCursor seek (shuffle_key w) (work_id w) phase) else Err StaleCursor.
Proof.
  intros [Hid Hkey]. unfold _encode_random_work_cursor, _decode_random_work_cursor.
  destruct (is_seek (Some seek)) eqn:Hs, (is_phase phase) eqn:Hp; cbn [negb orb]; try done.
  intros [= <-]. match goal with |- context [dumps_random ?p] =>
    destruct (random_payload_text p) as [Hne Hl]; [by intros i [= <-]|rewrite Hl] end.
  split; [done|]. cbn [rp_v rp_q rp_sfw rp_sort rp_seed rp_phase rp_seek rp_key rp_id].
  rewrite Hs, Hp, (bool_decide_eq_true_2 (Some 2 = Some 2)),
    (bool_decide_eq_true_2 (Some (u "random") = _)) by done. cbn [negb orb].
  assert ((0 <=? shuffle_key w) && (shuffle_key w <? SHUFFLE_RING_SIZE) = true) as ->
    by (rewrite andb_true_iff, Z.leb_le, Z.ltb_lt; lia).
  destruct (decide (sha256_16 (canonical query) = sha256_16 (canonical query') ∧ sfw = sfw' ∧ seed = seed'))
    as [Hall|Hall]; [rewrite (bool_decide_eq_true_2 _ Hall)|rewrite (bool_decide_eq_false_2 _ Hall)].
  - destruct Hall as (-> & -> & ->). rewrite !bool_decide_eq_true_2 by done.
    by rewrite Bool.eqb_reflx.
  - assert (negb (bool_decide (Some (sha256_16 (canonical query)) = Some (sha256_16 (canonical query')))) ||
      negb (Bool.eqb sfw sfw') || negb (bool_decide (Some seed = Some seed')) = true) as Hf.
    { rewrite !orb_true_iff, !negb_true_iff, !bool_decide_eq_false, Bool.eqb_false_iff.
      destruct (decide (sha256_16 (canonical query) = sha256_16 (canonical query'))), (decide (seed = seed')),
        (decide (sfw = sfw')); naive_solver congruence. }
    destruct (bool_decide (Some (sha256_16 _) = _)), (Bool.eqb sfw sfw'),
      (bool_decide (Some seed = Some seed')); done.
Qed.

(** A ring cursor is read back as its boundary by the same search, and is
    refused by a search with another query text, another safety mode or
    another seed. *)
Theorem random_cursor_bound_to_search query query' w seek sfw sfw' seed seed' phase text :
  row_ok w → _encode_random_work_cursor query w seek sfw seed phase = Ok text →
  text ≠ [] ∧
  _decode_random_work_cursor text query' sfw' seed' =
    if bool_decide (sha256_16 (canonical query) = sha256_16 (canonical query') ∧
                    sfw = sfw' ∧ seed = seed')
    then Ok (mkRandomCursor seek (shuffle_key w) (work_id w) phase) else Err StaleCursor.
Proof. apply decode_random_encoded. Qed.

(** ** The shuffled ring *)

Section Ring.
Context (table : list (Work V)) (query : SearchQuery) (sfw : bool) (seed start : Z).
Hypothesis Hdistinct : NoDup (work_id <$> table).
Hypothesis Hrows : Forall row_ok table.
Hypothesis Hstart : _shuffle_ring_start (V := V) seed = Ok start.

Lemma ring_row_ok i w : ring_rows table start !! i = Some w → row_ok w.
Proof.
  intros Hw%list_elem_of_lookup_2. rewrite ring_rows_perm in Hw.
  rewrite List.Forall_forall in Hrows. by apply Hrows, list_elem_of_In.
Qed.

(** The text of a cursor on a row, and the boundary it is read as. *)
Lemma ring_cursor_text i w seek : ring_rows table start !! i = Some w → is_seek (Some seek) = true →
  ∃ text, ring_next_cursor query sfw seed start w seek = Ok text ∧ text ≠ [] ∧
    ring_cursor text query sfw seed start = Ok (cursor_on seek (phase_of start w) w).
Proof.
  intros Hw Hs. pose proof (ring_row_ok i w Hw) as Hok.
  destruct (ring_next_cursor query sfw seed start w seek) as [text|] eqn:E.
  - exists text. unfold ring_next_cursor in E.
    destruct (decode_random_encoded query query w seek sfw sfw seed seed _ text Hok E) as [Hne Hd].
    split_and!; [done|done|]. unfold ring_cursor. rewrite Hd, bool_decide_eq_true_2 by done.
    cbn -[phase_of]. change (if start <=? shuffle_key w then 0 else 1) with (phase_of start w).
    by rewrite Z.eqb_refl.
  - unfold ring_next_cursor, _encode_random_work_cursor in E. rewrite Hs in E.
    by destruct (start <=? shuffle_key w).
Qed.

Lemma ring_first_page offset limit :
  _fetch_random_work_page table query offset limit sfw None seed =
  Ok (take limit (drop offset (ring_rows table start))).
Proof.
  unfold _fetch_random_work_page. rewrite Hstart. cbn [mbind result_bind].
  assert (length (List.filter (phase_condition start 0) table) = length (phase_rows table start 0)) as ->.
  { unfold phase_rows. by rewrite order_by_perm. }
  unfold ring_rows. destruct (Nat.leb_spec (length (phase_rows table start 0)) offset) as [Hge|Hlt].
  - destruct (Nat.eqb_spec offset 0) as [->|]; cbn [negb andb].
    + rewrite !fetch_all, !drop_0, Z.eqb_refl by done. cbn [andb]. by rewrite spill.
    + rewrite fetch_all by done. cbn [Z.eqb andb]. by rewrite drop_app_ge.
  - rewrite andb_false_r, !fetch_all, drop_0, Z.eqb_refl by done. cbn [andb].
    by rewrite spill, drop_app_le by lia.
Qed.

Lemma ring_cursor_pages limit i w seek text : ring_rows table start !! i = Some w →
  is_seek (Some seek) = true → ring_next_cursor query sfw seed start w seek = Ok text →
  _fetch_random_work_page table query 0 limit sfw (Some text) seed =
  Ok (ring_cursor_page (fetch_phase table start) limit (cursor_on seek (phase_of start w) w)).
Proof.
  intros Hw Hs Ht. destruct (ring_cursor_text i w seek Hw Hs) as (text' & Ht' & Hne & Hc).
  rewrite Ht in Ht'. injection Ht' as <-. unfold _fetch_random_work_page. rewrite Hstart.
  cbn [mbind result_bind]. destruct text as [|c text]; [done|]. by rewrite Hc.
Qed.

(** The page of an optional cursor row, as a client follows it. *)
Definition ring_page (limit : nat) (c : option (Work V)) : list (Work V) :=
  match match c with
        | None => _fetch_random_work_page table query 0 limit sfw None seed
        | Some w => ring_next_cursor query sfw seed start w (u "after") ≫= λ text,
                    _fetch_random_work_page table query 0 limit sfw (Some text) seed
        end with
  | Ok rows => rows
  | Err _ => []
  end.
End Ring.

(** Every shuffled page is a slice of one fixed order of the matching
    works: an offset page starts at its offset, the page of a next cursor
    holds the works right after its row, the page of a previous cursor those
    right before it, also across the point where the ring wraps around. *)
Theorem ring_pages_are_slices table query sfw seed start limit :
  NoDup (work_id <$> table) → Forall row_ok table → _shuffle_ring_start (V := V) seed = Ok start →
  let rows := ring_rows table start in
  rows ≡ₚ table ∧
  (∀ offset, _fetch_random_work_page table query offset limit sfw None seed =
             Ok (take limit (drop offset rows))) ∧
  (∀ i w text, rows !! i = Some w → ring_next_cursor query sfw seed start w (u "after") = Ok text →
     _fetch_random_work_page table query 0 limit sfw (Some text) seed = Ok (take limit (drop (S i) rows))) ∧
  (∀ i w text, rows !! i = Some w → ring_next_cursor query sfw seed start w (u "before") = Ok text →
     _fetch_random_work_page table query 0 limit sfw (Some text) seed =
     Ok (rev (take limit (rev (take i rows))))).
Proof.
  intros Hd Hr Hs. cbn zeta. split_and!.
  - apply ring_rows_perm.
  - intros offset. by apply ring_first_page.
  - intros i w text Hw Ht. rewrite (ring_cursor_pages table query sfw seed start Hr Hs limit i w (u "after") text) by done.
    by rewrite (ring_page_after table start Hd limit i w).
  - intros i w text Hw Ht. rewrite (ring_cursor_pages table query sfw seed start Hr Hs limit i w (u "before") text) by done.
    by rewrite (ring_page_before table start Hd limit i w).
Qed.

(** A client that follows the next cursor of each shuffled page until a
    page is empty receives every matching work exactly once, in the order of
    the ring. *)
Theorem ring_walk_visits_once table query sfw seed start limit :
  NoDup (work_id <$> table) → Forall row_ok table → _shuffle_ring_start (V := V) seed = Ok start →
  (1 <= limit)%nat →
  let visited := follow (ring_page table query sfw seed start limit) (S (length table)) None in
  visited = ring_rows table start ∧ visited ≡ₚ table.
Proof.
  intros Hd Hr Hs Hl. cbn zeta.
  assert (follow (ring_page table query sfw seed start limit) (S (length table)) None = ring_rows table start) as ->;
    [|split; [done|apply ring_rows_perm]].
  apply (follow_complete _ _ limit).
  - done.
  - unfold ring_page. by rewrite (ring_first_page _ _ _ _ start) by done.
  - intros i w Hw. unfold ring_page.
    destruct (ring_cursor_text table query sfw seed start Hr i w (u "after") Hw eq_refl) as (text & Ht & _).
    rewrite Ht. cbn [mbind result_bind].
    rewrite (ring_cursor_pages table query sfw seed start Hr Hs limit i w (u "after") text) by done.
    by rewrite (ring_page_after table start Hd limit i w).
  - rewrite ring_rows_perm. lia.
Qed.

(** ** A sorted column *)

(** A sort value that a search for works may carry. *)
Definition works_sort (s : pystr) : bool :=
  match assoc s SORT_TARGETS with Some ts => bool_decide (works ∈ ts) | None => false end.

(** Every such value names a column of [Work]. *)
Lemma works_sort_column query : works_sort (selected_sort query) = true →
  work_column (_sql_sort_spec query).1 = (_sql_sort_spec query).1.
Proof.
  unfold works_sort, _sql_sort_spec. destruct (assoc _ SORT_TARGETS) as [ts|] eqn:E; [|done].
  intros Hw%bool_decide_eq_true. apply assoc_elem_of in E. cbn [fst].
  assert (Forall (λ p : pystr * list SearchTarget, works ∈ p.2 →
    let a := default (u "created_at") (assoc (rsplit_dash p.1) SORT_ATTRIBUTES) in work_column a = a)
    SORT_TARGETS) as Hall.
  { repeat (apply List.Forall_cons; [first [intros _; vm_compute; reflexivity
      |intros Hin%list_elem_of_In; cbn in Hin; intuition discriminate]|]).
    apply List.Forall_nil. }
  rewrite List.Forall_forall in Hall. by apply (Hall (selected_sort query, ts)); [apply list_elem_of_In|].
Qed.

(** A column that is not nullable has no NULL. *)
Definition filled query table : Prop :=
  Forall (λ w, column_nullable (_sql_sort_spec query).1 = false →
               value_of (_sql_sort_spec query).1 w ≠ None) table.

Abbreviation sort_lt query := (_apply_sql_sort (V := V) query false).

Lemma vlt_asym (a b : V) : vlt a b = true → vlt b a = false.
Proof.
  intros H1. destruct (vlt b a) eqn:H2; [|done]. pose proof (vlt_trans _ _ _ H1 H2) as H3.
  by rewrite vlt_irrefl in H3.
Qed.

Lemma vlt_cases (a b : V) :
  (vlt a b = true ∧ vlt b a = false) ∨ (a = b ∧ vlt a b = false ∧ vlt b a = false) ∨
  (vlt b a = true ∧ vlt a b = false).
Proof.
  destruct (decide (a = b)) as [->|Hne]; [right; left; by rewrite vlt_irrefl|].
  destruct (vlt_total a b Hne) as [H1|H1]; rewrite (vlt_asym _ _ H1); auto.
Qed.

(** The order of two column values, ids aside: transitivity. *)
Lemma value_order_trans (a b c : V) asc (xy yz xz : bool) : (xy = true → yz = true → xz = true) →
  (if vlt a b then asc else if vlt b a then negb asc else xy) = true →
  (if vlt b c then asc else if vlt c b then negb asc else yz) = true →
  (if vlt a c then asc else if vlt c a then negb asc else xz) = true.
Proof.
  intros Hid. destruct (vlt_cases a b) as [[H1 H2]|[(-> & _ & _)|[H1 H2]]].
  - rewrite H1. destruct (vlt_cases b c) as [[H3 H4]|[(<- & _ & _)|[H3 H4]]].
    + rewrite H3, (vlt_trans _ _ _ H1 H3). done.
    + by rewrite H1.
    + rewrite H3, H4. by destruct asc.
  - destruct (vlt_cases b c) as [[H3 H4]|[(-> & H3 & H4)|[H3 H4]]]; rewrite ?vlt_irrefl, ?H3, ?H4; auto.
  - rewrite H1, H2. destruct (vlt_cases b c) as [[H3 H4]|[(<- & _ & _)|[H3 H4]]].
    + rewrite H3. by destruct asc.
    + by rewrite H1, H2.
    + rewrite H3, H4. pose proof (vlt_trans _ _ _ H3 H1) as H5. by rewrite H5, (vlt_asym _ _ H5).
Qed.

Global Instance sort_order query : RowOrder work_id (sort_lt query).
Proof.
  unfold _apply_sql_sort. destruct (_sql_sort_spec query) as [attribute asc].
  generalize (if column_nullable attribute then negb false else asc). intros nl.
  split; intros x.
  - destruct (value_of attribute x); rewrite ?vlt_irrefl; destruct asc; apply Z.ltb_irrefl.
  - intros y z. destruct (value_of attribute x) as [a|], (value_of attribute y) as [b|],
      (value_of attribute z) as [c|];
      [apply value_order_trans; destruct asc; rewrite !Z.ltb_lt; lia
      |destruct nl, asc; rewrite ?Z.ltb_lt; first [done|lia]..].
  - intros y Hxy. destruct (value_of attribute x) as [a|], (value_of attribute y) as [b|].
    + destruct (vlt_cases a b) as [[-> ->]|[(-> & -> & _)|[-> ->]]]; destruct asc; rewrite ?Z.ltb_lt; auto; lia.
    + destruct nl; auto.
    + destruct nl; auto.
    + destruct asc; rewrite !Z.ltb_lt; lia.
Qed.

(** The reversed page is read in the opposite order. *)
Lemma reverse_order query (x y : Work V) : _apply_sql_sort query true x y = descending (sort_lt query) x y.
Proof.
  unfold descending, _apply_sql_sort. destruct (_sql_sort_spec query) as [attribute asc].
  destruct (value_of attribute x) as [a|], (value_of attribute y) as [b|].
  - destruct (vlt_cases a b) as [[-> ->]|[(-> & -> & _)|[-> ->]]]; by destruct asc.
  - by destruct (column_nullable attribute), asc.
  - by destruct (column_nullable attribute), asc.
  - by destruct asc.
Qed.

(** The seek conditions are the order itself. *)
Lemma seek_is_order query (b x : Work V) :
  (column_nullable (_sql_sort_spec query).1 = false → value_of (_sql_sort_spec query).1 b ≠ None) →
  (column_nullable (_sql_sort_spec query).1 = false → value_of (_sql_sort_spec query).1 x ≠ None) →
  _work_seek_expression query true (value_of (_sql_sort_spec query).1 b) (work_id b) x = sort_lt query b x ∧
  _work_seek_expression query false (value_of (_sql_sort_spec query).1 b) (work_id b) x = sort_lt query x b.
Proof.
  unfold _work_seek_expression, _apply_sql_sort. destruct (_sql_sort_spec query) as [attribute asc].
  cbn [fst]. destruct (value_of attribute b) as [v|] eqn:Eb, (value_of attribute x) as [c|] eqn:Ex.
  - intros _ _. destruct (vlt_cases v c) as [[H1 H2]|[(-> & H1 & H2)|[H1 H2]]]; rewrite ?H1, ?H2.
    + rewrite (bool_decide_eq_false_2 (Some c = Some v)) by (intros [= ->]; by rewrite vlt_irrefl in H1).
      by destruct asc.
    + rewrite (bool_decide_eq_true_2 (Some c = Some c)) by done. by destruct asc.
    + rewrite (bool_decide_eq_false_2 (Some c = Some v)) by (intros [= ->]; by rewrite vlt_irrefl in H1).
      by destruct asc.
  - intros _ Hx. destruct (column_nullable attribute); [|by destruct (Hx eq_refl)]. by destruct asc.
  - intros Hb _. destruct (column_nullable attribute); [|by destruct (Hb eq_refl)]. by destruct asc.
  - intros Hb _. destruct (column_nullable attribute); [|by destruct (Hb eq_refl)]. by destruct asc.
Qed.

Section Sorted.
Context (table : list (Work V)) (query : SearchQuery) (sfw : bool).
Hypothesis Hdistinct : NoDup (work_id <$> table).
Hypothesis Hids : Forall (λ w, is_uuid (work_id w)) table.
Hypothesis Hfilled : filled query table.
Hypothesis Hsort : works_sort (selected_sort query) = true.

(** The matching works in the order of the search. *)
Definition sorted_rows : list (Work V) := order_by (sort_lt query) table.

Lemma sorted_row i w : sorted_rows !! i = Some w → w ∈ table.
Proof. intros Hw%list_elem_of_lookup_2. unfold sorted_rows in Hw. by rewrite order_by_perm in Hw. Qed.

(** A cursor text on a row is read as its value and identity. *)
Lemma work_cursor_text i w seek : sorted_rows !! i = Some w → is_seek (Some seek) = true →
  let text := _encode_work_cursor query w seek sfw in
  text ≠ [] ∧
  _decode_work_cursor text query sfw = Ok (seek, value_of (_sql_sort_spec query).1 w, work_id w).
Proof.
  intros Hw%sorted_row Hs. cbn zeta. rewrite List.Forall_forall in Hids.
  pose proof (Hids w (proj1 (list_elem_of_In _ _) Hw)) as Hid.
  unfold _encode_work_cursor, _decode_work_cursor. pose proof (works_sort_column query Hsort) as Hc.
  destruct (_sql_sort_spec query) as [attribute asc]. cbn [fst] in *.
  match goal with |- context [dumps_work ?p] =>
    destruct (work_payload_text p) as [Hne Hl]; [by intros j [= <-]|rewrite Hl] end.
  split; [done|]. cbn [wp_v wp_q wp_sfw wp_sort wp_seek wp_value wp_id].
  rewrite Hs, !bool_decide_eq_true_2, Bool.eqb_reflx by done. cbn [negb orb]. unfold value_of. by rewrite Hc.
Qed.

Lemma filled_in w : w ∈ table → column_nullable (_sql_sort_spec query).1 = false →
  value_of (_sql_sort_spec query).1 w ≠ None.
Proof.
  intros Hw. unfold filled in Hfilled. rewrite List.Forall_forall in Hfilled.
  by apply Hfilled, list_elem_of_In.
Qed.

Lemma sorted_first_page offset limit :
  sorted_work_page table query offset limit sfw None = Ok (take limit (drop offset sorted_rows)).
Proof.
  unfold sorted_work_page, select_rows, sorted_rows. do 4 f_equal.
  apply List.forallb_filter_id. by apply List.forallb_forall.
Qed.

Lemma sorted_after_page limit i w : sorted_rows !! i = Some w →
  sorted_work_page table query 0 limit sfw (Some (_encode_work_cursor query w (u "after") sfw)) =
  Ok (take limit (drop (S i) sorted_rows)).
Proof.
  intros Hw. destruct (work_cursor_text i w (u "after") Hw eq_refl) as [Hne Hd].
  unfold sorted_work_page. destruct (_encode_work_cursor query w (u "after") sfw) as [|c text]; [done|].
  rewrite Hd. cbn [mbind result_bind]. rewrite (bool_decide_eq_false_2 (u "after" = u "before")) by done.
  rewrite (bool_decide_eq_true_2 (u "after" = u "after")) by done. unfold select_rows.
  rewrite (filter_ext _ (sort_lt query w)).
  - rewrite drop_0. do 2 f_equal. by apply (after_position work_id (sort_lt query)).
  - intros x Hx. apply seek_is_order; apply filled_in; [by eapply sorted_row|done].
Qed.

Lemma sorted_before_page limit i w : sorted_rows !! i = Some w →
  sorted_work_page table query 0 limit sfw (Some (_encode_work_cursor query w (u "before") sfw)) =
  Ok (rev (take limit (rev (take i sorted_rows)))).
Proof.
  intros Hw. destruct (work_cursor_text i w (u "before") Hw eq_refl) as [Hne Hd].
  unfold sorted_work_page. destruct (_encode_work_cursor query w (u "before") sfw) as [|c text]; [done|].
  rewrite Hd. cbn [mbind result_bind]. rewrite (bool_decide_eq_true_2 (u "before" = u "before")) by done.
  rewrite (bool_decide_eq_false_2 (u "before" = u "after")) by done. unfold select_rows.
  rewrite (filter_ext _ (λ x, sort_lt query x w)).
  - rewrite drop_0, (order_by_ext _ (descending (sort_lt query))) by (intros; apply reverse_order).
    do 3 f_equal. by apply (before_position work_id (sort_lt query)).
  - intros x Hx. apply seek_is_order; apply filled_in; [by eapply sorted_row|done].
Qed.

(** The page of an optional cursor row, as a client follows it. *)
Definition sorted_page (limit : nat) (c : option (Work V)) : list (Work V) :=
  match sorted_work_page table query 0 limit sfw
          ((λ w, _encode_work_cursor query w (u "after") sfw) <$> c) with
  | Ok rows => rows
  | Err _ => []
  end.
End Sorted.

(** C36: a client that follows the next cursor of each page of a sorted search
    receives every matching work exactly once, in the sort order with NULLs
    last; the page of a previous cursor is the slice right before its row. *)
Theorem sorted_walk_visits_once table query sfw limit :
  NoDup (work_id <$> table) → Forall (λ w, is_uuid (work_id w)) table → filled query table →
  works_sort (selected_sort query) = true → (1 <= limit)%nat →
  let visited := follow (sorted_page table query sfw limit) (S (length table)) None in
  visited = sorted_rows table query ∧ visited ≡ₚ table ∧
  (∀ i w, visited !! i = Some w →
     sorted_work_page table query 0 limit sfw (Some (_encode_work_cursor query w (u "before") sfw)) =
     Ok (rev (take limit (rev (take i visited))))).
Proof.
  intros Hd Hi Hf Hs Hl. cbn zeta.
  assert (follow (sorted_page table query sfw limit) (S (length table)) None = sorted_rows table query) as ->.
  { apply (follow_complete _ _ limit); [done| | |unfold sorted_rows; rewrite order_by_perm; lia].
    - unfold sorted_page. cbn [fmap option_fmap option_map]. by rewrite sorted_first_page.
    - intros i w Hw. unfold sorted_page. cbn [fmap option_fmap option_map].
      by rewrite (sorted_after_page table query sfw Hd Hi Hf Hs limit i w Hw). }
  split_and!; [done|apply order_by_perm|]. intros i w Hw. by apply sorted_before_page.
Qed.
End Walk.
