(* ===== verification/SearchMeili.v ===== *)
(** * The shuffle ring in Meilisearch

    The ring filters of [search_pagination.py] as Meilisearch filters over six
    numeric fields, and the [run] closure of [_search_meili_random_works].  A
    filter is kept as its disjunction of conjunctions of comparisons, the
    structure that the text spells out; the engine evaluates filters, sorts by
    the listed fields and cuts with offset and limit. *)

From stdpp Require Import base strings list numbers.
From Stdlib Require Import Btauto.
From S2P Require Import Prelude PyStr SearchTables SearchLanguage Keyset SearchPages SearchPagesFacts SearchWalk.

Open Scope Z_scope.

Definition MEILI_SHUFFLE_FIELDS : list pystr := [
  u "shuffle_high"; u "shuffle_low"; u "shuffle_id_0"; u "shuffle_id_1"; u "shuffle_id_2"; u "shuffle_id_3"].

(** [_meili_shuffle_parts], its dict in the order of the fields. *)
Definition _meili_shuffle_parts (key identity_value : Z) : result page_error (list (pystr * Z)) :=
  if negb ((0 <=? key) && (key <? SHUFFLE_RING_SIZE)) then Err BadShuffleKey
  else Ok [
    (u "shuffle_high", Z.shiftr key 31);
    (u "shuffle_low", Z.land key (Z.shiftl 1 31 - 1));
    (u "shuffle_id_0", Z.land (Z.shiftr identity_value 96) 0xFFFFFFFF);
    (u "shuffle_id_1", Z.land (Z.shiftr identity_value 64) 0xFFFFFFFF);
    (u "shuffle_id_2", Z.land (Z.shiftr identity_value 32) 0xFFFFFFFF);
    (u "shuffle_id_3", Z.land identity_value 0xFFFFFFFF)].

(** ** Filters *)

Inductive meili_op := MEq | MLt | MGt | MLe | MGe.
Record comparison := mkComparison { cmp_field : pystr; cmp_op : meili_op; cmp_value : Z }.

(** A disjunction of conjunctions. *)
Definition dnf := list (list comparison).

Definition or_equal (op : meili_op) : meili_op :=
  match op with MLt => MLe | MGt => MGe | op => op end.

(** The loop of [_meili_tuple_comparison]; [prefix] holds the equalities of
    the earlier positions. *)
Fixpoint tuple_clauses (op : meili_op) (inclusive_last : bool) (prefix : list comparison)
    (pairs : list (pystr * Z)) : dnf :=
  match pairs with
  | [] => []
  | (field, v) :: rest =>
      let last_position := match rest with [] => true | _ => false end in
      (prefix ++ [mkComparison field (if inclusive_last && last_position then or_equal op else op) v])
      :: tuple_clauses op inclusive_last (prefix ++ [mkComparison field MEq v]) rest
  end.

Definition _meili_tuple_comparison (pairs : list (pystr * Z)) (op : meili_op) (inclusive_last : bool) : dnf :=
  tuple_clauses op inclusive_last [] pairs.

(** The conjunction of the query's own filter, the phase and the boundary. *)
Record phase_filter := mkPhaseFilter { pf_base : option pystr; pf_parts : list dnf }.

Definition _meili_random_phase_filter (base_filter : option pystr) (start phase : Z)
    (boundary : option RandomWorkCursor) (reverse : bool) : result page_error phase_filter :=
  if negb (is_phase phase) then Err BadPhase
  else
    _meili_shuffle_parts start 0 ≫= λ start_parts,
    let phase_part := _meili_tuple_comparison (take 2 start_parts)
                        (if phase =? 0 then MGt else MLt) (phase =? 0) in
    match boundary with
    | None => Ok (mkPhaseFilter base_filter [phase_part])
    | Some b =>
        _meili_shuffle_parts (rc_key b) (rc_identity b) ≫= λ boundary_parts,
        Ok (mkPhaseFilter base_filter
              [phase_part; _meili_tuple_comparison boundary_parts (if reverse then MLt else MGt) false])
    end.

(** ** The engine *)

Definition compare_op (op : meili_op) (a b : Z) : bool :=
  match op with
  | MEq => a =? b | MLt => a <? b | MGt => b <? a | MLe => a <=? b | MGe => b <=? a
  end.

(** A document satisfies a filter; a comparison with a missing field fails. *)
Definition eval_comparison (doc : list (pystr * Z)) (c : comparison) : bool :=
  match assoc (cmp_field c) doc with Some v => compare_op (cmp_op c) v (cmp_value c) | None => false end.
Definition eval_dnf (doc : list (pystr * Z)) (d : dnf) : bool :=
  existsb (forallb (eval_comparison doc)) d.

(** Sorting by the listed fields, in turn. *)
Fixpoint fields_lt (a b : list (pystr * Z)) : bool :=
  match a, b with
  | (_, x) :: a', (_, y) :: b' => (x <? y) || ((x =? y) && fields_lt a' b')
  | _, _ => false
  end.

Section Engine.
Context {V : Type}.
Implicit Types (table : list (Work V)) (w : Work V).

(** The indexed fields of a work. *)
Definition shuffle_fields w : list (pystr * Z) :=
  match _meili_shuffle_parts (shuffle_key w) (work_id w) with Ok parts => parts | Err _ => [] end.

Definition matches (f : phase_filter) w : bool :=
  forallb (eval_dnf (shuffle_fields w)) (pf_parts f).

(** [index.search]: the hits, and the number of matches.  The rows of [table]
    are those that match the text and the query's own filter. *)
Definition index_search table (f : phase_filter) (reverse : bool) (offset limit : nat)
    : list (Work V) * nat :=
  let lt := λ x y, fields_lt (shuffle_fields x) (shuffle_fields y) in
  (select_rows (matches f) (if reverse then descending lt else lt) offset limit table,
   length (List.filter (matches f) table)).

(** [fetch] inside [run]; a filter that cannot be built is an exception, here
    no hits. *)
Definition meili_fetch table (base_filter : option pystr) (start : Z) : fetcher (V := V) :=
  λ phase count reverse phase_offset boundary,
  if (count =? 0)%nat then ([], 0%nat)
  else match _meili_random_phase_filter base_filter start phase boundary reverse with
       | Ok f => index_search table f reverse phase_offset count
       | Err _ => ([], 0%nat)
       end.

(** [run], the hits: around a boundary, or at an offset. *)
Definition meili_run table (base_filter : option pystr) (start : Z) (offset limit : nat)
    (boundary : option RandomWorkCursor) : list (Work V) :=
  let fetch := meili_fetch table base_filter start in
  match boundary with
  | Some b => ring_cursor_page fetch limit b
  | None =>
      let '(phase_zero_hits, phase_zero_total) := fetch 0 limit false offset None in
      if (phase_zero_total <=? offset)%nat
      then (fetch 1 limit false (offset - phase_zero_total)%nat None).1
      else if (length phase_zero_hits <? limit)%nat
      then phase_zero_hits ++ (fetch 1 (limit - length phase_zero_hits)%nat false 0%nat None).1
      else phase_zero_hits
  end.

(** The page, with the cursor checks before it. *)
Definition _search_meili_random_works `{!CursorWire (V := V)} table (query : SearchQuery)
    (base_filter : option pystr) (offset limit : nat) (force_sfw : bool) (cursor : option pystr)
    (seed : Z) : result page_error (list (Work V)) :=
  _shuffle_ring_start (V := V) seed ≫= λ start,
  match cursor with
  | Some ((_ :: _) as c) =>
      ring_cursor c query force_sfw seed start ≫= λ b,
      Ok (meili_run table base_filter start offset limit (Some b))
  | _ => Ok (meili_run table base_filter start offset limit None)
  end.
End Engine.

(** ** Tuple comparisons are lexicographic *)

(** The first difference decides; a tie holds for an inclusive comparison. *)
Fixpoint lex (op : meili_op) (inclusive : bool) (values : list (Z * Z)) : bool :=
  match values with
  | [] => inclusive
  | (a, b) :: rest => compare_op op a b || ((a =? b) && lex op inclusive rest)
  end.

Lemma compare_or_equal op a b : op ≠ MEq →
  compare_op (or_equal op) a b = compare_op op a b || (a =? b).
Proof.
  intros Hop. destruct op; cbn; try done; apply eq_true_iff_eq;
    rewrite ?orb_true_iff, ?Z.leb_le, ?Z.ltb_lt, ?Z.eqb_eq; lia.
Qed.

Lemma eval_clauses doc op inclusive prefix pairs values :
  op ≠ MEq → pairs ≠ [] →
  Forall2 (λ p v, assoc p.1 doc = Some v.1 ∧ p.2 = v.2) pairs values →
  eval_dnf doc (tuple_clauses op inclusive prefix pairs) =
  forallb (eval_comparison doc) prefix && lex op inclusive values.
Proof.
  intros Hop Hne Hall. revert prefix Hne. induction Hall as [|[field v] [a b] pairs values [Hf Hv] Hall IH];
    intros prefix Hne; [done|]. cbn in Hf, Hv. subst v. unfold eval_dnf in *. cbn [tuple_clauses existsb].
  rewrite forallb_app. cbn [forallb]. rewrite andb_true_r. unfold eval_comparison at 2. cbn [cmp_field cmp_op cmp_value].
  rewrite Hf. destruct Hall as [|p v pairs values Hp Hall].
  - cbn [tuple_clauses existsb lex]. rewrite orb_false_r, andb_true_r. f_equal.
    destruct inclusive; cbn [andb]; [by rewrite compare_or_equal, andb_true_r|by rewrite andb_false_r, orb_false_r].
  - rewrite andb_false_r, IH by done. cbn [lex]. rewrite forallb_app. cbn [forallb].
    unfold eval_comparison at 3. cbn [cmp_field cmp_op cmp_value compare_op]. rewrite Hf, andb_true_r.
    destruct (forallb _ prefix); done.
Qed.

(** ** The parts carry the order *)

Lemma split_lt B a b : 0 < B →
  (a <? b) = (a / B <? b / B) || ((a / B =? b / B) && (a mod B <? b mod B)).
Proof.
  intros HB. apply eq_true_iff_eq. rewrite orb_true_iff, andb_true_iff, !Z.ltb_lt, Z.eqb_eq.
  pose proof (Z.div_mod a B). pose proof (Z.div_mod b B).
  pose proof (Z.mod_pos_bound a B HB). pose proof (Z.mod_pos_bound b B HB). nia.
Qed.

Lemma split_eq B a b : 0 < B → (a =? b) = (a / B =? b / B) && (a mod B =? b mod B).
Proof.
  intros HB. apply eq_true_iff_eq. rewrite andb_true_iff, !Z.eqb_eq.
  pose proof (Z.div_mod a B). pose proof (Z.div_mod b B). split; [by intros ->|]. intros [E1 E2].
  rewrite H, H0, E1, E2 by lia. done.
Qed.

(** The six parts in arithmetic. *)
Definition parts_of (key i : Z) : list Z :=
  [key / 2 ^ 31; key mod 2 ^ 31; i / 2 ^ 96; i mod 2 ^ 96 / 2 ^ 64; i mod 2 ^ 64 / 2 ^ 32; i mod 2 ^ 32].

Lemma div_mod_swap i a b : 0 < a → 0 < b → (i / a) mod b = i mod (a * b) / a.
Proof.
  intros Ha Hb. rewrite Z.rem_mul_r by lia. rewrite (Z.mul_comm a), Z.div_add by lia.
  rewrite (Z.div_small (i mod a)) by (apply Z.mod_pos_bound; lia). lia.
Qed.

Lemma parts_arith key i : 0 <= key < SHUFFLE_RING_SIZE → is_uuid i →
  _meili_shuffle_parts key i = Ok (zip MEILI_SHUFFLE_FIELDS (parts_of key i)).
Proof.
  unfold _meili_shuffle_parts, is_uuid, SHUFFLE_RING_SIZE. rewrite Z.shiftl_1_l. intros Hk Hi.
  assert ((0 <=? key) && (key <? 2 ^ 63) = true) as ->
    by (rewrite andb_true_iff, Z.leb_le, Z.ltb_lt; lia). cbn [negb].
  assert (∀ z, Z.land z 0xFFFFFFFF = z mod 2 ^ 32) as Hland by (intros z; apply (Z.land_ones z 32); lia).
  assert (Z.land key (Z.shiftl 1 31 - 1) = key mod 2 ^ 31) as -> by (apply (Z.land_ones key 31); lia).
  rewrite !Hland, !Z.shiftr_div_pow2 by lia.
  rewrite (Z.mod_small (i / 2 ^ 96)) by (split; [apply Z.div_pos; lia|apply Z.div_lt_upper_bound; lia]).
  by rewrite (div_mod_swap i (2 ^ 64) (2 ^ 32)), (div_mod_swap i (2 ^ 32) (2 ^ 32)) by lia.
Qed.

(** Comparing the parts is comparing key and identity. *)
Definition pair_lt (k i k' i' : Z) : bool := (k <? k') || ((k =? k') && (i <? i')).

Lemma parts_lt k i k' i' inclusive :
  lex MLt inclusive (zip (parts_of k i) (parts_of k' i')) =
  pair_lt k i k' i' || ((k =? k') && (i =? i') && inclusive).
Proof.
  assert (∀ a, a mod 2 ^ 96 mod 2 ^ 64 = a mod 2 ^ 64 ∧ a mod 2 ^ 64 mod 2 ^ 32 = a mod 2 ^ 32) as Hm.
  { intros a. split.
    - change (2 ^ 96) with (2 ^ 64 * 2 ^ 32). rewrite Z.rem_mul_r by lia.
      rewrite Z.add_mod, Z.mul_comm, Z.mod_mul, Z.add_0_r, !Z.mod_mod by lia. done.
    - change (2 ^ 64) with (2 ^ 32 * 2 ^ 32). rewrite Z.rem_mul_r by lia.
      rewrite Z.add_mod, Z.mul_comm, Z.mod_mul, Z.add_0_r, !Z.mod_mod by lia. done. }
  unfold pair_lt, parts_of. cbn [zip zip_with lex compare_op].
  rewrite (split_lt (2 ^ 31) k k'), (split_eq (2 ^ 31) k k') by lia.
  rewrite (split_lt (2 ^ 96) i i'), (split_eq (2 ^ 96) i i') by lia.
  rewrite (split_lt (2 ^ 64) (i mod 2 ^ 96)), (split_eq (2 ^ 64) (i mod 2 ^ 96)) by lia.
  destruct (Hm i) as [-> H1], (Hm i') as [-> H2].
  rewrite (split_lt (2 ^ 32) (i mod 2 ^ 64)), (split_eq (2 ^ 32) (i mod 2 ^ 64)) by lia.
  rewrite H1, H2.
  repeat match goal with
  | |- context [?a <? ?b] => generalize (a <? b); intro
  | |- context [?a =? ?b] => generalize (a =? b); intro
  end. btauto.
Qed.

Lemma lex_swap inclusive values :
  lex MGt inclusive values = lex MLt inclusive ((λ v, (v.2, v.1)) <$> values).
Proof.
  induction values as [|[a b] values IH]; cbn; [done|]. by rewrite IH, (Z.eqb_sym a).
Qed.

(** A filter over leading fields, on the document with parts [l]. *)
Lemma eval_parts n op inclusive (l l' : list Z) : op ≠ MEq → n ≠ 0%nat →
  length l = 6%nat → length l' = 6%nat →
  eval_dnf (zip MEILI_SHUFFLE_FIELDS l)
    (_meili_tuple_comparison (take n (zip MEILI_SHUFFLE_FIELDS l')) op inclusive) =
  lex op inclusive (take n (zip l l')).
Proof.
  intros Hop Hn Hl Hl'. unfold _meili_tuple_comparison.
  destruct l as [|a0 [|a1 [|a2 [|a3 [|a4 [|a5 [|]]]]]]]; try discriminate Hl.
  destruct l' as [|b0 [|b1 [|b2 [|b3 [|b4 [|b5 [|]]]]]]]; try discriminate Hl'.
  rewrite (eval_clauses _ _ _ _ _ (take n (zip [a0; a1; a2; a3; a4; a5] [b0; b1; b2; b3; b4; b5])));
    [done|done|by destruct n|].
  apply Forall2_take. repeat constructor.
Qed.

Section Agreement.
Context {V : Type} `{!CursorWire (V := V)}.
Implicit Types (table : list (Work V)) (w : Work V).

(** Rows with a key on the ring and a UUID, as the table guarantees. *)
Definition indexable w : Prop := 0 <= shuffle_key w < SHUFFLE_RING_SIZE ∧ is_uuid (work_id w).

Definition boundary_ok (b : RandomWorkCursor) : Prop :=
  0 <= rc_key b < SHUFFLE_RING_SIZE ∧ is_uuid (rc_identity b).

Lemma fields_of w : indexable w →
  shuffle_fields w = zip MEILI_SHUFFLE_FIELDS (parts_of (shuffle_key w) (work_id w)).
Proof. intros [Hk Hi]. unfold shuffle_fields. by rewrite parts_arith. Qed.

(** The engine's order is the order of the ring. *)
Lemma fields_order x y : indexable x → indexable y →
  fields_lt (shuffle_fields x) (shuffle_fields y) = ring_lt x y.
Proof.
  intros Hx Hy. rewrite !fields_of by done.
  transitivity (lex MLt false (zip (parts_of (shuffle_key x) (work_id x)) (parts_of (shuffle_key y) (work_id y)))).
  - cbn. by rewrite andb_false_r.
  - rewrite parts_lt, andb_false_r, orb_false_r. done.
Qed.

Lemma phase_part start phase w : indexable w → 0 <= start < SHUFFLE_RING_SIZE → is_phase phase = true →
  eval_dnf (shuffle_fields w)
    (_meili_tuple_comparison (take 2 (zip MEILI_SHUFFLE_FIELDS (parts_of start 0)))
       (if phase =? 0 then MGt else MLt) (phase =? 0)) = phase_condition start phase w.
Proof.
  intros Hw Hs Hp. rewrite fields_of, eval_parts by (done || by destruct (phase =? 0)).
  unfold phase_condition, parts_of. destruct (phase =? 0); [rewrite lex_swap|];
    cbn [zip zip_with take fmap list_fmap lex compare_op fst snd]; rewrite ?andb_false_r, ?andb_true_r, ?orb_false_r.
  - transitivity ((start <? shuffle_key w) || (start =? shuffle_key w)).
    + rewrite (split_lt (2 ^ 31) start), (split_eq (2 ^ 31) start) by lia. btauto.
    + apply eq_true_iff_eq. rewrite orb_true_iff, Z.ltb_lt, Z.eqb_eq, Z.leb_le. lia.
  - by rewrite (split_lt (2 ^ 31) (shuffle_key w)) by lia.
Qed.

Lemma boundary_part (reverse : bool) b w : indexable w → boundary_ok b →
  eval_dnf (shuffle_fields w)
    (_meili_tuple_comparison (zip MEILI_SHUFFLE_FIELDS (parts_of (rc_key b) (rc_identity b)))
       (if reverse then MLt else MGt) false) = ring_seek reverse (Some b) w.
Proof.
  intros Hw Hb. rewrite fields_of by done.
  pose proof (eval_parts 6 (if reverse then MLt else MGt) false
    (parts_of (shuffle_key w) (work_id w)) (parts_of (rc_key b) (rc_identity b))) as He.
  rewrite !take_ge in He by (cbn; lia). rewrite He by (done || by destruct reverse). clear He.
  unfold ring_seek. destruct reverse.
  - by rewrite parts_lt, andb_false_r, orb_false_r.
  - rewrite lex_swap. change ((λ v : Z * Z, (v.2, v.1)) <$> zip (parts_of (shuffle_key w) (work_id w)) (parts_of (rc_key b) (rc_identity b)))
      with (zip (parts_of (rc_key b) (rc_identity b)) (parts_of (shuffle_key w) (work_id w))).
    rewrite parts_lt, andb_false_r, orb_false_r. unfold pair_lt. by rewrite (Z.eqb_sym (rc_key b)).
Qed.

(** The filter can be built and selects the rows of the table's condition. *)
Lemma phase_filter_matches table base start phase reverse boundary :
  Forall indexable table → 0 <= start < SHUFFLE_RING_SIZE → is_phase phase = true →
  (∀ b, boundary = Some b → boundary_ok b) →
  ∃ f, _meili_random_phase_filter base start phase boundary reverse = Ok f ∧
    ∀ w, w ∈ table → matches f w = phase_condition start phase w && ring_seek reverse boundary w.
Proof.
  intros Ht Hs Hp Hb. rewrite List.Forall_forall in Ht. unfold _meili_random_phase_filter. rewrite Hp.
  cbn [negb]. rewrite (parts_arith start 0) by (done || (unfold is_uuid; lia)). cbn [mbind result_bind].
  destruct boundary as [b|].
  - destruct (Hb b eq_refl) as [H1 H2]. rewrite parts_arith by done. eexists. split; [done|].
    intros w Hw%list_elem_of_In. unfold matches. cbn [pf_parts forallb].
    by rewrite phase_part, boundary_part, andb_true_r by auto.
  - eexists. split; [done|]. intros w Hw%list_elem_of_In. unfold matches. cbn [pf_parts forallb ring_seek].
    by rewrite phase_part by auto.
Qed.

(** A statement on the index reads what the same statement on the table reads. *)
Lemma meili_fetch_agrees table base start phase n reverse offset boundary :
  Forall indexable table → 0 <= start < SHUFFLE_RING_SIZE → is_phase phase = true →
  (∀ b, boundary = Some b → boundary_ok b) →
  meili_fetch table base start phase n reverse offset boundary =
  fetch_phase table start phase n reverse offset boundary.
Proof.
  intros Ht Hs Hp Hb. unfold meili_fetch, fetch_phase. destruct (n =? 0)%nat; [done|].
  destruct (phase_filter_matches table base start phase reverse boundary Ht Hs Hp Hb) as (f & -> & Hf).
  unfold index_search, select_rows.
  rewrite (filter_ext (matches f) (λ w, phase_condition start phase w && ring_seek reverse boundary w)) by done.
  f_equal. do 2 f_equal. apply order_by_ext. intros x y Hx Hy.
  assert (∀ z, z ∈ List.filter (λ w, phase_condition start phase w && ring_seek reverse boundary w) table →
          indexable z) as Hi.
  { intros z Hz%list_elem_of_In. apply List.filter_In in Hz as [Hz _].
    rewrite List.Forall_forall in Ht. by apply Ht. }
  destruct reverse; unfold descending; by apply fields_order; apply Hi.
Qed.

Lemma ring_start_range seed start : _shuffle_ring_start (V := V) seed = Ok start →
  0 <= start < SHUFFLE_RING_SIZE.
Proof.
  unfold _shuffle_ring_start. case_test; [|done]. intros [= <-].
  change (SHUFFLE_RING_SIZE - 1) with (Z.ones 63). rewrite Z.land_ones by lia. by apply Z.mod_pos_bound.
Qed.

Lemma ring_cursor_ok cursor query sfw seed start b :
  ring_cursor (V := V) cursor query sfw seed start = Ok b → boundary_ok b ∧ is_phase (rc_phase b) = true.
Proof.
  unfold ring_cursor, _decode_random_work_cursor. intros (b' & Hd & Hb)%result_bind_ok.
  case_test; [|done]. injection Hb as ->. apply Z.eqb_eq in Heqb0. rewrite Heqb0. split; [|by case_test].
  clear Heqb0. destruct (urlsafe_b64decode _ ≫= loads_random) as [p|] eqn:El; [|done].
  apply bind_Some in El as (bytes & _ & El). case_test; [done|].
  destruct (rp_key p) as [key|], (rp_seek p), (rp_id p) as [i|] eqn:Ei, (rp_phase p); try done.
  case_test; [|done]. injection Hd as <-. split; cbn.
  - apply andb_true_iff in Heqb1 as [?%Z.leb_le ?%Z.ltb_lt]. lia.
  - by eapply loads_random_uuid.
Qed.

(** A page around a boundary only reads the two phases. *)
Lemma cursor_page_ext (f g : fetcher (V := V)) limit b : is_phase (rc_phase b) = true →
  (∀ phase n reverse offset c, is_phase phase = true → (c = None ∨ c = Some b) →
     f phase n reverse offset c = g phase n reverse offset c) →
  ring_cursor_page f limit b = ring_cursor_page g limit b.
Proof.
  intros Hp E. unfold ring_cursor_page. rewrite E by auto. unfold adjacent_phase.
  repeat case_test; rewrite ?E by auto; done.
Qed.

Lemma meili_first_page table base start offset limit :
  NoDup (work_id <$> table) → Forall indexable table → 0 <= start < SHUFFLE_RING_SIZE →
  meili_run table base start offset limit None = take limit (drop offset (ring_rows table start)).
Proof.
  intros Hd Ht Hs. unfold meili_run. rewrite !meili_fetch_agrees by done.
  destruct (decide (limit = 0%nat)) as [->|Hl]; [by destruct offset|].
  destruct (fetch_phase table start 0 limit false offset None) as [rows total] eqn:E.
  pose proof (fetch_all table start Hd 0 limit false offset) as Hr. rewrite E in Hr. cbn [fst] in Hr. subst rows.
  assert (total = length (phase_rows table start 0)) as ->.
  { unfold fetch_phase in E. apply Nat.eqb_neq in Hl. rewrite Hl in E. injection E as _ <-.
    unfold phase_rows. rewrite order_by_perm. f_equal. apply filter_ext. intros. apply andb_true_r. }
  rewrite !meili_fetch_agrees by done. rewrite !fetch_all by done. unfold ring_rows.
  destruct (Nat.leb_spec (length (phase_rows table start 0)) offset).
  - by rewrite drop_app_ge.
  - by rewrite drop_0, spill, drop_app_le by lia.
Qed.

End Agreement.
