(* ===== verification/SearchPagesExample.v ===== *)
(** * Search pages on a small library

    A concrete cursor wire and four works with colliding keys and a missing
    date: the walks and the agreement of the two engines on them. *)

From stdpp Require Import base strings list numbers countable.
From S2P Require Import Prelude PyStr SearchTables SearchLanguage Keyset SearchPages SearchPagesFacts SearchWalk SearchMeili.

Open Scope Z_scope.

Global Instance Z_column : ColumnOrder Z.
Proof.
  refine {| vlt := Z.ltb |}.
  - apply Z.ltb_irrefl.
  - intros x y z. rewrite !Z.ltb_lt. lia.
  - intros x y Hxy. rewrite !Z.ltb_lt. lia.
Defined.

(** ** A wire *)

(** A number as its binary digits, one per byte, closed by a two. *)
Fixpoint digits (p : positive) : list Z :=
  match p with xH => [2] | xO q => 0 :: digits q | xI q => 1 :: digits q end.
Fixpoint undigits (b : list Z) : option positive :=
  match b with
  | [] => None
  | x :: b' => if x =? 2 then Some xH
               else (if x =? 0 then xO else xI) <$> undigits b'
  end.

Lemma undigits_digits p : undigits (digits p) = Some p.
Proof. induction p as [p IH|p IH|]; cbn; [by rewrite IH..|done]. Qed.

Lemma digits_bytes p : digits p ≠ [] ∧ Forall is_byte (digits p).
Proof.
  split; [by destruct p|]. unfold is_byte. induction p; cbn; constructor; auto; lia.
Qed.

(** The fields of a payload, each as a list of numbers. *)
Definition opt_field (o : option Z) : list Z := match o with Some z => [z] | None => [] end.
Definition field_opt (l : list Z) : option Z := match l with z :: _ => Some z | [] => None end.
Definition str_field (o : option pystr) : list Z := match o with Some s => 0 :: s | None => [] end.
Definition field_str (l : list Z) : option pystr := match l with _ :: s => Some s | [] => None end.
Definition bool_field (b : bool) : list Z := if b then [0] else [].
Definition field_bool (l : list Z) : bool := match l with [] => false | _ => true end.

Definition work_tuple (p : WorkPayload (V := Z)) : list (list Z) :=
  [opt_field (wp_v p); str_field (wp_q p); bool_field (wp_sfw p); str_field (wp_sort p);
   str_field (wp_seek p); opt_field (wp_value p); opt_field (wp_id p)].
Definition tuple_work (t : list (list Z)) : option (WorkPayload (V := Z)) :=
  match t with
  | [v; q; sfw; s; k; x; i] => Some (mkWorkPayload (field_opt v) (field_str q) (field_bool sfw)
      (field_str s) (field_str k) (field_opt x) (field_opt i))
  | _ => None
  end.
Definition random_tuple (p : RandomPayload) : list (list Z) :=
  [opt_field (rp_v p); str_field (rp_q p); bool_field (rp_sfw p); str_field (rp_sort p);
   opt_field (rp_seed p); opt_field (rp_phase p); str_field (rp_seek p); opt_field (rp_key p);
   opt_field (rp_id p)].
Definition tuple_random (t : list (list Z)) : option RandomPayload :=
  match t with
  | [v; q; sfw; s; seed; ph; k; key; i] => Some (mkRandomPayload (field_opt v) (field_str q)
      (field_bool sfw) (field_str s) (field_opt seed) (field_opt ph) (field_str k) (field_opt key)
      (field_opt i))
  | _ => None
  end.

Lemma tuple_work_id p : tuple_work (work_tuple p) = Some p.
Proof. by destruct p as [[] [] [] [] [] [] []]. Qed.

Lemma tuple_random_id p : tuple_random (random_tuple p) = Some p.
Proof. by destruct p as [[] [] [] [] [] [] [] [] []]. Qed.

Definition valid_id (i : option Z) : bool :=
  match i with Some i => bool_decide (is_uuid i) | None => true end.

Global Instance digit_wire : CursorWire (V := Z).
Proof.
  refine {|
    sha256_16 s := s;
    blake2b_8 b := b;
    dumps_work p := digits (encode (work_tuple p));
    loads_work b := t ← undigits b; l ← decode t; tuple_work l;
    dumps_random p := digits (encode (random_tuple p));
    loads_random b := t ← undigits b; l ← decode t; p ← tuple_random l;
                      if valid_id (rp_id p) then Some p else None |}.
  - intros p. apply digits_bytes.
  - intros p. apply digits_bytes.
  - intros b p i (t & _ & (l & _ & (p' & _ & Hp)%bind_Some)%bind_Some)%bind_Some. revert Hp.
    destruct (valid_id (rp_id p')) eqn:E; [|done]. intros [= ->] Hi. rewrite Hi in E.
    by apply bool_decide_eq_true in E.
  - intros p _. rewrite undigits_digits. cbn [mbind option_bind]. rewrite decode_encode.
    cbn [mbind option_bind]. apply tuple_work_id.
  - intros p Hp. rewrite undigits_digits. cbn [mbind option_bind]. rewrite decode_encode.
    cbn [mbind option_bind]. rewrite tuple_random_id. cbn [mbind option_bind].
    unfold valid_id. destruct (rp_id p) as [i|]; [|done]. by rewrite bool_decide_eq_true_2 by by apply Hp.
Defined.

(** ** A library *)

(** A work with its key and its posting date. *)
Definition a_work (i key : Z) (posted : option Z) : Work Z :=
  mkWork i key (λ c, if decide (c = u "posted_at") then posted else Some 0).

Definition library : list (Work Z) :=
  [a_work 1 70 (Some 5); a_work 2 70 None; a_work 3 5 (Some 9); a_work 4 2 (Some 5)].

Definition posted_query : SearchQuery :=
  mkQuery [] (u "sort:posted-desc") [] [Qualifier (mkQual (u "sort") (u "posted-desc") false false 0 0)] [].

Lemma library_rows : NoDup (work_id <$> library) ∧ Forall row_ok library.
Proof.
  split.
  - apply (bool_decide_eq_true_1 (NoDup (work_id <$> library))). vm_compute. reflexivity.
  - repeat constructor; vm_compute; congruence.
Qed.

Lemma library_indexable : Forall indexable library.
Proof. repeat constructor; vm_compute; congruence. Qed.

(** The ring of seed 3 starts between the keys. *)
Lemma ring_of_seed : _shuffle_ring_start (V := Z) 3 = Ok 3.
Proof. reflexivity. Qed.

Lemma ring_pages_witness :
  _fetch_random_work_page library posted_query 1 2 false None 3 =
  Ok (take 2 (drop 1 (ring_rows library 3))).
Proof.
  apply (ring_pages_are_slices library posted_query false 3 3 2);
    [apply library_rows|apply library_rows|apply ring_of_seed].
Defined.

Lemma ring_walk_witness :
  work_id <$> follow (ring_page library posted_query false 3 3 2) (S (length library)) None = [3; 1; 2; 4].
Proof.
  destruct (ring_walk_visits_once library posted_query false 3 3 2) as [-> _];
    [apply library_rows|apply library_rows|apply ring_of_seed|lia|]. vm_compute. reflexivity.
Defined.

Lemma sorted_walk_witness :
  work_id <$> follow (sorted_page library posted_query false 2) (S (length library)) None = [3; 4; 1; 2].
Proof.
  destruct (sorted_walk_visits_once library posted_query false 2) as (-> & _).
  - apply library_rows.
  - repeat constructor; vm_compute; congruence.
  - repeat constructor; vm_compute; congruence.
  - vm_compute. reflexivity.
  - lia.
  - vm_compute. reflexivity.
Defined.

Lemma cursor_bound_witness :
  ∃ text, _encode_random_work_cursor posted_query (a_work 1 70 None) (u "after") false 3 0 = Ok text ∧
    _decode_random_work_cursor (V := Z) text posted_query true 3 = Err StaleCursor.
Proof.
  assert (row_ok (a_work 1 70 None)) as Hok by (repeat constructor; vm_compute; congruence).
  eexists. split; [reflexivity|].
  destruct (random_cursor_bound_to_search posted_query posted_query (a_work 1 70 None) (u "after")
    false true 3 3 0 _ Hok eq_refl) as [_ ->]. vm_compute. reflexivity.
Defined.

