(* ===== verification/SearchDelivery.v ===== *)
(** * Search delivery: from the outbox to the search engine

    [backend/app/services/search_projection_outbox.py] (the coalescing outbox),
    [backend/app/services/search_delivery.py] (the delivery worker) and
    [backend/app/services/remote_search_flight.py] (the crash-durable marker),
    as one transition system.

    A worker slice is cut at its durable actions: each SQL transaction, each
    marker write and each HTTP exchange is one step, and a crash may happen
    between any two.  The writer lock (a file lock that dies with its process)
    makes the worker unique.  The engine receives, loses, runs or fails
    requests in its own time; a request it accepted is identified by a task uid
    (here its position).  Rebuilds ([rebuild_id], [search_rebuild]), the
    checkpoint of document counts and error texts are left out.  Times are
    seconds; hydration reads the document a row stands for in the domain. *)

From stdpp Require Import base gmap strings list numbers.
From S2P Require Import Prelude Keyset.

Open Scope Z_scope.

(** ** Data *)

Definition MAX_BYTES : Z := 4 * 1024 * 1024.

(** [(index_uid, entity_id)], the unique key of an outbox row. *)
Definition key : Type := string * string.

Inductive action := upsert | delete.
Global Instance action_eq_dec : EqDecision action.
Proof. solve_decision. Defined.

(** [SearchProjectionOutbox] *)
Record Row := mkRow {
  row_id : Z;
  row_action : action;
  row_version : Z;
  row_attempts : Z;
  row_available_at : Z;
  row_lease_until : option Z;
  row_completed_at : option Z;
  row_updated_at : Z }.

Inductive receipt_state := prepared | submitting | ambiguous | pending | complete | failed.
Inductive receipt_phase := settings_phase | documents_phase.
Global Instance receipt_state_eq_dec : EqDecision receipt_state.
Proof. solve_decision. Defined.
Global Instance receipt_phase_eq_dec : EqDecision receipt_phase.
Proof. solve_decision. Defined.

(** [SearchDeliveryReceipt]; a payload item is an entity with the document to
    store, or without one to delete it. *)
Record Receipt (D : Type) := mkReceipt {
  rc_id : Z;
  rc_index : string;
  rc_action : action;
  rc_versions : list (Z * Z);
  rc_payload : list (string * option D);
  rc_state : receipt_state;
  rc_phase : receipt_phase;
  rc_task : option nat;
  rc_write_available_at : option Z;
  rc_available_at : Z;
  rc_lease_until : option Z;
  rc_token : option Z;
  rc_polls : Z }.
Arguments mkReceipt {D}.
Arguments rc_id {D} _.
Arguments rc_index {D} _.
Arguments rc_action {D} _.
Arguments rc_versions {D} _.
Arguments rc_payload {D} _.
Arguments rc_state {D} _.
Arguments rc_phase {D} _.
Arguments rc_task {D} _.
Arguments rc_write_available_at {D} _.
Arguments rc_available_at {D} _.
Arguments rc_lease_until {D} _.
Arguments rc_token {D} _.
Arguments rc_polls {D} _.

(** The marker file. *)
Record Marker := mkMarker { mk_owner : Z; mk_task : option nat }.

(** A request to the engine: its content and what has become of it. *)
Inductive remote_write (D : Type) :=
| WSettings
| WDocuments (index : string) (items : list (string * option D)).
Arguments WSettings {D}.
Arguments WDocuments {D} _ _.

Inductive request_status := in_flight | enqueued | succeeded | unsuccessful | never_arrived.
Global Instance request_status_eq_dec : EqDecision request_status.
Proof. solve_decision. Defined.

Record Request (D : Type) := mkRequest { rq_owner : Z; rq_write : remote_write D; rq_status : request_status }.
Arguments mkRequest {D}.
Arguments rq_owner {D} _.
Arguments rq_write {D} _.
Arguments rq_status {D} _.

(** Where the worker stands, between two durable actions; [token] is its
    lease, [r] its copy of the receipt. *)
Inductive position (D : Type) :=
| idle
| started
| claimed (r : Receipt D) (token : Z)
| unclaimed
| admitted_empty
| hydrating (index : string) (a : action) (rows : list (key * Row))
| inserting (index : string) (a : action) (chosen : list (key * Row * option D))
| advancing (r : Receipt D) (token : Z)
| marked (r : Receipt D) (token : Z)
| recorded (r : Receipt D) (token : Z)
| sending (r : Receipt D) (token : Z)
| waiting (r : Receipt D) (token : Z) (uid : nat)
| accepted (r : Receipt D) (token : Z) (uid : nat)
| known (r : Receipt D) (token : Z) (uid : nat)
| polling (r : Receipt D) (token : Z)
| clearing (receipt : Z).
Arguments idle {D}.
Arguments started {D}.
Arguments claimed {D} _ _.
Arguments unclaimed {D}.
Arguments admitted_empty {D}.
Arguments hydrating {D} _ _ _.
Arguments inserting {D} _ _ _.
Arguments advancing {D} _ _.
Arguments marked {D} _ _.
Arguments recorded {D} _ _.
Arguments sending {D} _ _.
Arguments waiting {D} _ _ _.
Arguments accepted {D} _ _ _.
Arguments known {D} _ _ _.
Arguments polling {D} _ _.
Arguments clearing {D} _.

(** Everything durable, the engine, and the worker. *)
Record World (D : Type) := mkWorld {
  clock : Z;
  domain : gmap key D;
  outbox : gmap key Row;
  next_row : Z;
  active : option (Receipt D);
  closed : list (Z * receipt_state);
  next_receipt : Z;
  marker : option Marker;
  requests : list (Request D);
  documents : gmap key D;
  worker : position D }.
Arguments mkWorld {D}.
Arguments clock {D} _.
Arguments domain {D} _.
Arguments outbox {D} _.
Arguments next_row {D} _.
Arguments active {D} _.
Arguments closed {D} _.
Arguments next_receipt {D} _.
Arguments marker {D} _.
Arguments requests {D} _.
Arguments documents {D} _.
Arguments worker {D} _.

Section Delivery.
Context {D : Type} (document_bytes : D → Z) (entity_bytes : string → Z).
Implicit Types (w : World D) (r : Receipt D).

(** ** Field updates *)

Definition set_outbox o w : World D :=
  mkWorld (clock w) (domain w) o (next_row w) (active w) (closed w) (next_receipt w) (marker w)
    (requests w) (documents w) (worker w).
Definition set_active a w : World D :=
  mkWorld (clock w) (domain w) (outbox w) (next_row w) a (closed w) (next_receipt w) (marker w)
    (requests w) (documents w) (worker w).
Definition set_marker m w : World D :=
  mkWorld (clock w) (domain w) (outbox w) (next_row w) (active w) (closed w) (next_receipt w) m
    (requests w) (documents w) (worker w).
Definition set_requests q w : World D :=
  mkWorld (clock w) (domain w) (outbox w) (next_row w) (active w) (closed w) (next_receipt w)
    (marker w) q (documents w) (worker w).
Definition set_documents d w : World D :=
  mkWorld (clock w) (domain w) (outbox w) (next_row w) (active w) (closed w) (next_receipt w)
    (marker w) (requests w) d (worker w).
Definition set_worker p w : World D :=
  mkWorld (clock w) (domain w) (outbox w) (next_row w) (active w) (closed w) (next_receipt w)
    (marker w) (requests w) (documents w) p.

(** The values a [_save] may carry: state, phase, task, and the scheduling
    fields. *)
Definition with_progress (s : receipt_state) (p : receipt_phase) (task : option nat) r : Receipt D :=
  mkReceipt (rc_id r) (rc_index r) (rc_action r) (rc_versions r) (rc_payload r) s p task
    (rc_write_available_at r) (rc_available_at r) (rc_lease_until r) (rc_token r) (rc_polls r).
Definition with_schedule (available : Z) (lease : option Z) (polls : Z) r : Receipt D :=
  mkReceipt (rc_id r) (rc_index r) (rc_action r) (rc_versions r) (rc_payload r) (rc_state r)
    (rc_phase r) (rc_task r) (rc_write_available_at r) available lease (rc_token r) polls.
Definition with_lease (token : Z) (lease : Z) r : Receipt D :=
  mkReceipt (rc_id r) (rc_index r) (rc_action r) (rc_versions r) (rc_payload r) (rc_state r)
    (rc_phase r) (rc_task r) (rc_write_available_at r) (rc_available_at r) (Some lease) (Some token)
    (rc_polls r).
Definition release r : Receipt D := with_schedule (rc_available_at r) None (rc_polls r) r.

(** ** The outbox *)

(** [_enqueue_projection_action] for one entity: insert, or on conflict bump
    the version and reopen the row. *)
Definition _enqueue_projection_action (k : key) (a : action) w : World D :=
  let row := match outbox w !! k with
    | None => mkRow (next_row w) a 1 0 (clock w) None None (clock w)
    | Some o => mkRow (row_id o) a (row_version o + 1) 0 (clock w) None None (clock w)
    end in
  mkWorld (clock w) (domain w) (<[k := row]> (outbox w)) (next_row w + 1) (active w) (closed w)
    (next_receipt w) (marker w) (requests w) (documents w) (worker w).

(** The new content of one entity and the action asked for. *)
Definition mutate (k : key) (a : action) (content : option D) w : World D :=
  let w := _enqueue_projection_action k a w in
  mkWorld (clock w) (partial_alter (λ _, content) k (domain w)) (outbox w) (next_row w) (active w)
    (closed w) (next_receipt w) (marker w) (requests w) (documents w) (worker w).

(** [request_search_projection] and the domain changes it describes, in one
    transaction: the entities stored or touched, then the entities removed
    (which win when both are asked for). *)
Definition request_search_projection (upserts deletes : list key) (content : key → option D) w : World D :=
  foldl (λ w k, mutate k delete None w)
    (foldl (λ w k, mutate k upsert (content k) w) w (fromkeys upserts)) (fromkeys deletes).

(** [prune_completed_projection_events] *)
Definition prune_completed_projection_events (retention_hours : Z) w : World D :=
  let cutoff := clock w - 3600 * Z.max 1 retention_hours in
  set_outbox (filter (λ kr, match row_completed_at kr.2 with
                            | Some t => negb (t <? cutoff) | None => true end = true) (outbox w)) w.

(** A row the worker may take. *)
Definition row_ready (now : Z) (o : Row) : bool :=
  bool_decide (row_completed_at o = None) && (row_available_at o <=? now) &&
  match row_lease_until o with None => true | Some t => t <=? now end.

(** [order_by(available_at, updated_at, id)] *)
Definition row_before (a b : key * Row) : bool :=
  let x := a.2 in let y := b.2 in
  (row_available_at x <? row_available_at y) ||
  ((row_available_at x =? row_available_at y) &&
   ((row_updated_at x <? row_updated_at y) ||
    ((row_updated_at x =? row_updated_at y) && (row_id x <? row_id y)))).

(** The update of the rows with one of the given ids and versions. *)
Definition update_versions (f : Row → Row) (versions : list (Z * Z)) (o : gmap key Row) : gmap key Row :=
  (λ row, if bool_decide ((row_id row, row_version row) ∈ versions) then f row else row) <$> o.

Definition complete_row (now : Z) (o : Row) : Row :=
  mkRow (row_id o) (row_action o) (row_version o) (row_attempts o) (row_available_at o) None (Some now)
    now.

(** [5 * 2 ** min(n, 7)], at most 900 seconds. *)
Definition backoff (n : Z) : Z := Z.min 900 (5 * 2 ^ Z.min n 7).

Definition retry_row (now : Z) (o : Row) : Row :=
  mkRow (row_id o) (row_action o) (row_version o) (row_attempts o + 1)
    (now + backoff (row_attempts o)) None (row_completed_at o) now.

(** ** The marker *)

Definition create_marker (receipt : Z) (m : option Marker) : option Marker + unit :=
  match m with
  | Some existing => if mk_owner existing =? receipt then inl m else inr tt
  | None => inl (Some (mkMarker receipt None))
  end.
Definition record_task (receipt : Z) (uid : option nat) (m : option Marker) : option Marker + unit :=
  match m with
  | Some existing => if mk_owner existing =? receipt then inl (Some (mkMarker receipt uid)) else inr tt
  | None => inr tt
  end.
Definition clear_marker (receipt : Z) (m : option Marker) : option Marker :=
  match m with
  | Some existing => if mk_owner existing =? receipt then None else m
  | None => None
  end.

(** ** Receipts *)

(** [_save]: the values of one transaction; [None] when the lease was lost. *)
Definition _save (receipt token : Z) (f : Receipt D → Receipt D) w : option (World D) :=
  match active w with
  | Some r => if (rc_id r =? receipt) && bool_decide (rc_token r = Some token)
              then Some (set_active (Some (f r)) w) else None
  | None => None
  end.

(** [_save] and then the next position; an exception ends the slice. *)
Definition save_then (receipt token : Z) (f : Receipt D → Receipt D) (p : position D) w : World D :=
  match _save receipt token f w with
  | Some w' => set_worker p w'
  | None => set_worker idle w
  end.

(** [_claim] and what [_run_locked] makes of it. *)
Definition _claim (token : Z) w : World D :=
  match active w with
  | None => set_worker unclaimed w
  | Some r =>
      if (clock w <? rc_available_at r) ||
         match rc_lease_until r with Some t => clock w <? t | None => false end
      then set_worker idle w
      else let r' := with_lease token (clock w + 30) r in
           set_worker (claimed r' token) (set_active (Some r') w)
  end.

(** The first half of [_prepare]: the head of the queue and the ready rows of
    its index and action. *)
Definition prepare_read (limit : Z) w : World D :=
  match active w with
  | Some _ => set_worker idle w
  | None =>
      let ready := order_by row_before
        (List.filter (λ kr, row_ready (clock w) kr.2) (map_to_list (outbox w))) in
      match ready with
      | [] => set_worker idle w
      | ((index, _), head) :: _ =>
          let same := List.filter (λ kr : key * Row,
            bool_decide (kr.1.1 = index) && bool_decide (row_action kr.2 = row_action head)) ready in
          set_worker (hydrating index (row_action head) (take (Z.to_nat (Z.max 1 (Z.min 500 limit))) same)) w
      end
  end.

(** What hydration finds for a row. *)
Definition hydrated (dom : gmap key D) (a : action) (kr : key * Row) : option D :=
  match a with upsert => dom !! kr.1 | delete => None end.

(** The JSON size of a payload item. *)
Definition item_bytes (kr : key * Row) (content : option D) : Z :=
  match content with Some d => document_bytes d | None => entity_bytes kr.1.2 end.

(** The loop over [rows] with the payload built so far: rows of another
    outcome are passed over; [None] is the [ValueError] of an oversized first
    item. *)
Fixpoint select_items (dom : gmap key D) (a : action) (upserting : bool) (size : Z)
    (some_selected : bool) (rows : list (key * Row)) : option (list (key * Row * option D)) :=
  match rows with
  | [] => Some []
  | kr :: rows' =>
      let content := hydrated dom a kr in
      if negb (Bool.eqb (bool_decide (is_Some content)) upserting)
      then select_items dom a upserting size some_selected rows'
      else
        let item_size := item_bytes kr content + (if some_selected then 1 else 0) in
        if MAX_BYTES <? item_size + 2 then (if some_selected then Some [] else None)
        else if MAX_BYTES <? size + item_size then Some []
        else cons (kr, content) <$> select_items dom a upserting (size + item_size) true rows'
  end.

(** The rows of a failed preparation: one more attempt and a later time. *)
Definition postpone (now : Z) (rows : list (key * Row)) (o : gmap key Row) : gmap key Row :=
  (λ row, match List.find (λ kr, row_id kr.2 =? row_id row) rows with
          | Some (_, old) => mkRow (row_id row) (row_action row) (row_version row) (row_attempts old + 1)
              (now + backoff (row_attempts old)) (row_lease_until row) (row_completed_at row) now
          | None => row
          end) <$> o.

(** The middle of [_prepare]: hydration ([hydration_ok] is whether the builder
    returned) and the choice of the items; an exception postpones the rows. *)
Definition prepare_hydrate (index : string) (a : action) (rows : list (key * Row)) (hydration_ok : bool)
    w : World D :=
  let upserting := match rows with
    | kr :: _ => bool_decide (is_Some (hydrated (domain w) a kr)) | [] => false end in
  match (if hydration_ok then select_items (domain w) a upserting 2 false rows else None) with
  | None => set_worker idle (set_outbox (postpone (clock w) rows (outbox w)) w)
  | Some chosen => set_worker (inserting index (if upserting then upsert else delete) chosen) w
  end.

(** The end of [_prepare]: the receipt of the chosen versions. *)
Definition prepare_insert (index : string) (a : action) (chosen : list (key * Row * option D))
    (token : Z) w : World D :=
  let r := mkReceipt (next_receipt w) index a
    ((λ c, (row_id c.1.2, row_version c.1.2)) <$> chosen)
    ((λ c, (c.1.1.2, c.2)) <$> chosen)
    prepared settings_phase None None (clock w) (Some (clock w + 30)) (Some token) 0 in
  mkWorld (clock w) (domain w) (outbox w) (next_row w) (Some r) (closed w) (next_receipt w + 1)
    (marker w) (requests w) (documents w) (advancing r token).

(** [_finalize], its transaction: the exact versions are acknowledged, or
    retried after an error, and the receipt is closed. *)
Definition _finalize (receipt token : Z) (error : bool) w : World D :=
  match active w with
  | Some r =>
      if (rc_id r =? receipt) && bool_decide (rc_token r = Some token) then
        let o := update_versions (if error then retry_row (clock w) else complete_row (clock w))
                   (rc_versions r) (outbox w) in
        mkWorld (clock w) (domain w) o (next_row w) None
          ((rc_id r, if error then failed else complete) :: closed w) (next_receipt w) (marker w)
          (requests w) (documents w) (clearing (rc_id r))
      else set_worker idle w
  | None => set_worker idle w
  end.

(** ** The worker *)

(** What a slice meets outside the database: admission, time left, the
    engine's answers. *)
Record oracle := mkOracle {
  o_token : Z;
  o_limit : Z;
  o_admitted : bool;          (** the resource slice was granted *)
  o_time_left : bool;         (** enough of the deadline for a write *)
  o_time_left_after : bool;   (** still enough after reading the settings *)
  o_hydration_ok : bool;
  o_settings : option bool;   (** [GET settings]: the desired ones, or an error *)
  o_budget : bool;            (** the write budget when the request starts *)
  o_response : option bool;   (** an accepted task, a 4xx, or no usable answer *)
  o_poll_ok : bool }.

(** The request a receipt makes in its phase. *)
Definition write_of r : remote_write D :=
  match rc_phase r with
  | settings_phase => WSettings
  | documents_phase => WDocuments (rc_index r) (rc_payload r)
  end.

Definition PREPARED_BUDGET_RETRY_SECONDS : Z := 30.

(** [_defer_prepared_for_budget] without the marker. *)
Definition _defer_prepared_for_budget (r : Receipt D) (token : Z) (p : position D) w : World D :=
  save_then (rc_id r) token (λ x, with_schedule (clock w + PREPARED_BUDGET_RETRY_SECONDS) None (rc_polls x)
                               (with_progress prepared (rc_phase x) None x)) p w.

(** [create_marker], once there is still time for a write. *)
Definition mark_flight (o : oracle) (r : Receipt D) (token : Z) w : World D :=
  if negb (o_time_left_after o) then _defer_prepared_for_budget r token idle w
  else match create_marker (rc_id r) (marker w) with
       | inl m => set_worker (marked r token) (set_marker m w)
       | inr _ => set_worker idle w
       end.

(** The part of [_advance] before the marker: the write pause, the deadline
    and the settings of the index. *)
Definition advance_prepared (o : oracle) (r : Receipt D) (token : Z) w : World D :=
  if match rc_write_available_at r with Some t => clock w <? t | None => false end
  then save_then (rc_id r) token release idle w
  else if negb (o_time_left o) then _defer_prepared_for_budget r token idle w
  else
    match rc_phase r, o_settings o with
    | settings_phase, None => set_worker idle w
    | settings_phase, Some true =>
        match _save (rc_id r) token (λ x, with_progress (rc_state x) documents_phase (rc_task x) x) w with
        | None => set_worker idle w
        | Some w' => mark_flight o (with_progress (rc_state r) documents_phase (rc_task r) r) token w'
        end
    | _, _ => mark_flight o r token w
    end.

(** The end of [_advance]: the status of the task. *)
Definition poll (o : oracle) (r : Receipt D) (token : Z) w : World D :=
  let status := rc_task r ≫= λ uid, rq_status <$> requests w !! uid in
  if negb (o_poll_ok o) then
    save_then (rc_id r) token (λ x, with_schedule (clock w + 15) None (rc_polls x) x) idle w
  else match status with
  | Some succeeded =>
      match rc_phase r with
      | settings_phase =>
          save_then (rc_id r) token (λ x, with_schedule (clock w) None 0
                                       (with_progress prepared documents_phase None x))
            (clearing (rc_id r)) w
      | documents_phase => _finalize (rc_id r) token false w
      end
  | Some unsuccessful => _finalize (rc_id r) token true w
  | Some _ =>
      let delay := Z.min 15 (2 * 2 ^ Z.min (rc_polls r + 1) 3) in
      save_then (rc_id r) token (λ x, with_schedule (clock w + delay) None (rc_polls r + 1) x) idle w
  | None => save_then (rc_id r) token (λ x, with_schedule (clock w + 15) None (rc_polls x) x) idle w
  end.

(** One durable action of the worker. *)
Definition work (o : oracle) w : World D :=
  match worker w with
  | idle => set_worker started w
  | started => _claim (o_token o) w
  | claimed r token =>
      match rc_state r with
      | prepared =>
          match marker w with
          | Some m => if mk_owner m =? rc_id r
                      then set_worker (advancing r token) (set_marker (clear_marker (rc_id r) (marker w)) w)
                      else set_worker idle w
          | None => set_worker (advancing r token) w
          end
      | submitting | ambiguous =>
          match marker w with
          | Some (mkMarker owner (Some uid)) =>
              if owner =? rc_id r then
                save_then (rc_id r) token (with_progress pending (rc_phase r) (Some uid))
                  (polling (with_progress pending (rc_phase r) (Some uid) r) token) w
              else save_then (rc_id r) token (λ x, release (with_progress ambiguous (rc_phase x) (rc_task x) x)) idle w
          | _ => save_then (rc_id r) token (λ x, release (with_progress ambiguous (rc_phase x) (rc_task x) x)) idle w
          end
      | _ => set_worker (polling r token) w
      end
  | unclaimed =>
      match marker w with
      | Some m => if existsb (λ c, c.1 =? mk_owner m) (closed w)
                  then set_worker admitted_empty (set_marker (clear_marker (mk_owner m) (marker w)) w)
                  else set_worker idle w
      | None => set_worker admitted_empty w
      end
  | admitted_empty => if o_admitted o then prepare_read (o_limit o) w else set_worker idle w
  | hydrating index a rows => prepare_hydrate index a rows (o_hydration_ok o) w
  | inserting index a chosen => prepare_insert index a chosen (o_token o) w
  | advancing r token =>
      if o_admitted o then advance_prepared o r token w
      else save_then (rc_id r) token release idle w
  | marked r token =>
      match record_task (rc_id r) None (marker w) with
      | inl m => set_worker (recorded r token) (set_marker m w)
      | inr _ => set_worker idle w
      end
  | recorded r token =>
      save_then (rc_id r) token (λ x, with_progress submitting (rc_phase x) (rc_task x) x)
        (sending (with_progress submitting (rc_phase r) (rc_task r) r) token) w
  | sending r token =>
      if negb (o_budget o) then _defer_prepared_for_budget r token (clearing (rc_id r)) w
      else set_worker (waiting r token (length (requests w)))
             (set_requests (requests w ++ [mkRequest (rc_id r) (write_of r) in_flight]) w)
  | waiting r token uid =>
      match o_response o, rq_status <$> requests w !! uid with
      | Some true, Some (enqueued | succeeded | unsuccessful) => set_worker (accepted r token uid) w
      | Some false, Some never_arrived => _finalize (rc_id r) token true w
      | _, _ => save_then (rc_id r) token (λ x, release (with_progress ambiguous (rc_phase x) (rc_task x) x)) idle w
      end
  | accepted r token uid =>
      match record_task (rc_id r) (Some uid) (marker w) with
      | inl m => set_worker (known r token uid) (set_marker m w)
      | inr _ => set_worker idle w
      end
  | known r token uid =>
      save_then (rc_id r) token (λ x, with_schedule (clock w + 2) None (rc_polls x)
                                   (with_progress pending (rc_phase x) (Some uid) x)) idle w
  | polling r token => poll o r token w
  | clearing receipt => set_worker idle (set_marker (clear_marker receipt (marker w)) w)
  end.

(** ** The surroundings *)

(** What a request does to the documents of the engine. *)
Definition apply_items (index : string) (items : list (string * option D)) (docs : gmap key D) : gmap key D :=
  foldl (λ m e, partial_alter (λ _, e.2) (index, e.1) m) docs items.
Definition apply_write (x : remote_write D) (docs : gmap key D) : gmap key D :=
  match x with WSettings => docs | WDocuments index items => apply_items index items docs end.

Definition set_status (s : request_status) (q : Request D) : Request D :=
  mkRequest (rq_owner q) (rq_write q) s.
Definition set_request (uid : nat) (s : request_status) w : World D :=
  set_requests (alter (set_status s) uid (requests w)) w.

(** [reconcile_task], the checks on the receipt and the task. *)
Definition reconcilable (uid : nat) w (r : Receipt D) : Prop :=
  worker w = idle ∧ active w = Some r ∧ (rc_state r = ambiguous ∨ rc_state r = submitting) ∧
  match rc_lease_until r with Some t => t <= clock w | None => True end.

(** A task of this receipt's kind that the operator has identified as its own. *)
Definition identified (uid : nat) w (r : Receipt D) : Prop :=
  ∃ q, requests w !! uid = Some q ∧ rq_owner q = rc_id r ∧
    match rq_write q, write_of r with
    | WSettings, WSettings => True
    | WDocuments i _, WDocuments j _ => i = j
    | _, _ => False
    end ∧ (rq_status q = enqueued ∨ rq_status q = succeeded ∨ rq_status q = unsuccessful).

(** One step of the whole system. *)
Inductive step : World D → World D → Prop :=
| step_work o w : step w (work o w)
| step_crash w : step w (set_worker idle w)
| step_tick d w : 0 <= d →
    step w (mkWorld (clock w + d) (domain w) (outbox w) (next_row w) (active w) (closed w)
              (next_receipt w) (marker w) (requests w) (documents w) (worker w))
| step_request upserts deletes content w :
    step w (request_search_projection upserts deletes content w)
| step_prune hours w : step w (prune_completed_projection_events hours w)
| step_cooldown r until w : active w = Some r →
    step w (set_active (Some (mkReceipt (rc_id r) (rc_index r) (rc_action r) (rc_versions r)
              (rc_payload r) (rc_state r) (rc_phase r) (rc_task r) (Some until) (rc_available_at r)
              (rc_lease_until r) (rc_token r) (rc_polls r))) w)
| step_arrive uid q w : requests w !! uid = Some q → rq_status q = in_flight →
    step w (set_request uid enqueued w)
| step_lose uid q w : requests w !! uid = Some q → rq_status q = in_flight →
    step w (set_request uid never_arrived w)
| step_run uid q w : requests w !! uid = Some q → rq_status q = enqueued →
    step w (set_documents (apply_write (rq_write q) (documents w)) (set_request uid succeeded w))
| step_fail uid q w : requests w !! uid = Some q → rq_status q = enqueued →
    step w (set_request uid unsuccessful w)
| step_reconcile_marker uid r m w : reconcilable uid w r → identified uid w r →
    record_task (rc_id r) (Some uid) (marker w) = inl m → step w (set_marker m w)
| step_reconcile uid r m w : reconcilable uid w r → identified uid w r →
    record_task (rc_id r) (Some uid) (marker w) = inl m →
    step w (set_active (Some (with_schedule (clock w) None (rc_polls r)
              (with_progress pending (rc_phase r) (Some uid) r))) (set_marker m w)).

Definition initial_world : World D :=
  mkWorld 0 ∅ ∅ 0 None [] 0 None [] ∅ idle.

Inductive reachable : World D → Prop :=
| reachable_initial : reachable initial_world
| reachable_step w w' : reachable w → step w w' → reachable w'.
End Delivery.
