(* ===== verification/SearchDeliveryFacts.v ===== *)
(** * The invariant of search delivery

    What holds between the outbox, the receipt, the requests in the engine and
    the worker's position after any interleaving of domain changes, worker
    steps, crashes and engine steps. *)

From stdpp Require Import base gmap strings list numbers sets.
From S2P Require Import Prelude Keyset SearchDelivery.

Open Scope Z_scope.

Section Invariant.
Context {D : Type}.
Implicit Types (w : World D) (r : Receipt D) (q : Request D) (k : key) (row : Row).

(** ** The tables *)

(** No row, or an acknowledged one. *)
Definition settled w k : Prop :=
  match outbox w !! k with Some row => row_completed_at row ≠ None | None => True end.

Record tables_ok w : Prop := {
  ok_ids : ∀ k row, outbox w !! k = Some row → row_id row < next_row w;
  ok_unique : ∀ k k' row row', outbox w !! k = Some row → outbox w !! k' = Some row' →
    row_id row = row_id row' → k = k';
  ok_deletes : ∀ k row, outbox w !! k = Some row → row_action row = delete → domain w !! k = None;
  ok_current : ∀ k, settled w k → documents w !! k = domain w !! k;
  ok_owners : ∀ uid q, requests w !! uid = Some q → rq_owner q < next_receipt w }.

(** ** Requests and the receipt *)

Definition outstanding q : Prop := rq_status q = in_flight ∨ rq_status q = enqueued.

(** A request of the receipt for what it is about to do or doing. *)
Definition own_request r q : Prop := rq_owner q = rc_id r ∧ rq_write q = write_of r.

(** An outbox row still waits for (at least) a recorded version; while the
    version stands, [content] is the domain's. *)
Definition awaits w k (id version : Z) (content : option D) : Prop :=
  ∃ row, outbox w !! k = Some row ∧ row_id row = id ∧ row_completed_at row = None ∧
    version <= row_version row ∧ (row_version row = version → domain w !! k = content).

Record receipt_ok w r : Prop := {
  rk_id : rc_id r < next_receipt w;
  rk_live : rc_state r ≠ complete ∧ rc_state r ≠ failed;
  rk_outstanding : ∀ uid q, requests w !! uid = Some q → outstanding q → own_request r q;
  rk_single : ∀ uid uid' q q', requests w !! uid = Some q → requests w !! uid' = Some q' →
    own_request r q → own_request r q' → uid = uid';
  rk_prepared : rc_state r = prepared → ∀ uid q, requests w !! uid = Some q → ¬ own_request r q;
  rk_owned : ∀ uid q, requests w !! uid = Some q → rq_owner q = rc_id r → rq_write q = WSettings ∨
    (rc_phase r = documents_phase ∧ rq_write q = WDocuments (rc_index r) (rc_payload r));
  rk_pending : rc_state r = pending → ∃ uid q, rc_task r = Some uid ∧ requests w !! uid = Some q ∧
    own_request r q;
  rk_marker : rc_state r ≠ prepared → ∀ uid, marker w = Some (mkMarker (rc_id r) (Some uid)) →
    ∃ q, requests w !! uid = Some q ∧ own_request r q;
  rk_done : ∀ uid q, requests w !! uid = Some q → own_request r q → rq_status q = succeeded →
    rc_phase r = documents_phase →
    ∀ e c, (e, c) ∈ rc_payload r → documents w !! (rc_index r, e) = c;
  rk_distinct : NoDup (rc_payload r).*1;
  rk_awaits : Forall2 (λ v e, awaits w (rc_index r, e.1) v.1 v.2 e.2) (rc_versions r) (rc_payload r) }.

(** The worker's copy of the receipt. *)
Definition copy_of r r' (token : Z) : Prop :=
  rc_id r = rc_id r' ∧ rc_token r = Some token ∧ rc_index r = rc_index r' ∧
  rc_versions r = rc_versions r' ∧ rc_payload r = rc_payload r' ∧ rc_state r = rc_state r' ∧
  rc_phase r = rc_phase r' ∧ rc_task r = rc_task r'.

Definition holds_copy w r' token (P : Receipt D → Prop) : Prop :=
  ∃ r, active w = Some r ∧ copy_of r r' token ∧ P r.

(** What stays true of a row the worker has read. *)
Definition read_row w (kr : key * Row) : Prop :=
  ∃ row, outbox w !! kr.1 = Some row ∧ row_id row = row_id kr.2 ∧ row_completed_at row = None ∧
    row_version kr.2 <= row_version row ∧
    (row_version row = row_version kr.2 → row_action row = row_action kr.2).

(** The worker's position. *)
Definition position_ok w : Prop :=
  match worker w with
  | idle | started | unclaimed | admitted_empty | clearing _ => True
  | claimed r' token => holds_copy w r' token (λ _, True)
  | hydrating index a rows =>
      active w = None ∧ NoDup (rows.*1) ∧
      Forall (λ kr, kr.1.1 = index ∧ row_action kr.2 = a ∧ read_row w kr) rows
  | inserting index a chosen =>
      active w = None ∧ NoDup (chosen.*1.*1) ∧
      Forall (λ c, c.1.1.1 = index ∧ awaits w c.1.1 (row_id c.1.2) (row_version c.1.2) c.2) chosen
  | advancing r' token | marked r' token => holds_copy w r' token (λ r, rc_state r = prepared)
  | recorded r' token => holds_copy w r' token (λ r, rc_state r = prepared ∧
      ∀ uid, marker w ≠ Some (mkMarker (rc_id r) (Some uid)))
  | sending r' token => holds_copy w r' token (λ r, rc_state r = submitting ∧
      ∀ uid q, requests w !! uid = Some q → ¬ own_request r q)
  | waiting r' token uid | accepted r' token uid | known r' token uid =>
      holds_copy w r' token (λ r, rc_state r = submitting ∧
        ∃ q, requests w !! uid = Some q ∧ own_request r q)
  | polling r' token => holds_copy w r' token (λ r, rc_state r = pending)
  end.

Record world_ok w : Prop := {
  wk_tables : tables_ok w;
  wk_none : active w = None → ∀ uid q, requests w !! uid = Some q → ¬ outstanding q;
  wk_receipt : ∀ r, active w = Some r → receipt_ok w r;
  wk_position : position_ok w }.

Lemma initial_ok : world_ok initial_world.
Proof.
  split; [split| | |]; cbn; try done; intros *; rewrite ?lookup_empty, ?lookup_nil; done.
Qed.

(** ** Frames *)

(** Changing the worker needs only its new position. *)
Lemma set_worker_ok p w : world_ok w → position_ok (set_worker p w) → world_ok (set_worker p w).
Proof. intros [Ht Hn Hr _] Hp. by split; [destruct Ht| |intros r E; destruct (Hr r E)|]. Qed.

Lemma to_idle w : world_ok w → world_ok (set_worker idle w).
Proof. intros Hw. by apply set_worker_ok. Qed.

(** Changing the marker: a task it names for the receipt must be its own. *)
Lemma set_marker_ok m p w : world_ok w →
  (∀ r uid, active w = Some r → rc_state r ≠ prepared → m = Some (mkMarker (rc_id r) (Some uid)) →
     marker w = m ∨ ∃ q, requests w !! uid = Some q ∧ own_request r q) →
  position_ok (set_worker p (set_marker m w)) → world_ok (set_worker p (set_marker m w)).
Proof.
  intros [Ht Hn Hr _] Hm Hp. split; [by destruct Ht|done| |done].
  intros r E. destruct (Hr r E) as [H1 H2 H3 H4 H5 H6 H7 H8 H9 H10 H11]. split; try done.
  intros Hs uid Hu. cbn in Hu. destruct (Hm r uid E Hs Hu) as [Hold|]; [|done].
  apply H8; [done|]. by rewrite Hold.
Qed.

(** The receipt may change in its scheduling fields. *)
Definition same_progress r r' : Prop :=
  rc_id r = rc_id r' ∧ rc_index r = rc_index r' ∧ rc_versions r = rc_versions r' ∧
  rc_payload r = rc_payload r' ∧ rc_state r = rc_state r' ∧ rc_phase r = rc_phase r' ∧
  rc_task r = rc_task r'.

Lemma same_write r r' : same_progress r r' → write_of r' = write_of r.
Proof. intros (_ & E2 & _ & E4 & _ & E6 & _). unfold write_of. by rewrite E2, E4, E6. Qed.

Lemma receipt_same_progress w r r' : same_progress r r' → receipt_ok w r → receipt_ok w r'.
Proof.
  intros Hs [H1 H2 H3 H4 H5 H6 H7 H8 H9 H10 H11]. pose proof (same_write r r' Hs) as Hw.
  destruct Hs as (E1 & E2 & E3 & E4 & E5 & E6 & E7).
  assert (∀ q, own_request r' q ↔ own_request r q) as Ho by (intros q; unfold own_request; by rewrite E1, Hw).
  split; rewrite <-?E1, <-?E2, <-?E3, <-?E4, <-?E5, <-?E6, <-?E7; try done.
  - intros uid q Hq Hout. apply Ho. by eapply H3.
  - intros uid uid' q q' Hq Hq' Hw1%Ho Hw2%Ho. by eapply H4.
  - intros Hp uid q Hq Hw1%Ho. by eapply H5.
  - intros Hp. destruct (H7 Hp) as (uid & q & ? & ? & ?%Ho). eauto.
  - intros Hp uid Hm. destruct (H8 Hp uid Hm) as (q & ? & ?%Ho). eauto.
  - intros uid q Hq Hw1%Ho. by eapply H9.
Qed.

(** A new state in the same phase. *)
Lemma receipt_new_state w r r' : receipt_ok w r →
  rc_id r = rc_id r' → rc_index r = rc_index r' → rc_versions r = rc_versions r' →
  rc_payload r = rc_payload r' → rc_phase r = rc_phase r' →
  rc_state r' ≠ complete → rc_state r' ≠ failed →
  (rc_state r' = prepared → ∀ uid q, requests w !! uid = Some q → ¬ own_request r q) →
  (rc_state r' = pending → ∃ uid q, rc_task r' = Some uid ∧ requests w !! uid = Some q ∧ own_request r q) →
  (rc_state r' ≠ prepared → rc_state r = prepared → ∀ uid, marker w ≠ Some (mkMarker (rc_id r) (Some uid))) →
  receipt_ok w r'.
Proof.
  intros [H1 H2 H3 H4 H5 H6 H7 H8 H9 H10 H11] E1 E2 E3 E4 E6 Hc Hf Hprep Hpend Hmark.
  assert (∀ q, own_request r' q ↔ own_request r q) as Ho
    by (intros q; unfold own_request, write_of; by rewrite E1, E2, E4, E6).
  split; rewrite <-?E1, <-?E2, <-?E3, <-?E4, <-?E6; try done.
  - intros uid q Hq Hout. apply Ho. by eapply H3.
  - intros uid uid' q q' Hq Hq' Hw1%Ho Hw2%Ho. by eapply H4.
  - intros Hp uid q Hq Hw1%Ho. by eapply Hprep.
  - intros Hp. destruct (Hpend Hp) as (uid & q & ? & ? & ?%Ho). eauto.
  - intros Hp uid Hm. destruct (decide (rc_state r = prepared)) as [Hr|Hr].
    + by destruct (Hmark Hp Hr uid).
    + destruct (H8 Hr uid Hm) as (q & ? & ?%Ho). eauto.
  - intros uid q Hq Hw1%Ho. by eapply H9.
Qed.

(** The settings are in place: the same receipt, about to send documents. *)
Lemma receipt_to_documents w r r' : receipt_ok w r →
  rc_id r = rc_id r' → rc_index r = rc_index r' → rc_versions r = rc_versions r' →
  rc_payload r = rc_payload r' → rc_phase r = settings_phase → rc_phase r' = documents_phase →
  rc_state r' = prepared → (∀ uid q, requests w !! uid = Some q → ¬ outstanding q) →
  receipt_ok w r'.
Proof.
  intros [H1 H2 H3 H4 H5 H6 H7 H8 H9 H10 H11] E1 E2 E3 E4 Hp Hp' Hs Hout.
  assert (∀ uid q, requests w !! uid = Some q → ¬ own_request r' q) as Hno.
  { intros uid q Hq [Ho Hw]. rewrite <-E1 in Ho. destruct (H6 uid q Hq Ho) as [Hw'|[Hw' _]].
    - rewrite Hw' in Hw. unfold write_of in Hw. by rewrite Hp' in Hw.
    - by rewrite Hp in Hw'. }
  split; rewrite <-?E1, <-?E2, <-?E3, <-?E4; try done.
  - by rewrite Hs.
  - intros uid q Hq Ho. by destruct (Hout uid q Hq).
  - intros uid uid' q q' Hq _ Ho. by destruct (Hno uid q Hq).
  - intros uid q Hq Ho. destruct (H6 uid q Hq Ho) as [?|[? _]]; [by left|by rewrite Hp in *].
  - by rewrite Hs.
  - intros uid q Hq Ho. by destruct (Hno uid q Hq).
Qed.

(** Nothing of a prepared receipt is outstanding. *)
Lemma prepared_quiet w r uid q : receipt_ok w r → rc_state r = prepared →
  requests w !! uid = Some q → ¬ outstanding q.
Proof. intros Hr Hs Hq Ho. eapply (rk_prepared _ _ Hr Hs); [done|]. by eapply rk_outstanding. Qed.

(** Once a request of the receipt is over, nothing is outstanding. *)
Lemma over_quiet w r uid q : receipt_ok w r → requests w !! uid = Some q → own_request r q →
  ¬ outstanding q → ∀ uid' q', requests w !! uid' = Some q' → ¬ outstanding q'.
Proof.
  intros Hr Hq Ho Hover uid' q' Hq' Hout. pose proof (rk_outstanding _ _ Hr uid' q' Hq' Hout) as Ho'.
  assert (uid = uid') as <- by by eapply rk_single. rewrite Hq in Hq'. by injection Hq' as ->.
Qed.

(** ** Saving *)

Lemma set_active_ok r' p w : world_ok w → receipt_ok w r' →
  position_ok (set_worker p (set_active (Some r') w)) → world_ok (set_worker p (set_active (Some r') w)).
Proof.
  intros [Ht Hn Hr _] Hr' Hp. split; [by destruct Ht|done| |done].
  intros r [= <-]. destruct Hr'. by split.
Qed.

Lemma save_then_ok receipt token f p w : world_ok w →
  (∀ r, active w = Some r → rc_id r = receipt → rc_token r = Some token →
     receipt_ok w (f r) ∧ position_ok (set_worker p (set_active (Some (f r)) w))) →
  world_ok (save_then receipt token f p w).
Proof.
  intros Hw Hf. unfold save_then, _save. destruct (active w) as [r|] eqn:Ea; [|by apply to_idle].
  case_test; [|by apply to_idle].
  apply andb_true_iff in Heqb as [E1%Z.eqb_eq E2%bool_decide_eq_true].
  destruct (Hf r eq_refl E1 E2). by apply set_active_ok.
Qed.
End Invariant.

(** * Every step of search delivery keeps the invariant

    The steps of the domain, the engine and the operator; the worker's own
    steps follow below. *)

Section Steps.
Context {D : Type}.
Implicit Types (w : World D) (r : Receipt D) (q : Request D) (k : key) (row : Row).

(** ** Changes of the outbox and the domain *)

(** What a change of the tables must leave alone. *)
Record same_delivery w w' : Prop := {
  sd_active : active w' = active w;
  sd_next : next_receipt w' = next_receipt w;
  sd_marker : marker w' = marker w;
  sd_requests : requests w' = requests w;
  sd_documents : documents w' = documents w;
  sd_worker : worker w' = worker w }.

(** Rows that are waited for, or were read, go on waiting. *)
Definition rows_kept w w' : Prop :=
  (∀ k id v c, awaits w k id v c → awaits w' k id v c) ∧ (∀ kr, read_row w kr → read_row w' kr).

Lemma receipt_tables w w' r : same_delivery w w' → rows_kept w w' → receipt_ok w r → receipt_ok w' r.
Proof.
  intros [Ea En Em Eq Ed _] [Ha _] [H1 H2 H3 H4 H5 H6 H7 H8 H9 H10 H11].
  split; rewrite ?Ea, ?En, ?Em, ?Eq, ?Ed; try done.
  eapply Forall2_impl; [done|]. auto.
Qed.

Lemma holds_copy_tables w w' r token P : same_delivery w w' → holds_copy w r token P → holds_copy w' r token P.
Proof. intros Hs (r' & ? & ? & ?). exists r'. by rewrite (sd_active _ _ Hs). Qed.

Lemma position_tables w w' : same_delivery w w' → rows_kept w w' → position_ok w → position_ok w'.
Proof.
  intros Hs [Ha Hr]. unfold position_ok, holds_copy.
  rewrite (sd_worker _ _ Hs), (sd_marker _ _ Hs), (sd_requests _ _ Hs), (sd_active _ _ Hs).
  destruct (worker w); try done.
  - intros (? & ? & HF). split_and!; [done..|]. eapply Forall_impl; [done|]. naive_solver.
  - intros (? & ? & HF). split_and!; [done..|]. eapply Forall_impl; [done|]. naive_solver.
Qed.

Lemma tables_step w w' : same_delivery w w' → rows_kept w w' → tables_ok w' → world_ok w → world_ok w'.
Proof.
  intros Hs Hk Ht' [Ht Hn Hr Hp]. split; [done| | |by eapply position_tables].
  - rewrite (sd_active _ _ Hs), (sd_requests _ _ Hs). done.
  - intros r. rewrite (sd_active _ _ Hs). intros E. by eapply receipt_tables, Hr.
Qed.

(** A change of rows one by one that keeps identity, version, action and
    whether they are acknowledged. *)
Definition same_row row row' : Prop :=
  row_id row' = row_id row ∧ row_version row' = row_version row ∧ row_action row' = row_action row ∧
  row_completed_at row' = row_completed_at row.

Lemma rows_map_ok (f : Row → Row) w : (∀ row, same_row row (f row)) → world_ok w →
  world_ok (set_outbox (f <$> outbox w) w).
Proof.
  intros Hf Hw. pose proof (wk_tables _ Hw) as [H1 H2 H3 H4 H5]. apply (tables_step w); [done| | |exact Hw].
  - split.
    + intros k id v c (row & E & ? & ? & ? & ?). destruct (Hf row) as (E1 & E2 & E3 & E4).
      exists (f row). cbn. rewrite lookup_fmap, E. cbn. by rewrite E1, E2, E4.
    + intros kr (row & E & ? & ? & ? & ?). destruct (Hf row) as (E1 & E2 & E3 & E4).
      exists (f row). cbn. rewrite lookup_fmap, E. cbn. by rewrite E1, E2, E3, E4.
  - split; cbn; try done.
    + intros k row (x & <- & E)%lookup_fmap_Some. destruct (Hf x) as (-> & _). by eapply H1.
    + intros k k' row row' (x & <- & E)%lookup_fmap_Some (x' & <- & E')%lookup_fmap_Some.
      destruct (Hf x) as (-> & _), (Hf x') as (-> & _). by eapply H2.
    + intros k row (x & <- & E)%lookup_fmap_Some. destruct (Hf x) as (_ & _ & -> & _). by eapply H3.
    + intros k Hk. apply H4. unfold settled in *. cbn in Hk. rewrite lookup_fmap in Hk.
      destruct (outbox w !! k) as [x|]; [|done]. cbn in Hk. by destruct (Hf x) as (_ & _ & _ & <-).
Qed.

Lemma tick_ok d w : world_ok w →
  world_ok (mkWorld (clock w + d) (domain w) (outbox w) (next_row w) (active w) (closed w)
              (next_receipt w) (marker w) (requests w) (documents w) (worker w)).
Proof. intros Hw. eapply (tables_step w); [done|done| |done]. by destruct (wk_tables _ Hw). Qed.

Lemma mutate_row k a c w : ∃ row, outbox (mutate k a c w) = <[k := row]> (outbox w) ∧
  row_action row = a ∧ row_completed_at row = None ∧
  match outbox w !! k with
  | Some o => row_id row = row_id o ∧ row_version row = row_version o + 1
  | None => row_id row = next_row w
  end.
Proof. cbn. eexists. split; [done|]. by destruct (outbox w !! k). Qed.

Lemma mutate_ok k a c w : (a = delete → c = None) → world_ok w → world_ok (mutate k a c w).
Proof.
  intros Hc Hw. destruct (mutate_row k a c w) as (row & E & Ea & Ec & Er).
  pose proof (wk_tables _ Hw) as [H1 H2 H3 H4 H5].
  assert (∀ k', k' ≠ k → domain (mutate k a c w) !! k' = domain w !! k') as Hdom
    by (intros k' Hk; cbn; by rewrite lookup_partial_alter_ne).
  apply (tables_step w); [done| | |exact Hw].
  - split.
    + intros k' id v c' (x & Ex & ? & ? & ? & ?). unfold awaits. rewrite E.
      destruct (decide (k' = k)) as [->|Hk].
      * rewrite Ex in Er. exists row. rewrite lookup_insert_eq. split_and!; try done; lia || (intros; lia).
      * exists x. rewrite lookup_insert_ne by done. rewrite Hdom by done. done.
    + intros kr (x & Ex & ? & ? & ? & ?). unfold read_row. rewrite E.
      destruct (decide (kr.1 = k)) as [Hk|Hk].
      * rewrite Hk in *. rewrite Ex in Er. exists row. rewrite lookup_insert_eq.
        split_and!; try done; lia || (intros; lia).
      * exists x. by rewrite lookup_insert_ne by done.
  - assert (∀ k' x, outbox w !! k' = Some x → row_id x = row_id row → k' = k) as Hid.
    { intros k' x Ex Hx. destruct (outbox w !! k) as [o|] eqn:Ek.
      - eapply H2; [done..|]. by destruct Er as [<- _].
      - specialize (H1 _ _ Ex). lia. }
    split; unfold settled; rewrite ?E.
    + intros k' x [[<- <-]|[Hk Ex]]%lookup_insert_Some; cbn.
      * destruct (outbox w !! k) as [o|] eqn:Ek; [specialize (H1 _ _ Ek)|]; lia.
      * specialize (H1 _ _ Ex). lia.
    + intros k1 k2 x1 x2 [[<- <-]|[? E1]]%lookup_insert_Some [[<- <-]|[? E2]]%lookup_insert_Some Hx; try done.
      * symmetry. by eapply Hid.
      * by eapply Hid.
      * by eapply H2.
    + intros k' x [[<- <-]|[? Ex]]%lookup_insert_Some Hd.
      * cbn. rewrite lookup_partial_alter_eq. naive_solver.
      * rewrite Hdom by done. by eapply H3.
    + intros k'. destruct (decide (k' = k)) as [->|Hk].
      * rewrite lookup_insert_eq. done.
      * rewrite lookup_insert_ne by done. intros Hk'. rewrite Hdom by done. by apply H4.
    + done.
Qed.

Lemma mutates_ok (a : action) (content : key → option D) ks w : (a = delete → ∀ k, content k = None) →
  world_ok w → world_ok (foldl (λ w k, mutate k a (content k) w) w ks).
Proof. intros Hc. revert w. induction ks; intros w Hw; [done|]. apply IHks, mutate_ok; auto. Qed.

Lemma request_ok upserts deletes content w : world_ok w →
  world_ok (request_search_projection upserts deletes content w).
Proof. intros Hw. apply (mutates_ok delete (λ _, None)); [done|]. by apply (mutates_ok upsert content). Qed.

Lemma prune_events_ok hours w : world_ok w → world_ok (prune_completed_projection_events hours w).
Proof.
  intros Hw. pose proof (wk_tables _ Hw) as [H1 H2 H3 H4 H5].
  unfold prune_completed_projection_events. apply (tables_step w); [done| | |exact Hw].
  - split.
    + intros k id v c (x & Ex & ? & Hc & ?). exists x. split; [|done].
      apply map_lookup_filter_Some. cbn. by rewrite Hc.
    + intros kr (x & Ex & ? & Hc & ?). exists x. split; [|done].
      apply map_lookup_filter_Some. cbn. by rewrite Hc.
  - split; unfold settled; cbn.
    + intros k x [Ex _]%map_lookup_filter_Some. by eapply H1.
    + intros k k' x x' [Ex _]%map_lookup_filter_Some [Ex' _]%map_lookup_filter_Some. by eapply H2.
    + intros k x [Ex _]%map_lookup_filter_Some. by eapply H3.
    + intros k Hk. apply H4. unfold settled. destruct (outbox w !! k) as [x|] eqn:Ex; [|done].
      intros Hc. rewrite (proj2 (map_lookup_filter_Some _ _ _ x)) in Hk; [done|]. cbn. by rewrite Hc.
    + done.
Qed.

(** ** The engine *)

(** A write touches the documents of its items only. *)
Lemma apply_items_other index (items : list (string * option D)) docs k :
  (∀ e c, (e, c) ∈ items → k ≠ (index, e)) → apply_items index items docs !! k = docs !! k.
Proof.
  unfold apply_items. revert docs. induction items as [|[e c] items IH]; intros docs Hk; [done|].
  cbn. rewrite IH by (intros e' c' Hin; by eapply Hk, elem_of_cons; right).
  rewrite lookup_partial_alter_ne; [done|]. intros <-. by eapply Hk; [apply elem_of_cons; left|].
Qed.

(** After a write every item holds. *)
Lemma apply_items_in index (items : list (string * option D)) docs e c :
  NoDup items.*1 → (e, c) ∈ items → apply_items index items docs !! (index, e) = c.
Proof.
  revert docs. induction items as [|[e' c'] items IH]; intros docs Hnd Hin; [by apply not_elem_of_nil in Hin|].
  apply NoDup_cons in Hnd as [Hnew Hnd]. apply elem_of_cons in Hin as [[= -> ->]|Hin].
  - change (apply_items index items (partial_alter (λ _, c') (index, e') docs) !! (index, e') = c').
    rewrite apply_items_other; [by rewrite lookup_partial_alter_eq|].
    intros e c Hin [= ->]. apply Hnew. apply list_elem_of_fmap. by exists (e, c).
  - by apply (IH (partial_alter (λ _, c') (index, e') docs)).
Qed.

Lemma awaits_unsettled w k id v c : awaits w k id v c → ¬ settled w k.
Proof. intros (row & E & _ & Hc & _) Hs. unfold settled in Hs. rewrite E in Hs. done. Qed.

(** The items of a receipt are all waited for. *)
Lemma items_awaited w r e c : receipt_ok w r → (e, c) ∈ rc_payload r →
  ∃ v, v ∈ rc_versions r ∧ awaits w (rc_index r, e) v.1 v.2 c.
Proof.
  intros Hr (i & Hi)%list_elem_of_lookup. pose proof (rk_awaits _ _ Hr) as HF.
  destruct (Forall2_lookup_r _ _ _ _ _ HF Hi) as (v & Hv & ?). exists v. split; [|done].
  by eapply list_elem_of_lookup_2.
Qed.

(** A write of the receipt leaves settled documents alone. *)
Lemma write_unsettled w r k : receipt_ok w r → settled w k →
  apply_write (write_of r) (documents w) !! k = documents w !! k.
Proof.
  intros Hr Hk. unfold write_of. destruct (rc_phase r); [done|]. apply apply_items_other.
  intros e c Hin ->. destruct (items_awaited w r e c Hr Hin) as (v & _ & Hv). by eapply awaits_unsettled.
Qed.

Definition effect (s : request_status) q (docs : gmap key D) : gmap key D :=
  match s with succeeded => apply_write (rq_write q) docs | _ => docs end.

Definition engine_step (uid : nat) q (s : request_status) w : World D :=
  set_documents (effect s q (documents w)) (set_request uid s w).

Lemma engine_requests uid q s w uid' q' : requests w !! uid = Some q → 
  requests (engine_step uid q s w) !! uid' = Some q' →
  (uid' = uid ∧ q' = set_status s q) ∨ (uid' ≠ uid ∧ requests w !! uid' = Some q').
Proof.
  intros Hq. cbn. destruct (decide (uid' = uid)) as [->|Hne].
  - rewrite list_lookup_alter_eq, Hq. intros [= <-]. by left.
  - rewrite list_lookup_alter_ne by done. by right.
Qed.

(** Where the request was, what has become of it is. *)
Lemma engine_keeps uid q s w uid' q' : requests w !! uid = Some q → requests w !! uid' = Some q' →
  ∃ q'', requests (engine_step uid q s w) !! uid' = Some q'' ∧
    rq_owner q'' = rq_owner q' ∧ rq_write q'' = rq_write q'.
Proof.
  intros Hq Hq'. cbn. destruct (decide (uid' = uid)) as [->|Hne].
  - rewrite list_lookup_alter_eq, Hq'. by eexists.
  - rewrite list_lookup_alter_ne by done. by eexists.
Qed.

Lemma engine_origin uid q s w uid' q' : requests w !! uid = Some q →
  requests (engine_step uid q s w) !! uid' = Some q' →
  ∃ q'', requests w !! uid' = Some q'' ∧ rq_owner q'' = rq_owner q' ∧ rq_write q'' = rq_write q' ∧
    (uid' ≠ uid → q'' = q').
Proof. intros Hq Hq'. destruct (engine_requests _ _ _ _ _ _ Hq Hq') as [[-> ->]|[? ?]]; [by exists q|by exists q']. Qed.

Lemma own_transfer r q q' : rq_owner q = rq_owner q' → rq_write q = rq_write q' →
  own_request r q → own_request r q'.
Proof. unfold own_request. by intros -> ->. Qed.

Lemma engine_receipt uid q s w r : requests w !! uid = Some q → outstanding q → s ≠ in_flight →
  receipt_ok w r → receipt_ok (engine_step uid q s w) r.
Proof.
  intros Hq Hout Hs Hr. pose proof (rk_outstanding _ _ Hr uid q Hq Hout) as Hown.
  pose proof Hr as [H1 H2 H3 H4 H5 H6 H7 H8 H9 H10 H11]. split; try done.
  - intros uid' q' Hq' Ho. destruct (engine_requests _ _ _ _ _ _ Hq Hq') as [[-> ->]|[? ?]]; [done|by eapply H3].
  - intros u1 u2 q1 q2 E1 E2 O1 O2.
    destruct (engine_origin _ _ _ _ _ _ Hq E1) as (p1 & ? & ? & ? & _).
    destruct (engine_origin _ _ _ _ _ _ Hq E2) as (p2 & ? & ? & ? & _).
    eapply H4; [done|done|..]; by eapply own_transfer.
  - intros Hp u q' E O. destruct (engine_origin _ _ _ _ _ _ Hq E) as (p & ? & ? & ? & _).
    eapply H5; [done..|]. by eapply own_transfer.
  - intros u q' E. destruct (engine_origin _ _ _ _ _ _ Hq E) as (p & Hp & <- & <- & _). by eapply H6.
  - intros Hp. destruct (H7 Hp) as (u & q' & ? & Hq' & ?).
    destruct (engine_keeps uid q s w u q' Hq Hq') as (q'' & ? & ? & ?). exists u, q''. split_and!; [done..|].
    by eapply own_transfer.
  - intros Hp u Hm. destruct (H8 Hp u Hm) as (q' & Hq' & ?).
    destruct (engine_keeps uid q s w u q' Hq Hq') as (q'' & ? & ? & ?). exists q''. split; [done|].
    by eapply own_transfer.
  - intros u q' E O Hst Hph e c Hin. destruct (engine_requests _ _ _ _ _ _ Hq E) as [[-> ->]|[Hne Hq']].
    + cbn in Hst. subst s. cbn. destruct Hown as [_ ->]. unfold write_of. rewrite Hph. cbn.
      by apply apply_items_in.
    + destruct Hne. by eapply H4.
Qed.

Lemma engine_copy uid q s w r token P P' :
  (∀ x, P x → P' x) → holds_copy w r token P → holds_copy (engine_step uid q s w) r token P'.
Proof. intros HP (x & ? & ? & ?). exists x. split_and!; auto. Qed.

Lemma engine_position uid q s w : requests w !! uid = Some q → position_ok w → position_ok (engine_step uid q s w).
Proof.
  intros Hq. unfold position_ok. change (worker (engine_step uid q s w)) with (worker w).
  destruct (worker w) eqn:Ew; try done; apply engine_copy; intros x [Hx HP]; (split; [exact Hx|]).
  1: { intros u q' E O. destruct (engine_origin _ _ _ _ _ _ Hq E) as (p & ? & ? & ? & _).
       eapply HP; [done|]. by eapply own_transfer. }
  all: destruct HP as (q' & Hq' & O); destruct (engine_keeps uid q s w _ q' Hq Hq') as (q'' & ? & ? & ?);
    exists q''; split; [done|by eapply own_transfer].
Qed.

Lemma engine_ok uid q s w : requests w !! uid = Some q → outstanding q → s ≠ in_flight →
  world_ok w → world_ok (engine_step uid q s w).
Proof.
  intros Hq Hout Hs Hw. pose proof Hw as [[H1 H2 H3 H4 H5] Hn Hr Hp].
  destruct (active w) as [r|] eqn:Ea; [|by destruct (Hn eq_refl uid q)].
  pose proof (Hr r eq_refl) as Hrk. split; [split; try done| | |by apply engine_position].
  - intros k Hk. cbn. rewrite <-H4 by done. destruct s; try done. cbn.
    destruct (rk_outstanding _ _ Hrk uid q Hq Hout) as [_ ->]. by apply write_unsettled.
  - intros u q' E. destruct (engine_origin _ _ _ _ _ _ Hq E) as (p & Hp' & <- & _). by eapply H5.
  - cbn. by rewrite Ea.
  - intros r' E. cbn in E. rewrite Ea in E. injection E as <-. by apply engine_receipt.
Qed.
End Steps.

(** * The worker keeps the invariant of search delivery

    One lemma for each position of a slice between two durable actions. *)

Section Worker.
Context {D : Type} (document_bytes : D → Z) (entity_bytes : string → Z).
Implicit Types (w : World D) (r : Receipt D) (q : Request D) (k : key) (row : Row).

(** ** Saving what the worker holds *)

Lemma copy_request x r token : copy_of x r token →
  rc_id x = rc_id r ∧ rc_phase x = rc_phase r ∧ rc_task x = rc_task r ∧ write_of x = write_of r.
Proof.
  intros (Ei & _ & Ex & _ & Ep & _ & Eph & Et). unfold write_of. by rewrite Ei, Ex, Ep, Eph, Et.
Qed.

Lemma save_own r' token P f p w : world_ok w → holds_copy w r' token P →
  (∀ r, active w = Some r → copy_of r r' token → P r → receipt_ok w r →
     receipt_ok w (f r) ∧ position_ok (set_worker p (set_active (Some (f r)) w))) →
  world_ok (save_then (rc_id r') token f p w).
Proof.
  intros Hw (r & Ea & Hc & HP) Hf. apply save_then_ok; [done|].
  intros x Ex _ _. rewrite Ea in Ex. injection Ex as <-.
  apply Hf; try done. by apply (wk_receipt _ Hw).
Qed.

(** Only the schedule changes, and the slice ends. *)
Lemma reschedule_ok receipt token f w : world_ok w → (∀ r, same_progress r (f r)) →
  world_ok (save_then receipt token f idle w).
Proof.
  intros Hw Hf. apply save_then_ok; [done|]. intros r Ea _ _. split; [|done].
  eapply receipt_same_progress; [apply Hf|]. by apply (wk_receipt _ Hw).
Qed.

(** The outcome of the submission is unknown. *)
Lemma ambiguous_ok r' token P w : world_ok w → holds_copy w r' token P →
  (∀ r, P r → rc_state r ≠ prepared) →
  world_ok (save_then (rc_id r') token
    (λ x, release (with_progress ambiguous (rc_phase x) (rc_task x) x)) idle w).
Proof.
  intros Hw Hh HP. eapply save_own; [done..|]. intros r Ea Hc Hr Hok. split; [|done].
  eapply receipt_new_state; try done. intros _ Hs. by destruct (HP r Hr).
Qed.

(** Back to prepared: nothing was sent for this phase. *)
Lemma defer_ok r' token P p w : world_ok w → holds_copy w r' token P →
  (∀ r, active w = Some r → P r → receipt_ok w r → ∀ uid q, requests w !! uid = Some q → ¬ own_request r q) →
  (∀ x, position_ok (set_worker p x)) →
  world_ok (_defer_prepared_for_budget r' token p w).
Proof.
  intros Hw Hh HP Hp. eapply save_own; [done..|]. intros r Ea Hc Hr Hok. split; [|apply Hp].
  eapply receipt_new_state; try done. intros _. by apply HP.
Qed.

(** ** Closing *)

Lemma update_versions_lookup (f : Row → Row) (vs : list (Z * Z)) (o : gmap key Row) k row' :
  update_versions f vs o !! k = Some row' →
  ∃ row, o !! k = Some row ∧
    (((row_id row, row_version row) ∈ vs ∧ row' = f row) ∨
     (¬ ((row_id row, row_version row) ∈ vs) ∧ row' = row)).
Proof.
  unfold update_versions. intros (row & <- & E)%lookup_fmap_Some. exists row. split; [done|].
  case_bool_decide; [by left|by right].
Qed.

(** A version the receipt recorded, still current: its item, and its content. *)
Lemma version_item w r k row : tables_ok w → receipt_ok w r → outbox w !! k = Some row →
  (row_id row, row_version row) ∈ rc_versions r →
  ∃ e c, k = (rc_index r, e) ∧ (e, c) ∈ rc_payload r ∧ domain w !! k = c.
Proof.
  intros Ht Hr Ek (i & Hi)%list_elem_of_lookup. pose proof (rk_awaits _ _ Hr) as HF.
  destruct (Forall2_lookup_l _ _ _ _ _ HF Hi) as ([e c] & He & x & Ex & Hid & _ & _ & Hdom).
  assert (k = (rc_index r, e)) as -> by (eapply ok_unique; [done..|]; by rewrite Hid).
  cbn in Ex. rewrite Ek in Ex. injection Ex as <-. exists e, c. split_and!; [done| |by apply Hdom].
  by eapply list_elem_of_lookup_2.
Qed.

Lemma finalize_tables w r (error : bool) : tables_ok w → receipt_ok w r →
  (error = false → ∃ uid q, requests w !! uid = Some q ∧ own_request r q ∧ rq_status q = succeeded ∧
                     rc_phase r = documents_phase) →
  tables_ok (set_outbox (update_versions (if error then retry_row (clock w) else complete_row (clock w))
                           (rc_versions r) (outbox w)) w).
Proof.
  intros Ht Hr Hdone. pose proof Ht as [H1 H2 H3 H4 H5].
  set (f := if error then retry_row (clock w) else complete_row (clock w)).
  assert (∀ row, row_id (f row) = row_id row ∧ row_action (f row) = row_action row) as Hf
    by (intros row; unfold f; by destruct error).
  assert (∀ k row', update_versions f (rc_versions r) (outbox w) !! k = Some row' →
    ∃ row, outbox w !! k = Some row ∧ row_id row' = row_id row ∧ row_action row' = row_action row) as Hold.
  { intros k row' (row & E & [[_ ->]|[_ ->]])%update_versions_lookup; by exists row. }
  split; cbn; try done.
  - intros k row' (row & E & -> & _)%Hold. by eapply H1.
  - intros k k' row row' (x & E & -> & _)%Hold (x' & E' & -> & _)%Hold. by eapply H2.
  - intros k row' (row & E & _ & ->)%Hold. by eapply H3.
  - intros k Hk. unfold settled in Hk. cbn in Hk. destruct (outbox w !! k) as [row|] eqn:Ek.
    + assert (update_versions f (rc_versions r) (outbox w) !! k =
        Some (if bool_decide ((row_id row, row_version row) ∈ rc_versions r) then f row else row)) as Eu
        by (unfold update_versions; by rewrite lookup_fmap, Ek).
      rewrite Eu in Hk. case_bool_decide as Hin.
      * destruct error; [apply H4; unfold settled; by rewrite Ek|].
        destruct (Hdone eq_refl) as (uid & q & Hq & Ho & Hs & Hph).
        destruct (version_item w r k row Ht Hr Ek Hin) as (e & c & -> & Hec & ->).
        by eapply rk_done.
      * apply H4. unfold settled. by rewrite Ek.
    + apply H4. unfold settled. by rewrite Ek.
Qed.

Lemma finalize_ok r' token P error w : world_ok w → holds_copy w r' token P →
  (∀ r, active w = Some r → P r → ∀ uid q, requests w !! uid = Some q → ¬ outstanding q) →
  (∀ r, active w = Some r → P r → error = false → ∃ uid q, requests w !! uid = Some q ∧ own_request r q ∧
     rq_status q = succeeded ∧ rc_phase r = documents_phase) →
  world_ok (_finalize (rc_id r') token error w).
Proof.
  intros Hw (r & Ea & Hc & HP) Hquiet Hdone. unfold _finalize. rewrite Ea. case_test; [|by apply to_idle].
  pose proof (finalize_tables w r error (wk_tables _ Hw) (wk_receipt _ Hw r Ea) (Hdone r Ea HP)) as [? ? ? ? ?].
  split; [by split| |done|done]. intros _. by apply (Hquiet r Ea HP).
Qed.

(** ** Preparing *)

Lemma select_items_sublist dom a u size some rows (chosen : list (key * Row * option D)) :
  select_items document_bytes entity_bytes dom a u size some rows = Some chosen →
  chosen.*1 `sublist_of` rows ∧ Forall (λ c, c.2 = hydrated dom a c.1) chosen.
Proof.
  revert size some chosen. induction rows as [|kr rows IH]; cbn; intros size some chosen.
  { intros [= <-]. by split. }
  case_test; [intros [? ?]%IH; split; [by constructor|done]|].
  set (z := _ + (if some then 1 else 0)). clearbody z. repeat case_test.
  - intros [= <-]. by split; [apply sublist_nil_l|].
  - done.
  - intros [= <-]. by split; [apply sublist_nil_l|].
  - intros (l & [? ?]%IH & ->)%fmap_Some. cbn. split; by constructor.
Qed.

Lemma prepare_read_ok limit w : world_ok w → world_ok (prepare_read limit w).
Proof.
  intros Hw. unfold prepare_read. destruct (active w) eqn:Ea; [by apply to_idle|].
  set (ready := order_by row_before _).
  assert (NoDup ready.*1) as Hnd.
  { unfold ready. rewrite order_by_perm. eapply sublist_NoDup; [apply (NoDup_fst_map_to_list (outbox w))|].
    apply fmap_sublist, filter_sublist. }
  assert (∀ kr, kr ∈ ready → outbox w !! kr.1 = Some kr.2 ∧ row_completed_at kr.2 = None) as Hin.
  { intros [k row] Hk. unfold ready in Hk. rewrite order_by_perm in Hk.
    apply list_elem_of_In, List.filter_In in Hk as [Hk Hr]. cbn in *.
    apply andb_true_iff in Hr as [[Hr _]%andb_true_iff _]. apply bool_decide_eq_true in Hr.
    split; [|done]. apply elem_of_map_to_list. by apply list_elem_of_In. }
  clearbody ready. destruct ready as [|[[index id] head] rest] eqn:Er; [by apply to_idle|]. rewrite <-Er in *.
  apply set_worker_ok; [done|]. cbn. set (same := List.filter _ _).
  assert (take (Z.to_nat (Z.max 1 (Z.min 500 limit))) same `sublist_of` ready) as Hsl.
  { etrans; [apply sublist_take|]. apply filter_sublist. }
  split_and!; [done| |].
  - eapply sublist_NoDup; [exact Hnd|]. by apply fmap_sublist.
  - apply Forall_forall. intros kr Hkr. assert (kr ∈ same) as Hs by (by eapply elem_of_sublist; [|apply sublist_take]).
    apply list_elem_of_In, List.filter_In in Hs as [Hs [H1 H2]%andb_true_iff].
    apply bool_decide_eq_true in H1, H2. apply list_elem_of_In in Hs. destruct (Hin kr Hs).
    split_and!; [done..|]. by exists kr.2.
Qed.

Lemma read_awaits w kr : tables_ok w → read_row w kr →
  awaits w kr.1 (row_id kr.2) (row_version kr.2) (hydrated (domain w) (row_action kr.2) kr).
Proof.
  intros Ht (row & E & Hid & Hc & Hv & Ha). exists row. split_and!; try done.
  intros Hver. unfold hydrated. destruct (row_action kr.2) eqn:Ek; [done|].
  eapply ok_deletes; [done..|]. by apply Ha.
Qed.

Lemma prepare_hydrate_ok index a rows ok w : world_ok w → worker w = hydrating index a rows →
  world_ok (prepare_hydrate document_bytes entity_bytes index a rows ok w).
Proof.
  intros Hw Ew. pose proof (wk_position _ Hw) as Hp. unfold position_ok in Hp. rewrite Ew in Hp.
  destruct Hp as (Ea & Hnd & HF). unfold prepare_hydrate. destruct (if ok then _ else _) as [chosen|] eqn:E.
  - destruct ok; [|done]. apply select_items_sublist in E as [Hsub Hc]. apply set_worker_ok; [done|]. cbn.
    split_and!; [done| |].
    + eapply sublist_NoDup; [exact Hnd|]. by apply fmap_sublist.
    + apply Forall_forall. intros c Hin. rewrite Forall_forall in HF. rewrite Forall_forall in Hc. specialize (Hc c Hin).
      assert (c.1 ∈ rows) as (H1 & H2 & H3)%HF by (eapply elem_of_sublist; [|done]; by apply list_elem_of_fmap_2).
      split; [done|]. destruct c as [kr x]. cbn in Hc, H2, H3 |- *. subst x a.
      apply (read_awaits w); [apply Hw|exact H3].
  - apply to_idle. unfold postpone. refine (rows_map_ok _ w _ Hw). intros row. unfold same_row.
    by destruct (List.find _ rows) as [[? ?]|].
Qed.

Lemma prepare_insert_ok index a chosen token w : world_ok w → worker w = inserting index a chosen →
  world_ok (prepare_insert index a chosen token w).
Proof.
  intros Hw Ew. pose proof (wk_position _ Hw) as Hp. unfold position_ok in Hp. rewrite Ew in Hp.
  destruct Hp as (Ea & Hnd & HF). pose proof Hw as [[H1 H2 H3 H4 H5] Hn _ _].
  assert (∀ uid q, requests w !! uid = Some q → rq_owner q ≠ next_receipt w) as Hown.
  { intros uid q Hq. specialize (H5 uid q Hq). lia. }
  assert (Forall (λ c, c.1.1.1 = index) chosen) as Hidx by (eapply Forall_impl; [done|]; naive_solver).
  split; [split; try done| | |].
  - intros uid q Hq. cbn. specialize (H5 uid q Hq). lia.
  - done.
  - intros r [= <-]. split; cbn; try done.
    + lia.
    + intros uid q Hq Ho. by destruct (Hn Ea uid q Hq).
    + intros uid uid' q q' Hq _ [Ho _]. by destruct (Hown uid q Hq).
    + intros _ uid q Hq [Ho _]. by destruct (Hown uid q Hq).
    + intros uid q Hq Ho. by destruct (Hown uid q Hq).
    + rewrite <-list_fmap_compose. clear -Hnd Hidx.
      induction chosen as [|[[[i e] row] c] chosen IH]; cbn in *; [constructor|].
      apply NoDup_cons in Hnd as [Hx Hnd]. apply Forall_cons in Hidx as [Hi Hidx]. cbn in Hi.
      constructor; [|by apply IH]. intros ([[[i' e'] row'] c'] & Ee & Hin)%list_elem_of_fmap. cbn in Ee.
      apply Hx. rewrite Forall_forall in Hidx. pose proof (Hidx _ Hin) as Hi'. cbn in Hi'. subst.
      apply list_elem_of_fmap. exists ((index, e'), row'). split; [done|]. apply list_elem_of_fmap.
      by exists (((index, e'), row'), c').
    + apply Forall2_fmap. apply Forall_Forall2_diag. eapply Forall_impl; [exact HF|].
      intros [[[i e] row] c] [Hi Hc]. cbn in *. by subst.
  - cbn. eexists. split; [done|]. split; [|done]. by unfold copy_of.
Qed.

(** ** The positions of a slice *)

Lemma claim_ok token w : world_ok w → world_ok (_claim token w).
Proof.
  intros Hw. unfold _claim. destruct (active w) as [r|] eqn:Ea; [|by apply set_worker_ok].
  case_test; [by apply to_idle|]. apply set_active_ok; [done| |].
  - eapply receipt_same_progress; [|by apply (wk_receipt _ Hw)]. done.
  - cbn. by eexists.
Qed.

Lemma clear_marker_some id m y : clear_marker id m = Some y → m = Some y.
Proof. unfold clear_marker. destruct m; [case_test|]; congruence. Qed.

(** Clearing a marker. *)
Lemma clear_ok id p w : world_ok w → position_ok (set_worker p (set_marker (clear_marker id (marker w)) w)) →
  world_ok (set_worker p (set_marker (clear_marker id (marker w)) w)).
Proof.
  intros Hw Hp. apply set_marker_ok; [done| |done]. intros r uid _ _ E. left. rewrite E.
  by apply clear_marker_some in E.
Qed.

Lemma claimed_ok r token o w : world_ok w → worker w = claimed r token →
  world_ok (work document_bytes entity_bytes o w).
Proof.
  intros Hw Ew. unfold work. rewrite Ew. pose proof (wk_position _ Hw) as Hp. unfold position_ok in Hp.
  rewrite Ew in Hp. destruct Hp as (x & Ea & Hc & _). pose proof (wk_receipt _ Hw x Ea) as Hx.
  assert (rc_id x = rc_id r ∧ rc_state x = rc_state r ∧ rc_phase x = rc_phase r) as (Ei & Es & Eph)
    by (by destruct Hc as (? & ? & ? & ? & ? & ? & ? & ?)).
  assert (rc_state r ≠ prepared → holds_copy w r token (λ x, rc_state x ≠ prepared)) as Hnp.
  { intros Hs. exists x. by rewrite Es. }
  destruct (rc_state r) eqn:Er.
  1: { assert (∀ m, position_ok (set_worker (advancing r token) (set_marker m w))) as Hpos
         by (intros m; by exists x).
       destruct (marker w) as [m|] eqn:Em; [case_test; [|by apply to_idle]|].
       - rewrite <-Em. by apply clear_ok.
       - apply set_worker_ok; [done|]. by exists x. }
  1-2: destruct (marker w) as [[owner [uid|]]|] eqn:Em;
    [case_test; [|by eapply ambiguous_ok; [done|by apply Hnp|]]|by eapply ambiguous_ok; [done|by apply Hnp|]..];
    apply Z.eqb_eq in Heqb; subst owner; rewrite <-Ei in Em;
    destruct (rk_marker _ _ Hx ltac:(by rewrite Es) uid Em) as (q & Hq & Ho);
    (eapply (save_own r token (λ y, y = x)); [done|by exists x|]);
    intros y _ _ -> _; (split; [eapply receipt_new_state; try done; cbn; [by eauto|by rewrite Es]|]);
    (eexists; split; [done|]); unfold copy_of in *; naive_solver.
  1: { apply set_worker_ok; [done|]. by exists x. }
  all: destruct (rk_live _ _ Hx) as [? ?]; congruence.
Qed.

Lemma mark_flight_ok o r token w : world_ok w → holds_copy w r token (λ x, rc_state x = prepared) →
  world_ok (mark_flight o r token w).
Proof.
  intros Hw Hh. unfold mark_flight. case_test.
  { eapply defer_ok; [done..| |done]. intros x _ Hx Hok. by apply (rk_prepared _ _ Hok). }
  destruct Hh as (x & Ea & Hc & Hs). destruct (create_marker _ _) as [m|] eqn:Em; [|by apply to_idle].
  apply set_marker_ok; [done| |by exists x]. intros y uid Ey Hy E. rewrite Ea in Ey. by injection Ey as <-.
Qed.

Lemma mark_flight_worker o r token p w : mark_flight o r token (set_worker p w) = mark_flight o r token w.
Proof.
  unfold mark_flight, _defer_prepared_for_budget, save_then, _save. cbn.
  case_test; [by destruct (active w); [case_test|]|by destruct (create_marker _ _)].
Qed.

Lemma advancing_ok r token o w : world_ok w → worker w = advancing r token →
  world_ok (work document_bytes entity_bytes o w).
Proof.
  intros Hw Ew. unfold work. rewrite Ew. pose proof (wk_position _ Hw) as Hp. unfold position_ok in Hp.
  rewrite Ew in Hp. case_test; [|by apply reschedule_ok].
  unfold advance_prepared. case_test; [by apply reschedule_ok|]. case_test.
  { eapply defer_ok; [done..| |done]. intros x _ Hx Hok. by apply (rk_prepared _ _ Hok). }
  destruct (rc_phase r) eqn:Eph; [|by apply mark_flight_ok].
  destruct (o_settings o) as [[|]|]; [|by apply mark_flight_ok|by apply to_idle].
  destruct Hp as (x & Ea & Hc & Hs). unfold _save. rewrite Ea. case_test; [|by apply to_idle].
  pose proof (wk_receipt _ Hw x Ea) as Hx. destruct (copy_request _ _ _ Hc) as (_ & Hph & _).
  rewrite Eph in Hph. unfold copy_of in Hc. rewrite <-(mark_flight_worker _ _ _ idle). apply mark_flight_ok.
  - apply set_active_ok; [done| |done]. eapply receipt_to_documents; try done.
    intros uid q. by apply (prepared_quiet w x).
  - eexists. split; [done|]. unfold copy_of. cbn. naive_solver.
Qed.

Lemma submitting_ok r token o w : world_ok w → worker w = recorded r token →
  world_ok (work document_bytes entity_bytes o w).
Proof.
  intros Hw Ew. unfold work. rewrite Ew. pose proof (wk_position _ Hw) as Hp. unfold position_ok in Hp.
  rewrite Ew in Hp. eapply save_own; [done..|]. intros x Ea Hc [Hs Hm] Hx. split.
  - by eapply receipt_new_state.
  - eexists. split; [done|]. split; [unfold copy_of in *; naive_solver|]. split; [done|]. cbn.
    apply (rk_prepared _ _ Hx Hs).
Qed.

Lemma sending_ok r token o w : world_ok w → worker w = sending r token →
  world_ok (work document_bytes entity_bytes o w).
Proof.
  intros Hw Ew. unfold work. rewrite Ew. pose proof (wk_position _ Hw) as Hp. unfold position_ok in Hp.
  rewrite Ew in Hp. case_test. { eapply defer_ok; [done..| |done]. by intros x _ [_ Hno] _. }
  destruct Hp as (x & Ea & Hc & Hs & Hno). pose proof (wk_receipt _ Hw x Ea) as Hx.
  set (q0 := mkRequest (rc_id r) (write_of r) in_flight).
  assert (own_request x q0) as Hq0 by (destruct (copy_request _ _ _ Hc) as (? & _ & _ & ?); by split).
  assert (∀ uid q, (requests w ++ [q0]) !! uid = Some q →
    requests w !! uid = Some q ∨ (uid = length (requests w) ∧ q = q0)) as Hreq.
  { intros uid q [?|[? E]]%lookup_app_Some; [by left|right].
    apply list_lookup_singleton_Some in E as [? <-]. split; [lia|done]. }
  pose proof Hw as [[T1 T2 T3 T4 T5] _ _ _]. pose proof Hx as [H1 H2 H3 H4 H5 H6 H7 H8 H9 H10 H11].
  split; [split; try done| | |].
  - intros uid q [Hq|[_ ->]]%Hreq; [by eapply T5|]. destruct Hq0 as [-> _]. done.
  - cbn. by rewrite Ea.
  - intros y Ey. cbn in Ey. rewrite Ea in Ey. injection Ey as <-. split; try done.
    + intros uid q [Hq|[_ ->]]%Hreq; [by eapply H3|done].
    + intros u1 u2 q1 q2 [E1|[-> ->]]%Hreq [E2|[-> ->]]%Hreq O1 O2; try done.
      * by eapply H4.
      * by destruct (Hno u1 q1 E1).
      * by destruct (Hno u2 q2 E2).
    + by rewrite Hs.
    + intros uid q [Hq|[_ ->]]%Hreq; [by eapply H6|]. destruct Hq0 as [_ ->]. unfold write_of.
      destruct (rc_phase x); [by left|by right].
    + by rewrite Hs.
    + intros Hp uid Hm. destruct (H8 Hp uid Hm) as (q & Hq & Ho). exists q. split; [|done].
      by apply lookup_app_l_Some.
    + intros uid q [Hq|[_ ->]]%Hreq Ho; [by destruct (Hno uid q Hq)|done].
  - exists x. split; [done|]. split; [done|]. split; [done|]. exists q0. split; [|done]. cbn.
    by rewrite lookup_app_r, Nat.sub_diag by done.
Qed.

Lemma waiting_ok r token uid o w : world_ok w → worker w = waiting r token uid →
  world_ok (work document_bytes entity_bytes o w).
Proof.
  intros Hw Ew. unfold work. rewrite Ew. pose proof (wk_position _ Hw) as Hp. unfold position_ok in Hp.
  rewrite Ew in Hp. pose proof Hp as (x & Ea & Hc & Hs & q & Hq & Ho).
  assert (world_ok (save_then (rc_id r) token
    (λ x, release (with_progress ambiguous (rc_phase x) (rc_task x) x)) idle w)) as Hamb.
  { eapply ambiguous_ok; [done|exact Hp|]. by intros y [-> _]. }
  assert (world_ok (set_worker (accepted r token uid) w)) as Hacc by by apply set_worker_ok.
  rewrite Hq. cbn. destruct (o_response o) as [[|]|]; destruct (rq_status q) eqn:Es; try done.
  eapply (finalize_ok r token (λ y, y = x)); [done|by exists x| |done].
  intros y _ ->. eapply over_quiet; [by apply (wk_receipt _ Hw)|done..|]. unfold outstanding. rewrite Es. naive_solver.
Qed.

Lemma record_ok r token uid p P w : world_ok w → holds_copy w r token P →
  (∀ x n, P x → uid = Some n → ∃ q, requests w !! n = Some q ∧ own_request x q) →
  (∀ x, active w = Some x → copy_of x r token → P x →
     position_ok (set_worker p (set_marker (Some (mkMarker (rc_id r) uid)) w))) →
  world_ok (match record_task (rc_id r) uid (marker w) with
            | inl m => set_worker p (set_marker m w)
            | inr _ => set_worker idle w
            end).
Proof.
  intros Hw (x & Ea & Hc & HP) Hu Hp. unfold record_task.
  destruct (marker w); [case_test|]; try by apply to_idle.
  apply set_marker_ok; [done| |by eapply Hp].
  intros y n Ey Hy [= E1 E2]. rewrite Ea in Ey. injection Ey as <-. right. by apply Hu.
Qed.

Lemma known_ok r token uid o w : world_ok w → worker w = known r token uid →
  world_ok (work document_bytes entity_bytes o w).
Proof.
  intros Hw Ew. unfold work. rewrite Ew. pose proof (wk_position _ Hw) as Hp. unfold position_ok in Hp.
  rewrite Ew in Hp. eapply save_own; [done..|]. intros x Ea Hc (Hs & q & Hq & Ho) Hx. split; [|done].
  eapply receipt_new_state; try done; cbn.
  - intros _. by exists uid, q.
  - by rewrite Hs.
Qed.

Lemma polling_ok r token o w : world_ok w → worker w = polling r token →
  world_ok (work document_bytes entity_bytes o w).
Proof.
  intros Hw Ew. unfold work. rewrite Ew. pose proof (wk_position _ Hw) as Hp. unfold position_ok in Hp.
  rewrite Ew in Hp. destruct Hp as (x & Ea & Hc & Hs). pose proof (wk_receipt _ Hw x Ea) as Hx.
  destruct (rk_pending _ _ Hx Hs) as (uid & q & Ht & Hq & Ho).
  destruct (copy_request _ _ _ Hc) as (_ & Hph & Htr & _). rewrite Ht in Htr. symmetry in Htr.
  assert (rq_status q = succeeded ∨ rq_status q = unsuccessful →
    ∀ uid' q', requests w !! uid' = Some q' → ¬ outstanding q') as Hquiet.
  { intros Hover. eapply over_quiet; [done..|]. unfold outstanding. intros [?|?]; destruct Hover; congruence. }
  assert (holds_copy w r token (λ y, y = x)) as Hh by by exists x.
  unfold poll. case_test; [by apply reschedule_ok|]. rewrite Htr. cbn. rewrite Hq. cbn.
  destruct (rq_status q) eqn:Est; try by apply reschedule_ok.
  - destruct (rc_phase r) eqn:Er.
    + eapply save_own; [done..|]. intros y _ _ -> _. split; [|done].
      eapply receipt_to_documents; try done. by apply Hquiet; left.
    + eapply finalize_ok; [done..| |].
      * intros y _ ->. by apply Hquiet; left.
      * intros y _ -> _. by exists uid, q.
  - eapply finalize_ok; [done..| |done]. intros y _ ->. by apply Hquiet; right.
Qed.

(** Whatever the worker does next. *)
Lemma work_ok o w : world_ok w → world_ok (work document_bytes entity_bytes o w).
Proof.
  intros Hw. pose proof (wk_position _ Hw) as Hp. unfold position_ok in Hp.
  destruct (worker w) as [| | | | | | | |r token|r token|r token|r token uid|r token uid| |r token|] eqn:Ew;
    try (by eapply claimed_ok); try (by eapply advancing_ok); try (by eapply submitting_ok);
    try (by eapply sending_ok); try (by eapply waiting_ok); try (by eapply known_ok);
    try (by eapply polling_ok); unfold work; rewrite Ew.
  - by apply set_worker_ok.
  - by apply claim_ok.
  - destruct (marker w) eqn:Em; [case_test; [|by apply to_idle]|by apply set_worker_ok].
    rewrite <-Em. by apply clear_ok.
  - case_test; [by apply prepare_read_ok|by apply to_idle].
  - by apply prepare_hydrate_ok.
  - by apply prepare_insert_ok.
  - eapply record_ok; [done|exact Hp|done|]. intros x Ea Hc Hs. exists x.
    split; [done|]. split; [done|]. split; [done|]. intros uid E. cbn in E. congruence.
  - eapply record_ok; [done|exact Hp| |].
    + intros x n (_ & ?) [= <-]. done.
    + intros x Ea Hc HP. by exists x.
  - by apply clear_ok.
Qed.
End Worker.
