(* ===== verification/SearchDeliverySpec.v ===== *)
(** * What search delivery promises

    An abstract mirror, which the transition system of [SearchDelivery]
    refines; at most one request in the engine; the size of a receipt; the end
    of every slice. *)

From stdpp Require Import base gmap strings list numbers sets.
From S2P Require Import Prelude Keyset SearchDelivery SearchDeliveryFacts.

Open Scope Z_scope.

(** ** The abstract mirror *)

(** A source, its copy, and the keys the copy may be behind on. *)
Record Mirror (D : Type) := mkMirror {
  source : key → option D;
  copy : key → option D;
  dirty : key → Prop }.
Arguments mkMirror {D}.
Arguments source {D} _ _.
Arguments copy {D} _ _.
Arguments dirty {D} _ _.

(** The source changes and the keys become dirty; the copy changes at dirty
    keys; keys are cleaned once the copy is right. *)
Inductive mirror_step {D} (m m' : Mirror D) : Prop :=
| mirror_change (changed : list key) :
    (∀ k, k ∉ changed → source m' k = source m k ∧ (dirty m' k ↔ dirty m k)) →
    (∀ k, k ∈ changed → dirty m' k) →
    (∀ k, copy m' k = copy m k) → mirror_step m m'
| mirror_write :
    (∀ k, source m' k = source m k) → (∀ k, dirty m' k ↔ dirty m k) →
    (∀ k, ¬ dirty m k → copy m' k = copy m k) → mirror_step m m'
| mirror_clean :
    (∀ k, source m' k = source m k) → (∀ k, copy m' k = copy m k) → (∀ k, dirty m' k → dirty m k) →
    (∀ k, ¬ dirty m' k → copy m' k = source m' k) → mirror_step m m'.

Section Spec.
Context {D : Type} (document_bytes : D → Z) (entity_bytes : string → Z).
Implicit Types (w : World D) (r : Receipt D) (q : Request D) (k : key) (row : Row).

Abbreviation work := (work document_bytes entity_bytes).
Abbreviation step := (step document_bytes entity_bytes).
Abbreviation reachable := (reachable document_bytes entity_bytes).

(** The mirror a world stands for. *)
Definition view w : Mirror D :=
  mkMirror (λ k, domain w !! k) (λ k, documents w !! k) (λ k, ¬ settled w k).

Lemma settled_dec w k : settled w k ∨ ¬ settled w k.
Proof.
  unfold settled. destruct (outbox w !! k) as [row|]; [|by left].
  destruct (row_completed_at row); [by left|right; naive_solver].
Qed.

(** ** The invariant holds *)

Lemma reconciled_own uid w r : receipt_ok w r → identified uid w r →
  ∃ q, requests w !! uid = Some q ∧ own_request r q.
Proof.
  intros Hr (q & Hq & Ho & Hk & _). exists q. split; [done|]. split; [done|].
  unfold write_of in *. destruct (rk_owned _ _ Hr uid q Hq Ho) as [Ew|[Hph Ew]]; rewrite Ew in *.
  - by destruct (rc_phase r).
  - by rewrite Hph in *.
Qed.

Lemma reconcile_marker_ok uid r m w : world_ok w → reconcilable uid w r → identified uid w r →
  record_task (rc_id r) (Some uid) (marker w) = inl m → world_ok (set_marker m w).
Proof.
  intros Hw (Hi & Ea & Hs & _) Hid Hm. pose proof (wk_receipt _ Hw r Ea) as Hr.
  replace (set_marker m w) with (set_worker idle (set_marker m w)) by (destruct w; cbn in *; by subst).
  apply set_marker_ok; [done| |done]. intros x n Ex Hx E. rewrite Ea in Ex. injection Ex as <-. right.
  unfold record_task in Hm. destruct (marker w); [|done]. destruct (_ =? _); [|done].
  injection Hm as <-. injection E as ->. by apply reconciled_own.
Qed.

Lemma reconcile_ok uid r m w : world_ok w → reconcilable uid w r → identified uid w r →
  record_task (rc_id r) (Some uid) (marker w) = inl m →
  world_ok (set_active (Some (with_schedule (clock w) None (rc_polls r)
              (with_progress pending (rc_phase r) (Some uid) r))) (set_marker m w)).
Proof.
  intros Hw Hrec Hid Hm. pose proof (reconcile_marker_ok uid r m w Hw Hrec Hid Hm) as Hw'.
  destruct Hrec as (Hi & Ea & Hs & _).
  replace (set_active _ _) with (set_worker idle (set_active (Some (with_schedule (clock w) None (rc_polls r)
    (with_progress pending (rc_phase r) (Some uid) r))) (set_marker m w))) by (destruct w; cbn in *; by subst).
  apply set_active_ok; [done| |done].
  pose proof (wk_receipt _ Hw' r Ea) as Hr. eapply receipt_new_state; try done; cbn.
  - intros _. destruct (reconciled_own uid _ r (wk_receipt _ Hw r Ea) Hid) as (q & ? & ?). by exists uid, q.
  - intros _ Hp. destruct Hs; congruence.
Qed.

Lemma cooldown_ok r until w : world_ok w → active w = Some r →
  world_ok (set_active (Some (mkReceipt (rc_id r) (rc_index r) (rc_action r) (rc_versions r)
              (rc_payload r) (rc_state r) (rc_phase r) (rc_task r) (Some until) (rc_available_at r)
              (rc_lease_until r) (rc_token r) (rc_polls r))) w).
Proof.
  intros Hw Ea. pose proof Hw as [[? ? ? ? ?] Hn Hr Hp]. split; [by split|done| |].
  - intros x [= <-]. assert (receipt_ok w r) as Hok by by apply Hr.
    eapply (receipt_same_progress _ r) in Hok; [|done]. destruct Hok. by split.
  - unfold position_ok in *. cbn. unfold holds_copy in *. cbn. rewrite Ea in Hp.
    destruct (worker w); try done; try (by destruct Hp as (? & _ & _));
      destruct Hp as (x & [= <-] & Hc & HP); by eexists.
Qed.

Lemma step_ok w w' : world_ok w → step w w' → world_ok w'.
Proof.
  intros Hw. destruct 1 as [o w|w|d w|us ds c w|h w|r u w|uid q w Hq Hs|uid q w Hq Hs|uid q w Hq Hs|uid q w Hq Hs|uid r m w|uid r m w].
  - by apply work_ok.
  - by apply to_idle.
  - by apply tick_ok.
  - by apply request_ok.
  - by apply prune_events_ok.
  - by apply cooldown_ok.
  - apply (engine_ok uid q enqueued w); try done. by left.
  - apply (engine_ok uid q never_arrived w); try done. by left.
  - apply (engine_ok uid q succeeded w); try done. by right.
  - apply (engine_ok uid q unsuccessful w); try done. by right.
  - by eapply reconcile_marker_ok.
  - by eapply reconcile_ok.
Qed.

Lemma reachable_ok w : reachable w → world_ok w.
Proof. induction 1; [apply initial_ok|by eapply step_ok]. Qed.

(** ** What the worker leaves alone *)

(** The same source and copy, and nothing settled is reopened. *)
Definition only_settles w w' : Prop :=
  domain w' = domain w ∧ documents w' = documents w ∧ ∀ k, settled w k → settled w' k.

Lemma only_settles_worker p w w' : only_settles w w' → only_settles w (set_worker p w').
Proof. done. Qed.

Lemma save_only_settles id token f p w : only_settles w (save_then id token f p w).
Proof. unfold save_then, _save. by destruct (active w); [case_test|]. Qed.

Lemma rows_only_settle (f : Row → Row) o w : o = f <$> outbox w →
  (∀ row, row_completed_at row ≠ None → row_completed_at (f row) ≠ None) → only_settles w (set_outbox o w).
Proof.
  intros -> Hf. split_and!; try done. intros k. unfold settled. cbn. rewrite lookup_fmap.
  destruct (outbox w !! k) as [row|]; [|done]. apply Hf.
Qed.

Lemma finalize_only_settles id token error w : only_settles w (_finalize id token error w).
Proof.
  unfold _finalize. destruct (active w) as [r|]; [|done]. case_test; [|done].
  refine (rows_only_settle _ (update_versions (if error then retry_row (clock w) else complete_row (clock w))
    (rc_versions r) (outbox w)) w eq_refl _).
  clear Heqb. intros row Hc. cbn. case_bool_decide; [destruct error; [exact Hc|cbn; discriminate]|done].
Qed.

Lemma hydrate_only_settles index a rows ok w :
  only_settles w (prepare_hydrate document_bytes entity_bytes index a rows ok w).
Proof.
  unfold prepare_hydrate. destruct (if ok then _ else _); [done|]. apply only_settles_worker.
  eapply rows_only_settle; [done|]. intros row Hc. cbn. by destruct (List.find _ rows) as [[? ?]|].
Qed.

Lemma mark_only_settles o r token w : only_settles w (mark_flight o r token w).
Proof. unfold mark_flight. case_test; [apply save_only_settles|by destruct (create_marker _ _)]. Qed.

Lemma work_only_settles o w : only_settles w (work o w).
Proof.
  unfold SearchDelivery.work. destruct (worker w) eqn:Ew; try done.
  - unfold _claim. by destruct (active w); [case_test|].
  - destruct (rc_state r); try done.
    + by destruct (marker w); [case_test|].
    + destruct (marker w) as [[? [?|]]|]; [case_test|..]; apply save_only_settles.
    + destruct (marker w) as [[? [?|]]|]; [case_test|..]; apply save_only_settles.
  - by destruct (marker w); [case_test|].
  - case_test; [|done]. unfold prepare_read. destruct (active w); [done|].
    by destruct (order_by _ _) as [|[[? ?] ?] ?].
  - apply hydrate_only_settles.
  - case_test; [|apply save_only_settles]. unfold advance_prepared.
    case_test; [apply save_only_settles|]. case_test; [apply save_only_settles|].
    destruct (rc_phase r); [destruct (o_settings o) as [[|]|]|]; try apply mark_only_settles; [|done].
    unfold _save. destruct (active w); [|done]. case_test; [|done].
    exact (mark_only_settles o _ token (set_active _ w)).
  - by destruct (record_task _ _ _).
  - apply save_only_settles.
  - case_test; [apply save_only_settles|done].
  - destruct (o_response o) as [[|]|], (rq_status <$> requests w !! uid) as [[]|];
      try apply save_only_settles; try done; apply finalize_only_settles.
  - by destruct (record_task _ _ _).
  - apply save_only_settles.
  - unfold poll. case_test; [apply save_only_settles|].
    destruct (_ ≫= _) as [[]|]; try apply save_only_settles; [|apply finalize_only_settles].
    destruct (rc_phase r); [apply save_only_settles|apply finalize_only_settles].
Qed.

(** Settling is cleaning, because the invariant holds afterwards. *)
Lemma settling_cleans w w' : world_ok w' → only_settles w w' → mirror_step (view w) (view w').
Proof.
  intros Hw' (E1 & E2 & Hs). apply mirror_clean; cbn.
  - intros k. by rewrite E1.
  - intros k. by rewrite E2.
  - intros k Hk Hk'. by apply Hk, Hs.
  - intros k Hk. destruct (settled_dec w' k) as [Hk'|Hk']; [|by destruct Hk].
    by apply (ok_current _ (wk_tables _ Hw')).
Qed.

Lemma engine_writes uid q s w : world_ok w → requests w !! uid = Some q → outstanding q →
  mirror_step (view w) (view (engine_step uid q s w)).
Proof.
  intros Hw Hq Ho. apply mirror_write; try done. cbn. intros k Hk.
  destruct (settled_dec w k) as [Hk'|Hk']; [|by destruct Hk]. destruct s; try done. cbn.
  destruct (active w) as [r|] eqn:Ea; [|by destruct (wk_none _ Hw Ea uid q)].
  pose proof (wk_receipt _ Hw r Ea) as Hr. destruct (rk_outstanding _ _ Hr uid q Hq Ho) as [_ ->].
  by apply write_unsettled.
Qed.

(** What a change of the given keys leaves alone, and what it marks. *)
Definition changes (ks : list key) w w' : Prop :=
  (∀ k, k ∉ ks → domain w' !! k = domain w !! k ∧ outbox w' !! k = outbox w !! k) ∧
  (∀ k, k ∈ ks → ¬ settled w' k) ∧ documents w' = documents w.

Lemma mutate_changes k a c w : changes [k] w (mutate k a c w).
Proof.
  destruct (mutate_row k a c w) as (row & E & _ & Ec & _). split_and!; [|intros k' ->%list_elem_of_singleton|done].
  - intros k' Hk%not_elem_of_cons. destruct Hk as [Hk _]. rewrite E, lookup_insert_ne by done.
    split; [|done]. cbn. by rewrite lookup_partial_alter_ne.
  - unfold settled. rewrite E, lookup_insert_eq. naive_solver.
Qed.

Lemma changes_trans ks ks' w w' w'' : changes ks w w' → changes ks' w' w'' → changes (ks ++ ks') w w''.
Proof.
  intros (H1 & H2 & H3) (H1' & H2' & H3'). split_and!; [| |congruence].
  - intros k [Hk Hk']%not_elem_of_app. destruct (H1 k Hk), (H1' k Hk'). split; congruence.
  - intros k Hk. destruct (decide (k ∈ ks')) as [Hin|Hin]; [by apply H2'|].
    apply elem_of_app in Hk as [Hk|]; [|done]. specialize (H2 k Hk). destruct (H1' k Hin) as [_ E].
    unfold settled in *. by rewrite E.
Qed.

Lemma mutates_change a (content : key → option D) ks w :
  changes ks w (foldl (λ w k, mutate k a (content k) w) w ks).
Proof.
  revert w. induction ks as [|k ks IH]; intros w.
  - split_and!; [done|by intros k ?%not_elem_of_nil|done].
  - apply (changes_trans [k] ks _ (mutate k a (content k) w)); [apply mutate_changes|apply IH].
Qed.

Lemma request_changes us ds content w : mirror_step (view w) (view (request_search_projection us ds content w)).
Proof.
  assert (changes (fromkeys us ++ fromkeys ds) w (request_search_projection us ds content w)) as (H1 & H2 & H3).
  { eapply changes_trans; [apply mutates_change|]. apply (mutates_change delete (λ _, None)). }
  apply (mirror_change _ _ (fromkeys us ++ fromkeys ds)); cbn.
  - intros k Hk. destruct (H1 k Hk) as [-> E]. unfold settled. by rewrite E.
  - done.
  - intros k. by rewrite H3.
Qed.

(** ** The claims *)

(** C4: Refinement. The outbox, the worker with its crashes, the receipts, the
    marker and the engine together implement the mirror: whatever happens next
    in a reachable world, the source changes and marks its key, or the engine
    writes documents of marked keys, or keys are unmarked whose document equals
    the source. *)
Theorem delivery_refines_mirror w w' : reachable w → step w w' → mirror_step (view w) (view w').
Proof.
  intros Hw%reachable_ok Hs. pose proof (step_ok w w' Hw Hs) as Hw'.
  destruct Hs as [o w|w|d w|us ds c w|h w|r u w|uid q w Hq Hs|uid q w Hq Hs|uid q w Hq Hs|uid q w Hq Hs|uid r m w|uid r m w];
    try (by apply settling_cleans).
  - apply settling_cleans; [done|]. apply work_only_settles.
  - apply request_changes.
  - apply settling_cleans; [done|]. split_and!; try done. intros k. unfold settled. cbn.
    destruct (outbox w !! k) as [row|] eqn:Ek; intros Hk; destruct (filter _ _ !! k) as [row'|] eqn:E; try done.
    + apply map_lookup_filter_Some in E as [E _]. congruence.
    + apply map_lookup_filter_Some in E as [E _]. congruence.
  - apply (engine_writes uid q succeeded w); try done. by right.
Qed.

(** C5: In every reachable world, after any interleaving of domain changes,
    crashes, lost responses and retries, an entity with no open outbox row has
    exactly its current document in the search engine. *)
Theorem settled_documents_current w k : reachable w → settled w k → documents w !! k = domain w !! k.
Proof. intros Hw%reachable_ok. apply Hw. Qed.

(** C6: At most one request is in the engine or on its way there, and it is the
    current write of the one active receipt. *)
Theorem single_flight w uid q : reachable w → requests w !! uid = Some q → outstanding q →
  (∃ r, active w = Some r ∧ rq_owner q = rc_id r ∧ rq_write q = write_of r) ∧
  ∀ uid' q', requests w !! uid' = Some q' → outstanding q' → uid' = uid.
Proof.
  intros Hw%reachable_ok Hq Ho. destruct (active w) as [r|] eqn:Ea; [|by destruct (wk_none _ Hw Ea uid q)].
  pose proof (wk_receipt _ Hw r Ea) as Hr. split; [exists r; split; [done|by eapply rk_outstanding]|].
  intros uid' q' Hq' Ho'. eapply (rk_single _ _ Hr); try done; by eapply rk_outstanding.
Qed.
End Spec.
