(* ===== verification/SearchDeliverySlices.v ===== *)
(** * Receipts fit a request, and slices end

    The byte limit of a receipt in every reachable world, and a bound on the
    durable actions of one slice of the worker. *)

From stdpp Require Import base gmap strings list numbers sets.
From S2P Require Import Prelude Keyset SearchDelivery.

Open Scope Z_scope.

Section Slices.
Context {D : Type} (document_bytes : D → Z) (entity_bytes : string → Z).
Implicit Types (w : World D) (r : Receipt D).

Abbreviation work := (work document_bytes entity_bytes).
Abbreviation step := (step document_bytes entity_bytes).
Abbreviation reachable := (reachable document_bytes entity_bytes).

(** ** The size of a payload *)

(** The JSON of a list: brackets, the items, a comma between two. *)
Fixpoint joined_bytes (some : bool) (items : list (string * option D)) : Z :=
  match items with
  | [] => 0
  | (e, c) :: items =>
      match c with Some d => document_bytes d | None => entity_bytes e end + (if some then 1 else 0) +
      joined_bytes true items
  end.
Definition payload_bytes (items : list (string * option D)) : Z := 2 + joined_bytes false items.

(** Something to send, of one kind, within the limit. *)
Definition fits (a : action) (items : list (string * option D)) : Prop :=
  items ≠ [] ∧ payload_bytes items <= MAX_BYTES ∧ Forall (λ e, is_Some e.2 ↔ a = upsert) items.

Abbreviation payload_of chosen := ((λ c : key * Row * option D, (c.1.1.2, c.2)) <$> chosen).

Lemma select_items_size dom a u size some rows chosen :
  size <= MAX_BYTES → select_items document_bytes entity_bytes dom a u size some rows = Some chosen →
  size + joined_bytes some (payload_of chosen) <= MAX_BYTES.
Proof.
  revert size some chosen. induction rows as [|kr rows IH]; cbn; intros size some chosen Hs.
  { intros [= <-]. cbn. lia. }
  case_test; [by apply IH|]. clear Heqb. set (z := _ + (if some then 1 else 0)).
  destruct (_ <? _). { destruct some; intros [= <-]; cbn; lia. }
  destruct (MAX_BYTES <? _) eqn:E; [intros [= <-]; cbn; lia|]. apply Z.ltb_ge in E.
  intros (l & Hl%IH & ->)%fmap_Some; [|done]. cbn. unfold z, item_bytes in *. lia.
Qed.

Lemma select_items_kind dom a u size some rows chosen :
  select_items document_bytes entity_bytes dom a u size some rows = Some chosen →
  Forall (λ e, is_Some e.2 ↔ u = true) (payload_of chosen).
Proof.
  revert size some chosen. induction rows as [|kr rows IH]; cbn; intros size some chosen.
  { intros [= <-]. constructor. }
  destruct (negb _) eqn:E; [by apply IH|]. apply negb_false_iff, eqb_prop in E.
  destruct (_ <? _). { destruct some; intros [= <-]; constructor. }
  destruct (MAX_BYTES <? _); [intros [= <-]; constructor|].
  intros (l & Hl%IH & ->)%fmap_Some. cbn. constructor; [|done]. cbn. rewrite <-E. by rewrite bool_decide_eq_true.
Qed.

(** The first row decides the kind, so it is chosen or the preparation fails. *)
Lemma select_items_first dom a kr rows chosen :
  select_items document_bytes entity_bytes dom a (bool_decide (is_Some (hydrated dom a kr))) 2 false (kr :: rows) =
    Some chosen → chosen ≠ [].
Proof.
  cbn. rewrite eqb_reflx. cbn. case_test; [done|]. apply Z.ltb_ge in Heqb.
  destruct (MAX_BYTES <? _) eqn:E; [apply Z.ltb_lt in E; lia|]. intros (l & _ & ->)%fmap_Some. done.
Qed.

Lemma selection_fits dom a kr rows chosen :
  let u := bool_decide (is_Some (hydrated dom a kr)) in
  select_items document_bytes entity_bytes dom a u 2 false (kr :: rows) = Some chosen →
  fits (if u then upsert else delete) (payload_of chosen).
Proof.
  intros u E. split_and!.
  - apply select_items_first in E. by destruct chosen.
  - by apply select_items_size in E.
  - eapply Forall_impl; [by eapply select_items_kind|]. intros [e c] ->. by destruct u.
Qed.

(** ** Every receipt fits *)

Definition sized w : Prop :=
  match active w with Some r => fits (rc_action r) (rc_payload r) | None => True end ∧
  match worker w with
  | hydrating _ _ rows => rows ≠ []
  | inserting _ a chosen => fits a (payload_of chosen)
  | _ => True
  end.

Lemma sized_idle p w : sized w → match p with hydrating _ _ _ | inserting _ _ _ => False | _ => True end →
  sized (set_worker p w).
Proof. intros [? _] Hp. split; [done|]. by destruct p. Qed.

Lemma sized_save id token f p w : sized w → (∀ r, rc_action (f r) = rc_action r ∧ rc_payload (f r) = rc_payload r) →
  match p with hydrating _ _ _ | inserting _ _ _ => False | _ => True end →
  sized (save_then id token f p w).
Proof.
  intros Hw Hf Hp. unfold save_then, _save. destruct (active w) as [r|] eqn:Ea; [|by apply sized_idle].
  case_test; [|by apply sized_idle]. destruct Hw as [Hr _]. rewrite Ea in Hr. split; cbn; [|by destruct p].
  by destruct (Hf r) as [-> ->].
Qed.

Lemma sized_finalize id token error w : sized w → sized (_finalize id token error w).
Proof.
  intros Hw. unfold _finalize. destruct (active w); [|by apply sized_idle]. case_test; [done|by apply sized_idle].
Qed.

Lemma sized_mark o r token w : sized w → sized (mark_flight o r token w).
Proof.
  intros Hw. unfold mark_flight. case_test; [by apply sized_save|].
  destruct (create_marker _ _); [|by apply sized_idle]. by destruct Hw.
Qed.

Lemma sized_advance o r token w : sized w → sized (advance_prepared o r token w).
Proof.
  intros Hw. unfold advance_prepared. case_test; [by apply sized_save|]. case_test; [by apply sized_save|].
  destruct (rc_phase r); [|by apply sized_mark].
  destruct (o_settings o) as [[|]|]; [|by apply sized_mark|by apply sized_idle].
  unfold _save. destruct (active w) as [x|] eqn:Ea; [|by apply sized_idle]. case_test; [|by apply sized_idle].
  apply sized_mark. destruct Hw as [Hr Hp]. rewrite Ea in Hr. by split.
Qed.

Lemma sized_work o w : sized w → sized (work o w).
Proof.
  intros Hw. pose proof Hw as [Hr Hp]. unfold SearchDelivery.work. destruct (worker w) eqn:Ew; try (by apply sized_idle).
  - unfold _claim. destruct (active w) as [r|] eqn:Ea; [case_test|]; (by apply sized_idle) || (by split; cbn).
  - destruct (rc_state r); try (by apply sized_idle).
    + destruct (marker w); [case_test|]; (by apply sized_idle) || (by split).
    + destruct (marker w) as [[? [?|]]|]; [case_test|..]; by apply sized_save.
    + destruct (marker w) as [[? [?|]]|]; [case_test|..]; by apply sized_save.
  - destruct (marker w); [case_test|]; (by apply sized_idle) || (by split).
  - case_test; [|by apply sized_idle]. unfold prepare_read. destruct (active w) eqn:Ea; [by apply sized_idle|].
    destruct (order_by _ _) as [|[[i e] head] rest]; [by apply sized_idle|].
    split; [cbn; by rewrite Ea|]. cbn. rewrite !bool_decide_true by done. cbn.
    assert (∃ n, Z.to_nat (Z.max 1 (Z.min 500 (o_limit o))) = S n) as [n ->]; [|done].
    exists (pred (Z.to_nat (Z.max 1 (Z.min 500 (o_limit o))))). lia.
  - unfold prepare_hydrate. destruct rows as [|kr rows]; [done|].
    destruct (if o_hydration_ok o then _ else _) as [chosen|] eqn:E; [|by apply sized_idle].
    destruct (o_hydration_ok o); [|done]. split; [done|]. cbn. by apply selection_fits in E.
  - case_test; [by apply sized_advance|by apply sized_save].
  - destruct (record_task _ _ _); [by split|by apply sized_idle].
  - by apply sized_save.
  - case_test; [by apply sized_save|by split].
  - destruct (o_response o) as [[|]|], (rq_status <$> requests w !! uid) as [[]|];
      (by apply sized_save) || (by apply sized_idle) || by apply sized_finalize.
  - destruct (record_task _ _ _); [by split|by apply sized_idle].
  - by apply sized_save.
  - unfold poll. case_test; [by apply sized_save|].
    destruct (_ ≫= _) as [[]|]; try (by apply sized_save); [|by apply sized_finalize].
    destruct (rc_phase r); [by apply sized_save|by apply sized_finalize].
Qed.

Lemma mutates_delivery a (content : key → option D) ks w :
  let w' := foldl (λ w k, mutate k a (content k) w) w ks in active w' = active w ∧ worker w' = worker w.
Proof. revert w. induction ks as [|k ks IH]; intros w; [done|]. apply (IH (mutate k a (content k) w)). Qed.

Lemma request_delivery us ds content w :
  let w' := request_search_projection us ds content w in active w' = active w ∧ worker w' = worker w.
Proof.
  cbn. unfold request_search_projection.
  destruct (mutates_delivery delete (λ _, None) (fromkeys ds)
    (foldl (λ w k, mutate k upsert (content k) w) w (fromkeys us))) as [-> ->]. apply mutates_delivery.
Qed.

Lemma sized_step w w' : sized w → step w w' → sized w'.
Proof.
  intros Hw. destruct 1; try (by destruct Hw); try (by apply sized_work).
  - unfold sized. by destruct (request_delivery upserts deletes content w) as [-> ->].
  - destruct Hw as [Hr Hp]. split; [|done]. cbn. by rewrite H in Hr.
  - destruct Hw as [Hr Hp]. destruct H as (_ & Ea & _). split; [|done]. cbn. by rewrite Ea in Hr.
Qed.

Lemma reachable_sized w : reachable w → sized w.
Proof. induction 1; [done|by eapply sized_step]. Qed.

(** Every receipt carries at least one document, all of the receipt's kind,
    and its request body is at most 4 MiB, for any sizes of documents. *)
Theorem receipts_fit w r : reachable w → active w = Some r → fits (rc_action r) (rc_payload r).
Proof.
  intros Hw Ea. destruct (reachable_sized w Hw) as [Hr _]. by rewrite Ea in Hr.
Qed.

(** ** Slices end *)

(** The durable actions a slice may still take. *)
Definition actions_left (p : position D) : nat :=
  match p with
  | idle => 0 | clearing _ | known _ _ _ => 1 | accepted _ _ _ | polling _ _ => 2 | waiting _ _ _ => 3
  | sending _ _ => 4 | recorded _ _ => 5 | marked _ _ => 6 | advancing _ _ => 7
  | inserting _ _ _ | claimed _ _ => 8 | hydrating _ _ _ => 9 | admitted_empty => 10 | unclaimed => 11
  | started => 12
  end.

Lemma save_worker id token f p w : worker (save_then id token f p w) = p ∨ worker (save_then id token f p w) = idle.
Proof. unfold save_then. destruct (_save _ _ _ _); [by left|by right]. Qed.

Lemma save_left id token f p w n : (actions_left p < n)%nat → (actions_left (worker (save_then id token f p w)) < n)%nat.
Proof. destruct (save_worker id token f p w) as [-> | ->]; cbn; lia. Qed.

Lemma finalize_left id token error w n : (1 < n)%nat → (actions_left (worker (_finalize id token error w)) < n)%nat.
Proof. intros Hn. unfold _finalize. destruct (active w); [case_test|]; cbn; lia. Qed.

Lemma mark_left o r token w : (actions_left (worker (mark_flight o r token w)) < 7)%nat.
Proof.
  unfold mark_flight. case_test; [apply save_left; cbn; lia|]. destruct (create_marker _ _); cbn; lia.
Qed.

(** Every durable action leaves fewer, until the slice is over. *)
Lemma work_left o w : worker w ≠ idle → (actions_left (worker (work o w)) < actions_left (worker w))%nat.
Proof.
  intros Hw. unfold SearchDelivery.work. destruct (worker w) eqn:Ew; try done; cbn [actions_left].
  - unfold _claim. destruct (active w); [case_test|]; cbn; lia.
  - destruct (rc_state r); try (cbn; lia).
    + destruct (marker w); [case_test|]; cbn; lia.
    + destruct (marker w) as [[? [?|]]|]; [case_test|..]; apply save_left; cbn; lia.
    + destruct (marker w) as [[? [?|]]|]; [case_test|..]; apply save_left; cbn; lia.
  - destruct (marker w); [case_test|]; cbn; lia.
  - case_test; [|cbn; lia]. unfold prepare_read. destruct (active w); [cbn; lia|].
    destruct (order_by _ _) as [|[[? ?] ?] ?]; cbn; lia.
  - unfold prepare_hydrate. destruct (if o_hydration_ok o then _ else _); cbn; lia.
  - cbn. lia.
  - case_test; [|apply save_left; cbn; lia]. unfold advance_prepared.
    case_test; [apply save_left; cbn; lia|]. case_test; [apply save_left; cbn; lia|].
    destruct (rc_phase r); [destruct (o_settings o) as [[|]|]|]; try apply mark_left; [|cbn; lia].
    destruct (_save _ _ _ _); [apply mark_left|cbn; lia].
  - destruct (record_task _ _ _); cbn; lia.
  - apply save_left; cbn; lia.
  - case_test; [apply save_left|]; cbn; lia.
  - destruct (o_response o) as [[|]|], (rq_status <$> requests w !! uid) as [[]|];
      try (apply save_left; cbn; lia); try (cbn; lia); apply finalize_left; lia.
  - destruct (record_task _ _ _); cbn; lia.
  - apply save_left; cbn; lia.
  - unfold poll. case_test; [apply save_left; cbn; lia|].
    destruct (_ ≫= _) as [[]|]; try (apply save_left; cbn; lia); [|apply finalize_left; lia].
    destruct (rc_phase r); [apply save_left; cbn; lia|apply finalize_left; lia].
  - cbn. lia.
Qed.

(** A slice: durable actions, each under its own circumstances and after what
    the surroundings did in between, until the worker is idle. *)
Fixpoint slice (circumstances : list (oracle * (World D → World D))) w : World D :=
  match circumstances with
  | [] => w
  | (o, between) :: rest =>
      match worker w with idle => w | _ => slice rest (work o (between w)) end
  end.

(** A slice of the delivery worker ends: whatever the engine, the clock, the
    admission and concurrent transactions do, it is over after at most the
    twelve durable actions counted by [actions_left]. *)
Theorem slice_ends circumstances w :
  Forall (λ c, ∀ w, worker (c.2 w) = worker w) circumstances →
  (actions_left (worker w) <= length circumstances)%nat → worker (slice circumstances w) = idle.
Proof.
  revert w. induction circumstances as [|[o between] rest IH]; intros w HF Hn.
  - cbn in *. by destruct (worker w); cbn in Hn; try lia.
  - apply Forall_cons in HF as [Hb HF]. pose proof (work_left o (between w)) as Hl. rewrite Hb in Hl.
    assert (worker w ≠ idle → worker (slice rest (work o (between w))) = idle) as Hs.
    { intros Hi. specialize (Hl Hi). cbn in Hn. apply IH; [done|lia]. }
    cbn [slice]. destruct (worker w) eqn:Ew; [done|by apply Hs..].
Qed.
End Slices.
