(* ===== verification/SearchDeliveryExample.v ===== *)
(** * A delivery with a crash and a concurrent change

    The worker crashes after the engine accepted a document, the document
    changes meanwhile, and the next slices find the task through the marker,
    leave the newer version open, and deliver it. *)

From stdpp Require Import base gmap strings list numbers sets.
From S2P Require Import Prelude Keyset SearchDelivery SearchDeliveryFacts SearchDeliverySpec SearchDeliverySlices.

Open Scope Z_scope.
Open Scope string_scope.

(** ** Replaying moves *)

Definition doc_bytes (d : string) : Z := Z.of_nat (String.length d).
Definition id_bytes (e : string) : Z := Z.of_nat (String.length e) + 2.

Inductive move :=
| MWork (o : oracle)
| MCrash
| MTick (seconds : N)
| MStore (k : key) (content : string)
| MArrive (uid : nat)
| MRun (uid : nat).

Definition play (w : World string) (m : move) : World string :=
  match m with
  | MWork o => work doc_bytes id_bytes o w
  | MCrash => set_worker idle w
  | MTick d => mkWorld (clock w + Z.of_N d) (domain w) (outbox w) (next_row w) (active w) (closed w)
                 (next_receipt w) (marker w) (requests w) (documents w) (worker w)
  | MStore k c => request_search_projection [k] [] (λ _, Some c) w
  | MArrive uid =>
      match requests w !! uid with
      | Some q => if bool_decide (rq_status q = in_flight) then set_request uid enqueued w else w
      | None => w
      end
  | MRun uid =>
      match requests w !! uid with
      | Some q => if bool_decide (rq_status q = enqueued)
          then set_documents (apply_write (rq_write q) (documents w)) (set_request uid succeeded w) else w
      | None => w
      end
  end.

Lemma play_reachable m w : reachable doc_bytes id_bytes w → reachable doc_bytes id_bytes (play w m).
Proof.
  intros Hw. destruct m as [o| |d|k c|uid|uid]; cbn [play].
  - eapply reachable_step; [done|constructor].
  - eapply reachable_step; [done|constructor].
  - eapply reachable_step; [done|]. constructor. lia.
  - eapply reachable_step; [done|]. by constructor.
  - destruct (requests w !! uid) eqn:E; [|done]. case_bool_decide; [|done].
    eapply reachable_step; [done|]. by econstructor.
  - destruct (requests w !! uid) eqn:E; [|done]. case_bool_decide; [|done].
    eapply reachable_step; [done|]. by econstructor.
Qed.

Lemma replay_reachable ms : reachable doc_bytes id_bytes (foldl play initial_world ms).
Proof.
  assert (∀ w, reachable doc_bytes id_bytes w → reachable doc_bytes id_bytes (foldl play w ms)) as H.
  { induction ms as [|m ms IH]; intros w Hw; [done|]. by apply IH, play_reachable. }
  apply H. constructor.
Qed.

(** ** The run *)

Definition calm (token : Z) : oracle := mkOracle token 100 true true true true (Some true) true (Some true) true.
Definition works (n : nat) (token : Z) : list move := replicate n (MWork (calm token)).

Definition first_key : key := ("works", "a1").

(** Accepted by the engine and recorded in the marker, then a crash. *)
Definition until_crash : list move :=
  [MStore first_key "old"] ++ works 10 1 ++ [MArrive 0] ++ works 2 1 ++ [MCrash].
(** The content changes, the engine runs the old write, the next slice closes
    the receipt. *)
Definition until_closed : list move :=
  until_crash ++ [MStore first_key "new"; MRun 0; MTick 60] ++ works 5 2.
(** A slice sends the new content, another acknowledges it. *)
Definition until_delivered : list move :=
  until_closed ++ works 10 3 ++ [MArrive 1] ++ works 3 3 ++ [MRun 1; MTick 60] ++ works 5 4.

Definition closed_world : World string := foldl play initial_world until_closed.
Definition delivered_world : World string := foldl play initial_world until_delivered.
Definition in_flight_world : World string :=
  foldl play initial_world ([MStore first_key "old"] ++ works 10 1).

Lemma reopened_row_kept :
  documents closed_world !! first_key = Some "old" ∧ domain closed_world !! first_key = Some "new" ∧
  ¬ settled closed_world first_key.
Proof.
  split_and!; [by vm_compute|by vm_compute|]. unfold settled.
  assert (row_completed_at <$> outbox closed_world !! first_key = Some None) as H by by vm_compute.
  destruct (outbox closed_world !! first_key); [|done]. injection H as ->. naive_solver.
Qed.

(** ** Witnesses *)

Lemma settled_current_witness :
  documents delivered_world !! first_key = domain delivered_world !! first_key ∧
  domain delivered_world !! first_key = Some "new".
Proof.
  split; [|by vm_compute]. apply (settled_documents_current doc_bytes id_bytes); [apply replay_reachable|].
  vm_compute. discriminate.
Defined.

Lemma delivery_refines_witness :
  mirror_step (view closed_world) (view (work doc_bytes id_bytes (calm 3) closed_world)).
Proof. apply (delivery_refines_mirror doc_bytes id_bytes); [apply replay_reachable|constructor]. Defined.

Lemma single_flight_witness : ∃ q, requests in_flight_world !! 0%nat = Some q ∧ outstanding q ∧
  ∀ uid' q', requests in_flight_world !! uid' = Some q' → outstanding q' → uid' = 0%nat.
Proof.
  eexists. split; [by vm_compute|]. split; [by left|].
  eapply (single_flight doc_bytes id_bytes in_flight_world 0); [apply replay_reachable|by vm_compute|by left].
Defined.

Lemma receipts_fit_witness : ∃ r, active in_flight_world = Some r ∧
  fits doc_bytes id_bytes (rc_action r) (rc_payload r).
Proof.
  eexists. split; [by vm_compute|].
  eapply (receipts_fit doc_bytes id_bytes in_flight_world); [apply replay_reachable|by vm_compute].
Defined.

Lemma slice_ends_witness :
  worker (slice doc_bytes id_bytes (replicate 12 (calm 1, id))
            (set_worker started (play initial_world (MStore first_key "old")))) = idle.
Proof. apply (slice_ends doc_bytes id_bytes); [by repeat constructor|vm_compute; lia]. Defined.
