(* ===== verification/TaskRuns.v ===== *)
(** * Task runs: the user-facing projection of jobs

    [normalize_task_status], [create_task] and [update_task] of
    [backend/app/services/tasks.py], in the fields that the lifecycle of
    download and import jobs writes.  Ownership and provenance, progress,
    results, metadata and the event table are left out; times are seconds. *)

From stdpp Require Import base gmap strings list numbers.
From Stdlib Require Import Ascii.
From S2P Require Import Prelude.

Open Scope string_scope.
Open Scope Z_scope.

(** ** Status words *)

Definition NONTERMINAL_STATUSES : list string := ["enqueued"; "running"; "paused"; "recovering"].
Definition TERMINAL_STATUSES : list string := ["complete"; "failed"; "cancelled"; "stale"].

(** [str.strip] and [str.lower] on ASCII text. *)
Definition is_blank (c : ascii) : bool :=
  let n := N_of_ascii c in ((9 <=? n) && (n <=? 13) || (28 <=? n) && (n <=? 32))%N.
Definition lower_ascii (c : ascii) : ascii :=
  let n := N_of_ascii c in if ((65 <=? n) && (n <=? 90))%N then ascii_of_N (n + 32) else c.
Fixpoint drop_blanks (l : list ascii) : list ascii :=
  match l with c :: l' => if is_blank c then drop_blanks l' else l | [] => [] end.
Definition strip_lower (s : string) : string :=
  String.string_of_list_ascii (lower_ascii <$> rev (drop_blanks (rev (drop_blanks (String.list_ascii_of_string s))))).

Definition normalize_task_status (status : option string) : string :=
  match status with
  | None | Some "" => "enqueued"
  | Some s =>
      let s := strip_lower s in
      if bool_decide (s ∈ ["pending"; "queued"]) then "enqueued"
      else if bool_decide (s ∈ ["downloading"; "downloaded"; "importing"]) then "running"
      else s
  end.

#[global] Arguments normalize_task_status : simpl never.

(** ** Task runs *)

Record TaskRun := mkTaskRun {
  t_admin : bool;
  t_status : string;
  t_error : option string;
  t_attention : string;
  t_reason : option string;
  t_resource : string;
  t_resource_reason : option string;
  t_attempts : Z;
  t_enqueued_at : option Z;
  t_started_at : option Z;
  t_finished_at : option Z;
  t_resolved_at : option Z;
  t_acknowledged_at : option Z;
  t_compactable_at : option Z }.

(** The keyword arguments of [update_task]; [None] is [_UNSET] (or [None] where
    the parameter has that default). *)
Record TaskUpdate := mkUpdate {
  u_status : option string;
  u_error : option (option string);
  u_resource_state : option string;
  u_resource_reason : option (option string);
  u_attention_state : option string;
  u_reason_code : option (option string) }.

Definition no_update : TaskUpdate := mkUpdate None None None None None None.

Definition truthy (s : option string) : bool :=
  match s with None | Some "" => false | _ => true end.

(** What the status itself entails: the [if status is not None] block. *)
Definition apply_status (now : Z) (u : TaskUpdate) (status : string) (t : TaskRun) : TaskRun :=
  let s := normalize_task_status (Some status) in
  let unless_given (r : string) := match u_resource_state u with None => r | Some _ => t_resource t end in
  let closed := if bool_decide (t_attention t = "open") then "none" else t_attention t in
  if bool_decide (s = "enqueued") then
    mkTaskRun (t_admin t) s (t_error t) closed (t_reason t) (unless_given "waiting") (t_resource_reason t)
      (t_attempts t) (Some now) None None (t_resolved_at t) (t_acknowledged_at t) (t_compactable_at t)
  else if bool_decide (s = "running") then
    mkTaskRun (t_admin t) s (t_error t) closed (t_reason t) (t_resource t) (t_resource_reason t)
      (t_attempts t) (t_enqueued_at t) (match t_started_at t with None => Some now | x => x end) None
      (t_resolved_at t) (t_acknowledged_at t) (t_compactable_at t)
  else if bool_decide (s = "paused") || bool_decide (s = "recovering") then
    mkTaskRun (t_admin t) s (t_error t) (t_attention t) (t_reason t)
      (unless_given (if bool_decide (s = "paused") then "yielded" else "waiting")) (t_resource_reason t)
      (t_attempts t) (t_enqueued_at t) (t_started_at t) None (t_resolved_at t) (t_acknowledged_at t)
      (t_compactable_at t)
  else if bool_decide (s ∈ TERMINAL_STATUSES) then
    let resource_reason := match u_resource_state u with None => None | Some _ => t_resource_reason t end in
    if bool_decide (s = "failed") || bool_decide (s = "stale") then
      let reason := match u_reason_code u with
        | None => if truthy (t_reason t) then t_reason t
                  else Some (if bool_decide (s = "stale") then "lost_heartbeat" else "task_failed")
        | Some _ => t_reason t end in
      mkTaskRun (t_admin t) s (t_error t) "open" reason (unless_given "yielded") resource_reason
        (t_attempts t) (t_enqueued_at t) (t_started_at t) (Some now) None (t_acknowledged_at t) None
    else if bool_decide (s = "complete") then
      if truthy (t_reason t) then
        mkTaskRun (t_admin t) s (t_error t) "resolved" (t_reason t) (unless_given "yielded") resource_reason
          (t_attempts t) (t_enqueued_at t) (t_started_at t) (Some now) (Some now) (t_acknowledged_at t)
          (Some (now + 7 * 86400))
      else
        mkTaskRun (t_admin t) s (t_error t) "none" (t_reason t) (unless_given "yielded") resource_reason
          (t_attempts t) (t_enqueued_at t) (t_started_at t) (Some now) (t_resolved_at t)
          (t_acknowledged_at t) (Some (now + if t_admin t then 24 * 3600 else 0))
    else
      mkTaskRun (t_admin t) s (t_error t) "none" None (unless_given "yielded") resource_reason
        (t_attempts t) (t_enqueued_at t) (t_started_at t) (Some now) None (t_acknowledged_at t)
        (Some (now + 24 * 3600))
  else
    mkTaskRun (t_admin t) s (t_error t) (t_attention t) (t_reason t) (t_resource t) (t_resource_reason t)
      (t_attempts t) (t_enqueued_at t) (t_started_at t) (t_finished_at t) (t_resolved_at t)
      (t_acknowledged_at t) (t_compactable_at t).

Definition apply_attention (now : Z) (a : string) (t : TaskRun) : TaskRun :=
  let '(resolved, acknowledged, compactable) :=
    if bool_decide (a = "resolved") && bool_decide (t_resolved_at t = None)
    then (Some now, t_acknowledged_at t, Some (now + 7 * 86400))
    else if bool_decide (a = "acknowledged") then
      let r := default now (t_resolved_at t) in (Some r, Some now, Some (r + 7 * 86400))
    else (t_resolved_at t, t_acknowledged_at t, t_compactable_at t) in
  mkTaskRun (t_admin t) (t_status t) (t_error t) a (t_reason t) (t_resource t) (t_resource_reason t)
    (t_attempts t) (t_enqueued_at t) (t_started_at t) (t_finished_at t) resolved acknowledged compactable.

(** [update_task] outside an administrator worker; [Err] is the [ValueError]. *)
Definition update_task (now : Z) (u : TaskUpdate) (t : TaskRun) : result string TaskRun :=
  let t := match u_status u with None => t | Some s => apply_status now u s t end in
  let t := mkTaskRun (t_admin t) (t_status t) (default (t_error t) (u_error u)) (t_attention t)
    (t_reason t) (t_resource t) (t_resource_reason t) (t_attempts t) (t_enqueued_at t) (t_started_at t)
    (t_finished_at t) (t_resolved_at t) (t_acknowledged_at t) (t_compactable_at t) in
  match u_resource_state u with
  | None => Ok t
  | Some r =>
      guard_or (bool_decide (r ∈ ["running"; "waiting"; "yielded"])) "invalid resource_state" ≫= λ _,
      Ok (mkTaskRun (t_admin t) (t_status t) (t_error t) (t_attention t) (t_reason t) r
            (t_resource_reason t) (t_attempts t) (t_enqueued_at t) (t_started_at t) (t_finished_at t)
            (t_resolved_at t) (t_acknowledged_at t) (t_compactable_at t))
  end ≫= λ t,
  let t := mkTaskRun (t_admin t) (t_status t) (t_error t) (t_attention t) (t_reason t) (t_resource t)
    (default (t_resource_reason t) (u_resource_reason u)) (t_attempts t) (t_enqueued_at t)
    (t_started_at t) (t_finished_at t) (t_resolved_at t) (t_acknowledged_at t) (t_compactable_at t) in
  match u_attention_state u with
  | None => Ok t
  | Some a =>
      guard_or (bool_decide (a ∈ ["none"; "open"; "resolved"; "acknowledged"])) "invalid attention_state" ≫= λ _,
      Ok (apply_attention now a t)
  end ≫= λ t,
  Ok (mkTaskRun (t_admin t) (t_status t) (t_error t) (t_attention t)
        (default (t_reason t) (u_reason_code u)) (t_resource t) (t_resource_reason t) (t_attempts t)
        (t_enqueued_at t) (t_started_at t) (t_finished_at t) (t_resolved_at t) (t_acknowledged_at t)
        (t_compactable_at t)).

(** The row [create_task] adds for a subject without one. *)
Definition new_task (now : Z) (admin : bool) (status : string) (error : option string) : TaskRun :=
  let s := normalize_task_status (Some status) in
  let has x := bool_decide (s = x) in
  mkTaskRun admin s error (if has "failed" || has "stale" then "open" else "none")
    (if has "stale" then Some "lost_heartbeat" else if has "failed" then Some "task_failed" else None)
    (if has "running" then "running" else "waiting") None 0
    (if has "enqueued" then Some now else None) (if has "running" then Some now else None)
    (if bool_decide (s ∈ TERMINAL_STATUSES) then Some now else None) None None
    (if has "complete" then Some (now + if admin then 24 * 3600 else 0) else None).
