(* ===== verification/TaskPipeline.v ===== *)
(** * The task pipeline: downloads, their imports, and their task runs

    [backend/app/services/import_lifecycle.py] (the projection of an import
    onto its parent download and onto the task runs),
    [backend/app/services/job_manifest.py],
    [backend/app/services/download_failure_evidence.py],
    [backend/app/services/download_finalization.py], and the claim, completion
    and release of an import execution in [backend/app/jobs/import_execution.py].

    The rows are maps by id; an operation is a function of the whole database
    that returns the new database or the exception it raises, whose transaction
    the caller rolls back.  Row locks are the atomicity of one operation.
    Progress texts, results, sync receipts and the audit columns are left out. *)

From stdpp Require Import base gmap strings list numbers pretty.
From S2P Require Import Prelude TaskState TaskRuns Keyset.

Open Scope string_scope.
Open Scope Z_scope.

(** ** Rows *)

(** A manifest event, in the fields that are read back. *)
Record Event := mkEvent {
  ev_event : string;
  ev_conflict_details : bool;
  ev_from : option string;
  ev_to : option string }.

(** A value of [bounded_import_batches]. *)
Record BatchResult := mkBatch {
  br_status : string;
  br_stats : gmap string Z;
  br_total_groups : Z;
  br_message : option string }.

(** The [unresolved_provider_failure] evidence. *)
Record ProviderFailure := mkFailure {
  pf_version : Z;
  pf_state : string;
  pf_kind : string;
  pf_reason : string;
  pf_retry_count : Z;
  pf_max_retries : Z }.

Record Manifest := mkManifest {
  mf_events : list Event;
  mf_disk_import_recovery : bool;
  mf_publication_open : bool;
  mf_batches : gmap Z BatchResult;
  mf_failure : option ProviderFailure }.

Record DownloadJob := mkDownload {
  dl_job : Job;
  dl_retry_count : Z;
  dl_priority : Z;
  dl_manifest : Manifest }.

Record ImportJob := mkImport {
  im_download : Z;
  im_created_at : Z;
  im_job : Job;
  im_priority : Z;
  im_retry_count : Z;
  im_token : option Z;
  im_attempt : Z }.

Inductive job_kind := Download | Import.
Global Instance job_kind_eq_dec : EqDecision job_kind.
Proof. solve_decision. Defined.

(** The database and the control channel.  [leases] are the downloads with an
    unexpired artifact lease; [tasks] is keyed by [(subject_type, subject_id)]
    ([true] for a download job). *)
Record Db := mkDb {
  now : Z;
  downloads : gmap Z DownloadJob;
  imports : gmap Z ImportJob;
  tasks : gmap (bool * Z) TaskRun;
  leases : gset Z;
  controls : list (job_kind * Z * string) }.

(** What an operation raises. *)
Inductive EngineError :=
| NotFound (id : Z)
| ActionRefused (action status : string)   (** HTTP 409 of the action policy *)
| EngineRefused (status : string)          (** [TaskEngineError] *)
| BadTransition (e : InvalidTaskTransition)
| TaskValueError (message : string)
| OwnershipLost.

(** ** Field updates *)

Definition set_downloads x db := mkDb (now db) x (imports db) (tasks db) (leases db) (controls db).
Definition set_imports x db := mkDb (now db) (downloads db) x (tasks db) (leases db) (controls db).
Definition set_tasks x db := mkDb (now db) (downloads db) (imports db) x (leases db) (controls db).
Definition send_control (kind : job_kind) (id : Z) (action : string) db :=
  mkDb (now db) (downloads db) (imports db) (tasks db) (leases db) (controls db ++ [(kind, id, action)])%list.

Definition put_download (id : Z) (d : DownloadJob) db := set_downloads (<[id := d]> (downloads db)) db.
Definition put_import (id : Z) (i : ImportJob) db := set_imports (<[id := i]> (imports db)) db.
Definition put_task (s : bool * Z) (t : TaskRun) db := set_tasks (<[s := t]> (tasks db)) db.

Definition with_dl_job (j : Job) d := mkDownload j (dl_retry_count d) (dl_priority d) (dl_manifest d).
Definition with_manifest (m : Manifest) d := mkDownload (dl_job d) (dl_retry_count d) (dl_priority d) m.
Definition with_im_job (j : Job) i :=
  mkImport (im_download i) (im_created_at i) j (im_priority i) (im_retry_count i) (im_token i) (im_attempt i).

Abbreviation dl_status d := (status (dl_job d)).
Abbreviation im_status i := (status (im_job i)).
Definition set_status (s : string) (j : Job) : Job := mkJob s (error_log j).

(** An exception of the state machine. *)
Definition checked {A} (r : result InvalidTaskTransition A) : result EngineError A :=
  match r with Ok a => Ok a | Err e => Err (BadTransition e) end.
Definition task_checked {A} (r : result string A) : result EngineError A :=
  match r with Ok a => Ok a | Err e => Err (TaskValueError e) end.

(** ** The manifest *)

Definition set_events (l : list Event) (m : Manifest) : Manifest :=
  mkManifest l (mf_disk_import_recovery m) (mf_publication_open m) (mf_batches m) (mf_failure m).

(** The last 200 events are kept. *)
Definition append_manifest_event (e : Event) (d : DownloadJob) : DownloadJob :=
  let events := (mf_events (dl_manifest d) ++ [e])%list in
  with_manifest (set_events (drop (length events - 200) events) (dl_manifest d)) d.

Definition set_batches (b : gmap Z BatchResult) (d : DownloadJob) : DownloadJob :=
  let m := dl_manifest d in
  with_manifest (mkManifest (mf_events m) (mf_disk_import_recovery m) (mf_publication_open m) b (mf_failure m)) d.

Definition close_publication (d : DownloadJob) : DownloadJob :=
  let m := dl_manifest d in
  with_manifest (mkManifest (mf_events m) (mf_disk_import_recovery m) false (mf_batches m) (mf_failure m)) d.

Definition PROVIDER_FAILURE_KINDS : list string := ["authentication"; "nonzero"; "timeout"; "unexpected"].
Definition EVIDENCE_VERSION : Z := 1.

Definition unresolved_provider_failure (d : DownloadJob) : option ProviderFailure :=
  match mf_failure (dl_manifest d) with
  | None => None
  | Some e =>
      if negb (pf_version e =? EVIDENCE_VERSION)
         || negb (bool_decide (pf_state e = "unresolved"))
         || negb (bool_decide (pf_kind e ∈ PROVIDER_FAILURE_KINDS))
         || bool_decide (strip_lower (pf_reason e) = "")
         || negb (pf_retry_count e =? dl_retry_count d)
         || (pf_max_retries e <? 0)
         || (pf_retry_count e <? pf_max_retries e)
      then None else Some e
  end.

(** ** Task runs of jobs *)

Definition status_update (s : string) (error : option string) : TaskUpdate :=
  mkUpdate (Some s) (Some error) None None None None.
Definition with_reason (reason : option string) (u : TaskUpdate) : TaskUpdate :=
  mkUpdate (u_status u) (u_error u) (u_resource_state u) (u_resource_reason u) (u_attention_state u)
    (match reason with None => None | Some _ => Some reason end).

(** [create_task] for a subject: update the row or add one. *)
Definition create_task (s : bool * Z) (st : string) (error : option string) db : result EngineError Db :=
  match tasks db !! s with
  | Some t => task_checked (update_task (now db) (status_update st error) t) ≫= λ t, Ok (put_task s t db)
  | None => Ok (put_task s (new_task (now db) false st error) db)
  end.
Definition ensure_download_task (id : Z) (d : DownloadJob) db : result EngineError Db :=
  create_task (true, id) (dl_status d) (error_log (dl_job d)) db.
Definition ensure_import_task (id : Z) (i : ImportJob) db : result EngineError Db :=
  create_task (false, id) (im_status i) (error_log (im_job i)) db.

(** The task of a subject, updated when there is one. *)
Definition update_subject (s : bool * Z) (u : TaskUpdate) db : result EngineError Db :=
  match tasks db !! s with
  | Some t => task_checked (update_task (now db) u t) ≫= λ t, Ok (put_task s t db)
  | None => Ok db
  end.

(** ** The aggregate of a bounded parent *)

Definition IMPORT_PARENT_STATUS : list (string * string) :=
  [("enqueued", "importing"); ("running", "importing"); ("recovering", "importing"); ("paused", "paused");
   ("cancelled", "cancelled"); ("failed", "failed"); ("stale", "stale")].
Definition PARENT_TERMINAL_STATUSES : list string := ["complete"; "cancelled"; "failed"].
Definition BOUNDED_SETTLED_STATUSES : list string := ["complete"; "cancelled"; "failed"; "stale"].

Definition settled_status (s : string) : bool := bool_decide (s ∈ BOUNDED_SETTLED_STATUSES).

(** The chain of conditions that elects the status of the parent. *)
Definition aggregate_status (publication_open : bool) (children : list string) : string :=
  let has s := existsb (λ c, bool_decide (c = s)) children in
  let active := existsb (λ c, negb (settled_status c) && negb (bool_decide (c = "paused"))) children in
  let all_settled := negb (bool_decide (children = [])) && forallb settled_status children in
  if publication_open || active then "importing"
  else if has "paused" then "paused"
  else if has "failed" then "failed"
  else if has "stale" then "stale"
  else if has "cancelled" then "cancelled"
  else if all_settled then "complete"
  else "importing".

Record ImportParentCompletion := mkCompletion {
  cp_should_finalize : bool;
  cp_status : string;
  cp_message : string;
  cp_stats : gmap string Z;
  cp_total_groups : Z }.

(** [order_by(created_at, id)] *)
Definition older (a b : Z * ImportJob) : bool :=
  (im_created_at a.2 <? im_created_at b.2) || ((im_created_at a.2 =? im_created_at b.2) && (a.1 <? b.1)).

Definition children_of (parent : Z) db : list (Z * ImportJob) :=
  order_by older (List.filter (λ c, im_download c.2 =? parent) (map_to_list (imports db))).

Definition STAT_KEYS : list string := ["works"; "assets"; "multi_page"; "skipped"; "existing"].

Definition sum_over {A} (f : A → Z) (l : list A) : Z := foldr (λ x n, f x + n) 0 l.

Definition _bounded_parent_completion (parent : Z) (d : DownloadJob) (batches : gmap Z BatchResult)
    (fallback_message : string) db : ImportParentCompletion :=
  let children := (λ c, im_status c.2) <$> children_of parent db in
  let publication_open := mf_publication_open (dl_manifest d) in
  let all_settled := negb (bool_decide (children = [])) && forallb settled_status children in
  let results := (map_to_list batches).*2 in
  let stats : gmap string Z := list_to_map ((λ k, (k, sum_over (λ r, default 0 (br_stats r !! k)) results)) <$> STAT_KEYS) in
  let st := aggregate_status publication_open children in
  let message :=
    if bool_decide (st = "complete") then
      (if bool_decide (length children = 1%nat) then fallback_message
       else "Imported " +:+ pretty (default 0 (stats !! "works")) +:+ " works across " +:+
              pretty (Z.of_nat (length children)) +:+ " bounded batches")
    else if bool_decide (st = "cancelled") then "One or more bounded import batches were cancelled"
    else if bool_decide (st = "failed") then "One or more bounded import batches failed"
    else if bool_decide (st = "stale") then "One or more bounded import batches lost its worker"
    else if bool_decide (st = "paused") then "All active bounded import batches are paused"
    else "Bounded import publication or child batches remain active" in
  mkCompletion (all_settled && negb publication_open && negb (bool_decide (dl_status d = st))) st message
    stats (sum_over br_total_groups results).

Definition failing (s : string) : bool := bool_decide (s = "failed") || bool_decide (s = "stale").

Definition _apply_bounded_parent_aggregate (c : ImportParentCompletion) (event : string)
    (error : option string) (d : DownloadJob) : DownloadJob :=
  if bool_decide (dl_status d = cp_status c) then
    match error with
    | Some _ => if failing (cp_status c) then with_dl_job (mkJob (dl_status d) error) d else d
    | None => d
    end
  else
    let log := if failing (cp_status c)
               then Some (match error with None | Some "" => cp_message c | Some e => e end) else None in
    append_manifest_event (mkEvent event false (Some (dl_status d)) (Some (cp_status c)))
      (with_dl_job (mkJob (cp_status c) log) d).

(** ** Projections *)

(** The parent after a projection: the aggregate of a bounded parent, or a
    transition of an ordinary one outside its terminal states. *)
Definition project_parent (import_id parent : Z) (child_status : string) (error : option string)
    (outcome : option (gmap string Z * Z)) (d : DownloadJob) db : result EngineError DownloadJob :=
  if mf_disk_import_recovery (dl_manifest d) then
    let batch := mkBatch child_status (default ∅ (fst <$> outcome)) (default 0 (snd <$> outcome)) error in
    let batches := <[import_id := batch]> (mf_batches (dl_manifest d)) in
    let d := set_batches batches d in
    let c := _bounded_parent_completion parent d batches
               (match error with None | Some "" => "Bounded import state changed" | Some e => e end) db in
    Ok (_apply_bounded_parent_aggregate c "import_projection" error d)
  else
    match assoc child_status IMPORT_PARENT_STATUS with
    | None => Ok d
    | Some target =>
        if negb (bool_decide (dl_status d = target)) then
          if bool_decide (dl_status d ∈ PARENT_TERMINAL_STATUSES) then Ok d
          else checked (transition_download_job (dl_job d) target error) ≫= λ j,
               Ok (append_manifest_event (mkEvent "import_projection" false (Some (dl_status d)) (Some target))
                     (with_dl_job j d))
        else match error with
             | Some _ => if failing target then Ok (with_dl_job (mkJob (dl_status d) error) d) else Ok d
             | None => Ok d
             end
    end.

(** [project_import_pipeline_state]; the import row already carries its new
    status. *)
Definition project_import_pipeline_state (import_id : Z) (st : option string) (error : option string)
    (outcome : option (gmap string Z * Z)) (reason : option string) db : result EngineError Db :=
  match imports db !! import_id with
  | None => Err (NotFound import_id)
  | Some i =>
      let child_status := default (im_status i) st in
      match downloads db !! im_download i with
      | None => Ok db
      | Some d =>
          (match tasks db !! (false, import_id) with
           | Some _ => Ok db
           | None => ensure_import_task import_id i db
           end) ≫= λ db1,
          update_subject (false, import_id) (with_reason reason (status_update child_status error)) db1 ≫= λ db1,
          project_parent import_id (im_download i) child_status error outcome d db1 ≫= λ d',
          let db2 := put_download (im_download i) d' db1 in
          match tasks db2 !! (true, im_download i) with
          | None => ensure_download_task (im_download i) d' db2
          | Some _ =>
              update_subject (true, im_download i)
                (with_reason (if failing (dl_status d') then reason else None)
                   (status_update (dl_status d') (if failing (dl_status d') then error else None))) db2
          end
      end
  end.

(** ** Completion of an import *)

(** [coordinate_import_parent_completion]: the parent's new row and what to do
    with it. *)
Definition coordinate_import_parent_completion (import_id : Z) (i : ImportJob) (st : string)
    (stats : gmap string Z) (total_groups : Z) (message : string) db
    : result EngineError (DownloadJob * ImportParentCompletion) :=
  match downloads db !! im_download i with
  | None => Err (NotFound (im_download i))
  | Some d =>
      let open := negb (bool_decide (dl_status d ∈ PARENT_TERMINAL_STATUSES)) in
      if negb (mf_disk_import_recovery (dl_manifest d)) then
        match unresolved_provider_failure d with
        | Some failure =>
            if bool_decide (st = "complete") then
              (if open then checked (transition_download_job (dl_job d) "failed" (Some (pf_reason failure)))
               else Ok (dl_job d)) ≫= λ j,
              Ok (with_dl_job j d, mkCompletion open "failed" (pf_reason failure) stats total_groups)
            else Ok (d, mkCompletion open st message stats total_groups)
        | None => Ok (d, mkCompletion open st message stats total_groups)
        end
      else
        let batches := <[import_id := mkBatch st stats total_groups (Some message)]> (mf_batches (dl_manifest d)) in
        let d := set_batches batches d in
        let c := _bounded_parent_completion (im_download i) d batches message db in
        Ok (if cp_should_finalize c then d else _apply_bounded_parent_aggregate c "import_aggregate" None d, c)
  end.

(** [close_bounded_import_publication] *)
Definition close_bounded_import_publication (parent : Z) db : Db * option ImportParentCompletion :=
  match downloads db !! parent with
  | None => (db, None)
  | Some d =>
      if negb (mf_disk_import_recovery (dl_manifest d)) then (db, None)
      else
        let batches := mf_batches (dl_manifest d) in
        let d := close_publication d in
        let c := _bounded_parent_completion parent d batches "Bounded import publication complete" db in
        let d := if cp_should_finalize c then d
                 else _apply_bounded_parent_aggregate c "bounded_import_publication_closed" None d in
        (put_download parent d db, Some c)
  end.

(** [DownloadJobRepository.update_status]; a failure of the task projection is
    swallowed. *)
Definition update_status (id : Z) (d : DownloadJob) (st : string) (error : option string) db
    : result EngineError (DownloadJob * Db) :=
  checked (transition_download_job (dl_job d) st None) ≫= λ j,
  let d' := append_manifest_event (mkEvent "status_changed" false (Some (dl_status d)) (Some st))
              (with_dl_job (mkJob (status j) error) d) in
  let db := put_download id d' db in
  Ok (d', match ensure_download_task id d' db with Ok db' => db' | Err _ => db end).

(** [finalize_download_job] *)
Definition finalize_download_job (id : Z) (d : DownloadJob) (st : string) (error : option string) db
    : result EngineError Db :=
  update_status id d st error db ≫= λ '(d', db'),
  Ok (put_download id (append_manifest_event (mkEvent "download_finalized" false None None) d') db').

(** [_claim_import_execution]: [None] when the row is not runnable. *)
Definition _claim_import_execution (import_id token : Z) db : result EngineError (option Db) :=
  match imports db !! import_id with
  | None => Ok None
  | Some i =>
      if bool_decide (im_status i ∈ ["enqueued"; "pending"]) then
        checked (transition_import_job (im_job i) "running" None) ≫= λ j,
        let i' := mkImport (im_download i) (im_created_at i) j (im_priority i) (im_retry_count i) (Some token)
                    (im_attempt i + 1) in
        project_import_pipeline_state import_id (Some "running") None None None (put_import import_id i' db) ≫= λ db',
        Ok (Some db')
      else Ok None
  end.

(** [_release_import_execution] *)
Definition _release_import_execution (import_id token : Z) db : Db :=
  match imports db !! import_id with
  | Some i => if bool_decide (im_token i = Some token)
      then put_import import_id (mkImport (im_download i) (im_created_at i) (im_job i) (im_priority i)
             (im_retry_count i) None (im_attempt i)) db
      else db
  | None => db
  end.

(** [_complete_import_execution] with status complete or failed. *)
Definition _complete_import_execution (import_id token : Z) (st message : string) (stats : gmap string Z)
    (total_groups : Z) db : result EngineError Db :=
  match imports db !! import_id with
  | None => Err OwnershipLost
  | Some i =>
      guard_or (bool_decide (im_token i = Some token)) OwnershipLost ≫= λ _,
      checked (transition_import_job (im_job i) st (if bool_decide (st = "failed") then Some message else None)) ≫= λ j,
      let j := if bool_decide (st = "complete") then mkJob (status j) None else j in
      let i' := with_im_job j i in
      let db := put_import import_id i' db in
      coordinate_import_parent_completion import_id i' st stats total_groups message db ≫= λ '(d, c),
      let db := put_download (im_download i) d db in
      update_subject (false, import_id)
        (status_update st (if bool_decide (st = "failed") then Some message else None)) db ≫= λ db,
      (match tasks db !! (true, im_download i) with
       | None => ensure_download_task (im_download i) d db
       | Some _ => update_subject (true, im_download i)
           (status_update (dl_status d) (if failing (dl_status d) then error_log (dl_job d) else None)) db
       end) ≫= λ db,
      let note e := append_manifest_event (mkEvent e false None None) in
      let d := note "stage_timing" (note "stage_timing" (note "import_complete" d)) in
      let db := put_download (im_download i) d db in
      if cp_should_finalize c
      then finalize_download_job (im_download i) d (cp_status c)
             (if bool_decide (cp_status c = "failed") then Some (cp_message c) else None) db
      else Ok db
  end.
