(* ===== verification/TaskEngine.v ===== *)
(** * The task engine: action policy and operator commands

    [backend/app/services/task_actions.py] ([decide] for download and import
    jobs, the page facts of [enrich_actions] for one job, [require_job_action])
    and [backend/app/services/task_engine.py] (pause, resume, cancel, retry,
    priorities, stale detection, batches), with the preparation of a queue
    publication from [download_dispatch.py] and [import_dispatch.py].

    Notes and operator names are audit columns and left out, as are progress
    texts and the reset of artifact assignments by a retry; the queue
    publication that follows the commit is not modelled. *)

From stdpp Require Import base gmap strings list numbers.
From S2P Require Import Prelude TaskState TaskRuns Keyset TaskPipeline.

Open Scope string_scope.
Open Scope Z_scope.

(** ** The action policy *)

Definition ACTIONS : list string :=
  ["retry"; "repeat_sync"; "pause"; "resume"; "cancel"; "delete"; "acknowledge"].
Definition TERMINAL : list string := ["complete"; "failed"; "stale"; "cancelled"].
Definition ACTIVE : list string :=
  ["pending"; "enqueued"; "running"; "downloading"; "downloaded"; "importing"; "paused"; "recovering"].

(** [TaskCapabilities] *)
Record Capabilities := mkCapabilities {
  available_actions : list string;
  disabled_reasons : gmap string string }.

(** The sets [decide] works on. *)
Abbreviation policy := (gset string * gmap string string)%type.
Definition allow (a : string) (p : policy) : policy := ({[a]} ∪ p.1, p.2).
Definition because (a reason : string) (p : policy) : policy := (p.1, <[a := reason]> p.2).
Definition discard (a reason : string) (p : policy) : policy := (p.1 ∖ {[a]}, <[a := reason]> p.2).
Definition when (b : bool) (f : policy → policy) (p : policy) : policy := if b then f p else p.

Definition all_because (reason : string) : gmap string string := list_to_map ((λ a, (a, reason)) <$> ACTIONS).

Definition capabilities (p : policy) : Capabilities :=
  mkCapabilities (List.filter (λ a, bool_decide (a ∈ p.1)) ACTIONS)
    (list_to_map ((λ a, (a, default "" (p.2 !! a))) <$> List.filter (λ a, negb (bool_decide (a ∈ p.1))) ACTIONS)).

(** The index of the last event with a property, -1 when there is none. *)
Fixpoint last_index (test : Event → bool) (i acc : Z) (events : list Event) : Z :=
  match events with
  | [] => acc
  | e :: events => last_index test (i + 1) (if test e then i else acc) events
  end.
Definition is_conflict (e : Event) : bool := bool_decide (ev_event e = "staging_conflict").
Definition is_resolution (e : Event) : bool := bool_decide (ev_event e = "staging_conflict_resolved").

Definition open_conflict (events : list Event) : bool :=
  last_index is_resolution 0 (-1) events <?
  last_index (λ e, is_conflict e && ev_conflict_details e) 0 (-1) events.

Definition evidence_problem (reason : option string) : bool :=
  bool_decide (reason = Some "import_completion_evidence_missing") ||
  bool_decide (reason = Some "import_completion_identity_mismatch").

(** [decide] for a download or import job with its status and manifest events;
    [task] is its task run. *)
Definition decide_job (kind : job_kind) (st : string) (events : list Event) (task : option TaskRun)
    (active_child leased repeat_member : bool) : policy :=
  let dl := bool_decide (kind = Download) in
  let reason := task ≫= t_reason in
  let complete := bool_decide (st = "complete") in
  let deletable := bool_decide (st ∈ TERMINAL) && negb active_child && negb leased in
  let busy := if leased then "execution_unsettled" else "active_import" in
  let p : policy := (∅, all_because "invalid_task_state") in
  let p := when (bool_decide (st ∈ ["failed"; "stale"])) (allow "retry") p in
  let p := when complete (because "retry" (if dl then "completed_sync_requires_repeat" else "already_terminal")) p in
  let p := when (complete && dl)
             (if repeat_member then allow "repeat_sync" else because "repeat_sync" "membership_unavailable") p in
  let p := when (bool_decide (st ∈ (if dl then DOWNLOAD_PAUSABLE_STATUSES else IMPORT_PAUSABLE_STATUSES)))
             (allow "pause") p in
  let p := when (bool_decide (st = "paused")) (allow "resume") p in
  let p := when (bool_decide (st ∈ (if dl then DOWNLOAD_CANCELLABLE_STATUSES else IMPORT_CANCELLABLE_STATUSES)))
             (allow "cancel") p in
  let p := if deletable then allow "delete" p
           else because "delete" (if active_child then "active_import" else if leased then "execution_unsettled"
                                  else "active_work_cancel_first") p in
  let p := when (leased || active_child) (discard "retry" busy) p in
  let p := when (dl && open_conflict events) (discard "retry" "conflict_resolution_required") p in
  let p := when (evidence_problem reason) (discard "retry" (default "" reason)) p in
  when (bool_decide (t_attention <$> task ∈ [Some "open"; Some "resolved"])) (allow "acknowledge") p.

(** [decide] with its permission and a missing subject. *)
Definition decide (kind : job_kind) (subject : option (string * list Event)) (task : option TaskRun)
    (permitted active_child leased repeat_member : bool) : Capabilities :=
  if negb permitted then mkCapabilities [] (all_because "permission_denied")
  else match subject with
       | None =>
           let ack := bool_decide (t_attention <$> task ∈ [Some "open"; Some "resolved"]) in
           mkCapabilities (if ack then ["acknowledge"] else [])
             (if ack then delete "acknowledge" (all_because "subject_missing") else all_because "subject_missing")
       | Some (st, events) => capabilities (decide_job kind st events task active_child leased repeat_member)
       end.

(** ** The facts about one job *)

Definition active_child_of (id : Z) db : bool :=
  existsb (λ c, bool_decide (im_status c.2 ∈ ACTIVE) || bool_decide (im_token c.2 ≠ None)) (children_of id db).

(** The newest child with one of the statuses
    ([order_by(created_at.desc(), id.desc()).limit(1)]). *)
Definition _latest_import_for_download (id : Z) (statuses : list string) db : option (Z * ImportJob) :=
  list.last (List.filter (λ c, bool_decide (im_status c.2 ∈ statuses)) (children_of id db)).

(** [decide] for the import [id] of a parent. *)
Definition import_capabilities (id : Z) (i : ImportJob) db : Capabilities :=
  decide Import (Some (im_status i, [])) (tasks db !! (false, id)) true false
    (bool_decide (im_download i ∈ leases db) || bool_decide (im_token i ≠ None)) false.

(** [enrich_actions] on one trusted download job: its own policy, and for a
    retry that would be delegated, the policy of the newest failed child. *)
Definition download_capabilities (id : Z) (d : DownloadJob) db : Capabilities :=
  let caps := decide Download (Some (dl_status d, mf_events (dl_manifest d))) (tasks db !! (true, id)) true
                (active_child_of id db) (bool_decide (id ∈ leases db)) false in
  match _latest_import_for_download id ["failed"; "stale"] db with
  | Some (c, i) =>
      let delegated := import_capabilities c i db in
      if bool_decide ("retry" ∈ available_actions caps) && negb (bool_decide ("retry" ∈ available_actions delegated))
      then mkCapabilities (List.filter (λ a, negb (bool_decide (a = "retry"))) (available_actions caps))
             (<["retry" := default "" (disabled_reasons delegated !! "retry")]> (disabled_reasons caps))
      else caps
  | None => caps
  end.

(** [require_job_action] *)
Definition require_download (id : Z) (d : DownloadJob) (action : string) db : result EngineError unit :=
  guard_or (bool_decide (action ∈ available_actions (download_capabilities id d db)))
    (ActionRefused action (dl_status d)).
Definition require_import (id : Z) (i : ImportJob) (action : string) db : result EngineError unit :=
  guard_or (bool_decide (action ∈ available_actions (import_capabilities id i db)))
    (ActionRefused action (im_status i)).

(** ** Lookups and transitions *)

Definition _get_download (id : Z) db : result EngineError DownloadJob :=
  match downloads db !! id with Some d => Ok d | None => Err (NotFound id) end.
Definition _get_import (id : Z) db : result EngineError ImportJob :=
  match imports db !! id with Some i => Ok i | None => Err (NotFound id) end.

(** [_apply_transition] *)
Definition _apply_transition (id : Z) (d : DownloadJob) (target : string) db : result EngineError (DownloadJob * Db) :=
  checked (transition_download_job (dl_job d) target None) ≫= λ j,
  let d' := with_dl_job j d in
  let db := put_download id d' db in
  (match tasks db !! (true, id) with
   | None => ensure_download_task id d' db
   | Some _ => update_subject (true, id) (status_update target (error_log (dl_job d'))) db
   end) ≫= λ db', Ok (d', db').

(** Count one more publication attempt of a task. *)
Definition next_attempt (t : TaskRun) : TaskRun :=
  mkTaskRun (t_admin t) (t_status t) (t_error t) (t_attention t) (t_reason t) (t_resource t)
    (t_resource_reason t) (Z.max 0 (t_attempts t) + 1) (t_enqueued_at t) (t_started_at t) (t_finished_at t)
    (t_resolved_at t) (t_acknowledged_at t) (t_compactable_at t).

Definition prepare_download_dispatch (id : Z) (d : DownloadJob) db : result EngineError Db :=
  (match tasks db !! (true, id) with None => ensure_download_task id d db | Some _ => Ok db end) ≫= λ db,
  let db := set_tasks (alter next_attempt (true, id) (tasks db)) db in
  update_subject (true, id) (status_update "enqueued" None) db ≫= λ db,
  Ok (put_download id (append_manifest_event (mkEvent "enqueue_prepared" false None None) d) db).

Definition prepare_import_dispatch (id : Z) (i : ImportJob) db : result EngineError Db :=
  (match tasks db !! (false, id) with None => ensure_import_task id i db | Some _ => Ok db end) ≫= λ db,
  let db := set_tasks (alter next_attempt (false, id) (tasks db)) db in
  update_subject (false, id) (status_update "enqueued" (error_log (im_job i))) db.

(** ** Commands on imports *)

(** A command sets the status, projects it and returns what it reports. *)
Abbreviation command := (Db → result EngineError (string * Db)).

Definition pause_import (id : Z) : command := λ db,
  _get_import id db ≫= λ i,
  require_import id i "pause" db ≫= λ _,
  guard_or (bool_decide (im_status i ∈ IMPORT_PAUSABLE_STATUSES)) (EngineRefused (im_status i)) ≫= λ _,
  let db := put_import id (with_im_job (set_status IMPORT_PAUSED (im_job i)) i) db in
  project_import_pipeline_state id (Some IMPORT_PAUSED) None None None db ≫= λ db,
  Ok (IMPORT_PAUSED, send_control Import id "pause" db).

Definition resume_import (id : Z) : command := λ db,
  _get_import id db ≫= λ i,
  require_import id i "resume" db ≫= λ _,
  guard_or (bool_decide (im_status i = IMPORT_PAUSED)) (EngineRefused (im_status i)) ≫= λ _,
  let i' := with_im_job (set_status IMPORT_ENQUEUED (im_job i)) i in
  project_import_pipeline_state id (Some IMPORT_ENQUEUED) None None None (put_import id i' db) ≫= λ db,
  prepare_import_dispatch id i' db ≫= λ db,
  Ok (IMPORT_ENQUEUED, db).

Definition cancel_import (id : Z) : command := λ db,
  _get_import id db ≫= λ i,
  require_import id i "cancel" db ≫= λ _,
  guard_or (bool_decide (im_status i ∈ IMPORT_CANCELLABLE_STATUSES)) (EngineRefused (im_status i)) ≫= λ _,
  let db := put_import id (with_im_job (set_status IMPORT_CANCELLED (im_job i)) i) db in
  project_import_pipeline_state id (Some IMPORT_CANCELLED) None None None db ≫= λ db,
  Ok (IMPORT_CANCELLED, send_control Import id "cancel" db).

Definition retry_import (id : Z) : command := λ db,
  _get_import id db ≫= λ i,
  require_import id i "retry" db ≫= λ _,
  guard_or (negb (bool_decide (im_status i ∈ [IMPORT_ENQUEUED; IMPORT_RUNNING; IMPORT_PAUSED; IMPORT_CANCELLED])))
    (EngineRefused (im_status i)) ≫= λ _,
  let i' := mkImport (im_download i) (im_created_at i) (mkJob IMPORT_ENQUEUED None) (im_priority i)
              (im_retry_count i + 1) (im_token i) (im_attempt i) in
  project_import_pipeline_state id (Some IMPORT_ENQUEUED) None None None (put_import id i' db) ≫= λ db,
  prepare_import_dispatch id i' db ≫= λ db,
  Ok (IMPORT_ENQUEUED, db).

(** ** Commands on downloads *)

(** A command that falls to a child, and the status it reports for the parent. *)
Definition delegate (child : option (Z * ImportJob)) (f : Z → command) (reported : string) (own : command) : command :=
  λ db, match child with
        | Some (c, _) => f c db ≫= λ '(_, db'), Ok (reported, db')
        | None => own db
        end.

Definition pause_download (id : Z) : command := λ db,
  _get_download id db ≫= λ d,
  require_download id d "pause" db ≫= λ _,
  delegate (if bool_decide (dl_status d = "importing")
            then _latest_import_for_download id [IMPORT_ENQUEUED; IMPORT_RUNNING] db else None)
    pause_import DOWNLOAD_PAUSED
    (λ db, guard_or (bool_decide (dl_status d ∈ DOWNLOAD_PAUSABLE_STATUSES)) (EngineRefused (dl_status d)) ≫= λ _,
           _apply_transition id d DOWNLOAD_PAUSED db ≫= λ '(d', db'),
           Ok (dl_status d', send_control Download id "pause" db')) db.

Definition resume_download (id : Z) : command := λ db,
  _get_download id db ≫= λ d,
  require_download id d "resume" db ≫= λ _,
  delegate (if bool_decide (dl_status d = DOWNLOAD_PAUSED)
            then _latest_import_for_download id [IMPORT_PAUSED] db else None)
    resume_import "importing"
    (λ db, guard_or (bool_decide (dl_status d = DOWNLOAD_PAUSED)) (EngineRefused (dl_status d)) ≫= λ _,
           _apply_transition id d DOWNLOAD_ENQUEUED db ≫= λ '(d', db'),
           prepare_download_dispatch id d' db' ≫= λ db',
           Ok (dl_status d', db')) db.

Definition cancel_download (id : Z) : command := λ db,
  _get_download id db ≫= λ d,
  require_download id d "cancel" db ≫= λ _,
  delegate (if bool_decide (dl_status d ∈ ["importing"; DOWNLOAD_PAUSED])
            then _latest_import_for_download id
                   [IMPORT_ENQUEUED; IMPORT_RUNNING; IMPORT_PAUSED; IMPORT_FAILED; IMPORT_STALE] db else None)
    cancel_import DOWNLOAD_CANCELLED
    (λ db, guard_or (bool_decide (dl_status d ∈ DOWNLOAD_CANCELLABLE_STATUSES)) (EngineRefused (dl_status d)) ≫= λ _,
           _apply_transition id d DOWNLOAD_CANCELLED db ≫= λ '(d', db'),
           Ok (dl_status d', send_control Download id "cancel" db')) db.

(** The guard of [retry_download] on the manifest: the latest conflict. *)
Definition latest_conflict_blocks (events : list Event) : bool :=
  let c := last_index is_conflict 0 (-1) events in
  (0 <=? c) && (last_index is_resolution 0 (-1) events <? c) &&
  match events !! Z.to_nat c with Some e => ev_conflict_details e | None => false end.

Definition retry_download (id : Z) : command := λ db,
  _get_download id db ≫= λ d,
  require_download id d "retry" db ≫= λ _,
  guard_or (negb (latest_conflict_blocks (mf_events (dl_manifest d)))) (EngineRefused (dl_status d)) ≫= λ _,
  delegate (if bool_decide (dl_status d ∈ ["failed"; "stale"])
            then _latest_import_for_download id [IMPORT_FAILED; IMPORT_STALE] db else None)
    retry_import "importing"
    (λ db, guard_or (bool_decide (dl_status d ∈ DOWNLOAD_RETRYABLE_STATUSES)) (EngineRefused (dl_status d)) ≫= λ _,
           _apply_transition id d DOWNLOAD_ENQUEUED db ≫= λ '(d', db'),
           let d' := mkDownload (mkJob (dl_status d') None) 0 (dl_priority d') (dl_manifest d') in
           prepare_download_dispatch id d' (put_download id d' db') ≫= λ db',
           Ok (dl_status d', db')) db.

(** ** Priorities, stale workers, batches *)

Definition set_priority_download (id priority : Z) db : result EngineError Db :=
  _get_download id db ≫= λ d,
  Ok (put_download id (mkDownload (dl_job d) (dl_retry_count d) priority (dl_manifest d)) db).
Definition set_priority_import (id priority : Z) db : result EngineError Db :=
  _get_import id db ≫= λ i,
  Ok (put_import id (mkImport (im_download i) (im_created_at i) (im_job i) priority (im_retry_count i)
        (im_token i) (im_attempt i)) db).

(** [detect_stale_tasks] after the heartbeat scan: rows whose heartbeat is gone
    and that are still running. *)
Definition stale_download (db : Db) (id : Z) : result EngineError Db :=
  match downloads db !! id with
  | Some d =>
      if bool_decide (dl_status d = "downloading") then
        let error := "Redis heartbeat TTL expired while download was running" in
        checked (transition_download_job (dl_job d) "stale" (Some error)) ≫= λ j,
        let d' := append_manifest_event (mkEvent "status_changed" false (Some (dl_status d)) (Some "stale"))
                    (with_dl_job j d) in
        let db := put_download id d' db in
        match tasks db !! (true, id) with
        | None => ensure_download_task id d' db
        | Some _ => update_subject (true, id)
            (mkUpdate (Some "stale") (Some (Some error)) (Some "yielded") (Some None) None None) db
        end
      else Ok db
  | None => Ok db
  end.
Definition stale_import (db : Db) (id : Z) : result EngineError Db :=
  match imports db !! id with
  | Some i =>
      if bool_decide (im_status i = IMPORT_RUNNING) && bool_decide (is_Some (downloads db !! im_download i)) then
        let error := "Redis heartbeat TTL expired while import was running" in
        checked (transition_import_job (im_job i) IMPORT_STALE (Some error)) ≫= λ j,
        project_import_pipeline_state id (Some IMPORT_STALE) (Some error) None (Some "lost_heartbeat")
          (put_import id (with_im_job j i) db)
      else Ok db
  | None => Ok db
  end.
Definition detect_stale_tasks (missing_downloads missing_imports : list Z) db : result EngineError Db :=
  foldM stale_download db missing_downloads ≫= λ db, foldM stale_import db missing_imports.

(** [batch_by_filter]: a commit or a rollback for each task. *)
Definition batch (handler : Z → command) (ids : list Z) (db : Db) : Db * (nat * nat) :=
  foldl (λ '(db, (succeeded, failed)) id,
    match handler id db with
    | Ok (_, db') => (db', (S succeeded, failed))
    | Err _ => (db, (succeeded, S failed))
    end) (db, (0%nat, 0%nat)) ids.
