(* ===== verification/TaskPipelineFacts.v ===== *)
(** * Facts about the task pipeline

    Task updates always succeed and store the normalised status; the aggregate
    of a bounded parent; which rows a projection touches and how their status
    moves. *)

From stdpp Require Import base gmap strings list numbers.
From S2P Require Import Prelude TaskState TaskRuns Keyset TaskPipeline TaskEngine.

Open Scope string_scope.
Open Scope Z_scope.

(** ** Task updates *)

Abbreviation word s := (normalize_task_status (Some s)).

Lemma apply_status_word now u s t : t_status (apply_status now u s t) = word s.
Proof. unfold apply_status. by repeat case_match. Qed.

(** An update with a legal resource state and no attention state succeeds. *)
Lemma update_ok now u t : u_attention_state u = None →
  (∀ r, u_resource_state u = Some r → r ∈ ["running"; "waiting"; "yielded"]) →
  ∃ t', update_task now u t = Ok t' ∧
    t_status t' = match u_status u with Some s => word s | None => t_status t end.
Proof.
  intros Ha Hr. unfold update_task. rewrite Ha. destruct (u_resource_state u) as [r|].
  - rewrite (bool_decide_true _ (Hr r eq_refl)). cbn. eexists. split; [done|]. cbn.
    destruct (u_status u); [apply apply_status_word|done].
  - cbn. eexists. split; [done|]. cbn. destruct (u_status u); [apply apply_status_word|done].
Qed.

Lemma status_update_ok now s e r t :
  ∃ t', update_task now (with_reason r (status_update s e)) t = Ok t' ∧ t_status t' = word s.
Proof. by apply (update_ok now (with_reason r (status_update s e))). Qed.

(** ** Writing a task *)

(** A row with this status is stored for the subject, nothing else changes. *)
Definition task_written (s : bool * Z) (st : string) (db db' : Db) : Prop :=
  ∃ t, t_status t = word st ∧ db' = put_task s t db.

Lemma create_task_ok s st e db : ∃ db', create_task s st e db = Ok db' ∧ task_written s st db db'.
Proof.
  unfold create_task. destruct (tasks db !! s) as [t|].
  - destruct (status_update_ok (now db) st e None t) as (t' & E & Ht).
    change (with_reason None (status_update st e)) with (status_update st e) in E. rewrite E. cbn.
    eexists. split; [done|]. by exists t'.
  - eexists. split; [done|]. by exists (new_task (now db) false st e).
Qed.

Lemma update_subject_ok s st e r db : is_Some (tasks db !! s) →
  ∃ db', update_subject s (with_reason r (status_update st e)) db = Ok db' ∧ task_written s st db db'.
Proof.
  intros [t Ht]. unfold update_subject. rewrite Ht.
  destruct (status_update_ok (now db) st e r t) as (t' & E & Hs). rewrite E. cbn.
  eexists. split; [done|]. by exists t'.
Qed.

Lemma ensure_or_update_ok s st e e' r db :
  ∃ db', match tasks db !! s with
         | None => create_task s st e db
         | Some _ => update_subject s (with_reason r (status_update st e')) db
         end = Ok db' ∧ task_written s st db db'.
Proof.
  destruct (tasks db !! s) as [t|] eqn:E; [|apply create_task_ok].
  apply update_subject_ok. by rewrite E.
Qed.

(** ** The aggregate *)

Lemma settled_elem s : settled_status s = true ↔ s = "complete" ∨ s = "cancelled" ∨ s = "failed" ∨ s = "stale".
Proof.
  unfold settled_status, BOUNDED_SETTLED_STATUSES. rewrite bool_decide_eq_true, !elem_of_cons, elem_of_nil.
  naive_solver.
Qed.

Lemma existsb_status (children : list string) s : existsb (λ c, bool_decide (c = s)) children = true ↔ s ∈ children.
Proof.
  rewrite existsb_exists. setoid_rewrite bool_decide_eq_true. setoid_rewrite <-list_elem_of_In. naive_solver.
Qed.

Definition child_active (c : string) : bool := negb (settled_status c) && negb (bool_decide (c = "paused")).

Lemma aggregate_cases publication_open children :
  let s := aggregate_status publication_open children in
  let active := existsb child_active children in
  (s = "importing" ↔ publication_open = true ∨ active = true ∨ children = []) ∧
  (s = "paused" ↔ publication_open = false ∧ active = false ∧ "paused" ∈ children) ∧
  (s = "complete" ↔ publication_open = false ∧ children ≠ [] ∧ Forall (λ c, c = "complete") children).
Proof.
  intros s active.
  assert (active = false → Forall (λ c, settled_status c = true ∨ c = "paused") children) as Hq.
  { intros Ha. apply List.Forall_forall. intros c Hc. destruct (settled_status c) eqn:Es; [by left|right].
    apply dec_stable. intros Hp. enough (active = true) by congruence. apply existsb_exists. exists c.
    split; [done|]. unfold child_active. by rewrite Es, bool_decide_false. }
  assert (Forall (λ c, c = "complete") children → active = false ∧ ("paused" ∉ children) ∧ ("failed" ∉ children) ∧
          ("stale" ∉ children) ∧ ("cancelled" ∉ children) ∧ forallb settled_status children = true) as Hall.
  { intros HF. rewrite List.Forall_forall in HF. setoid_rewrite <-list_elem_of_In in HF. split_and!; try by intros H%HF.
    - apply not_true_is_false. intros (c & Hc%list_elem_of_In & E)%existsb_exists. apply HF in Hc as ->. done.
    - apply forallb_forall. intros c Hc%list_elem_of_In. by apply HF in Hc as ->. }
  unfold s, aggregate_status.
  change (existsb (λ c, negb (settled_status c) && negb (bool_decide (c = "paused"))) children) with active.
  clearbody active. pose proof (existsb_status children) as He.
  assert (∀ x, x ∈ children → children ≠ []) as Hne by (intros x Hx ->; by apply elem_of_nil in Hx).
  destruct publication_open; cbn; [clear; intuition congruence|].
  destruct active eqn:Ea; cbn.
  { assert (¬ Forall (λ c, c = "complete") children) by (intros HF; by destruct (Hall HF)).
    clear Hq Hall He Hne. intuition congruence. }
  specialize (Hq eq_refl).
  assert (∀ x, x ≠ "complete" → existsb (λ c, bool_decide (c = x)) children = true →
    children ≠ [] ∧ ¬ Forall (λ c, c = "complete") children) as Hx.
  { intros x Hx Hin%He. split; [by eapply Hne|]. rewrite List.Forall_forall. intros HF.
    apply Hx, HF. by apply list_elem_of_In. }
  destruct (existsb (λ c, bool_decide (c = "paused")) children) eqn:E1.
  { destruct (Hx "paused" ltac:(done) E1). apply He in E1. clear Hq Hall He Hne Hx. intuition congruence. }
  assert ("paused" ∉ children) as N1 by (rewrite <-He; congruence).
  destruct (existsb (λ c, bool_decide (c = "failed")) children) eqn:E2.
  { destruct (Hx "failed" ltac:(done) E2). clear Hq Hall He Hne Hx. intuition congruence. }
  destruct (existsb (λ c, bool_decide (c = "stale")) children) eqn:E3.
  { destruct (Hx "stale" ltac:(done) E3). clear Hq Hall He Hne Hx. intuition congruence. }
  destruct (existsb (λ c, bool_decide (c = "cancelled")) children) eqn:E4.
  { destruct (Hx "cancelled" ltac:(done) E4). clear Hq Hall He Hne Hx. intuition congruence. }
  assert (Forall (λ c, c = "complete") children) as HC.
  { rewrite List.Forall_forall in Hq |- *. intros c Hc. specialize (Hq c Hc). rewrite settled_elem in Hq.
    apply list_elem_of_In in Hc. apply not_true_iff_false in E2, E3, E4. rewrite He in E2, E3, E4.
    destruct_or!; subst; done. }
  destruct (Hall HC) as (_ & _ & _ & _ & _ & ->). clear Hq Hall He Hne Hx.
  case_bool_decide; cbn; intuition congruence.
Qed.

(** * What the projections and commands of the task pipeline write

    Each operation is reduced to its effect on the rows: which task rows are
    written, and how the statuses of the jobs move in the transition tables. *)

(** ** Moves in the tables *)

(** A status stays, or follows an edge of the table. *)
Definition moves (T : gmap string (gset string)) (M : gmap string string) (a b : string) : Prop :=
  a = b ∨ edge T (norm M a) b.
Abbreviation download_moves := (moves ALLOWED_DOWNLOAD_TRANSITIONS OLD_TO_NEW_DOWNLOAD).
Abbreviation import_moves := (moves ALLOWED_IMPORT_TRANSITIONS OLD_TO_NEW_IMPORT).

Lemma download_transition_moves j s e j' :
  transition_download_job j s e = Ok j' → download_moves (status j) (status j').
Proof. intros [_ [[_ ->]|(_ & He & ->)]]%download_spec; [by left|by right]. Qed.

Lemma import_transition_moves j s e j' :
  transition_import_job j s e = Ok j' → import_moves (status j) (status j').
Proof. intros [_ [[_ ->]|(_ & He & ->)]]%import_spec; [by left|by right]. Qed.

(** Old names and their new ones are shown alike. *)
Lemma word_norm (M : gmap string string) s :
  bool_decide (map_Forall (λ old new, word new = word old) M) = true → word (norm M s) = word s.
Proof.
  intros HM%bool_decide_eq_true. unfold norm, _normalize_status.
  destruct (M !! s) as [t|] eqn:E; [by apply HM|done].
Qed.
Lemma word_norm_download s : word (norm OLD_TO_NEW_DOWNLOAD s) = word s.
Proof. apply word_norm. vm_compute. reflexivity. Qed.
Lemma word_norm_import s : word (norm OLD_TO_NEW_IMPORT s) = word s.
Proof. apply word_norm. vm_compute. reflexivity. Qed.

Lemma transition_word_download j s e j' : transition_download_job j s e = Ok j' → word (status j') = word s.
Proof.
  intros [_ [[E ->]|(_ & _ & ->)]]%download_spec; [|apply word_norm_download].
  by rewrite <-(word_norm_download s), <-E, word_norm_download.
Qed.
Lemma transition_word_import j s e j' : transition_import_job j s e = Ok j' → word (status j') = word s.
Proof.
  intros [_ [[E ->]|(_ & _ & ->)]]%import_spec; [|apply word_norm_import].
  by rewrite <-(word_norm_import s), <-E, word_norm_import.
Qed.

Lemma checked_ok {A} (r : result InvalidTaskTransition A) a : checked r = Ok a → r = Ok a.
Proof. by destruct r; intros [= ->]. Qed.

(** ** The parent of a projection *)

Definition bounded (d : DownloadJob) : bool := mf_disk_import_recovery (dl_manifest d).

(** Same kind of parent, and an ordinary one moves in the table. *)
Definition parent_moves (d d' : DownloadJob) : Prop :=
  bounded d' = bounded d ∧ (bounded d = false → download_moves (dl_status d) (dl_status d')).

Lemma parent_moves_refl d : parent_moves d d.
Proof. by split; [|left]. Qed.

Lemma aggregate_apply_bounded c e err d : bounded (_apply_bounded_parent_aggregate c e err d) = bounded d.
Proof. unfold _apply_bounded_parent_aggregate. by repeat case_match. Qed.

Lemma project_parent_moves import_id parent st error outcome d db d' :
  project_parent import_id parent st error outcome d db = Ok d' → parent_moves d d'.
Proof.
  unfold project_parent. fold (bounded d). destruct (bounded d) eqn:Hb.
  - intros [= <-]. split; [by rewrite aggregate_apply_bounded|by rewrite Hb].
  - destruct (assoc st IMPORT_PARENT_STATUS) as [target|]; [|intros [= <-]; apply parent_moves_refl].
    case_test.
    + case_test; [intros [= <-]; apply parent_moves_refl|].
      intros (j & Hj%checked_ok & [= <-])%result_bind_ok. split; [done|intros _]. cbn.
      by eapply download_transition_moves.
    + destruct error; [case_test|]; intros [= <-]; try apply parent_moves_refl. by split; [|left].
Qed.

(** The parent only depends on the import rows. *)
Lemma project_parent_imports import_id parent st error outcome d db db' : imports db' = imports db →
  project_parent import_id parent st error outcome d db' = project_parent import_id parent st error outcome d db.
Proof.
  intros E. unfold project_parent, _bounded_parent_completion, children_of. by rewrite E.
Qed.

(** ** The effect of a projection *)

Lemma put_task_twice s t t' db : put_task s t' (put_task s t db) = put_task s t' db.
Proof. unfold put_task, set_tasks. cbn. by rewrite insert_insert_eq. Qed.

Lemma child_task_ok import_id i st error reason db :
  ∃ db', (match tasks db !! (false, import_id) with
          | Some _ => Ok db
          | None => ensure_import_task import_id i db
          end ≫= λ db1, update_subject (false, import_id) (with_reason reason (status_update st error)) db1) = Ok db' ∧
    task_written (false, import_id) st db db'.
Proof.
  destruct (tasks db !! (false, import_id)) as [t|] eqn:Et; cbn [mbind result_bind].
  - by apply update_subject_ok; rewrite Et.
  - destruct (create_task_ok (false, import_id) (im_status i) (error_log (im_job i)) db) as (db1 & E & t & _ & ->).
    unfold ensure_import_task. rewrite E.
    destruct (update_subject_ok (false, import_id) st error reason (put_task (false, import_id) t db))
      as (db' & E' & t' & Ht' & ->); [by cbn; rewrite lookup_insert_eq|].
    eexists. split; [exact E'|]. exists t'. split; [done|]. by rewrite put_task_twice.
Qed.

(** What [project_import_pipeline_state] does: it fails exactly when the parent
    cannot move, and otherwise writes the two task rows and the parent. *)
Lemma project_effect import_id st error outcome reason db i d :
  imports db !! import_id = Some i → downloads db !! im_download i = Some d →
  match project_parent import_id (im_download i) st error outcome d db with
  | Err e => project_import_pipeline_state import_id (Some st) error outcome reason db = Err e
  | Ok d' => ∃ t1 t2, t_status t1 = word st ∧ t_status t2 = word (dl_status d') ∧
      project_import_pipeline_state import_id (Some st) error outcome reason db =
        Ok (put_task (true, im_download i) t2 (put_download (im_download i) d' (put_task (false, import_id) t1 db)))
  end.
Proof.
  intros Hi Hd. unfold project_import_pipeline_state. rewrite Hi. cbn [from_option id]. rewrite Hd.
  destruct (child_task_ok import_id i st error reason db) as (db1 & E & t1 & Ht1 & ->).
  destruct (match tasks db !! (false, import_id) with Some _ => _ | None => _ end) as [db0|e0] eqn:E0;
    cbn [mbind result_bind] in *; [|done].
  rewrite E. cbn [mbind result_bind].
  rewrite (project_parent_imports _ _ _ _ _ _ db (put_task (false, import_id) t1 db)) by done.
  destruct (project_parent _ _ _ _ _ _ _) as [d'|e]; cbn [mbind result_bind]; [|done].
  unfold ensure_download_task.
  destruct (ensure_or_update_ok (true, im_download i) (dl_status d') (error_log (dl_job d'))
    (if failing (dl_status d') then error else None) (if failing (dl_status d') then reason else None)
    (put_download (im_download i) d' (put_task (false, import_id) t1 db))) as (db' & E' & t2 & Ht2 & ->).
  exists t1, t2. split; [done|]. split; [done|]. rewrite <-E'. by destruct (tasks _ !! _).
Qed.

Lemma project_orphan import_id st error outcome reason db i :
  imports db !! import_id = Some i → downloads db !! im_download i = None →
  project_import_pipeline_state import_id (Some st) error outcome reason db = Ok db.
Proof. intros Hi Hd. unfold project_import_pipeline_state. by rewrite Hi, Hd. Qed.
