(* ===== verification/TaskPipelineSteps.v ===== *)
(** * The task pipeline as a transition system

    Every way the pipeline's rows change, the invariant that task runs show the
    state of their jobs, and the conformity of all status changes with the
    transition tables. *)

From stdpp Require Import base gmap strings list numbers.
From S2P Require Import Prelude TaskState TaskRuns Keyset TaskPipeline TaskEngine TaskPipelineFacts.

Open Scope string_scope.
Open Scope Z_scope.

(** ** Steps *)

Definition commands : list (Z → command) :=
  [pause_import; resume_import; cancel_import; retry_import;
   pause_download; resume_download; cancel_download; retry_download].

Inductive pipeline_step (db : Db) : Db → Prop :=
| step_command f id s db' : f ∈ commands → f id db = Ok (s, db') → pipeline_step db db'
| step_claim id token db' : _claim_import_execution id token db = Ok (Some db') → pipeline_step db db'
| step_release id token : pipeline_step db (_release_import_execution id token db)
| step_complete id token st message stats total db' :
    _complete_import_execution id token st message stats total db = Ok db' → pipeline_step db db'
| step_stale_download id db' : stale_download db id = Ok db' → pipeline_step db db'
| step_stale_import id db' : stale_import db id = Ok db' → pipeline_step db db'
| step_priority_download id p db' : set_priority_download id p db = Ok db' → pipeline_step db db'
| step_priority_import id p db' : set_priority_import id p db = Ok db' → pipeline_step db db'
| step_new_download id d : downloads db !! id = None → tasks db !! (true, id) = None →
    pipeline_step db (put_download id d db)
| step_new_import id i : imports db !! id = None → tasks db !! (false, id) = None →
    is_Some (downloads db !! im_download i) → pipeline_step db (put_import id i db)
| step_time t ls : pipeline_step db (mkDb t (downloads db) (imports db) (tasks db) ls (controls db)).

Definition empty_db : Db := mkDb 0 ∅ ∅ ∅ ∅ [].

Inductive reachable_db : Db → Prop :=
| reachable_empty : reachable_db empty_db
| reachable_more db db' : reachable_db db → pipeline_step db db' → reachable_db db'.

(** ** Task runs show their jobs *)

Record mirrored (db : Db) : Prop := {
  mr_downloads : ∀ id d t, downloads db !! id = Some d → tasks db !! (true, id) = Some t →
    t_status t = word (dl_status d);
  mr_imports : ∀ id i t, imports db !! id = Some i → tasks db !! (false, id) = Some t →
    t_status t = word (im_status i);
  mr_parents : ∀ id i, imports db !! id = Some i → is_Some (downloads db !! im_download i) }.

(** ** Moves of a whole step *)

Record respects (db db' : Db) : Prop := {
  rs_imports : ∀ id i i', imports db !! id = Some i → imports db' !! id = Some i' →
    import_moves (im_status i) (im_status i') ∧ im_download i' = im_download i;
  rs_downloads : ∀ id d d', downloads db !! id = Some d → downloads db' !! id = Some d' → parent_moves d d';
  rs_kept : ∀ id, is_Some (imports db !! id) → is_Some (imports db' !! id) }.

(** A step that does both. *)
Definition good (db db' : Db) : Prop := mirrored db → mirrored db' ∧ respects db db'.

Lemma respects_same db db' : imports db' = imports db → downloads db' = downloads db → respects db db'.
Proof.
  intros E1 E2. split; [intros id x x'..|]; rewrite ?E1, ?E2; [intros H1 H2; rewrite H1 in H2; injection H2 as <-..|done].
  - by split; [left|].
  - apply parent_moves_refl.
Qed.

(** Nothing but tasks, time, leases or controls. *)
Lemma mirrored_same db db' : imports db' = imports db → downloads db' = downloads db →
  tasks db' = tasks db → mirrored db → mirrored db'.
Proof. intros E1 E2 E3 [H1 H2 H3]. split; rewrite ?E1, ?E2, ?E3; done. Qed.

(** ** Writing rows *)

Lemma put_task_import_mirrored id i t db : mirrored db → imports db !! id = Some i →
  t_status t = word (im_status i) → mirrored (put_task (false, id) t db).
Proof.
  intros [H1 H2 H3] Hi Ht. split; cbn; try done.
  - intros id' d t' Hd. rewrite lookup_insert_ne by done. by apply H1.
  - intros id' i' t' Hi' [[[= <-] <-]|[_ ?]]%lookup_insert_Some; [|by eapply H2].
    rewrite Hi in Hi'. by injection Hi' as <-.
Qed.

Lemma put_task_download_mirrored id d t db : mirrored db → downloads db !! id = Some d →
  t_status t = word (dl_status d) → mirrored (put_task (true, id) t db).
Proof.
  intros [H1 H2 H3] Hd Ht. split; cbn; try done.
  - intros id' d' t' Hd' [[[= <-] <-]|[_ ?]]%lookup_insert_Some; [|by eapply H1].
    rewrite Hd in Hd'. by injection Hd' as <-.
  - intros id' i t' Hi. rewrite lookup_insert_ne by done. by apply H2.
Qed.

(** A parent and its task together. *)
Lemma put_parent_mirrored id d d' t db : mirrored db → downloads db !! id = Some d →
  t_status t = word (dl_status d') → mirrored (put_task (true, id) t (put_download id d' db)).
Proof.
  intros [H1 H2 H3] Hd Ht. split; cbn.
  - intros id' d'' t' [[<- <-]|[Hne Hd']]%lookup_insert_Some.
    + rewrite lookup_insert_eq. by intros [= <-].
    + rewrite lookup_insert_ne by congruence. by apply H1.
  - intros id' i t' Hi. rewrite lookup_insert_ne by done. by apply H2.
  - intros id' i Hi. rewrite lookup_insert_is_Some'. right. by eapply H3.
Qed.

(** The same without a task, when the shown status stays. *)
Lemma put_download_mirrored id d d' db : mirrored db → downloads db !! id = Some d →
  word (dl_status d') = word (dl_status d) → mirrored (put_download id d' db).
Proof.
  intros [H1 H2 H3] Hd Hw. split; cbn; try done.
  - intros id' d'' t' [[<- <-]|[Hne Hd']]%lookup_insert_Some Ht; [|by eapply H1].
    rewrite Hw. by eapply H1.
  - intros id' i Hi. rewrite lookup_insert_is_Some'. right. by eapply H3.
Qed.

Lemma put_import_mirrored id i i' db : mirrored db → imports db !! id = Some i →
  im_download i' = im_download i → word (im_status i') = word (im_status i) → mirrored (put_import id i' db).
Proof.
  intros [H1 H2 H3] Hi Hd Hw. split; cbn; try done.
  - intros id' i'' t' [[<- <-]|[Hne Hi']]%lookup_insert_Some Ht; [|by eapply H2].
    rewrite Hw. by eapply H2.
  - intros id' i'' [[<- <-]|[Hne Hi']]%lookup_insert_Some; [|by eapply H3]. rewrite Hd. by eapply H3.
Qed.

(** An import and its task together, or without a task. *)
Lemma put_import_task_mirrored id i i' t db : mirrored db → imports db !! id = Some i →
  im_download i' = im_download i → t_status t = word (im_status i') →
  mirrored (put_task (false, id) t (put_import id i' db)).
Proof.
  intros [H1 H2 H3] Hi Hd Ht. split; cbn.
  - intros id' d t' Hd'. rewrite lookup_insert_ne by done. by apply H1.
  - intros id' x t' [[<- <-]|[Hne Hx]]%lookup_insert_Some.
    + rewrite lookup_insert_eq. by intros [= <-].
    + rewrite lookup_insert_ne by congruence. by apply H2.
  - intros id' x [[<- <-]|[Hne Hx]]%lookup_insert_Some; [rewrite Hd|]; by eapply H3.
Qed.

Lemma put_import_untasked_mirrored id i i' db : mirrored db → imports db !! id = Some i →
  im_download i' = im_download i → tasks db !! (false, id) = None → mirrored (put_import id i' db).
Proof.
  intros [H1 H2 H3] Hi Hd Ht. split; cbn; try done.
  - intros id' x t' [[<- <-]|[Hne Hx]]%lookup_insert_Some; [by rewrite Ht|by apply H2].
  - intros id' x [[<- <-]|[Hne Hx]]%lookup_insert_Some; [rewrite Hd|]; by eapply H3.
Qed.

(** ** The projection of an import *)

(** An import takes a new status and is projected. *)
Lemma project_good id i i' st error outcome reason db db' :
  imports db !! id = Some i → im_download i' = im_download i → im_status i' = st →
  import_moves (im_status i) st → mirrored db →
  project_import_pipeline_state id (Some st) error outcome reason (put_import id i' db) = Ok db' →
  mirrored db' ∧ respects db db' ∧ imports db' !! id = Some i' ∧
  ∃ d d', downloads db !! im_download i = Some d ∧ downloads db' !! im_download i = Some d' ∧
    project_parent id (im_download i) st error outcome d (put_import id i' db) = Ok d' ∧
    is_Some (tasks db' !! (false, id)).
Proof.
  intros Hi Hdl Hst Hmv Hm Hp. pose proof Hm as [H1 H2 H3].
  destruct (H3 id i Hi) as [d Hd]. set (db0 := put_import id i' db) in *.
  assert (imports db0 !! id = Some i') as Hi0 by (cbn; by rewrite lookup_insert_eq).
  pose proof (project_effect id st error outcome reason db0 i' d Hi0) as He. rewrite Hdl in He.
  specialize (He Hd). destruct (project_parent _ _ _ _ _ _ _) as [d'|e] eqn:Epp; [|congruence].
  destruct He as (t1 & t2 & Ht1 & Ht2 & E). rewrite E in Hp. injection Hp as <-.
  assert (mirrored (put_task (false, id) t1 db0)) as Hm1
    by (eapply put_import_task_mirrored; [done..|]; by rewrite Ht1, Hst).
  split_and!.
  - by eapply put_parent_mirrored.
  - unfold db0. split; cbn.
    + intros id' x x' Hx [[<- <-]|[Hne Hx']]%lookup_insert_Some.
      * rewrite Hi in Hx. injection Hx as <-. by rewrite Hst.
      * rewrite Hx in Hx'. injection Hx' as <-. by split; [left|].
    + intros id' x x' Hx [[<- <-]|[Hne Hx']]%lookup_insert_Some.
      * rewrite Hd in Hx. injection Hx as <-. by eapply project_parent_moves.
      * cbn in Hx'. rewrite Hx in Hx'. injection Hx' as <-. apply parent_moves_refl.
    + intros id' Hx. rewrite lookup_insert_is_Some'. by right.
  - done.
  - exists d, d'. split; [done|]. split; [cbn; by rewrite lookup_insert_eq|]. split; [done|].
    cbn. rewrite lookup_insert_ne by done. by rewrite lookup_insert_eq.
Qed.

(** ** Preparing a publication *)

Lemma alter_put_task s t db : tasks db !! s = Some t →
  set_tasks (alter next_attempt s (tasks db)) db = put_task s (next_attempt t) db.
Proof.
  intros Ht. unfold put_task. f_equal. apply map_eq. intros k. destruct (base.decide (k = s)) as [->|Hk].
  - by rewrite lookup_alter_eq, lookup_insert_eq, Ht.
  - by rewrite lookup_alter_ne, lookup_insert_ne.
Qed.

(** Ensuring the task, counting the attempt, showing it enqueued. *)
Lemma enqueue_task_ok s st e e' db :
  ∃ t, (match tasks db !! s with None => create_task s st e db | Some _ => Ok db end ≫= λ db,
        update_subject s (status_update "enqueued" e') (set_tasks (alter next_attempt s (tasks db)) db)) =
       Ok (put_task s t db) ∧ t_status t = word "enqueued".
Proof.
  assert (∀ db0 t0, tasks db0 !! s = Some t0 → (∀ t, put_task s t db0 = put_task s t db) →
    ∃ t, update_subject s (status_update "enqueued" e') (set_tasks (alter next_attempt s (tasks db0)) db0) =
         Ok (put_task s t db) ∧ t_status t = word "enqueued") as Hone.
  { intros db0 t0 Ht0 Hput. rewrite (alter_put_task s t0 db0 Ht0).
    destruct (update_subject_ok s "enqueued" e' None (put_task s (next_attempt t0) db0)) as (db' & E & t & Ht & ->);
      [by cbn; rewrite lookup_insert_eq|].
    exists t. split; [|done]. rewrite put_task_twice in E. rewrite <-Hput. exact E. }
  destruct (tasks db !! s) as [t0|] eqn:E0; cbn [mbind result_bind]; [by eapply Hone|].
  destruct (create_task_ok s st e db) as (db1 & E & t & _ & ->). rewrite E. cbn [mbind result_bind].
  eapply Hone; [by cbn; rewrite lookup_insert_eq|]. intros t'. apply put_task_twice.
Qed.

Lemma prepare_import_good id i db : imports db !! id = Some i → im_status i = "enqueued" → mirrored db →
  ∃ db', prepare_import_dispatch id i db = Ok db' ∧ mirrored db' ∧
    imports db' = imports db ∧ downloads db' = downloads db.
Proof.
  intros Hi Hst Hm. unfold prepare_import_dispatch, ensure_import_task.
  destruct (enqueue_task_ok (false, id) (im_status i) (error_log (im_job i)) (error_log (im_job i)) db) as (t & E & Ht).
  exists (put_task (false, id) t db). split; [exact E|]. split; [|done].
  eapply put_task_import_mirrored; [done..|]. by rewrite Hst.
Qed.

Lemma prepare_download_good id d db : downloads db !! id = Some d → dl_status d = "enqueued" → mirrored db →
  ∃ d' db', prepare_download_dispatch id d db = Ok db' ∧ mirrored db' ∧ imports db' = imports db ∧
    downloads db' = <[id := d']> (downloads db) ∧ dl_job d' = dl_job d ∧ bounded d' = bounded d.
Proof.
  intros Hd Hst Hm. unfold prepare_download_dispatch, ensure_download_task.
  destruct (enqueue_task_ok (true, id) (dl_status d) (error_log (dl_job d)) None db) as (t & E & Ht).
  eexists (append_manifest_event (mkEvent "enqueue_prepared" false None None) d), _. split.
  - apply result_bind_ok in E as (db0 & E0 & E1). rewrite E0. cbn [mbind result_bind]. rewrite E1. done.
  - split; [|done]. eapply (put_download_mirrored _ d); [|done|done].
    eapply put_task_download_mirrored; [done..|]. by rewrite Hst.
Qed.

(** ** Commands on imports *)

Lemma send_control_good k id a db db' : mirrored db' ∧ respects db db' →
  mirrored (send_control k id a db') ∧ respects db (send_control k id a db').
Proof. intros [Hm [H1 H2 H3]]. split; [by apply (mirrored_same db')|]. by split. Qed.

(** The tables have the edges the commands take. *)
Lemma edges_from (X : gset string) t :
  forallb (λ s, bool_decide (edge ALLOWED_IMPORT_TRANSITIONS (norm OLD_TO_NEW_IMPORT s) t)) (elements X) = true →
  ∀ s, s ∈ X → import_moves s t.
Proof. intros H s Hs. right. apply (bool_decide_eq_true (edge _ _ _)). by apply (set_check X _ H). Qed.

Lemma pause_edge s : s ∈ IMPORT_PAUSABLE_STATUSES → import_moves s "paused".
Proof. apply edges_from. vm_compute. reflexivity. Qed.
Lemma cancel_edge s : s ∈ IMPORT_CANCELLABLE_STATUSES → import_moves s "cancelled".
Proof. apply edges_from. vm_compute. reflexivity. Qed.

(** ** What the policy grants *)

Lemma granted a p : a ∈ ACTIONS → (a ∈ available_actions (capabilities p) ↔ a ∈ p.1).
Proof.
  intros Ha. unfold capabilities. cbn [available_actions]. rewrite list_elem_of_In, List.filter_In, bool_decide_eq_true, <-list_elem_of_In. naive_solver.
Qed.

Lemma elem_allow x b a (q : policy) : x ∈ (when b (allow a) q).1 ↔ (b = true ∧ x = a) ∨ x ∈ q.1.
Proof. destruct b; cbn; [rewrite elem_of_union, elem_of_singleton|]; naive_solver. Qed.
Lemma elem_because x b a r (q : policy) : x ∈ (when b (because a r) q).1 ↔ x ∈ q.1.
Proof. by destruct b. Qed.
Lemma elem_discard x b a r (q : policy) : x ∈ (when b (discard a r) q).1 ↔ x ∈ q.1 ∧ ¬ (b = true ∧ x = a).
Proof. destruct b; cbn; [rewrite elem_of_difference, elem_of_singleton|]; naive_solver. Qed.

(** The conditions of the policy for each command. *)
Lemma decide_job_grants kind st events task active_child leased repeat_member :
  let dl := bool_decide (kind = Download) in
  let p := decide_job kind st events task active_child leased repeat_member in
  ("pause" ∈ p.1 ↔ st ∈ (if dl then DOWNLOAD_PAUSABLE_STATUSES else IMPORT_PAUSABLE_STATUSES)) ∧
  ("resume" ∈ p.1 ↔ st = "paused") ∧
  ("cancel" ∈ p.1 ↔ st ∈ (if dl then DOWNLOAD_CANCELLABLE_STATUSES else IMPORT_CANCELLABLE_STATUSES)) ∧
  ("retry" ∈ p.1 ↔ (st = "failed" ∨ st = "stale") ∧ leased = false ∧ active_child = false ∧
     (dl = true → open_conflict events = false) ∧ evidence_problem (task ≫= t_reason) = false).
Proof.
  intros dl p. unfold p, decide_job. fold dl. clear p.
  set (P := if dl then DOWNLOAD_PAUSABLE_STATUSES else IMPORT_PAUSABLE_STATUSES).
  set (C := if dl then DOWNLOAD_CANCELLABLE_STATUSES else IMPORT_CANCELLABLE_STATUSES).
  set (deletable := bool_decide (st ∈ TERMINAL) && _ && _). clearbody P C deletable dl.
  assert (∀ x (q : policy) r, x ≠ "delete" →
    x ∈ (if deletable then allow "delete" q else because "delete" r q).1 ↔ x ∈ q.1) as Hdel.
  { intros x q r Hx. destruct deletable; cbn; [rewrite elem_of_union, elem_of_singleton|]; naive_solver. }
  assert (∀ x b (q : policy), x ≠ "repeat_sync" →
    x ∈ (when b (if repeat_member then allow "repeat_sync" else because "repeat_sync" "membership_unavailable") q).1
    ↔ x ∈ q.1) as Hrep.
  { intros x b q Hx. destruct repeat_member; rewrite ?elem_allow, ?elem_because; naive_solver. }
  assert (st ∈ ["failed"; "stale"] ↔ st = "failed" ∨ st = "stale") as Hfs
    by (rewrite !elem_of_cons, elem_of_nil; naive_solver).
  split_and!; rewrite elem_allow, !elem_discard, Hdel, !elem_allow, Hrep, elem_because, elem_allow by done;
    cbn [fst]; rewrite elem_of_empty, ?bool_decide_eq_true, ?Hfs; clear.
  1-3: intuition discriminate.
  destruct leased, active_child, dl, (open_conflict events), (evidence_problem _); cbn; intuition discriminate.
Qed.
