(* ===== verification/TaskCommands.v ===== *)
(** * Commands and workers keep the pipeline in order

    Every step of [TaskPipelineSteps] keeps the mirror of task runs and moves
    statuses along the tables; a granted command on a download succeeds. *)

From stdpp Require Import base gmap strings list numbers.
From S2P Require Import Prelude TaskState TaskRuns Keyset TaskPipeline TaskEngine TaskPipelineFacts TaskPipelineSteps.

Open Scope string_scope.
Open Scope Z_scope.

(** Membership in a list of literals. *)
Ltac in_list := match goal with |- ?x ∈ ?l => apply (proj1 (bool_decide_eq_true (x ∈ l))); vm_compute; reflexivity end.

(** ** Commands on imports *)

Lemma get_import_ok id db i : _get_import id db = Ok i ↔ imports db !! id = Some i.
Proof. unfold _get_import. destruct (imports db !! id); naive_solver. Qed.
Lemma get_download_ok id db d : _get_download id db = Ok d ↔ downloads db !! id = Some d.
Proof. unfold _get_download. destruct (downloads db !! id); naive_solver. Qed.

Definition import_leased (i : ImportJob) (db : Db) : bool :=
  bool_decide (im_download i ∈ leases db) || bool_decide (im_token i ≠ None).

Lemma require_import_ok id i a db : a ∈ ACTIONS →
  require_import id i a db = Ok tt ↔
  a ∈ (decide_job Import (im_status i) [] (tasks db !! (false, id)) false (import_leased i db) false).1.
Proof. intros Ha. unfold require_import. by rewrite guard_or_ok, bool_decide_eq_true, <-granted. Qed.

Lemma retry_moves s : s = "failed" ∨ s = "stale" → import_moves s "enqueued".
Proof. intros [-> | ->]; right; by vm_compute. Qed.

(** An import that is enqueued again: projected, then prepared. *)
Lemma requeue_good id i i' db db' :
  imports db !! id = Some i → im_download i' = im_download i → im_status i' = "enqueued" →
  import_moves (im_status i) "enqueued" → mirrored db →
  (project_import_pipeline_state id (Some IMPORT_ENQUEUED) None None None (put_import id i' db) ≫= λ db,
   prepare_import_dispatch id i' db) = Ok db' → mirrored db' ∧ respects db db'.
Proof.
  intros Hi Hd Hs Hmv Hm (db1 & Hp & Hq)%result_bind_ok.
  destruct (project_good id i i' _ _ _ _ db db1 Hi Hd Hs Hmv Hm Hp) as (Hm1 & [R1 R2 R3] & Hi1 & _).
  destruct (prepare_import_good id i' db1 Hi1 Hs Hm1) as (db2 & E & Hm2 & E1 & E2).
  rewrite E in Hq. injection Hq as <-. split; [done|]. split; rewrite ?E1, ?E2; done.
Qed.

(** An import that takes a status and is projected. *)
Lemma set_status_good id i st db db' : imports db !! id = Some i → import_moves (im_status i) st → mirrored db →
  project_import_pipeline_state id (Some st) None None None
    (put_import id (with_im_job (set_status st (im_job i)) i) db) = Ok db' → mirrored db' ∧ respects db db'.
Proof.
  intros Hi Hmv Hm Hp.
  by destruct (project_good id i (with_im_job (set_status st (im_job i)) i) st None None None db db') as (? & ? & _).
Qed.

Lemma pause_import_good id db s db' : mirrored db → pause_import id db = Ok (s, db') → mirrored db' ∧ respects db db'.
Proof.
  intros Hm (i & Hi%get_import_ok & (u & _ & (u' & Hst%guard_or_ok%bool_decide_eq_true & (db1 & Hp & [= _ <-])%result_bind_ok)%result_bind_ok)%result_bind_ok)%result_bind_ok.
  apply send_control_good.
  eapply set_status_good; [done|by apply pause_edge|done|exact Hp].
Qed.

Lemma cancel_import_good id db s db' : mirrored db → cancel_import id db = Ok (s, db') → mirrored db' ∧ respects db db'.
Proof.
  intros Hm (i & Hi%get_import_ok & (u & _ & (u' & Hst%guard_or_ok%bool_decide_eq_true & (db1 & Hp & [= _ <-])%result_bind_ok)%result_bind_ok)%result_bind_ok)%result_bind_ok.
  apply send_control_good.
  eapply set_status_good; [done|by apply cancel_edge|done|exact Hp].
Qed.

Lemma resume_import_good id db s db' : mirrored db → resume_import id db = Ok (s, db') → mirrored db' ∧ respects db db'.
Proof.
  intros Hm (i & Hi%get_import_ok & (u & _ & (u' & Hst%guard_or_ok%bool_decide_eq_true & (db1 & Hp & (db2 & Hq & [= _ <-])%result_bind_ok)%result_bind_ok)%result_bind_ok)%result_bind_ok)%result_bind_ok.
  eapply (requeue_good id i (with_im_job (set_status IMPORT_ENQUEUED (im_job i)) i)); try done.
  - rewrite Hst. right. by vm_compute.
  - rewrite Hp. exact Hq.
Qed.

Lemma retry_import_good id db s db' : mirrored db → retry_import id db = Ok (s, db') → mirrored db' ∧ respects db db'.
Proof.
  intros Hm (i & Hi%get_import_ok & ([] & Hr & (u' & _ & (db1 & Hp & (db2 & Hq & [= _ <-])%result_bind_ok)%result_bind_ok)%result_bind_ok)%result_bind_ok)%result_bind_ok.
  apply require_import_ok in Hr; [|in_list].
  apply decide_job_grants in Hr as (Hst & _).
  set (i' := mkImport _ _ _ _ _ _ _) in *.
  apply (requeue_good id i i'); try done; [by apply retry_moves|]. rewrite Hp. exact Hq.
Qed.

(** ** Commands on downloads *)

Lemma apply_transition_good id d target db d' db' : mirrored db → downloads db !! id = Some d →
  _apply_transition id d target db = Ok (d', db') →
  mirrored db' ∧ imports db' = imports db ∧ downloads db' = <[id := d']> (downloads db) ∧
  ∃ j, transition_download_job (dl_job d) target None = Ok j ∧ d' = with_dl_job j d.
Proof.
  intros Hm Hd (j & Hj%checked_ok & (db1 & E & [= <- <-])%result_bind_ok)%result_bind_ok.
  set (d' := with_dl_job j d) in *.
  assert (word target = word (dl_status d')) as Hw by (symmetry; by eapply transition_word_download).
  assert (∃ t, t_status t = word (dl_status d') ∧ db1 = put_task (true, id) t (put_download id d' db)) as (t & Ht & ->).
  { destruct (tasks (put_download id d' db) !! (true, id)) as [t0|] eqn:E0.
    - destruct (update_subject_ok (true, id) target (error_log (dl_job d')) None (put_download id d' db))
        as (db2 & E2 & t & Ht & ->); [by rewrite E0|].
      change (with_reason None ?u) with u in E2. rewrite E in E2. injection E2 as ->. exists t.
      by rewrite Ht, Hw.
    - unfold ensure_download_task in E.
      destruct (create_task_ok (true, id) (dl_status d') (error_log (dl_job d')) (put_download id d' db))
        as (db2 & E2 & t & Ht & ->). rewrite E in E2. injection E2 as ->. by exists t. }
  split_and!; [by eapply put_parent_mirrored|done|done|]. by exists j.
Qed.

Lemma replaced_respects id d d' db db' : downloads db !! id = Some d → imports db' = imports db →
  downloads db' = <[id := d']> (downloads db) → parent_moves d d' → respects db db'.
Proof.
  intros Hd Ei Ed Hmv. split; rewrite ?Ei, ?Ed.
  - intros k i i' H1 H2. rewrite H1 in H2. injection H2 as <-. by split; [left|].
  - intros k x x' H1 [[<- <-]|[_ H2]]%lookup_insert_Some.
    + rewrite Hd in H1. by injection H1 as <-.
    + rewrite H1 in H2. injection H2 as <-. apply parent_moves_refl.
  - done.
Qed.

Lemma transition_parent_moves d j target e : transition_download_job (dl_job d) target e = Ok j →
  parent_moves d (with_dl_job j d).
Proof. intros Hj. split; [done|]. intros _. by eapply download_transition_moves. Qed.

Lemma delegate_good child f reported own db s db' :
  (∀ c s db', f c db = Ok (s, db') → mirrored db' ∧ respects db db') →
  (own db = Ok (s, db') → mirrored db' ∧ respects db db') →
  delegate child f reported own db = Ok (s, db') → mirrored db' ∧ respects db db'.
Proof.
  intros Hf Ho. unfold delegate. destruct child as [[c i]|]; [|done].
  intros ([s1 db1] & E & [= _ <-])%result_bind_ok. by eapply Hf.
Qed.

(** A transition and its control message. *)
Lemma transition_command_good id d target db s db' (g : DownloadJob → Db → string * Db) :
  mirrored db → downloads db !! id = Some d →
  (∀ d x, imports (g d x).2 = imports x ∧ downloads (g d x).2 = downloads x ∧ tasks (g d x).2 = tasks x) →
  (_apply_transition id d target db ≫= λ '(d', db'), Ok (g d' db')) = Ok (s, db') →
  mirrored db' ∧ respects db db'.
Proof.
  intros Hm Hd Hg ([d1 db1] & Ht & [= E])%result_bind_ok.
  destruct (apply_transition_good id d target db d1 db1 Hm Hd Ht) as (Hm1 & Ei & Ed & j & Hj & ->).
  destruct (Hg (with_dl_job j d) db1) as (G1 & G2 & G3). rewrite E in G1, G2, G3. cbn in *.
  split; [by apply (mirrored_same db1)|].
  eapply (replaced_respects id d (with_dl_job j d)); [done|by rewrite G1|by rewrite G2|].
  by eapply transition_parent_moves.
Qed.

(** Only two names mean enqueued. *)
Lemma enqueued_names s : norm OLD_TO_NEW_DOWNLOAD s = "enqueued" → s = "enqueued" ∨ s = "pending".
Proof.
  assert (map_Forall (λ old new, new = "enqueued" → old = "pending") OLD_TO_NEW_DOWNLOAD) as HM
    by (apply (proj1 (bool_decide_eq_true (map_Forall _ _))); vm_compute; reflexivity).
  unfold norm, _normalize_status. destruct (OLD_TO_NEW_DOWNLOAD !! s) as [t|] eqn:E; cbn; [|by left].
  intros ->. right. by eapply HM.
Qed.

Lemma transition_enqueued j e j' : status j ≠ "pending" → transition_download_job j "enqueued" e = Ok j' →
  status j' = "enqueued".
Proof.
  intros Hp [_ [[E ->]|(_ & _ & ->)]]%download_spec; [|by vm_compute].
  change (norm OLD_TO_NEW_DOWNLOAD "enqueued") with "enqueued" in E. by apply enqueued_names in E as [?|?].
Qed.

(** A transition to enqueued, a possible reset, and the prepared publication. *)
Lemma requeue_download_good id d d2 db s db' d1 db1 :
  mirrored db → downloads db !! id = Some d → dl_status d ≠ "pending" →
  _apply_transition id d DOWNLOAD_ENQUEUED db = Ok (d1, db1) →
  dl_status d2 = dl_status d1 → bounded d2 = bounded d1 →
  (prepare_download_dispatch id d2 (put_download id d2 db1) ≫= λ db', Ok (dl_status d2, db')) = Ok (s, db') →
  mirrored db' ∧ respects db db'.
Proof.
  intros Hm Hd Hst Ht Hs2 Hb2 (db2 & Hp & [= _ <-])%result_bind_ok.
  destruct (apply_transition_good id d _ db d1 db1 Hm Hd Ht) as (Hm1 & Ei & Ed & j & Hj & ->).
  cbn in Hs2. pose proof (transition_enqueued _ _ _ Hst Hj) as Hje. rewrite Hje in Hs2.
  assert (downloads db1 !! id = Some (with_dl_job j d)) as Hd1 by (rewrite Ed; by rewrite lookup_insert_eq).
  assert (mirrored (put_download id d2 db1)) as Hm2.
  { eapply put_download_mirrored; [done..|]. cbn. by rewrite Hs2, Hje. }
  destruct (prepare_download_good id d2 (put_download id d2 db1)) as (d3 & db3 & E & Hm3 & Ei3 & Ed3 & Ej3 & Eb3);
    [cbn; by rewrite lookup_insert_eq|done|done|].
  rewrite E in Hp. injection Hp as <-. split; [done|].
  eapply (replaced_respects id d d3); [done|by rewrite Ei3; cbn; rewrite Ei| |].
  - rewrite Ed3. cbn. rewrite Ed, !insert_insert_eq. done.
  - destruct (transition_parent_moves d j _ _ Hj) as [Hb Hmv]. split; [by rewrite Eb3, Hb2, Hb|].
    intros Hd0. rewrite Ej3, Hs2, <-Hje. by apply Hmv.
Qed.

Lemma put_download_same id d db : downloads db !! id = Some d → put_download id d db = db.
Proof. intros Hd. unfold put_download, set_downloads. rewrite insert_id by done. by destruct db. Qed.

(** Peel off the guards of a command. *)
Ltac command_inv H :=
  unfold pause_download, resume_download, cancel_download, retry_download in H; cbv beta in H;
  let d := fresh "d" in
  apply result_bind_ok in H as (d & ?Hd%get_download_ok & H);
  apply result_bind_ok in H as ([] & ?Hreq & H).

Lemma pause_download_good id db s db' : mirrored db → pause_download id db = Ok (s, db') → mirrored db' ∧ respects db db'.
Proof.
  intros Hm H. command_inv H. revert H. apply delegate_good; [intros c s1 db1; by apply pause_import_good|].
  intros (u & _ & H)%result_bind_ok.
  by eapply (transition_command_good id d _ db s db' (λ d x, (dl_status d, send_control Download id "pause" x))).
Qed.

Lemma cancel_download_good id db s db' : mirrored db → cancel_download id db = Ok (s, db') → mirrored db' ∧ respects db db'.
Proof.
  intros Hm H. command_inv H. revert H. apply delegate_good; [intros c s1 db1; by apply cancel_import_good|].
  intros (u & _ & H)%result_bind_ok.
  by eapply (transition_command_good id d _ db s db' (λ d x, (dl_status d, send_control Download id "cancel" x))).
Qed.

Lemma resume_download_good id db s db' : mirrored db → resume_download id db = Ok (s, db') → mirrored db' ∧ respects db db'.
Proof.
  intros Hm H. command_inv H. revert H. apply delegate_good; [intros c s1 db1; by apply resume_import_good|].
  intros (u & Hst%guard_or_ok%bool_decide_eq_true & ([d1 db1] & Ht & H)%result_bind_ok)%result_bind_ok.
  destruct (apply_transition_good id d _ db d1 db1 Hm Hd Ht) as (_ & _ & Ed & _).
  eapply (requeue_download_good id d d1); [done|done|by rewrite Hst|done..|].
  rewrite put_download_same; [exact H|]. rewrite Ed. by rewrite lookup_insert_eq.
Qed.

Lemma retry_download_good id db s db' : mirrored db → retry_download id db = Ok (s, db') → mirrored db' ∧ respects db db'.
Proof.
  intros Hm H. command_inv H. apply result_bind_ok in H as (u0 & _ & H). revert H.
  apply delegate_good; [intros c s1 db1; by apply retry_import_good|].
  intros (u & Hst%guard_or_ok%bool_decide_eq_true & ([d1 db1] & Ht & H)%result_bind_ok)%result_bind_ok.
  eapply (requeue_download_good id d (mkDownload (mkJob (dl_status d1) None) 0 (dl_priority d1) (dl_manifest d1)));
    [done|done| |done..|exact H].
  intros Hp. rewrite Hp in Hst. by vm_compute in Hst.
Qed.

(** ** Workers *)

Lemma claim_good id token db db' : mirrored db → _claim_import_execution id token db = Ok (Some db') →
  mirrored db' ∧ respects db db'.
Proof.
  intros Hm. unfold _claim_import_execution. destruct (imports db !! id) as [i|] eqn:Hi; [|done].
  case_test; [|done]. intros (j & Hj%checked_ok & (db1 & Hp & [= <-])%result_bind_ok)%result_bind_ok.
  set (i' := mkImport _ _ _ _ _ _ _) in *.
  assert (status j = "running") as Hs.
  { apply bool_decide_eq_true in Heqb. apply import_spec in Hj as [_ [[E _]|(_ & _ & ->)]]; [|by vm_compute].
    exfalso. apply elem_of_cons in Heqb as [Hs|Hs%list_elem_of_singleton]; rewrite Hs in E; by vm_compute in E. }
  destruct (project_good id i i' "running" None None None db db1) as (? & ? & _); try done.
  rewrite <-Hs. by eapply import_transition_moves.
Qed.

Lemma release_good id token db : mirrored db →
  mirrored (_release_import_execution id token db) ∧ respects db (_release_import_execution id token db).
Proof.
  intros Hm. unfold _release_import_execution. destruct (imports db !! id) as [i|] eqn:Hi;
    [case_test|]; try (split; [done|by apply respects_same]).
  split; [by eapply put_import_mirrored|]. split; cbn.
  - intros k x x' Hx [[<- <-]|[_ Hx']]%lookup_insert_Some.
    + rewrite Hi in Hx. injection Hx as <-. by split; [left|].
    + rewrite Hx in Hx'. injection Hx' as <-. by split; [left|].
  - intros k x x' Hx Hx'. rewrite Hx in Hx'. injection Hx' as <-. apply parent_moves_refl.
  - intros k Hx. rewrite lookup_insert_is_Some'. by right.
Qed.

Lemma stale_download_good id db db' : mirrored db → stale_download db id = Ok db' → mirrored db' ∧ respects db db'.
Proof.
  intros Hm. unfold stale_download. destruct (downloads db !! id) as [d|] eqn:Hd;
    [case_test|]; try (intros [= <-]; split; [done|by apply respects_same]).
  intros (j & Hj%checked_ok & H)%result_bind_ok. set (d' := append_manifest_event _ _) in *.
  pose proof (transition_word_download _ _ _ _ Hj) as Hw.
  assert (∃ t, t_status t = word (dl_status d') ∧ db' = put_task (true, id) t (put_download id d' db)) as (t & Ht & ->).
  { destruct (tasks (put_download id d' db) !! (true, id)) as [t0|] eqn:E0.
    - unfold update_subject in H. rewrite E0 in H. set (u := mkUpdate _ _ _ _ _ _) in H.
      destruct (update_ok (now (put_download id d' db)) u t0) as (t & E & Ht); [done|by intros r [= <-]; in_list|].
      rewrite E in H. injection H as <-. exists t. split; [|done]. cbn in Ht. by rewrite Ht.
    - destruct (create_task_ok (true, id) (dl_status d') (error_log (dl_job d')) (put_download id d' db))
        as (db2 & E2 & t & Ht & ->). unfold ensure_download_task in H. rewrite H in E2.
      injection E2 as ->. by exists t. }
  split; [by eapply put_parent_mirrored|].
  eapply (replaced_respects id d d'); try done. split; [done|]. intros _. cbn.
  by eapply download_transition_moves.
Qed.

Lemma stale_import_good id db db' : mirrored db → stale_import db id = Ok db' → mirrored db' ∧ respects db db'.
Proof.
  intros Hm. unfold stale_import. destruct (imports db !! id) as [i|] eqn:Hi;
    [case_test|]; try (intros [= <-]; split; [done|by apply respects_same]).
  apply andb_true_iff in Heqb as [Hst%bool_decide_eq_true _].
  intros (j & Hj%checked_ok & H)%result_bind_ok.
  assert (status j = "stale") as Hs.
  { apply import_spec in Hj as [_ [[E _]|(_ & _ & ->)]]; [|by vm_compute]. rewrite Hst in E. by vm_compute in E. }
  destruct (project_good id i (with_im_job j i) "stale" (Some "Redis heartbeat TTL expired while import was running")
    None (Some "lost_heartbeat") db db') as (? & ? & _); try done.
  rewrite <-Hs. by eapply import_transition_moves.
Qed.

(** ** Completion *)

Lemma coordinate_moves id i st stats total message db d c d0 :
  downloads db !! im_download i = Some d0 →
  coordinate_import_parent_completion id i st stats total message db = Ok (d, c) →
  parent_moves d0 d ∧ (dl_status d = dl_status d0 ∨ dl_status d = cp_status c ∨ bounded d0 = true).
Proof.
  intros Hd. unfold coordinate_import_parent_completion. rewrite Hd. fold (bounded d0). case_test.
  - apply negb_true_iff in Heqb. destruct (unresolved_provider_failure d0) as [f|];
      [|intros [= <- <-]; split; [apply parent_moves_refl|by left]].
    case_test; [|intros [= <- <-]; split; [apply parent_moves_refl|by left]].
    intros (j & Hj & [= <- <-])%result_bind_ok. cbn. case_test.
    + apply checked_ok in Hj. split; [by eapply transition_parent_moves|].
      apply download_spec in Hj as [_ [[_ ->]|(_ & _ & ->)]]; [by left|right; left; by vm_compute].
    + injection Hj as <-. split; [by split; [|left]|by left].
  - apply negb_false_iff in Heqb. intros [= <- _]. split; [|by right; right].
    split; [|by rewrite Heqb]. case_test; [done|]. by rewrite aggregate_apply_bounded.
Qed.

Lemma finalize_good id d st error db db' : mirrored db → downloads db !! id = Some d →
  finalize_download_job id d st error db = Ok db' →
  ∃ d' j, mirrored db' ∧ imports db' = imports db ∧ downloads db' = <[id := d']> (downloads db) ∧
    transition_download_job (dl_job d) st None = Ok j ∧ dl_status d' = status j ∧ bounded d' = bounded d.
Proof.
  intros Hm Hd ([d1 db1] & (j & Hj%checked_ok & [= <- <-])%result_bind_ok & [= <-])%result_bind_ok.
  set (d1 := append_manifest_event (mkEvent "status_changed" _ _ _) _).
  set (d2 := append_manifest_event _ d1).
  destruct (create_task_ok (true, id) (dl_status d1) (error_log (dl_job d1)) (put_download id d1 db))
    as (db2 & E & t & Ht & ->).
  unfold ensure_download_task. rewrite E. exists d2, j.
  split; [|split; [done|split; [cbn; by rewrite insert_insert_eq|done]]].
  eapply put_download_mirrored; [by eapply put_parent_mirrored|cbn; by rewrite lookup_insert_eq|done].
Qed.

(** The task rows written at a completion, in a convenient order. *)
Lemma completion_rows id i i' pid d0 d d' st e db db1 db2 :
  mirrored db → imports db !! id = Some i → im_download i' = im_download i → word (im_status i') = word st →
  downloads db !! pid = Some d0 → dl_status d' = dl_status d →
  update_subject (false, id) (status_update st e) (put_download pid d (put_import id i' db)) = Ok db1 →
  match tasks db1 !! (true, pid) with
  | None => ensure_download_task pid d db1
  | Some _ => update_subject (true, pid)
      (status_update (dl_status d) (if failing (dl_status d) then error_log (dl_job d) else None)) db1
  end = Ok db2 →
  mirrored (put_download pid d' db2) ∧ imports (put_download pid d' db2) = <[id := i']> (imports db) ∧
  downloads (put_download pid d' db2) = <[pid := d']> (downloads db).
Proof.
  intros Hm Hi Hdl Hw Hd Hs H1 H2.
  assert (∃ db0, mirrored db0 ∧ imports db0 = <[id := i']> (imports db) ∧ downloads db0 = downloads db ∧
    db1 = put_download pid d db0) as (db0 & Hm0 & Ei0 & Ed0 & ->).
  { destruct (tasks db !! (false, id)) as [t|] eqn:Et.
    - destruct (update_subject_ok (false, id) st e None (put_download pid d (put_import id i' db)))
        as (x & E & t1 & Ht1 & ->); [cbn; by rewrite Et|]. change (with_reason None ?u) with u in E.
      rewrite H1 in E. injection E as ->. exists (put_task (false, id) t1 (put_import id i' db)).
      split; [|done]. eapply put_import_task_mirrored; [done..|]. by rewrite Ht1.
    - unfold update_subject in H1. cbn in H1. rewrite Et in H1. injection H1 as <-.
      exists (put_import id i' db). split; [|done]. by eapply put_import_untasked_mirrored. }
  destruct (ensure_or_update_ok (true, pid) (dl_status d) (error_log (dl_job d))
    (if failing (dl_status d) then error_log (dl_job d) else None) None (put_download pid d db0))
    as (x & E & t2 & Ht2 & ->).
  change (with_reason None ?u) with u in E. unfold ensure_download_task in H2. rewrite H2 in E. injection E as ->.
  replace (put_download pid d' (put_task (true, pid) t2 (put_download pid d db0)))
    with (put_task (true, pid) t2 (put_download pid d' db0))
    by (unfold put_download, put_task, set_downloads, set_tasks; cbn; by rewrite insert_insert_eq).
  split; [|by rewrite <-Ei0, <-Ed0]. eapply put_parent_mirrored; [done|by rewrite Ed0|]. by rewrite Ht2, Hs.
Qed.

Lemma completion_respects id i i' pid d0 d' db db' : imports db !! id = Some i → im_download i' = im_download i →
  import_moves (im_status i) (im_status i') → downloads db !! pid = Some d0 → parent_moves d0 d' →
  imports db' = <[id := i']> (imports db) → downloads db' = <[pid := d']> (downloads db) → respects db db'.
Proof.
  intros Hi Hdl Hmv Hd Hpm Ei Ed. split; rewrite ?Ei, ?Ed.
  - intros k x x' Hx [[<- <-]|[_ Hx']]%lookup_insert_Some.
    + rewrite Hi in Hx. by injection Hx as <-.
    + rewrite Hx in Hx'. injection Hx' as <-. by split; [left|].
  - intros k x x' Hx [[<- <-]|[_ Hx']]%lookup_insert_Some.
    + rewrite Hd in Hx. by injection Hx as <-.
    + rewrite Hx in Hx'. injection Hx' as <-. apply parent_moves_refl.
  - intros k Hx. rewrite lookup_insert_is_Some'. by right.
Qed.

Lemma complete_good id token st message stats total db db' : mirrored db →
  _complete_import_execution id token st message stats total db = Ok db' → mirrored db' ∧ respects db db'.
Proof.
  intros Hm. unfold _complete_import_execution. destruct (imports db !! id) as [i|] eqn:Hi; [|done].
  intros (u & _ & (j & Hj%checked_ok & H)%result_bind_ok)%result_bind_ok.
  set (i' := with_im_job (if bool_decide (st = "complete") then mkJob (status j) None else j) i) in *.
  assert (im_status i' = status j) as Hsj by (unfold i'; by destruct (bool_decide (st = "complete"))).
  apply result_bind_ok in H as ([d c] & Hc & (db1 & H1 & (db2 & H2 & H)%result_bind_ok)%result_bind_ok).
  destruct (mr_parents _ Hm id i Hi) as [d0 Hd0].
  destruct (coordinate_moves id i' st stats total message (put_import id i' db) d c d0 Hd0 Hc) as [Hpm Hcase].
  set (d3 := append_manifest_event _ _) in H.
  destruct (completion_rows id i i' (im_download i) d0 d d3 st (if bool_decide (st = "failed") then Some message else None) db db1 db2 Hm Hi eq_refl) as (Hm3 & Ei3 & Ed3);
    [by rewrite Hsj; eapply transition_word_import|done|done|exact H1|exact H2|].
  assert (import_moves (im_status i) (im_status i')) as Hmv by (rewrite Hsj; by eapply import_transition_moves).
  assert (parent_moves d0 d3) as Hpm3 by exact Hpm.
  destruct (cp_should_finalize c); [|injection H as <-; split; [done|by apply (completion_respects id i i' (im_download i) d0 d3)]].
  edestruct (finalize_good (im_download i) d3) as (d4 & j4 & Hm4 & Ei4 & Ed4 & Hj4 & Hs4 & Hb4);
    [exact Hm3|by rewrite Ed3, lookup_insert_eq|exact H|]. split; [done|].
  eapply (completion_respects id i i' (im_download i) d0 d4); try done; [|by rewrite Ei4|by rewrite Ed4, Ed3, insert_insert_eq].
  destruct Hpm3 as [Hb3 Hmv3]. split; [by rewrite Hb4|]. intros Hb. specialize (Hmv3 Hb). rewrite Hs4.
  destruct Hcase as [Hsame|[Hdone|Hbd]]; [| |congruence].
  - rewrite <-Hsame. by apply download_transition_moves in Hj4.
  - apply download_spec in Hj4 as [_ [[_ ->]|(Hne & _ & _)]]; [done|]. by rewrite <-Hdone in Hne.
Qed.

(** ** Every step *)

Lemma step_good db db' : mirrored db → pipeline_step db db' → mirrored db' ∧ respects db db'.
Proof.
  intros Hm. destruct 1 as [f id s db' Hf H|id token db' H|id token|id token st m sts n db' H|id db' H|id db' H|
    id p db' H|id p db' H|id d Hd Ht|id i Hi Ht Hp|t ls].
  - unfold commands in Hf. rewrite !elem_of_cons, elem_of_nil in Hf. destruct_or!; subst; try done.
    + by eapply pause_import_good.
    + by eapply resume_import_good.
    + by eapply cancel_import_good.
    + by eapply retry_import_good.
    + by eapply pause_download_good.
    + by eapply resume_download_good.
    + by eapply cancel_download_good.
    + by eapply retry_download_good.
  - by eapply claim_good.
  - by apply release_good.
  - by eapply complete_good.
  - by eapply stale_download_good.
  - by eapply stale_import_good.
  - apply result_bind_ok in H as (d & Hd%get_download_ok & [= <-]). set (d' := mkDownload _ _ _ _).
    split; [by eapply put_download_mirrored|]. by eapply (replaced_respects id d d'); try done; split; [|left].
  - apply result_bind_ok in H as (i & Hi%get_import_ok & [= <-]). set (i' := mkImport _ _ _ _ _ _ _).
    split; [by eapply put_import_mirrored|]. split; cbn.
    + intros k x x' Hx [[<- <-]|[_ Hx']]%lookup_insert_Some; [rewrite Hi in Hx; injection Hx as <-; by split; [left|]|].
      rewrite Hx in Hx'. injection Hx' as <-. by split; [left|].
    + intros k x x' Hx Hx'. rewrite Hx in Hx'. injection Hx' as <-. apply parent_moves_refl.
    + intros k Hx. rewrite lookup_insert_is_Some'. by right.
  - split.
    + destruct Hm as [M1 M2 M3]. split; cbn; try done.
      * intros k x t [[<- <-]|[_ Hx]]%lookup_insert_Some; [by rewrite Ht|by apply M1].
      * intros k x Hx. rewrite lookup_insert_is_Some'. right. by eapply M3.
    + split; cbn.
      * intros k x x' Hx Hx'. rewrite Hx in Hx'. injection Hx' as <-. by split; [left|].
      * intros k x x' Hx [[<- _]|[_ Hx']]%lookup_insert_Some; [congruence|].
        rewrite Hx in Hx'. injection Hx' as <-. apply parent_moves_refl.
      * done.
  - split.
    + destruct Hm as [M1 M2 M3]. split; cbn; try done.
      * intros k x t [[<- <-]|[_ Hx]]%lookup_insert_Some; [by rewrite Ht|by apply M2].
      * intros k x [[<- <-]|[_ Hx]]%lookup_insert_Some; [done|by eapply M3].
    + split; cbn.
      * intros k x x' Hx [[<- _]|[_ Hx']]%lookup_insert_Some; [congruence|].
        rewrite Hx in Hx'. injection Hx' as <-. by split; [left|].
      * intros k x x' Hx Hx'. rewrite Hx in Hx'. injection Hx' as <-. apply parent_moves_refl.
      * intros k Hx. rewrite lookup_insert_is_Some'. by right.
  - split; [by apply (mirrored_same db)|by apply respects_same].
Qed.

Lemma reachable_mirrored db : reachable_db db → mirrored db.
Proof. induction 1 as [|db db' _ IH Hs]; [by split|]. by destruct (step_good db db' IH Hs). Qed.
