(* ===== verification/TaskPipelineSpec.v ===== *)
(** * What the task pipeline promises

    Task runs always show the state of their jobs; every status change follows
    the transition tables; a command that the action policy grants succeeds;
    the status of a bounded parent is elected from its children; and a retry of
    an import does not reopen an ordinary failed parent. *)

From stdpp Require Import base gmap strings list numbers.
From S2P Require Import Prelude TaskState TaskRuns Keyset TaskPipeline TaskEngine TaskPipelineFacts TaskPipelineSteps TaskCommands.

Open Scope string_scope.
Open Scope Z_scope.

(** ** The newest child *)

Lemma elem_children parent db c i :
  (c, i) ∈ children_of parent db ↔ imports db !! c = Some i ∧ im_download i = parent.
Proof.
  unfold children_of. rewrite order_by_perm, list_elem_of_In, List.filter_In, <-list_elem_of_In, elem_of_map_to_list.
  cbn. by rewrite Z.eqb_eq.
Qed.

Lemma latest_import id sts db c i : _latest_import_for_download id sts db = Some (c, i) →
  imports db !! c = Some i ∧ im_download i = id ∧ im_status i ∈ sts.
Proof.
  intros H%last_Some_elem_of%list_elem_of_In%List.filter_In. destruct H as [H Hs].
  apply bool_decide_eq_true in Hs. by apply list_elem_of_In, elem_children in H as [? ?].
Qed.

(** ** Conflicts in the manifest *)

Lemma last_index_spec (test : Event → bool) i acc l :
  (last_index test i acc l = acc ∧ ∀ k e, l !! k = Some e → test e = false) ∨
  ∃ k e, l !! k = Some e ∧ test e = true ∧ last_index test i acc l = i + Z.of_nat k ∧
    ∀ k' e', l !! k' = Some e' → test e' = true → (k' <= k)%nat.
Proof.
  revert i acc. induction l as [|x l IH]; intros i acc; cbn; [by left|].
  destruct (IH (i + 1) (if test x then i else acc)) as [[E Hno]|(k & e & Hk & He & E & Hmax)].
  - destruct (test x) eqn:Ex.
    + right. exists 0%nat, x. split; [done|]. split; [done|]. split; [rewrite E; lia|].
      intros [|k'] e' Hk' He'; [lia|]. cbn in Hk'. specialize (Hno k' e' Hk'). congruence.
    + left. split; [done|]. intros [|k] e Hk; cbn in Hk; [by injection Hk as <-|by eapply Hno].
  - right. exists (S k), e. split; [done|]. split; [done|]. split; [rewrite E; lia|].
    intros [|k'] e' Hk' He'; [lia|]. specialize (Hmax k' e' Hk' He'). lia.
Qed.

(** The guard of [retry_download] never strikes where the policy allows. *)
Lemma conflict_guard events : open_conflict events = false → latest_conflict_blocks events = false.
Proof.
  unfold open_conflict, latest_conflict_blocks. intros Ho%Z.ltb_ge.
  destruct (last_index_spec is_conflict 0 (-1) events) as [[-> _]|(k & e & Hk & He & E & Hmax)]; [done|].
  rewrite E. rewrite Z.add_0_l, Nat2Z.id, Hk. destruct (ev_conflict_details e) eqn:Hdet; [|by rewrite andb_false_r].
  destruct (last_index_spec (λ e, is_conflict e && ev_conflict_details e) 0 (-1) events)
    as [[_ Hno]|(k2 & e2 & Hk2 & He2 & E2 & Hmax2)].
  - specialize (Hno k e Hk). by rewrite He, Hdet in Hno.
  - assert (k <= k2)%nat by (eapply Hmax2; [exact Hk|by rewrite He, Hdet]). rewrite E2 in Ho.
    apply andb_false_iff. left. apply andb_false_iff. right. apply Z.ltb_ge. lia.
Qed.

(** ** Success *)

(** The parent can follow its import to this status. *)
Definition can_follow (d : DownloadJob) (st : string) : Prop :=
  bounded d = true ∨ ∃ target, assoc st IMPORT_PARENT_STATUS = Some target ∧
    (dl_status d = target ∨ dl_status d ∈ PARENT_TERMINAL_STATUSES ∨
     ∃ j, transition_download_job (dl_job d) target None = Ok j).

Lemma project_succeeds id i i' st db d : imports db !! id = Some i → im_download i' = im_download i →
  downloads db !! im_download i = Some d → can_follow d st →
  ∃ db', project_import_pipeline_state id (Some st) None None None (put_import id i' db) = Ok db'.
Proof.
  intros Hi Hdl Hd Hcan.
  assert (∃ d', project_parent id (im_download i) st None None d (put_import id i' db) = Ok d') as [d' Hd'].
  { unfold project_parent. fold (bounded d). destruct Hcan as [->|(target & -> & Hcan)]; [by eexists|].
    destruct (bounded d); [by eexists|]. case_test; [|by eexists]. case_test; [by eexists|].
    apply negb_true_iff, bool_decide_eq_false in Heqb. apply bool_decide_eq_false in Heqb0.
    destruct Hcan as [?|[?|[j ->]]]; [done|done|]. by eexists. }
  pose proof (project_effect id st None None None (put_import id i' db) i' d) as He. rewrite Hdl in He.
  rewrite Hd' in He. destruct He as (t1 & t2 & _ & _ & E); [cbn; by rewrite lookup_insert_eq|done|]. eauto.
Qed.

Lemma requeue_succeeds id i i' db d : imports db !! id = Some i → im_download i' = im_download i →
  im_status i' = "enqueued" → import_moves (im_status i) "enqueued" → mirrored db →
  downloads db !! im_download i = Some d → can_follow d "enqueued" →
  ∃ db', (project_import_pipeline_state id (Some IMPORT_ENQUEUED) None None None (put_import id i' db) ≫= λ db,
          prepare_import_dispatch id i' db ≫= λ db, Ok (IMPORT_ENQUEUED, db)) = Ok (IMPORT_ENQUEUED, db').
Proof.
  intros Hi Hdl Hs Hmv Hm Hd Hcan. destruct (project_succeeds id i i' _ db d Hi Hdl Hd Hcan) as [db1 E1].
  destruct (project_good id i i' _ _ _ _ db db1 Hi Hdl Hs Hmv Hm E1) as (Hm1 & _ & Hi1 & _).
  destruct (prepare_import_good id i' db1 Hi1 Hs Hm1) as (db2 & E2 & _).
  exists db2. change IMPORT_ENQUEUED with "enqueued" in *. rewrite E1. cbn [mbind result_bind]. rewrite E2. done.
Qed.

(** A command on an import, granted, with a parent that can follow. *)
Lemma import_command_succeeds id i db d : imports db !! id = Some i → mirrored db →
  downloads db !! im_download i = Some d →
  (im_status i ∈ IMPORT_PAUSABLE_STATUSES → can_follow d "paused" → ∃ s db', pause_import id db = Ok (s, db')) ∧
  (im_status i = "paused" → can_follow d "enqueued" → ∃ s db', resume_import id db = Ok (s, db')) ∧
  (im_status i ∈ IMPORT_CANCELLABLE_STATUSES → can_follow d "cancelled" → ∃ s db', cancel_import id db = Ok (s, db')) ∧
  (require_import id i "retry" db = Ok tt → can_follow d "enqueued" → ∃ s db', retry_import id db = Ok (s, db')).
Proof.
  intros Hi Hm Hd. unfold pause_import, resume_import, cancel_import, retry_import. rewrite (proj2 (get_import_ok id db i) Hi).
  cbn [mbind result_bind]. split_and!.
  - intros Hs Hcan. rewrite (proj2 (require_import_ok id i "pause" db ltac:(in_list)));
      [|by apply (decide_job_grants Import (im_status i) [])]. cbn [mbind result_bind].
    rewrite bool_decide_true by done. cbn [mbind result_bind guard_or].
    destruct (project_succeeds id i (with_im_job (set_status "paused" (im_job i)) i) "paused" db d Hi eq_refl Hd Hcan) as [db1 E].
    change IMPORT_PAUSED with "paused". rewrite E. by eexists _, _.
  - intros Hs Hcan. rewrite (proj2 (require_import_ok id i "resume" db ltac:(in_list)));
      [|by apply (decide_job_grants Import (im_status i) [])]. cbn [mbind result_bind].
    rewrite bool_decide_true by done. cbn [mbind result_bind guard_or].
    destruct (requeue_succeeds id i (with_im_job (set_status IMPORT_ENQUEUED (im_job i)) i) db d) as [db1 E];
      try done; [rewrite Hs; right; by vm_compute|]. rewrite E. by eexists _, _.
  - intros Hs Hcan. rewrite (proj2 (require_import_ok id i "cancel" db ltac:(in_list)));
      [|by apply (decide_job_grants Import (im_status i) [])]. cbn [mbind result_bind].
    rewrite bool_decide_true by done. cbn [mbind result_bind guard_or].
    destruct (project_succeeds id i (with_im_job (set_status "cancelled" (im_job i)) i) "cancelled" db d Hi eq_refl Hd Hcan) as [db1 E].
    change IMPORT_CANCELLED with "cancelled". rewrite E. by eexists _, _.
  - intros Hr Hcan. rewrite Hr. cbn [mbind result_bind].
    apply require_import_ok in Hr; [|in_list]. apply decide_job_grants in Hr as (Hst & _).
    rewrite bool_decide_false by (destruct Hst as [-> | ->]; by apply (bool_decide_eq_false (_ ∈ _)); vm_compute).
    cbn [negb mbind result_bind guard_or]. set (i' := mkImport _ _ _ _ _ _ _).
    destruct (requeue_succeeds id i i' db d) as [db1 E]; try done; [by apply retry_moves|]. rewrite E. by eexists _, _.
Qed.

Lemma edge_transition j s e : edge ALLOWED_DOWNLOAD_TRANSITIONS (norm OLD_TO_NEW_DOWNLOAD (status j)) (norm OLD_TO_NEW_DOWNLOAD s) →
  ∃ j', transition_download_job j s e = Ok j'.
Proof.
  intros He. set (log := match e with Some _ => e | None => error_log j end).
  destruct (base.decide (norm OLD_TO_NEW_DOWNLOAD (status j) = norm OLD_TO_NEW_DOWNLOAD s)) as [Heq|Hne].
  - exists (mkJob (status j) log). apply download_spec. cbn. auto.
  - exists (mkJob (norm OLD_TO_NEW_DOWNLOAD s) log). apply download_spec. cbn. auto.
Qed.

Lemma set_transition (X : gset string) t :
  forallb (λ s, bool_decide (edge ALLOWED_DOWNLOAD_TRANSITIONS (norm OLD_TO_NEW_DOWNLOAD s) (norm OLD_TO_NEW_DOWNLOAD t)))
    (elements X) = true →
  ∀ j, status j ∈ X → ∃ j', transition_download_job j t None = Ok j'.
Proof.
  intros H j Hj. apply edge_transition. apply (bool_decide_eq_true (edge _ _ _)). by apply (set_check X _ H).
Qed.

Lemma apply_transition_ok id d target db j : transition_download_job (dl_job d) target None = Ok j →
  ∃ db', _apply_transition id d target db = Ok (with_dl_job j d, db').
Proof.
  intros Hj. unfold _apply_transition. rewrite Hj. cbn [checked mbind result_bind].
  set (db0 := put_download id (with_dl_job j d) db). unfold ensure_download_task.
  destruct (tasks db0 !! (true, id)) as [t|] eqn:E.
  - destruct (update_subject_ok (true, id) target (error_log (dl_job (with_dl_job j d))) None db0) as (db1 & E1 & _);
      [by rewrite E|]. change (with_reason None ?u) with u in E1. rewrite E1. by eexists.
  - destruct (create_task_ok (true, id) (dl_status (with_dl_job j d)) (error_log (dl_job (with_dl_job j d))) db0)
      as (db1 & E1 & _). rewrite E1. by eexists.
Qed.

(** ** What the policy of a download grants *)

Lemma require_download_ok id d a db : require_download id d a db = Ok tt → a ∈ ACTIONS →
  a ∈ (decide_job Download (dl_status d) (mf_events (dl_manifest d)) (tasks db !! (true, id))
         (active_child_of id db) (bool_decide (id ∈ leases db)) false).1 ∧
  (a = "retry" → ∀ c i, _latest_import_for_download id ["failed"; "stale"] db = Some (c, i) →
     require_import c i "retry" db = Ok tt).
Proof.
  unfold require_download, download_capabilities. rewrite guard_or_ok, bool_decide_eq_true. intros H Ha.
  set (p := decide_job Download _ _ _ _ _ _) in *.
  change (decide Download _ _ _ _ _ _) with (capabilities p) in H.
  destruct (_latest_import_for_download id ["failed"; "stale"] db) as [[c i]|] eqn:El.
  - case_test.
    + cbn [available_actions] in H. apply list_elem_of_In, List.filter_In in H as [H Hr].
      apply list_elem_of_In in H. rewrite granted in H by done. split; [done|]. intros ->. by rewrite bool_decide_true in Hr.
    + rewrite granted in H by done. split; [done|]. intros -> c' i' [= <- <-]. apply guard_or_ok, bool_decide_eq_true.
      apply andb_false_iff in Heqb as [Hb|Hb].
      * apply bool_decide_eq_false in Hb. destruct Hb. by rewrite granted.
      * by apply negb_false_iff, bool_decide_eq_true in Hb.
  - rewrite granted in H by done. done.
Qed.

(** ** Commands on downloads *)

Lemma delegate_succeeds child f reported own db :
  (∀ c i, child = Some (c, i) → ∃ s db', f c db = Ok (s, db')) →
  (child = None → ∃ s db', own db = Ok (s, db')) → ∃ s db', delegate child f reported own db = Ok (s, db').
Proof.
  intros Hf Ho. unfold delegate. destruct child as [[c i]|]; [|by apply Ho].
  destruct (Hf c i eq_refl) as (s & db' & ->). by eexists _, _.
Qed.

(** A parent with a status and an edge to the target follows. *)
Lemma follows d st target s : assoc st IMPORT_PARENT_STATUS = Some target → dl_status d = s →
  bool_decide (edge ALLOWED_DOWNLOAD_TRANSITIONS (norm OLD_TO_NEW_DOWNLOAD s) (norm OLD_TO_NEW_DOWNLOAD target)) = true →
  can_follow d st.
Proof.
  intros Ha <- He%bool_decide_eq_true. right. exists target. split; [done|]. right; right. by apply edge_transition.
Qed.

Section Commands.
Context (db : Db) (id : Z) (d : DownloadJob) (Hm : mirrored db) (Hd : downloads db !! id = Some d).

(** The newest child of a download, and its parent. *)
Lemma latest_child sts c i : _latest_import_for_download id sts db = Some (c, i) →
  imports db !! c = Some i ∧ downloads db !! im_download i = Some d ∧ im_status i ∈ sts.
Proof. intros (H1 & H2 & H3)%latest_import. by rewrite H2. Qed.

Lemma latest_child_if P `{Decision P} sts c i :
  (if bool_decide P then _latest_import_for_download id sts db else None) = Some (c, i) →
  P ∧ _latest_import_for_download id sts db = Some (c, i).
Proof. by destruct (bool_decide_reflect P). Qed.

Lemma pause_succeeds : require_download id d "pause" db = Ok tt → ∃ s db', pause_download id db = Ok (s, db').
Proof.
  intros Hr. pose proof Hr as [Hst _]%require_download_ok; [|in_list]. apply decide_job_grants in Hst. cbn in Hst.
  unfold pause_download. rewrite (proj2 (get_download_ok id db d) Hd). cbn [mbind result_bind]. rewrite Hr.
  cbn [mbind result_bind]. apply delegate_succeeds.
  - intros c i (Himp & (Hi & Hp & Hs)%latest_child)%latest_child_if.
    apply (import_command_succeeds c i db d Hi Hm Hp).
    + revert Hs. rewrite !elem_of_cons, elem_of_nil. intros [-> | [-> | []]]; by vm_compute.
    + by eapply follows.
  - intros _. rewrite bool_decide_true by done. cbn [mbind result_bind guard_or].
    destruct (set_transition DOWNLOAD_PAUSABLE_STATUSES DOWNLOAD_PAUSED eq_refl (dl_job d) Hst) as [j Hj].
    destruct (apply_transition_ok id d _ db j Hj) as [db1 ->]. by eexists _, _.
Qed.

Lemma cancel_succeeds : require_download id d "cancel" db = Ok tt → ∃ s db', cancel_download id db = Ok (s, db').
Proof.
  intros Hr. pose proof Hr as [Hst _]%require_download_ok; [|in_list]. apply decide_job_grants in Hst. cbn in Hst.
  unfold cancel_download. rewrite (proj2 (get_download_ok id db d) Hd). cbn [mbind result_bind]. rewrite Hr.
  cbn [mbind result_bind]. apply delegate_succeeds.
  - intros c i (Himp & (Hi & Hp & Hs)%latest_child)%latest_child_if.
    apply (import_command_succeeds c i db d Hi Hm Hp).
    + revert Hs. rewrite !elem_of_cons, elem_of_nil. intros Hs. destruct_or!; try done; rewrite Hs; by vm_compute.
    + rewrite !elem_of_cons, elem_of_nil in Himp. destruct Himp as [E|[E|[]]]; by eapply follows.
  - intros _. rewrite bool_decide_true by done. cbn [mbind result_bind guard_or].
    destruct (set_transition DOWNLOAD_CANCELLABLE_STATUSES DOWNLOAD_CANCELLED eq_refl (dl_job d) Hst) as [j Hj].
    destruct (apply_transition_ok id d _ db j Hj) as [db1 ->]. by eexists _, _.
Qed.

(** A requeued download is prepared. *)
Lemma requeue_own (reset : DownloadJob → DownloadJob) :
  (∀ x, dl_status (reset x) = dl_status x ∧ bounded (reset x) = bounded x) →
  dl_status d ≠ "pending" → (∃ j, transition_download_job (dl_job d) DOWNLOAD_ENQUEUED None = Ok j) →
  ∃ d1 db1 db2, _apply_transition id d DOWNLOAD_ENQUEUED db = Ok (d1, db1) ∧
    prepare_download_dispatch id (reset d1) (put_download id (reset d1) db1) = Ok db2.
Proof.
  intros Hreset Hp [j Hj]. destruct (apply_transition_ok id d _ db j Hj) as [db1 E1].
  destruct (apply_transition_good id d _ db _ db1 Hm Hd E1) as (Hm1 & _ & Ed & _).
  pose proof (transition_enqueued _ _ _ Hp Hj) as Hje. destruct (Hreset (with_dl_job j d)) as [Hs _]. cbn in Hs.
  destruct (prepare_download_good id (reset (with_dl_job j d)) (put_download id (reset (with_dl_job j d)) db1))
    as (d3 & db3 & E & _).
  - cbn. by rewrite lookup_insert_eq.
  - by rewrite Hs.
  - eapply put_download_mirrored; [done|by rewrite Ed, lookup_insert_eq|]. by rewrite Hs.
  - by exists (with_dl_job j d), db1, db3.
Qed.

Lemma resume_succeeds : require_download id d "resume" db = Ok tt → ∃ s db', resume_download id db = Ok (s, db').
Proof.
  intros Hr. pose proof Hr as [Hst _]%require_download_ok; [|in_list]. apply decide_job_grants in Hst.
  unfold resume_download. rewrite (proj2 (get_download_ok id db d) Hd). cbn [mbind result_bind]. rewrite Hr.
  cbn [mbind result_bind]. apply delegate_succeeds.
  - intros c i (Himp & (Hi & Hp & Hs)%latest_child)%latest_child_if.
    apply (import_command_succeeds c i db d Hi Hm Hp); [by apply list_elem_of_singleton in Hs|by eapply follows].
  - intros _. rewrite bool_decide_true by done. cbn [mbind result_bind guard_or].
    destruct (requeue_own (λ x, x)) as (d1 & db1 & db2 & E1 & E2); [done|by rewrite Hst|apply edge_transition; rewrite Hst; by vm_compute|].
    destruct (apply_transition_good id d _ db d1 db1 Hm Hd E1) as (_ & _ & Ed & _).
    rewrite put_download_same in E2 by (rewrite Ed; by rewrite lookup_insert_eq).
    rewrite E1. cbn [mbind result_bind]. rewrite E2. by eexists _, _.
Qed.

Lemma retry_succeeds : require_download id d "retry" db = Ok tt → ∃ s db', retry_download id db = Ok (s, db').
Proof.
  intros Hr. pose proof Hr as [Hst Hchild]%require_download_ok; [|in_list].
  apply decide_job_grants in Hst as (Hst & _ & _ & Hconf & _). specialize (Hconf eq_refl).
  unfold retry_download. rewrite (proj2 (get_download_ok id db d) Hd). cbn [mbind result_bind]. rewrite Hr.
  cbn [mbind result_bind]. rewrite (conflict_guard _ Hconf). cbn [negb mbind result_bind guard_or]. apply delegate_succeeds.
  - intros c i (Himp & Hl)%latest_child_if. pose proof Hl as (Hi & Hp & Hs)%latest_child.
    apply (import_command_succeeds c i db d Hi Hm Hp); [by apply Hchild|].
    destruct Hst as [E|E]; [|by eapply follows]. right. exists "importing". split; [done|]. right; left.
    rewrite E. in_list.
  - intros _. rewrite bool_decide_true by (destruct Hst as [-> | ->]; by vm_compute). cbn [mbind result_bind guard_or].
    destruct (requeue_own (λ x, mkDownload (mkJob (dl_status x) None) 0 (dl_priority x) (dl_manifest x)))
      as (d1 & db1 & db2 & E1 & E2); [done|by destruct Hst as [-> | ->]|
        apply edge_transition; destruct Hst as [-> | ->]; by vm_compute|].
    rewrite E1. cbn [mbind result_bind]. rewrite E2. by eexists _, _.
Qed.
End Commands.

(** ** Bounded parents *)

(** The statuses of the children, as a property of the import rows. *)
Lemma children_Forall parent db (P : string → Prop) :
  Forall P ((λ c, im_status c.2) <$> children_of parent db) ↔
  ∀ c i, imports db !! c = Some i → im_download i = parent → P (im_status i).
Proof.
  rewrite Forall_fmap, List.Forall_forall. setoid_rewrite <-list_elem_of_In. split.
  - intros H c i Hi Hp. apply (H (c, i)). by apply elem_children.
  - intros H [c i] [Hi Hp]%elem_children. by eapply H.
Qed.

Lemma children_exists parent db (test : string → bool) :
  existsb test ((λ c, im_status c.2) <$> children_of parent db) = true ↔
  ∃ c i, imports db !! c = Some i ∧ im_download i = parent ∧ test (im_status i) = true.
Proof.
  rewrite existsb_exists. setoid_rewrite <-list_elem_of_In. setoid_rewrite list_elem_of_fmap. split.
  - intros (s & ([c i] & -> & [Hi Hp]%elem_children) & Ht). eauto.
  - intros (c & i & Hi & Hp & Ht). exists (im_status i). split; [|done]. exists (c, i).
    split; [done|by apply elem_children].
Qed.

Lemma aggregate_applied c e err d : dl_status (_apply_bounded_parent_aggregate c e err d) = cp_status c.
Proof.
  unfold _apply_bounded_parent_aggregate. case_bool_decide as E; [|done].
  destruct err; [|done]. by case_test.
Qed.

(** The parent of a projection has the elected status. *)
Lemma project_elects id i st error outcome reason db db' d :
  imports db !! id = Some i → downloads db !! im_download i = Some d → bounded d = true →
  project_import_pipeline_state id (Some st) error outcome reason db = Ok db' →
  ∃ d', downloads db' !! im_download i = Some d' ∧ imports db' = imports db ∧
    dl_status d' = aggregate_status (mf_publication_open (dl_manifest d))
                     ((λ c, im_status c.2) <$> children_of (im_download i) db).
Proof.
  intros Hi Hd Hb Hp. pose proof (project_effect id st error outcome reason db i d Hi Hd) as He.
  unfold project_parent in He. fold (bounded d) in He. rewrite Hb in He. destruct He as (t1 & t2 & _ & _ & E).
  rewrite E in Hp. injection Hp as <-. eexists. split; [cbn; by rewrite lookup_insert_eq|].
  split; [done|]. by rewrite aggregate_applied.
Qed.

(** ** Terminal ordinary parents *)

Lemma project_latched id i st error outcome reason db db' d :
  imports db !! id = Some i → downloads db !! im_download i = Some d → bounded d = false →
  dl_status d ∈ PARENT_TERMINAL_STATUSES →
  project_import_pipeline_state id (Some st) error outcome reason db = Ok db' →
  ∃ d', downloads db' !! im_download i = Some d' ∧ dl_status d' = dl_status d.
Proof.
  intros Hi Hd Hb Ht Hp. pose proof (project_effect id st error outcome reason db i d Hi Hd) as He.
  assert (∀ d', project_parent id (im_download i) st error outcome d db = Ok d' → dl_status d' = dl_status d) as Hlatch.
  { intros d'. unfold project_parent. fold (bounded d). rewrite Hb.
    destruct (assoc st IMPORT_PARENT_STATUS) as [target|]; [|by intros [= <-]].
    rewrite (bool_decide_true (dl_status d ∈ _)) by done. case_test; [by intros [= <-]|].
    destruct error; [case_test|]; by intros [= <-]. }
  destruct (project_parent _ _ _ _ _ _ _) as [d'|e]; [|congruence]. destruct He as (t1 & t2 & _ & _ & E).
  rewrite E in Hp. injection Hp as <-. exists d'. split; [cbn; by rewrite lookup_insert_eq|by apply Hlatch].
Qed.

Lemma complete_latched id token st message stats total db db' i d : mirrored db →
  imports db !! id = Some i → downloads db !! im_download i = Some d → bounded d = false →
  dl_status d ∈ PARENT_TERMINAL_STATUSES →
  _complete_import_execution id token st message stats total db = Ok db' →
  ∃ d', downloads db' !! im_download i = Some d' ∧ dl_status d' = dl_status d.
Proof.
  intros Hm Hi Hd Hb Ht. unfold _complete_import_execution. rewrite Hi.
  intros (u & _ & (j & Hj%checked_ok & H)%result_bind_ok)%result_bind_ok.
  set (i' := with_im_job (if bool_decide (st = "complete") then mkJob (status j) None else j) i) in *.
  assert (im_status i' = status j) as Hsj by (unfold i'; by destruct (bool_decide (st = "complete"))).
  apply result_bind_ok in H as ([d1 c] & Hc & (db1 & H1 & (db2 & H2 & H)%result_bind_ok)%result_bind_ok).
  assert (dl_status d1 = dl_status d ∧ cp_should_finalize c = false) as [Hs Hfin].
  { revert Hc. unfold coordinate_import_parent_completion. change (im_download i') with (im_download i). cbn [put_import downloads set_imports]. rewrite Hd.
    fold (bounded d). rewrite Hb, (bool_decide_true (dl_status d ∈ _)) by done. cbn [negb].
    destruct (unresolved_provider_failure d) as [f|]; [|by intros [= <- <-]]. destruct (bool_decide (st = "complete")); [|by intros [= <- <-]].
    cbn [mbind result_bind]. by intros [= <- <-]. }
  rewrite Hfin in H. injection H as <-.
  set (d3 := append_manifest_event _ _).
  destruct (completion_rows id i i' (im_download i) d d1 d3 st (if bool_decide (st = "failed") then Some message else None) db db1 db2 Hm Hi eq_refl) as (_ & _ & Ed3);
    [by rewrite Hsj; eapply transition_word_import|done|done|exact H1|exact H2|].
  exists d3. split; [by rewrite Ed3, lookup_insert_eq|done].
Qed.

(** A delegated retry goes through the projection. *)
Lemma retry_latched id i db s db' d : imports db !! id = Some i → downloads db !! im_download i = Some d →
  bounded d = false → dl_status d ∈ PARENT_TERMINAL_STATUSES → mirrored db → retry_import id db = Ok (s, db') →
  ∃ d', downloads db' !! im_download i = Some d' ∧ dl_status d' = dl_status d.
Proof.
  intros Hi Hd Hb Ht Hm (i0 & Hi0%get_import_ok & ([] & Hr & (u' & _ & (db1 & Hp & (db2 & Hq & [= _ <-])%result_bind_ok)%result_bind_ok)%result_bind_ok)%result_bind_ok)%result_bind_ok.
  rewrite Hi in Hi0. injection Hi0 as <-. set (i' := mkImport _ _ _ _ _ _ _) in *.
  apply require_import_ok in Hr; [|in_list]. apply decide_job_grants in Hr as (Hst & _).
  destruct (project_good id i i' _ _ _ _ db db1 Hi eq_refl eq_refl (retry_moves _ Hst) Hm Hp) as (Hm1 & _ & Hi1 & _).
  destruct (prepare_import_good id i' db1 Hi1 eq_refl Hm1) as (db3 & E & _ & _ & Ed).
  rewrite E in Hq. injection Hq as <-. rewrite Ed.
  eapply (project_latched id i' _ _ _ _ (put_import id i' db)); [cbn; by rewrite lookup_insert_eq|done..|exact Hp].
Qed.

(** ** The claims *)


(** C30: Whatever an operator, a worker or the stale detection does, every
    import moves along ALLOWED_IMPORT_TRANSITIONS and stays with its download,
    and every ordinary download moves along ALLOWED_DOWNLOAD_TRANSITIONS, also
    where the code assigns the status without calling the state machine. *)
Theorem statuses_follow_tables db db' : reachable_db db → pipeline_step db db' →
  (∀ id i i', imports db !! id = Some i → imports db' !! id = Some i' →
     (im_status i' = im_status i ∨
      edge ALLOWED_IMPORT_TRANSITIONS (norm OLD_TO_NEW_IMPORT (im_status i)) (im_status i')) ∧
     im_download i' = im_download i) ∧
  (∀ id d d', downloads db !! id = Some d → downloads db' !! id = Some d' →
     mf_disk_import_recovery (dl_manifest d) = false →
     dl_status d' = dl_status d ∨
     edge ALLOWED_DOWNLOAD_TRANSITIONS (norm OLD_TO_NEW_DOWNLOAD (dl_status d)) (dl_status d')).
Proof.
  intros Hm%reachable_mirrored Hs. destruct (step_good db db' Hm Hs) as [_ [H1 H2 _]]. split.
  - intros id i i' Hi Hi'. destruct (H1 id i i' Hi Hi') as [[->|He] Hd]; auto.
  - intros id d d' Hd Hd' Hb. destruct (H2 id d d' Hd Hd') as [_ Hmv]. destruct (Hmv Hb) as [->|He]; auto.
Qed.


(** The status of a bounded parent is elected from its children: after an
    import is projected, the parent is complete exactly when the publication is
    closed and every import of the parent is complete, paused exactly when
    nothing is active any more and some import is paused, and importing exactly
    while the publication is open or some import is still active. *)
Theorem bounded_parent_elected db id i st error outcome reason db' d :
  imports db !! id = Some i → downloads db !! im_download i = Some d →
  mf_disk_import_recovery (dl_manifest d) = true →
  project_import_pipeline_state id (Some st) error outcome reason db = Ok db' →
  let child c ic := imports db' !! c = Some ic ∧ im_download ic = im_download i in
  let publication_open := mf_publication_open (dl_manifest d) in
  let active := ∃ c ic, child c ic ∧ child_active (im_status ic) = true in
  ∃ d', downloads db' !! im_download i = Some d' ∧
    (dl_status d' = "complete" ↔ publication_open = false ∧ ∀ c ic, child c ic → im_status ic = "complete") ∧
    (dl_status d' = "paused" ↔ publication_open = false ∧ ¬ active ∧ ∃ c ic, child c ic ∧ im_status ic = "paused") ∧
    (dl_status d' = "importing" ↔ publication_open = true ∨ active).
Proof.
  intros Hi Hd Hb Hp child publication_open active.
  destruct (project_elects _ _ _ _ _ _ _ _ _ Hi Hd Hb Hp) as (d' & Hd' & Ei & Hs). exists d'. split; [done|].
  set (sts := (λ c, im_status c.2) <$> children_of (im_download i) db) in *.
  assert (sts ≠ []) as Hne.
  { intros E. apply (elem_of_nil (im_status i)). rewrite <-E. apply list_elem_of_fmap. exists (id, i). split; [done|by apply elem_children]. }
  pose proof (aggregate_cases (mf_publication_open (dl_manifest d)) sts) as A. cbv zeta in A. rewrite <-Hs in A.
  fold publication_open in A. destruct A as (A1 & A2 & A3).
  assert (existsb child_active sts = true ↔ active) as Hact.
  { unfold sts, active, child. rewrite children_exists, Ei. naive_solver. }
  assert ("paused" ∈ sts ↔ ∃ c ic, child c ic ∧ im_status ic = "paused") as Hpa.
  { unfold sts, child. rewrite <-existsb_status, children_exists, Ei. setoid_rewrite bool_decide_eq_true. naive_solver. }
  assert (existsb child_active sts = false ↔ ¬ active) as Hina by (rewrite <-Hact; symmetry; apply not_true_iff_false).
  rewrite Hact in A1. rewrite Hina, Hpa in A2.
  assert (Forall (λ s, s = "complete") sts ↔ ∀ c ic, child c ic → im_status ic = "complete") as Hco.
  { unfold sts, child. rewrite children_Forall, Ei. naive_solver. }
  rewrite Hco in A3. clearbody publication_open child active. clear -A1 A2 A3 Hne. tauto.
Qed.

(** Retrying a failed ordinary download whose newest failed import takes
    the retry reports "importing", but the download itself stays failed; and
    when that import later completes, the download still stays failed. *)
Theorem failed_parent_stays_failed db id d c i : reachable_db db →
  downloads db !! id = Some d → dl_status d = "failed" → mf_disk_import_recovery (dl_manifest d) = false →
  _latest_import_for_download id [IMPORT_FAILED; IMPORT_STALE] db = Some (c, i) →
  ∀ s db1, retry_download id db = Ok (s, db1) →
    s = "importing" ∧ (∃ d1, downloads db1 !! id = Some d1 ∧ dl_status d1 = "failed") ∧
    ∀ token st message stats total db2, _complete_import_execution c token st message stats total db1 = Ok db2 →
      ∃ d2, downloads db2 !! id = Some d2 ∧ dl_status d2 = "failed".
Proof.
  intros Hm%reachable_mirrored Hd Hf Hb Hl s db1 Hretry. pose proof (latest_import _ _ _ _ _ Hl) as (Hi & Hp & _).
  pose proof (retry_download_good _ _ _ _ Hm Hretry) as [Hm1 [Hri Hrd _]].
  revert Hretry. unfold retry_download. intros (d0 & Hd0%get_download_ok & H)%result_bind_ok.
  rewrite Hd in Hd0. injection Hd0 as <-. apply result_bind_ok in H as (_ & _ & (_ & _ & H)%result_bind_ok).
  rewrite bool_decide_true, Hl in H by (rewrite Hf; in_list). cbn [delegate] in H.
  apply result_bind_ok in H as ([s' db'] & Hr & [= <- <-]). split; [done|]. subst id.
  assert (dl_status d ∈ PARENT_TERMINAL_STATUSES) as Ht by (rewrite Hf; in_list).
  destruct (retry_latched c i db s' db' d Hi Hd Hb Ht Hm Hr) as (d1 & Hd1 & Hs1). rewrite Hf in Hs1. split; [by exists d1|].
  intros token st message stats total db2 Hc.
  destruct (imports db' !! c) as [i1|] eqn:Hi1; [|by unfold _complete_import_execution in Hc; rewrite Hi1 in Hc].
  destruct (Hri c i i1 Hi Hi1) as [_ Hdl]. destruct (Hrd _ d d1 Hd Hd1) as [Hb1 _]. unfold bounded in Hb1.
  destruct (complete_latched c token st message stats total db' db2 i1 d1) as (d2 & Hd2 & Hs2);
    [done|done|by rewrite Hdl|by unfold bounded; rewrite Hb1|rewrite Hs1; in_list|done|].
  exists d2. rewrite <-Hdl. by rewrite Hs2.
Qed.
