(* ===== verification/TaskPipelineExample.v ===== *)
(** * A run of the task pipeline

    Concrete databases reached by the steps of the pipeline, at which the
    claims of [TaskPipelineSpec] apply. *)

From stdpp Require Import base gmap strings list numbers.
From S2P Require Import Prelude TaskState TaskRuns Keyset TaskPipeline TaskEngine TaskPipelineFacts TaskPipelineSteps TaskCommands TaskPipelineSpec.

Open Scope string_scope.
Open Scope Z_scope.

(** ** Rows *)

Definition manifest (bounded : bool) : Manifest := mkManifest [] bounded false ∅ None.
Definition download (st : string) (bounded : bool) : DownloadJob := mkDownload (mkJob st None) 2 0 (manifest bounded).
Definition import (parent at_ : Z) (st : string) : ImportJob := mkImport parent at_ (mkJob st None) 0 0 None 0.

(** A download that is importing, with a queued import. *)
Definition db_queued : Db := put_import 10 (import 1 5 "enqueued") (put_download 1 (download "importing" false) empty_db).
(** A failed download with a failed import. *)
Definition db_failed : Db := put_import 10 (import 1 5 "failed") (put_download 1 (download "failed" false) empty_db).
(** A bounded download with two imports, the first of which completes. *)
Definition db_bounded : Db :=
  put_import 11 (import 1 6 "paused")
    (put_import 10 (import 1 5 "complete") (put_download 1 (download "importing" true) empty_db)).

Lemma two_rows_reachable d i : im_download i = 1 → reachable_db (put_import 10 i (put_download 1 d empty_db)).
Proof.
  intros Hi. apply (reachable_more (put_download 1 d empty_db)).
  - apply (reachable_more empty_db); [constructor|]. by apply step_new_download.
  - apply step_new_import; [done..|]. rewrite Hi. by exists d.
Qed.

(** A worker claims the import. *)
Definition claimed (db : Db) : Db :=
  match _claim_import_execution 10 7 db with Ok (Some db') => db' | _ => empty_db end.
Definition db_running : Db := claimed db_queued.

Lemma claim_step : pipeline_step db_queued db_running.
Proof. apply (step_claim _ 10 7). vm_compute. reflexivity. Qed.

Lemma running_reachable : reachable_db db_running.
Proof. apply (reachable_more db_queued); [by apply two_rows_reachable|apply claim_step]. Qed.

(** The rows after the claim. *)
Lemma running_download : ∃ d, downloads db_running !! 1 = Some d ∧ dl_status d = "importing".
Proof.
  assert (dl_job <$> downloads db_running !! 1 = Some (mkJob "importing" None)) as H by (vm_compute; reflexivity).
  apply fmap_Some in H as (d & Hd & E). exists d. split; [exact Hd|]. rewrite <-E. reflexivity.
Qed.
Lemma running_import : ∃ i, imports db_running !! 10 = Some i ∧ im_status i = "running".
Proof.
  assert (im_job <$> imports db_running !! 10 = Some (mkJob "running" None)) as H by (vm_compute; reflexivity).
  apply fmap_Some in H as (i & Hi & E). exists i. split; [exact Hi|]. rewrite <-E. reflexivity.
Qed.
Lemma running_tasks : is_Some (tasks db_running !! (true, 1)) ∧ is_Some (tasks db_running !! (false, 10)).
Proof. split; apply (bool_decide_eq_true (is_Some _)); vm_compute; reflexivity. Qed.

(** ** The claims at these databases *)


Lemma statuses_follow_tables_witness :
  edge ALLOWED_IMPORT_TRANSITIONS (norm OLD_TO_NEW_IMPORT "enqueued") "running".
Proof.
  destruct (statuses_follow_tables db_queued db_running) as [H _]; [by apply two_rows_reachable|apply claim_step|].
  destruct running_import as (i & Hi & Ei).
  destruct (H 10 (import 1 5 "enqueued") i eq_refl Hi) as [[E|E] _]; rewrite Ei in E; [discriminate E|exact E].
Defined.

Lemma running_pausable : match downloads db_running !! 1 with
  | Some d => require_download 1 d "pause" db_running = Ok tt | None => False end.
Proof. vm_compute. reflexivity. Qed.


(** The projection of the completed import. *)
Definition projected (db : Db) : Db :=
  match project_import_pipeline_state 10 (Some "complete") None None None db with Ok db' => db' | Err _ => empty_db end.

Lemma projected_ok :
  project_import_pipeline_state 10 (Some "complete") None None None db_bounded = Ok (projected db_bounded) ∧
  imports (projected db_bounded) = imports db_bounded.
Proof. split; vm_compute; reflexivity. Qed.

Lemma bounded_parent_elected_witness :
  ∃ d', downloads (projected db_bounded) !! 1 = Some d' ∧ dl_status d' = "paused".
Proof.
  destruct projected_ok as [E Ei].
  destruct (bounded_parent_elected db_bounded 10 (import 1 5 "complete") "complete" None None None _
    (download "importing" true) eq_refl eq_refl eq_refl E) as (d' & Hd' & _ & [_ Hp] & _).
  exists d'. split; [exact Hd'|]. apply Hp. rewrite Ei. split; [reflexivity|]. split.
  - intros (c & ic & [Hc _] & Ha). unfold db_bounded, put_import in Hc. cbn [imports set_imports] in Hc.
    apply lookup_insert_Some in Hc as [[_ <-]|[_ Hc]]; [discriminate Ha|].
    apply lookup_insert_Some in Hc as [[_ <-]|[_ Hc]]; [discriminate Ha|discriminate Hc].
  - exists 11, (import 1 6 "paused"). split; [split; reflexivity|reflexivity].
Defined.

Lemma retried_ok : match retry_download 1 db_failed with Ok _ => True | Err _ => False end.
Proof. vm_compute. exact I. Qed.

Lemma failed_parent_stays_failed_witness :
  ∃ s db1, retry_download 1 db_failed = Ok (s, db1) ∧ s = "importing" ∧
    ∃ d1, downloads db1 !! 1 = Some d1 ∧ dl_status d1 = "failed".
Proof.
  pose proof retried_ok as Hr. destruct (retry_download 1 db_failed) as [[s db1]|e] eqn:E; [|destruct Hr].
  destruct (failed_parent_stays_failed db_failed 1 (download "failed" false) 10 (import 1 5 "failed")
    (two_rows_reachable (download "failed" false) (import 1 5 "failed") eq_refl) eq_refl eq_refl eq_refl eq_refl s db1 E) as (Hs & Hd & _).
  exists s, db1. split; [reflexivity|]. split; [exact Hs|exact Hd].
Defined.
