(* ===== verification/ArtifactLedger.v ===== *)
(** * The artifact ledger

    [backend/app/services/artifact_ledger.py]: the inventory of downloaded
    files and the leases under which import executions take works from it.  A
    SQL statement is a function on the table; a method is one transaction, and
    [SKIP LOCKED] passes over an arbitrary set of locked rows.  The rows of
    imports, with their execution tokens, are those of [TaskPipeline].

    [None] is SQL NULL, and a comparison with NULL is not true.  The suffix
    classification of paths and the [stat] of new files are left out: a new row
    arrives as the record [NewArtifact].  Times are seconds. *)

From stdpp Require Import base gmap strings list numbers.
From S2P Require Import Prelude TaskState TaskRuns Keyset TaskPipeline.

Open Scope string_scope.
Open Scope Z_scope.

(** ** Rows *)

Record Artifact := mkArtifact {
  a_id : Z;
  a_created_at : Z;
  a_root : string;
  a_source : string;
  a_creator_dir : string;
  a_work : string;
  a_file_name : string;
  a_type : string;
  a_file_size : option Z;
  a_mtime_ns : option Z;
  a_proof : option string;
  a_download : option Z;
  a_import : option Z;
  a_token : option Z;
  a_state : string;
  a_attempts : Z;
  a_last_error : option string;
  a_expires : option Z }.

(** What [artifact_row] and [managed_artifact_row] build. *)
Record NewArtifact := mkNew {
  n_id : Z;
  n_root : string;
  n_path : string;
  n_source : string;
  n_creator_dir : string;
  n_work : string;
  n_file_name : string;
  n_type : string;
  n_file_size : option Z;
  n_mtime_ns : option Z;
  n_download : option Z;
  n_state : string }.

(** The table, by its unique constraint [uq_storage_artifacts_root_path]. *)
Abbreviation Artifacts := (gmap (string * string) Artifact).

Definition rows (A : Artifacts) : list Artifact := (map_to_list A).*2.

(** [UPDATE ... SET f WHERE cond] *)
Definition update_where (cond : Artifact → bool) (f : Artifact → Artifact) (A : Artifacts) : Artifacts :=
  (λ r, if cond r then f r else r) <$> A.

(** [RETURNING source_work_id] *)
Definition returning (cond : Artifact → bool) (A : Artifacts) : gset string :=
  list_to_set (a_work <$> List.filter cond (rows A)).

(** [for offset in range(0, len(l), size)] *)
Definition chunks {X} (size : nat) (l : list X) : list (list X) :=
  (λ i, take size (drop (i * size) l)) <$> seq 0 ((length l + (size - 1)) / size).

(** ** Registering files *)

Definition artifact_key (n : NewArtifact) : string * string := (n_root n, n_path n).

Definition inserted_row (now : Z) (n : NewArtifact) : Artifact :=
  mkArtifact (n_id n) now (n_root n) (n_source n) (n_creator_dir n) (n_work n) (n_file_name n) (n_type n)
    (n_file_size n) (n_mtime_ns n) None (n_download n) None None (n_state n) 0 None None.

Definition should_refresh (r : Artifact) (n : NewArtifact) : bool :=
  negb (bool_decide (a_mtime_ns r = n_mtime_ns n)) || bool_decide (a_state r = "failed").

(** The row differs in what the completion proof is about. *)
Definition describes_other (r : Artifact) (n : NewArtifact) : bool :=
  negb (bool_decide (a_file_size r = n_file_size n) && bool_decide (a_source r = n_source n) &&
        bool_decide (a_creator_dir r = n_creator_dir n) && bool_decide (a_work r = n_work n) &&
        bool_decide (a_file_name r = n_file_name n) && bool_decide (a_type r = n_type n)).

(** [ON CONFLICT DO UPDATE] *)
Definition refreshed_row (r : Artifact) (n : NewArtifact) : Artifact :=
  let refresh := should_refresh r n in
  mkArtifact (a_id r) (a_created_at r) (a_root r) (n_source n) (n_creator_dir n) (n_work n) (n_file_name n)
    (n_type n) (n_file_size n) (n_mtime_ns n) (if refresh || describes_other r n then None else a_proof r)
    (if refresh then n_download n else a_download r) (if refresh then None else a_import r)
    (if refresh then None else a_token r) (if refresh then "new" else a_state r) (a_attempts r)
    (a_last_error r) (if refresh then None else a_expires r).

Definition upsert_one (now : Z) (A : Artifacts) (n : NewArtifact) : Artifacts :=
  <[artifact_key n := match A !! artifact_key n with
                      | None => inserted_row now n
                      | Some r => refreshed_row r n
                      end]> A.

(** One statement may not touch a row twice (cardinality violation). *)
Definition upsert_chunk (now : Z) (A : Artifacts) (batch : list NewArtifact) : result string Artifacts :=
  guard_or (bool_decide (NoDup (artifact_key <$> batch)))
    "ON CONFLICT DO UPDATE command cannot affect row a second time" ≫= λ _,
  Ok (foldl (upsert_one now) A batch).

Definition known_type (n : NewArtifact) : bool := negb (bool_decide (n_type n = "unknown")).

Definition upsert_many (now : Z) (new_rows : list NewArtifact) (chunk_size : nat) (A : Artifacts)
    : result string Artifacts :=
  foldM (upsert_chunk now) A (chunks chunk_size (List.filter known_type new_rows)).

(** ** Conditions on rows *)

Definition downloads_artifact_predicate (r : Artifact) : bool := bool_decide (a_root r = "downloads").

Definition is_metadata (r : Artifact) : bool := bool_decide (a_type r = "metadata_json").

(** An unexpired lease. *)
Definition live (now : Z) (r : Artifact) : bool :=
  bool_decide (a_state r = "importing") && match a_expires r with Some t => now <? t | None => false end.

Definition eligible (now : Z) (r : Artifact) : bool :=
  bool_decide (a_state r = "new") ||
  bool_decide (a_state r = "importing") && match a_expires r with None => true | Some t => t <? now end.

Definition retryable (now : Z) (r : Artifact) : bool :=
  bool_decide (a_state r = "failed") ||
  bool_decide (a_state r = "importing") && match a_expires r with None => true | Some t => t <=? now end.

Definition execution_is_active (db : Db) (import token : Z) : bool :=
  match imports db !! import with
  | Some i => bool_decide (im_token i = Some token) && bool_decide (im_status i = "running")
  | None => false
  end.

(** ** Assignments *)

(** What every assignment writes besides its own columns. *)
Definition set_lease (state : string) (token expires : option Z) (error : option string) (r : Artifact) : Artifact :=
  mkArtifact (a_id r) (a_created_at r) (a_root r) (a_source r) (a_creator_dir r) (a_work r) (a_file_name r)
    (a_type r) (a_file_size r) (a_mtime_ns r) None (a_download r) (a_import r) token state (a_attempts r) error expires.

(** [order_by(created_at, id)] *)
Definition created_before (x y : Artifact) : bool :=
  (a_created_at x <? a_created_at y) || (a_created_at x =? a_created_at y) && (a_id x <? a_id y).

Definition new_metadata_paths (download : Z) (import : option Z) (A : Artifacts) : list string :=
  (λ kr, kr.1.2) <$> order_by (λ x y, created_before x.2 y.2) (List.filter (λ kr,
    downloads_artifact_predicate kr.2 && bool_decide (a_download kr.2 = Some download) && is_metadata kr.2 &&
    bool_decide (a_state kr.2 ∈ ["new"; "importing"]) &&
    match import with Some i => bool_decide (a_import kr.2 = Some i) | None => true end) (map_to_list A)).

(** [reset_retry_assignment] *)
Definition reset_retry_assignment (now download import : Z) (A : Artifacts) : Artifacts :=
  update_where (λ r, downloads_artifact_predicate r && bool_decide (a_download r = Some download) &&
                     bool_decide (a_import r = Some import) && retryable now r)
    (set_lease "new" None None None) A.

(** ** Claiming works *)

Record WorkClaimBatch := mkClaim {
  claimed : list string;
  contended : list string;
  existing : list string }.

Definition same_identity (r r' : Artifact) : bool :=
  bool_decide (a_source r' = a_source r) && bool_decide (a_work r' = a_work r).

Definition active_identity_lease (now : Z) (A : Artifacts) (r : Artifact) : bool :=
  existsb (λ r', downloads_artifact_predicate r' && same_identity r r' && is_metadata r' && live now r') (rows A).

(** The arguments of a claim. *)
Record ClaimRequest := mkRequest {
  q_download : Z;
  q_import : Z;
  q_token : Z;
  q_source : option string;
  q_works : option (list string);
  q_limit : Z;
  q_lease_seconds : Z }.

Definition claim_limit (q : ClaimRequest) : nat := Z.to_nat (Z.max 1 (Z.min (q_limit q) 25)).
Definition claim_candidates (q : ClaimRequest) : option (list string) :=
  (λ l, take (claim_limit q) (fromkeys l)) <$> q_works q.

(** The scope of a claim: the source, or else the download job. *)
Definition in_scope (q : ClaimRequest) (r : Artifact) : bool :=
  match q_source q with
  | Some s => bool_decide (a_source r = s)
  | None => bool_decide (a_download r = Some (q_download q))
  end.

Section Claim.
Context (now : Z) (db : Db) (works : list (string * string)) (locked : gset Z).

(** [WHERE] of the ranked metadata rows. *)
Definition claimable (q : ClaimRequest) (A : Artifacts) (r : Artifact) : bool :=
  downloads_artifact_predicate r && in_scope q r &&
  match claim_candidates q with Some l => bool_decide (a_work r ∈ l) | None => true end &&
  is_metadata r && eligible now r && execution_is_active db (q_import q) (q_token q) &&
  negb (active_identity_lease now A r) &&
  match q_source q with Some s => negb (bool_decide ((s, a_work r) ∈ works)) | None => true end.

(** [work_rank == 1] *)
Definition representatives (l : list Artifact) : list Artifact :=
  List.filter (λ r, forallb (λ r', negb (same_identity r r' && created_before r' r)) l) l.

Definition select_claimed (q : ClaimRequest) (A : Artifacts) : list string :=
  let unlocked r := negb (bool_decide (a_id r ∈ locked)) in
  fromkeys (a_work <$> take (claim_limit q)
    (order_by created_before (List.filter unlocked (representatives (List.filter (claimable q A) (rows A)))))).

Definition lease_row (q : ClaimRequest) (r : Artifact) : Artifact :=
  mkArtifact (a_id r) (a_created_at r) (a_root r) (a_source r) (a_creator_dir r) (a_work r) (a_file_name r)
    (a_type r) (a_file_size r) (a_mtime_ns r) None (a_download r) (Some (q_import q)) (Some (q_token q))
    "importing" (a_attempts r + if is_metadata r then 1 else 0) None (Some (now + q_lease_seconds q)).

Definition lease_works (q : ClaimRequest) (l : list string) (A : Artifacts) : Artifacts :=
  update_where (λ r, downloads_artifact_predicate r && in_scope q r && bool_decide (a_work r ∈ l) && eligible now r)
    (lease_row q) A.

(** The bulk update of [mark_works]; the clock is read once. *)
Record MarkRequest := mkMark {
  m_download : Z;
  m_works : list string;
  m_state : string;
  m_error : option string;
  m_chunk_size : nat;
  m_import : option Z;
  m_token : option Z;
  m_source : option string;
  m_preserve_active_leases : bool }.

Definition mark_condition (m : MarkRequest) (values : list string) (r : Artifact) : bool :=
  downloads_artifact_predicate r && bool_decide (a_work r ∈ values) &&
  match m_token m with
  | None => match m_source m with
            | Some s => bool_decide (a_source r = s)
            | None => bool_decide (a_download r = Some (m_download m))
            end
  | Some _ => true
  end &&
  match m_import m with Some i => bool_decide (a_import r = Some i) | None => true end &&
  match m_token m with
  | Some t => bool_decide (a_token r = Some t) &&
              match m_import m with Some i => execution_is_active db i t | None => true end
  | None => true
  end &&
  (if m_preserve_active_leases m then negb (live now r) else true).

Definition mark_works (m : MarkRequest) (A : Artifacts) : Artifacts :=
  foldl (λ A values, update_where (mark_condition m values) (set_lease (m_state m) None None (m_error m)) A) A
    (chunks (m_chunk_size m) (fromkeys (m_works m))).

(** [claim_work_batch] *)
Definition claim_work_batch (q : ClaimRequest) (A : Artifacts) : WorkClaimBatch * Artifacts :=
  if bool_decide (claim_candidates q = Some []) then (mkClaim [] [] [], A)
  else
    let won := select_claimed q A in
    let A1 := if bool_decide (won = []) then A else lease_works q won A in
    let candidates := default [] (claim_candidates q) in
    let ordered := match claim_candidates q with
                   | None => won
                   | Some l => List.filter (λ v, bool_decide (v ∈ won)) l
                   end in
    let lost := List.filter (λ v, negb (bool_decide (v ∈ won))) candidates in
    match q_source q with
    | Some s =>
        let known := List.filter (λ v, bool_decide ((s, v) ∈ works)) lost in
        let rest := List.filter (λ v, negb (bool_decide ((s, v) ∈ works))) lost in
        (mkClaim ordered rest known,
         if bool_decide (known = []) then A1
         else mark_works (mkMark (q_download q) known "done" None 1000 None None (Some s) true) A1)
    | None => (mkClaim ordered lost [], A1)
    end.

(** ** Holding works *)

Definition renewable (import token : Z) (values : list string) (r : Artifact) : bool :=
  downloads_artifact_predicate r && bool_decide (a_work r ∈ values) && is_metadata r &&
  bool_decide (a_import r = Some import) && bool_decide (a_token r = Some token) &&
  execution_is_active db import token && live now r.

(** [renew_work_leases]: the works still owned, and the table. *)
Definition renew_work_leases (import token : Z) (works : list string) (lease_seconds : Z) (A : Artifacts)
    : gset string * Artifacts :=
  let cond := renewable import token (fromkeys works) in
  (returning cond A,
   update_where cond (λ r, set_lease (a_state r) (a_token r) (Some (now + lease_seconds)) (a_last_error r) r) A).

Definition mark_work (download : Z) (work state : string) (error : option string) (A : Artifacts) : Artifacts :=
  update_where (λ r, downloads_artifact_predicate r && bool_decide (a_download r = Some download) &&
                     bool_decide (a_work r = work)) (set_lease state None None error) A.

(** The condition of [mark_work_results] for the works of one batch. *)
Definition result_condition (download : Z) (import token : option Z) (values : list string) (r : Artifact) : bool :=
  downloads_artifact_predicate r && bool_decide (a_work r ∈ values) &&
  match token with None => bool_decide (a_download r = Some download) | Some _ => true end &&
  match import with Some i => bool_decide (a_import r = Some i) | None => true end &&
  match token with
  | Some t => bool_decide (a_token r = Some t) &&
              match import with Some i => execution_is_active db i t | None => true end
  | None => true
  end.

(** [results] is the dict of outcomes, by work. *)
Definition result_row (batch : list (string * (string * option string))) (r : Artifact) : Artifact :=
  match assoc (a_work r) batch with
  | Some (state, error) => set_lease state None None error r
  | None => set_lease (a_state r) None None (a_last_error r) r
  end.

Definition mark_work_results (download : Z) (results : list (string * (string * option string)))
    (import token : option Z) (A : Artifacts) : gset string * Artifacts :=
  foldl (λ '(changed, A) batch,
    let cond := result_condition download import token batch.*1 in
    (changed ∪ returning cond A, update_where cond (result_row batch) A)) (∅, A) (chunks 500 results).

(** [release_owned_leases] *)
Definition release_owned_leases (import token : Z) (A : Artifacts) : gset string * Artifacts :=
  let cond r := downloads_artifact_predicate r && bool_decide (a_import r = Some import) &&
                bool_decide (a_token r = Some token) && bool_decide (a_state r = "importing") in
  (returning cond A, update_where cond (λ r, set_lease "new" None None (a_last_error r) r) A).
End Claim.
