(* ===== verification/ArtifactLedgerFacts.v ===== *)
(** * Facts about the artifact ledger

    Updates row by row, chunks, what a claim selects, and re-registration of
    files. *)

From stdpp Require Import base gmap strings list numbers.
From S2P Require Import Prelude TaskState TaskRuns Keyset TaskPipeline ArtifactLedger.

Open Scope string_scope.
Open Scope Z_scope.

(** ** Rows and updates *)

Definition has_row (A : Artifacts) (r : Artifact) : Prop := ∃ k, A !! k = Some r.

Lemma elem_of_rows A r : r ∈ rows A ↔ has_row A r.
Proof.
  unfold rows, has_row. rewrite list_elem_of_fmap. split.
  - intros ([k r'] & -> & H%elem_of_map_to_list). by exists k.
  - intros [k H]. exists (k, r). split; [done|]. by apply elem_of_map_to_list.
Qed.

Lemma lookup_update_where cond f A k :
  update_where cond f A !! k = (λ r, if cond r then f r else r) <$> A !! k.
Proof. apply lookup_fmap. Qed.

Lemma has_row_update cond f A r :
  has_row (update_where cond f A) r ↔ ∃ r0, has_row A r0 ∧ r = if cond r0 then f r0 else r0.
Proof.
  unfold has_row. setoid_rewrite lookup_update_where. setoid_rewrite fmap_Some. naive_solver.
Qed.

Lemma update_where_none cond f A : (∀ r, cond r = false) → update_where cond f A = A.
Proof.
  intros H. apply map_eq. intros k. rewrite lookup_update_where.
  destruct (A !! k) as [r|]; cbn; [by rewrite H|done].
Qed.

Lemma update_where_ext cond cond' f A : (∀ r, cond r = cond' r) → update_where cond f A = update_where cond' f A.
Proof. intros H. apply map_fmap_ext. intros k r _. by rewrite H. Qed.

Lemma update_ids cond f A : (∀ r, a_id (f r) = a_id r) → a_id <$> rows (update_where cond f A) = a_id <$> rows A.
Proof.
  intros Hf. unfold rows, update_where. rewrite map_to_list_fmap, <-!list_fmap_compose.
  apply list_fmap_ext. intros i [k r] _. cbn. destruct (cond r); [apply Hf|done].
Qed.

Lemma elem_of_returning cond A v :
  v ∈ returning cond A ↔ ∃ r, has_row A r ∧ cond r = true ∧ a_work r = v.
Proof.
  unfold returning. rewrite elem_of_list_to_set, list_elem_of_fmap. setoid_rewrite list_elem_of_In.
  setoid_rewrite List.filter_In. setoid_rewrite <-list_elem_of_In. setoid_rewrite elem_of_rows. naive_solver.
Qed.

Lemma returning_none cond A : (∀ r, cond r = false) → returning cond A = ∅.
Proof. intros H. apply set_eq. intros v. rewrite elem_of_returning, elem_of_empty. naive_solver congruence. Qed.

(** ** Chunks *)

Lemma concat_take {X} (size k : nat) (l : list X) :
  concat ((λ i, take size (drop (i * size) l)) <$> seq 0 k) = take (k * size) l.
Proof.
  induction k as [|k IH]; [done|].
  rewrite seq_S, fmap_app, concat_app, IH. cbn [fmap list_fmap concat]. rewrite app_nil_r, Nat.add_0_l.
  replace (S k * size)%nat with (k * size + size)%nat by lia. by rewrite take_take_drop.
Qed.

Lemma concat_chunks {X} (size : nat) (l : list X) : (0 < size)%nat → concat (chunks size l) = l.
Proof.
  intros H. unfold chunks. rewrite concat_take. apply take_ge.
  pose proof (Nat.div_mod_eq (length l + (size - 1)) size). pose proof (Nat.mod_upper_bound (length l + (size - 1)) size).
  nia.
Qed.

(** A size of zero leaves no chunk. *)
Lemma concat_chunks_sublist {X} (size : nat) (l : list X) : sublist (concat (chunks size l)) l.
Proof. destruct size as [|size]; [apply sublist_nil_l|]. by rewrite concat_chunks by lia. Qed.

(** ** Registering files *)

Lemma upsert_chunk_fold now A batch A' : upsert_chunk now A batch = Ok A' → A' = foldl (upsert_one now) A batch.
Proof. unfold upsert_chunk. intros (? & _ & [= <-])%result_bind_ok. done. Qed.

Lemma upsert_chunks_fold now A batches A' : foldM (upsert_chunk now) A batches = Ok A' →
  A' = foldl (upsert_one now) A (concat batches).
Proof.
  revert A. induction batches as [|b bs IH]; intros A; cbn; [by intros [= ->]|].
  intros (A1 & ->%upsert_chunk_fold & H)%result_bind_ok. rewrite foldl_app. by apply IH.
Qed.

(** Rows with distinct paths never collide inside a statement. *)
Lemma upsert_chunks_ok now A batches : NoDup (artifact_key <$> concat batches) →
  foldM (upsert_chunk now) A batches = Ok (foldl (upsert_one now) A (concat batches)).
Proof.
  revert A. induction batches as [|b bs IH]; intros A; cbn [concat foldM]; [done|].
  rewrite fmap_app. intros (Hb & _ & Hbs)%list.NoDup_app.
  assert (upsert_chunk now A b = Ok (foldl (upsert_one now) A b)) as ->
    by (unfold upsert_chunk; by rewrite bool_decide_true by done).
  cbn [mbind result_bind]. rewrite (IH _ Hbs). by rewrite foldl_app.
Qed.

Lemma upsert_many_fold now new_rows size A : (0 < size)%nat → NoDup (artifact_key <$> new_rows) →
  upsert_many now new_rows size A = Ok (foldl (upsert_one now) A (List.filter known_type new_rows)).
Proof.
  intros Hs Hn. unfold upsert_many. rewrite upsert_chunks_ok; rewrite concat_chunks by done; [done|].
  eapply sublist_NoDup; [exact Hn|]. apply fmap_sublist, filter_sublist.
Qed.

(** What registering writes, path by path. *)
Definition registered_row (now : Z) (old : option Artifact) (n : NewArtifact) : Artifact :=
  match old with None => inserted_row now n | Some r => refreshed_row r n end.

Lemma lookup_upserts now new_rows A k : NoDup (artifact_key <$> new_rows) →
  foldl (upsert_one now) A new_rows !! k =
  match list_find (λ n, artifact_key n = k) new_rows with
  | Some (_, n) => Some (registered_row now (A !! k) n)
  | None => A !! k
  end.
Proof.
  revert A. induction new_rows as [|n l IH]; intros A; cbn [foldl fmap list_fmap list_find]; [done|].
  intros [Hn Hl]%list.NoDup_cons. rewrite (IH _ Hl). unfold upsert_one.
  destruct (decide (artifact_key n = k)) as [<-|Hk].
  - rewrite lookup_insert_eq.
    destruct (list_find _ l) as [[i n']|] eqn:E; [|by destruct (A !! artifact_key n)].
    apply list_find_Some in E as (E1 & E2 & _). destruct Hn. rewrite <-E2.
    apply list_elem_of_fmap. exists n'. split; [done|by eapply list_elem_of_lookup_2].
  - rewrite lookup_insert_ne by done. by destruct (list_find _ l) as [[i n']|].
Qed.

Lemma registered_again now now' old n : n_state n ≠ "failed" →
  registered_row now' (Some (registered_row now old n)) n = registered_row now old n.
Proof.
  intros Hn. destruct old as [r|]; unfold registered_row.
  - unfold refreshed_row at 1. set (r' := refreshed_row r n).
    assert (should_refresh r' n = false ∧ describes_other r' n = false) as [-> ->].
    { split; [|unfold describes_other; cbn; by rewrite !bool_decide_true by done].
      unfold should_refresh at 1. cbn. rewrite (bool_decide_true (n_mtime_ns n = _)) by done. cbn.
      destruct (should_refresh r n) eqn:E; [done|]. by apply orb_false_iff in E as [_ ->]. }
    reflexivity.
  - unfold refreshed_row.
    assert (should_refresh (inserted_row now n) n = false ∧ describes_other (inserted_row now n) n = false) as [-> ->].
    { split; [|unfold describes_other; cbn; by rewrite !bool_decide_true by done].
      unfold should_refresh. cbn. rewrite (bool_decide_true (n_mtime_ns n = _)) by done. by rewrite bool_decide_false. }
    reflexivity.
Qed.

(** ** Minimal elements *)

Lemma minimal_exists {X} (lt : X → X → bool) (P : X → Prop) `{∀ x, Decision (P x)} (l : list X) :
  (∀ x, lt x x = false) → (∀ x y z, lt x y = true → lt y z = true → lt x z = true) →
  (∃ x, x ∈ l ∧ P x) → ∃ x, x ∈ l ∧ P x ∧ ∀ y, y ∈ l → P y → lt y x = false.
Proof.
  intros Hi Ht. induction l as [|a l IH]; intros (x & Hx & HP); [by apply elem_of_nil in Hx|].
  destruct (decide (Exists P l)) as [(y & Hy & HPy)%list.Exists_exists|Hno].
  - destruct IH as (m & Hm & HPm & Hmin); [by exists y|].
    destruct (decide (P a)) as [HPa|HPa].
    + destruct (lt a m) eqn:Eam.
      * exists a. split; [by left|]. split; [done|]. intros z [->|Hz]%elem_of_cons HPz; [done|].
        destruct (lt z a) eqn:Eza; [|done]. by rewrite <-(Hmin z Hz HPz), (Ht _ _ _ Eza Eam).
      * exists m. split; [by right|]. split; [done|]. intros z [->|Hz]%elem_of_cons HPz; [done|by apply Hmin].
    + exists m. split; [by right|]. split; [done|]. intros z [->|Hz]%elem_of_cons HPz; [done|by apply Hmin].
  - apply elem_of_cons in Hx as [->|Hx].
    + exists a. split; [by left|]. split; [done|]. intros z [->|Hz]%elem_of_cons HPz; [done|].
      destruct Hno. apply list.Exists_exists. by exists z.
    + destruct Hno. apply list.Exists_exists. by exists x.
Qed.

Lemma created_before_lex x y : created_before x y = true ↔
  a_created_at x < a_created_at y ∨ a_created_at x = a_created_at y ∧ a_id x < a_id y.
Proof. unfold created_before. rewrite orb_true_iff, andb_true_iff, !Z.ltb_lt, Z.eqb_eq. tauto. Qed.

Lemma created_before_irrefl x : created_before x x = false.
Proof. apply not_true_is_false. rewrite created_before_lex. lia. Qed.
Lemma created_before_trans x y z : created_before x y = true → created_before y z = true → created_before x z = true.
Proof. rewrite !created_before_lex. lia. Qed.

Lemma same_identity_iff r r' : same_identity r r' = true ↔ a_source r' = a_source r ∧ a_work r' = a_work r.
Proof. unfold same_identity. by rewrite andb_true_iff, !bool_decide_eq_true. Qed.

(** ** Representatives *)

Lemma elem_of_representatives l r : r ∈ representatives l ↔
  r ∈ l ∧ ∀ r', r' ∈ l → same_identity r r' = true → created_before r' r = false.
Proof.
  unfold representatives. rewrite list_elem_of_In, List.filter_In, forallb_forall, <-list_elem_of_In.
  setoid_rewrite <-list_elem_of_In. split; intros [Hr H]; (split; [done|]).
  - intros r' Hr' Hs. specialize (H r' Hr'). rewrite Hs in H. by apply negb_true_iff in H.
  - intros r' Hr'. apply negb_true_iff. destruct (same_identity r r') eqn:E; [|done]. by rewrite (H r' Hr' E).
Qed.

Lemma representative_exists l r : r ∈ l → ∃ r0, r0 ∈ representatives l ∧ same_identity r r0 = true.
Proof.
  intros Hr.
  destruct (minimal_exists created_before (λ x, same_identity r x = true) l) as (m & Hm & Hs & Hmin).
  - apply created_before_irrefl.
  - apply created_before_trans.
  - exists r. split; [done|]. by apply same_identity_iff.
  - exists m. split; [|done]. apply elem_of_representatives. split; [done|]. intros r' Hr' Hs'.
    apply Hmin; [done|]. apply same_identity_iff in Hs, Hs'. apply same_identity_iff. intuition congruence.
Qed.

Lemma representative_unique l r r' : NoDup (a_id <$> l) → r ∈ representatives l → r' ∈ representatives l →
  same_identity r r' = true → r = r'.
Proof.
  intros Hn [Hr Hm]%elem_of_representatives [Hr' Hm']%elem_of_representatives Hs.
  assert (a_id r = a_id r') as Hid.
  { pose proof (Hm r' Hr' Hs) as H1. assert (created_before r r' = false) as H2.
    { apply Hm'; [done|]. apply same_identity_iff in Hs. apply same_identity_iff. intuition congruence. }
    apply not_true_iff_false in H1, H2. rewrite created_before_lex in H1, H2. lia. }
  apply list_elem_of_lookup in Hr as [i Hi], Hr' as [k Hk].
  assert (i = k) as ->; [|congruence]. eapply NoDup_lookup; [exact Hn|..]; rewrite list_lookup_fmap.
  - by rewrite Hi.
  - rewrite Hk. cbn. by rewrite Hid.
Qed.

(** ** What a claim selects *)

Lemma execution_active db j t : execution_is_active db j t = true ↔
  ∃ i, imports db !! j = Some i ∧ im_token i = Some t ∧ im_status i = "running".
Proof.
  unfold execution_is_active. destruct (imports db !! j) as [i|]; [|naive_solver].
  rewrite andb_true_iff, !bool_decide_eq_true. naive_solver.
Qed.

Lemma active_lease now A r : active_identity_lease now A r = true ↔
  ∃ r', has_row A r' ∧ a_root r' = "downloads" ∧ is_metadata r' = true ∧ live now r' = true ∧
    a_source r' = a_source r ∧ a_work r' = a_work r.
Proof.
  unfold active_identity_lease, downloads_artifact_predicate. rewrite existsb_exists.
  setoid_rewrite andb_true_iff. setoid_rewrite andb_true_iff. setoid_rewrite andb_true_iff.
  setoid_rewrite bool_decide_eq_true. setoid_rewrite same_identity_iff. setoid_rewrite <-list_elem_of_In.
  setoid_rewrite elem_of_rows. naive_solver.
Qed.

Section ClaimFacts.
Context (now : Z) (db : Db) (works : list (string * string)) (locked : gset Z) (q : ClaimRequest) (A : Artifacts).
Context (s : string) (Hsource : q_source q = Some s).

(** The conditions of a claim by source. *)
Lemma claimable_iff r : claimable now db works q A r = true ↔
  a_root r = "downloads" ∧ a_source r = s ∧ (∀ l, claim_candidates q = Some l → a_work r ∈ l) ∧
  is_metadata r = true ∧ eligible now r = true ∧ execution_is_active db (q_import q) (q_token q) = true ∧
  active_identity_lease now A r = false ∧ ((s, a_work r) ∉ works).
Proof.
  unfold claimable, in_scope, downloads_artifact_predicate. rewrite Hsource, !andb_true_iff, !negb_true_iff.
  rewrite bool_decide_eq_false, !bool_decide_eq_true.
  destruct (claim_candidates q) as [l|]; rewrite ?bool_decide_eq_true; naive_solver.
Qed.

Lemma selected v : v ∈ select_claimed now db works locked q A →
  ∃ r, has_row A r ∧ claimable now db works q A r = true ∧ a_work r = v.
Proof.
  unfold select_claimed. rewrite elem_of_fromkeys, list_elem_of_fmap.
  intros (r & -> & H). apply elem_of_take in H as (i & H & _). apply list_elem_of_lookup_2 in H.
  rewrite order_by_perm, list_elem_of_In, List.filter_In, <-list_elem_of_In in H. destruct H as [H _].
  apply elem_of_representatives in H as [H _]. rewrite list_elem_of_In, List.filter_In, <-list_elem_of_In in H.
  exists r. destruct H as [H Hc]. split; [by apply elem_of_rows|done].
Qed.

(** With distinct row ids nothing claimable is missed, unless it is locked. *)
Lemma selects_all r : NoDup (a_id <$> rows A) → is_Some (q_works q) →
  has_row A r → claimable now db works q A r = true →
  (∀ r', has_row A r' → a_source r' = s → a_work r' = a_work r → (a_id r' ∉ locked)) →
  a_work r ∈ select_claimed now db works locked q A.
Proof.
  intros Hids [ws Hws] Hr Hc Hlock.
  set (l := List.filter (claimable now db works q A) (rows A)).
  assert (∀ x, x ∈ l ↔ has_row A x ∧ claimable now db works q A x = true) as Hl
    by (intros x; unfold l; by rewrite list_elem_of_In, List.filter_In, <-list_elem_of_In, elem_of_rows).
  assert (NoDup (a_id <$> l)) as Hnl.
  { eapply sublist_NoDup; [exact Hids|]. apply fmap_sublist, filter_sublist. }
  set (unlocked := λ r, negb (bool_decide (a_id r ∈ locked))).
  set (reps := List.filter unlocked (representatives l)).
  assert (∀ x, x ∈ reps → x ∈ representatives l) as Hreps
    by (intros x; unfold reps; rewrite list_elem_of_In, List.filter_In, <-list_elem_of_In; by intros []).
  assert (∀ x, x ∈ representatives l → a_source x = s ∧ ∀ c, claim_candidates q = Some c → a_work x ∈ c) as Hprop.
  { intros x [Hx _]%elem_of_representatives. apply Hl in Hx as [_ Hx%claimable_iff]. tauto. }
  assert (NoDup (a_work <$> reps)) as Hnd.
  { apply NoDup_fmap_2_strong.
    - intros x y Hx%Hreps Hy%Hreps E. apply (representative_unique l); try done. apply same_identity_iff.
      split; [|done]. by rewrite (proj1 (Hprop x Hx)), (proj1 (Hprop y Hy)).
    - eapply sublist_NoDup; [|apply filter_sublist]. eapply sublist_NoDup; [|apply filter_sublist].
      by eapply NoDup_fmap_1. }
  assert (length reps <= claim_limit q)%nat as Hlen.
  { rewrite <-(length_fmap a_work). etransitivity; [apply (submseteq_length _ (take (claim_limit q) (fromkeys ws)))|].
    - apply NoDup_submseteq; [done|]. intros v (x & -> & Hx%Hreps)%list_elem_of_fmap.
      apply (proj2 (Hprop x Hx)). unfold claim_candidates. by rewrite Hws.
    - rewrite length_take. lia. }
  unfold select_claimed. fold l. fold unlocked. fold reps. rewrite elem_of_fromkeys, take_ge by (by rewrite order_by_perm).
  destruct (representative_exists l r) as (r0 & Hr0 & Hs0); [by apply Hl|].
  apply same_identity_iff in Hs0 as [Es Ew]. apply list_elem_of_fmap. exists r0. split; [done|].
  rewrite order_by_perm. unfold reps. rewrite list_elem_of_In, List.filter_In, <-list_elem_of_In. split; [done|].
  apply negb_true_iff, bool_decide_eq_false. apply Hlock; [|by apply Hprop|done].
  apply elem_of_representatives in Hr0 as [Hr0 _]. by apply Hl in Hr0 as [? _].
Qed.
End ClaimFacts.
