(* ===== verification/ArtifactImport.v ===== *)
(** * Import executions over the artifact ledger

    The batch loop of [backend/app/jobs/import_runner.py] as a transition
    system: executions claim works, renew their leases while they prepare
    media, insert the works they still own in the transaction of a renewal, and
    checkpoint the results; files are registered, jobs move through the task
    pipeline, leases expire, executions crash and are retried meanwhile. *)

From stdpp Require Import base gmap strings list numbers.
From S2P Require Import Prelude TaskState TaskRuns Keyset TaskPipeline TaskEngine TaskPipelineFacts TaskPipelineSteps TaskCommands ArtifactLedger ArtifactLedgerFacts.

Open Scope string_scope.
Open Scope Z_scope.

(** ** Worlds *)

(** [w_works] are the works inserted so far (rows of [work_sources]);
    [w_held] the works an execution holds in its current slice
    ([_ArtifactBatchLease.owned]). *)
Record World := mkWorld {
  w_db : Db;
  w_artifacts : Artifacts;
  w_works : list (string * string);
  w_held : gmap (Z * Z) (gset string) }.

Definition empty_world : World := mkWorld empty_db ∅ [] ∅.

Definition held (w : World) (import token : Z) : gset string := default ∅ (w_held w !! (import, token)).

(** The downloads with an unexpired lease, which the action policy reads. *)
Definition leased_downloads (now : Z) (A : Artifacts) : gset Z :=
  list_to_set (omap (λ r, match a_expires r with
                          | Some t => if now <? t then a_download r else None
                          | None => None end) (rows A)).
Definition with_leases (w : World) : Db :=
  let db := w_db w in
  mkDb (now db) (downloads db) (imports db) (tasks db) (leased_downloads (now db) (w_artifacts w)) (controls db).

Definition IMPORT_ARTIFACT_LEASE_SECONDS : Z := 900.
Definition IMPORT_WORK_BATCH_SIZE : Z := 25.

(** [renew_once] of [_artifact_batch_lease_guard]: keep what is still owned. *)
Definition renew_once (import token : Z) (w : World) : World :=
  let mine := held w import token in
  if bool_decide (mine = ∅) then w
  else let '(owned, A') := renew_work_leases (now (w_db w)) (w_db w) import token (elements mine)
                             IMPORT_ARTIFACT_LEASE_SECONDS (w_artifacts w) in
       mkWorld (w_db w) A' (w_works w) (<[(import, token) := mine ∩ owned]> (w_held w)).

(** A path is always parsed to the same source, work and type. *)
Definition same_file (A : Artifacts) (n : NewArtifact) : Prop :=
  ∀ r, A !! artifact_key n = Some r → a_source r = n_source n ∧ a_work r = n_work n ∧ a_type r = n_type n.

(** A metadata row under a live lease. *)
Definition leased (now : Z) (r : Artifact) : Prop :=
  a_root r = "downloads" ∧ is_metadata r = true ∧ live now r = true.

Section Imports.
(** The [source] column of a download job. *)
Context (source_of : Z → string).

(** The claim of the batch loop. *)
Definition batch_claim (import token : Z) (i : ImportJob) (works : list string) (work_units : Z) : ClaimRequest :=
  mkRequest (im_download i) import token (Some (source_of (im_download i))) (Some works)
    (Z.min IMPORT_WORK_BATCH_SIZE work_units) IMPORT_ARTIFACT_LEASE_SECONDS.

Inductive import_step (w : World) : World → Prop :=
| is_pipeline db' : pipeline_step (with_leases w) db' → now (w_db w) <= now db' →
    import_step w (mkWorld db' (w_artifacts w) (w_works w) (w_held w))
| is_claim import token i works work_units locked c A' : imports (w_db w) !! import = Some i →
    claim_work_batch (now (w_db w)) (w_db w) (w_works w) locked (batch_claim import token i works work_units)
      (w_artifacts w) = (c, A') →
    import_step w (mkWorld (w_db w) A' (w_works w) (<[(import, token) := list_to_set (claimed c)]> (w_held w)))
| is_heartbeat import token : import_step w (renew_once import token w)
| is_commit import token i built owned inserted A' : imports (w_db w) !! import = Some i →
    built ⊆ held w import token →
    renew_work_leases (now (w_db w)) (w_db w) import token (elements built) IMPORT_ARTIFACT_LEASE_SECONDS
      (w_artifacts w) = (owned, A') →
    NoDup inserted → list_to_set inserted ⊆ built ∩ owned →
    import_step w (mkWorld (w_db w) A' (w_works w ++ ((source_of (im_download i),.) <$> inserted))
      (<[(import, token) := held w import token ∖ list_to_set inserted]> (w_held w)))
| is_results download import token results changed A' :
    mark_work_results (w_db w) download results (Some import) (Some token) (w_artifacts w) = (changed, A') →
    import_step w (mkWorld (w_db w) A' (w_works w) (w_held w))
| is_mark m :
    import_step w (mkWorld (w_db w) (mark_works (now (w_db w)) (w_db w) m (w_artifacts w)) (w_works w) (w_held w))
| is_release import token :
    import_step w (mkWorld (_release_import_execution import token (w_db w))
      (release_owned_leases import token (w_artifacts w)).2 (w_works w) (delete (import, token) (w_held w)))
| is_reset download import :
    import_step w (mkWorld (w_db w) (reset_retry_assignment (now (w_db w)) download import (w_artifacts w))
      (w_works w) (w_held w))
| is_register new_rows chunk_size A' : Forall (same_file (w_artifacts w)) new_rows →
    NoDup (artifact_key <$> new_rows) →
    upsert_many (now (w_db w)) new_rows chunk_size (w_artifacts w) = Ok A' →
    import_step w (mkWorld (w_db w) A' (w_works w) (w_held w))
| is_crash import token :
    import_step w (mkWorld (w_db w) (w_artifacts w) (w_works w) (delete (import, token) (w_held w))).

Inductive reachable_world : World → Prop :=
| reachable_start : reachable_world empty_world
| reachable_next w w' : reachable_world w → import_step w w' → reachable_world w'.

(** ** The invariant *)

Record Inv (w : World) : Prop := {
  inv_mirrored : mirrored (w_db w);
  (** one execution for each work *)
  inv_same : ∀ r r', has_row (w_artifacts w) r → has_row (w_artifacts w) r' →
    leased (now (w_db w)) r → leased (now (w_db w)) r' → a_source r' = a_source r → a_work r' = a_work r →
    a_import r' = a_import r ∧ a_token r' = a_token r;
  (** of an import of that source *)
  inv_owner : ∀ r, has_row (w_artifacts w) r → leased (now (w_db w)) r →
    ∃ j i, a_import r = Some j ∧ imports (w_db w) !! j = Some i ∧ a_source r = source_of (im_download i);
  (** which has not inserted it, if it still holds it *)
  inv_held : ∀ r j t, has_row (w_artifacts w) r → leased (now (w_db w)) r → a_import r = Some j →
    a_token r = Some t → a_work r ∈ held w j t → ((a_source r, a_work r) ∉ w_works w);
  inv_works : NoDup (w_works w) }.

(** ** Steps that only take leases away *)

(** The same work, held by the same execution. *)
Definition same_lease (r r' : Artifact) : Prop :=
  a_source r = a_source r' ∧ a_work r = a_work r' ∧ a_import r = a_import r' ∧ a_token r = a_token r'.

Definition shrinks (now : Z) (A A' : Artifacts) : Prop :=
  ∀ r', has_row A' r' → leased now r' → ∃ r, has_row A r ∧ leased now r ∧ same_lease r r'.

Lemma shrinks_refl now A : shrinks now A A.
Proof. intros r Hr Hl. by exists r. Qed.
Lemma shrinks_trans now A1 A2 A3 : shrinks now A1 A2 → shrinks now A2 A3 → shrinks now A1 A3.
Proof.
  intros H1 H2 r3 Hr3 Hl3. destruct (H2 r3 Hr3 Hl3) as (r2 & Hr2 & Hl2 & E2).
  destruct (H1 r2 Hr2 Hl2) as (r1 & Hr1 & Hl1 & E1). exists r1. split; [done|]. split; [done|].
  unfold same_lease in *. intuition congruence.
Qed.

Lemma update_shrinks now cond f A :
  (∀ r, cond r = true → leased now (f r) → leased now r ∧ same_lease r (f r)) → shrinks now A (update_where cond f A).
Proof.
  intros Hf r' (r & Hr & ->)%has_row_update Hl. exists r. split; [done|].
  destruct (cond r) eqn:E; [by apply Hf|done].
Qed.

Lemma not_leased now st tok err r : ¬ leased now (set_lease st tok None err r).
Proof. unfold leased, live. cbn. rewrite andb_false_r. naive_solver. Qed.

Lemma clear_shrinks now cond (st : Artifact → string) tok (err : Artifact → option string) A :
  shrinks now A (update_where cond (λ r, set_lease (st r) tok None (err r) r) A).
Proof. apply update_shrinks. intros r _ H. by apply not_leased in H. Qed.

Lemma results_shrink now db download results j t A :
  shrinks now A (mark_work_results db download results j t A).2.
Proof.
  unfold mark_work_results.
  assert (∀ bs X (B : Artifacts), shrinks now A B →
    shrinks now A (foldl (λ '(changed, A) batch,
      let cond := result_condition db download j t batch.*1 in
      (changed ∪ returning cond A, update_where cond (result_row batch) A)) (X, B) bs).2) as H;
    [|apply H, shrinks_refl].
  induction bs as [|b bs IH]; intros X B HB; cbn [foldl]; [done|]. apply IH.
  eapply shrinks_trans; [exact HB|]. apply update_shrinks. intros r _ Hl. exfalso. revert Hl.
  unfold result_row. destruct (assoc (a_work r) b) as [[st err]|]; apply not_leased.
Qed.

Lemma marks_shrink now db m A : shrinks now A (mark_works now db m A).
Proof.
  unfold mark_works. generalize (chunks (m_chunk_size m) (fromkeys (m_works m))). intros bs.
  assert (∀ B, shrinks now A B → shrinks now A (foldl (λ A values,
    update_where (mark_condition now db m values) (set_lease (m_state m) None None (m_error m)) A) B bs)) as H;
    [|apply H, shrinks_refl].
  induction bs as [|b bs IH]; intros B HB; cbn [foldl]; [done|]. apply IH.
  eapply shrinks_trans; [exact HB|]. by apply (clear_shrinks _ _ (λ _, m_state m) None (λ _, m_error m)).
Qed.

Lemma renew_shrinks now db j t ws secs A : shrinks now A (renew_work_leases now db j t ws secs A).2.
Proof.
  apply update_shrinks. unfold renewable. intros r. rewrite !andb_true_iff. intros Hc (H1 & H2 & _).
  split; [|done]. split; [done|]. split; [exact H2|]. tauto.
Qed.

(** ** Registering *)

Lemma refreshed_lease now r n : a_source r = n_source n → a_work r = n_work n → a_type r = n_type n →
  leased now (refreshed_row r n) → leased now r ∧ same_lease r (refreshed_row r n).
Proof.
  intros Es Ew Et. unfold leased, live, is_metadata, same_lease, refreshed_row. cbn.
  destruct (should_refresh r n); [intros (_ & _ & H); by rewrite andb_false_r in H|].
  rewrite Es, Ew, Et. tauto.
Qed.

Lemma upserts_shrink now t new_rows A : NoDup (artifact_key <$> new_rows) → Forall (same_file A) new_rows →
  shrinks now A (foldl (upsert_one t) A new_rows).
Proof.
  intros Hn Hs r' [k Hk] Hl. rewrite lookup_upserts in Hk by done.
  destruct (list_find _ new_rows) as [[i n]|] eqn:E; [|exists r'; split; [by exists k|done]].
  apply list_find_Some in E as (Hi & <- & _). apply list_elem_of_lookup_2 in Hi.
  rewrite list.Forall_forall in Hs. specialize (Hs n Hi). injection Hk as <-. unfold registered_row in *.
  destruct (A !! artifact_key n) as [r|] eqn:Er; [|by destruct Hl as (_ & _ & Hl); unfold live in Hl; rewrite andb_false_r in Hl].
  destruct (Hs r Er) as (Es & Ew & Et). destruct (refreshed_lease now r n Es Ew Et Hl) as [Hlr Hsame].
  exists r. split; [by exists (artifact_key n)|done].
Qed.

(** ** The invariant is kept *)

Lemma inv_shrink w A' held' : Inv w → shrinks (now (w_db w)) (w_artifacts w) A' →
  (∀ j t v, v ∈ default ∅ (held' !! (j, t)) → v ∈ held w j t) →
  Inv (mkWorld (w_db w) A' (w_works w) held').
Proof.
  intros [Hm Hs Ho Hh Hn] HA Hheld. split; cbn; try done.
  - intros r r' Hr Hr' Hl Hl' Es Ew.
    destruct (HA r Hr Hl) as (x & Hx & Hlx & X1 & X2 & X3 & X4).
    destruct (HA r' Hr' Hl') as (y & Hy & Hly & Y1 & Y2 & Y3 & Y4).
    destruct (Hs x y Hx Hy Hlx Hly) as [E1 E2]; [congruence|congruence|]. split; congruence.
  - intros r Hr Hl. destruct (HA r Hr Hl) as (x & Hx & Hlx & X1 & X2 & X3 & X4).
    destruct (Ho x Hx Hlx) as (j & i & Ej & Hi & Es). exists j, i. split_and!; congruence.
  - intros r j t Hr Hl Ej Et Hv. destruct (HA r Hr Hl) as (x & Hx & Hlx & X1 & X2 & X3 & X4).
    rewrite <-X1, <-X2. apply (Hh x j t Hx Hlx); [congruence|congruence|]. rewrite X2. by apply Hheld.
Qed.

(** The clock advances and the jobs move. *)
Lemma inv_pipeline w db' : Inv w → mirrored db' → respects (w_db w) db' → now (w_db w) <= now db' →
  Inv (mkWorld db' (w_artifacts w) (w_works w) (w_held w)).
Proof.
  intros [Hm Hs Ho Hh Hn] Hm' [R1 _ R3] Ht.
  assert (∀ r, leased (now db') r → leased (now (w_db w)) r) as Hl.
  { intros r (H1 & H2 & H3). split; [done|]. split; [done|]. revert H3. unfold live.
    rewrite !andb_true_iff. intros [? H]. split; [done|]. destruct (a_expires r); [|done].
    apply Z.ltb_lt in H. apply Z.ltb_lt. lia. }
  split; cbn; try done.
  - intros r r' Hr Hr' H1%Hl H2%Hl. by apply Hs.
  - intros r Hr H1%Hl. destruct (Ho r Hr H1) as (j & i & Ej & Hi & Es).
    destruct (R3 j) as [i' Hi']; [by rewrite Hi|]. destruct (R1 j i i' Hi Hi') as [_ Hd].
    exists j, i'. by rewrite Hd.
  - intros r j t Hr H1%Hl. by apply Hh.
Qed.

(** Rows after a lease was taken: as before, or leased to the claimant. *)
Lemma lease_works_rows now q l A r' : has_row (lease_works now q l A) r' →
  has_row A r' ∨ ∃ r, has_row A r ∧ r' = lease_row now q r ∧ in_scope q r = true ∧ a_work r ∈ l ∧ eligible now r = true.
Proof.
  intros (r & Hr & ->)%has_row_update. destruct (_ && _) eqn:E; [|by left]. right. exists r.
  rewrite !andb_true_iff, bool_decide_eq_true in E. tauto.
Qed.

Lemma not_eligible_live now r : eligible now r = true → live now r = false.
Proof.
  unfold eligible, live. rewrite orb_true_iff, andb_true_iff, !bool_decide_eq_true.
  intros [-> | [-> H]]; [done|]. destruct (a_expires r) as [t|]; [|done]. apply Z.ltb_lt in H.
  cbn. apply Z.ltb_ge. lia.
Qed.

Lemma inv_lease w j t i ws units locked A' : Inv w → imports (w_db w) !! j = Some i →
  let q := batch_claim j t i ws units in
  let won := select_claimed (now (w_db w)) (w_db w) (w_works w) locked q (w_artifacts w) in
  A' = (if bool_decide (won = []) then w_artifacts w else lease_works (now (w_db w)) q won (w_artifacts w)) →
  Inv (mkWorld (w_db w) A' (w_works w) (<[(j, t) := list_to_set won]> (w_held w))).
Proof.
  intros HI Hi q won HA. pose proof HI as [Hm Hs Ho Hh Hn]. set (s := source_of (im_download i)) in *.
  assert (∀ v, v ∈ won → ((s, v) ∉ w_works w) ∧
    ∀ r, has_row (w_artifacts w) r → leased (now (w_db w)) r → a_source r = s → a_work r ≠ v) as Hwon.
  { intros v Hv. destruct (selected _ _ _ _ _ _ v Hv) as (r & Hr & Hc & <-).
    apply (claimable_iff _ _ _ q _ s eq_refl) in Hc as (_ & Es & _ & _ & _ & _ & Hact & Hnew).
    split; [done|]. intros r' Hr' (L1 & L2 & L3) Es' Ew. apply not_true_iff_false in Hact. apply Hact, active_lease.
    exists r'. split_and!; congruence. }
  assert (∀ r', has_row A' r' → leased (now (w_db w)) r' →
    has_row (w_artifacts w) r' ∧ (a_source r' = s → a_work r' ∉ won) ∨
    a_source r' = s ∧ a_work r' ∈ won ∧ a_import r' = Some j ∧ a_token r' = Some t) as Hrows.
  { intros r' Hr' Hl.
    assert (has_row (w_artifacts w) r' → a_source r' = s → a_work r' ∉ won) as Hold
      by (intros Hr Es Hin; by apply (proj2 (Hwon _ Hin) r' Hr Hl)).
    rewrite HA in Hr'. destruct (bool_decide (won = [])); [by left; auto|].
    apply lease_works_rows in Hr' as [Hr'|(r & Hr & -> & Hsc & Hin & _)]; [by left; auto|]. right.
    cbn in Hsc. apply bool_decide_eq_true in Hsc. by split_and!. }
  split; cbn; try done.
  - intros r r' Hr Hr' Hl Hl' Es Ew.
    destruct (Hrows r Hr Hl) as [[R1 R2]|(R1 & R2 & R3 & R4)], (Hrows r' Hr' Hl') as [[S1 S2]|(S1 & S2 & S3 & S4)].
    + by apply Hs.
    + destruct R2; [congruence|]. by rewrite <-Ew.
    + destruct S2; [congruence|]. by rewrite Ew.
    + split; congruence.
  - intros r Hr Hl. destruct (Hrows r Hr Hl) as [[R1 R2]|(R1 & R2 & R3 & R4)]; [by apply Ho|]. by exists j, i.
  - intros r j' t' Hr Hl Ej Et. unfold held. cbn.
    destruct (Hrows r Hr Hl) as [[R1 R2]|(R1 & R2 & R3 & R4)].
    + destruct (base.decide ((j, t) = (j', t'))) as [[= <- <-]|Hne].
      * rewrite lookup_insert_eq. cbn. rewrite elem_of_list_to_set. intros Hin.
        destruct (Ho r R1 Hl) as (j0 & i0 & E0 & Hi0 & Es0). assert (j0 = j) as -> by congruence.
        assert (i0 = i) as -> by congruence. by destruct (R2 Es0).
      * rewrite lookup_insert_ne by done. by apply (Hh r j' t').
    + intros _. rewrite R1. by apply Hwon.
Qed.

(** A claim by source reports as claimed what it selected among its candidates. *)
Lemma claim_by_source now db works locked j t i ws units A c A' :
  let q := batch_claim j t i ws units in
  let won := select_claimed now db works locked q A in
  claim_work_batch now db works locked q A = (c, A') →
  (∀ v, v ∈ claimed c → v ∈ won) ∧
  shrinks now (if bool_decide (won = []) then A else lease_works now q won A) A'.
Proof.
  intros q won. unfold claim_work_batch. fold won. case_bool_decide as Hnil.
  - intros [= <- <-]. split; [by intros v Hv%elem_of_nil|].
    assert (won = []) as ->; [|apply shrinks_refl].
    apply elem_of_nil_inv. intros v Hv. destruct (selected _ _ _ _ _ _ v Hv) as (r & _ & Hc & _).
    apply (claimable_iff _ _ _ q _ (source_of (im_download i)) eq_refl) in Hc as (_ & _ & Hl & _).
    by apply (elem_of_nil (a_work r)), Hl.
  - cbn [q_source q batch_claim]. destruct (claim_candidates q) as [l|] eqn:El; [|done]. cbn [default from_option].
    intros [= <- <-]. cbn [claimed]. split_and!.
    + intros v. rewrite list_elem_of_In, List.filter_In, bool_decide_eq_true. by intros [].
    + match goal with |- shrinks _ _ (if ?b then _ else _) => destruct b end; [apply shrinks_refl|apply marks_shrink].
Qed.

Lemma inv_claim w j t i ws units locked c A' : Inv w → imports (w_db w) !! j = Some i →
  claim_work_batch (now (w_db w)) (w_db w) (w_works w) locked (batch_claim j t i ws units) (w_artifacts w) = (c, A') →
  Inv (mkWorld (w_db w) A' (w_works w) (<[(j, t) := list_to_set (claimed c)]> (w_held w))).
Proof.
  intros HI Hi Hc. apply claim_by_source in Hc as [Hsub HA].
  eapply (inv_shrink (mkWorld _ _ _ _)); [by eapply inv_lease|exact HA|].
  intros j' t' v. unfold held. cbn. destruct (base.decide ((j, t) = (j', t'))) as [<-|Hne].
  - rewrite !lookup_insert_eq. cbn. rewrite !elem_of_list_to_set. apply Hsub.
  - by rewrite !lookup_insert_ne.
Qed.

(** A smaller set of held works. *)
Lemma held_insert w j t X j' t' v : X ⊆ held w j t →
  v ∈ default ∅ (<[(j, t) := X]> (w_held w) !! (j', t')) → v ∈ held w j' t'.
Proof.
  intros HX. destruct (base.decide ((j, t) = (j', t'))) as [[= <- <-]|Hne].
  - rewrite lookup_insert_eq. cbn. apply HX.
  - by rewrite lookup_insert_ne.
Qed.
Lemma held_delete w k j' t' v : v ∈ default ∅ (delete k (w_held w) !! (j', t')) → v ∈ held w j' t'.
Proof.
  destruct (base.decide (k = (j', t'))) as [->|Hne].
  - by rewrite lookup_delete_eq.
  - by rewrite lookup_delete_ne.
Qed.

(** Works inserted under a renewed lease are new, and no one else holds them. *)
Lemma inv_commit w j t i built owned inserted A' : Inv w → imports (w_db w) !! j = Some i →
  built ⊆ held w j t →
  renew_work_leases (now (w_db w)) (w_db w) j t (elements built) IMPORT_ARTIFACT_LEASE_SECONDS (w_artifacts w) =
    (owned, A') →
  NoDup inserted → list_to_set inserted ⊆ built ∩ owned →
  Inv (mkWorld (w_db w) A' (w_works w ++ ((source_of (im_download i),.) <$> inserted))
         (<[(j, t) := held w j t ∖ list_to_set inserted]> (w_held w))).
Proof.
  intros HI Hi Hb Hr Hnd Hins. set (s := source_of (im_download i)).
  pose proof (renew_shrinks (now (w_db w)) (w_db w) j t (elements built) IMPORT_ARTIFACT_LEASE_SECONDS (w_artifacts w)) as HA.
  rewrite Hr in HA. pose proof HI as [Hm Hs Ho Hh Hn].
  assert (∀ v, v ∈ inserted → ∃ r, has_row (w_artifacts w) r ∧ leased (now (w_db w)) r ∧ a_import r = Some j ∧
    a_token r = Some t ∧ a_source r = s ∧ a_work r = v) as Hrow.
  { intros v Hv. assert (v ∈ owned) as Hvo by set_solver. injection Hr as <- _.
    apply elem_of_returning in Hvo as (r & Hr & Hc & <-). exists r. unfold renewable in Hc.
    rewrite !andb_true_iff, !bool_decide_eq_true in Hc. destruct Hc as ((((((H1 & _) & H3) & H4) & H5) & _) & H7).
    assert (leased (now (w_db w)) r) as Hl by (split; [by apply bool_decide_eq_true in H1|done]).
    destruct (Ho r Hr Hl) as (j0 & i0 & E0 & Hi0 & Es0). rewrite H4 in E0. injection E0 as <-.
    rewrite Hi in Hi0. injection Hi0 as <-. done. }
  assert (∀ v, v ∈ inserted → (s, v) ∉ w_works w) as Hnew.
  { intros v Hv. destruct (Hrow v Hv) as (r & Hr0 & Hl & Ej & Et & Es & <-). rewrite <-Es.
    apply (Hh r j t Hr0 Hl Ej Et). set_solver. }
  assert (Inv (mkWorld (w_db w) A' (w_works w) (<[(j, t) := held w j t ∖ list_to_set inserted]> (w_held w)))) as [Hm' Hs' Ho' Hh' _].
  { apply inv_shrink; [done|done|]. intros j' t' v. apply held_insert. set_solver. }
  split; cbn in *; try done.
  - intros r j' t' Hr0 Hl Ej Et Hv [Hin|Hin]%elem_of_app; [by apply (Hh' r j' t' Hr0 Hl Ej Et)|].
    apply list_elem_of_fmap in Hin as (v & [= Es Ev] & Hin).
    destruct (Hrow v Hin) as (r1 & Hr1 & Hl1 & Ej1 & Et1 & Es1 & Ew1).
    destruct (HA r Hr0 Hl) as (x & Hx & Hlx & X1 & X2 & X3 & X4).
    destruct (Hs x r1 Hx Hr1 Hlx Hl1) as [E1 E2]; [congruence|congruence|].
    assert (j' = j) as -> by congruence. assert (t' = t) as -> by congruence.
    revert Hv. unfold held. cbn. rewrite lookup_insert_eq. cbn. rewrite Ev. set_solver.
  - apply list.NoDup_app. split; [done|]. split.
    + intros x Hx (v & -> & Hv)%list_elem_of_fmap. by apply (Hnew v Hv).
    + by apply NoDup_fmap_2; [intros ? ? [=]|].
Qed.

Lemma with_leases_mirrored w : mirrored (w_db w) → mirrored (with_leases w).
Proof. by apply mirrored_same. Qed.

Lemma inv_step w w' : Inv w → import_step w w' → Inv w'.
Proof.
  intros HI. destruct 1 as [db' Hp Ht|j t i ws units locked c A' Hi Hc|j t|
    j t i built owned inserted A' Hi Hb Hr Hnd Hins|d j t results changed A' Hr|m|j t|d j|new size A' Hf Hn Hu|j t].
  - pose proof (with_leases_mirrored w (inv_mirrored w HI)) as Hm0.
    destruct (step_good _ _ Hm0 Hp) as [Hm [R1 R2 R3]]. by apply inv_pipeline.
  - by eapply inv_claim.
  - unfold renew_once. case_bool_decide; [done|].
    pose proof (renew_shrinks (now (w_db w)) (w_db w) j t (elements (held w j t)) IMPORT_ARTIFACT_LEASE_SECONDS (w_artifacts w)) as HA.
    destruct (renew_work_leases _ _ _ _ _ _ _) as [owned A'].
    apply inv_shrink; [done|done|intros ? ? ?; apply held_insert; set_solver].
  - by eapply inv_commit.
  - apply inv_shrink; [done| |done].
    pose proof (results_shrink (now (w_db w)) (w_db w) d results (Some j) (Some t) (w_artifacts w)) as HA. by rewrite Hr in HA.
  - apply inv_shrink; [done|apply marks_shrink|done].
  - apply (inv_pipeline (mkWorld (w_db w) _ _ _)).
    + apply inv_shrink; [done| |intros ? ? ?; apply held_delete].
      by apply (clear_shrinks _ _ (λ _, "new") None a_last_error).
    + by apply release_good, inv_mirrored.
    + by apply release_good, inv_mirrored.
    + cbn. unfold _release_import_execution. destruct (imports (w_db w) !! j) as [i|]; [case_bool_decide|]; cbn; lia.
  - apply inv_shrink; [done| |done]. by apply (clear_shrinks _ _ (λ _, "new") None (λ _, None)).
  - apply inv_shrink; [done| |done]. unfold upsert_many in Hu. apply upsert_chunks_fold in Hu as ->.
    assert (sublist (concat (chunks size (List.filter known_type new))) new) as Hsub
      by (etransitivity; [apply concat_chunks_sublist|apply filter_sublist]).
    apply upserts_shrink; [by eapply sublist_NoDup, fmap_sublist|].
    rewrite list.Forall_forall in Hf |- *. intros n Hn0. apply Hf. by eapply elem_of_sublist.
  - apply inv_shrink; [done|apply shrinks_refl|]. intros ? ? ?. apply held_delete.
Qed.

Lemma reachable_inv w : reachable_world w → Inv w.
Proof.
  induction 1 as [|w w' _ IH Hs]; [|by eapply inv_step].
  assert (∀ r, ¬ has_row ∅ r) as Hno by (by intros r [k Hk]).
  split; cbn.
  - apply reachable_mirrored, reachable_empty.
  - intros r r' Hr. by destruct (Hno r).
  - intros r Hr. by destruct (Hno r).
  - intros r j t Hr. by destruct (Hno r).
  - constructor.
Qed.
End Imports.
