(* ===== verification/ArtifactLedgerSpec.v ===== *)
(** * What the artifact ledger promises

    Works are imported once, by the one execution that holds their lease; an
    execution that lost its import changes nothing; what a claim returns and
    writes; failed works are claimed again after a retry; registering the same
    files again changes nothing. *)

From stdpp Require Import base gmap strings list numbers.
From S2P Require Import Prelude TaskState TaskRuns Keyset TaskPipeline TaskEngine TaskPipelineFacts TaskPipelineSteps TaskCommands TaskPipelineSpec ArtifactLedger ArtifactLedgerFacts ArtifactImport.

Open Scope string_scope.
Open Scope Z_scope.

(** ** Bulk marks in one statement *)

Lemma marks_fold (cond : list string → Artifact → bool) st err bs A k :
  foldl (λ A values, update_where (cond values) (set_lease st None None err) A) A bs !! k =
  (λ r, if existsb (λ b, cond b r) bs then set_lease st None None err r else r) <$> A !! k.
Proof.
  revert A. induction bs as [|b bs IH]; intros A; cbn [foldl existsb].
  - symmetry. by destruct (A !! k).
  - rewrite IH, lookup_update_where. destruct (A !! k) as [r|]; cbn; [|done]. f_equal.
    destruct (cond b r); cbn; [|done]. by destruct (existsb _ bs).
Qed.

Lemma mark_condition_works now db m vs r :
  mark_condition now db m vs r = bool_decide (a_work r ∈ vs) && mark_condition now db m [a_work r] r.
Proof.
  unfold mark_condition. rewrite (bool_decide_true (a_work r ∈ [a_work r])) by (by left).
  destruct (downloads_artifact_predicate r), (bool_decide (a_work r ∈ vs)); reflexivity.
Qed.

Lemma existsb_chunks now db m bs r :
  existsb (λ b, mark_condition now db m b r) bs = mark_condition now db m (concat bs) r.
Proof.
  rewrite (mark_condition_works now db m (concat bs)). induction bs as [|b bs IH]; cbn [existsb concat].
  - rewrite bool_decide_false by apply not_elem_of_nil. done.
  - rewrite IH, mark_condition_works, <-andb_orb_distrib_l. f_equal.
    apply eq_true_iff_eq. rewrite orb_true_iff, !bool_decide_eq_true, elem_of_app. done.
Qed.

(** [mark_works] does the same in chunks as in one statement. *)
Lemma mark_works_at_once now db m A : (0 < m_chunk_size m)%nat →
  mark_works now db m A =
  update_where (mark_condition now db m (fromkeys (m_works m))) (set_lease (m_state m) None None (m_error m)) A.
Proof.
  intros Hs. apply map_eq. intros k. unfold mark_works. rewrite marks_fold, lookup_update_where.
  destruct (A !! k) as [r|]; cbn; [|done]. by rewrite existsb_chunks, concat_chunks.
Qed.

(** ** What a claim by source writes *)

Section ClaimOutcome.
Context (now : Z) (db : Db) (works : list (string * string)) (locked : gset Z) (q : ClaimRequest) (A : Artifacts).
Context (s : string) (l : list string) (Hsource : q_source q = Some s) (Hworks : q_works q = Some l).

Abbreviation won := (select_claimed now db works locked q A).

Lemma candidates_eq : claim_candidates q = Some (take (claim_limit q) (fromkeys l)).
Proof. unfold claim_candidates. by rewrite Hworks. Qed.

Lemma won_candidates v : v ∈ won → v ∈ take (claim_limit q) (fromkeys l) ∧ ((s, v) ∉ works).
Proof.
  intros (r & _ & Hc & <-)%selected. apply (claimable_iff _ _ _ _ _ s Hsource) in Hc as (_ & _ & Hl & _ & _ & _ & _ & Hn).
  split; [|done]. apply Hl, candidates_eq.
Qed.

Lemma empty_works f B : update_where (λ r, downloads_artifact_predicate r && bool_decide (a_work r ∈ []) &&
  bool_decide (a_source r = s) && negb (live now r)) f B = B.
Proof.
  apply update_where_none. intros r. rewrite (bool_decide_false (_ ∈ [])) by apply not_elem_of_nil. by rewrite andb_false_r.
Qed.

(** The parts of the answer. *)
Lemma claim_parts c A' : claim_work_batch now db works locked q A = (c, A') →
  let cs := take (claim_limit q) (fromkeys l) in
  let lost := List.filter (λ v, negb (bool_decide (v ∈ won))) cs in
  claimed c = List.filter (λ v, bool_decide (v ∈ won)) cs ∧
  existing c = List.filter (λ v, bool_decide ((s, v) ∈ works)) lost ∧
  contended c = List.filter (λ v, negb (bool_decide ((s, v) ∈ works))) lost ∧
  A' = update_where (λ r, downloads_artifact_predicate r && bool_decide (a_work r ∈ existing c) &&
                          bool_decide (a_source r = s) && negb (live now r))
         (set_lease "done" None None None) (lease_works now q won A).
Proof.
  intros Hclaim cs lost. set (known := List.filter (λ v, bool_decide ((s, v) ∈ works)) lost).
  set (marked := λ A, update_where (λ r, downloads_artifact_predicate r && bool_decide (a_work r ∈ known) &&
                          bool_decide (a_source r = s) && negb (live now r)) (set_lease "done" None None None) A).
  assert (∀ A, (if bool_decide (known = []) then A
    else mark_works now db (mkMark (q_download q) known "done" None 1000 None None (Some s) true) A) = marked A) as Hmark.
  { intros B. unfold marked. case_bool_decide as Hk.
    - rewrite Hk. by rewrite empty_works.
    - rewrite mark_works_at_once by (cbn; lia). apply update_where_ext. intros r. unfold mark_condition. cbn.
      rewrite !andb_true_r. do 3 f_equal. apply bool_decide_ext, elem_of_fromkeys. }
  assert ((if bool_decide (won = []) then A else lease_works now q won A) = lease_works now q won A) as Hlease.
  { destruct (bool_decide_reflect (won = [])) as [Hw|_]; [|done]. rewrite Hw. unfold lease_works. symmetry. apply update_where_none. intros r.
    rewrite (bool_decide_false (_ ∈ [])) by apply not_elem_of_nil. by rewrite andb_false_r. }
  revert Hclaim. unfold claim_work_batch. rewrite candidates_eq, Hsource. cbn [default from_option]. fold cs. fold lost. fold known.
  rewrite Hlease, Hmark. destruct (bool_decide_reflect (Some cs = Some [])) as [Hnil|_].
  - intros [= <- <-]. injection Hnil as Hcs. unfold marked, known, lost. rewrite Hcs. cbn. split_and!; try done.
    rewrite empty_works, <-Hlease, bool_decide_true; [done|]. apply elem_of_nil_inv.
    intros v [Hv _]%won_candidates. fold cs in Hv. rewrite Hcs in Hv. by apply elem_of_nil in Hv.
  - intros [= <- <-]. done.
Qed.

Lemma filter_split {X} (p : X → bool) (xs : list X) :
  xs ≡ₚ (List.filter p xs ++ List.filter (λ x, negb (p x)) xs)%list.
Proof.
  induction xs as [|x xs IH]; cbn; [done|]. destruct (p x); cbn; rewrite IH at 1; [done|].
  apply Permutation_middle.
Qed.
End ClaimOutcome.

(** ** Executions that lost their import *)

Lemma result_inactive db download j t vs r : execution_is_active db j t = false →
  result_condition db download (Some j) (Some t) vs r = false.
Proof. intros H. unfold result_condition. by rewrite H, !andb_false_r. Qed.

Lemma results_inactive db download results j t A : execution_is_active db j t = false →
  mark_work_results db download results (Some j) (Some t) A = (∅, A).
Proof.
  intros H. unfold mark_work_results. induction (chunks 500 results) as [|b bs IH]; [done|]. cbn [foldl].
  rewrite returning_none, update_where_none by (intros r; by apply result_inactive). rewrite union_empty_l_L. apply IH.
Qed.

(** ** The claims *)

(** C27: Each work is imported at most once: whatever executions claim, renew,
    crash, lose their leases or are retried, and however leases expire, the
    list of works inserted by the batch loop never has a work twice. *)
Theorem work_imported_once source_of w : reachable_world source_of w → NoDup (w_works w).
Proof. intros H%reachable_inv. by destruct H. Qed.

(** At any moment at most one execution can renew its lease on a work: if
    two executions of imports of the same source both get the work back from
    [renew_work_leases], they are the same execution. *)
Theorem one_execution_renews source_of w j1 t1 i1 ws1 j2 t2 i2 ws2 v seconds : reachable_world source_of w →
  imports (w_db w) !! j1 = Some i1 → imports (w_db w) !! j2 = Some i2 →
  source_of (im_download i1) = source_of (im_download i2) →
  v ∈ (renew_work_leases (now (w_db w)) (w_db w) j1 t1 ws1 seconds (w_artifacts w)).1 →
  v ∈ (renew_work_leases (now (w_db w)) (w_db w) j2 t2 ws2 seconds (w_artifacts w)).1 →
  j1 = j2 ∧ t1 = t2.
Proof.
  intros [_ Hs Ho _ _]%reachable_inv Hi1 Hi2 Hsrc H1 H2.
  assert (∀ j t i ws, imports (w_db w) !! j = Some i →
    v ∈ (renew_work_leases (now (w_db w)) (w_db w) j t ws seconds (w_artifacts w)).1 →
    ∃ r, has_row (w_artifacts w) r ∧ leased (now (w_db w)) r ∧ a_import r = Some j ∧ a_token r = Some t ∧
      a_source r = source_of (im_download i) ∧ a_work r = v) as Hrow.
  { intros j t i ws Hi (r & Hr & Hc & Hw)%elem_of_returning. exists r. unfold renewable in Hc.
    rewrite !andb_true_iff, !bool_decide_eq_true in Hc. destruct Hc as ((((((E1 & _) & E3) & E4) & E5) & _) & E7).
    assert (leased (now (w_db w)) r) as Hl by (split; [by apply bool_decide_eq_true in E1|done]).
    destruct (Ho r Hr Hl) as (j0 & i0 & E0 & Hi0 & Es0). rewrite E4 in E0. injection E0 as <-.
    rewrite Hi in Hi0. by injection Hi0 as <-. }
  destruct (Hrow j1 t1 i1 ws1 Hi1 H1) as (r1 & R1 & L1 & J1 & T1 & S1 & W1).
  destruct (Hrow j2 t2 i2 ws2 Hi2 H2) as (r2 & R2 & L2 & J2 & T2 & S2 & W2).
  destruct (Hs r1 r2 R1 R2 L1 L2) as [E1 E2]; [congruence|congruence|]. split; congruence.
Qed.


(** What a claim by source answers and writes: the first candidates up to
    the limit of at most 25 are split into claimed, contended and existing
    works; every claimable artifact of a claimed work is leased to the execution,
    artifacts of existing works without a live lease are closed, and every other
    row stays. *)
Theorem claim_outcome now db works locked q A s l c A' : q_source q = Some s → q_works q = Some l →
  claim_work_batch now db works locked q A = (c, A') →
  (claimed c ++ contended c ++ existing c)%list ≡ₚ take (claim_limit q) (fromkeys l) ∧
  (length (claimed c ++ contended c ++ existing c)%list <= 25)%nat ∧
  (∀ v, v ∈ existing c → (s, v) ∈ works) ∧ (∀ v, v ∈ (claimed c ++ contended c)%list → (s, v) ∉ works) ∧
  (∀ k r, A !! k = Some r → a_source r = s ∧ a_root r = "downloads" →
    A' !! k = Some (if bool_decide (a_work r ∈ claimed c) && eligible now r then lease_row now q r
                    else if bool_decide (a_work r ∈ existing c) && negb (live now r)
                    then set_lease "done" None None None r else r)) ∧
  (∀ k r, A !! k = Some r → a_source r ≠ s ∨ a_root r ≠ "downloads" → A' !! k = Some r).
Proof.
  intros Hs Hl Hc. destruct (claim_parts now db works locked q A s l Hs Hl c A' Hc) as (E1 & E2 & E3 & EA).
  set (cs := take _ _) in *. pose proof (won_candidates now db works locked q A s l Hs Hl) as Hwon.
  set (won := select_claimed now db works locked q A) in *.
  assert (∀ v, v ∈ claimed c ↔ v ∈ won) as Hcl.
  { intros v. rewrite E1, list_elem_of_In, List.filter_In, bool_decide_eq_true, <-list_elem_of_In.
    split; [by intros []|]. intros Hv. by destruct (Hwon v Hv). }
  assert ((claimed c ++ contended c ++ existing c)%list ≡ₚ cs) as Hperm.
  { rewrite E1, E2, E3. rewrite (filter_split (λ v, bool_decide (v ∈ won)) cs) at 4. f_equiv.
    rewrite (Permutation_app_comm (List.filter _ _) (List.filter _ _)). symmetry. apply filter_split. }
  split_and!; [exact Hperm|..].
  - rewrite Hperm. unfold cs, claim_limit. rewrite length_take. lia.
  - intros v. rewrite E2, list_elem_of_In, List.filter_In, bool_decide_eq_true. by intros [].
  - intros v [Hv|Hv]%elem_of_app; [by apply Hwon, Hcl|]. revert Hv.
    rewrite E3, list_elem_of_In, List.filter_In, negb_true_iff, bool_decide_eq_false. by intros [].
  - intros k r Hr [Es Ed]. rewrite EA. unfold lease_works. rewrite !lookup_update_where, Hr. cbn. f_equal.
    assert (downloads_artifact_predicate r = true) as Hd by (by apply bool_decide_eq_true).
    assert (in_scope q r = true) as Hsc by (unfold in_scope; rewrite Hs; by apply bool_decide_eq_true).
    rewrite Hd, Hsc, (bool_decide_ext _ _ (Hcl (a_work r))). cbn [andb].
    destruct (bool_decide_reflect (a_work r ∈ won)) as [Hw|Hw]; cbn [andb].
    + assert (bool_decide (a_work r ∈ existing c) = false) as He.
      { apply bool_decide_eq_false. rewrite E2, list_elem_of_In, List.filter_In, bool_decide_eq_true.
        intros [_ Hin]. by apply (proj2 (Hwon _ Hw)). }
      destruct (eligible now r); cbn; rewrite He; [by rewrite andb_false_r|by rewrite Hd].
    + by rewrite Hd, (bool_decide_true (a_source r = s)), andb_true_r by done.
  - intros k r Hr Ho. rewrite EA. unfold lease_works. rewrite !lookup_update_where, Hr. cbn. f_equal.
    assert (downloads_artifact_predicate r && in_scope q r = false ∧
      downloads_artifact_predicate r && bool_decide (a_source r = s) = false) as [F1 F2].
    { unfold downloads_artifact_predicate, in_scope. rewrite Hs. split; apply andb_false_iff;
        rewrite !bool_decide_eq_false; tauto. }
    rewrite F1. cbn [andb]. rewrite <-(andb_assoc (downloads_artifact_predicate r)), (andb_comm (bool_decide _)), andb_assoc, F2.
    done.
Qed.

(** A retried import gets its failed works back: once the retry has reset the
    ledger, a claim by the running execution claims every failed or abandoned
    work of the import that is among its candidates, not imported yet, not under
    a live lease, and not locked by another transaction. *)
Theorem failed_work_claimed_again now db works locked download q l s r A :
  q_works q = Some l → q_source q = Some s → NoDup (a_id <$> rows A) →
  execution_is_active db (q_import q) (q_token q) = true →
  has_row A r → a_root r = "downloads" → a_source r = s → is_metadata r = true → retryable now r = true →
  a_download r = Some download → a_import r = Some (q_import q) →
  a_work r ∈ take (claim_limit q) (fromkeys l) → ((s, a_work r) ∉ works) →
  active_identity_lease now A r = false →
  (∀ r', has_row A r' → a_source r' = s → a_work r' = a_work r → (a_id r' ∉ locked)) →
  a_work r ∈ claimed (claim_work_batch now db works locked q (reset_retry_assignment now download (q_import q) A)).1.
Proof.
  intros Hl Hs Hids Hact Hr Hd Hsrc Hm Hretry Hdl Him Hcand Hnew Hlease Hlock.
  set (A1 := reset_retry_assignment now download (q_import q) A).
  set (r1 := set_lease "new" None None None r).
  assert (∀ r', has_row A1 r' → ∃ r0, has_row A r0 ∧ a_id r' = a_id r0 ∧ a_root r' = a_root r0 ∧
    a_source r' = a_source r0 ∧ a_work r' = a_work r0 ∧ a_type r' = a_type r0 ∧ (live now r' = true → live now r0 = true))
    as Hback.
  { intros r' (r0 & Hr0 & ->)%has_row_update. exists r0. split; [done|].
    destruct (_ && _); [|done]. split_and!; [done..|]. unfold live. cbn. by rewrite andb_false_r. }
  assert (has_row A1 r1) as Hr1.
  { apply has_row_update. exists r. split; [done|]. unfold downloads_artifact_predicate.
    by rewrite Hd, Hdl, Him, Hretry, !bool_decide_true. }
  assert (NoDup (a_id <$> rows A1)) as Hids1 by (unfold A1, reset_retry_assignment; by rewrite update_ids).
  destruct (claim_work_batch now db works locked q A1) as [c A'] eqn:Hc.
  destruct (claim_parts now db works locked q A1 s l Hs Hl c A' Hc) as (E1 & _). cbn [fst]. rewrite E1.
  rewrite list_elem_of_In, List.filter_In, bool_decide_eq_true, <-list_elem_of_In. split; [done|].
  change (a_work r) with (a_work r1).
  apply (selects_all now db works locked q A1 s Hs r1); [done|by rewrite Hl|done| |].
  - apply (claimable_iff _ _ _ _ _ s Hs). split_and!; try done.
    + intros l' Hl'. unfold claim_candidates in Hl'. rewrite Hl in Hl'. by injection Hl' as <-.
    + apply not_true_is_false. intros (r' & Hr' & H1 & H2 & H3 & H4 & H5)%active_lease.
      destruct (Hback r' Hr') as (r0 & Hr0 & _ & B2 & B3 & B4 & B5 & B6). apply not_true_iff_false in Hlease. apply Hlease.
      apply active_lease. exists r0. unfold is_metadata in *. rewrite <-B5, <-B2, <-B3, <-B4. split_and!; auto.
  - intros r' Hr' E2 E3. destruct (Hback r' Hr') as (r0 & Hr0 & B1 & _ & B3 & B4 & _). rewrite B1.
    apply Hlock; [done|congruence|]. by rewrite <-B4, E3.
Qed.

(** Registering files is idempotent: a scan of distinct paths succeeds, a
    second scan of the same files changes nothing (whatever the chunk sizes), and
    a file whose modification time did not change keeps its import, state and
    lease unless it had failed. *)
Theorem rescan_changes_nothing now now' new_rows size size' A : (0 < size)%nat → (0 < size')%nat →
  NoDup (artifact_key <$> new_rows) → Forall (λ n, n_state n ≠ "failed") new_rows →
  ∃ A', upsert_many now new_rows size A = Ok A' ∧ upsert_many now' new_rows size' A' = Ok A' ∧
    ∀ n r, n ∈ new_rows → A !! artifact_key n = Some r → a_mtime_ns r = n_mtime_ns n → a_state r ≠ "failed" →
      ∃ r', A' !! artifact_key n = Some r' ∧
        (a_import r', a_token r', a_expires r', a_state r', a_download r') =
        (a_import r, a_token r, a_expires r, a_state r, a_download r).
Proof.
  intros Hs Hs' Hn Hst. set (l := List.filter known_type new_rows).
  assert (NoDup (artifact_key <$> l)) as Hnl by (by eapply sublist_NoDup, fmap_sublist, filter_sublist).
  exists (foldl (upsert_one now) A l). split; [by apply upsert_many_fold|]. split.
  - rewrite upsert_many_fold by done. fold l. f_equal. apply map_eq. intros k. rewrite !lookup_upserts by done.
    destruct (list_find _ l) as [[i n]|] eqn:E; [|done]. f_equal. apply registered_again.
    apply list_find_Some in E as (E & _). rewrite list.Forall_forall in Hst. apply Hst.
    eapply elem_of_sublist; [by eapply list_elem_of_lookup_2|apply filter_sublist].
  - intros n r Hin Hr Hm Hf. rewrite lookup_upserts by done.
    destruct (list_find _ l) as [[i n']|] eqn:E; [|by exists r]. apply list_find_Some in E as (E & Ek & _).
    assert (n' = n) as ->.
    { apply list_elem_of_lookup_2 in E. eapply elem_of_sublist in E; [|apply filter_sublist].
      apply list_elem_of_lookup in E as [a Ea], Hin as [b Eb].
      assert (a = b) as ->; [|congruence]. apply (NoDup_lookup _ a b (artifact_key n) Hn); rewrite list_lookup_fmap, ?Ea, ?Eb; cbn; congruence. }
    rewrite Hr. eexists. split; [done|]. cbn.
    assert (should_refresh r n = false) as ->; [|done].
    unfold should_refresh. by rewrite bool_decide_true, bool_decide_false.
Qed.

(** A download with a live artifact lease cannot be retried: the action
    policy, reading the leases of the ledger, refuses the command and nothing
    changes. *)
Theorem live_lease_blocks_retry w k r d dj e : w_artifacts w !! k = Some r → a_download r = Some d →
  a_expires r = Some e → now (w_db w) < e → downloads (w_db w) !! d = Some dj →
  retry_download d (with_leases w) = Err (ActionRefused "retry" (dl_status dj)).
Proof.
  intros Hr Hd He Hlt Hj. unfold retry_download.
  rewrite (proj2 (get_download_ok d (with_leases w) dj) Hj). cbn [mbind result_bind].
  destruct (require_download d dj "retry" (with_leases w)) as [[]|err] eqn:E.
  - apply require_download_ok in E as [Hg _]; [|in_list]. apply decide_job_grants in Hg as (_ & Hl & _).
    apply bool_decide_eq_false in Hl. destruct Hl. cbn. unfold leased_downloads. apply elem_of_list_to_set, list_elem_of_omap.
    exists r. split; [apply elem_of_rows; by exists k|]. by rewrite He, (proj2 (Z.ltb_lt _ _) Hlt).
  - revert E. unfold require_download, guard_or. case_test; [done|]. by intros [= <-].
Qed.
