(* ===== verification/ArtifactLedgerExample.v ===== *)
(** * A run of the artifact ledger

    A download registers a work, its import claims and inserts it; the claims
    of [ArtifactLedgerSpec] at the worlds of this run. *)

From stdpp Require Import base gmap strings list numbers.
From S2P Require Import Prelude TaskState TaskRuns Keyset TaskPipeline TaskEngine TaskPipelineFacts TaskPipelineSteps TaskCommands TaskPipelineSpec ArtifactLedger ArtifactLedgerFacts ArtifactImport ArtifactLedgerSpec.

Open Scope string_scope.
Open Scope Z_scope.

Definition site (download : Z) : string := "pixiv".

(** ** Rows and files *)

Definition job : DownloadJob := mkDownload (mkJob "importing" None) 0 0 (mkManifest [] false false ∅ None).
Definition child : ImportJob := mkImport 1 5 (mkJob "enqueued" None) 0 0 None 0.

Definition page (id : Z) (name type : string) : NewArtifact :=
  mkNew id "downloads" name "pixiv" "alice" "42" name type (Some 100) (Some 7) (Some 1) "new".
Definition scan : list NewArtifact := [page 1 "a.json" "metadata_json"; page 2 "a.jpg" "image"].

Definition upserted (A : Artifacts) : Artifacts :=
  match upsert_many 0 scan 1000 A with Ok A' => A' | Err _ => A end.
Definition claimed_db (db : Db) : Db :=
  match _claim_import_execution 10 7 db with Ok (Some db') => db' | _ => db end.

(** ** The run *)

Definition world1 : World := mkWorld (put_download 1 job empty_db) ∅ [] ∅.
Definition world2 : World := mkWorld (put_import 10 child (with_leases world1)) ∅ [] ∅.
Definition world3 : World := mkWorld (claimed_db (with_leases world2)) ∅ [] ∅.
Definition world4 : World := mkWorld (w_db world3) (upserted ∅) [] ∅.

Definition batch_slice : ClaimRequest := batch_claim site 10 7 child ["42"; "43"; "42"] 25.
Definition claim_result : WorkClaimBatch * Artifacts :=
  claim_work_batch (now (w_db world4)) (w_db world4) [] ∅ batch_slice (w_artifacts world4).
Definition world5 : World := mkWorld (w_db world4) claim_result.2 [] (<[(10, 7) := list_to_set (claimed claim_result.1)]> ∅).

Definition renewal : gset string * Artifacts :=
  renew_work_leases (now (w_db world5)) (w_db world5) 10 7 (elements ({["42"]} : gset string)) IMPORT_ARTIFACT_LEASE_SECONDS
    (w_artifacts world5).
Definition world6 : World :=
  mkWorld (w_db world5) renewal.2 [("pixiv", "42")]
    (<[(10, 7) := held world5 10 7 ∖ list_to_set ["42"]]> (w_held world5)).

(** The import row of the running execution. *)
Definition running_child : option ImportJob := imports (w_db world4) !! 10.

Lemma running_row : ∃ i, running_child = Some i ∧ im_download i = 1 ∧ i = mkImport 1 5 (mkJob "running" None) 0 0 (Some 7) 1.
Proof. eexists. split; [vm_compute; reflexivity|]. split; reflexivity. Qed.

Lemma world5_reachable : reachable_world site world5.
Proof.
  assert (reachable_world site world1) as H1.
  { apply (reachable_next _ empty_world); [constructor|]. apply is_pipeline; [|cbn; lia]. by apply step_new_download. }
  assert (reachable_world site world2) as H2.
  { apply (reachable_next _ world1); [done|]. apply (is_pipeline _ world1); [|cbn; lia]. apply step_new_import; [done..|]. by exists job. }
  assert (reachable_world site world3) as H3.
  { apply (reachable_next _ world2); [done|]. apply (is_pipeline _ world2).
    - apply (step_claim _ 10 7). vm_compute. reflexivity.
    - vm_compute. discriminate. }
  assert (reachable_world site world4) as H4.
  { apply (reachable_next _ world3); [done|]. apply (is_register _ world3 scan 1000).
    - apply list.Forall_forall. intros n _ r Hr. cbn [w_artifacts world3] in Hr. by rewrite lookup_empty in Hr.
    - apply (bool_decide_eq_true (NoDup _)). vm_compute. reflexivity.
    - vm_cast_no_check (@eq_refl (result string Artifacts) (Ok (w_artifacts world4))). }
  apply (reachable_next _ world4); [done|].
  destruct running_row as (i & Hi & Hd & Ei). subst i.
  apply (is_claim site world4 10 7 _ ["42"; "43"; "42"] 25 ∅ claim_result.1 claim_result.2 Hi).
  vm_cast_no_check (@eq_refl (WorkClaimBatch * Artifacts) claim_result).
Qed.

Lemma world6_reachable : reachable_world site world6.
Proof.
  apply (reachable_next _ world5); [apply world5_reachable|]. destruct running_row as (i & Hi & Hd & Ei). subst i.
  apply (is_commit site world5 10 7 _ ({["42"]} : gset string) renewal.1 ["42"] renewal.2 Hi).
  - apply (bool_decide_eq_true (_ ⊆ _)). vm_compute. reflexivity.
  - vm_cast_no_check (@eq_refl (gset string * Artifacts) renewal).
  - apply (bool_decide_eq_true (NoDup _)). vm_compute. reflexivity.
  - apply (bool_decide_eq_true (_ ⊆ _)). vm_compute. reflexivity.
Qed.

(** ** The claims on this run *)

Lemma work_imported_once_witness : NoDup [("pixiv", "42")].
Proof. exact (work_imported_once site world6 world6_reachable). Defined.

(** The execution renews what it claimed. *)
Definition renewed5 : gset string :=
  (renew_work_leases (now (w_db world5)) (w_db world5) 10 7 ["42"] 900 (w_artifacts world5)).1.
Lemma renews : "42" ∈ renewed5.
Proof.
  assert (elements renewed5 = ["42"]) as E by (vm_compute; reflexivity).
  apply elem_of_elements. rewrite E. by left.
Qed.

Lemma one_execution_renews_witness : 10 = 10 ∧ 7 = 7.
Proof.
  destruct running_row as (i & Hi & _ & _).
  exact (one_execution_renews site world5 10 7 i ["42"] 10 7 i ["42"] "42" 900 world5_reachable Hi Hi eq_refl renews renews).
Defined.

(** Another token is not the current execution. *)
Lemma other_token : execution_is_active (w_db world5) 10 8 = false.
Proof. vm_compute. reflexivity. Qed.


Lemma claim_outcome_witness :
  (claimed claim_result.1 ++ contended claim_result.1 ++ existing claim_result.1)%list ≡ₚ ["42"; "43"].
Proof.
  apply (claim_outcome (now (w_db world4)) (w_db world4) [] ∅ batch_slice (w_artifacts world4) "pixiv" ["42"; "43"; "42"]
    claim_result.1 claim_result.2 eq_refl eq_refl).
  unfold claim_result. by destruct (claim_work_batch _ _ _ _ _ _).
Defined.

(** A failed work of the import. *)
Definition failed_row : Artifact :=
  mkArtifact 1 0 "downloads" "pixiv" "alice" "42" "a.json" "metadata_json" (Some 100) (Some 7) None (Some 1) (Some 10)
    None "failed" 1 (Some "broken") None.
Definition failed_ledger : Artifacts := {[ ("downloads", "a.json") := failed_row ]}.

Lemma failed_work_claimed_again_witness :
  "42" ∈ claimed (claim_work_batch 0 (w_db world5) [] ∅ batch_slice (reset_retry_assignment 0 1 10 failed_ledger)).1.
Proof.
  apply (failed_work_claimed_again 0 (w_db world5) [] ∅ 1 batch_slice ["42"; "43"; "42"] "pixiv" failed_row failed_ledger);
    try reflexivity.
  - apply (bool_decide_eq_true (NoDup _)). vm_compute. reflexivity.
  - exists ("downloads", "a.json"). reflexivity.
  - apply (bool_decide_eq_true (_ ∈ _)). vm_compute. reflexivity.
  - apply not_elem_of_nil.
  - intros r' _ _ _. apply not_elem_of_empty.
Defined.

Lemma rescan_changes_nothing_witness :
  ∃ A', upsert_many 0 scan 1000 ∅ = Ok A' ∧ upsert_many 5 scan 1 A' = Ok A'.
Proof.
  destruct (rescan_changes_nothing 0 5 scan 1000 1 ∅) as (A' & H1 & H2 & _); [lia|lia| | |by exists A'].
  - apply (bool_decide_eq_true (NoDup _)). vm_compute. reflexivity.
  - apply (bool_decide_eq_true (Forall _ _)). vm_compute. reflexivity.
Defined.

(** A leased row of the download. *)
Lemma leased_row : ∃ r, w_artifacts world5 !! ("downloads", "a.json") = Some r ∧ a_download r = Some 1 ∧ a_expires r = Some 900.
Proof. eexists. split; [vm_compute; reflexivity|]. split; reflexivity. Qed.
Lemma leased_job : ∃ dj, downloads (w_db world5) !! 1 = Some dj ∧ dl_status dj = "importing".
Proof. eexists. split; [vm_compute; reflexivity|]. reflexivity. Qed.

Lemma live_lease_blocks_retry_witness :
  retry_download 1 (with_leases world5) = Err (ActionRefused "retry" "importing").
Proof.
  destruct leased_row as (r & Hr & Hd & He), leased_job as (dj & Hj & Hs). rewrite <-Hs.
  apply (live_lease_blocks_retry world5 ("downloads", "a.json") r 1 dj 900 Hr Hd He); [reflexivity|exact Hj].
Defined.
