(* ===== verification/GitlleryLog.v ===== *)
(** * The commit log behind the Gitllery outbox

    What [app/services/gitllery_outbox.py] asks of a repository on disk: one
    operation, [_write_target], that publishes a commit below the head of the
    log.  [CommitLog] is that promise as an interface; the segment
    repositories of [SegmentLog] implement it ([segment_log_laws]).  Commit
    ids are UUIDs; [uuid_str] is [str(UUID)]. *)

From stdpp Require Import base gmap strings list.
From S2P Require Import Prelude SegmentLog SegmentLogFacts SegmentLogHistory.

(** ** [str(uuid)] *)

Definition hex_at (z : Z) : Ascii.ascii :=
  nth (Z.to_nat (z mod 16)) (String.list_ascii_of_string "0123456789abcdef") (Ascii.ascii_of_nat 48).

(** The [n] low hexadecimal digits of [z], most significant first. *)
Fixpoint hex_field (n : nat) (z : Z) : string :=
  match n with
  | O => ""
  | S n' => String (hex_at (z / 16 ^ Z.of_nat n')) (hex_field n' z)
  end.

Definition is_uuid (z : Z) : Prop := 0 ≤ z < 2 ^ 128.

Definition uuid_str (z : Z) : string :=
  hex_field 8 (z / 16 ^ 24) +:+ "-" +:+ hex_field 4 (z / 16 ^ 20) +:+ "-" +:+
  hex_field 4 (z / 16 ^ 16) +:+ "-" +:+ hex_field 4 (z / 16 ^ 12) +:+ "-" +:+ hex_field 12 z.

Lemma hex_at_inj a b : hex_at a = hex_at b → a mod 16 = b mod 16.
Proof.
  unfold hex_at.
  assert (∀ z, ∃ n, z mod 16 = Z.of_nat n ∧ (n < 16)%nat) as Hn.
  { intros z. exists (Z.to_nat (z mod 16)). assert (0 <= z mod 16 < 16)%Z by (apply Z.mod_pos_bound; lia). lia. }
  destruct (Hn a) as (n & -> & H1), (Hn b) as (m & -> & H2). rewrite !Nat2Z.id.
  do 16 (destruct n as [|n]; [do 16 (destruct m as [|m]; [cbn; intros [=]; reflexivity|]); lia|]). lia.
Qed.

Lemma hex_field_length n z : String.length (hex_field n z) = n.
Proof. induction n; cbn; auto. Qed.

Lemma hex_field_inj n a b :
  hex_field n a = hex_field n b → a mod 16 ^ Z.of_nat n = b mod 16 ^ Z.of_nat n.
Proof.
  induction n as [|n IH]; [intros _; cbn; by rewrite !Z.mod_1_r|].
  cbn [hex_field]. intros [= H1%hex_at_inj H2%IH].
  rewrite Nat2Z.inj_succ, Z.pow_succ_r by lia. rewrite (Z.mul_comm 16).
  rewrite !Z.rem_mul_r by lia. by rewrite H1, H2.
Qed.

Lemma append_inj_length s1 s2 t1 t2 :
  String.length s1 = String.length s2 → s1 +:+ t1 = s2 +:+ t2 → s1 = s2 ∧ t1 = t2.
Proof.
  revert s2. induction s1 as [|c s1 IH]; intros [|d s2]; cbn; try done.
  intros [= Hl] [= -> Ht]. destruct (IH s2 Hl Ht) as [-> ->]. done.
Qed.

Lemma hex_fields_inj n a b t1 t2 :
  hex_field n a +:+ t1 = hex_field n b +:+ t2 →
  a mod 16 ^ Z.of_nat n = b mod 16 ^ Z.of_nat n ∧ t1 = t2.
Proof.
  intros [H1%hex_field_inj H2]%append_inj_length; [done|by rewrite !hex_field_length].
Qed.

Lemma dash_inj s t : "-" +:+ s = "-" +:+ t → s = t.
Proof. intros E. by injection E. Qed.

(** A number is determined by its two halves. *)
Lemma halves_inj a b k m : 0 < k → 0 < m →
  a mod k = b mod k → (a / k) mod m = (b / k) mod m → a mod (k * m) = b mod (k * m).
Proof. intros Hk Hm H1 H2. rewrite !Z.rem_mul_r by lia. by rewrite H1, H2. Qed.

Lemma uuid_str_inj a b : is_uuid a → is_uuid b → uuid_str a = uuid_str b → a = b.
Proof.
  intros Ha Hb E. unfold uuid_str in E.
  apply hex_fields_inj in E as [H1 E%dash_inj]. apply hex_fields_inj in E as [H2 E%dash_inj].
  apply hex_fields_inj in E as [H3 E%dash_inj]. apply hex_fields_inj in E as [H4 E%dash_inj].
  apply hex_field_inj in E.
  assert (a mod 16 ^ 32 = b mod 16 ^ 32) as Hall.
  { change (16 ^ 32) with (16 ^ 24 * 16 ^ 8). apply halves_inj; [lia|lia| |exact H1].
    change (16 ^ 24) with (16 ^ 20 * 16 ^ 4). apply halves_inj; [lia|lia| |exact H2].
    change (16 ^ 20) with (16 ^ 16 * 16 ^ 4). apply halves_inj; [lia|lia| |exact H3].
    change (16 ^ 16) with (16 ^ 12 * 16 ^ 4). apply halves_inj; [lia|lia|exact E|exact H4]. }
  unfold is_uuid in *. by rewrite !Z.mod_small in Hall by lia.
Qed.

Lemma uuid_str_length z : String.length (uuid_str z) = 36%nat.
Proof.
  assert (∀ s t, String.length (s +:+ t) = (String.length s + String.length t)%nat) as Happ.
  { intros s t. induction s as [|c s IH]; [done|]. exact (f_equal S IH). }
  unfold uuid_str. by rewrite !Happ, !hex_field_length.
Qed.

Lemma uuid_str_proper z : uuid_str z ≠ "" ∧ uuid_str z ≠ "None".
Proof. split; intros E; apply (f_equal String.length) in E; by rewrite uuid_str_length in E. Qed.

(** ** Settings and the place of a repository *)

(** [mode_setting] is [settings.gitllery_projection_mode], [mode] the same
    after [.strip().lower()]; [verified_generation] is stripped.
    [inside_library source dir] says that the resolved path of the creator's
    directory lies below the library root. *)
Record Settings := mkSettings {
  mode_setting : string;
  mode : string;
  build_generation : string;
  verified_generation : string;
  inside_library : string → string → bool }.

(** Source directory, creator directory, name of the repository directory. *)
Abbreviation path := (string * string * string)%type.

Inductive ProjectionError :=
| OutsideLibrary
| UnsupportedMode
| NoVerifiedGeneration
| NotPromoted
| GenerationNotVerified
| FormatFailure (e : GitlleryError).

Definition generation_char (a : Ascii.ascii) : bool :=
  let n := Ascii.nat_of_ascii a in
  ((48 <=? n) && (n <=? 57) || (65 <=? n) && (n <=? 90) || (97 <=? n) && (n <=? 122) ||
   (n =? 45) || (n =? 95))%nat.

Definition shadow_name (generation : string) : string :=
  let kept := String.string_of_list_ascii
    (List.filter generation_char (String.list_ascii_of_string generation)) in
  ".gitllery.build-" +:+ (if decide (kept = "") then "segment-r1" else kept).

Definition _repository_path (st : Settings) (source creator_dir : string)
    : result ProjectionError path :=
  guard_or (inside_library st source creator_dir) OutsideLibrary ≫= λ _,
  if decide (mode st = "active") then Ok (source, creator_dir, ".gitllery")
  else if decide (mode st ≠ "shadow") then Err UnsupportedMode
  else Ok (source, creator_dir, shadow_name (build_generation st)).

Definition assert_active_repository_ready (st : Settings) (r : Repo)
    : result ProjectionError unit :=
  if decide (verified_generation st = "") then Err NoVerifiedGeneration
  else if negb (exists_ r) then Err NotPromoted
  else match read_manifest r with
       | Err e => Err (FormatFailure e)
       | Ok manifest =>
           if decide (generation manifest ≠ verified_generation st)
           then Err GenerationNotVerified else Ok tt
       end.

(** What a claimed target says about the commit to publish. *)
Record LogTarget (Header Change : Type) := mkLogTarget {
  lt_key : string; lt_source : string; lt_dir : string; lt_payload : Commit Header Change }.
Arguments mkLogTarget {Header Change}.
Arguments lt_key {Header Change}.
Arguments lt_source {Header Change}.
Arguments lt_dir {Header Change}.
Arguments lt_payload {Header Change}.

(** [{**payload, "parent_commit_id": parent}] *)
Definition reparent {Header Change} (c : Commit Header Change) (parent : option string)
    : Commit Header Change :=
  mkCommit (mkBase (commit_id (base c)) parent (other_keys (base c))) (changes c).

(** The commit carries an id; ["None"] is not one. *)
Definition has_id {Header Change} (c : Commit Header Change) : Prop :=
  ∃ id, commit_id (base c) = Some id ∧ id ≠ "" ∧ id ≠ "None".

(** ** The interface

    [log_history r cs]: [r] holds the commits [cs], oldest first.
    [log_writable] is what a write may assume of its environment. *)
Class CommitLog (Header Change R : Type) := {
  log_empty : R;
  log_write : Settings → LogTarget Header Change → string → R → R * result ProjectionError Manifest;
  log_history : R → list (Commit Header Change) → Prop;
  log_writable : Settings → LogTarget Header Change → string → R → Prop }.

Class CommitLogLaws (Header Change R : Type) `{!CommitLog Header Change R} := {
  log_empty_history : log_history log_empty [];
  log_history_nodup r cs : log_history r cs → NoDup (id_of <$> cs);
  log_write_error st t now r cs r' e :
    log_history r cs → log_write st t now r = (r', Err e) → log_history r' cs;
  (** The commit at the head is published already. *)
  log_write_again st t now r cs r' m :
    log_history r cs → has_id (lt_payload t) → log_write st t now r = (r', Ok m) →
    last_id None cs = Some (id_of (lt_payload t)) →
    log_history r' cs ∧ commit_count m = Z.of_nat (length cs);
  (** A commit the log does not hold goes below its head. *)
  log_write_new st t now r cs r' m :
    log_history r cs → has_id (lt_payload t) → log_writable st t now r →
    log_write st t now r = (r', Ok m) → (id_of (lt_payload t) ∉ id_of <$> cs) →
    let cs' := cs ++ [reparent (lt_payload t) (last_id None cs)] in
    log_history r' cs' ∧ commit_count m = Z.of_nat (length cs') }.

(** ** Segment repositories *)

Section SegmentWriter.
Context {Header Change : Type} `{!Codec Header Change}.

Abbreviation commit := (Commit Header Change).

Definition open_repository (st : Settings) (t : LogTarget Header Change) (now : string) (r : Repo)
    : Repo * result GitlleryError unit :=
  initialise r (lt_key t) (Some (lt_source t)) (Some (lt_dir t)) (Some (build_generation st)) now now.

(** [_write_target], inside the directory [_repository_path] names. *)
Definition _write_target (st : Settings) (t : LogTarget Header Change) (now : string) (r : Repo)
    : Repo * result ProjectionError Manifest :=
  let ready := if decide (mode st = "active") then assert_active_repository_ready st r else Ok tt in
  match ready with
  | Err e => (r, Err e)
  | Ok _ =>
      let '(r1, opened) := open_repository st t now r in
      match opened ≫= λ _, read_manifest r1 with
      | Err e => (r1, Err (FormatFailure e))
      | Ok manifest =>
          let '(r2, res) :=
            append r1 [reparent (lt_payload t) (last_complete_commit_id manifest)] now in
          (r2, match res with Err e => Err (FormatFailure e) | Ok m => Ok m end)
      end
  end.

(** The directory does not exist, or holds a well-formed repository. *)
Definition segment_history (r : Repo) (cs : list commit) : Prop :=
  manifest_file r = None ∧ cs = [] ∨ ∃ m l, history r m l cs.

(** SHA-256 collides neither on the stored segments nor on the new ones. *)
Definition segment_writable (st : Settings) (t : LogTarget Header Change) (now : string) (r : Repo)
    : Prop :=
  let r1 := (open_repository st t now r).1 in
  ∀ m, read_manifest r1 = Ok m →
  collision_free (universe r1 [reparent (lt_payload t) (last_complete_commit_id m)]).

Global Instance segment_log : CommitLog Header Change Repo := {|
  log_empty := mkRepo None None ∅;
  log_write := _write_target;
  log_history := segment_history;
  log_writable := segment_writable |}.

Lemma open_history st t now r r1 u cs :
  segment_history r cs → open_repository st t now r = (r1, u) →
  ∃ m l, history r1 m l cs ∧ u = Ok tt.
Proof.
  intros [[Hnone ->]|(m & l & Hh)] Hopen.
  - assert (u = Ok tt) as ->.
    { revert Hopen. unfold open_repository, initialise, exists_.
      rewrite bool_decide_eq_false_2 by (rewrite Hnone; by intros [? [=]]). by intros [= _ <-]. }
    destruct (initialise_history _ _ _ _ _ _ _ _ Hnone Hopen) as [m Hm]. eauto.
  - exists m, l. unfold open_repository, initialise, exists_ in Hopen.
    destruct (read_manifest_inv _ _ (h_manifest _ _ _ _ Hh)) as [Hm _].
    rewrite bool_decide_eq_true_2 in Hopen by (rewrite Hm; eauto).
    injection Hopen as <- <-. by rewrite (h_manifest _ _ _ _ Hh).
Qed.

Lemma write_target_open st t now r cs r' res :
  segment_history r cs → _write_target st t now r = (r', res) →
  (r' = r ∧ ∃ e, res = Err e) ∨
  ∃ r1 m l res1, open_repository st t now r = (r1, Ok tt) ∧ history r1 m l cs ∧
    append r1 [reparent (lt_payload t) (last_id None cs)] now = (r', res1) ∧
    res = match res1 with Err e => Err (FormatFailure e) | Ok m => Ok m end.
Proof.
  intros Hh. unfold _write_target.
  destruct (if decide _ then _ else _) as [u|e]; [|intros [= <- <-]; left; eauto].
  destruct (open_repository st t now r) as [r1 opened] eqn:Ho.
  destruct (open_history _ _ _ _ _ _ _ Hh Ho) as (m & l & Hr1 & ->). cbn [mbind result_bind].
  rewrite (h_manifest _ _ _ _ Hr1), (h_last _ _ _ _ Hr1).
  destruct (append r1 _ now) as [r2 res1] eqn:Ha. intros [= <- <-]. right. by exists r1, m, l, res1.
Qed.

Lemma id_of_reparent (c : commit) p : id_of (reparent c p) = id_of c.
Proof. done. Qed.

Lemma has_id_id (c : commit) : has_id c → commit_id (base c) = Some (id_of c).
Proof. unfold has_id, id_of. by intros (id & -> & _). Qed.

(** The replay test of [append] recognises the commit at the head. *)
Lemma append_again r m l cs (c : commit) p now :
  history r m l cs → has_id c → last_id None cs = Some (id_of c) →
  append r [reparent c p] now = (r, Ok m).
Proof.
  intros Hh Hid Hl. unfold append. rewrite (h_manifest _ _ _ _ Hh), (h_last _ _ _ _ Hh), Hl.
  cbn [base reparent commit_id]. rewrite (has_id_id _ Hid). cbn.
  by rewrite bool_decide_eq_true_2.
Qed.

Lemma append_new_count r m l cs (c : commit) now r' m' :
  history r m l cs → fresh_commits cs [c] → collision_free (universe r [c]) →
  append r [c] now = (r', Ok m') →
  segment_history r' (cs ++ [c]) ∧ commit_count m' = Z.of_nat (length (cs ++ [c])).
Proof.
  intros Hh Hf Hc Ha. destruct (append_extends _ _ _ _ _ _ _ _ Hh Hf Hc Ha) as [l' Hh'].
  split; [right; eauto|]. apply (h_commits _ _ _ _ Hh').
Qed.

Lemma fresh_reparent cs (c : commit) p :
  NoDup (id_of <$> cs) → has_id c → (id_of c ∉ id_of <$> cs) → fresh_commits cs [reparent c p].
Proof.
  intros Hnd (id & Hid & _ & Hne) Hnew. split.
  - rewrite fmap_app. cbn [fmap list_fmap]. rewrite id_of_reparent.
    apply list.NoDup_app. split_and!; [done| |apply NoDup_singleton].
    intros x Hx ->%list_elem_of_singleton. done.
  - constructor; [|constructor]. cbn. eauto.
Qed.

(** Segment repositories keep the promise the outbox relies on. *)
Global Instance segment_log_laws : CommitLogLaws Header Change Repo.
Proof.
  split; cbn [log_empty log_write log_history log_writable segment_log].
  - by left.
  - intros r cs [[_ ->]|(m & l & Hh)]; [constructor|apply Hh].
  - intros st t now r cs r' e Hh Hw.
    destruct (write_target_open _ _ _ _ _ _ _ Hh Hw)
      as [[-> _]|(r1 & m & l & [m1|e1] & _ & Hr1 & Ha & [=])]; [done|].
    right. exists m, l. by eapply append_failure_keeps.
  - intros st t now r cs r' m Hh Hid Hw Hl.
    destruct (write_target_open _ _ _ _ _ _ _ Hh Hw)
      as [[_ [e [=]]]|(r1 & m1 & l & [m2|e1] & _ & Hr1 & Ha & [=])]. subst m2.
    rewrite (append_again _ _ _ _ _ _ _ Hr1 Hid Hl) in Ha. injection Ha as <- <-.
    split; [right; eauto|apply Hr1].
  - intros st t now r cs r' m Hh Hid Hwr Hw Hnew.
    destruct (write_target_open _ _ _ _ _ _ _ Hh Hw)
      as [[_ [e [=]]]|(r1 & m1 & l & [m2|e1] & Ho & Hr1 & Ha & [=])]. subst m2.
    eapply append_new_count; [done| | |done].
    + apply fresh_reparent; [apply Hr1|done..].
    + rewrite <-(h_last _ _ _ _ Hr1). unfold segment_writable in Hwr. rewrite Ho in Hwr.
      by apply Hwr, (h_manifest _ _ _ _ Hr1).
Qed.

End SegmentWriter.
