(* ===== verification/GitlleryOutbox.v ===== *)
(** * The Gitllery projection outbox

    [app/services/gitllery_outbox.py] and its two tables of
    [app/models/pipeline_outbox.py]: curation commits are projected onto the
    repositories on disk in two durable stages.  An intent (one per commit)
    is planned into targets, one per repository the commit touches; a target
    is claimed under a lease with a fresh token, written to its repository
    and finished, and the last finished target completes the intent.

    [Db] is the database and the repositories.  Every [async with
    async_session()] block is one transaction, a function on [Db]; within it
    the clock is read once.  Rows are locked with [SKIP LOCKED]: [locked] is
    the set of rows other transactions hold.  Ids and tokens drawn with
    [uuid4()] are arguments.  The repositories are used through [CommitLog]. *)

From stdpp Require Import base gmap strings list.
From S2P Require Import Prelude Keyset SegmentLog SegmentLogFacts SegmentLogHistory GitlleryLog.

(** ** Rows *)

Inductive ProjectionState := GPending | GProcessing | GComplete | GFailed | GBlocked.
Global Instance ProjectionState_eq_dec : EqDecision ProjectionState.
Proof. solve_decision. Defined.

Record CurationCommit (Header Change : Type) := mkCuration {
  cc_created_at : Z;
  cc_header : Header;
  (** in the order [_plan_intent] reads them *)
  cc_changes : list Change }.
Arguments mkCuration {Header Change}.
Arguments cc_created_at {Header Change}.
Arguments cc_header {Header Change}.
Arguments cc_changes {Header Change}.

Record RepoDescriptor := mkDescriptor {
  rd_repository_id : string;
  rd_source : string;
  rd_source_creator_id : option string;
  rd_creator_id : option string;
  rd_creator_dir : string }.

Record Intent := mkIntent {
  in_commit : Z;
  in_repository : option Z;
  in_state : ProjectionState;
  in_attempts : Z;
  in_available_at : Z;
  in_lease : option Z;
  in_completed_at : option Z;
  in_error : option string;
  (** [projection_stats["targets"]] *)
  in_targets : option Z }.

Record Target (Header Change : Type) := mkTarget {
  tg_intent : Z;
  tg_commit : Z;
  tg_created_at : Z;
  tg_repository : string;
  tg_source : string;
  tg_creator_dir : string;
  tg_payload : Commit Header Change;
  tg_state : ProjectionState;
  tg_attempts : Z;
  tg_available_at : Z;
  tg_token : option Z;
  tg_lease : option Z;
  tg_completed_at : option Z;
  tg_digest : option string;
  tg_error : option string }.
Arguments mkTarget {Header Change}.
Arguments tg_intent {Header Change}.
Arguments tg_commit {Header Change}.
Arguments tg_created_at {Header Change}.
Arguments tg_repository {Header Change}.
Arguments tg_source {Header Change}.
Arguments tg_creator_dir {Header Change}.
Arguments tg_payload {Header Change}.
Arguments tg_state {Header Change}.
Arguments tg_attempts {Header Change}.
Arguments tg_available_at {Header Change}.
Arguments tg_token {Header Change}.
Arguments tg_lease {Header Change}.
Arguments tg_completed_at {Header Change}.
Arguments tg_digest {Header Change}.
Arguments tg_error {Header Change}.

(** [GitlleryRepositoryState]: the checkpoint of a repository. *)
Record RepositoryState := mkRepositoryState {
  rs_source : string;
  rs_creator_dir : string;
  rs_mode : string;
  rs_generation : string;
  rs_head_segment : option string;
  rs_last_commit : Z;
  rs_last_created_at : Z;
  rs_segment_count : Z;
  rs_commit_count : Z;
  rs_change_count : Z;
  rs_last_error : option string }.

(** The dicts returned by the two claims. *)
Record PlanClaim := mkPlanClaim {
  pc_id : Z; pc_commit : Z; pc_attempts : Z; pc_lease : Z }.

Record TargetClaim (Header Change : Type) := mkTargetClaim {
  cl_id : Z; cl_token : Z; cl_row : Target Header Change }.
Arguments mkTargetClaim {Header Change}.
Arguments cl_id {Header Change}.
Arguments cl_token {Header Change}.
Arguments cl_row {Header Change}.

Record Db (Header Change R : Type) := mkDb {
  g_now : Z;
  g_commits : gmap Z (CurationCommit Header Change);
  g_intents : gmap Z Intent;
  g_targets : gmap Z (Target Header Change);
  g_states : gmap string RepositoryState;
  g_repos : gmap path R;
  (** a wake-up of the outbox is staged for the commit of the session *)
  g_wake : bool }.
Arguments mkDb {Header Change R}.
Arguments g_now {Header Change R}.
Arguments g_commits {Header Change R}.
Arguments g_intents {Header Change R}.
Arguments g_targets {Header Change R}.
Arguments g_states {Header Change R}.
Arguments g_repos {Header Change R}.
Arguments g_wake {Header Change R}.

Section Outbox.
Context {Header Change R : Type} `{!CommitLog Header Change R} (st : Settings).

Abbreviation curation := (CurationCommit Header Change).
Abbreviation target := (Target Header Change).
Abbreviation claim_t := (TargetClaim Header Change).
Abbreviation db := (Db Header Change R).

Definition set_intents (d : db) (x : gmap Z Intent) : db :=
  mkDb (g_now d) (g_commits d) x (g_targets d) (g_states d) (g_repos d) (g_wake d).
Definition set_targets (d : db) (x : gmap Z target) : db :=
  mkDb (g_now d) (g_commits d) (g_intents d) x (g_states d) (g_repos d) (g_wake d).
Definition set_states (d : db) (x : gmap string RepositoryState) : db :=
  mkDb (g_now d) (g_commits d) (g_intents d) (g_targets d) x (g_repos d) (g_wake d).
Definition set_repos (d : db) (x : gmap path R) : db :=
  mkDb (g_now d) (g_commits d) (g_intents d) (g_targets d) (g_states d) x (g_wake d).
(** [mark_outbox_wake_pending(db, "gitllery")] *)
Definition mark_wake (d : db) : db :=
  mkDb (g_now d) (g_commits d) (g_intents d) (g_targets d) (g_states d) (g_repos d) true.

(** ** Requesting a projection *)

Definition request_gitllery_projection (d : db) (commit : Z) (repository : option Z) (fresh : Z)
    : db * Z :=
  match List.find (λ kr, in_commit kr.2 =? commit) (map_to_list (g_intents d)) with
  | Some (i, row) =>
      let row' :=
        if decide (in_state row = GFailed)
        then mkIntent (in_commit row) (in_repository row) GPending (in_attempts row) (g_now d)
               (in_lease row) (in_completed_at row) None (in_targets row)
        else row in
      let d' := set_intents d (<[i := row']> (g_intents d)) in
      (if decide (in_state row' = GPending ∨ in_state row' = GFailed) then mark_wake d' else d', i)
  | None =>
      let row := mkIntent commit repository GPending 0 (g_now d) None None None None in
      (mark_wake (set_intents d (<[fresh := row]> (g_intents d))), fresh)
  end.

(** ** Planning *)

(** [state IN ('pending', 'failed') OR state = 'processing' AND
    lease_expires_at < now], [available_at <= now] *)
Definition open_for_claim (now : Z) (state : ProjectionState) (lease : option Z) (available_at : Z)
    : bool :=
  (match state with
   | GPending | GFailed => true
   | GProcessing => match lease with Some l => l <? now | None => false end
   | GComplete | GBlocked => false
   end) && (available_at <=? now).

Definition has_targets (d : db) (intent : Z) : bool :=
  existsb (λ kt, tg_intent kt.2 =? intent) (map_to_list (g_targets d)).

Definition plannable (d : db) (locked : gset Z) (kr : Z * Intent) : bool :=
  negb (has_targets d kr.1) &&
  bool_decide (is_Some (g_commits d !! in_commit kr.2)) &&
  open_for_claim (g_now d) (in_state kr.2) (in_lease kr.2) (in_available_at kr.2) &&
  bool_decide (kr.1 ∉ locked).

(** [order_by(CurationCommit.created_at, CurationCommit.id)] *)
Definition commit_created_at (d : db) (commit : Z) : Z :=
  match g_commits d !! commit with Some cc => cc_created_at cc | None => 0 end.

Definition position_before (p q : Z * Z) : bool :=
  (p.1 <? q.1) || (p.1 =? q.1) && (p.2 <? q.2).

Definition intent_before (d : db) (a b : Z * Intent) : bool :=
  position_before (commit_created_at d (in_commit a.2), in_commit a.2)
                  (commit_created_at d (in_commit b.2), in_commit b.2).

Definition LEASE_SECONDS : Z := 5 * 60.

Definition _claim_intent_for_planning (d : db) (locked : gset Z) : db * option PlanClaim :=
  match select_rows (plannable d locked) (intent_before d) 0 1 (map_to_list (g_intents d)) with
  | [] => (d, None)
  | (i, row) :: _ =>
      let lease := g_now d + LEASE_SECONDS in
      let row' := mkIntent (in_commit row) (in_repository row) GProcessing (in_attempts row + 1)
                    (in_available_at row) (Some lease) (in_completed_at row) (in_error row)
                    (in_targets row) in
      (set_intents d (<[i := row']> (g_intents d)),
       Some (mkPlanClaim i (in_commit row) (in_attempts row + 1) lease))
  end.

(** [slice_changes]: [resolve] is what [_repos_for_change] finds for a
    change; the dict keeps the order in which its keys were first seen. *)
Fixpoint add_slice (change : Change) (desc : RepoDescriptor)
    (result : list (RepoDescriptor * list Change)) : list (RepoDescriptor * list Change) :=
  match result with
  | [] => [(desc, [change])]
  | (desc', cs) :: rest =>
      if decide (rd_repository_id desc' = rd_repository_id desc)
      then (desc', cs ++ [change]) :: rest
      else (desc', cs) :: add_slice change desc rest
  end.

Definition slice_changes (resolve : Change → list RepoDescriptor) (changes : list Change)
    : list (RepoDescriptor * list Change) :=
  foldl (λ result change, foldl (λ acc desc, add_slice change desc acc) result (resolve change))
    [] changes.

Definition _segment_commit_payload (commit : Z) (cc : curation) (changes : list Change)
    : Commit Header Change :=
  mkCommit (mkBase (Some (uuid_str commit)) None (cc_header cc)) changes.

Definition planned_target (d : db) (intent commit : Z) (cc : curation)
    (slice : RepoDescriptor * list Change) : target :=
  mkTarget intent commit (cc_created_at cc) (rd_repository_id slice.1) (rd_source slice.1)
    (rd_creator_dir slice.1) (_segment_commit_payload commit cc slice.2)
    GPending 0 (g_now d) None None None None None.

(** [on_conflict_do_nothing] on (commit, repository). *)
Definition target_exists (targets : gmap Z target) (commit : Z) (repository : string) : bool :=
  existsb (λ kt, (tg_commit kt.2 =? commit) && bool_decide (tg_repository kt.2 = repository))
    (map_to_list targets).

Definition insert_target (targets : gmap Z target) (value : Z * target) : gmap Z target :=
  if target_exists targets (tg_commit value.2) (tg_repository value.2) then targets
  else <[value.1 := value.2]> targets.

(** The guard of the two updates that end a planning claim. *)
Definition plan_held (d : db) (c : PlanClaim) : option Intent :=
  match g_intents d !! pc_id c with
  | Some row =>
      if bool_decide (in_state row = GProcessing) && (in_attempts row =? pc_attempts c) &&
         bool_decide (in_lease row = Some (pc_lease c))
      then Some row else None
  | None => None
  end.

(** [None] is [raise RuntimeError("curation commit disappeared while planning")]. *)
Definition _plan_intent (d : db) (c : PlanClaim) (resolve : Change → list RepoDescriptor)
    (ids : list Z) : option (db * Z) :=
  cc ← g_commits d !! pc_commit c;
  let values := zip ids (planned_target d (pc_id c) (pc_commit c) cc <$>
                           slice_changes resolve (cc_changes cc)) in
  let targets := foldl insert_target (g_targets d) values in
  let empty := bool_decide (values = []) in
  Some match plan_held d c with
  | None => (d, 0)
  | Some row =>
      let row' := mkIntent (in_commit row) (in_repository row)
                    (if empty then GComplete else GProcessing) (in_attempts row)
                    (in_available_at row) None (if empty then Some (g_now d) else None) None
                    (Some (Z.of_nat (length values))) in
      (set_targets (set_intents d (<[pc_id c := row']> (g_intents d))) targets,
       Z.of_nat (length values))
  end.

Definition retry_delay (attempts : Z) : Z := Z.min 3600 (15 * 2 ^ Z.min attempts 8).

Definition _fail_intent (d : db) (c : PlanClaim) (error : string) : db :=
  match plan_held d c with
  | None => d
  | Some row =>
      set_intents d (<[pc_id c :=
        mkIntent (in_commit row) (in_repository row) GFailed (in_attempts row)
          (g_now d + retry_delay (pc_attempts c)) None (in_completed_at row) (Some error)
          (in_targets row)]> (g_intents d))
  end.

(** ** Targets *)

Definition tg_position (t : target) : Z * Z := (tg_created_at t, tg_commit t).

Definition has_earlier (d : db) (t : target) : bool :=
  existsb (λ ke, bool_decide (tg_repository ke.2 = tg_repository t) &&
                 negb (bool_decide (tg_state ke.2 = GComplete)) &&
                 position_before (tg_position ke.2) (tg_position t))
    (map_to_list (g_targets d)).

Definition claimable_target (d : db) (locked : gset Z) (kt : Z * target) : bool :=
  negb (has_earlier d kt.2) &&
  open_for_claim (g_now d) (tg_state kt.2) (tg_lease kt.2) (tg_available_at kt.2) &&
  bool_decide (kt.1 ∉ locked).

(** [order_by(commit_created_at, commit_id, id)] *)
Definition target_before (a b : Z * target) : bool :=
  position_before (tg_position a.2) (tg_position b.2) ||
  bool_decide (tg_position a.2 = tg_position b.2) && (a.1 <? b.1).

Definition claimed_row (d : db) (t : target) (token : Z) : target :=
  mkTarget (tg_intent t) (tg_commit t) (tg_created_at t) (tg_repository t) (tg_source t)
    (tg_creator_dir t) (tg_payload t) GProcessing (tg_attempts t + 1) (tg_available_at t)
    (Some token) (Some (g_now d + LEASE_SECONDS)) (tg_completed_at t) (tg_digest t) (tg_error t).

Definition _claim_target (d : db) (locked : gset Z) (token : Z) : db * option claim_t :=
  match select_rows (claimable_target d locked) target_before 0 1 (map_to_list (g_targets d)) with
  | [] => (d, None)
  | (i, t) :: _ =>
      let t' := claimed_row d t token in
      (set_targets d (<[i := t']> (g_targets d)), Some (mkTargetClaim i token t'))
  end.

Definition log_target (t : target) : LogTarget Header Change :=
  mkLogTarget (tg_repository t) (tg_source t) (tg_creator_dir t) (tg_payload t).

Definition repo_at (d : db) (p : path) : R := default log_empty (g_repos d !! p).

(** [_write_target] in a thread of its own, under the repository's lock. *)
Definition write_target (d : db) (t : target) (stamp : string)
    : db * result ProjectionError Manifest :=
  match _repository_path st (tg_source t) (tg_creator_dir t) with
  | Err e => (d, Err e)
  | Ok p =>
      let '(r, res) := log_write st (log_target t) stamp (repo_at d p) in
      (set_repos d (<[p := r]> (g_repos d)), res)
  end.

(** The guard of the two updates that end a claim. *)
Definition target_held (d : db) (c : claim_t) : option target :=
  match g_targets d !! cl_id c with
  | Some t =>
      if bool_decide (tg_state t = GProcessing) && (tg_attempts t =? tg_attempts (cl_row c)) &&
         bool_decide (tg_token t = Some (cl_token c))
      then Some t else None
  | None => None
  end.

Definition finished_row (d : db) (t : target) (m : Manifest) : target :=
  mkTarget (tg_intent t) (tg_commit t) (tg_created_at t) (tg_repository t) (tg_source t)
    (tg_creator_dir t) (tg_payload t) GComplete (tg_attempts t) (tg_available_at t)
    None None (Some (g_now d)) (head_segment m) None.

(** The upsert of [GitlleryRepositoryState]: [source] and [creator_dir] are
    written only when the row is new. *)
Definition checkpoint (old : option RepositoryState) (t : target) (m : Manifest)
    : RepositoryState :=
  mkRepositoryState
    (match old with Some s => rs_source s | None => tg_source t end)
    (match old with Some s => rs_creator_dir s | None => tg_creator_dir t end)
    (if decide (mode_setting st = "active") then "active" else "shadow")
    (if decide (generation m = "") then build_generation st else generation m)
    (head_segment m) (tg_commit t) (tg_created_at t)
    (segment_count m) (commit_count m) (change_count m) None.

Definition _finish_target (d : db) (c : claim_t) (m : Manifest) : db * bool :=
  match target_held d c with
  | None => (d, false)
  | Some t =>
      let k := tg_repository (cl_row c) in
      (set_states (set_targets d (<[cl_id c := finished_row d t m]> (g_targets d)))
         (<[k := checkpoint (g_states d !! k) (cl_row c) m]> (g_states d)), true)
  end.

Definition failed_row (d : db) (t : target) (attempts : Z) (error : string) : target :=
  mkTarget (tg_intent t) (tg_commit t) (tg_created_at t) (tg_repository t) (tg_source t)
    (tg_creator_dir t) (tg_payload t) GFailed (tg_attempts t)
    (g_now d + retry_delay attempts) None None (tg_completed_at t) (tg_digest t) (Some error).

Definition _fail_target (d : db) (c : claim_t) (error : string) : db :=
  match target_held d c with
  | None => d
  | Some t =>
      set_targets d (<[cl_id c := failed_row d t (tg_attempts (cl_row c)) error]> (g_targets d))
  end.

Definition incomplete_targets (d : db) (intent : Z) : list (Z * target) :=
  List.filter (λ kt, (tg_intent kt.2 =? intent) && negb (bool_decide (tg_state kt.2 = GComplete)))
    (map_to_list (g_targets d)).

Definition _settle_intent (d : db) (intent : Z) : db :=
  if decide (incomplete_targets d intent = []) then
    match g_intents d !! intent with
    | Some row =>
        set_intents d (<[intent :=
          mkIntent (in_commit row) (in_repository row) GComplete (in_attempts row)
            (in_available_at row) None (Some (g_now d)) None (in_targets row)]> (g_intents d))
    | None => d
    end
  else d.

(** ** One slice of work

    [process_gitllery_projection_outbox].  What the outside decides is in
    [Slice]: the repositories of a change, whether their lookup raises, fresh
    ids and tokens, whether the time budget still holds at the [n]th turn of
    the loop and after it, and the time stamps of the repositories. *)
Record Slice := mkSlice {
  sl_resolve : option (Change → list RepoDescriptor);
  sl_ids : list Z;
  sl_token : nat → Z;
  sl_in_time : nat → bool;
  sl_in_time_after : bool;
  sl_stamp : nat → string;
  sl_error : string }.

Record SliceResult := mkSliceResult {
  sr_planned : Z;
  sr_claimed : nat;
  sr_processed : Z;
  sr_failed : Z;
  sr_slice_exhausted : bool;
  sr_more_likely : bool }.

Definition plan_phase (d : db) (s : Slice) : db * bool * Z * Z :=
  match _claim_intent_for_planning d ∅ with
  | (d1, None) => (d1, false, 0, 0)
  | (d1, Some c) =>
      match sl_resolve s ≫= λ resolve, _plan_intent d1 c resolve (sl_ids s) with
      | Some (d2, n) => (d2, true, n, 0)
      | None => (_fail_intent d1 c (sl_error s), true, 0, 1)
      end
  end.

(** One turn of the loop with the claimed target: the new database,
    [processed] and [failed]. *)
Definition project_claimed (d : db) (c : claim_t) (stamp error : string) : db * Z * Z :=
  match write_target d (cl_row c) stamp with
  | (d1, Err _) => (_fail_target d1 c error, 0, 1)
  | (d1, Ok m) =>
      let '(d2, finished) := _finish_target d1 c m in
      (_settle_intent d2 (tg_intent (cl_row c)), (if finished then 1 else 0), 0)
  end.

(** The loop with [fuel] claims left; returns the counters and [found_empty]. *)
Fixpoint project_loop (fuel : nat) (d : db) (s : Slice) (claimed : nat) (processed failed : Z)
    : db * nat * Z * Z * bool :=
  match fuel with
  | O => (d, claimed, processed, failed, false)
  | S fuel' =>
      if negb (sl_in_time s claimed) then (d, claimed, processed, failed, false)
      else
        match _claim_target d ∅ (sl_token s claimed) with
        | (d1, None) => (d1, claimed, processed, failed, true)
        | (d1, Some c) =>
            let '(d2, p, f) := project_claimed d1 c (sl_stamp s claimed) (sl_error s) in
            project_loop fuel' d2 s (S claimed) (processed + p) (failed + f)
        end
  end.

Definition bounded_limit (limit : Z) : nat := Z.to_nat (Z.max 1 (Z.min limit 100)).

Definition process_gitllery_projection_outbox (d : db) (limit : Z) (s : Slice) : db * SliceResult :=
  let '(d1, planning, planned, failed) := plan_phase d s in
  let '(d2, claimed, processed, failed, found_empty) :=
    project_loop (bounded_limit limit) d1 s 0 0 failed in
  let exhausted := negb found_empty &&
    ((bounded_limit limit <=? claimed)%nat || negb (sl_in_time_after s)) in
  (d2, mkSliceResult planned claimed processed failed exhausted (exhausted || planning)).

(** ** Interleavings

    Workers run concurrently, die between any two transactions and may
    resume after their lease expired.  A [System] is the database with the
    claims handed out so far: planning claims, and per token the claimed
    target with the manifest its last successful write returned.  Any claim
    may take its next action at any time.

    [place] is the directory of a repository and [history0] what the log of a
    repository held at the start.  [leased] and [ordered] are two disciplines
    a run may follow: a writer still holds its lease when it writes, and a
    target is planned only behind those its repository has started. *)
Record System := mkSystem {
  s_db : db;
  s_plans : list PlanClaim;
  s_claims : gmap Z (claim_t * option Manifest) }.

Definition with_db (s : System) (d : db) : System := mkSystem d (s_plans s) (s_claims s).

Definition started (t : target) : Prop := 0 < tg_attempts t.

Definition before (t u : target) : Prop :=
  tg_repository t = tg_repository u ∧ position_before (tg_position t) (tg_position u) = true.

Context (place : string → string * string) (history0 : string → list (Commit Header Change)).
Context (leased ordered : bool).

Definition well_placed (desc : RepoDescriptor) : Prop :=
  (rd_source desc, rd_creator_dir desc) = place (rd_repository_id desc).

(** The commit is new to the repository and behind what it has started. *)
Definition planned_behind (d : db) (commit created : Z) (k : string) : Prop :=
  ∀ i t, g_targets d !! i = Some t → tg_repository t = k → started t →
  position_before (tg_position t) (created, commit) = true.

Definition plan_environment (d : db) (c : PlanClaim) (resolve : Change → list RepoDescriptor)
    (ids : list Z) : Prop :=
  NoDup ids ∧ (∀ i, i ∈ ids → g_targets d !! i = None) ∧
  ∀ cc, g_commits d !! pc_commit c = Some cc →
    length ids = length (slice_changes resolve (cc_changes cc)) ∧
    ∀ slice, slice ∈ slice_changes resolve (cc_changes cc) →
      well_placed slice.1 ∧
      (uuid_str (pc_commit c) ∉ id_of <$> history0 (rd_repository_id slice.1)) ∧
      (ordered = true →
       planned_behind d (pc_commit c) (cc_created_at cc) (rd_repository_id slice.1)).

Definition write_environment (d : db) (c : claim_t) (stamp : string) : Prop :=
  (∀ p, _repository_path st (tg_source (cl_row c)) (tg_creator_dir (cl_row c)) = Ok p →
        log_writable st (log_target (cl_row c)) stamp (repo_at d p)) ∧
  (leased = true → is_Some (target_held d c)).

Inductive ostep : System → System → Prop :=
| o_tick s n : 0 ≤ n →
    ostep s (with_db s (mkDb (g_now (s_db s) + n) (g_commits (s_db s)) (g_intents (s_db s))
      (g_targets (s_db s)) (g_states (s_db s)) (g_repos (s_db s)) (g_wake (s_db s))))
| o_commit s c cc : g_commits (s_db s) !! c = None → is_uuid c →
    ostep s (with_db s (mkDb (g_now (s_db s)) (<[c := cc]> (g_commits (s_db s)))
      (g_intents (s_db s)) (g_targets (s_db s)) (g_states (s_db s)) (g_repos (s_db s))
      (g_wake (s_db s))))
| o_request s commit repository fresh :
    is_Some (g_commits (s_db s) !! commit) → g_intents (s_db s) !! fresh = None →
    ostep s (with_db s (request_gitllery_projection (s_db s) commit repository fresh).1)
| o_claim_intent s locked d' c :
    _claim_intent_for_planning (s_db s) locked = (d', Some c) →
    ostep s (mkSystem d' (c :: s_plans s) (s_claims s))
| o_plan s c resolve ids d' n : c ∈ s_plans s → plan_environment (s_db s) c resolve ids →
    _plan_intent (s_db s) c resolve ids = Some (d', n) → ostep s (with_db s d')
| o_fail_intent s c error : c ∈ s_plans s → ostep s (with_db s (_fail_intent (s_db s) c error))
| o_claim s locked token d' c : s_claims s !! token = None →
    _claim_target (s_db s) locked token = (d', Some c) →
    ostep s (mkSystem d' (s_plans s) (<[token := (c, None)]> (s_claims s)))
| o_write s token c h stamp d' res : s_claims s !! token = Some (c, h) →
    write_environment (s_db s) c stamp →
    write_target (s_db s) (cl_row c) stamp = (d', res) →
    ostep s (mkSystem d' (s_plans s)
      (<[token := (c, match res with Ok m => Some m | Err _ => h end)]> (s_claims s)))
| o_finish s token c m : s_claims s !! token = Some (c, Some m) →
    ostep s (with_db s (_finish_target (s_db s) c m).1)
| o_fail s token c h error : s_claims s !! token = Some (c, h) →
    ostep s (with_db s (_fail_target (s_db s) c error))
| o_settle s token c h : s_claims s !! token = Some (c, h) →
    ostep s (with_db s (_settle_intent (s_db s) (tg_intent (cl_row c)))).

(** The outbox is installed: commits and intents may exist, nothing has been
    planned, and every repository holds its initial history. *)
Record installed (s : System) : Prop := {
  ins_targets : g_targets (s_db s) = ∅;
  ins_plans : s_plans s = [];
  ins_claims : s_claims s = ∅;
  ins_commits c : is_Some (g_commits (s_db s) !! c) → is_uuid c;
  ins_repos k p : _repository_path st (place k).1 (place k).2 = Ok p →
    log_history (repo_at (s_db s) p) (history0 k) }.

Definition reachable (s : System) : Prop := ∃ s0, installed s0 ∧ rtc ostep s0 s.

End Outbox.
