(* ===== verification/GitlleryOutboxFacts.v ===== *)
(** * The invariant of the Gitllery outbox

    The invariant that the targets, the claims, the intents and the
    repositories satisfy together when writers hold their leases and
    planning goes forward, and that every step of [GitlleryOutbox.ostep]
    keeps it. *)

From stdpp Require Import base gmap strings list sorting relations.
From S2P Require Import Prelude Keyset SegmentLog SegmentLogFacts SegmentLogHistory GitlleryLog GitlleryOutbox.

(** ** Positions and claims *)

Lemma position_before_lt p q :
  position_before p q = true ↔ p.1 < q.1 ∨ p.1 = q.1 ∧ p.2 < q.2.
Proof. unfold position_before. rewrite orb_true_iff, andb_true_iff, !Z.ltb_lt, Z.eqb_eq. lia. Qed.

Lemma position_total p q : p = q ∨ position_before p q = true ∨ position_before q p = true.
Proof.
  destruct p as [a b], q as [c d]. rewrite !position_before_lt. cbn.
  destruct (decide (a = c ∧ b = d)) as [[-> ->]|]; [by left|right; lia].
Qed.

Lemma select_first {A} (cond : A → bool) lt table x rest :
  select_rows cond lt 0 1 table = x :: rest → x ∈ table ∧ cond x = true.
Proof.
  unfold select_rows. intros E.
  assert (x ∈ order_by lt (List.filter cond table)) as Hx.
  { rewrite drop_0 in E. destruct (order_by _ _) as [|y l]; [done|]. injection E as -> _. left. }
  rewrite order_by_perm, list_elem_of_In, List.filter_In, <-list_elem_of_In in Hx. done.
Qed.

Lemma select_some {A} (cond : A → bool) lt table x :
  x ∈ table → cond x = true → select_rows cond lt 0 1 table ≠ [].
Proof.
  intros Hx Hc E. unfold select_rows in E. rewrite drop_0 in E.
  assert (x ∈ order_by lt (List.filter cond table)) as Hin.
  { by rewrite order_by_perm, list_elem_of_In, List.filter_In, <-list_elem_of_In. }
  destruct (order_by lt (List.filter cond table)); [by apply elem_of_nil in Hin|done].
Qed.

Section Facts.
Context {Header Change R : Type} `{!CommitLog Header Change R, !CommitLogLaws Header Change R}.
Abbreviation target := (Target Header Change).
Abbreviation targets_t := (gmap Z (Target Header Change)).
Abbreviation claim_t := (TargetClaim Header Change).
Abbreviation db := (Db Header Change R).
Abbreviation system := (System (Header := Header) (Change := Change) (R := R)).

Lemma has_earlier_false (d : db) t :
  has_earlier d t = false ↔
  ∀ i u, g_targets d !! i = Some u → before u t → tg_state u = GComplete.
Proof.
  unfold has_earlier. rewrite <-not_true_iff_false, existsb_exists. split.
  - intros H i u Hu [Hr Hp]. destruct (decide (tg_state u = GComplete)) as [|Hs]; [done|].
    exfalso. apply H. exists (i, u). split; [by apply list_elem_of_In, elem_of_map_to_list|].
    cbn. by rewrite bool_decide_eq_true_2, bool_decide_eq_false_2, Hp.
  - intros H ([i u] & Hin%list_elem_of_In%elem_of_map_to_list & Hb). cbn in Hb.
    rewrite !andb_true_iff, bool_decide_eq_true, negb_true_iff, bool_decide_eq_false in Hb.
    destruct Hb as [[Hr Hs] Hp]. apply Hs. eapply H; [done|]. by split.
Qed.

Lemma target_exists_false (targets : targets_t) commit k :
  target_exists targets commit k = false ↔
  ∀ i u, targets !! i = Some u → tg_commit u = commit → tg_repository u ≠ k.
Proof.
  unfold target_exists. rewrite <-not_true_iff_false, existsb_exists. split.
  - intros H i u Hu Hc Hk. apply H. exists (i, u).
    split; [by apply list_elem_of_In, elem_of_map_to_list|].
    cbn. by rewrite bool_decide_eq_true_2, andb_true_r, Z.eqb_eq.
  - intros H ([i u] & Hin%list_elem_of_In%elem_of_map_to_list & Hb). cbn in Hb.
    rewrite andb_true_iff, bool_decide_eq_true, Z.eqb_eq in Hb. naive_solver.
Qed.

Lemma has_targets_false (d : db) i :
  has_targets d i = false ↔ ∀ j t, g_targets d !! j = Some t → tg_intent t ≠ i.
Proof.
  unfold has_targets. rewrite <-not_true_iff_false, existsb_exists. split.
  - intros H j t Ht E. apply H. exists (j, t).
    split; [by apply list_elem_of_In, elem_of_map_to_list|]. by apply Z.eqb_eq.
  - intros H ([j t] & Hin%list_elem_of_In%elem_of_map_to_list & Hb%Z.eqb_eq). naive_solver.
Qed.

Lemma incomplete_nil (d : db) i :
  incomplete_targets d i = [] ↔
  ∀ j t, g_targets d !! j = Some t → tg_intent t = i → tg_state t = GComplete.
Proof.
  unfold incomplete_targets. split.
  - intros H j t Ht Hi. destruct (decide (tg_state t = GComplete)) as [|Hs]; [done|].
    assert ((j, t) ∈ @nil (Z * target)) as Hin; [|by apply elem_of_nil in Hin].
    rewrite <-H. rewrite list_elem_of_In, List.filter_In, <-list_elem_of_In, elem_of_map_to_list.
    cbn. by rewrite bool_decide_eq_false_2, andb_true_r, Z.eqb_eq.
  - intros H. destruct (List.filter _ _) as [|[j t] l] eqn:E; [done|].
    assert ((j, t) ∈ (j, t) :: l) as Hin by left. rewrite <-E in Hin.
    rewrite list_elem_of_In, List.filter_In, <-list_elem_of_In, elem_of_map_to_list in Hin.
    cbn in Hin. rewrite andb_true_iff, Z.eqb_eq, negb_true_iff, bool_decide_eq_false in Hin.
    naive_solver.
Qed.

Lemma plan_held_spec (d : db) c row :
  plan_held d c = Some row ↔
  g_intents d !! pc_id c = Some row ∧ in_state row = GProcessing ∧
  in_attempts row = pc_attempts c ∧ in_lease row = Some (pc_lease c).
Proof.
  unfold plan_held. destruct (g_intents d !! pc_id c) as [row'|]; [|naive_solver].
  destruct (_ && _) eqn:E.
  - rewrite !andb_true_iff, !bool_decide_eq_true, Z.eqb_eq in E. naive_solver.
  - split; [done|]. intros ([= ->] & H1 & H2 & H3). exfalso.
    apply not_true_iff_false in E. apply E.
    by rewrite !bool_decide_eq_true_2, (proj2 (Z.eqb_eq _ _) H2).
Qed.

Lemma target_held_spec (d : db) (c : claim_t) t :
  target_held d c = Some t ↔
  g_targets d !! cl_id c = Some t ∧ tg_state t = GProcessing ∧
  tg_attempts t = tg_attempts (cl_row c) ∧ tg_token t = Some (cl_token c).
Proof.
  unfold target_held. destruct (g_targets d !! cl_id c) as [t'|]; [|naive_solver].
  destruct (_ && _) eqn:E.
  - rewrite !andb_true_iff, !bool_decide_eq_true, Z.eqb_eq in E. naive_solver.
  - split; [done|]. intros ([= ->] & H1 & H2 & H3). exfalso.
    apply not_true_iff_false in E. apply E.
    by rewrite !bool_decide_eq_true_2, (proj2 (Z.eqb_eq _ _) H2).
Qed.

(** ** The invariant *)

Context (st : Settings) (place : string → string * string).
Context (history0 : string → list (Commit Header Change)).
Hypothesis place_inj : ∀ k k', place k = place k' → k = k'.

(** What no operation ever changes of a target. *)
Definition same_target (t u : target) : Prop :=
  tg_intent t = tg_intent u ∧ tg_commit t = tg_commit u ∧ tg_created_at t = tg_created_at u ∧
  tg_repository t = tg_repository u ∧ tg_source t = tg_source u ∧
  tg_creator_dir t = tg_creator_dir u ∧ tg_payload t = tg_payload u.

Record planned_ok (commits : gmap Z (CurationCommit Header Change)) (t : target) : Prop := {
  pl_commit : is_Some (commits !! tg_commit t);
  pl_payload : commit_id (base (tg_payload t)) = Some (uuid_str (tg_commit t));
  pl_place : (tg_source t, tg_creator_dir t) = place (tg_repository t);
  pl_new : uuid_str (tg_commit t) ∉ id_of <$> history0 (tg_repository t) }.

Record row_ok (t : target) : Prop := {
  ro_attempts : 0 ≤ tg_attempts t;
  ro_started : tg_state t ≠ GPending → started t;
  ro_blocked : tg_state t ≠ GBlocked;
  ro_lease : tg_state t = GProcessing → is_Some (tg_lease t) }.

Record targets_ok (commits : gmap Z (CurationCommit Header Change)) (targets : targets_t) : Prop := {
  to_planned i t : targets !! i = Some t → planned_ok commits t;
  to_row i t : targets !! i = Some t → row_ok t;
  to_unique i j t u : targets !! i = Some t → targets !! j = Some u →
    tg_commit t = tg_commit u → tg_repository t = tg_repository u → i = j;
  (** a target is started only when everything before it is complete *)
  to_front i j t u : targets !! i = Some t → targets !! j = Some u →
    started u → before t u → tg_state t = GComplete }.

Definition earlier (targets : targets_t) (i j : Z) : Prop :=
  ∃ t u, targets !! i = Some t ∧ targets !! j = Some u ∧
         position_before (tg_position t) (tg_position u) = true.

(** [c] is what target [i] publishes. *)
Definition publishes (targets : targets_t) (k : string) (i : Z) (c : Commit Header Change) : Prop :=
  ∃ t, targets !! i = Some t ∧ tg_repository t = k ∧ started t ∧
       ∃ parent, c = reparent (tg_payload t) parent.

(** The log of repository [k] is its initial history followed by the commits
    of the targets [pub], in order; every completed target and every written
    claim is among them. *)
Record projected (targets : targets_t) (claims : gmap Z (claim_t * option Manifest)) (r : R)
    (k : string) (pub : list Z) (cs : list (Commit Header Change)) : Prop := {
  pj_history : log_history r (history0 k ++ cs);
  pj_publishes : Forall2 (publishes targets k) pub cs;
  pj_sorted : StronglySorted (earlier targets) pub;
  pj_complete i t : targets !! i = Some t → tg_repository t = k → tg_state t = GComplete → i ∈ pub;
  pj_written token c m : claims !! token = Some (c, Some m) → tg_repository (cl_row c) = k →
    cl_id c ∈ pub;
  (** a live claim knows how long the log is *)
  pj_count token c m t : claims !! token = Some (c, Some m) → targets !! cl_id c = Some t →
    tg_repository t = k → tg_state t = GProcessing → tg_token t = Some token →
    commit_count m = Z.of_nat (length (history0 k ++ cs)) }.

Definition located (k : string) (p : path) : Prop :=
  _repository_path st (place k).1 (place k).2 = Ok p.

(** The checkpoint of a repository names its newest completed target. *)
Definition checkpointed (targets : targets_t) (states : gmap string RepositoryState) : Prop :=
  ∀ i t, targets !! i = Some t → tg_state t = GComplete →
  ∃ row j u, states !! tg_repository t = Some row ∧ targets !! j = Some u ∧
    tg_repository u = tg_repository t ∧ tg_state u = GComplete ∧
    (rs_last_created_at row, rs_last_commit row) = tg_position u ∧ (j = i ∨ before t u).

Record outbox_ok (s : system) : Prop := {
  ok_commits c : is_Some (g_commits (s_db s) !! c) → is_uuid c;
  ok_targets : targets_ok (g_commits (s_db s)) (g_targets (s_db s));
  ok_claims token c h : s_claims s !! token = Some (c, h) →
    cl_token c = token ∧
    ∃ t, g_targets (s_db s) !! cl_id c = Some t ∧ same_target (cl_row c) t ∧ started t;
  ok_repos k p : located k p →
    ∃ pub cs, projected (g_targets (s_db s)) (s_claims s) (repo_at (s_db s) p) k pub cs;
  ok_intents i t : g_targets (s_db s) !! i = Some t →
    ∃ row, g_intents (s_db s) !! tg_intent t = Some row ∧ in_lease row = None ∧
      in_commit row = tg_commit t ∧
      (in_state row = GProcessing ∨ in_state row = GComplete ∧ tg_state t = GComplete);
  ok_plans c : c ∈ s_plans s →
    ∃ row, g_intents (s_db s) !! pc_id c = Some row ∧ in_commit row = pc_commit c;
  ok_states : checkpointed (g_targets (s_db s)) (g_states (s_db s)) }.

Lemma located_inj k k' p : located k p → located k' p → k = k'.
Proof.
  unfold located, _repository_path. intros H1 H2. apply place_inj.
  apply result_bind_ok in H1 as (? & _ & H1), H2 as (? & _ & H2).
  destruct (place k), (place k'); cbn in *. repeat case_decide; naive_solver.
Qed.

Lemma earlier_irreflexive targets i j : earlier targets i j → i ≠ j.
Proof.
  intros (t & u & Ht & Hu & Hp) ->. simplify_eq.
  apply position_before_lt in Hp. lia.
Qed.

(** ** Replacing a row *)

(** [t'] may replace row [i]. *)
Record advances (targets : targets_t) (i : Z) (t t' : target) : Prop := {
  ad_at : targets !! i = Some t;
  ad_same : same_target t t';
  ad_row : row_ok t';
  ad_started : started t → started t';
  ad_complete : tg_state t = GComplete → tg_state t' = GComplete;
  ad_front : started t' → ∀ j u, targets !! j = Some u → before u t → tg_state u = GComplete }.

Section Advance.
Context (targets : targets_t) (i : Z) (t t' : target).
Hypothesis Had : advances targets i t t'.

Let targets' := <[i := t']> targets.

(** Every row of the new table continues a row of the old one. *)
Lemma advanced_row j u' : targets' !! j = Some u' →
  ∃ u, targets !! j = Some u ∧ same_target u u' ∧
       (tg_state u = GComplete → tg_state u' = GComplete) ∧
       (j = i ∧ u = t ∧ u' = t' ∨ j ≠ i ∧ u' = u).
Proof.
  destruct Had. unfold targets'. destruct (decide (i = j)) as [->|Hij].
  - rewrite lookup_insert_eq. intros [= <-]. exists t. naive_solver.
  - rewrite lookup_insert_ne by done. intros Hu. exists u'. unfold same_target. naive_solver.
Qed.

Lemma advanced_old j u : targets !! j = Some u →
  ∃ u', targets' !! j = Some u' ∧ same_target u u' ∧ (started u → started u').
Proof.
  destruct Had. unfold targets'. destruct (decide (i = j)) as [->|Hij].
  - rewrite lookup_insert_eq. intros Hu. simplify_eq. eauto.
  - rewrite lookup_insert_ne by done. intros Hu. exists u. unfold same_target. naive_solver.
Qed.

Lemma same_before u u' v v' : same_target u u' → same_target v v' → before u' v' → before u v.
Proof.
  unfold same_target, before, tg_position. intros (?&?&?&?&?) (?&?&?&?&?) [? Hp]. split; congruence.
Qed.

Lemma advance_targets commits : targets_ok commits targets → targets_ok commits targets'.
Proof.
  intros Hok. split.
  - intros j u' (u & Hu & Hs & _)%advanced_row. destruct (to_planned _ _ Hok _ _ Hu) as [H1 H2 H3 H4].
    destruct Hs as (E1 & E2 & E3 & E4 & E5 & E6 & E7).
    rewrite E2 in H1, H2, H4. rewrite E4 in H3, H4. rewrite E5, E6 in H3. rewrite E7 in H2. by split.
  - intros j u' (u & Hu & _ & _ & [(-> & -> & ->)|[_ ->]])%advanced_row; [apply Had|].
    by eapply to_row.
  - intros j1 j2 u1' u2' (u1 & H1 & S1 & _)%advanced_row (u2 & H2 & S2 & _)%advanced_row Hc Hr.
    unfold same_target in *. eapply (to_unique _ _ Hok); [done..| |]; naive_solver congruence.
  - intros j1 j2 u1' u2' (u1 & H1 & S1 & C1 & _)%advanced_row H2' Hst Hb.
    apply C1. pose proof H2' as (u2 & H2 & S2 & _ & [(-> & -> & ->)|[_ ->]])%advanced_row.
    + eapply (ad_front _ _ _ _ Had); [done..|]. by eapply same_before.
    + eapply (to_front _ _ Hok); [done|exact H2|done|]. by eapply same_before.
Qed.

Lemma advance_earlier j1 j2 : earlier targets j1 j2 → earlier targets' j1 j2.
Proof.
  intros (u1 & u2 & H1 & H2 & Hp).
  destruct (advanced_old _ _ H1) as (v1 & V1 & (?&?&?&?&?) & _).
  destruct (advanced_old _ _ H2) as (v2 & V2 & (?&?&?&?&?) & _).
  exists v1, v2. unfold tg_position in *. split_and!; [done..|]. congruence.
Qed.

Lemma advance_publishes k j c : publishes targets k j c → publishes targets' k j c.
Proof.
  intros (u & Hu & Hk & Hst & parent & ->).
  destruct (advanced_old _ _ Hu) as (u' & Hu' & Hs & Hst').
  exists u'. destruct Hs as (?&?&?&?&?&?&E). rewrite <-E.
  split_and!; [done|congruence|by apply Hst'|eauto].
Qed.

(** A row that becomes complete has been written. *)
Lemma advance_projected claims r k pub cs :
  projected targets claims r k pub cs →
  (tg_state t' = GComplete → tg_state t = GComplete ∨
   ∃ token c m, claims !! token = Some (c, Some m) ∧ cl_id c = i ∧
                tg_repository (cl_row c) = tg_repository t) →
  (∀ token, tg_state t' = GProcessing → tg_token t' = Some token →
   tg_state t = GProcessing ∧ tg_token t = Some token ∨ claims !! token = None) →
  projected targets' claims r k pub cs.
Proof.
  intros [H1 H2 H3 H4 H5 H6] Hc Htok. split.
  - done.
  - eapply Forall2_impl; [done|]. apply advance_publishes.
  - clear -H3 Had. induction H3 as [|a l Hl IH Ha]; constructor; [done|].
    eapply Forall_impl; [done|]. intros. by apply advance_earlier.
  - intros j u' (u & Hu & Hs & _ & [(-> & -> & ->)|[_ ->]])%advanced_row Hk Hst; [|by eapply H4].
    assert (tg_repository t = k) as Hk' by (unfold same_target in Hs; naive_solver congruence).
    destruct (Hc Hst) as [|(token & c & m & Hcl & <- & Hr)]; [by eapply H4|].
    eapply H5; [done|congruence].
  - done.
  - intros token c m u' Hcl (u & Hu & Hs & _ & [(Hi & -> & ->)|[_ ->]])%advanced_row Hk Hst Htk;
      [|by eapply H6].
    destruct (Htok _ Hst Htk) as [[Hst' Htk']|]; [|congruence].
    eapply H6; [done..| |done|done]. unfold same_target in Hs. naive_solver congruence.
Qed.

(** No other row changes its completion. *)
Lemma advance_checkpointed states :
  checkpointed targets states → (tg_state t' = GComplete → tg_state t = GComplete) →
  checkpointed targets' states.
Proof.
  intros Hcp Hc j u' (u & Hu & Hs & _ & Hcase)%advanced_row Hst.
  assert (tg_state u = GComplete) as Hstu by (destruct Hcase as [(_ & -> & ->)|[_ ->]]; auto).
  destruct (Hcp _ _ Hu Hstu) as (row & j2 & v & Hrow & Hv & Hr & Hcv & Hpos & Hlast).
  destruct (advanced_old _ _ Hv) as (v' & V1 & V2 & V3).
  assert (tg_state v' = GComplete) as Hv'.
  { destruct (advanced_row _ _ V1) as (w & Hw & _ & Hcw & _). simplify_eq. auto. }
  unfold same_target, before, tg_position in *. destruct Hs as (?&?&?&?&?), V2 as (?&?&?&?&?).
  exists row, j2, v'. split_and!; congruence.
Qed.

Lemma advance_claims (c : claim_t) :
  (∃ u, targets !! cl_id c = Some u ∧ same_target (cl_row c) u ∧ started u) →
  ∃ u, targets' !! cl_id c = Some u ∧ same_target (cl_row c) u ∧ started u.
Proof.
  intros (u & Hu & Hs & Hst). destruct (advanced_old _ _ Hu) as (u' & Hu' & Hs' & Hst').
  exists u'. split_and!; [done| |by apply Hst']. unfold same_target in *. naive_solver congruence.
Qed.

End Advance.

(** ** Adding planned rows *)

(** [t] may be added to the table. *)
Record addable (commits : gmap Z (CurationCommit Header Change)) (targets : targets_t) (t : target)
    : Prop := {
  ab_planned : planned_ok commits t;
  ab_pending : tg_state t = GPending;
  ab_attempts : tg_attempts t = 0;
  ab_behind i u : targets !! i = Some u → tg_repository u = tg_repository t → started u →
    position_before (tg_position u) (tg_position t) = true }.

Lemma addable_row commits targets t : addable commits targets t → row_ok t ∧ ¬ started t.
Proof.
  intros [_ Hs Ha _]. unfold started. rewrite Ha. split; [|lia].
  split; rewrite ?Hs, ?Ha; [lia|done..].
Qed.

Lemma insert_target_cases (targets : targets_t) i t :
  insert_target targets (i, t) = targets ∨
  insert_target targets (i, t) = <[i := t]> targets ∧
  ∀ j u, targets !! j = Some u → tg_commit u = tg_commit t → tg_repository u ≠ tg_repository t.
Proof.
  unfold insert_target. cbn. destruct (target_exists _ _ _) eqn:E; [by left|right].
  split; [done|]. by apply target_exists_false.
Qed.

Lemma insert_target_ok commits targets i t :
  targets_ok commits targets → targets !! i = None → addable commits targets t →
  targets_ok commits (insert_target targets (i, t)).
Proof.
  intros Hok Hi Had. destruct (addable_row _ _ _ Had) as [Hrow Hns].
  destruct (insert_target_cases targets i t) as [->|[-> Hnew]]; [done|].
  split.
  - intros j u [[<- <-]|[_ Hu]]%lookup_insert_Some; [apply Had|]. by eapply to_planned.
  - intros j u [[<- <-]|[_ Hu]]%lookup_insert_Some; [done|]. by eapply to_row.
  - intros j1 j2 u1 u2 [[<- <-]|[_ H1]]%lookup_insert_Some [[<- <-]|[_ H2]]%lookup_insert_Some Hc Hr.
    + done.
    + by destruct (Hnew _ _ H2).
    + by destruct (Hnew _ _ H1).
    + by eapply to_unique.
  - intros j1 j2 u1 u2 [[<- <-]|[_ H1]]%lookup_insert_Some [[<- <-]|[_ H2]]%lookup_insert_Some Hst [Hr Hp].
    + done.
    + pose proof (ab_behind _ _ _ Had _ _ H2 (eq_sym Hr) Hst) as Hp'.
      rewrite position_before_lt in Hp, Hp'. lia.
    + done.
    + by eapply (to_front _ _ Hok); [..|split].
Qed.

Lemma grown_projected (targets targets' : targets_t) claims r k pub cs :
  targets ⊆ targets' →
  (∀ i t, targets' !! i = Some t → targets !! i = Some t ∨ tg_state t = GPending) →
  projected targets claims r k pub cs → projected targets' claims r k pub cs.
Proof.
  intros Hsub Hnew [H1 H2 H3 H4 H5 H6]. split; [done| | | |done|].
  - eapply Forall2_impl; [done|]. intros i c (t & Ht & Hrest). exists t. split; [|done].
    by eapply lookup_weaken.
  - clear -H3 Hsub. induction H3 as [|a l Hl IH Ha]; constructor; [done|].
    eapply Forall_impl; [done|]. intros b (t & u & Ht & Hu & Hp).
    exists t, u. split_and!; [by eapply lookup_weaken..|done].
  - intros i t Ht Hk Hc. destruct (Hnew _ _ Ht) as [Ht'|Hp]; [by eapply H4|congruence].
  - intros token c m t Hcl Ht Hk Hs Htk. destruct (Hnew _ _ Ht) as [Ht'|Hp]; [|congruence].
    by eapply H6.
Qed.

Lemma grown_checkpointed (targets targets' : targets_t) states :
  targets ⊆ targets' →
  (∀ i t, targets' !! i = Some t → targets !! i = Some t ∨ tg_state t = GPending) →
  checkpointed targets states → checkpointed targets' states.
Proof.
  intros Hsub Hnew Hcp i t Ht Hs. destruct (Hnew _ _ Ht) as [Ht'|Hp]; [|congruence].
  destruct (Hcp _ _ Ht' Hs) as (row & j & u & H1 & H2 & Hrest).
  exists row, j, u. split_and!; try done; [by eapply lookup_weaken|apply Hrest..].
Qed.

Lemma insert_targets_ok commits values (targets : targets_t) :
  targets_ok commits targets → NoDup values.*1 →
  (∀ i t, (i, t) ∈ values → targets !! i = None ∧ addable commits targets t) →
  let targets' := foldl insert_target targets values in
  targets_ok commits targets' ∧ targets ⊆ targets' ∧
  ∀ i t, targets' !! i = Some t → targets !! i = Some t ∨ (i, t) ∈ values.
Proof.
  revert targets. induction values as [|[i t] values IH]; intros targets Hok Hnd Hv; cbn [foldl].
  { split_and!; [done|done|by left]. }
  apply list.NoDup_cons in Hnd as [Hi Hnd]. destruct (Hv i t) as [Hnone Had]; [left|].
  destruct (IH (insert_target targets (i, t))) as (H1 & H2 & H3).
  - by apply insert_target_ok.
  - done.
  - intros j u Hj. destruct (Hv j u) as [Hjn Hju]; [by right|].
    assert (j ≠ i) as Hne. { intros ->. apply Hi. by apply (list_elem_of_fmap_2 fst _ _ Hj). }
    destruct (insert_target_cases targets i t) as [->|[-> _]]; [done|].
    rewrite lookup_insert_ne by done. split; [done|]. destruct Hju as [A1 A2 A3 A4]. split; [done..|].
    intros k v [[<- <-]|[_ Hk]]%lookup_insert_Some Hr Hst; [|by eapply A4].
    by destruct (addable_row _ _ _ Had).
  - assert (targets ⊆ insert_target targets (i, t)) as Hsub.
    { destruct (insert_target_cases targets i t) as [->|[-> _]]; [done|]. by apply insert_subseteq. }
    split_and!; [done|by etrans|]. intros j u [Hj|Hj]%H3; [|right; by right].
    destruct (insert_target_cases targets i t) as [E|[E _]]; rewrite E in Hj; [by left|].
    apply lookup_insert_Some in Hj as [[<- <-]|[_ Hj]]; [right; left|by left].
Qed.

(** ** The steps *)

(** Steps that leave targets and repositories alone. *)
Lemma ok_intents_step (s : system) (d' : db) plans :
  outbox_ok s → g_commits d' = g_commits (s_db s) → g_targets d' = g_targets (s_db s) →
  g_repos d' = g_repos (s_db s) → g_states d' = g_states (s_db s) →
  (∀ i row, g_intents (s_db s) !! i = Some row → has_targets (s_db s) i = true →
     ∃ row', g_intents d' !! i = Some row' ∧ (in_lease row = None → in_lease row' = None) ∧
       in_commit row' = in_commit row ∧
       (in_state row' = in_state row ∨
        in_state row' = GComplete ∧ incomplete_targets (s_db s) i = [])) →
  (∀ c, c ∈ plans → ∃ row, g_intents d' !! pc_id c = Some row ∧ in_commit row = pc_commit c) →
  outbox_ok (mkSystem d' plans (s_claims s)).
Proof.
  intros [H1 H2 H3 H4 H5 H6 H7] Ec Et Er Es Hi Hp. split; cbn; rewrite ?Ec, ?Et, ?Es.
  - done.
  - done.
  - done.
  - intros k p Hkp. unfold repo_at. rewrite Er. by apply H4.
  - intros i t Ht. destruct (H5 _ _ Ht) as (row & Hrow & Hl & Hc & Hs).
    assert (has_targets (s_db s) (tg_intent t) = true) as Hht.
    { destruct (has_targets _ _) eqn:E; [done|]. by destruct (proj1 (has_targets_false _ _) E _ _ Ht). }
    destruct (Hi _ _ Hrow Hht) as (row' & Hr' & Hl' & Hc' & Hs').
    exists row'. split_and!; [done|by apply Hl'|congruence|].
    destruct Hs' as [->|[-> Hn]]; [done|]. right. split; [done|]. by eapply incomplete_nil.
  - done.
  - done.
Qed.

Lemma ok_request s commit repository fresh :
  outbox_ok s → g_intents (s_db s) !! fresh = None →
  outbox_ok (with_db s (request_gitllery_projection (s_db s) commit repository fresh).1).
Proof.
  intros Hok Hf. unfold request_gitllery_projection.
  destruct (List.find _ _) as [[i row]|] eqn:Hfind.
  - apply List.find_some in Hfind as [Hin%list_elem_of_In%elem_of_map_to_list _].
    set (row' := if decide (in_state row = GFailed) then _ else row).
    assert (in_commit row' = in_commit row) as Hc by (unfold row'; by case_decide).
    assert (∀ j r, g_intents (s_db s) !! j = Some r → ∃ r', <[i := row']> (g_intents (s_db s)) !! j = Some r'
              ∧ in_commit r' = in_commit r) as Hkeep.
    { intros j r Hj. destruct (decide (i = j)) as [<-|Hne]; [|by exists r; rewrite lookup_insert_ne].
      exists row'. rewrite lookup_insert_eq. split; [done|congruence]. }
    assert (∀ j r, g_intents (s_db s) !! j = Some r → has_targets (s_db s) j = true →
              <[i := row']> (g_intents (s_db s)) !! j = Some r) as Hsame.
    { intros j r Hj Ht. destruct (decide (i = j)) as [<-|Hne]; [|by rewrite lookup_insert_ne].
      rewrite lookup_insert_eq. unfold row'. simplify_eq. rewrite decide_False; [done|].
      apply existsb_exists in Ht as ([j t] & Htin%list_elem_of_In%elem_of_map_to_list & Hji%Z.eqb_eq).
      destruct (ok_intents _ Hok _ _ Htin) as (r0 & Hr0 & _ & _ & Hs). cbn in Hji.
      rewrite Hji in Hr0. simplify_eq. intros E. destruct Hs as [Hs|[Hs _]]; congruence. }
    unfold with_db. cbn [fst].
    set (d1 := if decide (in_state row' = GPending ∨ in_state row' = GFailed) then _ else _).
    assert (g_commits d1 = g_commits (s_db s) ∧ g_targets d1 = g_targets (s_db s) ∧
            g_repos d1 = g_repos (s_db s) ∧ g_intents d1 = <[i := row']> (g_intents (s_db s)) ∧
            g_states d1 = g_states (s_db s))
      as (E1 & E2 & E3 & E4 & E5) by (unfold d1; by case_decide).
    clearbody d1. apply ok_intents_step; try done; rewrite E4.
    + intros j r Hj Ht. exists r. by rewrite (Hsame _ _ Hj Ht); auto.
    + intros c Hcp. destruct (ok_plans _ Hok _ Hcp) as (r & Hr & Hrc).
      destruct (Hkeep _ _ Hr) as (r' & Hr' & E). exists r'. split; [done|congruence].
  - cbn [fst]. unfold with_db. apply ok_intents_step; try done; cbn.
    + intros j r Hj _. exists r. rewrite lookup_insert_ne by congruence. auto.
    + intros c Hc. destruct (ok_plans _ Hok _ Hc) as (r & Hr & Hrc). exists r.
      rewrite lookup_insert_ne; [done|congruence].
Qed.

Lemma leased_no_targets s i row l :
  outbox_ok s → g_intents (s_db s) !! i = Some row → in_lease row = Some l →
  has_targets (s_db s) i = false.
Proof.
  intros Hok Hi Hl. apply has_targets_false. intros j t Ht <-.
  destruct (ok_intents _ Hok _ _ Ht) as (row' & Hr' & Hl' & _). by simplify_eq.
Qed.

(** Replacing the row of an intent without targets. *)
Lemma ok_intent_row s i row row' plans :
  outbox_ok s → g_intents (s_db s) !! i = Some row → has_targets (s_db s) i = false →
  in_commit row' = in_commit row →
  (∀ c, c ∈ plans → c ∈ s_plans s ∨ pc_id c = i ∧ pc_commit c = in_commit row) →
  outbox_ok (mkSystem (set_intents (s_db s) (<[i := row']> (g_intents (s_db s)))) plans (s_claims s)).
Proof.
  intros Hok Hi Hnt Hc Hp. apply ok_intents_step; try done; cbn.
  - intros j r Hj Ht. assert (j ≠ i) by congruence. exists r. rewrite lookup_insert_ne by done. auto.
  - intros c Hcp. destruct (Hp c Hcp) as [Hold|[<- Hcc]].
    + destruct (ok_plans _ Hok _ Hold) as (r & Hr & Hrc).
      destruct (decide (i = pc_id c)) as [->|Hne]; [|exists r; by rewrite lookup_insert_ne].
      exists row'. rewrite lookup_insert_eq. split; [done|congruence].
    + exists row'. rewrite lookup_insert_eq. split; [done|congruence].
Qed.

Lemma ok_claim_intent s locked d' c :
  outbox_ok s → _claim_intent_for_planning (s_db s) locked = (d', Some c) →
  outbox_ok (mkSystem d' (c :: s_plans s) (s_claims s)).
Proof.
  intros Hok. unfold _claim_intent_for_planning.
  destruct (select_rows _ _ _ _ _) as [|[i row] rest] eqn:E; [done|]. intros [= <- <-].
  apply select_first in E as [Hin%elem_of_map_to_list Hp].
  unfold plannable in Hp. cbn [fst snd] in Hp. rewrite !andb_true_iff, negb_true_iff in Hp.
  eapply ok_intent_row; [done|exact Hin|apply Hp|done|].
  intros c [->|Hc]%elem_of_cons; [by right|by left].
Qed.

Lemma ok_fail_intent s c error :
  outbox_ok s → outbox_ok (with_db s (_fail_intent (s_db s) c error)).
Proof.
  intros Hok. unfold _fail_intent. destruct (plan_held _ _) as [row|] eqn:E; [|by destruct s].
  apply plan_held_spec in E as (Hi & _ & _ & Hl). unfold with_db.
  eapply ok_intent_row; [done|exact Hi|by eapply leased_no_targets|done|by left].
Qed.

Lemma ok_settle s i : outbox_ok s → outbox_ok (with_db s (_settle_intent (s_db s) i)).
Proof.
  intros Hok. unfold _settle_intent. case_decide as Hn; [|by destruct s].
  destruct (g_intents (s_db s) !! i) as [row|] eqn:Hi; [|by destruct s]. unfold with_db.
  apply ok_intents_step; try done; cbn.
  - intros j r Hj _. destruct (decide (i = j)) as [<-|Hne].
    + simplify_eq. eexists. rewrite lookup_insert_eq. cbn. auto 6.
    + exists r. rewrite lookup_insert_ne by done. auto.
  - intros c Hc. destruct (ok_plans _ Hok _ Hc) as (r & Hr & Hrc).
    destruct (decide (i = pc_id c)) as [->|Hne]; [|exists r; by rewrite lookup_insert_ne].
    simplify_eq. eexists. by rewrite lookup_insert_eq.
Qed.

Lemma planned_addable (s : system) c (cc : CurationCommit Header Change) resolve slice :
  g_commits (s_db s) !! pc_commit c = Some cc → well_placed place slice.1 →
  (uuid_str (pc_commit c) ∉ id_of <$> history0 (rd_repository_id slice.1)) →
  planned_behind (s_db s) (pc_commit c) (cc_created_at cc) (rd_repository_id slice.1) →
  slice ∈ slice_changes resolve (cc_changes cc) →
  addable (g_commits (s_db s)) (g_targets (s_db s))
    (planned_target (s_db s) (pc_id c) (pc_commit c) cc slice).
Proof.
  intros Hcc Hplace Hnew Hbehind _. split; [|done..|by intros ????; eapply Hbehind].
  split; cbn; [by rewrite Hcc|done..].
Qed.

Lemma ok_plan s c resolve ids d' n :
  outbox_ok s → c ∈ s_plans s →
  plan_environment place history0 true (s_db s) c resolve ids →
  _plan_intent (s_db s) c resolve ids = Some (d', n) → outbox_ok (with_db s d').
Proof.
  intros Hok Hc (Hnd & Hfresh & Henv). unfold _plan_intent.
  destruct (g_commits (s_db s) !! pc_commit c) as [cc|] eqn:Hcc; [|done]. cbn [mbind option_bind].
  destruct (Henv _ eq_refl) as [Hlen Hslices]. clear Henv.
  set (rows := planned_target (s_db s) _ _ _ <$> _). set (values := zip ids rows).
  destruct (plan_held (s_db s) c) as [row|] eqn:Hheld; [|intros [= <- <-]; by destruct s].
  intros [= <- <-]. apply plan_held_spec in Hheld as (Hi & _ & _ & Hl).
  pose proof (leased_no_targets _ _ _ _ Hok Hi Hl) as Hnt.
  assert (∀ i t, (i, t) ∈ values → g_targets (s_db s) !! i = None ∧
            addable (g_commits (s_db s)) (g_targets (s_db s)) t ∧
            tg_intent t = pc_id c ∧ tg_commit t = pc_commit c) as Hv.
  { intros i t Hin. split; [by apply Hfresh; eapply elem_of_zip_l|].
    apply elem_of_zip_r in Hin. apply list_elem_of_fmap in Hin as (slice & -> & Hin).
    destruct (Hslices _ Hin) as (H1 & H2 & H3). split; [|done].
    eapply planned_addable; [done..|by apply H3|done]. }
  destruct (insert_targets_ok (g_commits (s_db s)) values (g_targets (s_db s))) as (G1 & G2 & G3).
  { apply Hok. }
  { unfold values. rewrite fst_zip; [done|]. unfold rows. rewrite length_fmap. lia. }
  { intros i t Hin. by destruct (Hv _ _ Hin) as (? & ? & _). }
  destruct (ok_plans _ Hok _ Hc) as (row0 & Hr0 & Hrc). simplify_eq.
  assert (∀ i t, foldl insert_target (g_targets (s_db s)) values !! i = Some t →
            g_targets (s_db s) !! i = Some t ∨ tg_state t = GPending) as G3'.
  { intros i t [?|Hin]%G3; [by left|right]. by apply (Hv _ _ Hin). }
  split; cbn.
  - apply Hok.
  - done.
  - intros token c0 h Hcl. destruct (ok_claims _ Hok _ _ _ Hcl) as (? & t & Ht & ?).
    split; [done|]. exists t. split; [by eapply lookup_weaken|done].
  - intros k p Hkp. destruct (ok_repos _ Hok _ _ Hkp) as (pub & cs & Hpj).
    exists pub, cs. by eapply grown_projected.
  - intros i t [Ht|Hin]%G3.
    + destruct (ok_intents _ Hok _ _ Ht) as (r & Hr & Hrest). exists r.
      rewrite lookup_insert_ne; [done|]. intros E. rewrite <-E in Hr. simplify_eq. naive_solver.
    + destruct (Hv _ _ Hin) as (_ & _ & -> & ->). eexists. rewrite lookup_insert_eq.
      split; [done|]. cbn. split_and!; [done|done|]. left.
      rewrite bool_decide_eq_false_2; [done|]. intros E. rewrite E in Hin. by apply elem_of_nil in Hin.
  - intros c0 Hc0. destruct (ok_plans _ Hok _ Hc0) as (r & Hr & Hrc0).
    destruct (decide (pc_id c = pc_id c0)) as [E|Hne]; [|exists r; by rewrite lookup_insert_ne].
    rewrite <-E. eexists. rewrite lookup_insert_eq. split; [done|]. cbn.
    rewrite <-E in Hr. by simplify_eq.
  - eapply grown_checkpointed; [done..|]. apply Hok.
Qed.
End Facts.

(** * The outbox keeps its invariant

    The steps on targets (claiming, writing, finishing, failing) keep
    [outbox_ok], and with the steps on intents so does every step. *)

Section Steps.
Context {Header Change R : Type} `{!CommitLog Header Change R, !CommitLogLaws Header Change R}.
Context (st : Settings) (place : string → string * string).
Context (history0 : string → list (Commit Header Change)).
Hypothesis place_inj : ∀ k k', place k = place k' → k = k'.

Abbreviation target := (Target Header Change).
Abbreviation claim_t := (TargetClaim Header Change).
Abbreviation db := (Db Header Change R).
Abbreviation system := (System (Header := Header) (Change := Change) (R := R)).
Abbreviation ok := (outbox_ok st place history0).
Abbreviation projected := (projected history0).

(** ** Rows *)

Lemma claimed_row_ok (d : db) t token : row_ok t → row_ok (claimed_row d t token).
Proof.
  intros [Ha _ _ _]. unfold claimed_row. split; cbn; unfold started; cbn; [lia|lia|done|eauto].
Qed.

Lemma finished_row_ok (d : db) t m : started t → row_ok (finished_row d t m).
Proof. unfold started. intros Hs. split; cbn; unfold started; cbn; [lia|done|done|done]. Qed.

Lemma failed_row_ok (d : db) t n e : started t → row_ok (failed_row d t n e).
Proof. unfold started. intros Hs. split; cbn; unfold started; cbn; [lia|done|done|done]. Qed.

(** A row under a live claim may be finished or failed. *)
Lemma held_advances commits (d : db) (c : claim_t) t t' :
  targets_ok place history0 commits (g_targets d) → target_held d c = Some t →
  same_target t t' → row_ok t' → started t' →
  advances (g_targets d) (cl_id c) t t'.
Proof.
  intros Hok (Ht & Hs & _)%target_held_spec Hsame Hrow Hst. split; try done; [congruence|].
  intros _ j u Hu Hb. eapply (to_front _ _ _ _ Hok); [exact Hu|exact Ht| |done].
  apply (ro_started _ (to_row _ _ _ _ Hok _ _ Ht)). congruence.
Qed.

Lemma held_started commits (d : db) (c : claim_t) t :
  targets_ok place history0 commits (g_targets d) → target_held d c = Some t → started t.
Proof.
  intros Hok (Ht & Hs & _)%target_held_spec.
  apply (ro_started _ (to_row _ _ _ _ Hok _ _ Ht)). congruence.
Qed.

(** ** Replacing one row in the whole system *)

Lemma ok_advance (s : system) (d' : db) i t t' claims :
  ok s → advances (g_targets (s_db s)) i t t' →
  g_commits d' = g_commits (s_db s) → g_intents d' = g_intents (s_db s) →
  g_repos d' = g_repos (s_db s) → g_targets d' = <[i := t']> (g_targets (s_db s)) →
  (tg_state t' = GComplete → tg_state t = GComplete ∨
   ∃ token c m, s_claims s !! token = Some (c, Some m) ∧ cl_id c = i ∧
                tg_repository (cl_row c) = tg_repository t) →
  (∀ token, tg_state t' = GProcessing → tg_token t' = Some token →
   tg_state t = GProcessing ∧ tg_token t = Some token ∨ s_claims s !! token = None) →
  checkpointed (g_targets d') (g_states d') →
  (∀ token c h, claims !! token = Some (c, h) → s_claims s !! token = Some (c, h) ∨
     h = None ∧ cl_token c = token ∧ cl_id c = i ∧ same_target (cl_row c) t' ∧ started t') →
  ok (mkSystem d' (s_plans s) claims).
Proof.
  intros Hok Had Ec Ei Er Et Hcomp Htok Hcp Hcl.
  assert (∀ token c m, claims !! token = Some (c, Some m) → s_claims s !! token = Some (c, Some m)) as Hcl'.
  { intros token c m H. by destruct (Hcl _ _ _ H) as [|[? _]]. }
  split; cbn; rewrite ?Ec, ?Ei, ?Et.
  - apply Hok.
  - eapply advance_targets; [done|apply Hok].
  - intros token c h H. destruct (Hcl _ _ _ H) as [Hold|(_ & <- & <- & H2 & H3)].
    + destruct (ok_claims _ _ _ _ Hok _ _ _ Hold) as [Htk Hc]. split; [done|].
      by eapply advance_claims.
    + split; [done|]. exists t'. by rewrite lookup_insert_eq.
  - intros k p Hkp. unfold repo_at. rewrite Er.
    destruct (ok_repos _ _ _ _ Hok _ _ Hkp) as (pub & cs & Hpj). exists pub, cs.
    eapply advance_projected in Hpj as [P1 P2 P3 P4 P5 P6]; [|done..].
    split; [done..|naive_solver|]. intros token c m u Hc. by eapply P6, Hcl'.
  - intros j u' Hu'. destruct (advanced_row _ _ _ _ Had _ _ Hu') as (u & Hu & Hsm & Hcu & _).
    destruct (ok_intents _ _ _ _ Hok _ _ Hu) as (row & Hr & Hl & Hc & Hs).
    destruct Hsm as (E1 & E2 & _). exists row. rewrite <-E1, <-E2. split_and!; [done..|].
    destruct Hs as [?|[? ?]]; auto.
  - apply Hok.
  - by rewrite <-Et.
Qed.

Lemma ok_claim (s : system) locked token d' c :
  ok s → s_claims s !! token = None → _claim_target (s_db s) locked token = (d', Some c) →
  ok (mkSystem d' (s_plans s) (<[token := (c, None)]> (s_claims s))).
Proof.
  intros Hok Hfresh. unfold _claim_target.
  destruct (select_rows _ _ _ _ _) as [|[i t] rest] eqn:E; [done|]. intros [= <- <-].
  apply select_first in E as [Ht%elem_of_map_to_list Hc].
  unfold claimable_target in Hc. cbn [fst snd] in Hc. rewrite !andb_true_iff, negb_true_iff in Hc.
  destruct Hc as [[Hearlier Hopen] _]. rewrite has_earlier_false in Hearlier.
  assert (tg_state t ≠ GComplete) as Hnc.
  { intros E. unfold open_for_claim in Hopen. by rewrite E in Hopen. }
  pose proof (to_row _ _ _ _ (ok_targets _ _ _ _ Hok) _ _ Ht) as Hrow.
  assert (started (claimed_row (s_db s) t token)) as Hst.
  { unfold started. cbn. pose proof (ro_attempts _ Hrow). lia. }
  assert (advances (g_targets (s_db s)) i t (claimed_row (s_db s) t token)) as Had.
  { split; try done; by apply claimed_row_ok. }
  eapply ok_advance; try done; cbn.
  - intros tok _ [= <-]. by right.
  - eapply advance_checkpointed; [done|apply Hok|done].
  - intros tok c0 h [[<- [= <- <-]]|[_ H]]%lookup_insert_Some; [right|by left].
    split_and!; [done..|]. exact Hst.
Qed.

Lemma ok_fail (s : system) c error : ok s → ok (with_db s (_fail_target (s_db s) c error)).
Proof.
  intros Hok. unfold _fail_target. destruct (target_held _ _) as [t|] eqn:Hh; [|by destruct s].
  pose proof (held_started _ _ _ _ (ok_targets _ _ _ _ Hok) Hh) as Hst.
  assert (advances (g_targets (s_db s)) (cl_id c) t
            (failed_row (s_db s) t (tg_attempts (cl_row c)) error)) as Had.
  { eapply held_advances; [apply Hok|done|done|by apply failed_row_ok|exact Hst]. }
  unfold with_db. eapply ok_advance; try done; cbn; [|by left].
  eapply advance_checkpointed; [done|apply Hok|done].
Qed.

(** ** The front of a repository *)

(** A started target that is not complete is behind every started one. *)
Lemma behind_started commits (targets : gmap Z target) i j t u :
  targets_ok place history0 commits targets →
  targets !! i = Some t → tg_state t ≠ GComplete → started t →
  targets !! j = Some u → started u → tg_repository u = tg_repository t →
  j = i ∨ position_before (tg_position u) (tg_position t) = true ∧ tg_state u = GComplete.
Proof.
  intros Hok Ht Hnc Hst Hu Hsu Hr.
  destruct (position_total (tg_position u) (tg_position t)) as [E|[Hp|Hp]].
  - left. injection E as _ E. by eapply (to_unique _ _ _ _ Hok).
  - right. split; [done|]. apply (to_front _ _ _ _ Hok _ _ _ _ Hu Ht Hst). by split.
  - destruct Hnc. apply (to_front _ _ _ _ Hok _ _ _ _ Ht Hu Hsu). by split.
Qed.

Lemma ok_finish (s : system) token c m :
  ok s → s_claims s !! token = Some (c, Some m) →
  ok (with_db s (_finish_target st (s_db s) c m).1).
Proof.
  intros Hok Hcl. unfold _finish_target.
  destruct (target_held _ _) as [t|] eqn:Hh; [|by destruct s]. cbn [fst].
  pose proof (held_started _ _ _ _ (ok_targets _ _ _ _ Hok) Hh) as Hst.
  pose proof (ok_targets _ _ _ _ Hok) as Htg.
  assert (advances (g_targets (s_db s)) (cl_id c) t (finished_row (s_db s) t m)) as Had.
  { eapply held_advances; [done|done|done|by apply finished_row_ok|exact Hst]. }
  apply target_held_spec in Hh as (Ht & Hproc & _ & _).
  destruct (ok_claims _ _ _ _ Hok _ _ _ Hcl) as (_ & t0 & Ht0 & Hsame & _). simplify_eq.
  destruct Hsame as (E1 & E2 & E3 & E4 & _).
  unfold with_db. eapply ok_advance; try done; cbn; [by eauto 10| |by left].
  intros j u' Hu' Hcu. destruct (advanced_row _ _ _ _ Had _ _ Hu') as (u & Hu & Hsu & _ & Hcase).
  assert (tg_repository u' = tg_repository u) as Hru by (destruct Hsu as (_ & _ & _ & ? & _); congruence).
  destruct (decide (tg_repository u = tg_repository (cl_row c))) as [Hr|Hr].
  - eexists _, (cl_id c), (finished_row (s_db s) t m).
    rewrite Hru, Hr, lookup_insert_eq, lookup_insert_eq. split_and!; [done|done|done|done| |].
    { cbn. unfold tg_position. cbn. congruence. }
    destruct Hcase as [(-> & -> & ->)|[Hne ->]]; [by left|].
    destruct (behind_started _ _ (cl_id c) j t u Htg) as [->|[Hp _]]; try done; [congruence| | |].
    + apply (ro_started _ (to_row _ _ _ _ Htg _ _ Hu)). congruence.
    + congruence.
    + right. split; [cbn; congruence|exact Hp].
  - destruct Hcase as [(-> & -> & ->)|[Hne ->]]; [by destruct Hr|].
    destruct (ok_states _ _ _ _ Hok _ _ Hu Hcu) as (row & j2 & v & H1 & H2 & H3 & H4).
    exists row, j2, v. rewrite lookup_insert_ne by congruence. split; [done|].
    rewrite lookup_insert_ne; [done|]. intros <-. simplify_eq. congruence.
Qed.

(** ** Writing *)

Lemma publishes_id (targets : gmap Z target) commits k i c :
  targets_ok place history0 commits targets → publishes targets k i c →
  ∃ t, targets !! i = Some t ∧ tg_repository t = k ∧ started t ∧ id_of c = uuid_str (tg_commit t).
Proof.
  intros Hok (t & Ht & Hk & Hst & parent & ->). exists t. split_and!; [done..|].
  rewrite id_of_reparent. unfold id_of. by rewrite (pl_payload _ _ _ _ (to_planned _ _ _ _ Hok _ _ Ht)).
Qed.

Section Write.
Context (commits : gmap Z (CurationCommit Header Change)) (targets : gmap Z target).
Context (claims : gmap Z (claim_t * option Manifest)) (r : R) (k : string).
Context (pub : list Z) (cs : list (Commit Header Change)) (i : Z) (t : target).
Hypothesis Huuid : ∀ c, is_Some (commits !! c) → is_uuid c.
Hypothesis Hok : targets_ok place history0 commits targets.
Hypothesis Hpj : projected targets claims r k pub cs.
Hypothesis Ht : targets !! i = Some t.
Hypothesis Hk : tg_repository t = k.
Hypothesis Hnc : tg_state t ≠ GComplete.
Hypothesis Hst : started t.

Lemma published_started j : j ∈ pub →
  ∃ u, targets !! j = Some u ∧ tg_repository u = k ∧ started u.
Proof.
  intros Hj. destruct (Forall2_elem_l _ _ _ _ (pj_publishes _ _ _ _ _ _ _ Hpj) Hj)
    as (c & _ & u & Hu & Hku & Hsu & _). eauto.
Qed.

Lemma published_behind j : j ∈ pub → j ≠ i → earlier targets j i.
Proof.
  intros Hj Hne. destruct (published_started _ Hj) as (u & Hu & Hku & Hsu).
  destruct (behind_started _ _ _ _ _ _ Hok Ht Hnc Hst Hu Hsu) as [|[Hp _]]; [congruence|done|].
  exists u, t. done.
Qed.

(** A published target that is not complete is the last one. *)
Lemma published_last : i ∈ pub →
  last_id None (history0 k ++ cs) = Some (uuid_str (tg_commit t)).
Proof.
  intros (l1 & l2 & Hpub)%list_elem_of_split.
  pose proof (pj_sorted _ _ _ _ _ _ _ Hpj) as Hs. rewrite Hpub in Hs.
  assert (l2 = []) as Hl2.
  { destruct l2 as [|j l2]; [done|exfalso].
    assert (earlier targets i j) as (a & b & Ha & Hb & Hp).
    { clear -Hs. induction l1 as [|x l1 IH]; cbn in Hs; apply StronglySorted_inv in Hs as [Hs Hall]; auto.
      by inversion Hall. }
    assert (j ∈ pub) as Hj by (rewrite Hpub; set_solver).
    destruct (decide (j = i)) as [->|Hne]; [simplify_eq; apply position_before_lt in Hp; lia|].
    destruct (published_behind _ Hj Hne) as (a' & b' & Ha' & Hb' & Hp'). simplify_eq.
    rewrite position_before_lt in Hp, Hp'. lia. }
  pose proof (pj_publishes _ _ _ _ _ _ _ Hpj) as Hf. rewrite Hpub, Hl2 in Hf.
  apply Forall2_app_inv_l in Hf as (cs1 & cs2 & _ & H2 & ->).
  inversion H2 as [|? c ? ? Hc H3]; subst. inversion H3; subst.
  rewrite app_assoc, last_id_app. cbn.
  destruct (publishes_id _ _ _ _ _ Hok Hc) as (u & Hu & _ & _ & ->). by simplify_eq.
Qed.

(** A target not yet published is new to the log. *)
Lemma unpublished_new : (i ∉ pub) → uuid_str (tg_commit t) ∉ id_of <$> history0 k ++ cs.
Proof.
  intros Hi Hin. rewrite fmap_app, elem_of_app in Hin. destruct Hin as [Hin|Hin].
  { eapply (pl_new _ _ _ _ (to_planned _ _ _ _ Hok _ _ Ht)). by rewrite Hk. }
  apply list_elem_of_fmap in Hin as (c & Hc & Hin).
  destruct (Forall2_elem_r _ _ _ _ (pj_publishes _ _ _ _ _ _ _ Hpj) Hin) as (j & Hj & Hpub).
  destruct (publishes_id _ _ _ _ _ Hok Hpub) as (u & Hu & Hku & _ & Eu).
  rewrite Eu in Hc. apply uuid_str_inj in Hc.
  - apply Hi. replace i with j; [done|]. eapply (to_unique _ _ _ _ Hok); [done..|congruence].
  - apply Huuid, (pl_commit _ _ _ _ (to_planned _ _ _ _ Hok _ _ Ht)).
  - apply Huuid, (pl_commit _ _ _ _ (to_planned _ _ _ _ Hok _ _ Hu)).
Qed.

Lemma published_append : (i ∉ pub) → StronglySorted (earlier targets) (pub ++ [i]).
Proof.
  intros Hi. pose proof (pj_sorted _ _ _ _ _ _ _ Hpj) as Hs.
  assert (∀ j, j ∈ pub → earlier targets j i) as Hall.
  { intros j Hj. apply published_behind; [done|]. by intros ->. }
  clear -Hs Hall. induction Hs as [|a l Hl IH Ha]; cbn; [by repeat constructor|].
  constructor; [apply IH; set_solver|]. apply Forall_app. split; [done|].
  constructor; [apply Hall; left|constructor].
Qed.

End Write.

Lemma uuid_has_id commits (t : target) : planned_ok place history0 commits t → has_id (tg_payload t).
Proof. intros [_ Hp _ _]. exists (uuid_str (tg_commit t)). split; [done|]. apply uuid_str_proper. Qed.

(** Publishing the claimed target: the log, with or without a new commit,
    still holds the started targets in order. *)
Lemma write_projected commits (targets : gmap Z target) claims (r r' : R) k pub cs token c h m t stamp :
  (∀ x, is_Some (commits !! x) → is_uuid x) → targets_ok place history0 commits targets →
  projected targets claims r k pub cs →
  claims !! token = Some (c, h) → cl_token c = token →
  targets !! cl_id c = Some t → same_target (cl_row c) t → tg_repository t = k →
  tg_state t = GProcessing → tg_token t = Some token →
  log_writable st (log_target (cl_row c)) stamp r →
  log_write st (log_target (cl_row c)) stamp r = (r', Ok m) →
  ∃ pub' cs', projected targets (<[token := (c, Some m)]> claims) r' k pub' cs'.
Proof.
  intros Huuid Hok Hpj Hcl Htok Ht Hsame Hk Hproc Htk Hwr Hw.
  pose proof (to_planned _ _ _ _ Hok _ _ Ht) as Hpl.
  assert (tg_payload (cl_row c) = tg_payload t) as Hpay by apply Hsame.
  assert (has_id (lt_payload (log_target (cl_row c)))) as Hid.
  { cbn. rewrite Hpay. by eapply uuid_has_id. }
  assert (id_of (lt_payload (log_target (cl_row c))) = uuid_str (tg_commit t)) as Hidof.
  { cbn. rewrite Hpay. unfold id_of. by rewrite (pl_payload _ _ _ _ Hpl). }
  assert (tg_state t ≠ GComplete) as Hnc by congruence.
  assert (started t) as Hst by (apply (ro_started _ (to_row _ _ _ _ Hok _ _ Ht)); congruence).
  assert (∀ pub' : list Z, cl_id c ∈ pub' → (∀ j, j ∈ pub → j ∈ pub') → ∀ token2 c2 m2,
    <[token := (c, Some m)]> claims !! token2 = Some (c2, Some m2) →
    tg_repository (cl_row c2) = k → cl_id c2 ∈ pub') as Hwritten.
  { intros pub' Hin Hsub token2 c2 m2 [[<- [= <- <-]]|[_ H]]%lookup_insert_Some Hr; [done|].
    by eapply Hsub, pj_written. }
  assert (∀ n, commit_count m = n → ∀ token2 c2 m2 u,
    <[token := (c, Some m)]> claims !! token2 = Some (c2, Some m2) →
    targets !! cl_id c2 = Some u → tg_repository u = k → tg_state u = GProcessing →
    tg_token u = Some token2 → commit_count m2 = n) as Hcount.
  { intros n Hn token2 c2 m2 u H2 Hu Hku Hpu Htu.
    assert (started u) as Hsu by (apply (ro_started _ (to_row _ _ _ _ Hok _ _ Hu)); congruence).
    destruct (behind_started _ _ _ _ _ _ Hok Ht Hnc Hst Hu Hsu) as [E|[_ ?]]; [congruence| |congruence].
    rewrite E in Hu. simplify_eq. rewrite lookup_insert_eq in H2. by simplify_eq. }
  destruct (decide (cl_id c ∈ pub)) as [Hin|Hout].
  - destruct (log_write_again _ _ _ _ _ _ _ (pj_history _ _ _ _ _ _ _ Hpj) Hid Hw) as [Hh Hn].
    { rewrite Hidof. by eapply published_last. }
    exists pub, cs. destruct Hpj. split; [done..|by apply Hwritten|by apply Hcount].
  - destruct (log_write_new _ _ _ _ _ _ _ (pj_history _ _ _ _ _ _ _ Hpj) Hid Hwr Hw) as [Hh Hn].
    { rewrite Hidof. by eapply unpublished_new. }
    rewrite <-app_assoc in Hh, Hn. eexists (pub ++ [cl_id c]), _. split.
    + exact Hh.
    + apply Forall2_app; [apply Hpj|]. constructor; [|constructor].
      exists t. split_and!; [done..|]. eexists. cbn. by rewrite Hpay.
    + by eapply published_append.
    + intros j u Hu Hku Hc. apply elem_of_app. left. by eapply (pj_complete _ _ _ _ _ _ _ Hpj).
    + apply Hwritten; set_solver.
    + by apply Hcount.
Qed.

(** A claim of another repository says nothing about this log. *)
Lemma other_projected (targets : gmap Z target) claims (r : R) k pub cs token c h :
  projected targets claims r k pub cs → tg_repository (cl_row c) ≠ k →
  (∀ t, targets !! cl_id c = Some t → tg_repository t ≠ k) →
  projected targets (<[token := (c, h)]> claims) r k pub cs.
Proof.
  intros [H1 H2 H3 H4 H5 H6] Hne Hne'. split; [done..| |].
  - intros tok c2 m [[<- [= <- ->]]|[_ H]]%lookup_insert_Some Hr; [done|by eapply H5].
  - intros tok c2 m u [[<- [= <- ->]]|[_ H]]%lookup_insert_Some Hu Hr; [by destruct (Hne' u)|by eapply H6].
Qed.

Lemma ok_write (s : system) token c h stamp d' res :
  ok s → s_claims s !! token = Some (c, h) →
  write_environment st true (s_db s) c stamp →
  write_target st (s_db s) (cl_row c) stamp = (d', res) →
  ok (mkSystem d' (s_plans s)
        (<[token := (c, match res with Ok m => Some m | Err _ => h end)]> (s_claims s))).
Proof.
  intros Hok Hcl [Hwr Hheld] Hw. destruct (Hheld eq_refl) as [t Ht]. clear Hheld.
  apply target_held_spec in Ht as (Ht & Hproc & _ & Htk).
  destruct (ok_claims _ _ _ _ Hok _ _ _ Hcl) as (Htok & t0 & Ht0 & Hsame & _). simplify_eq.
  set (k := tg_repository t).
  assert (place k = (tg_source (cl_row c), tg_creator_dir (cl_row c))) as Hplace.
  { unfold k. rewrite <-(pl_place _ _ _ _ (to_planned _ _ _ _ (ok_targets _ _ _ _ Hok) _ _ Ht)).
    destruct Hsame as (_ & _ & _ & _ & -> & -> & _). done. }
  assert (tg_repository (cl_row c) = k) as Hk by apply Hsame.
  unfold write_target in Hw.
  destruct (_repository_path st (tg_source (cl_row c)) (tg_creator_dir (cl_row c))) as [p|e] eqn:Hp.
  2: { injection Hw as <- <-. rewrite insert_id by done. by destruct s. }
  destruct (log_write st (log_target (cl_row c)) stamp (repo_at (s_db s) p)) as [r res'] eqn:Hlw.
  injection Hw as <- <-.
  assert (located st place k p) as Hloc by (unfold located; by rewrite Hplace).
  destruct (ok_repos _ _ _ _ Hok _ _ Hloc) as (pub & cs & Hpj).
  assert (∃ pub' cs', projected (g_targets (s_db s))
    (<[cl_token c := (c, match res' with Ok m => Some m | Err _ => h end)]> (s_claims s)) r k pub' cs') as Hnew.
  { destruct res' as [m|e].
    - eapply write_projected; [apply Hok|apply Hok|exact Hpj|done..|by apply Hwr|exact Hlw].
    - rewrite insert_id by done. exists pub, cs. destruct Hpj. split; [|done..].
      by eapply log_write_error. }
  split; cbn; try apply Hok.
  - intros tok c2 h2 [[<- [= <- <-]]|[_ H]]%lookup_insert_Some; [split; [done|]|by eapply ok_claims].
    destruct (ok_claims _ _ _ _ Hok _ _ _ Hcl) as [_ ?]. done.
  - intros k' p' Hloc'. unfold repo_at. cbn. destruct (decide (k' = k)) as [->|Hne].
    + assert (p' = p) as -> by (unfold located in *; congruence).
      rewrite lookup_insert_eq. exact Hnew.
    + rewrite lookup_insert_ne by (intros <-; apply Hne; eapply located_inj; eauto).
      destruct (ok_repos _ _ _ _ Hok _ _ Hloc') as (pub' & cs' & Hpj'). exists pub', cs'.
      apply other_projected; [done|congruence|]. intros u Hu. simplify_eq. by apply not_eq_sym.
Qed.

(** ** Every step *)

Lemma ok_tick (s : system) now :
  ok s → ok (with_db s (mkDb now (g_commits (s_db s)) (g_intents (s_db s)) (g_targets (s_db s))
                          (g_states (s_db s)) (g_repos (s_db s)) (g_wake (s_db s)))).
Proof. intros []. by split. Qed.

Lemma ok_commit (s : system) c cc :
  ok s → g_commits (s_db s) !! c = None → is_uuid c →
  ok (with_db s (mkDb (g_now (s_db s)) (<[c := cc]> (g_commits (s_db s))) (g_intents (s_db s))
                   (g_targets (s_db s)) (g_states (s_db s)) (g_repos (s_db s)) (g_wake (s_db s)))).
Proof.
  intros [H1 H2 H3 H4 H5 H6 H7] Hn Hu. split; cbn; try done.
  - intros c0 [->|[_ ?]]%lookup_insert_is_Some; [done|auto].
  - destruct H2 as [P1 P2 P3 P4]. split; try done. intros i t Ht. destruct (P1 _ _ Ht) as [Q1 Q2 Q3 Q4].
    split; try done. rewrite lookup_insert_is_Some'. by right.
Qed.

Lemma ok_installed s : installed st place history0 s → ok s.
Proof.
  intros [H1 H2 H3 H4 H5]. split; rewrite ?H1, ?H2, ?H3.
  - done.
  - split; by setoid_rewrite lookup_empty.
  - by setoid_rewrite lookup_empty.
  - intros k p Hkp. exists [], []. split; [rewrite app_nil_r; by apply H5|constructor|constructor|..];
      by setoid_rewrite lookup_empty.
  - by setoid_rewrite lookup_empty.
  - by intros c ?%elem_of_nil.
  - intros i t. by rewrite lookup_empty.
Qed.

Lemma ok_step s s' : ok s → ostep st place history0 true true s s' → ok s'.
Proof.
  intros Hok. destruct 1.
  - by apply ok_tick.
  - by apply ok_commit.
  - by apply ok_request.
  - by eapply ok_claim_intent.
  - by eapply ok_plan.
  - by apply ok_fail_intent.
  - by eapply ok_claim.
  - by eapply ok_write.
  - by eapply ok_finish.
  - by apply ok_fail.
  - by apply ok_settle.
Qed.

Lemma outbox_reachable_ok s : reachable st place history0 true true s → ok s.
Proof.
  intros (s0 & Hs0 & Hsteps). apply ok_installed in Hs0.
  induction Hsteps as [|a b c Hab _ IH]; [done|]. apply IH. by eapply ok_step.
Qed.

End Steps.
