(* ===== verification/GitlleryOutboxSpec.v ===== *)
(** * What the Gitllery outbox guarantees

    The properties of the outbox over segment repositories: what planning
    creates, what the repositories hold at any time, what a complete intent
    and a checkpoint mean, that nothing stays unclaimed, and what a slice
    reports. *)

From stdpp Require Import base gmap strings list sorting relations.
From S2P Require Import Prelude Keyset SegmentLog SegmentLogFacts SegmentLogHistory GitlleryLog GitlleryOutbox GitlleryOutboxFacts.

(** ** Slicing *)

Section Slicing.
Context {Change : Type}.

Abbreviation slices := (list (RepoDescriptor * list Change)).
Abbreviation key_of := (λ slice : RepoDescriptor * list Change, rd_repository_id slice.1).

(** Every change with every repository it was resolved to, in order. *)
Definition resolved (resolve : Change → list RepoDescriptor) (changes : list Change)
    : list (Change * RepoDescriptor) :=
  changes ≫= λ change, (λ desc, (change, desc)) <$> resolve change.

Definition add_pair (acc : slices) (p : Change * RepoDescriptor) : slices := add_slice p.1 p.2 acc.

Lemma slice_changes_pairs resolve changes :
  slice_changes resolve changes = foldl add_pair [] (resolved resolve changes).
Proof.
  unfold slice_changes, resolved. generalize (@nil (RepoDescriptor * list Change)) as acc.
  induction changes as [|ch changes IH]; intros acc; [done|].
  cbn [foldl mbind list_bind]. rewrite foldl_app, IH. f_equal.
  generalize (resolve ch) as ds. intros ds. revert acc.
  induction ds as [|desc ds IHd]; intros acc; [done|]. cbn. apply IHd.
Qed.

Lemma add_slice_keys ch desc (acc : slices) :
  key_of <$> add_slice ch desc acc =
  if decide (rd_repository_id desc ∈ key_of <$> acc) then key_of <$> acc
  else (key_of <$> acc) ++ [rd_repository_id desc].
Proof.
  induction acc as [|[desc' cs] acc IH]; [done|]. cbn [add_slice fmap list_fmap].
  destruct (decide (rd_repository_id desc' = rd_repository_id desc)) as [E|Hne].
  - rewrite decide_True; [done|]. cbn. rewrite E. left.
  - cbn [fmap list_fmap]. rewrite IH. cbn [fst].
    destruct (decide (rd_repository_id desc ∈ key_of <$> acc)) as [Hin|Hout].
    + rewrite decide_True; [done|]. by right.
    + rewrite decide_False; [done|]. rewrite elem_of_cons. naive_solver.
Qed.

Lemma add_slice_elem ch desc (acc : slices) desc' cs' :
  NoDup (key_of <$> acc) → (desc', cs') ∈ add_slice ch desc acc →
  (rd_repository_id desc' ≠ rd_repository_id desc ∧ (desc', cs') ∈ acc) ∨
  (rd_repository_id desc' = rd_repository_id desc ∧
   ((∃ cs, (desc', cs) ∈ acc ∧ cs' = cs ++ [ch]) ∨
    (rd_repository_id desc ∉ key_of <$> acc) ∧ cs' = [ch])).
Proof.
  induction acc as [|[d0 cs0] acc IH]; cbn [add_slice].
  { intros _ E%list_elem_of_singleton. injection E as -> ->. right. split; [done|].
    right. split; [|done]. by intros ?%elem_of_nil. }
  cbn [fmap list_fmap]. intros [Hni Hnd]%list.NoDup_cons. cbn [fst] in Hni.
  destruct (decide (rd_repository_id d0 = rd_repository_id desc)) as [E|Hne];
    intros [[= -> ->]|Hin]%elem_of_cons.
  - right. split; [done|]. left. exists cs0. split; [left|done].
  - left. split; [|by right]. intros E'. apply Hni. rewrite E, <-E'.
    apply (list_elem_of_fmap_2 key_of _ _ Hin).
  - left. split; [done|left].
  - destruct (IH Hnd Hin) as [[H1 H2]|[H1 [(cs & H2 & H3)|[H2 H3]]]].
    + left. split; [done|by right].
    + right. split; [done|]. left. exists cs. split; [by right|done].
    + right. split; [done|]. right. split; [|done]. cbn. rewrite elem_of_cons. naive_solver.
Qed.

Lemma slices_spec (ps : list (Change * RepoDescriptor)) :
  let acc := foldl add_pair [] ps in
  NoDup (key_of <$> acc) ∧
  (∀ k, k ∈ key_of <$> acc ↔ k ∈ (λ p, rd_repository_id p.2) <$> ps) ∧
  ∀ desc cs, (desc, cs) ∈ acc →
    cs = (filter (λ p, rd_repository_id p.2 = rd_repository_id desc) ps).*1.
Proof.
  cbn zeta. induction ps as [|[ch desc] ps (H1 & H2 & H3)] using rev_ind; cbn.
  { split_and!; [constructor|done|by intros ?? ?%elem_of_nil]. }
  rewrite foldl_app. cbn [foldl]. unfold add_pair at 1 3 5. cbn [fst snd].
  assert (∀ k, k ∈ key_of <$> add_slice ch desc (foldl add_pair [] ps) ↔
               k ∈ key_of <$> foldl add_pair [] ps ∨ k = rd_repository_id desc) as Hk.
  { intros k. rewrite add_slice_keys. case_decide; [naive_solver|].
    by rewrite elem_of_app, list_elem_of_singleton. }
  split_and!.
  - rewrite add_slice_keys. case_decide as Hin; [done|].
    apply list.NoDup_app. split_and!; [done| |apply NoDup_singleton].
    intros x Hx ->%list_elem_of_singleton. done.
  - intros k. rewrite Hk, H2, fmap_app, elem_of_app. cbn. by rewrite list_elem_of_singleton.
  - intros desc' cs' Hin. rewrite filter_app, fmap_app.
    destruct (add_slice_elem _ _ _ _ _ H1 Hin) as [[Hne Hin']|[Heq [(cs & Hin' & ->)|[Hnew ->]]]].
    + rewrite filter_cons_False by (cbn; congruence). cbn. rewrite app_nil_r. by apply H3.
    + rewrite filter_cons_True by (cbn; congruence). cbn. by rewrite (H3 _ _ Hin').
    + rewrite filter_cons_True by (cbn; congruence). cbn.
      replace (filter _ ps) with (@nil (Change * RepoDescriptor)); [done|].
      symmetry. apply elem_of_nil_inv. intros [ch' d'] [Hd Hp]%list_elem_of_filter.
      apply Hnew, H2. apply list_elem_of_fmap. exists (ch', d'). cbn in *. split; [congruence|done].
Qed.

End Slicing.

(** ** Planning *)

Section Planning.
Context {Header Change R : Type} `{!CommitLog Header Change R}.
Abbreviation target := (Target Header Change).
Abbreviation db := (Db Header Change R).

(** Rows of distinct repositories for a commit without targets all go in. *)
Lemma insert_new_targets (values : list (Z * target)) (targets : gmap Z target) commit :
  NoDup values.*1 → NoDup (tg_repository <$> values.*2) →
  (∀ i t, (i, t) ∈ values → targets !! i = None ∧ tg_commit t = commit) →
  (∀ i t, targets !! i = Some t → tg_commit t = commit →
     tg_repository t ∉ tg_repository <$> values.*2) →
  ∀ i t, foldl insert_target targets values !! i = Some t ↔
         targets !! i = Some t ∨ (i, t) ∈ values.
Proof.
  revert targets. induction values as [|[i0 t0] values IH]; intros targets Hi Hr Hv Hold i t.
  { cbn. rewrite elem_of_nil. tauto. }
  cbn [fmap list_fmap fst snd] in Hi, Hr. apply list.NoDup_cons in Hi as [Hi0 Hi], Hr as [Hr0 Hr].
  destruct (Hv i0 t0) as [Hnone Hc0]; [left|]. cbn [foldl].
  assert (insert_target targets (i0, t0) = <[i0 := t0]> targets) as ->.
  { unfold insert_target. cbn [fst snd].
    assert (target_exists targets (tg_commit t0) (tg_repository t0) = false) as ->; [|done].
    apply target_exists_false. intros j u Hu Hc E. eapply (Hold _ _ Hu); [congruence|]. cbn. rewrite E. left. }
  rewrite IH; [|done|done|..].
  - rewrite lookup_insert_Some, elem_of_cons. split.
    + intros [[[<- <-]|[Hne H]]|H]; auto.
    + intros [H|[[= -> ->]|H]]; [|auto..]. left. right. split; [congruence|done].
  - intros j u Hj. destruct (Hv j u) as [Hjn Hjc]; [by right|]. split; [|done].
    rewrite lookup_insert_ne; [done|]. intros <-. apply Hi0. apply (list_elem_of_fmap_2 fst _ _ Hj).
  - intros j u [[<- <-]|[_ Hu]]%lookup_insert_Some Hc; [done|].
    pose proof (Hold _ _ Hu Hc) as Hn. cbn in Hn. rewrite elem_of_cons in Hn. tauto.
Qed.

(** Planning under a live claim succeeds and creates exactly one pending
    target for every repository some change of the commit was resolved to,
    and touches no other target; its payload carries the commit's id and, in
    order, every change once for each time it was resolved to that
    repository. *)
Theorem plan_creates_slices (d : db) c cc row resolve ids :
  g_commits d !! pc_commit c = Some cc → plan_held d c = Some row →
  NoDup ids → (∀ i, i ∈ ids → g_targets d !! i = None) →
  length ids = length (slice_changes resolve (cc_changes cc)) →
  (∀ i t, g_targets d !! i = Some t → tg_commit t ≠ pc_commit c) →
  let pairs := resolved resolve (cc_changes cc) in
  ∃ d', _plan_intent d c resolve ids = Some (d', Z.of_nat (length ids)) ∧
    (∀ i t, g_targets d' !! i = Some t → tg_commit t ≠ pc_commit c → g_targets d !! i = Some t) ∧
    (∀ i t, g_targets d !! i = Some t → g_targets d' !! i = Some t) ∧
    (∀ i t, g_targets d' !! i = Some t → tg_commit t = pc_commit c →
       tg_state t = GPending ∧ tg_intent t = pc_id c ∧
       commit_id (base (tg_payload t)) = Some (uuid_str (pc_commit c)) ∧
       changes (tg_payload t) = (filter (λ p, rd_repository_id p.2 = tg_repository t) pairs).*1) ∧
    (∀ k, k ∈ (λ p, rd_repository_id p.2) <$> pairs →
       exists! i, ∃ t, g_targets d' !! i = Some t ∧ tg_commit t = pc_commit c ∧ tg_repository t = k).
Proof.
  intros Hcc Hheld Hnd Hfresh Hlen Hnone pairs.
  set (slices := slice_changes resolve (cc_changes cc)) in *.
  destruct (slices_spec pairs) as (K1 & K2 & K3).
  unfold pairs in K1, K2, K3. rewrite <-slice_changes_pairs in K1, K2, K3. fold slices in K1, K2, K3.
  set (rows := planned_target d (pc_id c) (pc_commit c) cc <$> slices).
  set (values := zip ids rows).
  assert (values.*1 = ids) as Hv1 by (apply fst_zip; unfold rows; rewrite length_fmap; lia).
  assert (values.*2 = rows) as Hv2 by (apply snd_zip; unfold rows; rewrite length_fmap; lia).
  assert (tg_repository <$> rows = (λ s, rd_repository_id s.1) <$> slices) as Hrep.
  { unfold rows. by rewrite <-list_fmap_compose. }
  assert (∀ i t, (i, t) ∈ values → g_targets d !! i = None ∧ ∃ s, s ∈ slices ∧
            t = planned_target d (pc_id c) (pc_commit c) cc s) as Hv.
  { intros i t Hin. split; [by apply Hfresh; eapply elem_of_zip_l|].
    apply elem_of_zip_r in Hin. apply list_elem_of_fmap in Hin as (s & -> & Hs). eauto. }
  assert (∀ i t, foldl insert_target (g_targets d) values !! i = Some t ↔
                 g_targets d !! i = Some t ∨ (i, t) ∈ values) as Hall.
  { apply (insert_new_targets _ _ (pc_commit c)).
    - by rewrite Hv1.
    - by rewrite Hv2, Hrep.
    - intros i t Hin. destruct (Hv _ _ Hin) as (? & s & _ & ->). done.
    - intros i t Ht Hc. by destruct (Hnone _ _ Ht). }
  eexists. unfold _plan_intent. rewrite Hcc. cbn [mbind option_bind]. fold slices. fold rows. fold values.
  rewrite Hheld. split_and!.
  - do 3 f_equal. rewrite <-Hv1, length_fmap. done.
  - cbn. intros i t [Ht|Hin]%Hall Hc; [done|]. by destruct (Hv _ _ Hin) as (_ & s & _ & ->).
  - cbn. intros i t Ht. apply Hall. by left.
  - cbn. intros i t [Ht|Hin]%Hall Hc; [by destruct (Hnone _ _ Ht)|].
    destruct (Hv _ _ Hin) as (_ & [desc cs] & Hs & ->). cbn. split_and!; [done..|]. by apply K3.
  - cbn. intros k [[desc cs] [-> Hs]]%K2%list_elem_of_fmap.
    assert (planned_target d (pc_id c) (pc_commit c) cc (desc, cs) ∈ rows) as Hin
      by (unfold rows; exact (list_elem_of_fmap_2 (planned_target d (pc_id c) (pc_commit c) cc) _ _ Hs)).
    rewrite <-Hv2 in Hin. apply list_elem_of_fmap in Hin as ([i t] & Et & Hin). cbn in Et.
    exists i. split.
    + exists t. rewrite Hall. split; [by right|]. by rewrite <-Et.
    + intros j (u & [Hu|Huin]%Hall & Hcu & Hku); [by destruct (Hnone _ _ Hu)|].
      assert (NoDup (tg_repository <$> values.*2)) as Hndr by by rewrite Hv2, Hrep.
      apply list_elem_of_lookup in Hin as [n Hn], Huin as [n' Hn'].
      assert (n = n') as <-; [|rewrite Hn in Hn'; by injection Hn'].
      eapply (NoDup_lookup _ _ _ (rd_repository_id desc) Hndr); rewrite !list_lookup_fmap, ?Hn, ?Hn'; cbn; [by rewrite <-Et|by rewrite Hku].
Qed.

End Planning.

(** ** The repositories *)

Section Repositories.
Context {Header Change : Type} `{!Codec Header Change}.
Context (st : Settings) (place : string → string * string).
Context (history0 : string → list (Commit Header Change)).
Hypothesis place_inj : ∀ k k', place k = place k' → k = k'.

Abbreviation commit := (Commit Header Change).
Abbreviation reachable := (reachable (R := Repo) st place history0 true true).
Abbreviation located := (located st place).

Lemma segment_reads r (cs : list commit) :
  segment_history r cs → cs = [] ∨ iter_commits r false = (cs, None).
Proof.
  intros [[_ ->]|(m & l & Hh)]; [by left|right]. by apply (history_reads _ _ _ _ Hh).
Qed.

Lemma segment_finds r (cs : list commit) c :
  segment_history r cs → c ∈ cs → find_commit r (id_of c) = Ok (Some c).
Proof.
  intros [[_ ->]|(m & l & Hh)] Hc; [by apply elem_of_nil in Hc|].
  unfold find_commit. rewrite (proj2 (history_reads _ _ _ _ Hh)).
  assert (∀ x, x ∈ cs → py_str (commit_id (base x)) = id_of x) as Hid.
  { intros x Hx. apply id_of_py_str. pose proof (h_ids _ _ _ _ Hh) as Hall.
    rewrite list.Forall_forall in Hall. by apply Hall. }
  destruct (list_find_elem_of (λ x, py_str (commit_id (base x)) = id_of c) (rev cs) c)
    as [[n x] Hx]; [by rewrite <-Permutation_rev|by apply Hid|].
  rewrite Hx. apply list_find_Some in Hx as (Hn & Hx & _).
  assert (x ∈ cs) as Hxcs by (rewrite Permutation_rev; by eapply list_elem_of_lookup_2).
  rewrite Hid in Hx by done. f_equal. f_equal.
  apply list_elem_of_lookup in Hxcs as [i Hi], Hc as [j Hj].
  assert (i = j) as <-; [|congruence].
  eapply (NoDup_lookup _ _ _ (id_of c) (h_fresh _ _ _ _ Hh)); rewrite list_lookup_fmap, ?Hi, ?Hj; cbn; by rewrite ?Hx.
Qed.


(** When an intent is complete, the repository of each of its targets
    finds the commit under its id, with the header and the changes planned
    for that repository. *)
Theorem complete_intent_projected s i row j t p :
  reachable s → g_intents (s_db s) !! i = Some row → in_state row = GComplete →
  g_targets (s_db s) !! j = Some t → tg_intent t = i → located (tg_repository t) p →
  ∃ parent, find_commit (repo_at (s_db s) p) (uuid_str (in_commit row)) =
            Ok (Some (reparent (tg_payload t) parent)).
Proof.
  intros Hr Hi Hs Ht <- Hloc. pose proof (outbox_reachable_ok _ _ _ place_inj _ Hr) as Hok.
  destruct (ok_intents _ _ _ _ Hok _ _ Ht) as (row' & Hrow' & _ & Hc & Hs'). simplify_eq.
  destruct Hs' as [?|[_ Hct]]; [congruence|].
  destruct (ok_repos _ _ _ _ Hok _ _ Hloc) as (pub & cs & Hpj).
  pose proof (pj_complete _ _ _ _ _ _ _ Hpj _ _ Ht eq_refl Hct) as Hin.
  destruct (Forall2_elem_l _ _ _ _ (pj_publishes _ _ _ _ _ _ _ Hpj) Hin)
    as (c & Hccs & t' & Ht' & _ & _ & parent & ->). simplify_eq.
  exists parent. rewrite Hc.
  replace (uuid_str (tg_commit t)) with (id_of (reparent (tg_payload t) parent)).
  - eapply segment_finds; [apply (pj_history _ _ _ _ _ _ _ Hpj)|set_solver].
  - rewrite id_of_reparent. unfold id_of.
    by rewrite (pl_payload _ _ _ _ (to_planned _ _ _ _ (ok_targets _ _ _ _ Hok) _ _ Ht)).
Qed.

(** The checkpoint row written with a finished target agrees with the
    repository: it counts the commits that read back, names the last of
    them, and no completed target of the repository is newer. *)
Theorem checkpoint_agrees s token c m d' p :
  reachable s → s_claims s !! token = Some (c, Some m) →
  _finish_target st (s_db s) c m = (d', true) → located (tg_repository (cl_row c)) p →
  ∃ row cs, g_states d' !! tg_repository (cl_row c) = Some row ∧
    iter_commits (repo_at d' p) false = (cs, None) ∧
    rs_commit_count row = Z.of_nat (length cs) ∧
    last_id None cs = Some (uuid_str (rs_last_commit row)) ∧
    ∀ i t, g_targets d' !! i = Some t → tg_repository t = tg_repository (cl_row c) →
      tg_state t = GComplete →
      position_before (rs_last_created_at row, rs_last_commit row) (tg_position t) = false.
Proof.
  intros Hr Hcl Hfin Hloc. pose proof (outbox_reachable_ok _ _ _ place_inj _ Hr) as Hok.
  pose proof (ok_finish _ _ _ _ _ _ _ Hok Hcl) as Hok'. rewrite Hfin in Hok'. cbn [fst] in Hok'.
  unfold _finish_target in Hfin. destruct (target_held _ _) as [t|] eqn:Hh; [|done].
  pose proof (held_started _ _ _ _ _ _ (ok_targets _ _ _ _ Hok) Hh) as Hst.
  injection Hfin as Hd'. apply target_held_spec in Hh as (Ht & Hproc & _ & Htk).
  destruct (ok_claims _ _ _ _ Hok _ _ _ Hcl) as (Htok & t0 & Ht0 & Hsame & _). simplify_eq.
  destruct Hsame as (_ & E2 & E3 & E4 & _).
  destruct (ok_repos _ _ _ _ Hok _ _ Hloc) as (pub & cs & Hpj).
  exists (checkpoint st (g_states (s_db s) !! tg_repository (cl_row c)) (cl_row c) m),
    (history0 (tg_repository (cl_row c)) ++ cs).
  pose proof (pj_written _ _ _ _ _ _ _ Hpj _ _ _ Hcl eq_refl) as Hin.
  assert (last_id None (history0 (tg_repository (cl_row c)) ++ cs) = Some (uuid_str (tg_commit t))) as Hlast.
  { eapply published_last; [exact place_inj|apply Hok|apply Hok|exact Hpj|exact Ht|done|congruence|exact Hst|exact Hin]. }
  split_and!.
  - cbn. by rewrite lookup_insert_eq.
  - destruct (segment_reads _ _ (pj_history _ _ _ _ _ _ _ Hpj)) as [E|?]; [|done].
    rewrite E in Hlast. done.
  - cbn. by eapply (pj_count _ _ _ _ _ _ _ Hpj).
  - cbn. by rewrite E2.
  - intros i u Hu Hru Hcu. cbn. rewrite E2, E3. apply not_true_is_false. intros Hp.
    cbn in Hu. apply lookup_insert_Some in Hu as [[<- <-]|[Hne Hu]].
    { cbn in Hp. apply position_before_lt in Hp. cbn in Hp. lia. }
    assert (started u) as Hsu.
    { apply (ro_started _ (to_row _ _ _ _ (ok_targets _ _ _ _ Hok) _ _ Hu)). congruence. }
    destruct (behind_started _ _ _ _ _ _ _ _ (ok_targets _ _ _ _ Hok) Ht ltac:(congruence) Hst Hu Hsu)
      as [E|[Hp' _]]; [congruence|congruence|].
    change (tg_created_at t, tg_commit t) with (tg_position t) in Hp.
    rewrite position_before_lt in Hp, Hp'. lia.
Qed.

End Repositories.

(** ** Progress and slices *)

Section Progress.
Context {Header Change R : Type} `{!CommitLog Header Change R, !CommitLogLaws Header Change R}.
Context (st : Settings) (place : string → string * string).
Context (history0 : string → list (Commit Header Change)).
Hypothesis place_inj : ∀ k k', place k = place k' → k = k'.

Abbreviation target := (Target Header Change).
Abbreviation claim_t := (TargetClaim Header Change).
Abbreviation db := (Db Header Change R).
Abbreviation system := (System (Header := Header) (Change := Change) (R := R)).
Abbreviation reachable := (reachable st place history0 true true).
Abbreviation ostep := (ostep (R := R) st place history0 true true).

(** Among the incomplete targets of a repository one is the earliest. *)
Lemma earliest_incomplete (targets : gmap Z target) i t :
  targets !! i = Some t → tg_state t ≠ GComplete →
  ∃ j u, targets !! j = Some u ∧ tg_state u ≠ GComplete ∧ tg_repository u = tg_repository t ∧
    (j = i ∨ before u t) ∧
    ∀ j' u', targets !! j' = Some u' → before u' u → tg_state u' = GComplete.
Proof.
  intros Ht Hs.
  set (open := List.filter (λ ku : Z * target, negb (bool_decide (tg_state ku.2 = GComplete)) &&
                 bool_decide (tg_repository ku.2 = tg_repository t)) (map_to_list targets)).
  assert (∀ j u, (j, u) ∈ open ↔ targets !! j = Some u ∧ tg_state u ≠ GComplete ∧
                                 tg_repository u = tg_repository t) as Hopen.
  { intros j u. unfold open. rewrite list_elem_of_In, List.filter_In, <-list_elem_of_In, elem_of_map_to_list.
    cbn. by rewrite andb_true_iff, negb_true_iff, bool_decide_eq_false, bool_decide_eq_true. }
  assert (∀ p q : Z * Z, Decision (position_before p q = true)) by (intros; apply _).
  assert (Transitive (λ p q, position_before p q = true)) as Htrans.
  { intros a b c. rewrite !position_before_lt. lia. }
  destruct (minimal_exists_elem_of (λ p q, position_before p q = true)
              (list_to_set ((λ ku : Z * target, tg_position ku.2) <$> open) : gset (Z * Z)))
    as (p & Hp & Hmin).
  { intros E. assert ((i, t) ∈ open) as Hin by by apply Hopen.
    apply (list_elem_of_fmap_2 (λ ku : Z * target, tg_position ku.2)) in Hin.
    apply (elem_of_list_to_set (C := gset (Z * Z))) in Hin. set_solver. }
  assert (∀ j u, (j, u) ∈ open → position_before (tg_position u) p ≠ true) as Hfirst.
  { intros j u Hu Hb. assert (position_before p (tg_position u) = true) as Hb'.
    - apply Hmin; [|done]. apply elem_of_list_to_set.
      exact (list_elem_of_fmap_2 (λ ku : Z * target, tg_position ku.2) _ _ Hu).
    - rewrite position_before_lt in Hb, Hb'. lia. }
  assert (∃ j u, (j, u) ∈ open ∧ tg_position u = p ∧ (j = i ∨ before u t)) as (j & u & Hu & Hpu & Hbt).
  { destruct (position_total p (tg_position t)) as [->|[Hlt|Hlt]].
    - exists i, t. rewrite Hopen. auto.
    - apply elem_of_list_to_set, list_elem_of_fmap in Hp as ([j u] & -> & Hu). exists j, u.
      split_and!; [done..|]. right. split; [by apply Hopen in Hu as (_ & _ & ?)|done].
    - destruct (Hfirst i t); [by apply Hopen|done]. }
  apply Hopen in Hu as (H1 & H2 & H3). exists j, u. split_and!; [done..|].
  intros j' u' Hu' [Hr' Hp']. destruct (decide (tg_state u' = GComplete)) as [|Hne]; [done|].
  destruct (Hfirst j' u'); [apply Hopen; split_and!; [done..|congruence]|congruence].
Qed.

(** Nothing gets stuck.  When an incomplete target exists and the leases
    and back-offs of its repository have run out, the earliest incomplete
    target of that repository can be claimed, and a worker that finds no row
    locked claims one. *)
Theorem incomplete_target_claimable (s : system) i t token :
  reachable s → g_targets (s_db s) !! i = Some t → tg_state t ≠ GComplete →
  (∀ j u, g_targets (s_db s) !! j = Some u → tg_repository u = tg_repository t →
     tg_available_at u ≤ g_now (s_db s) ∧ ∀ l, tg_lease u = Some l → l < g_now (s_db s)) →
  (∃ j u, g_targets (s_db s) !! j = Some u ∧ (j = i ∨ before u t) ∧
          claimable_target (s_db s) ∅ (j, u) = true) ∧
  ∃ d' c, _claim_target (s_db s) ∅ token = (d', Some c).
Proof.
  intros Hr Ht Hs Hlate. pose proof (outbox_reachable_ok _ _ _ place_inj _ Hr) as Hok.
  destruct (earliest_incomplete _ _ _ Ht Hs) as (j & u & Hu & Hsu & Hru & Hb & Hfirst).
  assert (claimable_target (s_db s) ∅ (j, u) = true) as Hc.
  { unfold claimable_target. cbn [fst snd]. rewrite (proj2 (has_earlier_false _ _) Hfirst).
    rewrite bool_decide_eq_true_2 by set_solver.
    destruct (Hlate _ _ Hu Hru) as [Hav Hle].
    destruct (to_row _ _ _ _ (ok_targets _ _ _ _ Hok) _ _ Hu) as [_ _ Hnb Hlease].
    unfold open_for_claim. rewrite (proj2 (Z.leb_le _ _) Hav).
    destruct (tg_state u) eqn:E; try done.
    destruct (Hlease eq_refl) as [l Hl]. rewrite Hl, (proj2 (Z.ltb_lt _ _) (Hle _ Hl)). done. }
  split; [eauto 6|]. unfold _claim_target.
  destruct (select_rows _ _ _ _ _) as [|[j' u'] rest] eqn:E; [|eauto].
  exfalso. eapply select_some; [|exact Hc|exact E]. by apply elem_of_map_to_list.
Qed.

(** *** The loop *)

Lemma loop_found_empty fuel (d : db) (s : Slice) n p f d' n' p' f' token :
  project_loop st fuel d s n p f = (d', n', p', f', true) → _claim_target d' ∅ token = (d', None).
Proof.
  revert d n p f. induction fuel as [|fuel IH]; intros d n p f; cbn [project_loop]; [done|].
  destruct (negb _); [done|]. destruct (_claim_target d ∅ (sl_token s n)) as [d1 [c|]] eqn:E.
  - destruct (project_claimed _ _ _ _ _) as [[d2 p2] f2]. apply IH.
  - intros [= <- _ _ _]. unfold _claim_target in *.
    destruct (select_rows (claimable_target d ∅) _ _ _ _) as [|[]] eqn:Es; [|done].
    injection E as <-. by rewrite Es.
Qed.

Lemma loop_stopped fuel (d : db) (s : Slice) n p f d' n' p' f' e :
  project_loop st fuel d s n p f = (d', n', p', f', e) →
  (n' ≤ n + fuel)%nat ∧ p' + f' ≤ p + f + Z.of_nat (n' - n) ∧ (n ≤ n')%nat ∧
  (e = false → n' = (n + fuel)%nat ∨ sl_in_time s n' = false).
Proof.
  revert d n p f. induction fuel as [|fuel IH]; intros d n p f; cbn [project_loop].
  { intros [= <- <- <- <- <-]. split_and!; [lia..|]. left. lia. }
  destruct (sl_in_time s n) eqn:Htime; cbn [negb].
  2: { intros [= <- <- <- <- <-]. split_and!; [lia..|by right]. }
  destruct (_claim_target d ∅ (sl_token s n)) as [d1 [c|]].
  2: { intros [= <- <- <- <- <-]. split_and!; [lia..|done]. }
  destruct (project_claimed _ _ _ _ _) as [[d2 p2] f2] eqn:Hc. intros (H1 & H2 & H3 & H4)%IH.
  assert (p2 + f2 ≤ 1) as Hp2.
  { unfold project_claimed in Hc. destruct (write_target _ _ _ _) as [d3 [m|]].
    - destruct (_finish_target _ _ _ _) as [d4 []]; injection Hc as _ <- <-; lia.
    - injection Hc as _ <- <-; lia. }
  split_and!; [lia..|]. intros He. destruct (H4 He); [left; lia|by right].
Qed.

(** A slice handles at most [limit] targets and never more than 100, and
    when it does not report itself exhausted no target is left that could be
    claimed. *)
Theorem slice_reports_rest (d : db) limit (s : Slice) d' r :
  (∀ n, sl_in_time s n = false → sl_in_time_after s = false) →
  process_gitllery_projection_outbox st d limit s = (d', r) →
  (sr_claimed r ≤ 100)%nat ∧ Z.of_nat (sr_claimed r) ≤ Z.max 1 limit ∧
  sr_processed r + sr_failed r ≤ Z.of_nat (sr_claimed r) + 1 ∧
  (sr_slice_exhausted r = false → ∀ token, _claim_target d' ∅ token = (d', None)).
Proof.
  intros Htime. unfold process_gitllery_projection_outbox.
  destruct (plan_phase d s) as [[[d1 planning] planned] failed] eqn:Hp.
  assert (failed ≤ 1) as Hf.
  { unfold plan_phase in Hp. destruct (_claim_intent_for_planning d ∅) as [d0 [c|]]; [|injection Hp; lia].
    destruct (sl_resolve s ≫= _) as [[]|]; injection Hp; lia. }
  destruct (project_loop _ _ _ _ _ _ _) as [[[[d2 claimed] processed] failed'] empty] eqn:Hl.
  intros [= <- <-]. cbn.
  pose proof (loop_stopped _ _ _ _ _ _ _ _ _ _ _ Hl) as (H1 & H2 & H3 & H4).
  unfold bounded_limit in *. split_and!; [lia..|].
  destruct empty; cbn [negb andb]; [intros _ token; by eapply loop_found_empty|].
  destruct (H4 eq_refl) as [->|Ht]; intros E.
  - rewrite (proj2 (Nat.leb_le _ _)) in E by lia. done.
  - rewrite (Htime _ Ht), orb_true_r in E. done.
Qed.

Lemma claim_held (d d1 : db) locked token c :
  _claim_target d locked token = (d1, Some c) → cl_token c = token ∧ target_held d1 c = Some (cl_row c).
Proof.
  unfold _claim_target. destruct (select_rows _ _ _ _ _) as [|[i t] rest]; [done|].
  intros [= <- <-]. split; [done|]. apply target_held_spec. cbn. by rewrite lookup_insert_eq.
Qed.

(** With one worker a claimed target is projected within its lease. *)
Lemma project_claimed_run (d d1 d2 : db) plans (claims : gmap Z (claim_t * option Manifest))
    token c stamp error p f :
  (∀ t stamp r, log_writable st t stamp r) → claims !! token = None →
  _claim_target d ∅ token = (d1, Some c) →
  project_claimed st d1 c stamp error = (d2, p, f) →
  ∃ claims', rtc ostep (mkSystem d plans claims) (mkSystem d2 plans claims') ∧
    ∀ tok, tok ≠ token → claims' !! tok = claims !! tok.
Proof.
  intros Hwr Hfresh Hc Hp. destruct (claim_held _ _ _ _ _ Hc) as [Htok Hheld].
  set (claims1 := <[token := (c, None)]> claims).
  assert (ostep (mkSystem d plans claims) (mkSystem d1 plans claims1)) as S1.
  { by eapply (o_claim _ _ _ _ _ (mkSystem d plans claims)). }
  unfold project_claimed in Hp. destruct (write_target st d1 (cl_row c) stamp) as [d3 res] eqn:Hw.
  set (claims2 := <[token := (c, match res with Ok m => Some m | Err _ => None end)]> claims1).
  assert (claims2 !! token = Some (c, match res with Ok m => Some m | Err _ => None end)) as Hc2
    by apply lookup_insert_eq.
  assert (ostep (mkSystem d1 plans claims1) (mkSystem d3 plans claims2)) as S2.
  { eapply (o_write _ _ _ _ _ (mkSystem d1 plans claims1)); [apply lookup_insert_eq| |exact Hw].
    split; [intros; apply Hwr|]. intros _. cbn. rewrite Hheld. eauto. }
  exists claims2. split; [|intros tok Hne; unfold claims2, claims1; by rewrite !lookup_insert_ne].
  eapply rtc_l; [exact S1|]. eapply rtc_l; [exact S2|].
  destruct res as [m|e].
  - destruct (_finish_target st d3 c m) as [d4 b] eqn:Hf. injection Hp as <- _ _.
    eapply rtc_l; [|apply rtc_once].
    + exact (o_finish _ _ _ _ _ (mkSystem d3 plans claims2) _ _ _ Hc2).
    + cbn. rewrite Hf. exact (o_settle _ _ _ _ _ (mkSystem d4 plans claims2) _ _ _ Hc2).
  - injection Hp as <- _ _. apply rtc_once.
    exact (o_fail _ _ _ _ _ (mkSystem d3 plans claims2) _ _ _ error Hc2).
Qed.

Lemma project_loop_run fuel (d : db) (s : Slice) n p f d' n' p' f' e plans claims :
  (∀ t stamp r, log_writable st t stamp r) →
  (∀ a b, sl_token s a = sl_token s b → a = b) →
  (∀ a, (n ≤ a)%nat → claims !! sl_token s a = None) →
  project_loop st fuel d s n p f = (d', n', p', f', e) →
  ∃ claims', rtc ostep (mkSystem d plans claims) (mkSystem d' plans claims').
Proof.
  intros Hwr Hinj. revert d n p f claims.
  induction fuel as [|fuel IH]; intros d n p f claims Hfresh; cbn [project_loop].
  { intros [= <- _ _ _ _]. exists claims. constructor. }
  destruct (negb _); [intros [= <- _ _ _ _]; exists claims; constructor|].
  destruct (_claim_target d ∅ (sl_token s n)) as [d1 [c|]] eqn:Hc.
  - destruct (project_claimed _ _ _ _ _) as [[d2 p2] f2] eqn:Hp. intros Hl.
    destruct (project_claimed_run _ _ _ plans _ _ _ _ _ _ _ Hwr (Hfresh n ltac:(lia)) Hc Hp)
      as (claims1 & Hrun & Hkeep).
    destruct (λ H, IH d2 (S n) _ _ claims1 H Hl) as [claims' Hrest].
    + intros a Ha. rewrite Hkeep; [apply Hfresh; lia|]. intros E%Hinj. lia.
    + exists claims'. by etrans.
  - intros [= <- _ _ _ _]. exists claims.
    unfold _claim_target in Hc. destruct (select_rows _ _ _ _ _) as [|[]]; [|done].
    injection Hc as <-. constructor.
Qed.


End Progress.
