(* ===== verification/GitlleryOutboxExample.v ===== *)
(** * Concrete runs of the Gitllery outbox

    An interpreter for the steps of [GitlleryOutbox.ostep] over the concrete
    segment repositories of [SegmentLogExample], sound for the step relation;
    the theorems of [GitlleryOutboxSpec] at runs of it; and two runs without
    the disciplines the theorems ask for, in which a repository ends up with
    a commit twice. *)

From stdpp Require Import base gmap strings list sorting relations.
From S2P Require Import Prelude Keyset SegmentLog SegmentLogFacts SegmentLogHistory SegmentLogExample GitlleryLog GitlleryOutbox GitlleryOutboxFacts GitlleryOutboxSpec.

Abbreviation gsystem := (System (Header := unit) (Change := Z) (R := Repo)).
Abbreviation gdb := (Db unit Z Repo).

(** ** A compact serialisation

    Length-prefixed, with integers as single symbols; the digest is
    a short polynomial hash. *)

Definition dec (A : Type) := list Z → option (A * list Z).

Fixpoint enc_chars (s : string) : list Z :=
  match s with "" => [] | String c s' => Z.of_nat (Ascii.nat_of_ascii c) :: enc_chars s' end.
Definition enc_string (s : string) : list Z := Z.of_nat (String.length s) :: enc_chars s.
Definition enc_option (o : option string) : list Z :=
  match o with None => [0] | Some s => 1 :: enc_string s end.
Definition enc_list {A} (enc : A → list Z) (l : list A) : list Z :=
  Z.of_nat (length l) :: (l ≫= enc).

Fixpoint dec_chars (n : nat) : dec string := λ b,
  match n with
  | O => Some ("", b)
  | S n' =>
      match b with
      | z :: b' => p ← dec_chars n' b';
          Some (String (Ascii.ascii_of_nat (Z.to_nat z)) p.1, p.2)
      | [] => None
      end
  end.
Definition dec_string : dec string := λ b,
  match b with z :: b' => dec_chars (Z.to_nat z) b' | [] => None end.
Definition dec_option : dec (option string) := λ b,
  match b with
  | 0 :: b' => Some (None, b')
  | 1 :: b' => p ← dec_string b'; Some (Some p.1, p.2)
  | _ => None
  end.
Definition dec_Z : dec Z := λ b, match b with z :: b' => Some (z, b') | [] => None end.
Fixpoint dec_items {A} (d : dec A) (n : nat) : dec (list A) := λ b,
  match n with
  | O => Some ([], b)
  | S n' => p ← d b; q ← dec_items d n' p.2; Some (p.1 :: q.1, q.2)
  end.
Definition dec_list {A} (d : dec A) : dec (list A) := λ b,
  match b with z :: b' => dec_items d (Z.to_nat z) b' | [] => None end.

Lemma dec_string_enc s rest : dec_string (enc_string s ++ rest) = Some (s, rest).
Proof.
  unfold enc_string. cbn. rewrite Nat2Z.id. induction s as [|c s IH]; [done|].
  cbn. rewrite IH. cbn. by rewrite Nat2Z.id, Ascii.ascii_nat_embedding.
Qed.

Lemma dec_option_enc o rest : dec_option (enc_option o ++ rest) = Some (o, rest).
Proof. destruct o as [s|]; [|done]. cbn. pose proof (dec_string_enc s rest) as E. cbn in E. by rewrite E. Qed.

Lemma dec_list_enc {A} (enc : A → list Z) (d : dec A) l rest :
  (∀ a b, d (enc a ++ b) = Some (a, b)) → dec_list d (enc_list enc l ++ rest) = Some (l, rest).
Proof.
  intros Hd. unfold enc_list. cbn. rewrite Nat2Z.id. induction l as [|a l IH]; [done|].
  cbn. rewrite <-app_assoc, Hd. cbn. by rewrite IH.
Qed.

Definition enc_frame (f : Frame unit Z) : list Z :=
  enc_option (commit_id (frame_base f)) ++ enc_option (parent_commit_id (frame_base f)) ++
  [frame f; frame_count f] ++ enc_list (λ z, [z]) (frame_changes f).
Definition dec_frame : dec (Frame unit Z) := λ b,
  i ← dec_option b; p ← dec_option i.2; n ← dec_Z p.2; c ← dec_Z n.2; l ← dec_list dec_Z c.2;
  Some (mkFrame (mkBase i.1 p.1 tt) n.1 c.1 l.1, l.2).

Lemma dec_frame_enc f rest : dec_frame (enc_frame f ++ rest) = Some (f, rest).
Proof.
  destruct f as [[i p []] n c ch]. unfold dec_frame, enc_frame.
  cbn [frame_base commit_id parent_commit_id frame frame_count frame_changes].
  rewrite <-!app_assoc, dec_option_enc. cbn [mbind option_bind fst snd].
  rewrite dec_option_enc. cbn [mbind option_bind fst snd app dec_Z].
  rewrite (dec_list_enc (λ z, [z])) by done. done.
Qed.

Definition enc_segment (s : ex_segment) : list Z :=
  enc_string (product_version (seg_format s)) ++ enc_string (format_id (seg_format s)) ++
  [format_revision (seg_format s)] ++ enc_string (seg_repository_id s) ++ [sequence s] ++
  enc_option (previous_segment s) ++ enc_list enc_frame (frames s).
Definition dec_segment (b : list Z) : option ex_segment :=
  v ← dec_string b; f ← dec_string v.2; r ← dec_Z f.2; k ← dec_string r.2; n ← dec_Z k.2;
  p ← dec_option n.2; l ← dec_list dec_frame p.2;
  Some (mkSegment (mkFormat v.1 f.1 r.1) k.1 n.1 p.1 l.1).

Lemma dec_segment_enc s : dec_segment (enc_segment s) = Some s.
Proof.
  destruct s as [[v f r] k n p fs]. unfold dec_segment, enc_segment.
  cbn [seg_format product_version format_id format_revision seg_repository_id sequence previous_segment frames].
  rewrite dec_string_enc. cbn [mbind option_bind fst snd]. rewrite dec_string_enc.
  cbn [mbind option_bind fst snd app dec_Z]. rewrite dec_string_enc.
  cbn [mbind option_bind fst snd app dec_Z]. rewrite dec_option_enc.
  cbn [mbind option_bind fst snd]. rewrite <-(app_nil_r (enc_list _ _)).
  by rewrite (dec_list_enc enc_frame) by apply dec_frame_enc.
Qed.

(** A short digest, padded to 64 digits. *)
Definition short_digest (b : list Z) : string :=
  hex_string 64 (foldl (λ h x, (h * 31 + x) mod 65521) 7 b).

Lemma short_digest_valid b : valid_digest (short_digest b) = true.
Proof. unfold valid_digest, short_digest. destruct (hex_string_valid 64 (foldl (λ h x, (h * 31 + x) mod 65521) 7 b)) as [-> ->]. done. Qed.

Global Instance gallery_codec : Codec unit Z := {|
  canonical_commit c := changes c;
  canonical_segment := enc_segment;
  loads_segment := dec_segment;
  compress b := b;
  decompress b := Some b;
  digest_bytes := short_digest;
  loads_canonical := dec_segment_enc;
  decompress_compress b := eq_refl;
  digest_bytes_valid := short_digest_valid |}.

(** ** Collision freedom is decidable on a concrete repository *)

Definition known_bytes (r : Repo) (new : list ex_commit) : list (list Z) :=
  (map_to_list (segment_files r)).*2 ++ (canonical_segment <$> attempted r new).

Lemma distinct_digests_safe r new :
  NoDup (digest_bytes <$> known_bytes r new) → collision_free (universe r new).
Proof.
  intros Hnd.
  assert (∀ raw, universe r new raw → raw ∈ known_bytes r new) as Hin.
  { intros raw [[d Hd]|H]; unfold known_bytes; apply elem_of_app; [left|by right].
    destruct (segment_files r !! d) as [b|] eqn:E; [|done]. injection Hd as <-.
    apply list_elem_of_fmap. exists (d, b). split; [done|]. by apply elem_of_map_to_list. }
  intros a b Ha%Hin Hb%Hin E. apply list_elem_of_lookup in Ha as [i Hi], Hb as [j Hj].
  assert (i = j) as <-; [|congruence].
  eapply (NoDup_lookup _ _ _ (digest_bytes a) Hnd); [by rewrite list_lookup_fmap, Hi|].
  rewrite list_lookup_fmap, Hj. exact (f_equal Some (eq_sym E)).
Qed.

Definition writable_b (st : Settings) (t : LogTarget unit Z) (now : string) (r : Repo) : bool :=
  let r1 := (open_repository st t now r).1 in
  match read_manifest r1 with
  | Ok m => bool_decide (NoDup (digest_bytes <$>
              known_bytes r1 [reparent (lt_payload t) (last_complete_commit_id m)]))
  | Err _ => true
  end.

Lemma writable_b_sound st t now r : writable_b st t now r = true → segment_writable st t now r.
Proof.
  unfold writable_b, segment_writable. intros H m Hm. rewrite Hm in H.
  apply distinct_digests_safe. by apply bool_decide_eq_true in H.
Qed.

(** ** An interpreter for the steps *)

Definition ex_settings : Settings := mkSettings "active" "active" "g1" "g1" (λ _ _, true).
Definition ex_place (k : string) : string * string := (k, k).
Definition ex_history0 (k : string) : list ex_commit := [].

Inductive action :=
| ATick (n : Z)
| ARequest (commit fresh : Z)
| AClaimIntent
| APlan (n : nat) (resolve : Z → list RepoDescriptor) (ids : list Z)
| AFailIntent (n : nat)
| AClaim (token : Z)
| AWrite (token : Z)
| AFinish (token : Z)
| AFail (token : Z)
| ASettle (token : Z).

Definition behind_b (d : gdb) (commit created : Z) (k : string) : bool :=
  forallb (λ kt : Z * Target unit Z,
    negb (bool_decide (tg_repository kt.2 = k) && (0 <? tg_attempts kt.2)) ||
    position_before (tg_position kt.2) (created, commit)) (map_to_list (g_targets d)).

Definition plan_b (ordered : bool) (d : gdb) (c : PlanClaim) (resolve : Z → list RepoDescriptor)
    (ids : list Z) : bool :=
  bool_decide (NoDup ids) && forallb (λ i, bool_decide (g_targets d !! i = None)) ids &&
  match g_commits d !! pc_commit c with
  | None => true
  | Some cc =>
      (length ids =? length (slice_changes resolve (cc_changes cc)))%nat &&
      forallb (λ slice : RepoDescriptor * list Z,
        bool_decide ((rd_source slice.1, rd_creator_dir slice.1) = ex_place (rd_repository_id slice.1)) &&
        (negb ordered || behind_b d (pc_commit c) (cc_created_at cc) (rd_repository_id slice.1)))
        (slice_changes resolve (cc_changes cc))
  end.

Definition write_b (leased : bool) (d : gdb) (c : TargetClaim unit Z) : bool :=
  (negb leased || bool_decide (is_Some (target_held d c))) &&
  match _repository_path ex_settings (tg_source (cl_row c)) (tg_creator_dir (cl_row c)) with
  | Ok p => writable_b ex_settings (log_target (cl_row c)) "t" (repo_at d p)
  | Err _ => true
  end.

Definition perform (leased ordered : bool) (s : gsystem) (a : action) : option gsystem :=
  let d := s_db s in
  match a with
  | ATick n =>
      if 0 <=? n then Some (with_db s (mkDb (g_now d + n) (g_commits d) (g_intents d) (g_targets d)
                                         (g_states d) (g_repos d) (g_wake d))) else None
  | ARequest commit fresh =>
      if bool_decide (is_Some (g_commits d !! commit)) && bool_decide (g_intents d !! fresh = None)
      then Some (with_db s (request_gitllery_projection d commit None fresh).1) else None
  | AClaimIntent =>
      match _claim_intent_for_planning d ∅ with
      | (d', Some c) => Some (mkSystem d' (c :: s_plans s) (s_claims s))
      | _ => None
      end
  | APlan n resolve ids =>
      c ← s_plans s !! n;
      if plan_b ordered d c resolve ids
      then p ← _plan_intent d c resolve ids; Some (with_db s p.1) else None
  | AFailIntent n => c ← s_plans s !! n; Some (with_db s (_fail_intent d c "error"))
  | AClaim token =>
      if bool_decide (s_claims s !! token = None) then
        match _claim_target d ∅ token with
        | (d', Some c) => Some (mkSystem d' (s_plans s) (<[token := (c, None)]> (s_claims s)))
        | _ => None
        end
      else None
  | AWrite token =>
      ch ← s_claims s !! token;
      if write_b leased d ch.1 then
        let '(d', res) := write_target ex_settings d (cl_row ch.1) "t" in
        Some (mkSystem d' (s_plans s)
          (<[token := (ch.1, match res with Ok m => Some m | Err _ => ch.2 end)]> (s_claims s)))
      else None
  | AFinish token =>
      match s_claims s !! token with
      | Some (c, Some m) => Some (with_db s (_finish_target ex_settings d c m).1)
      | _ => None
      end
  | AFail token => ch ← s_claims s !! token; Some (with_db s (_fail_target d ch.1 "error"))
  | ASettle token =>
      ch ← s_claims s !! token; Some (with_db s (_settle_intent d (tg_intent (cl_row ch.1))))
  end.

Fixpoint perform_all (leased ordered : bool) (s : gsystem) (l : list action) : option gsystem :=
  match l with
  | [] => Some s
  | a :: l' => s' ← perform leased ordered s a; perform_all leased ordered s' l'
  end.

Lemma plan_b_sound ordered d c resolve ids :
  plan_b ordered d c resolve ids = true → plan_environment ex_place ex_history0 ordered d c resolve ids.
Proof.
  unfold plan_b, plan_environment. rewrite !andb_true_iff, bool_decide_eq_true, forallb_Forall_iff.
  intros [[Hnd Hf] H]. split_and!; [done| |].
  - intros i Hi. rewrite list.Forall_forall in Hf. by apply Hf, bool_decide_eq_true in Hi.
  - intros cc Hcc. rewrite Hcc, andb_true_iff, Nat.eqb_eq, forallb_Forall_iff in H.
    destruct H as [Hl Hs]. split; [done|]. intros slice Hin. rewrite list.Forall_forall in Hs.
    specialize (Hs _ Hin). rewrite andb_true_iff, bool_decide_eq_true in Hs. destruct Hs as [Hp Ho].
    split_and!; [done|by apply not_elem_of_nil|]. intros ->. cbn in Ho.
    intros i t Ht Hk Hst. unfold behind_b in Ho.
    rewrite forallb_Forall_iff, list.Forall_forall in Ho. unfold started in Hst.
    specialize (Ho (i, t) (proj2 (elem_of_map_to_list _ _ _) Ht)). cbn in Ho.
    rewrite bool_decide_eq_true_2, (proj2 (Z.ltb_lt _ _) Hst) in Ho by done. done.
Qed.

Lemma write_b_sound leased (d : gdb) c :
  write_b leased d c = true → write_environment ex_settings leased d c "t".
Proof.
  unfold write_b, write_environment. rewrite andb_true_iff. intros [Hl Hw]. split.
  - intros p Hp. rewrite Hp in Hw. by apply writable_b_sound.
  - intros ->. cbn in Hl. by apply bool_decide_eq_true in Hl.
Qed.

Lemma perform_sound leased ordered s a s' :
  perform leased ordered s a = Some s' →
  ostep ex_settings ex_place ex_history0 leased ordered s s'.
Proof.
  destruct a; cbn [perform]; intros H.
  - destruct (0 <=? n) eqn:E; [|done]. injection H as <-. apply o_tick. lia.
  - destruct (_ && _) eqn:E; [|done]. rewrite andb_true_iff, !bool_decide_eq_true in E.
    destruct E as [E1 E2]. injection H as <-. by apply o_request.
  - destruct (_claim_intent_for_planning _ _) as [d' [c|]] eqn:E; [|done]. injection H as <-.
    by eapply o_claim_intent.
  - destruct (s_plans s !! n) as [c|] eqn:Hc; [|done]. cbn [mbind option_bind] in H.
    destruct (plan_b _ _ _ _ _) eqn:E; [|done].
    destruct (_plan_intent _ _ _ _) as [[d' m]|] eqn:Hp; [|done]. injection H as <-.
    eapply o_plan; [by eapply list_elem_of_lookup_2|by apply plan_b_sound|done].
  - destruct (s_plans s !! n) as [c|] eqn:Hc; [|done]. injection H as <-.
    apply o_fail_intent. by eapply list_elem_of_lookup_2.
  - destruct (bool_decide _) eqn:E; [|done]. apply bool_decide_eq_true in E.
    destruct (_claim_target _ _ _) as [d' [c|]] eqn:Hc; [|done]. injection H as <-. by eapply o_claim.
  - destruct (s_claims s !! token) as [[c h]|] eqn:Hc; [|done]. cbn [mbind option_bind fst snd] in H.
    destruct (write_b _ _ _) eqn:E; [|done].
    destruct (write_target _ _ _ _) as [d' res] eqn:Hw. injection H as <-.
    eapply o_write; [done|by apply write_b_sound|done].
  - destruct (s_claims s !! token) as [[c [m|]]|] eqn:Hc; [|done..]. injection H as <-. by eapply o_finish.
  - destruct (s_claims s !! token) as [[c h]|] eqn:Hc; [|done]. injection H as <-. by eapply o_fail.
  - destruct (s_claims s !! token) as [[c h]|] eqn:Hc; [|done]. injection H as <-. by eapply o_settle.
Qed.

Lemma perform_all_sound leased ordered l s s' :
  perform_all leased ordered s l = Some s' →
  rtc (ostep ex_settings ex_place ex_history0 leased ordered) s s'.
Proof.
  revert s. induction l as [|a l IH]; intros s; cbn; [intros [= ->]; constructor|].
  destruct (perform leased ordered s a) as [s1|] eqn:E; [|done]. intros H.
  eapply rtc_l; [by eapply perform_sound|]. by apply IH.
Qed.

(** ** A promoted repository and three commits *)

Definition ex_gpath : path := ("k", "k", ".gitllery").
Definition ex_grepo : Repo :=
  (initialise ex_dir "k" (Some "k") (Some "k") (Some "g1") "t" "t").1.
Definition ex_gcommits : gmap Z (CurationCommit unit Z) :=
  {[ 1 := mkCuration 10 tt [11]; 2 := mkCuration 20 tt [21; 22]; 3 := mkCuration 30 tt [31] ]}.
Definition ex_system0 : gsystem :=
  mkSystem (mkDb 100 ex_gcommits ∅ ∅ ∅ {[ ex_gpath := ex_grepo ]} false) [] ∅.
Definition ex_resolve (change : Z) : list RepoDescriptor := [mkDescriptor "k" "k" None None "k"].

Lemma ex_place_inj k k' : ex_place k = ex_place k' → k = k'.
Proof. by intros [= ->]. Qed.

Lemma ex_installed : installed ex_settings ex_place ex_history0 ex_system0.
Proof.
  split; [done|done|done| |].
  - cbn. intros c Hc. unfold ex_gcommits in Hc. unfold is_uuid.
    destruct (decide (c = 1)) as [->|]; [lia|]. destruct (decide (c = 2)) as [->|]; [lia|].
    destruct (decide (c = 3)) as [->|]; [lia|].
    rewrite !lookup_insert_ne, lookup_singleton_ne in Hc by done. by destruct Hc.
  - intros k p [= <-]. unfold repo_at. cbn [s_db g_repos ex_system0 ex_history0 ex_place fst snd].
    destruct (decide (k = "k")) as [->|Hne].
    + change ("k", "k", ".gitllery") with ex_gpath. rewrite lookup_singleton_eq. right.
      destruct (initialise_history (Header := unit) (Change := Z) ex_dir "k" (Some "k") (Some "k") (Some "g1") "t" "t" ex_grepo)
        as [m Hm]; [done|done|]. by exists m, [].
    + rewrite lookup_singleton_ne by (unfold ex_gpath; congruence). by left.
Qed.

Definition ex_run : list action :=
  [ARequest 1 101; AClaimIntent; APlan 0 ex_resolve [201]; AClaim 301; AWrite 301; AFinish 301;
   ASettle 301].
Definition ex_system1 : gsystem := default ex_system0 (perform_all true true ex_system0 ex_run).

(** The result of a run, once the run is known to go through. *)
Lemma performed leased ordered s l s0 :
  bool_decide (is_Some (perform_all leased ordered s l)) = true →
  perform_all leased ordered s l = Some (default s0 (perform_all leased ordered s l)).
Proof. intros [s' Hs]%bool_decide_eq_true. by rewrite Hs. Qed.

Lemma ex_reachable1 : reachable ex_settings ex_place ex_history0 true true ex_system1.
Proof.
  exists ex_system0. split; [exact ex_installed|].
  eapply perform_all_sound, performed. vm_compute. reflexivity.
Qed.

(** ** The theorems at these runs *)

Definition ex_target0 : Target unit Z :=
  mkTarget 0 0 0 "" "" "" (mkCommit (mkBase None None tt) []) GPending 0 0 None None None None None.
Definition ex_intent0 : Intent := mkIntent 0 None GPending 0 0 None None None None.
Definition ex_claim0 : TargetClaim unit Z := mkTargetClaim 0 0 ex_target0.

(** The system after the first [n] actions. *)
Definition ex_after (n : nat) : gsystem := default ex_system0 (perform_all true true ex_system0 (take n ex_run)).

Lemma ex_reachable n :
  bool_decide (is_Some (perform_all true true ex_system0 (take n ex_run))) = true →
  reachable ex_settings ex_place ex_history0 true true (ex_after n).
Proof.
  intros H. exists ex_system0. split; [exact ex_installed|]. by eapply perform_all_sound, performed.
Qed.

Definition ex_row : Intent := default ex_intent0 (g_intents (s_db (ex_after 7)) !! 101).
Definition ex_t : Target unit Z := default ex_target0 (g_targets (s_db (ex_after 7)) !! 201).
Definition ex_planned : Target unit Z := default ex_target0 (g_targets (s_db (ex_after 3)) !! 201).
Definition ex_plan_claim : PlanClaim :=
  default (mkPlanClaim 0 0 0 0) (s_plans (ex_after 2) !! 0%nat).
Definition ex_held_row : Intent := default ex_intent0 (plan_held (s_db (ex_after 2)) ex_plan_claim).
Definition ex_claim : TargetClaim unit Z :=
  default ex_claim0 (fst <$> s_claims (ex_after 5) !! 301).
Definition ex_written : Manifest :=
  default (mkManifest current_format "" "" None None None 0 0 0 "")
    (s_claims (ex_after 5) !! 301 ≫= snd).


Lemma complete_intent_projected_witness :
  ∃ parent, find_commit (repo_at (s_db (ex_after 7)) ex_gpath) (uuid_str (in_commit ex_row)) =
            Ok (Some (reparent (tg_payload ex_t) parent)).
Proof.
  apply (complete_intent_projected ex_settings ex_place ex_history0 ex_place_inj (ex_after 7) 101 ex_row 201
           ex_t ex_gpath).
  - apply ex_reachable. vm_compute. reflexivity.
  - vm_compute. reflexivity.
  - vm_compute. reflexivity.
  - vm_compute. reflexivity.
  - vm_compute. reflexivity.
  - vm_compute. reflexivity.
Defined.

Definition ex_finished : gdb := (_finish_target ex_settings (s_db (ex_after 5)) ex_claim ex_written).1.

Lemma checkpoint_agrees_witness :
  ∃ row cs, g_states ex_finished !! tg_repository (cl_row ex_claim) = Some row ∧
    iter_commits (repo_at ex_finished ex_gpath) false = (cs, None) ∧
    rs_commit_count row = Z.of_nat (length cs) ∧
    last_id None cs = Some (uuid_str (rs_last_commit row)) ∧
    ∀ i t, g_targets ex_finished !! i = Some t → tg_repository t = tg_repository (cl_row ex_claim) →
      tg_state t = GComplete →
      position_before (rs_last_created_at row, rs_last_commit row) (tg_position t) = false.
Proof.
  apply (checkpoint_agrees ex_settings ex_place ex_history0 ex_place_inj (ex_after 5) 301 ex_claim
           ex_written ex_finished ex_gpath).
  - apply ex_reachable. vm_compute. reflexivity.
  - vm_compute. reflexivity.
  - vm_compute. reflexivity.
  - vm_compute. reflexivity.
Defined.

Lemma incomplete_target_claimable_witness :
  (∃ j u, g_targets (s_db (ex_after 3)) !! j = Some u ∧ (j = 201 ∨ before u ex_planned) ∧
          claimable_target (s_db (ex_after 3)) ∅ (j, u) = true) ∧
  ∃ d' c, _claim_target (s_db (ex_after 3)) ∅ 7 = (d', Some c).
Proof.
  apply (incomplete_target_claimable ex_settings ex_place ex_history0 ex_place_inj (ex_after 3) 201
           ex_planned 7).
  - apply ex_reachable. vm_compute. reflexivity.
  - vm_compute. reflexivity.
  - vm_compute. discriminate.
  - assert (forallb (λ kt : Z * Target unit Z, (tg_available_at kt.2 <=? g_now (s_db (ex_after 3))) &&
              bool_decide (tg_lease kt.2 = None)) (map_to_list (g_targets (s_db (ex_after 3)))) = true) as H
      by (vm_compute; reflexivity).
    rewrite forallb_forall in H. intros j u Hu _.
    specialize (H (j, u)). rewrite <-list_elem_of_In, elem_of_map_to_list in H. specialize (H Hu).
    cbn in H. rewrite andb_true_iff, bool_decide_eq_true in H. destruct H as [H1 H2].
    split; [by apply Z.leb_le|]. intros l Hl. congruence.
Defined.

Definition ex_slice : Slice (Change := Z) :=
  mkSlice (Some ex_resolve) [201] (λ n, 300 + Z.of_nat n) (λ _, true) true (λ _, "t") "error".

Definition ex_processed := process_gitllery_projection_outbox ex_settings (s_db (ex_after 1)) 25 ex_slice.

Lemma slice_reports_rest_witness :
  (sr_claimed ex_processed.2 ≤ 100)%nat ∧ Z.of_nat (sr_claimed ex_processed.2) ≤ Z.max 1 25 ∧
  sr_processed ex_processed.2 + sr_failed ex_processed.2 ≤ Z.of_nat (sr_claimed ex_processed.2) + 1 ∧
  (sr_slice_exhausted ex_processed.2 = false →
   ∀ token, _claim_target ex_processed.1 ∅ token = (ex_processed.1, None)).
Proof.
  apply (slice_reports_rest ex_settings (s_db (ex_after 1)) 25 ex_slice).
  - discriminate.
  - apply surjective_pairing.
Defined.

Lemma plan_creates_slices_witness :
  let d := s_db (ex_after 2) in
  let pairs := resolved ex_resolve [11] in
  ∃ d', _plan_intent d ex_plan_claim ex_resolve [201] = Some (d', 1) ∧
    (∀ i t, g_targets d' !! i = Some t → tg_commit t ≠ pc_commit ex_plan_claim → g_targets d !! i = Some t) ∧
    (∀ i t, g_targets d !! i = Some t → g_targets d' !! i = Some t) ∧
    (∀ i t, g_targets d' !! i = Some t → tg_commit t = pc_commit ex_plan_claim →
       tg_state t = GPending ∧ tg_intent t = pc_id ex_plan_claim ∧
       commit_id (base (tg_payload t)) = Some (uuid_str (pc_commit ex_plan_claim)) ∧
       changes (tg_payload t) = (filter (λ p, rd_repository_id p.2 = tg_repository t) pairs).*1) ∧
    (∀ k, k ∈ (λ p, rd_repository_id p.2) <$> pairs →
       exists! i, ∃ t, g_targets d' !! i = Some t ∧ tg_commit t = pc_commit ex_plan_claim ∧ tg_repository t = k).
Proof.
  apply (plan_creates_slices (s_db (ex_after 2)) ex_plan_claim (mkCuration 10 tt [11]) ex_held_row ex_resolve [201]).
  - vm_compute. reflexivity.
  - vm_compute. reflexivity.
  - apply NoDup_singleton.
  - intros i ->%list_elem_of_singleton. vm_compute. reflexivity.
  - vm_compute. reflexivity.
  - intros i t. assert (g_targets (s_db (ex_after 2)) = ∅) as -> by (vm_compute; reflexivity).
    by rewrite lookup_empty.
Defined.

(** ** Two runs without the disciplines *)

Definition both_planned : list action :=
  [ARequest 1 101; ARequest 2 102; AClaimIntent; APlan 0 ex_resolve [201];
   AClaimIntent; APlan 0 ex_resolve [202]].

(** The first worker claims target 201 and stalls past its lease; another
    projects both commits; then the first worker writes. *)
Definition stale_run : list action :=
  both_planned ++
  [AClaim 301; ATick 400; AClaim 302; AWrite 302; AFinish 302; ASettle 302;
   AClaim 303; AWrite 303; AFinish 303; ASettle 303; AWrite 301].
Definition stale_system : gsystem := default ex_system0 (perform_all false true ex_system0 stale_run).

(** Planning of the first commit fails once, the second is appended but not
    finished, and then the first is planned after all. *)
Definition late_run : list action :=
  [ARequest 1 101; ARequest 2 102; AClaimIntent; AFailIntent 0; AClaimIntent;
   APlan 0 ex_resolve [202]; AClaim 301; AWrite 301; AFail 301; ATick 400;
   AClaimIntent; APlan 0 ex_resolve [201]; AClaim 302; AWrite 302; AFinish 302; ASettle 302;
   AClaim 303; AWrite 303; AFinish 303; ASettle 303].
Definition late_system : gsystem := default ex_system0 (perform_all true false ex_system0 late_run).

Definition ids_read (s : gsystem) : list string :=
  id_of <$> (iter_commits (repo_at (s_db s) ex_gpath) false).1.

Lemma stale_reachable : reachable ex_settings ex_place ex_history0 false true stale_system.
Proof.
  exists ex_system0. split; [exact ex_installed|].
  eapply perform_all_sound, performed. vm_compute. reflexivity.
Qed.

Lemma late_reachable : reachable ex_settings ex_place ex_history0 true false late_system.
Proof.
  exists ex_system0. split; [exact ex_installed|].
  eapply perform_all_sound, performed. vm_compute. reflexivity.
Qed.

Definition all_complete (s : gsystem) : bool :=
  forallb (λ kt : Z * Target unit Z, bool_decide (tg_state kt.2 = GComplete))
    (map_to_list (g_targets (s_db s))).

(** Both disciplines are needed, and the code enforces neither.  A writer
    that outlives its lease repeats a commit: the parent is read from the
    manifest at the time of the write, so the stale commit passes the parent
    check of [append] and follows its own successor.  And an intent whose
    planning was put off is planned before a commit its repository already
    holds; the later commit is then written twice. *)
Theorem undisciplined_runs_duplicate :
  (∃ s, reachable ex_settings ex_place ex_history0 false true s ∧ all_complete s = true ∧
        ids_read s = [uuid_str 1; uuid_str 2; uuid_str 1]) ∧
  (∃ s, reachable ex_settings ex_place ex_history0 true false s ∧ all_complete s = true ∧
        ids_read s = [uuid_str 2; uuid_str 1; uuid_str 2]).
Proof.
  split.
  - exists stale_system. split; [exact stale_reachable|]. split; vm_compute; reflexivity.
  - exists late_system. split; [exact late_reachable|]. split; vm_compute; reflexivity.
Qed.

(** ** A log that is a list

    The interface of the outbox has a second, in-memory implementation, for
    which every write may be assumed safe. *)

Definition list_manifest (l : list ex_commit) : Manifest :=
  mkManifest current_format "" "g1" None (last_id None l) None 0 (Z.of_nat (length l)) 0 "".

Definition list_write (st : Settings) (t : LogTarget unit Z) (now : string) (l : list ex_commit)
    : list ex_commit * result ProjectionError Manifest :=
  if decide (last_id None l = Some (id_of (lt_payload t))) then (l, Ok (list_manifest l))
  else if decide (id_of (lt_payload t) ∈ id_of <$> l) then (l, Err NotPromoted)
  else let l' := l ++ [reparent (lt_payload t) (last_id None l)] in (l', Ok (list_manifest l')).

Global Instance list_log : CommitLog unit Z (list ex_commit) := {|
  log_empty := [];
  log_write := list_write;
  log_history l cs := cs = l ∧ NoDup (id_of <$> l);
  log_writable _ _ _ _ := True |}.

Global Instance list_log_laws : CommitLogLaws unit Z (list ex_commit).
Proof.
  split; cbn; unfold list_write.
  - split; [done|constructor].
  - by intros l cs [-> ?].
  - intros st t now l cs l' e [-> Hnd]. repeat case_decide; intros [=]; by subst.
  - intros st t now l cs l' m [-> Hnd] _ Hw Hl. rewrite decide_True in Hw by done.
    injection Hw as <- <-. done.
  - intros st t now l cs l' m [-> Hnd] _ _ Hw Hnew.
    rewrite decide_False in Hw.
    + rewrite decide_False in Hw by done. injection Hw as <- <-. split; [|done]. split; [done|].
      rewrite fmap_app. apply list.NoDup_app. split_and!; [done| |apply NoDup_singleton].
      intros x Hx ->%list_elem_of_singleton. done.
    + intros E. apply Hnew. clear -E. destruct l as [|c l _] using rev_ind; [done|].
      rewrite last_id_app in E. injection E as <-. rewrite fmap_app, elem_of_app. right. left.
Qed.

Definition list_system : System (Header := unit) (Change := Z) (R := list ex_commit) :=
  mkSystem (mkDb 100 ex_gcommits {[ 101 := mkIntent 1 None GPending 0 100 None None None None ]}
              ∅ ∅ ∅ false) [] ∅.
Definition list_processed :=
  process_gitllery_projection_outbox ex_settings (s_db list_system) 25 ex_slice.


(** The slice projects the commit: its one target and its intent are complete. *)
Example list_slice_completes :
  (λ t : Target unit Z, tg_state t) <$> g_targets list_processed.1 !! 201 = Some GComplete ∧
  in_state <$> g_intents list_processed.1 !! 101 = Some GComplete.
Proof. split; vm_compute; reflexivity. Qed.

(** A change that resolves twice to one repository (an asset in two works
    of the same creator) is put twice into the commit of that repository. *)
Theorem shared_asset_change_repeated (change : Z) desc desc' :
  rd_repository_id desc = rd_repository_id desc' →
  slice_changes (λ _, [desc; desc']) [change] = [(desc, [change; change])].
Proof. intros E. cbn. by rewrite decide_True. Qed.

Lemma shared_asset_change_repeated_witness :
  slice_changes (λ _, [mkDescriptor "k" "s" (Some "1") None "d"; mkDescriptor "k" "s" (Some "1") None "d"])
    [7] = [(mkDescriptor "k" "s" (Some "1") None "d", [7; 7])].
Proof. apply shared_asset_change_repeated. reflexivity. Defined.
