(* ===== verification/AdminOperations.v ===== *)
(** * Administrator operations

    [app/services/operations.py], [app/services/admin_dispatch_recovery.py]
    and the worker entry of [app/jobs/admin_operations.py]: maintenance
    operations run as task runs with a durable dispatch record.  Every
    delivery is an attempt with a number; attempts are prepared in the
    database, published to the queue, claimed by a worker that holds the
    execution lease of the operation's scope, and rotated by retries,
    hand-offs and the recovery of lost deliveries.  A worker's transactions
    are fenced by the attempt number.

    Times are seconds.  The options of an operation are JSON objects, on which
    [_validated_options] is the identity; progress and results are left out of
    the rows.  The queue identifier [f"admin-{task_id}-attempt-{n}"] is kept as
    its two parts. *)

From stdpp Require Import base gmap strings list.
From S2P Require Import Prelude Keyset TaskState TaskRuns TaskPipeline TaskEngine.

Open Scope string_scope.
Open Scope Z_scope.

(** ** The registry *)

Record AdminOperationSpec := mkSpec {
  sp_operation_type : string;
  sp_queue_names : list string;
  sp_scope_prefixes : list string;
  sp_default_job_timeout : Z;
  sp_required_permission : string }.

Definition ADMIN_OPERATION_REGISTRY : list AdminOperationSpec := [
  mkSpec "subscription-sync-batch-cleanup" ["operations"] ["library:subscription-sync-cancel:"] 120 "system";
  mkSpec "subscription-sync-batch" ["operations"] ["library:subscription-sync-batch:active"] 120 "system";
  mkSpec "admin-clear" ["maintenance"] ["library:clear:"] 7200 "system";
  mkSpec "admin-cleanup-metadata-jsons" ["maintenance"] ["library:cleanup-metadata-jsons:active"] 7200 "system";
  mkSpec "admin-rebuild" ["maintenance"] ["library:rebuild:active"] 14400 "system";
  mkSpec "admin-disk-import" ["maintenance"] ["library:disk-import:active"] 14400 "system";
  mkSpec "admin-creator-reenrich" ["maintenance"] ["library:creator-reenrich:active"] 7200 "system";
  mkSpec "admin-creator-alias-backfill" ["maintenance"] ["library:creator-alias-backfill:active"] 7200 "system";
  mkSpec "danbooru-mapping-refresh" ["maintenance"] ["library:creator-reenrich:active"] 14400 "subscriptions";
  mkSpec "admin-danbooru-batch-import" ["imports"] ["danbooru:batch-import:"] 3600 "subscriptions";
  mkSpec "danbooru-import-all" ["imports"] ["danbooru:import-all:"] 3600 "subscriptions";
  mkSpec "admin-danbooru-url-batch-import" ["imports"] ["danbooru:url-batch-import:"] 3600 "subscriptions";
  mkSpec "admin-search-reindex" ["maintenance"] ["library:search-reindex:active"] (7 * 24 * 60 * 60) "system";
  mkSpec "admin-curation-backfill" ["maintenance"] ["library:curation-backfill:active"] (7 * 24 * 60 * 60) "curation";
  mkSpec "admin-gitllery-verify" ["maintenance"] ["gitllery:verify:"] (7 * 24 * 60 * 60) "curation";
  mkSpec "admin-gitllery-build" ["maintenance"] ["library:gitllery-build:active"] (7 * 24 * 60 * 60) "curation";
  mkSpec "admin-gitllery-sync" ["maintenance"] ["library:gitllery-sync:active"] (7 * 24 * 60 * 60) "system";
  mkSpec "hierarchy-delete" ["operations"; "maintenance"] ["library:hierarchy-delete:active"] (7 * 24 * 60 * 60) "system";
  mkSpec "asset-dedup-scan" ["maintenance"] ["lock:admin:asset-dedup-scan"] 3600 "curation";
  mkSpec "admin-download-conflict-reconciliation" ["maintenance"] ["diagnostics:download-conflicts:active"] 3600 "system";
  mkSpec "admin-integrity-scan" ["maintenance"] ["diagnostics:integrity:active"] 14400 "system";
  mkSpec "admin-backup-estimate" ["maintenance"] ["backup:estimate:active"] 14400 "system";
  mkSpec "admin-backup-create" ["maintenance"] ["backup:create:active"] 3600 "system";
  mkSpec "admin-restore-validate" ["maintenance"] ["restore:validate:"] 3600 "system";
  mkSpec "admin-proxy-test" ["maintenance"] ["diagnostics:proxy:active"] 120 "system";
  mkSpec "admin-gallerydl-connectivity-test" ["maintenance"] ["diagnostics:gallerydl:"] 180 "system" ].

Definition find_spec (operation_type : string) : option AdminOperationSpec :=
  List.find (λ s, bool_decide (sp_operation_type s = operation_type)) ADMIN_OPERATION_REGISTRY.

(** *** Who may see an operation *)

Record OperationUser := mkUser { us_is_admin : bool; us_permissions : gset string }.

Definition admin_operation_required_permission (operation_type : string) : option string :=
  sp_required_permission <$> find_spec operation_type.

Definition can_access_admin_operation (user : OperationUser) (operation_type : string) : bool :=
  match admin_operation_required_permission operation_type with
  | None => true
  | Some required => us_is_admin user || bool_decide (required ∈ us_permissions user)
  end.

Definition admin_operation_permissions_for_user (user : OperationUser) : gset string :=
  if us_is_admin user then list_to_set (sp_required_permission <$> ADMIN_OPERATION_REGISTRY)
  else us_permissions user.

Definition inaccessible_admin_operation_types_for_permissions (permissions : gset string) : list string :=
  sp_operation_type <$> List.filter (λ spec,
    negb (bool_decide (sp_required_permission spec ∈ permissions)) &&
    negb (bool_decide (sp_operation_type spec = "subscription-sync-batch"))) ADMIN_OPERATION_REGISTRY.

Definition inaccessible_admin_operation_types (user : OperationUser) : list string :=
  inaccessible_admin_operation_types_for_permissions (admin_operation_permissions_for_user user).

(** [require_admin_operation_access]: [Some p] is the 403 that names the
    missing permission. *)
Definition require_admin_operation_access (user : OperationUser) (operation_type : string) : option string :=
  match admin_operation_required_permission operation_type with
  | Some required => if can_access_admin_operation user operation_type then None else Some required
  | None => None
  end.

(** The exceptions of this component. *)
Inductive AdminError :=
| UnsupportedOperation
| UnsupportedQueue
| UnsupportedScope
| TimeoutNotPositive
| AlreadyRunning (owner : Z)
| TaskNotFound
| LegacyNotRetryable
| StillExecuting
| RetryUnavailable (status : string)
| ScanUnavailable
| AttemptRejected
| AttemptNotCurrent
| CannotRunFrom (status : string)
| QueueNotRegistered.

Definition _registered_spec (operation_type scope_key queue_name : string)
    : result AdminError AdminOperationSpec :=
  match find_spec operation_type with
  | None => Err UnsupportedOperation
  | Some spec =>
      guard_or (bool_decide (queue_name ∈ sp_queue_names spec)) UnsupportedQueue ≫= λ _,
      guard_or (negb (bool_decide (scope_key = "")) &&
                existsb (λ prefix, String.prefix prefix scope_key) (sp_scope_prefixes spec))
        UnsupportedScope ≫= λ _,
      Ok spec
  end.

(** ** Rows *)

Inductive PublicationState := DispatchPending | DispatchPublished | DispatchFailed.
Global Instance PublicationState_eq_dec : EqDecision PublicationState.
Proof. solve_decision. Defined.

(** [deterministic_admin_rq_job_id(task_id, attempt)] *)
Definition deterministic_admin_rq_job_id (task_id attempt : Z) : Z * Z := (task_id, Z.max 1 attempt).

(** [task.meta["admin_dispatch"]] *)
Record Dispatch (O : Type) := mkDispatch {
  dp_operation_type : string;
  dp_scope_key : string;
  dp_queue_name : string;
  dp_options : O;
  dp_state : PublicationState;
  dp_failures : Z;
  dp_next_retry_at : option Z;
  dp_next_probe_at : option Z;
  dp_last_error : option string;
  dp_attempt : Z;
  dp_rq_job_id : Z * Z;
  dp_job_timeout : Z;
  dp_prepared_at : Z;
  dp_updated_at : Z;
  dp_published_at : option Z;
  dp_recovered_from : option Z;
  dp_checkpoints : gmap string O }.
Arguments mkDispatch {O}.
Arguments dp_operation_type {O}.
Arguments dp_scope_key {O}.
Arguments dp_queue_name {O}.
Arguments dp_options {O}.
Arguments dp_state {O}.
Arguments dp_failures {O}.
Arguments dp_next_retry_at {O}.
Arguments dp_next_probe_at {O}.
Arguments dp_last_error {O}.
Arguments dp_attempt {O}.
Arguments dp_rq_job_id {O}.
Arguments dp_job_timeout {O}.
Arguments dp_prepared_at {O}.
Arguments dp_updated_at {O}.
Arguments dp_published_at {O}.
Arguments dp_recovered_from {O}.
Arguments dp_checkpoints {O}.

(** A task run of kind ["admin"]; [ad_entity] and [ad_repository] are the
    metadata keys the scopes of old rows are derived from. *)
Record AdminTask (O : Type) := mkAdminTask {
  ad_run : TaskRun;
  ad_operation_type : string;
  ad_title : string;
  ad_queue_name : string;
  ad_rq_job_id : Z * Z;
  ad_created_at : Z;
  ad_heartbeat_at : option Z;
  ad_entity : option string;
  ad_repository : option string;
  ad_dispatch : option (Dispatch O) }.
Arguments mkAdminTask {O}.
Arguments ad_run {O}.
Arguments ad_operation_type {O}.
Arguments ad_title {O}.
Arguments ad_queue_name {O}.
Arguments ad_rq_job_id {O}.
Arguments ad_created_at {O}.
Arguments ad_heartbeat_at {O}.
Arguments ad_entity {O}.
Arguments ad_repository {O}.
Arguments ad_dispatch {O}.

(** A job of the queue, by [get_status()], and its arguments. *)
Record RqJob := mkRqJob { rq_status : string; rq_task : Z; rq_attempt : Z }.

Definition _ACTIVE_ADMIN_STATUSES : list string := ["enqueued"; "running"; "paused"; "recovering"].

Definition ADMIN_DISPATCH_RECOVERY_INTERVAL_SECONDS : Z := 30.
Definition ADMIN_ATTEMPT_HEARTBEAT_STALE_SECONDS : Z := 90.
Definition ADMIN_DISPATCH_RETRY_MIN_SECONDS : Z := 30.
Definition ADMIN_DISPATCH_RETRY_MAX_SECONDS : Z := 15 * 60.
Definition ADMIN_DISPATCH_RECOVERY_LIMIT : Z := 25.
Definition ADMIN_DISPATCH_GRACE_SECONDS : Z := 15.

Section Operations.
Context {O : Type}.

Abbreviation dispatch := (Dispatch O).
Abbreviation task := (AdminTask O).
Abbreviation tasks_t := (gmap Z (AdminTask O)).

Definition ad_status (t : task) : string := t_status (ad_run t).
Definition ad_attempts (t : task) : Z := t_attempts (ad_run t).
Definition active (t : task) : bool := bool_decide (ad_status t ∈ _ACTIVE_ADMIN_STATUSES).

(** [TaskService.update_task(task, status=..., error=..., reason_code=...)]:
    [update_task] raises only for resource and attention arguments. *)
Definition touch (now : Z) (status : option string) (error reason : option (option string))
    (t : TaskRun) : TaskRun :=
  match update_task now (mkUpdate status error None None None reason) t with
  | Ok t' => t'
  | Err _ => t
  end.

Definition with_attempts (n : Z) (t : TaskRun) : TaskRun :=
  mkTaskRun (t_admin t) (t_status t) (t_error t) (t_attention t) (t_reason t) (t_resource t)
    (t_resource_reason t) n (t_enqueued_at t) (t_started_at t) (t_finished_at t) (t_resolved_at t)
    (t_acknowledged_at t) (t_compactable_at t).

Definition set_run (t : task) (r : TaskRun) : task :=
  mkAdminTask r (ad_operation_type t) (ad_title t) (ad_queue_name t) (ad_rq_job_id t)
    (ad_created_at t) (ad_heartbeat_at t) (ad_entity t) (ad_repository t) (ad_dispatch t).
Definition set_heartbeat (t : task) (h : option Z) : task :=
  mkAdminTask (ad_run t) (ad_operation_type t) (ad_title t) (ad_queue_name t) (ad_rq_job_id t)
    (ad_created_at t) h (ad_entity t) (ad_repository t) (ad_dispatch t).
Definition set_dispatch (t : task) (dp : dispatch) : task :=
  mkAdminTask (ad_run t) (ad_operation_type t) (ad_title t) (ad_queue_name t) (ad_rq_job_id t)
    (ad_created_at t) (ad_heartbeat_at t) (ad_entity t) (ad_repository t) (Some dp).
(** A new attempt: its dispatch record, its queue identifier, its number. *)
Definition set_attempt (t : task) (dp : dispatch) : task :=
  mkAdminTask (with_attempts (dp_attempt dp) (ad_run t)) (ad_operation_type t) (ad_title t)
    (ad_queue_name t) (dp_rq_job_id dp) (ad_created_at t) (ad_heartbeat_at t) (ad_entity t)
    (ad_repository t) (Some dp).

(** ** Scopes *)

Definition legacy_scopes : list (string * string) := [
  ("admin-rebuild", "library:rebuild:active");
  ("admin-disk-import", "library:disk-import:active");
  ("admin-creator-reenrich", "library:creator-reenrich:active");
  ("danbooru-mapping-refresh", "library:creator-reenrich:active");
  ("admin-search-reindex", "library:search-reindex:active");
  ("admin-curation-backfill", "library:curation-backfill:active");
  ("admin-gitllery-sync", "library:gitllery-sync:active");
  ("hierarchy-delete", "library:hierarchy-delete:active");
  ("asset-dedup-scan", "lock:admin:asset-dedup-scan") ].

Definition _scope_for_task (t : task) : option string :=
  match ad_dispatch t with
  | Some dp => Some (dp_scope_key dp)
  | None =>
      if bool_decide (ad_operation_type t = "admin-clear") && truthy (ad_entity t)
      then Some ("library:clear:" +:+ default "" (ad_entity t))
      else if bool_decide (ad_operation_type t = "admin-gitllery-verify") && truthy (ad_repository t)
      then Some ("gitllery:verify:" +:+ default "" (ad_repository t))
      else assoc (ad_operation_type t) legacy_scopes
  end.

Definition created_before (a b : Z * task) : bool :=
  (ad_created_at a.2 <? ad_created_at b.2) ||
  (ad_created_at a.2 =? ad_created_at b.2) && (a.1 <? b.1).

Definition _active_scope_owner (tasks : tasks_t) (scope_key : string) (exclude : option Z)
    : option (Z * task) :=
  List.find (λ it, bool_decide (_scope_for_task it.2 = Some scope_key))
    (order_by created_before
       (List.filter (λ it, active it.2 && negb (bool_decide (exclude = Some it.1)))
          (map_to_list tasks))).

(** ** Preparing attempts *)

Definition _new_dispatch (now task_id attempt : Z) (operation_type scope_key queue_name : string)
    (options : O) (job_timeout : Z) : dispatch :=
  mkDispatch operation_type scope_key queue_name options DispatchPending 0 None None None attempt
    (deterministic_admin_rq_job_id task_id attempt) job_timeout now now None None ∅.

Record PrepareRequest := mkPrepare {
  pr_operation_type : string;
  pr_scope_key : string;
  pr_title : string;
  pr_entity : string;
  pr_options : O;
  pr_queue_name : string;
  pr_job_timeout : option Z }.

(** [int(job_timeout or spec.default_job_timeout)] *)
Definition job_timeout_of (timeout : option Z) (spec : AdminOperationSpec) : Z :=
  match timeout with
  | Some n => if n =? 0 then sp_default_job_timeout spec else n
  | None => sp_default_job_timeout spec
  end.

Definition prepare_admin_operation (now : Z) (tasks : tasks_t) (q : PrepareRequest) (fresh : Z)
    : result AdminError (tasks_t * Z) :=
  _registered_spec (pr_operation_type q) (pr_scope_key q) (pr_queue_name q) ≫= λ spec,
  let timeout := job_timeout_of (pr_job_timeout q) spec in
  guard_or (0 <? timeout) TimeoutNotPositive ≫= λ _,
  match _active_scope_owner tasks (pr_scope_key q) None with
  | Some (owner, _) => Err (AlreadyRunning owner)
  | None =>
      let attempt := 1 in
      let dp := _new_dispatch now fresh attempt (pr_operation_type q) (pr_scope_key q)
                  (pr_queue_name q) (pr_options q) timeout in
      let run := with_attempts attempt (new_task now true "enqueued" None) in
      Ok (<[fresh := mkAdminTask run (pr_operation_type q) (pr_title q) (pr_queue_name q)
                       (dp_rq_job_id dp) now None (Some (pr_entity q)) None (Some dp)]> tasks, attempt)
  end.

(** [str(dispatch.get("queue_name") or task.queue_name or "maintenance")] *)
Definition queue_of (dp : dispatch) (t : task) : string :=
  if bool_decide (dp_queue_name dp ≠ "") then dp_queue_name dp
  else if bool_decide (ad_queue_name t ≠ "") then ad_queue_name t else "maintenance".

Definition timeout_of (dp : dispatch) : Z :=
  if dp_job_timeout dp =? 0 then 14400 else dp_job_timeout dp.

Definition with_checkpoints (dp : dispatch) (cps : gmap string O) : dispatch :=
  mkDispatch (dp_operation_type dp) (dp_scope_key dp) (dp_queue_name dp) (dp_options dp) (dp_state dp)
    (dp_failures dp) (dp_next_retry_at dp) (dp_next_probe_at dp) (dp_last_error dp) (dp_attempt dp)
    (dp_rq_job_id dp) (dp_job_timeout dp) (dp_prepared_at dp) (dp_updated_at dp) (dp_published_at dp)
    (dp_recovered_from dp) cps.

(** [_prepare_admin_operation_retry_session] and [.._locked].  [exec] are the
    execution leases held by other sessions.  [scan] concerns deduplication
    scans: whether the scan row exists, and what the check of its status
    answers, with the new options. *)
Definition prepare_admin_operation_retry (now : Z) (tasks : tasks_t) (exec : gmap string Z)
    (id : Z) (scan : option (result AdminError O)) : result AdminError (tasks_t * Z) :=
  match tasks !! id with
  | None => Err TaskNotFound
  | Some t =>
      match ad_dispatch t with
      | None => Err LegacyNotRetryable
      | Some dp =>
          let scope_key := dp_scope_key dp in
          guard_or (bool_decide (exec !! scope_key = None)) StillExecuting ≫= λ _,
          let dedup := bool_decide (ad_operation_type t = "asset-dedup-scan") in
          guard_or (negb dedup || bool_decide (is_Some scan)) ScanUnavailable ≫= λ _,
          guard_or (bool_decide (ad_status t ∈ ["failed"; "stale"; "cancelled"]))
            (RetryUnavailable (ad_status t)) ≫= λ _,
          match _active_scope_owner tasks scope_key (Some id) with
          | Some (owner, _) => Err (AlreadyRunning owner)
          | None =>
              (if dedup then default (Err ScanUnavailable) scan else Ok (dp_options dp)) ≫= λ options,
              let attempt := Z.max (ad_attempts t) (dp_attempt dp) + 1 in
              let next := with_checkpoints
                (_new_dispatch now id attempt (ad_operation_type t) scope_key (queue_of dp t) options
                   (timeout_of dp)) (dp_checkpoints dp) in
              let t' := set_attempt
                (set_run t (touch now (Some "enqueued") (Some (Some "")) None (ad_run t))) next in
              Ok (<[id := t']> tasks, attempt)
          end
      end
  end.

(** A worker's or a control call's grip on an attempt: the row, if it is an
    administrator task whose dispatch carries this attempt. *)
Definition current_attempt (tasks : tasks_t) (id attempt : Z) : option (task * dispatch) :=
  match tasks !! id with
  | Some t =>
      match ad_dispatch t with
      | Some dp => if dp_attempt dp =? attempt then Some (t, dp) else None
      | None => None
      end
  | None => None
  end.

Definition with_updated_at (dp : dispatch) (at_ : Z) : dispatch :=
  mkDispatch (dp_operation_type dp) (dp_scope_key dp) (dp_queue_name dp) (dp_options dp) (dp_state dp)
    (dp_failures dp) (dp_next_retry_at dp) (dp_next_probe_at dp) (dp_last_error dp) (dp_attempt dp)
    (dp_rq_job_id dp) (dp_job_timeout dp) (dp_prepared_at dp) at_ (dp_published_at dp)
    (dp_recovered_from dp) (dp_checkpoints dp).

Definition with_retry_at (dp : dispatch) (at_ : Z) : dispatch :=
  mkDispatch (dp_operation_type dp) (dp_scope_key dp) (dp_queue_name dp) (dp_options dp) (dp_state dp)
    (dp_failures dp) (Some at_) (dp_next_probe_at dp) (dp_last_error dp) (dp_attempt dp)
    (dp_rq_job_id dp) (dp_job_timeout dp) (dp_prepared_at dp) (dp_updated_at dp) (dp_published_at dp)
    (dp_recovered_from dp) (dp_checkpoints dp).

Definition prepare_admin_operation_handoff (now : Z) (tasks : tasks_t) (id attempt : Z) (options : O)
    (delay_seconds : Z) : option (tasks_t * Z) :=
  match current_attempt tasks id attempt with
  | Some (t, dp) =>
      if active t then
        let next := with_retry_at
          (_new_dispatch now id (attempt + 1) (ad_operation_type t) (dp_scope_key dp)
             (dp_queue_name dp) options (dp_job_timeout dp))
          (now + Z.max 1 (Z.min delay_seconds ADMIN_DISPATCH_RETRY_MAX_SECONDS)) in
        let t' := set_attempt
          (set_run t (touch now (Some "enqueued") (Some (Some "")) None (ad_run t))) next in
        Some (<[id := t']> tasks, attempt + 1)
      else None
  | None => None
  end.

Definition heartbeat_fresh (t : task) (checked_at : Z) : bool :=
  match ad_heartbeat_at t with
  | Some h => checked_at - ADMIN_ATTEMPT_HEARTBEAT_STALE_SECONDS <? h
  | None => false
  end.

Definition with_recovered_from (dp : dispatch) (n : Z) : dispatch :=
  mkDispatch (dp_operation_type dp) (dp_scope_key dp) (dp_queue_name dp) (dp_options dp) (dp_state dp)
    (dp_failures dp) (dp_next_retry_at dp) (dp_next_probe_at dp) (dp_last_error dp) (dp_attempt dp)
    (dp_rq_job_id dp) (dp_job_timeout dp) (dp_prepared_at dp) (dp_updated_at dp) (dp_published_at dp)
    (Some n) (dp_checkpoints dp).

(** [prepare_admin_operation_recovery] *)
Definition prepare_admin_operation_recovery (now : Z) (tasks : tasks_t) (exec : gmap string Z)
    (id attempt checked_at : Z) : option (tasks_t * Z) :=
  match current_attempt tasks id attempt with
  | Some (t, dp) =>
      if bool_decide (exec !! dp_scope_key dp = None) && bool_decide (ad_status t = "running") &&
         negb (heartbeat_fresh t checked_at)
      then
        let next := with_recovered_from (with_checkpoints
          (_new_dispatch now id (attempt + 1) (ad_operation_type t) (dp_scope_key dp)
             (queue_of dp t) (dp_options dp) (timeout_of dp)) (dp_checkpoints dp)) attempt in
        let t' := set_heartbeat (set_attempt
          (set_run t (touch now (Some "enqueued") (Some (Some "")) None (ad_run t))) next) None in
        Some (<[id := t']> tasks, attempt + 1)
      else None
  | None => None
  end.

(** ** Publishing *)

(** What the queue server does during one publication: the calls may raise,
    with this text, and a call that raises may have stored the job
    ([rd_stored]). *)
Record Redis := mkRedis {
  rd_fetch_fails : bool;
  rd_status_fails : bool;
  rd_enqueue_fails : bool;
  rd_stored : bool;
  rd_error : string }.

Inductive PublishOutcome :=
| PSkipped | PActive | POrphaned | PFailed | PMissing | PDeferred | PExisting | PPublished.
Global Instance PublishOutcome_eq_dec : EqDecision PublishOutcome.
Proof. solve_decision. Defined.

Definition _publication_retry_delay (failures : Z) : Z :=
  let exponent := Z.max 0 (failures - 1) in
  if 5 <=? exponent then ADMIN_DISPATCH_RETRY_MAX_SECONDS
  else Z.min ADMIN_DISPATCH_RETRY_MAX_SECONDS (ADMIN_DISPATCH_RETRY_MIN_SECONDS * 2 ^ exponent).

Definition is_batch_operation (operation_type : string) : bool :=
  bool_decide (operation_type ∈ ["subscription-sync-batch"; "subscription-sync-batch-cleanup"]).

Definition probed (now : Z) (dp : dispatch) (error : string) : dispatch :=
  mkDispatch (dp_operation_type dp) (dp_scope_key dp) (dp_queue_name dp) (dp_options dp) (dp_state dp)
    (dp_failures dp) (dp_next_retry_at dp) (Some (now + ADMIN_DISPATCH_RECOVERY_INTERVAL_SECONDS))
    (Some error) (dp_attempt dp) (dp_rq_job_id dp) (dp_job_timeout dp) (dp_prepared_at dp) now
    (dp_published_at dp) (dp_recovered_from dp) (dp_checkpoints dp).

Definition deferred (now : Z) (dp : dispatch) (error : string) : dispatch :=
  let failures := dp_failures dp + 1 in
  mkDispatch (dp_operation_type dp) (dp_scope_key dp) (dp_queue_name dp) (dp_options dp) DispatchPending
    failures (Some (now + _publication_retry_delay failures)) (dp_next_probe_at dp)
    (Some (String.substring 0 1000 error))
    (dp_attempt dp) (dp_rq_job_id dp) (dp_job_timeout dp) (dp_prepared_at dp) now
    (dp_published_at dp) (dp_recovered_from dp) (dp_checkpoints dp).

Definition published (now : Z) (dp : dispatch) : dispatch :=
  mkDispatch (dp_operation_type dp) (dp_scope_key dp) (dp_queue_name dp) (dp_options dp)
    DispatchPublished (dp_failures dp) None (Some (now + ADMIN_DISPATCH_RECOVERY_INTERVAL_SECONDS)) None
    (dp_attempt dp) (dp_rq_job_id dp) (dp_job_timeout dp) (dp_prepared_at dp) now (Some now)
    (dp_recovered_from dp) (dp_checkpoints dp).

Definition publication_failed (now : Z) (dp : dispatch) : dispatch :=
  mkDispatch (dp_operation_type dp) (dp_scope_key dp) (dp_queue_name dp) (dp_options dp)
    DispatchFailed (dp_failures dp) (dp_next_retry_at dp) (dp_next_probe_at dp) (dp_last_error dp)
    (dp_attempt dp) (dp_rq_job_id dp) (dp_job_timeout dp) (dp_prepared_at dp) now (dp_published_at dp)
    (dp_recovered_from dp) (dp_checkpoints dp).

Definition publish_admin_operation (now : Z) (tasks : tasks_t) (rq : gmap (Z * Z) RqJob)
    (id attempt : Z) (r : Redis) : tasks_t * gmap (Z * Z) RqJob * PublishOutcome :=
  match current_attempt tasks id attempt with
  | None => (tasks, rq, PSkipped)
  | Some (t, dp) =>
      if negb (bool_decide (ad_rq_job_id t = dp_rq_job_id dp) && active t) then (tasks, rq, PSkipped)
      else if rd_fetch_fails r then
        (<[id := set_dispatch t (deferred now dp (rd_error r))]> tasks, rq, PDeferred)
      else
        match rq !! dp_rq_job_id dp with
        | Some job =>
            let status := rq_status job in
            if rd_status_fails r then
              (<[id := set_dispatch t (deferred now dp (rd_error r))]> tasks, rq, PDeferred)
            else if is_batch_operation (ad_operation_type t) && bool_decide (ad_status t = "running") &&
               negb (bool_decide (status ∈ ["queued"; "deferred"; "scheduled"])) then
              (<[id := set_dispatch t (probed now dp
                   ("RQ attempt " +:+ status +:+ " while durable batch is running; checking execution lease"))]>
                 tasks, rq, if heartbeat_fresh t now then PActive else POrphaned)
            else if negb (bool_decide (status ∈ ["queued"; "started"; "deferred"; "scheduled"])) then
              let message := "RQ attempt ended as " +:+ status +:+ " without a current TaskRun callback" in
              (<[id := set_dispatch
                   (set_run t (touch now (Some "failed") (Some (Some message))
                                 (Some (Some "rq_terminal_without_callback")) (ad_run t)))
                   (publication_failed now dp)]> tasks, rq, PFailed)
            else (<[id := set_dispatch t (published now dp)]> tasks, rq, PExisting)
        | None =>
            if bool_decide (dp_state dp = DispatchPublished) &&
               bool_decide (ad_status t ∈ ["running"; "paused"]) then
              (<[id := set_dispatch t (probed now dp "RQ record missing while durable attempt is active")]>
                 tasks, rq,
               if bool_decide (ad_status t = "paused") || heartbeat_fresh t now then PActive else PMissing)
            else
              let stored := <[dp_rq_job_id dp := mkRqJob "queued" id attempt]> rq in
              if rd_enqueue_fails r then
                (<[id := set_dispatch t (deferred now dp (rd_error r))]> tasks,
                 if rd_stored r then stored else rq, PDeferred)
              else (<[id := set_dispatch t (published now dp)]> tasks, stored, PPublished)
        end
  end.

(** ** Callbacks of a worker *)

(** [update_admin_task] of a registered attempt, with the changes a worker
    makes. *)
Definition update_admin_task (now : Z) (tasks : tasks_t) (id attempt : Z) (allowed : list string)
    (status : string) (error reason : option (option string)) : tasks_t * bool :=
  match current_attempt tasks id attempt with
  | Some (t, dp) =>
      if bool_decide (ad_status t ∈ allowed)
      then (<[id := set_run t (touch now (Some status) error reason (ad_run t))]> tasks, true)
      else (tasks, false)
  | None => (tasks, false)
  end.

Definition heartbeat_admin_operation (now : Z) (tasks : tasks_t) (id attempt : Z) : tasks_t * bool :=
  match current_attempt tasks id attempt with
  | Some (t, dp) =>
      if bool_decide (ad_status t = "running")
      then (<[id := set_heartbeat t (Some now)]> tasks, true) else (tasks, false)
  | None => (tasks, false)
  end.

(** [fence_current_admin_operation_transaction] for the delivery
    [(id, attempt)]; [Err] rolls the transaction back. *)
Definition fence_current_admin_operation_transaction (tasks : tasks_t) (id attempt : Z)
    : result AdminError task :=
  match current_attempt tasks id attempt with
  | Some (t, dp) => if active t then Ok t else Err AttemptRejected
  | None => Err AttemptRejected
  end.

Definition set_current_admin_operation_checkpoint (now : Z) (tasks : tasks_t) (id attempt : Z)
    (name : string) (checkpoint : option O) : result AdminError tasks_t :=
  fence_current_admin_operation_transaction tasks id attempt ≫= λ t,
  match ad_dispatch t with
  | None => Err AttemptRejected
  | Some dp =>
      let cps := match checkpoint with
                 | None => delete name (dp_checkpoints dp)
                 | Some c => <[name := c]> (dp_checkpoints dp) end in
      let dp' := with_updated_at (with_checkpoints dp cps) now in
      Ok (<[id := set_run (set_dispatch t dp') (touch now None None None (ad_run t))]> tasks)
  end.

Definition get_current_admin_operation_checkpoint (tasks : tasks_t) (id attempt : Z) (name : string)
    : result AdminError (option O) :=
  match current_attempt tasks id attempt with
  | Some (t, dp) => Ok (dp_checkpoints dp !! name)
  | None => Err AttemptRejected
  end.

Definition claim_admin_operation (now : Z) (tasks : tasks_t) (id attempt : Z)
    : result AdminError (tasks_t * (string * O)) :=
  match current_attempt tasks id attempt with
  | None => Err AttemptNotCurrent
  | Some (t, dp) =>
      guard_or (bool_decide (ad_status t ∈ ["enqueued"; "recovering"])) (CannotRunFrom (ad_status t))
        ≫= λ _,
      let operation_type := if bool_decide (ad_operation_type t = "") then dp_operation_type dp
                            else ad_operation_type t in
      _registered_spec operation_type (dp_scope_key dp) (dp_queue_name dp) ≫= λ spec,
      guard_or (bool_decide (ad_queue_name t ∈ sp_queue_names spec)) QueueNotRegistered ≫= λ _,
      Ok (<[id := set_heartbeat (set_run t (touch now (Some "running") None None (ad_run t)))
                    (Some now)]> tasks, (operation_type, dp_options dp))
  end.

(** ** Recovery of lost deliveries *)

Definition due_filter (now grace_seconds : Z) (state : PublicationState)
    (next : dispatch → option Z) (it : Z * task) : bool :=
  active it.2 &&
  match ad_dispatch it.2 with
  | Some dp =>
      (dp_prepared_at dp <=? now - Z.max 0 grace_seconds) && bool_decide (dp_state dp = state) &&
      match next dp with None => true | Some at_ => at_ <=? now end
  | None => false
  end.

(** [order_by(next.asc().nullsfirst(), prepared_at.asc(), id.asc())] *)
Definition due_before (next : dispatch → option Z) (a b : Z * task) : bool :=
  match ad_dispatch a.2, ad_dispatch b.2 with
  | Some p, Some q =>
      let rank x := match x with None => (0, 0) | Some z => (1, z) end in
      let '(n1, v1) := rank (next p) in
      let '(n2, v2) := rank (next q) in
      (n1 <? n2) || (n1 =? n2) && ((v1 <? v2) || (v1 =? v2) &&
        ((dp_prepared_at p <? dp_prepared_at q) || (dp_prepared_at p =? dp_prepared_at q) && (a.1 <? b.1)))
  | _, _ => false
  end.

Definition attempt_number (t : task) : Z :=
  match ad_dispatch t with Some dp => dp_attempt dp | None => 0 end.

Definition select_due_admin_dispatches (now : Z) (tasks : tasks_t) (grace_seconds limit : Z)
    (include_published : bool) : list (Z * Z) :=
  let bounded_limit := Z.to_nat (Z.max 1 (Z.min limit ADMIN_DISPATCH_RECOVERY_LIMIT)) in
  let pending := select_rows (due_filter now grace_seconds DispatchPending dp_next_retry_at)
                   (due_before dp_next_retry_at) 0 bounded_limit (map_to_list tasks) in
  let due := (λ it, (it.1, attempt_number it.2)) <$> pending in
  let remaining := (bounded_limit - length due)%nat in
  if include_published && (0 <? remaining)%nat then
    (due ++ ((λ it, (it.1, attempt_number it.2)) <$>
      select_rows (due_filter now grace_seconds DispatchPublished dp_next_probe_at)
        (due_before dp_next_probe_at) 0 remaining (map_to_list tasks)))%list
  else due.

(** One candidate of [recover_admin_operation_dispatches]. *)
Definition recover_candidate (now : Z) (tasks : tasks_t) (rq : gmap (Z * Z) RqJob)
    (exec : gmap string Z) (r : Redis) (candidate : Z * Z)
    : tasks_t * gmap (Z * Z) RqJob * PublishOutcome :=
  let '(id, attempt) := candidate in
  let '(tasks1, rq1, outcome) := publish_admin_operation now tasks rq id attempt r in
  if bool_decide (outcome ∈ [PMissing; POrphaned]) then
    match prepare_admin_operation_recovery now tasks1 exec id attempt now with
    | Some (tasks2, attempt') => publish_admin_operation now tasks2 rq1 id attempt' r
    | None => (tasks1, rq1, PActive)
    end
  else (tasks1, rq1, outcome).

(** Its loop. *)
Definition recover_next (now : Z) (exec : gmap string Z) (r : Redis)
    (acc : tasks_t * gmap (Z * Z) RqJob * list PublishOutcome) (candidate : Z * Z)
    : tasks_t * gmap (Z * Z) RqJob * list PublishOutcome :=
  let '(tasks, rq, outcomes) := acc in
  let '(tasks', rq', outcome) := recover_candidate now tasks rq exec r candidate in
  (tasks', rq', (outcomes ++ [outcome])%list).

Definition recover_admin_operation_dispatches (now : Z) (tasks : tasks_t) (rq : gmap (Z * Z) RqJob)
    (exec : gmap string Z) (r : Redis) (grace_seconds limit : Z) (include_published : bool)
    : tasks_t * gmap (Z * Z) RqJob * list PublishOutcome :=
  foldl (recover_next now exec r) (tasks, rq, [])
    (select_due_admin_dispatches now tasks grace_seconds limit include_published).

(** ** The action policy *)

(** [decide("admin", ..)]: the test of the dispatch record. *)
Definition dispatch_valid (t : task) : bool :=
  match ad_dispatch t with
  | Some dp =>
      match _registered_spec (ad_operation_type t) (dp_scope_key dp) (dp_queue_name dp) with
      | Ok _ => bool_decide (dp_operation_type dp = ad_operation_type t) &&
                (dp_attempt dp =? ad_attempts t) && (0 <? ad_attempts t) &&
                bool_decide (dp_rq_job_id dp = ad_rq_job_id t)
      | Err _ => false
      end
  | None => false
  end.

(** [global] is [is_global_subscription_batch]. *)
Definition decide_admin (t : task) (global : bool) : policy :=
  let st := ad_status t in
  let valid := dispatch_valid t in
  let p : policy := (∅, all_because "operation_not_supported") in
  let p := if bool_decide (ad_operation_type t = "subscription-sync-batch")
           then when (valid && global && bool_decide (st ∈ ACTIVE)) (allow "cancel")
                  (∅, all_because "batch_results_preserved")
           else if valid
           then if bool_decide (st ∈ ["failed"; "stale"; "cancelled"]) then allow "retry" p
                else because "retry" "invalid_task_state" p
           else because "retry" "legacy_operation_read_only" p in
  when (bool_decide (t_attention (ad_run t) ∈ ["open"; "resolved"])) (allow "acknowledge") p.

End Operations.
