(* ===== verification/AdminRuntime.v ===== *)
(** * Administrator workers

    The worker entry of [app/jobs/admin_operations.py]
    ([_run_registered_admin_operation_delivery]) around the operations of
    [AdminOperations]: a delivered attempt takes the execution lease of its
    scope, is claimed, runs its handler, whose transactions are fenced, and
    ends in a terminal status or a hand-off.  Workers die at any point, lose
    the session that holds their lease without noticing, and run beside
    retries, recovery, publication and cancellation.

    [w_effects] records the committed transactions of handlers. *)

From stdpp Require Import base gmap strings list relations.
From S2P Require Import Prelude Keyset TaskRuns AdminOperations.

Open Scope string_scope.
Open Scope Z_scope.

(** Where a worker stands with its attempt. *)
Inductive Position :=
| Delivered (id attempt : Z)
| Leased (id attempt : Z)
| Executing (id attempt : Z)
| HandedOff.

Record Effect := mkEffect { ef_worker : Z; ef_task : Z; ef_attempt : Z; ef_scope : string }.
Global Instance Effect_eq_dec : EqDecision Effect.
Proof. solve_decision. Defined.

Record AWorld (O : Type) := mkAWorld {
  w_now : Z;
  w_tasks : gmap Z (AdminTask O);
  (** the session holding the execution lease of a scope *)
  w_exec : gmap string Z;
  w_rq : gmap (Z * Z) RqJob;
  w_workers : gmap Z Position;
  w_effects : list Effect }.
Arguments mkAWorld {O}.
Arguments w_now {O}.
Arguments w_tasks {O}.
Arguments w_exec {O}.
Arguments w_rq {O}.
Arguments w_workers {O}.
Arguments w_effects {O}.

Section Runtime.
Context {O : Type}.

Abbreviation world := (AWorld O).
Abbreviation task := (AdminTask O).

Definition set_tasks (w : world) (x : gmap Z task) : world :=
  mkAWorld (w_now w) x (w_exec w) (w_rq w) (w_workers w) (w_effects w).
Definition set_rq (w : world) (x : gmap (Z * Z) RqJob) : world :=
  mkAWorld (w_now w) (w_tasks w) (w_exec w) x (w_workers w) (w_effects w).
Definition set_exec (w : world) (x : gmap string Z) : world :=
  mkAWorld (w_now w) (w_tasks w) x (w_rq w) (w_workers w) (w_effects w).
Definition move (w : world) (worker : Z) (p : Position) : world :=
  mkAWorld (w_now w) (w_tasks w) (w_exec w) (w_rq w) (<[worker := p]> (w_workers w)) (w_effects w).
Definition record (w : world) (e : Effect) : world :=
  mkAWorld (w_now w) (w_tasks w) (w_exec w) (w_rq w) (w_workers w) ((w_effects w ++ [e])%list).

(** The worker is gone; the database drops the locks of its sessions. *)
Definition leave (w : world) (worker : Z) : world :=
  mkAWorld (w_now w) (w_tasks w) (filter (λ kv, kv.2 ≠ worker) (w_exec w)) (w_rq w)
    (delete worker (w_workers w)) (w_effects w).

(** [_ACTIVE_ADMIN_STATUSES] as the worker writes them out. *)
Definition CALLBACK_STATUSES : list string := ["enqueued"; "running"; "paused"; "recovering"].

(** The status part of [cancel_batch]. *)
Definition cancel_task (now : Z) (tasks : gmap Z task) (id : Z) : option (gmap Z task) :=
  match tasks !! id with
  | Some t =>
      if bool_decide (ad_status t = "complete") then None
      else Some (<[id := set_run t (touch now (Some "cancelled") None None (ad_run t))]> tasks)
  | None => None
  end.

Inductive astep : world → world → Prop :=
| a_tick w n : 0 ≤ n →
    astep w (mkAWorld (w_now w + n) (w_tasks w) (w_exec w) (w_rq w) (w_workers w) (w_effects w))
(** the control plane *)
| a_prepare w q fresh tasks n : w_tasks w !! fresh = None →
    prepare_admin_operation (w_now w) (w_tasks w) q fresh = Ok (tasks, n) →
    astep w (set_tasks w tasks)
| a_retry w id scan tasks n :
    prepare_admin_operation_retry (w_now w) (w_tasks w) (w_exec w) id scan = Ok (tasks, n) →
    astep w (set_tasks w tasks)
| a_publish w id attempt r tasks rq outcome :
    publish_admin_operation (w_now w) (w_tasks w) (w_rq w) id attempt r = (tasks, rq, outcome) →
    astep w (set_rq (set_tasks w tasks) rq)
| a_recover w id attempt checked_at tasks n : checked_at ≤ w_now w →
    prepare_admin_operation_recovery (w_now w) (w_tasks w) (w_exec w) id attempt checked_at =
      Some (tasks, n) →
    astep w (set_tasks w tasks)
| a_cancel w id tasks : cancel_task (w_now w) (w_tasks w) id = Some tasks → astep w (set_tasks w tasks)
(** the queue *)
| a_rq_status w k job status : w_rq w !! k = Some job →
    astep w (set_rq w (<[k := mkRqJob status (rq_task job) (rq_attempt job)]> (w_rq w)))
| a_rq_expire w k : astep w (set_rq w (delete k (w_rq w)))
| a_deliver w k job worker : w_rq w !! k = Some job → rq_status job = "queued" →
    w_workers w !! worker = None →
    astep w (move (set_rq w (<[k := mkRqJob "started" (rq_task job) (rq_attempt job)]> (w_rq w)))
               worker (Delivered (rq_task job) (rq_attempt job)))
(** the worker *)
| a_lease w worker id attempt t scope : w_workers w !! worker = Some (Delivered id attempt) →
    w_tasks w !! id = Some t → _scope_for_task t = Some scope → scope ≠ "" →
    w_exec w !! scope = None →
    astep w (move (set_exec w (<[scope := worker]> (w_exec w))) worker (Leased id attempt))
| a_claim w worker id attempt tasks args : w_workers w !! worker = Some (Leased id attempt) →
    claim_admin_operation (w_now w) (w_tasks w) id attempt = Ok (tasks, args) →
    astep w (move (set_tasks w tasks) worker (Executing id attempt))
| a_commit w worker id attempt t dp : w_workers w !! worker = Some (Executing id attempt) →
    fence_current_admin_operation_transaction (w_tasks w) id attempt = Ok t →
    ad_dispatch t = Some dp →
    astep w (record w (mkEffect worker id attempt (dp_scope_key dp)))
| a_checkpoint w worker id attempt name cp tasks :
    w_workers w !! worker = Some (Executing id attempt) →
    set_current_admin_operation_checkpoint (w_now w) (w_tasks w) id attempt name cp = Ok tasks →
    astep w (set_tasks w tasks)
| a_progress w worker id attempt tasks :
    w_workers w !! worker = Some (Executing id attempt) →
    update_admin_task (w_now w) (w_tasks w) id attempt _ACTIVE_ADMIN_STATUSES "running" None None =
      (tasks, true) →
    astep w (set_tasks w tasks)
| a_heartbeat w worker id attempt tasks b :
    w_workers w !! worker = Some (Executing id attempt) →
    heartbeat_admin_operation (w_now w) (w_tasks w) id attempt = (tasks, b) →
    astep w (set_tasks w tasks)
| a_handoff w worker id attempt options delay t dp tasks n :
    w_workers w !! worker = Some (Executing id attempt) →
    fence_current_admin_operation_transaction (w_tasks w) id attempt = Ok t →
    ad_dispatch t = Some dp →
    prepare_admin_operation_handoff (w_now w) (w_tasks w) id attempt options delay = Some (tasks, n) →
    astep w (move (set_tasks (record w (mkEffect worker id attempt (dp_scope_key dp))) tasks)
               worker HandedOff)
| a_finish w worker id attempt status error reason tasks b :
    w_workers w !! worker = Some (Executing id attempt) → status ∈ ["complete"; "failed"] →
    update_admin_task (w_now w) (w_tasks w) id attempt CALLBACK_STATUSES status error reason =
      (tasks, b) →
    astep w (leave (set_tasks w tasks) worker)
| a_leave w worker : astep w (leave w worker)
(** the session that holds the lease is lost, the worker runs on *)
| a_lose_lease w scope : astep w (set_exec w (delete scope (w_exec w))).

(** At the start there are no deliveries, and at most rows of older versions,
    without a dispatch record, one active per scope. *)
Record started_up (w : world) : Prop := {
  su_legacy id t : w_tasks w !! id = Some t → ad_dispatch t = None;
  su_owner i j t u scope : w_tasks w !! i = Some t → w_tasks w !! j = Some u →
    active t = true → active u = true →
    _scope_for_task t = Some scope → _scope_for_task u = Some scope → i = j;
  su_workers : w_workers w = ∅;
  su_rq : w_rq w = ∅;
  su_effects : w_effects w = [] }.

Definition reached (w : world) : Prop := ∃ w0, started_up w0 ∧ rtc astep w0 w.

End Runtime.
