(* ===== verification/AdminRuntimeFacts.v ===== *)
(** * The invariant of administrator operations

    Well-formed rows, one active task per scope, one worker per attempt, and
    the order of the handlers' transactions, kept by every step of
    [AdminRuntime.astep]. *)

From stdpp Require Import base gmap strings list relations.
From S2P Require Import Prelude Keyset TaskRuns AdminOperations AdminRuntime.

Open Scope string_scope.
Open Scope Z_scope.

(** ** Updates of task runs *)

Lemma run_status_word now u s t :
  t_status (apply_status now u s t) = normalize_task_status (Some s).
Proof. unfold apply_status. repeat case_match; done. Qed.

Lemma apply_status_attempts now u s t : t_attempts (apply_status now u s t) = t_attempts t.
Proof. unfold apply_status. repeat case_match; done. Qed.

Lemma touch_status now s e r t :
  t_status (touch now s e r t) = match s with Some s => normalize_task_status (Some s) | None => t_status t end.
Proof. unfold touch, update_task. cbn. destruct s; [|done]. by rewrite run_status_word. Qed.

Lemma touch_attempts now s e r t : t_attempts (touch now s e r t) = t_attempts t.
Proof. unfold touch, update_task. cbn. destruct s; [|done]. by rewrite apply_status_attempts. Qed.

Lemma normal_enqueued : normalize_task_status (Some "enqueued") = "enqueued".
Proof. reflexivity. Qed.
Lemma normal_running : normalize_task_status (Some "running") = "running".
Proof. reflexivity. Qed.
Lemma normal_failed : normalize_task_status (Some "failed") = "failed".
Proof. reflexivity. Qed.
Lemma normal_complete : normalize_task_status (Some "complete") = "complete".
Proof. reflexivity. Qed.
Lemma normal_cancelled : normalize_task_status (Some "cancelled") = "cancelled".
Proof. reflexivity. Qed.
Global Hint Rewrite touch_status touch_attempts normal_enqueued normal_running normal_failed
  normal_complete normal_cancelled : gallery.

(** ** The registry *)

Lemma registry_distinct : NoDup (sp_operation_type <$> ADMIN_OPERATION_REGISTRY).
Proof. apply (bool_decide_unpack _). vm_compute. exact I. Qed.

Lemma find_spec_in spec : spec ∈ ADMIN_OPERATION_REGISTRY ↔ find_spec (sp_operation_type spec) = Some spec.
Proof.
  unfold find_spec. split.
  - intros H. destruct (List.find _ _) as [s|] eqn:E.
    + apply List.find_some in E as [Hs E]. apply bool_decide_eq_true in E. f_equal.
      apply list_elem_of_lookup in H as [i Hi]. apply list_elem_of_In, list_elem_of_lookup in Hs as [j Hj].
      assert (i = j) as <-; [|congruence]. eapply NoDup_lookup; [apply registry_distinct|by rewrite list_lookup_fmap, Hi|].
      by rewrite list_lookup_fmap, Hj; cbn; rewrite E.
    + apply list_elem_of_In, (List.find_none _ _ E) in H. by rewrite bool_decide_eq_true_2 in H.
  - by intros [? _]%List.find_some; apply list_elem_of_In.
Qed.

(** The list of hidden operation types agrees with the access check: an
    operation other than a member's subscription batch is hidden from a user
    exactly when its detail and controls are refused to that user. *)
Theorem hidden_iff_refused user operation_type : operation_type ≠ "subscription-sync-batch" →
  operation_type ∈ inaccessible_admin_operation_types user ↔
  is_Some (require_admin_operation_access user operation_type).
Proof.
  intros Hb. unfold inaccessible_admin_operation_types, inaccessible_admin_operation_types_for_permissions.
  assert (∀ spec, spec ∈ ADMIN_OPERATION_REGISTRY →
    sp_required_permission spec ∈ admin_operation_permissions_for_user user ↔
    can_access_admin_operation user (sp_operation_type spec) = true) as Hacc.
  { intros spec Hin. unfold can_access_admin_operation, admin_operation_permissions_for_user, admin_operation_required_permission.
    rewrite (proj1 (find_spec_in _) Hin). cbn [fmap option_fmap option_map].
    destruct (us_is_admin user); cbn [orb]; [|by rewrite bool_decide_eq_true].
    split; [done|]. intros _. apply elem_of_list_to_set. by apply (list_elem_of_fmap_2 sp_required_permission). }
  rewrite list_elem_of_fmap. unfold require_admin_operation_access. split.
  - intros (spec & -> & Hin). rewrite list_elem_of_In, List.filter_In, <-list_elem_of_In, andb_true_iff in Hin.
    destruct Hin as (Hin & Hn & _). specialize (Hacc _ Hin).
    unfold admin_operation_required_permission. rewrite (proj1 (find_spec_in _) Hin). cbn.
    destruct (can_access_admin_operation user (sp_operation_type spec)); [|by eexists].
    by rewrite bool_decide_eq_true_2 in Hn by by apply Hacc.
  - intros [p Hp]. unfold admin_operation_required_permission in Hp.
    destruct (find_spec operation_type) as [spec|] eqn:E; [|done]. cbn in Hp.
    assert (sp_operation_type spec = operation_type) as <-.
    { apply List.find_some in E as [_ E]. by apply bool_decide_eq_true in E. }
    exists spec. split; [done|]. apply find_spec_in in E. specialize (Hacc _ E).
    rewrite list_elem_of_In, List.filter_In, <-list_elem_of_In. split; [done|].
    rewrite (bool_decide_eq_false_2 (_ = _)) by done.
    destruct (can_access_admin_operation user (sp_operation_type spec)); [done|].
    rewrite bool_decide_eq_false_2; [done|]. intros H%Hacc. done.
Qed.

Lemma hidden_iff_refused_witness :
  "admin-clear" ∈ inaccessible_admin_operation_types (mkUser false {["tasks"]}) ∧
  ~ "admin-curation-backfill" ∈ inaccessible_admin_operation_types (mkUser false {["curation"]}).
Proof.
  split.
  - apply (hidden_iff_refused (mkUser false {["tasks"]}) "admin-clear"); [discriminate|]. vm_compute. eexists. reflexivity.
  - intros H. apply (hidden_iff_refused (mkUser false {["curation"]}) "admin-curation-backfill") in H; [|discriminate].
    vm_compute in H. destruct H as [x H]. discriminate H.
Defined.

Section Facts.
Context {O : Type}.

Abbreviation world := (AWorld O).
Abbreviation task := (AdminTask O).
Abbreviation dispatch := (Dispatch O).
Abbreviation tasks_t := (gmap Z (AdminTask O)).

Definition STATUS_WORDS : list string :=
  ["enqueued"; "running"; "paused"; "recovering"; "complete"; "failed"; "cancelled"; "stale"].

Definition waiting (t : task) : Prop := ad_status t = "enqueued" ∨ ad_status t = "recovering".

(** ** Rows *)

Record dispatch_ok (id : Z) (t : task) (dp : dispatch) : Prop := {
  dk_attempts : ad_attempts t = dp_attempt dp;
  dk_positive : 1 ≤ dp_attempt dp;
  dk_rq : ad_rq_job_id t = dp_rq_job_id dp;
  dk_rq_id : dp_rq_job_id dp = (id, dp_attempt dp);
  dk_spec : ∃ spec, _registered_spec (ad_operation_type t) (dp_scope_key dp) (dp_queue_name dp) = Ok spec;
  dk_operation : dp_operation_type dp = ad_operation_type t;
  dk_queue : ad_queue_name t = dp_queue_name dp;
  dk_timeout : 0 < dp_job_timeout dp;
  dk_status : ad_status t ∈ STATUS_WORDS }.

Definition row_ok (id : Z) (t : task) : Prop :=
  ∀ dp, ad_dispatch t = Some dp → dispatch_ok id t dp.

(** How a row may change: attempts only grow, and within an attempt a task
    neither becomes active nor waiting again. *)
Definition evolves (t t' : task) : Prop :=
  _scope_for_task t' = _scope_for_task t ∧ attempt_number t ≤ attempt_number t' ∧
  (attempt_number t' = attempt_number t →
   (active t' = true → active t = true) ∧ (waiting t' → waiting t)).

(** [t'] may replace row [id]. *)
Record admissible (tasks : tasks_t) (id : Z) (t t' : task) : Prop := {
  am_at : tasks !! id = Some t;
  am_evolves : evolves t t';
  am_row : row_ok id t → row_ok id t';
  am_owner : active t' = true → active t = true ∨
    ∀ j u scope, j ≠ id → tasks !! j = Some u → active u = true →
      _scope_for_task t = Some scope → _scope_for_task u ≠ Some scope }.

Definition updated (tasks tasks' : tasks_t) : Prop :=
  tasks' = tasks ∨ ∃ id t t', tasks' = <[id := t']> tasks ∧ admissible tasks id t t'.

Lemma evolves_refl (t : task) : evolves t t.
Proof. split_and!; [done|lia|]. done. Qed.

Lemma active_status (t : task) : active t = true ↔ ad_status t ∈ _ACTIVE_ADMIN_STATUSES.
Proof. unfold active. apply bool_decide_eq_true. Qed.

Lemma scope_set_run (t : task) r : _scope_for_task (set_run t r) = _scope_for_task t.
Proof. done. Qed.

Lemma current_attempt_spec (tasks : tasks_t) id attempt t dp :
  current_attempt tasks id attempt = Some (t, dp) ↔
  tasks !! id = Some t ∧ ad_dispatch t = Some dp ∧ dp_attempt dp = attempt.
Proof.
  unfold current_attempt. destruct (tasks !! id) as [t'|]; [|naive_solver].
  destruct (ad_dispatch t') as [dp'|] eqn:E; [|naive_solver].
  destruct (Z.eqb_spec (dp_attempt dp') attempt); naive_solver.
Qed.

Lemma attempt_number_dispatch (t : task) dp : ad_dispatch t = Some dp → attempt_number t = dp_attempt dp.
Proof. unfold attempt_number. by intros ->. Qed.

(** *** The two shapes of change *)

(** The same attempt with another status, heartbeat or record. *)
Lemma admissible_same (tasks : tasks_t) id t t' dp dp' :
  tasks !! id = Some t → ad_dispatch t = Some dp → ad_dispatch t' = Some dp' →
  dp_attempt dp' = dp_attempt dp → dp_scope_key dp' = dp_scope_key dp →
  dp_rq_job_id dp' = dp_rq_job_id dp → dp_queue_name dp' = dp_queue_name dp →
  dp_operation_type dp' = dp_operation_type dp → dp_job_timeout dp' = dp_job_timeout dp →
  ad_attempts t' = ad_attempts t → ad_rq_job_id t' = ad_rq_job_id t →
  ad_operation_type t' = ad_operation_type t → ad_queue_name t' = ad_queue_name t →
  (ad_status t' = ad_status t ∨
   (ad_status t' ∈ STATUS_WORDS ∧ ¬ waiting t' ∧ (active t' = true → active t = true))) →
  admissible tasks id t t'.
Proof.
  intros Ht Hd Hd' E1 E2 E3 E4 E5 E6 E7 E8 E9 E10 Hs.
  assert (attempt_number t' = attempt_number t) as En.
  { by rewrite (attempt_number_dispatch _ _ Hd), (attempt_number_dispatch _ _ Hd'). }
  assert (active t' = true → active t = true) as Hact.
  { destruct Hs as [Hs|(_ & _ & ?)]; [|done]. unfold active. by rewrite Hs. }
  split; [done| | |by intros H; left; apply Hact].
  - split_and!; [|lia|].
    + unfold _scope_for_task. by rewrite Hd, Hd', E2.
    + intros _. split; [done|]. destruct Hs as [Hs|(_ & Hn & _)]; [|done].
      unfold waiting. by rewrite Hs.
  - intros Hrow dp0 [= <-]%(eq_trans (eq_sym Hd')). destruct (Hrow _ Hd) as [K1 K2 K3 K4 K5 K6 K7 K8 K9].
    split; try congruence.
    + by rewrite E9, E2, E4.
    + destruct Hs as [->|[? _]]; done.
Qed.

(** A new attempt. *)
Lemma admissible_next (tasks : tasks_t) id t t' dp next :
  tasks !! id = Some t → ad_dispatch t = Some dp → ad_dispatch t' = Some next →
  dp_attempt dp < dp_attempt next → dp_scope_key next = dp_scope_key dp →
  dp_rq_job_id next = deterministic_admin_rq_job_id id (dp_attempt next) →
  ad_attempts t' = dp_attempt next → ad_rq_job_id t' = dp_rq_job_id next →
  ad_operation_type t' = ad_operation_type t → ad_queue_name t' = ad_queue_name t →
  dp_operation_type next = ad_operation_type t →
  (row_ok id t → dp_queue_name next = dp_queue_name dp ∧ dp_job_timeout next = dp_job_timeout dp) →
  ad_status t' = "enqueued" →
  (active t = true ∨ ∀ j u scope, j ≠ id → tasks !! j = Some u → active u = true →
      _scope_for_task t = Some scope → _scope_for_task u ≠ Some scope) →
  admissible tasks id t t'.
Proof.
  intros Ht Hd Hd' Hlt E2 E3 E4 E5 E6 E7 E8 Hq Hs Hown.
  split; [done| | |by intros _].
  - split_and!.
    + unfold _scope_for_task. by rewrite Hd, Hd', E2.
    + rewrite (attempt_number_dispatch _ _ Hd), (attempt_number_dispatch _ _ Hd'). lia.
    + rewrite (attempt_number_dispatch _ _ Hd), (attempt_number_dispatch _ _ Hd'). lia.
  - intros Hrow dp0 [= <-]%(eq_trans (eq_sym Hd')). destruct (Hrow _ Hd) as [K1 K2 K3 K4 K5 K6 K7 K8 K9].
    destruct (Hq Hrow) as [Q1 Q2]. split; try congruence; try lia.
    + rewrite E3. unfold deterministic_admin_rq_job_id. f_equal. lia.
    + by rewrite E6, E2, Q1.
    + rewrite Hs. unfold STATUS_WORDS. set_solver.
Qed.

(** ** The operations *)

Lemma registered_queue op scope q spec : _registered_spec op scope q = Ok spec → q ≠ "".
Proof.
  unfold _registered_spec. destruct (find_spec op) as [s|] eqn:E; [|done]. intros H ->. res_simpl.
  apply List.find_some in E as [Hin _].
  assert (forallb (λ s, negb (bool_decide ("" ∈ sp_queue_names s))) ADMIN_OPERATION_REGISTRY = true)
    as Hall by (vm_compute; reflexivity).
  rewrite forallb_forall in Hall. apply Hall in Hin.
  destruct (bool_decide _) eqn:E; [done|congruence].
Qed.

Lemma row_queue id (t : task) dp : row_ok id t → ad_dispatch t = Some dp →
  queue_of dp t = dp_queue_name dp ∧ timeout_of dp = dp_job_timeout dp.
Proof.
  intros Hrow Hd. destruct (Hrow _ Hd) as [_ _ _ _ [spec Hs] _ _ Ht _]. split.
  - unfold queue_of. by rewrite bool_decide_eq_true_2 by eauto using registered_queue.
  - unfold timeout_of. destruct (Z.eqb_spec (dp_job_timeout dp) 0); [lia|done].
Qed.

Lemma no_owner (tasks : tasks_t) scope exclude :
  _active_scope_owner tasks scope exclude = None →
  ∀ j u, tasks !! j = Some u → active u = true → exclude ≠ Some j → _scope_for_task u ≠ Some scope.
Proof.
  unfold _active_scope_owner. intros Hn j u Hu Ha He Hs.
  pose proof (List.find_none _ _ Hn (j, u)) as H. cbn in H.
  rewrite bool_decide_eq_true_2 in H by done. assert (true = false); [|done]. apply H.
  rewrite <-list_elem_of_In, order_by_perm, list_elem_of_In, List.filter_In, <-list_elem_of_In, elem_of_map_to_list.
  cbn. by rewrite Ha, bool_decide_eq_false_2.
Qed.

Lemma retry_updated now (tasks : tasks_t) exec id scan tasks' n :
  prepare_admin_operation_retry now tasks exec id scan = Ok (tasks', n) → updated tasks tasks'.
Proof.
  unfold prepare_admin_operation_retry. destruct (tasks !! id) as [t|] eqn:Ht; [|done].
  destruct (ad_dispatch t) as [dp|] eqn:Hd; [|done]. intros H. res_simpl.
  destruct (_active_scope_owner _ _ _) as [[]|] eqn:Ho; [done|]. res_simpl. right.
  eexists id, t, _. split; [done|].
  eapply admissible_next; try done; cbn; autorewrite with gallery; try done.
  - lia.
  - intros Hrow. exact (row_queue id t dp Hrow Hd).
  - right. intros j u scope Hj Hu Ha Hsc.
    unfold _scope_for_task in Hsc. rewrite Hd in Hsc. injection Hsc as <-.
    eapply no_owner; [done|exact Hu|done|congruence].
Qed.

Lemma handoff_updated now (tasks : tasks_t) id attempt options delay tasks' n :
  prepare_admin_operation_handoff now tasks id attempt options delay = Some (tasks', n) →
  updated tasks tasks'.
Proof.
  unfold prepare_admin_operation_handoff.
  destruct (current_attempt tasks id attempt) as [[t dp]|] eqn:Hc; [|done].
  apply current_attempt_spec in Hc as (Ht & Hd & <-).
  destruct (active t) eqn:Ha; [|done]. intros [= <- _]. right. eexists id, t, _. split; [done|].
  eapply admissible_next; try done; cbn; try done; [lia|by left].
Qed.

Lemma recovery_updated now (tasks : tasks_t) exec id attempt checked tasks' n :
  prepare_admin_operation_recovery now tasks exec id attempt checked = Some (tasks', n) →
  updated tasks tasks'.
Proof.
  unfold prepare_admin_operation_recovery.
  destruct (current_attempt tasks id attempt) as [[t dp]|] eqn:Hc; [|done].
  apply current_attempt_spec in Hc as (Ht & Hd & <-).
  destruct (_ && _) eqn:Hg; [|done]. rewrite !andb_true_iff, !bool_decide_eq_true in Hg.
  destruct Hg as [[_ Hrun] _]. intros [= <- _]. right. eexists id, t, _. split; [done|].
  eapply admissible_next; try done; cbn; try done.
  - lia.
  - intros Hrow. exact (row_queue id t dp Hrow Hd).
  - left. apply active_status. rewrite Hrun. unfold _ACTIVE_ADMIN_STATUSES. set_solver.
Qed.

(** Any other record of the same attempt. *)
Lemma set_dispatch_updated (tasks : tasks_t) id t dp dp' :
  tasks !! id = Some t → ad_dispatch t = Some dp →
  dp_attempt dp' = dp_attempt dp → dp_scope_key dp' = dp_scope_key dp →
  dp_rq_job_id dp' = dp_rq_job_id dp → dp_queue_name dp' = dp_queue_name dp →
  dp_operation_type dp' = dp_operation_type dp → dp_job_timeout dp' = dp_job_timeout dp →
  updated tasks (<[id := set_dispatch t dp']> tasks).
Proof.
  intros Ht Hd ??????. right. eexists id, t, _. split; [done|].
  eapply admissible_same; try done. by left.
Qed.

(** A status that ends an attempt or marks it running. *)
Lemma set_status_updated now (tasks : tasks_t) id t dp t' s e r :
  tasks !! id = Some t → ad_dispatch t = Some dp → ad_dispatch t' = Some dp →
  ad_rq_job_id t' = ad_rq_job_id t → ad_operation_type t' = ad_operation_type t →
  ad_queue_name t' = ad_queue_name t → ad_run t' = touch now (Some s) e r (ad_run t) →
  (s ∈ ["failed"; "complete"; "cancelled"] ∨ s = "running" ∧ active t = true) →
  updated tasks (<[id := t']> tasks).
Proof.
  intros Ht Hd Hd' E1 E2 E3 Hr Hs. right. eexists id, t, _. split; [done|].
  assert (ad_status t' = s) as Hst.
  { unfold ad_status. rewrite Hr, touch_status.
    destruct Hs as [Hs|[-> _]]; [|done]. set_unfold in Hs. naive_solver. }
  eapply admissible_same; try done.
  - unfold ad_attempts. by rewrite Hr, touch_attempts.
  - right. unfold waiting, STATUS_WORDS. rewrite Hst.
    destruct Hs as [Hs|[-> Ha]].
    + assert (active t' = false) as Hna.
      { unfold active. rewrite Hst. set_unfold in Hs. by destruct_or? Hs; subst. }
      split_and!; [set_solver| |congruence]. set_unfold in Hs. intros [E|E]; destruct_or? Hs; congruence.
    + split_and!; [set_solver| |done]. by intros [?|?].
Qed.

Lemma publish_updated now (tasks : tasks_t) rq id attempt r tasks' rq' o :
  publish_admin_operation now tasks rq id attempt r = (tasks', rq', o) → updated tasks tasks'.
Proof.
  unfold publish_admin_operation.
  destruct (current_attempt tasks id attempt) as [[t dp]|] eqn:Hc; [|intros [= <- _ _]; by left].
  apply current_attempt_spec in Hc as (Ht & Hd & <-).
  destruct (negb _); [intros [= <- _ _]; by left|].
  destruct (rd_fetch_fails r); [intros [= <- _ _]; by eapply set_dispatch_updated|].
  destruct (rq !! _) as [job|].
  - destruct (rd_status_fails r); [intros [= <- _ _]; by eapply set_dispatch_updated|].
    destruct (_ && _ && _); [intros [= <- _ _]; by eapply set_dispatch_updated|].
    destruct (negb _); [|intros [= <- _ _]; by eapply set_dispatch_updated].
    intros [= <- _ _]. right. eexists id, t, _. split; [done|].
    eapply admissible_same; try done.
    + right. unfold waiting, active, ad_status. cbn [ad_run set_run set_dispatch set_heartbeat]. rewrite touch_status, normal_failed.
      unfold STATUS_WORDS, _ACTIVE_ADMIN_STATUSES. split_and!; [set_solver|by intros [?|?]|done].
  - destruct (_ && _); [intros [= <- _ _]; by eapply set_dispatch_updated|].
    destruct (rd_enqueue_fails r); intros [= <- _ _]; by eapply set_dispatch_updated.
Qed.

Lemma update_task_updated now (tasks : tasks_t) id attempt allowed s e r tasks' b :
  (s ∈ ["failed"; "complete"; "cancelled"] ∨ s = "running" ∧ allowed = _ACTIVE_ADMIN_STATUSES) →
  update_admin_task now tasks id attempt allowed s e r = (tasks', b) → updated tasks tasks'.
Proof.
  intros Hs. unfold update_admin_task.
  destruct (current_attempt tasks id attempt) as [[t dp]|] eqn:Hc; [|intros [= <- _]; by left].
  apply current_attempt_spec in Hc as (Ht & Hd & _).
  destruct (bool_decide _) eqn:Ha; [|intros [= <- _]; by left]. intros [= <- _].
  eapply set_status_updated; try done. apply bool_decide_eq_true in Ha.
  destruct Hs as [?|[? ->]]; [by left|right]. split; [done|]. by apply active_status.
Qed.

Lemma heartbeat_updated now (tasks : tasks_t) id attempt tasks' b :
  heartbeat_admin_operation now tasks id attempt = (tasks', b) → updated tasks tasks'.
Proof.
  unfold heartbeat_admin_operation.
  destruct (current_attempt tasks id attempt) as [[t dp]|] eqn:Hc; [|intros [= <- _]; by left].
  apply current_attempt_spec in Hc as (Ht & Hd & _).
  destruct (bool_decide _); [|intros [= <- _]; by left]. intros [= <- _].
  right. eexists id, t, _. split; [done|]. eapply admissible_same; try done. by left.
Qed.

Lemma fence_spec (tasks : tasks_t) id attempt t :
  fence_current_admin_operation_transaction tasks id attempt = Ok t ↔
  tasks !! id = Some t ∧ active t = true ∧ ∃ dp, ad_dispatch t = Some dp ∧ dp_attempt dp = attempt.
Proof.
  unfold fence_current_admin_operation_transaction.
  destruct (current_attempt tasks id attempt) as [[t' dp]|] eqn:Hc.
  - apply current_attempt_spec in Hc as (Ht & Hd & He). destruct (active t') eqn:Ha.
    + split; [intros [= <-]; eauto|]. intros (Ht' & _). by simplify_eq.
    + split; [done|]. intros (Ht' & Ha' & _). simplify_eq. congruence.
  - split; [done|]. intros (Ht & _ & dp & Hd & He).
    assert (current_attempt tasks id attempt = Some (t, dp)) as E by by apply current_attempt_spec.
    congruence.
Qed.

Lemma checkpoint_updated now (tasks : tasks_t) id attempt name cp tasks' :
  set_current_admin_operation_checkpoint now tasks id attempt name cp = Ok tasks' → updated tasks tasks'.
Proof.
  unfold set_current_admin_operation_checkpoint. intros (t & Hf & H)%result_bind_ok.
  apply fence_spec in Hf as (Ht & _ & dp & Hd & _). rewrite Hd in H. injection H as <-.
  right. eexists id, t, _. split; [done|]. eapply admissible_same; try done.
  - left. unfold ad_status. cbn [ad_run set_run set_dispatch set_heartbeat]. by rewrite touch_status.
Qed.

Lemma claim_spec now (tasks : tasks_t) id attempt tasks' args :
  claim_admin_operation now tasks id attempt = Ok (tasks', args) →
  ∃ t t', tasks !! id = Some t ∧ waiting t ∧ attempt_number t = attempt ∧
    tasks' = <[id := t']> tasks ∧ admissible tasks id t t' ∧ ad_status t' = "running" ∧
    attempt_number t' = attempt.
Proof.
  unfold claim_admin_operation.
  destruct (current_attempt tasks id attempt) as [[t dp]|] eqn:Hc; [|done].
  apply current_attempt_spec in Hc as (Ht & Hd & <-). intros H. res_simpl.
  match goal with H : bool_decide (ad_status t ∈ _) = true |- _ => apply bool_decide_eq_true in H; rename H into Hw end.
  set (t' := set_heartbeat _ _). exists t, t'.
  assert (ad_status t' = "running") as Hst by (unfold ad_status, t'; cbn [ad_run set_run set_dispatch set_heartbeat]; by rewrite touch_status).
  assert (waiting t) as Hwait by (unfold waiting; set_unfold in Hw; naive_solver).
  split_and!; [done|done|by apply attempt_number_dispatch|done| |done|by unfold attempt_number, t'; cbn; rewrite Hd].
  eapply admissible_same; try done.
  right. unfold waiting. rewrite Hst. split_and!; [unfold STATUS_WORDS; set_solver|by intros [?|?]|].
  intros _. apply active_status. unfold _ACTIVE_ADMIN_STATUSES. destruct Hwait as [->| ->]; set_solver.
Qed.

Lemma cancel_updated now (tasks : tasks_t) id tasks' :
  cancel_task now tasks id = Some tasks' → updated tasks tasks'.
Proof.
  unfold cancel_task. destruct (tasks !! id) as [t|] eqn:Ht; [|done].
  destruct (bool_decide _); [done|]. intros [= <-].
  destruct (ad_dispatch t) as [dp|] eqn:Hd.
  - eapply set_status_updated; try done. left. set_solver.
  - right. eexists id, t, _. split; [done|].
    assert (active (set_run t (touch now (Some "cancelled") None None (ad_run t))) = false) as Hna.
    { unfold active, ad_status. cbn [ad_run set_run set_dispatch set_heartbeat]. rewrite touch_status, normal_cancelled. reflexivity. }
    split; [done| | |congruence].
    + split_and!; [done|done|]. intros _. split; [congruence|].
      unfold waiting, ad_status. cbn [ad_run set_run set_dispatch set_heartbeat]. rewrite touch_status, normal_cancelled. naive_solver.
    + intros _ dp. cbn. congruence.
Qed.

Lemma prepare_spec now (tasks : tasks_t) q fresh tasks' n :
  prepare_admin_operation now tasks q fresh = Ok (tasks', n) →
  ∃ t, tasks' = <[fresh := t]> tasks ∧ row_ok fresh t ∧ active t = true ∧
    _scope_for_task t = Some (pr_scope_key q) ∧
    ∀ j u, tasks !! j = Some u → active u = true → _scope_for_task u ≠ Some (pr_scope_key q).
Proof.
  unfold prepare_admin_operation. intros (spec & Hs & H)%result_bind_ok. res_simpl.
  destruct (_active_scope_owner _ _ _) as [[]|] eqn:Ho; [done|]. res_simpl.
  eexists. split; [done|]. split_and!.
  - intros dp [= <-]. split; cbn; try done; [eauto|by apply Z.ltb_lt|]. unfold STATUS_WORDS. rewrite normal_enqueued. set_solver.
  - apply active_status. unfold ad_status. cbn. rewrite normal_enqueued. unfold _ACTIVE_ADMIN_STATUSES. set_solver.
  - done.
  - intros j u Hu Ha. by eapply no_owner.
Qed.

End Facts.
