(* ===== verification/AdminRuntimeSpec.v ===== *)
(** * What administrator operations guarantee

    The invariant of [AdminRuntime.astep] and its consequences: one active
    operation per scope, attempts that never interleave, well-formed dispatch
    records, retries the action policy offers, and the recovery of lost
    deliveries. *)

From stdpp Require Import base gmap strings list relations.
From S2P Require Import Prelude Keyset TaskState TaskRuns TaskPipeline TaskEngine AdminOperations AdminRuntime AdminRuntimeFacts.

Open Scope string_scope.
Open Scope Z_scope.

Section Spec.
Context {O : Type}.

Abbreviation world := (AWorld O).
Abbreviation task := (AdminTask O).
Abbreviation dispatch := (Dispatch O).
Abbreviation tasks_t := (gmap Z (AdminTask O)).

(** ** The invariant *)

Definition same_run (e f : Effect) : Prop := ef_task e = ef_task f ∧ ef_attempt e = ef_attempt f.

Definition rows_ok (tasks : tasks_t) : Prop := ∀ id t, tasks !! id = Some t → row_ok id t.

Definition one_owner (tasks : tasks_t) : Prop := ∀ i j t u scope,
  tasks !! i = Some t → tasks !! j = Some u → active t = true → active u = true →
  _scope_for_task t = Some scope → _scope_for_task u = Some scope → i = j.

(** The attempt has been claimed. *)
Definition spent (tasks : tasks_t) (id attempt : Z) (scope : option string) : Prop :=
  ∃ t, tasks !! id = Some t ∧ attempt ≤ attempt_number t ∧
    (attempt = attempt_number t → ¬ waiting t) ∧
    (∀ s, scope = Some s → _scope_for_task t = Some s).

(** No transaction of the attempt commits any more. *)
Definition closed (tasks : tasks_t) (id attempt : Z) : Prop :=
  ∃ t, tasks !! id = Some t ∧ attempt ≤ attempt_number t ∧ (attempt = attempt_number t → active t = false).

Record admin_ok (w : world) : Prop := {
  ao_rows : rows_ok (w_tasks w);
  ao_owner : one_owner (w_tasks w);
  ao_executing k id a : w_workers w !! k = Some (Executing id a) → spent (w_tasks w) id a None;
  ao_single k l id a : w_workers w !! k = Some (Executing id a) →
    w_workers w !! l = Some (Executing id a) → k = l;
  ao_effect e : e ∈ w_effects w → spent (w_tasks w) (ef_task e) (ef_attempt e) (Some (ef_scope e));
  ao_effect_worker e k : e ∈ w_effects w →
    w_workers w !! k = Some (Executing (ef_task e) (ef_attempt e)) → ef_worker e = k;
  ao_one_worker e f : e ∈ w_effects w → f ∈ w_effects w → same_run e f → ef_worker e = ef_worker f;
  ao_order i j e f : w_effects w !! i = Some e → w_effects w !! j = Some f → (i < j)%nat →
    ef_scope e = ef_scope f → ¬ same_run e f → closed (w_tasks w) (ef_task e) (ef_attempt e);
  ao_contiguous i j k e f g : w_effects w !! i = Some e → w_effects w !! j = Some f →
    w_effects w !! k = Some g → (i < j < k)%nat → ef_scope e = ef_scope f → ef_scope f = ef_scope g →
    same_run e g → same_run e f }.

Lemma started_up_ok (w : world) : started_up w → admin_ok w.
Proof.
  intros [Hl Ho Hw Hr He]. split; rewrite ?Hw, ?He; try done; intros *; rewrite ?lookup_empty; try done;
    try by intros ?%elem_of_nil.
  intros id t Ht dp Hd. rewrite (Hl _ _ Ht) in Hd. done.
Qed.

(** ** The task table *)

Definition grows (tasks tasks' : tasks_t) : Prop :=
  ∀ id t, tasks !! id = Some t → ∃ t', tasks' !! id = Some t' ∧ evolves t t'.

Lemma spent_grows tasks tasks' id a s : grows tasks tasks' → spent tasks id a s → spent tasks' id a s.
Proof.
  intros Hg (t & Ht & Hle & Hn & Hs). destruct (Hg _ _ Ht) as (t' & Ht' & Esc & Hle' & Heq).
  exists t'. split_and!; [done|lia| |].
  - intros ->. assert (attempt_number t' = attempt_number t) as E by lia.
    destruct (Heq E) as [_ Hw]. intros Hw'. by apply Hn, Hw.
  - intros s0 E. rewrite Esc. by apply Hs.
Qed.

Lemma closed_grows tasks tasks' id a : grows tasks tasks' → closed tasks id a → closed tasks' id a.
Proof.
  intros Hg (t & Ht & Hle & Hn). destruct (Hg _ _ Ht) as (t' & Ht' & Esc & Hle' & Heq).
  exists t'. split_and!; [done|lia|]. intros ->.
  assert (attempt_number t' = attempt_number t) as E by lia. destruct (Heq E) as [Ha _].
  destruct (active t') eqn:Ea; [|done]. rewrite Hn in Ha by done. symmetry. by apply Ha.
Qed.
Hint Resolve spent_grows closed_grows : core.

Lemma tasks_grow (w : world) tasks' : admin_ok w → grows (w_tasks w) tasks' → rows_ok tasks' →
  one_owner tasks' → admin_ok (set_tasks w tasks').
Proof. intros [] Hg Hr Ho. split; cbn; eauto. Qed.

Lemma updated_grows tasks tasks' : updated tasks tasks' → rows_ok tasks → one_owner tasks →
  grows tasks tasks' ∧ rows_ok tasks' ∧ one_owner tasks'.
Proof.
  intros [->|(id & t & t' & -> & [Ht Hev Hrow Hown])] Hr Ho.
  { split_and!; [|done|done]. intros id t Ht. exists t. split; [done|apply evolves_refl]. }
  split_and!.
  - intros i u Hu. destruct (base.decide (i = id)) as [->|Hi].
    + simplify_eq. exists t'. by rewrite lookup_insert_eq.
    + exists u. rewrite lookup_insert_ne by done. split; [done|apply evolves_refl].
  - intros i u [[<- <-]|[Hi Hu]]%lookup_insert_Some; [by apply Hrow, Hr|by apply Hr].
  - assert (∀ j u scope, j ≠ id → tasks !! j = Some u → active u = true → active t' = true →
      _scope_for_task t' = Some scope → _scope_for_task u ≠ Some scope) as Hex.
    { intros j u scope Hj Hu Hau Hat Hst Hsu. destruct Hev as [Esc _]. rewrite Esc in Hst.
      destruct (Hown Hat) as [Ha|Hno]; [by apply Hj, (Ho _ _ u t scope)|by eapply Hno]. }
    intros i j u v scope [[<- <-]|[Hi Hu]]%lookup_insert_Some [[<- <-]|[Hj Hv]]%lookup_insert_Some
      Hau Hav Hsu Hsv; [done| | |by eapply Ho]; exfalso; naive_solver.
Qed.

Lemma updated_ok (w : world) tasks' : admin_ok w → updated (w_tasks w) tasks' → admin_ok (set_tasks w tasks').
Proof.
  intros Hok Hu. destruct (updated_grows _ _ Hu (ao_rows _ Hok) (ao_owner _ Hok)) as (? & ? & ?).
  by apply tasks_grow.
Qed.

Lemma prepare_ok (w : world) q fresh tasks' n : admin_ok w → w_tasks w !! fresh = None →
  prepare_admin_operation (w_now w) (w_tasks w) q fresh = Ok (tasks', n) → admin_ok (set_tasks w tasks').
Proof.
  intros Hok Hf (t & -> & Hrow & Ha & Hs & Hno)%prepare_spec. apply tasks_grow; [done| | |].
  - intros i u Hu. exists u. rewrite lookup_insert_ne by congruence. split; [done|apply evolves_refl].
  - intros i u [[<- <-]|[Hi Hu]]%lookup_insert_Some; [done|]. by eapply ao_rows.
  - intros i j u v scope [[<- <-]|[Hi Hu]]%lookup_insert_Some [[<- <-]|[Hj Hv]]%lookup_insert_Some
      Hau Hav Hsu Hsv; [done| | |by eapply ao_owner]; exfalso; rewrite Hs in *; naive_solver.
Qed.

(** ** Workers and effects *)

(** Only workers that begin to execute matter. *)
Lemma frame_ok (w w' : world) : admin_ok w → w_tasks w' = w_tasks w → w_effects w' = w_effects w →
  (∀ k id a, w_workers w' !! k = Some (Executing id a) → w_workers w !! k = Some (Executing id a)) →
  admin_ok w'.
Proof. intros [] Et Ee Hw. split; rewrite ?Et, ?Ee; eauto. Qed.

Lemma move_ok (w : world) k p : admin_ok w → (∀ id a, p ≠ Executing id a) → admin_ok (move w k p).
Proof.
  intros Hok Hp. eapply frame_ok; [done..|]. cbn. intros l id a [[_ E]|[_ ?]]%lookup_insert_Some; [|done].
  by destruct (Hp id a).
Qed.

Lemma leave_ok (w : world) k : admin_ok w → admin_ok (leave w k).
Proof. intros Hok. eapply frame_ok; [done..|]. cbn. intros l id a. by rewrite lookup_delete_Some; intros [_ ?]. Qed.

(** A fenced transaction of an executing worker. *)
Lemma commit_ok (w : world) k id a t dp : admin_ok w → w_workers w !! k = Some (Executing id a) →
  fence_current_admin_operation_transaction (w_tasks w) id a = Ok t → ad_dispatch t = Some dp →
  admin_ok (record w (mkEffect k id a (dp_scope_key dp))).
Proof.
  intros Hok Hk (Ht & Ha & dp' & Hd' & <-)%fence_spec Hd.
  rewrite Hd in Hd'. injection Hd' as <-.
  assert (_scope_for_task t = Some (dp_scope_key dp)) as Hsc by (unfold _scope_for_task; by rewrite Hd).
  set (x := mkEffect _ _ _ _).
  assert (¬ closed (w_tasks w) id (dp_attempt dp)) as Hopen.
  { intros (t' & Ht' & _ & Hn). simplify_eq. rewrite Hn in Ha; [done|by rewrite (attempt_number_dispatch _ _ Hd)]. }
  assert (∀ e, e ∈ w_effects w → ef_scope e = ef_scope x → ¬ same_run e x →
    closed (w_tasks w) (ef_task e) (ef_attempt e)) as Hclose.
  { intros e He Hes Hne. destruct (ao_effect _ Hok _ He) as (u & Hu & Hle & _ & Hus).
    exists u. split_and!; [done|done|]. intros Heq. destruct (active u) eqn:Eu; [|done].
    specialize (Hus _ eq_refl). rewrite Hes in Hus.
    assert (ef_task e = id) as E by by eapply (ao_owner _ Hok _ _ u t).
    rewrite E in Hu. simplify_eq. destruct Hne. split; [done|]. cbn. by rewrite Heq, (attempt_number_dispatch _ _ Hd). }
  destruct Hok as [Hr Ho Hex Hsi Hef Hew How Hor Hco]. split; cbn; try done.
  - intros e [He| ->%list_elem_of_singleton]%elem_of_app; [by apply Hef|]. cbn.
    destruct (Hex _ _ _ Hk) as (t' & Ht' & ? & ? & _). simplify_eq.
    exists t. split_and!; try done. by intros s [= <-].
  - intros e l [He| ->%list_elem_of_singleton]%elem_of_app Hl; [by apply Hew|]. by apply (Hsi k l id (dp_attempt dp)).
  - intros e f [He| ->%list_elem_of_singleton]%elem_of_app [Hf| ->%list_elem_of_singleton]%elem_of_app;
      [by apply How| | |done].
    + intros [E1 E2]. apply Hew; [done|]. by rewrite E1, E2.
    + intros [E1 E2]. symmetry. apply Hew; [done|]. by rewrite <-E1, <-E2.
  - intros i j e f [Hi|[Hil Hi]]%lookup_app_Some [Hj|[Hjl Hj]]%lookup_app_Some Hlt Hs Hne.
    + by eapply (Hor i j).
    + apply list_lookup_singleton_Some in Hj as [_ <-]. apply Hclose; [by eapply list_elem_of_lookup_2|done|done].
    + apply lookup_lt_Some in Hj. lia.
    + apply list_lookup_singleton_Some in Hi as [? _], Hj as [? _]. lia.
  - intros i j m e f g Hi Hj [Hm|[Hml Hm]]%lookup_app_Some [H1 H2] Es1 Es2 Hrun.
    + pose proof (lookup_lt_Some _ _ _ Hm). rewrite lookup_app_l in Hi, Hj by lia. by eapply (Hco i j m).
    + apply list_lookup_singleton_Some in Hm as [? <-].
      rewrite lookup_app_l in Hi, Hj by lia. destruct (base.decide (ef_task e = ef_task f ∧ ef_attempt e = ef_attempt f)) as [|Hne]; [done|].
      destruct Hopen. destruct Hrun as [E1 E2]. cbn in E1, E2. rewrite <-E1, <-E2. by eapply (Hor i j e f).
Qed.

(** A claimed attempt begins to execute. *)
Lemma admin_claim_ok (w : world) k id a tasks args : admin_ok w → w_workers w !! k = Some (Leased id a) →
  claim_admin_operation (w_now w) (w_tasks w) id a = Ok (tasks, args) →
  admin_ok (move (set_tasks w tasks) k (Executing id a)).
Proof.
  intros Hok Hk (t & t' & Ht & Hw & Hat & -> & Ham & Hst & Hat')%claim_spec.
  assert (admin_ok (set_tasks w (<[id := t']> (w_tasks w)))) as Hok'.
  { apply updated_ok; [done|]. right. eauto 10. }
  assert (∀ s, ¬ spent (w_tasks w) id a s) as Hfresh.
  { intros s (u & Hu & _ & Hn & _). simplify_eq. by apply Hn. }
  assert (∀ l, w_workers w !! l ≠ Some (Executing id a)) as Hnone.
  { intros l Hl. by eapply Hfresh, ao_executing. }
  assert (∀ e, e ∈ w_effects w → ef_task e = id → ef_attempt e = a → False) as Hnoeff.
  { intros e He <- <-. by eapply Hfresh, ao_effect. }
  destruct Hok' as [Hr Ho Hex Hsi Hef Hew How Hor Hco]. split; cbn in *; try done.
  - intros l i b [[_ [= <- <-]]|[_ Hl]]%lookup_insert_Some; [|by eapply Hex].
    exists t'. rewrite lookup_insert_eq. split_and!; [done|lia| |done]. intros _. unfold waiting. rewrite Hst. by intros [?|?].
  - intros l m i b [[<- [= <- <-]]|[_ Hl]]%lookup_insert_Some [[<- E]|[_ Hm]]%lookup_insert_Some;
      [done| | |by eapply Hsi].
    + by apply Hnone in Hm.
    + injection E as <- <-. by apply Hnone in Hl.
  - intros e l He [[<- [= E1 E2]]|[_ Hl]]%lookup_insert_Some; [|by apply Hew]. by destruct (Hnoeff e He).
Qed.

Lemma admin_step_ok (w w' : world) : astep w w' → admin_ok w → admin_ok w'.
Proof.
  intros Hstep Hok. destruct Hstep;
    try (by (eapply frame_ok; [exact Hok|done..|])).
  - by eapply prepare_ok.
  - by eapply updated_ok, retry_updated.
  - eapply (frame_ok (set_tasks w tasks)); [|done..]. by eapply updated_ok, publish_updated.
  - by eapply updated_ok, recovery_updated.
  - by eapply updated_ok, cancel_updated.
  - apply move_ok; [|done]. by eapply frame_ok.
  - apply move_ok; [|done]. by eapply frame_ok.
  - by eapply admin_claim_ok.
  - by eapply commit_ok.
  - by eapply updated_ok, checkpoint_updated.
  - eapply updated_ok; [done|]. eapply update_task_updated; [|done]. by right.
  - by eapply updated_ok, heartbeat_updated.
  - apply move_ok; [|done]. eapply updated_ok; [by eapply commit_ok|]. by eapply handoff_updated.
  - apply leave_ok. eapply updated_ok; [done|]. eapply update_task_updated; [|done]. left. set_solver.
  - by apply leave_ok.
Qed.

Lemma reached_ok (w : world) : reached w → admin_ok w.
Proof.
  intros (w0 & Hs & Hr). apply started_up_ok in Hs. induction Hr; eauto using admin_step_ok.
Qed.

(** ** Consequences *)

(** C8: At every moment at most one task of a scope is active, whatever
    preparations, retries, recoveries, cancellations and lost workers led
    there. *)
Theorem scope_single_flight (w : world) i j t u scope : reached w →
  w_tasks w !! i = Some t → w_tasks w !! j = Some u →
  active t = true → active u = true →
  _scope_for_task t = Some scope → _scope_for_task u = Some scope → i = j.
Proof. intros H%reached_ok. by apply (ao_owner _ H). Qed.

(** C7: The transactions the handlers of a scope commit never interleave: two
    transactions of one attempt of one operation were committed by the same
    worker, and all transactions of the scope between them belong to the same
    attempt, even when a worker has lost its execution lease without noticing
    and its operation was recovered, retried or handed on. *)
Theorem attempts_never_interleave (w : world) i j k e f g : reached w →
  w_effects w !! i = Some e → w_effects w !! j = Some f → w_effects w !! k = Some g →
  (i < j < k)%nat → ef_scope f = ef_scope e → ef_task g = ef_task e → ef_attempt g = ef_attempt e →
  ef_task f = ef_task e ∧ ef_attempt f = ef_attempt e ∧
  ef_worker f = ef_worker e ∧ ef_worker g = ef_worker e.
Proof.
  intros H%reached_ok He Hf Hg Hlt Hs Et Ea.
  assert (∀ n x, w_effects w !! n = Some x → x ∈ w_effects w) as Hin by eauto using list_elem_of_lookup_2.
  assert (ef_scope g = ef_scope e) as Hsg.
  { destruct (ao_effect _ H _ (Hin _ _ He)) as (t & Ht & _ & _ & H1).
    destruct (ao_effect _ H _ (Hin _ _ Hg)) as (t' & Ht' & _ & _ & H2).
    specialize (H1 _ eq_refl). specialize (H2 _ eq_refl). congruence. }
  assert (same_run e f) as [E1 E2].
  { eapply (ao_contiguous _ H i j k); [done..|congruence|congruence|]. by split. }
  split_and!; [done|done| |]; eapply (ao_one_worker _ H); eauto; by split.
Qed.

Lemma row_valid id (t : task) : row_ok id t → is_Some (ad_dispatch t) → dispatch_valid t = true.
Proof.
  intros Hrow [dp Hd]. destruct (Hrow _ Hd) as [H1 H2 H3 H4 [spec H5] H6 H7 H8 H9].
  unfold dispatch_valid. rewrite Hd, H5, H6, H1, H3, !bool_decide_eq_true_2 by done.
  rewrite Z.eqb_refl. cbn. rewrite andb_true_r. apply Z.ltb_lt. lia.
Qed.

(** C10: Every dispatch record stays well-formed: the attempt of the row and of
    its record agree and are positive, the queue identifier is the one derived
    from the task and the attempt, the operation, scope and queue pass the
    registry, and the record passes the validity test of the action policy. *)
Theorem dispatches_well_formed (w : world) id t dp : reached w →
  w_tasks w !! id = Some t → ad_dispatch t = Some dp →
  dispatch_valid t = true ∧ 1 ≤ ad_attempts t ∧ ad_attempts t = dp_attempt dp ∧
  ad_rq_job_id t = deterministic_admin_rq_job_id id (ad_attempts t) ∧ 0 < dp_job_timeout dp ∧
  ad_queue_name t = dp_queue_name dp.
Proof.
  intros H%reached_ok Ht Hd. pose proof (ao_rows _ H _ _ Ht) as Hrow.
  destruct (Hrow _ Hd) as [H1 H2 H3 H4 H5 H6 H7 H8 H9]. split_and!; [by eapply row_valid|lia|done| |done|done].
  rewrite H3, H4, H1. unfold deterministic_admin_rq_job_id. f_equal. lia.
Qed.

Lemma retry_allowed (t : task) global : "retry" ∈ (decide_admin t global).1 →
  ad_operation_type t ≠ "subscription-sync-batch" ∧ dispatch_valid t = true ∧
  ad_status t ∈ ["failed"; "stale"; "cancelled"].
Proof.
  unfold decide_admin. unfold when, allow, because.
  destruct (bool_decide (ad_operation_type t = _)) eqn:E1; [repeat case_match; set_solver|].
  apply bool_decide_eq_false in E1. intros H. split; [done|].
  destruct (dispatch_valid t); [|repeat case_match; set_solver].
  destruct (bool_decide (ad_status t ∈ _)) eqn:E2; [|repeat case_match; set_solver].
  by apply bool_decide_eq_true in E2.
Qed.

Lemma retry_offered (t : task) global : ad_operation_type t ≠ "subscription-sync-batch" →
  dispatch_valid t = true → ad_status t ∈ ["failed"; "stale"; "cancelled"] →
  "retry" ∈ (decide_admin t global).1.
Proof.
  intros H1 H2 H3. unfold decide_admin. rewrite (bool_decide_eq_false_2 _ H1), H2, (bool_decide_eq_true_2 _ H3).
  unfold when, allow. case_match; set_solver.
Qed.

(** A retry the action policy offers is carried out, unless a worker still
    holds the scope or another task of the scope is active: it makes the row
    an enqueued, still valid attempt with the next number and the options of
    the last one. *)
Theorem offered_retry_accepted (w : world) id t global : reached w →
  w_tasks w !! id = Some t → "retry" ∈ (decide_admin t global).1 →
  ad_operation_type t ≠ "asset-dedup-scan" →
  (∀ scope, _scope_for_task t = Some scope →
     w_exec w !! scope = None ∧ _active_scope_owner (w_tasks w) scope (Some id) = None) →
  ∃ t', prepare_admin_operation_retry (w_now w) (w_tasks w) (w_exec w) id None =
          Ok (<[id := t']> (w_tasks w), ad_attempts t + 1) ∧
        ad_status t' = "enqueued" ∧ ad_attempts t' = ad_attempts t + 1 ∧ dispatch_valid t' = true ∧
        dp_options <$> ad_dispatch t' = dp_options <$> ad_dispatch t ∧
        dp_checkpoints <$> ad_dispatch t' = dp_checkpoints <$> ad_dispatch t.
Proof.
  intros H%reached_ok Ht (_ & Hv & Hst)%retry_allowed Hnd Hfree.
  assert (∃ dp, ad_dispatch t = Some dp) as [dp Hd].
  { unfold dispatch_valid in Hv. destruct (ad_dispatch t); eauto. done. }
  pose proof (ao_rows _ H _ _ Ht) as Hrow. destruct (Hrow _ Hd) as [H1 _ _ _ _ _ _ _ _].
  destruct (Hfree (dp_scope_key dp)) as [Hx Ho]; [unfold _scope_for_task; by rewrite Hd|].
  destruct (prepare_admin_operation_retry (w_now w) (w_tasks w) (w_exec w) id None) as [[tasks n]|] eqn:E.
  - pose proof (retry_updated _ _ _ _ _ _ _ E) as Hu.
    apply (updated_grows _ _) in Hu as (_ & Hrows & _); [|apply H|apply H].
    unfold prepare_admin_operation_retry in E. rewrite Ht, Hd in E. cbv zeta in E.
    rewrite Ho, (bool_decide_eq_false_2 (_ = "asset-dedup-scan")) in E by done. cbn [negb orb] in E.
    res_simpl. rewrite H1, Z.max_id in Hrows. rewrite H1, Z.max_id. eexists. split; [done|].
    split_and!; [done|done| |cbn; by rewrite Hd..].
    eapply row_valid; [apply Hrows; apply lookup_insert_eq|]. by eexists.
  - exfalso. unfold prepare_admin_operation_retry in E. rewrite Ht, Hd in E. cbv zeta in E.
    rewrite Ho, !(bool_decide_eq_true_2 _ Hx), (bool_decide_eq_true_2 _ Hst),
      (bool_decide_eq_false_2 (_ = "asset-dedup-scan")) in E by done. done.
Qed.

End Spec.
