(* ===== verification/AdminRecovery.v ===== *)
(** * Recovery of lost administrator deliveries

    [app/services/admin_dispatch_recovery.py]: an operation whose job was lost
    by the queue, before or during its execution, is delivered again by one
    recovery sweep, as a job the claim of [AdminOperations] accepts. *)

From stdpp Require Import base gmap strings list relations.
From S2P Require Import Prelude Keyset TaskState TaskRuns TaskPipeline TaskEngine AdminOperations AdminRuntime AdminRuntimeFacts AdminRuntimeSpec.

Open Scope string_scope.
Open Scope Z_scope.

Section Recovery.
Context {O : Type}.

Abbreviation world := (AWorld O).
Abbreviation task := (AdminTask O).
Abbreviation dispatch := (Dispatch O).
Abbreviation tasks_t := (gmap Z (AdminTask O)).
Abbreviation queue_t := (gmap (Z * Z) RqJob).

(** ** The queue *)

(** A job belongs to an attempt that was prepared. *)
Definition queue_ok (tasks : tasks_t) (rq : queue_t) : Prop := ∀ k job, rq !! k = Some job →
  ∃ t, tasks !! k.1 = Some t ∧ k.2 ≤ attempt_number t ∧ rq_task job = k.1 ∧ rq_attempt job = k.2.

Lemma queue_grows tasks tasks' rq : grows tasks tasks' → queue_ok tasks rq → queue_ok tasks' rq.
Proof.
  intros Hg Hq k job Hk. destruct (Hq _ _ Hk) as (t & Ht & Hle & ? & ?).
  destruct (Hg _ _ Ht) as (t' & Ht' & _ & Hle' & _). exists t'. split_and!; [done|lia|done|done].
Qed.

Lemma publish_queue now (tasks : tasks_t) rq id a r tasks' rq' o :
  publish_admin_operation now tasks rq id a r = (tasks', rq', o) →
  rq' = rq ∨ ∃ t dp, tasks !! id = Some t ∧ ad_dispatch t = Some dp ∧ dp_attempt dp = a ∧
    rq' = <[dp_rq_job_id dp := mkRqJob "queued" id a]> rq.
Proof.
  unfold publish_admin_operation.
  destruct (current_attempt tasks id a) as [[t dp]|] eqn:Hc; [|intros [= _ <- _]; by left].
  apply current_attempt_spec in Hc as (Ht & Hd & Ha). intros H.
  repeat (case_match; try (injection H as _ <- _; by left)).
  all: injection H as _ <- _; right; eauto 10.
Qed.

Lemma publish_elsewhere now (tasks : tasks_t) rq id a r tasks' rq' o j :
  publish_admin_operation now tasks rq id a r = (tasks', rq', o) → j ≠ id → tasks' !! j = tasks !! j.
Proof.
  unfold publish_admin_operation. intros H Hj.
  destruct (current_attempt tasks id a) as [[t dp]|]; [|by injection H as <- _ _].
  repeat (case_match; try (injection H as <- _ _; by rewrite ?lookup_insert_ne)).
Qed.

Lemma step_grows (w w' : world) : astep w w' → admin_ok w → grows (w_tasks w) (w_tasks w').
Proof.
  intros Hstep Hok.
  assert (∀ tasks', updated (w_tasks w) tasks' → grows (w_tasks w) tasks') as Hu.
  { intros tasks' H. by destruct (updated_grows _ _ H (ao_rows _ Hok) (ao_owner _ Hok)) as (? & _). }
  destruct Hstep; cbn; try (by apply Hu; left).
  - destruct (prepare_spec _ _ _ _ _ _ H0) as (t & -> & _).
    intros i u Hi. exists u. rewrite lookup_insert_ne by congruence. split; [done|apply evolves_refl].
  - by eapply Hu, retry_updated.
  - by eapply Hu, publish_updated.
  - by eapply Hu, recovery_updated.
  - by eapply Hu, cancel_updated.
  - destruct (claim_spec _ _ _ _ _ _ H0) as (t & t' & Ht & _ & _ & -> & Ham & _). apply Hu. right. eauto 10.
  - by eapply Hu, checkpoint_updated.
  - eapply Hu, update_task_updated; [|done]. by right.
  - by eapply Hu, heartbeat_updated.
  - by eapply Hu, handoff_updated.
  - eapply Hu, update_task_updated; [|done]. left. set_solver.
Qed.

Lemma queue_step (w w' : world) : astep w w' → admin_ok w →
  queue_ok (w_tasks w) (w_rq w) → queue_ok (w_tasks w') (w_rq w').
Proof.
  intros Hstep Hok Hq. pose proof (step_grows _ _ Hstep Hok) as Hg.
  assert (∀ k job status, w_rq w !! k = Some job → queue_ok (w_tasks w)
    (<[k := mkRqJob status (rq_task job) (rq_attempt job)]> (w_rq w))) as Hstatus.
  { intros k job status Hk k' job' [[<- <-]|[_ ?]]%lookup_insert_Some; [by apply (Hq k job)|by apply Hq]. }
  eapply queue_grows; [exact Hg|]. destruct Hstep; cbn; try done; try by apply Hstatus.
  - apply publish_queue in H as [->|(t & dp & Ht & Hd & <- & ->)]; [done|].
    destruct (ao_rows _ Hok _ _ Ht _ Hd) as [_ _ _ Hid _ _ _ _ _]. rewrite Hid.
    intros k job [[<- <-]|[_ ?]]%lookup_insert_Some; [|by apply Hq]. exists t. cbn.
    rewrite (attempt_number_dispatch _ _ Hd). split_and!; [done|lia|done|done].
  - intros k' job [_ ?]%lookup_delete_Some. by apply Hq.
Qed.

Lemma reached_queue (w : world) : reached w → queue_ok (w_tasks w) (w_rq w).
Proof.
  intros (w0 & Hs & Hr). assert (admin_ok w0 ∧ queue_ok (w_tasks w0) (w_rq w0)) as Hinv.
  { split; [by apply started_up_ok|]. destruct Hs as [_ _ _ -> _]. intros k job. by rewrite lookup_empty. }
  clear Hs. induction Hr as [|x y z Hxy _ IH]; [apply Hinv|].
  destruct Hinv. apply IH. split; [by eapply admin_step_ok|by eapply queue_step].
Qed.

(** ** A lost delivery *)

(** The job of the current attempt is gone from the queue, and no worker holds
    the scope: the operation waits for a delivery, or was running under a
    worker whose heartbeat has stopped. *)
Record lost (now : Z) (exec : gmap string Z) (tasks : tasks_t) (rq : queue_t) (id : Z) (t : task)
    (dp : dispatch) : Prop := {
  lo_task : tasks !! id = Some t;
  lo_dispatch : ad_dispatch t = Some dp;
  lo_lease : exec !! dp_scope_key dp = None;
  lo_job : rq !! (id, dp_attempt dp) = None;
  lo_status : waiting t ∨
    (ad_status t = "running" ∧ dp_state dp = DispatchPublished ∧ heartbeat_fresh t now = false) }.

(** A job is queued that a worker may claim, with these arguments. *)
Definition redelivered (tasks : tasks_t) (rq : queue_t) (id : Z) (args : string * O) : Prop :=
  ∃ attempt, rq !! (id, attempt) = Some (mkRqJob "queued" id attempt) ∧
    ∀ now, ∃ tasks', claim_admin_operation now tasks id attempt = Ok (tasks', args).

Lemma waiting_claimable (tasks : tasks_t) id t dp now :
  tasks !! id = Some t → ad_dispatch t = Some dp → row_ok id t → waiting t →
  ∃ tasks', claim_admin_operation now tasks id (dp_attempt dp) = Ok (tasks', (ad_operation_type t, dp_options dp)).
Proof.
  intros Ht Hd Hrow Hw. destruct (Hrow _ Hd) as [_ _ _ _ [spec Hs] Hop Hq _ _].
  assert (current_attempt tasks id (dp_attempt dp) = Some (t, dp)) as Hc by by apply current_attempt_spec.
  unfold claim_admin_operation. rewrite Hc.
  rewrite (bool_decide_eq_true_2 (ad_status t ∈ _)) by (destruct Hw as [-> | ->]; set_solver). cbn.
  assert ((if bool_decide (ad_operation_type t = "") then dp_operation_type dp else ad_operation_type t) =
    ad_operation_type t) as -> by (case_match; [by rewrite Hop|done]).
  rewrite Hs. cbn. rewrite bool_decide_eq_true_2; [cbn; eauto|]. rewrite Hq.
  unfold _registered_spec in Hs. destruct (find_spec _); [|done]. res_simpl.
  match goal with H : bool_decide _ = true |- _ => by apply bool_decide_eq_true in H end.
Qed.

Lemma waiting_active (t : task) : waiting t → active t = true.
Proof. intros [E|E]; apply active_status; rewrite E; unfold _ACTIVE_ADMIN_STATUSES; set_solver. Qed.

(** With the queue server up, a waiting attempt without a job is published. *)
Lemma publish_waiting now (tasks : tasks_t) rq id t dp r :
  tasks !! id = Some t → ad_dispatch t = Some dp → row_ok id t → waiting t →
  rq !! (id, dp_attempt dp) = None → rd_fetch_fails r = false → rd_enqueue_fails r = false →
  publish_admin_operation now tasks rq id (dp_attempt dp) r =
  (<[id := set_dispatch t (published now dp)]> tasks,
   <[(id, dp_attempt dp) := mkRqJob "queued" id (dp_attempt dp)]> rq, PPublished).
Proof.
  intros Ht Hd Hrow Hw Hrq Hf He. destruct (Hrow _ Hd) as [_ _ H3 H4 _ _ _ _ _].
  assert (current_attempt tasks id (dp_attempt dp) = Some (t, dp)) as Hc by by apply current_attempt_spec.
  unfold publish_admin_operation.
  rewrite Hc, H3, bool_decide_eq_true_2, (waiting_active _ Hw), H4, Hf, Hrq, He by done. cbn.
  assert (bool_decide (ad_status t ∈ ["running"; "paused"]) = false) as ->; [|by rewrite andb_false_r].
  by destruct Hw as [-> | ->].
Qed.

(** A running attempt without a job and a heartbeat is reported missing. *)
Lemma publish_missing now (tasks : tasks_t) rq id t dp r :
  tasks !! id = Some t → ad_dispatch t = Some dp → row_ok id t → ad_status t = "running" →
  dp_state dp = DispatchPublished → heartbeat_fresh t now = false →
  rq !! (id, dp_attempt dp) = None → rd_fetch_fails r = false →
  publish_admin_operation now tasks rq id (dp_attempt dp) r =
  (<[id := set_dispatch t (probed now dp "RQ record missing while durable attempt is active")]> tasks,
   rq, PMissing).
Proof.
  intros Ht Hd Hrow Hs Hp Hh Hrq Hf. destruct (Hrow _ Hd) as [_ _ H3 H4 _ _ _ _ _].
  assert (current_attempt tasks id (dp_attempt dp) = Some (t, dp)) as Hc by by apply current_attempt_spec.
  assert (active t = true) as Ha by (unfold active; by rewrite Hs).
  unfold publish_admin_operation.
  by rewrite Hc, H3, (bool_decide_eq_true_2 (dp_rq_job_id dp = _)), Ha, H4, Hf, Hrq, Hp, Hs, Hh by done.
Qed.

Lemma recovery_prepares now (tasks : tasks_t) exec id t dp :
  tasks !! id = Some t → ad_dispatch t = Some dp → ad_status t = "running" →
  exec !! dp_scope_key dp = None → heartbeat_fresh t now = false →
  ∃ t' dp', prepare_admin_operation_recovery now tasks exec id (dp_attempt dp) now =
      Some (<[id := t']> tasks, dp_attempt dp + 1) ∧
    ad_dispatch t' = Some dp' ∧ dp_attempt dp' = dp_attempt dp + 1 ∧ waiting t' ∧
    ad_operation_type t' = ad_operation_type t ∧ dp_options dp' = dp_options dp.
Proof.
  intros Ht Hd Hs Hx Hh.
  assert (current_attempt tasks id (dp_attempt dp) = Some (t, dp)) as Hc by by apply current_attempt_spec.
  unfold prepare_admin_operation_recovery. rewrite Hc, Hx, Hs, Hh. cbn.
  eexists _, _. split_and!; [done|done|done|by left|done|done].
Qed.

(** ** One candidate *)

Lemma published_row now id (t : task) dp :
  row_ok id t → ad_dispatch t = Some dp → row_ok id (set_dispatch t (published now dp)).
Proof. intros Hrow Hd dp0 [= <-]. by destruct (Hrow _ Hd); split. Qed.

Lemma publish_redelivers now (tasks : tasks_t) rq id t dp r tasks' rq' o :
  tasks !! id = Some t → ad_dispatch t = Some dp → row_ok id t → waiting t →
  rq !! (id, dp_attempt dp) = None → rd_fetch_fails r = false → rd_enqueue_fails r = false →
  publish_admin_operation now tasks rq id (dp_attempt dp) r = (tasks', rq', o) →
  redelivered tasks' rq' id (ad_operation_type t, dp_options dp).
Proof.
  intros Ht Hd Hrow Hw Hj Hf He. rewrite (publish_waiting now tasks rq id t dp r) by done.
  intros [= <- <- <-]. exists (dp_attempt dp). rewrite lookup_insert_eq. split; [done|]. intros now'.
  apply (waiting_claimable _ id (set_dispatch t (published now dp)) (published now dp));
    [apply lookup_insert_eq|done|by apply published_row|done].
Qed.

Lemma recover_redelivers now (tasks : tasks_t) rq exec r id t dp tasks' rq' o :
  rows_ok tasks → one_owner tasks → rq !! (id, dp_attempt dp + 1) = None → lost now exec tasks rq id t dp →
  rd_fetch_fails r = false → rd_enqueue_fails r = false →
  recover_candidate now tasks rq exec r (id, dp_attempt dp) = (tasks', rq', o) →
  redelivered tasks' rq' id (ad_operation_type t, dp_options dp).
Proof.
  intros Hrows Hown Hj2 [Ht Hd Hx Hj Hs] Hf He. pose proof (Hrows _ _ Ht) as Hrow.
  unfold recover_candidate. destruct Hs as [Hw|(Hrun & Hp & Hh)].
  - destruct (publish_admin_operation _ _ _ _ _ _) as [[tasks1 rq1] o1] eqn:E.
    pose proof (publish_redelivers _ _ _ _ _ _ _ _ _ _ Ht Hd Hrow Hw Hj Hf He E).
    rewrite (publish_waiting now tasks rq id t dp r) in E by done. injection E as <- <- <-.
    cbn. by intros [= <- <- <-].
  - rewrite (publish_missing now tasks rq id t dp r) by done. cbn [bool_decide decide_rel].
    set (dp1 := probed _ _ _). set (t1 := set_dispatch t dp1). set (tasks1 := <[id := t1]> tasks).
    destruct (updated_grows tasks tasks1) as (_ & Hr1 & Ho1); [by eapply set_dispatch_updated|done|done|].
    destruct (recovery_prepares now tasks1 exec id t1 dp1) as (t2 & dp2 & Hrec & Hd2 & Ha2 & Hw2 & Hop2 & Hopt2);
      [apply lookup_insert_eq|done..|].
    change (dp_attempt dp1) with (dp_attempt dp) in *.
    destruct (updated_grows tasks1 (<[id := t2]> tasks1)) as (_ & Hr2 & _); [by eapply recovery_updated|done|done|].
    cbn -[publish_admin_operation prepare_admin_operation_recovery]. rewrite Hrec, <-Ha2. intros Hpub.
    change (ad_operation_type t) with (ad_operation_type t1). change (dp_options dp) with (dp_options dp1).
    rewrite <-Hop2, <-Hopt2. eapply (publish_redelivers now (<[id := t2]> tasks1) rq id t2 dp2 r); try done;
      [apply lookup_insert_eq|apply Hr2, lookup_insert_eq|by rewrite Ha2].
Qed.

Lemma recover_updated now (tasks : tasks_t) rq exec r c tasks' rq' o :
  rows_ok tasks → one_owner tasks → recover_candidate now tasks rq exec r c = (tasks', rq', o) →
  rows_ok tasks' ∧ one_owner tasks' ∧ ∀ j, j ≠ c.1 → tasks' !! j = tasks !! j ∧ ∀ n, rq' !! (j, n) = rq !! (j, n).
Proof.
  intros Hrows Hown. destruct c as [id a]. unfold recover_candidate.
  assert (∀ (ts : tasks_t) q n ts' q' o', rows_ok ts → one_owner ts →
    publish_admin_operation now ts q id n r = (ts', q', o') →
    rows_ok ts' ∧ one_owner ts' ∧ ∀ j, j ≠ id → ts' !! j = ts !! j ∧ ∀ n, q' !! (j, n) = q !! (j, n)) as Hpub.
  { intros ts q n ts' q' o' Hr Ho E. pose proof (publish_updated _ _ _ _ _ _ _ _ _ E) as Hu.
    destruct (updated_grows _ _ Hu) as (_ & ? & ?); [done|done|]. split_and!; [done|done|].
    intros j Hj. split; [by eapply publish_elsewhere|]. intros m.
    apply publish_queue in E as [->|(t & dp & Ht & Hd & _ & ->)]; [done|].
    destruct (Hr _ _ Ht _ Hd) as [_ _ _ -> _ _ _ _ _]. by rewrite lookup_insert_ne by congruence. }
  destruct (publish_admin_operation now tasks rq id a r) as [[tasks1 rq1] o1] eqn:E1.
  destruct (Hpub _ _ _ _ _ _ Hrows Hown E1) as (Hr1 & Ho1 & Hf1).
  case_match; [|by intros [= <- <- <-]].
  destruct (prepare_admin_operation_recovery _ _ _ _ _ _) as [[tasks2 a2]|] eqn:E2; [|by intros [= <- <- <-]].
  destruct (updated_grows tasks1 tasks2) as (_ & Hr2 & Ho2); [by eapply recovery_updated|done|done|].
  intros E3. destruct (Hpub _ _ _ _ _ _ Hr2 Ho2 E3) as (Hr3 & Ho3 & Hf3). split_and!; [done|done|].
  intros j Hj. destruct (Hf1 j Hj) as [H1 H1'], (Hf3 j Hj) as [H3 H3'].
  split; [|intros n; by rewrite H3', H1']. rewrite H3, <-H1.
  unfold prepare_admin_operation_recovery in E2. repeat case_match; simplify_eq. by apply lookup_insert_ne.
Qed.

(** ** The sweep *)

Lemma select_rows_elem {A} (cond : A → bool) lt n table x :
  x ∈ select_rows cond lt 0 n table → x ∈ table ∧ cond x = true.
Proof.
  unfold select_rows. rewrite drop_0. intros H%elem_of_take. destruct H as (i & H & _).
  apply list_elem_of_lookup_2 in H. rewrite order_by_perm in H.
  by rewrite list_elem_of_In, List.filter_In, <-list_elem_of_In in H.
Qed.

Lemma select_rows_all {A} (cond : A → bool) lt n table x :
  (length (List.filter cond table) ≤ n)%nat → x ∈ table → cond x = true → x ∈ select_rows cond lt 0 n table.
Proof.
  intros Hn Hx Hc. unfold select_rows. rewrite drop_0, take_ge by (by rewrite order_by_perm).
  by rewrite order_by_perm, list_elem_of_In, List.filter_In, <-list_elem_of_In.
Qed.

Lemma select_rows_length {A} (cond : A → bool) lt n table :
  (length (select_rows cond lt 0 n table) ≤ length (List.filter cond table))%nat.
Proof. unfold select_rows. rewrite drop_0, length_take, order_by_perm. lia. Qed.

Lemma select_rows_distinct {A B} (f : A → B) cond lt n table :
  NoDup (f <$> table) → NoDup (f <$> select_rows cond lt 0 n table).
Proof.
  intros Hn. unfold select_rows. rewrite drop_0.
  eapply sublist_NoDup; [|apply fmap_sublist, sublist_take]. rewrite order_by_perm.
  eapply sublist_NoDup; [exact Hn|]. apply fmap_sublist, filter_sublist.
Qed.

Lemma due_state now grace state next (it : Z * task) : due_filter now grace state next it = true →
  ∃ dp, ad_dispatch it.2 = Some dp ∧ dp_state dp = state.
Proof.
  unfold due_filter. intros [_ H]%andb_true_iff. destruct (ad_dispatch it.2) as [dp|]; [|done].
  exists dp. rewrite !andb_true_iff, bool_decide_eq_true in H. naive_solver.
Qed.

Lemma elem_of_length {A} (x : A) l : x ∈ l → (1 ≤ length l)%nat.
Proof. destruct l; [by intros ?%elem_of_nil|cbn; lia]. Qed.

(** The rows that are due. *)
Definition due_rows (now : Z) (tasks : tasks_t) (grace : Z) : list (Z * task) :=
  (List.filter (due_filter now grace DispatchPending dp_next_retry_at) (map_to_list tasks) ++
   List.filter (due_filter now grace DispatchPublished dp_next_probe_at) (map_to_list tasks))%list.

Lemma candidate_ids (l : list (Z * task)) :
  ((λ it, (it.1, attempt_number it.2)) <$> l).*1 = l.*1.
Proof. by rewrite <-list_fmap_compose. Qed.

Lemma select_due_distinct now (tasks : tasks_t) grace limit b :
  NoDup (select_due_admin_dispatches now tasks grace limit b).*1.
Proof.
  unfold select_due_admin_dispatches. cbv zeta.
  assert (NoDup (map_to_list tasks).*1) as Hn by apply NoDup_fst_map_to_list.
  case_match; rewrite ?fmap_app, !candidate_ids; [|by apply select_rows_distinct].
  apply NoDup_app. split_and!; [by apply select_rows_distinct| |by apply select_rows_distinct].
  intros i Hi Hi'. apply list_elem_of_fmap in Hi as ([i1 t1] & -> & [H1 (p & Hp & Hs)%due_state]%select_rows_elem).
  apply list_elem_of_fmap in Hi' as ([i2 t2] & E & [H2 (q & Hq & Hs')%due_state]%select_rows_elem). cbn in *. subst.
  apply elem_of_map_to_list in H1, H2. simplify_eq. congruence.
Qed.

Lemma select_due_all now (tasks : tasks_t) grace limit it :
  (length (due_rows now tasks grace) ≤ Z.to_nat (Z.max 1 (Z.min limit ADMIN_DISPATCH_RECOVERY_LIMIT)))%nat →
  it ∈ due_rows now tasks grace →
  (it.1, attempt_number it.2) ∈ select_due_admin_dispatches now tasks grace limit true.
Proof.
  unfold due_rows, select_due_admin_dispatches. cbv zeta. set (n := Z.to_nat _). rewrite length_app. intros Hn.
  set (pending := select_rows _ _ _ n _).
  assert (length pending ≤ length (List.filter (due_filter now grace DispatchPending dp_next_retry_at) (map_to_list tasks)))%nat
    as Hp by apply select_rows_length.
  rewrite elem_of_app, !list_elem_of_In, !List.filter_In, <-!list_elem_of_In, length_fmap.
  intros [[Hin Hd]|[Hin Hd]].
  - assert ((it.1, attempt_number it.2) ∈ (λ it, (it.1, attempt_number it.2)) <$> pending) as H.
    { apply (list_elem_of_fmap_2 (λ it, (it.1, attempt_number it.2))), select_rows_all; [lia|done|done]. }
    case_match; [|done]. apply elem_of_app. by left.
  - assert (1 ≤ length (List.filter (due_filter now grace DispatchPublished dp_next_probe_at) (map_to_list tasks)))%nat.
    { apply (elem_of_length it). by rewrite list_elem_of_In, List.filter_In, <-list_elem_of_In. }
    assert ((0 <? n - length pending)%nat = true) as -> by (apply Nat.ltb_lt; lia). cbn [andb].
    apply elem_of_app. right.
    apply (list_elem_of_fmap_2 (λ it, (it.1, attempt_number it.2))), select_rows_all; [lia|done|done].
Qed.

Lemma claim_local now (tasks tasks1 : tasks_t) id a tasks' args : tasks1 !! id = tasks !! id →
  claim_admin_operation now tasks id a = Ok (tasks', args) →
  ∃ tasks1', claim_admin_operation now tasks1 id a = Ok (tasks1', args).
Proof.
  unfold claim_admin_operation, current_attempt. intros ->. destruct (tasks !! id) as [t|]; [|done].
  destruct (ad_dispatch t) as [dp|]; [|done]. destruct (_ =? _); [|done].
  destruct (guard_or _ _); [|done]. cbn. destruct (_registered_spec _ _ _); [|done]. cbn.
  destruct (guard_or _ _); [|done]. cbn. intros [= _ <-]. eauto.
Qed.

Lemma sweep_redelivers now exec r id t dp candidates (tasks : tasks_t) rq outcomes tasks' rq' outcomes' :
  rd_fetch_fails r = false → rd_enqueue_fails r = false → NoDup candidates.*1 →
  rows_ok tasks → one_owner tasks →
  ((lost now exec tasks rq id t dp ∧ rq !! (id, dp_attempt dp + 1) = None ∧ (id, dp_attempt dp) ∈ candidates) ∨
   (redelivered tasks rq id (ad_operation_type t, dp_options dp) ∧ ¬ (id ∈ candidates.*1))) →
  foldl (recover_next now exec r) (tasks, rq, outcomes) candidates = (tasks', rq', outcomes') →
  redelivered tasks' rq' id (ad_operation_type t, dp_options dp).
Proof.
  intros Hf He. revert tasks rq outcomes.
  induction candidates as [|c candidates IH]; intros tasks rq outcomes Hn Hrows Hown Hcase; cbn [foldl recover_next].
  { intros [= <- <- _]. destruct Hcase as [(_ & _ & []%elem_of_nil)|[? _]]; done. }
  destruct (recover_candidate now tasks rq exec r c) as [[tasks1 rq1] o1] eqn:Ec.
  destruct (recover_updated _ _ _ _ _ _ _ _ _ Hrows Hown Ec) as (Hr1 & Ho1 & Hfr).
  cbn in Hn. apply NoDup_cons in Hn as [Hnc Hn]. apply (IH tasks1 rq1); [done|done|done|].
  destruct Hcase as [(Hl & Hj & Hin)|[Hre Hnin]].
  - apply elem_of_cons in Hin as [<-|Hin].
    + right. split; [|done]. by eapply (recover_redelivers now tasks rq exec r id t dp).
    + left. assert (id ≠ c.1) as Hne by (intros ->; apply (list_elem_of_fmap_2 fst) in Hin; by apply Hnc).
      destruct (Hfr id Hne) as [E1 E2]. rewrite E2. split_and!; [|done|done].
      destruct Hl as [L1 L2 L3 L4 L5]. split; rewrite ?E1, ?E2; done.
  - right. cbn in Hnin. apply not_elem_of_cons in Hnin as [Hne Hnin]. split; [|done].
    destruct (Hfr id Hne) as [E1 E2]. destruct Hre as (a & Ha & Hclaim). exists a. rewrite E2. split; [done|].
    intros now'. destruct (Hclaim now') as [tasks2 H2]. by eapply claim_local.
Qed.

(** The sweep is a run of the system. *)
Lemma recover_reached (w : world) r c tasks' rq' o :
  reached w → recover_candidate (w_now w) (w_tasks w) (w_rq w) (w_exec w) r c = (tasks', rq', o) →
  reached (set_rq (set_tasks w tasks') rq').
Proof.
  intros (w0 & Hs & Hr) Hc. exists w0. split; [done|]. etrans; [exact Hr|]. destruct c as [id a].
  unfold recover_candidate in Hc.
  destruct (publish_admin_operation (w_now w) (w_tasks w) (w_rq w) id a r) as [[tasks1 rq1] o1] eqn:E1.
  eapply rtc_l; [by eapply a_publish|].
  destruct (bool_decide _); [|by injection Hc as <- <- _].
  destruct (prepare_admin_operation_recovery _ _ _ _ _ _) as [[tasks2 a2]|] eqn:E2; [|by injection Hc as <- <- _].
  eapply rtc_l; [eapply (a_recover (set_rq (set_tasks w tasks1) rq1)); [apply Z.le_refl|exact E2]|].
  apply rtc_once. by eapply (a_publish (set_tasks (set_rq (set_tasks w tasks1) rq1) tasks2)).
Qed.

Lemma sweep_reached (w : world) r grace limit b tasks' rq' outcomes : reached w →
  recover_admin_operation_dispatches (w_now w) (w_tasks w) (w_rq w) (w_exec w) r grace limit b =
    (tasks', rq', outcomes) → reached (set_rq (set_tasks w tasks') rq').
Proof.
  unfold recover_admin_operation_dispatches. generalize (select_due_admin_dispatches (w_now w) (w_tasks w) grace limit b).
  generalize (@nil PublishOutcome). intros outs l. revert w outs.
  induction l as [|c l IH]; intros w outs Hr; cbn [foldl recover_next].
  { intros [= <- <- _]. by destruct w. }
  destruct (recover_candidate _ _ _ _ _ c) as [[tasks1 rq1] o1] eqn:Ec.
  pose proof (recover_reached _ _ _ _ _ _ Hr Ec) as Hr1. intros H. exact (IH _ _ Hr1 H).
Qed.


End Recovery.
