(* ===== verification/AdminExample.v ===== *)
(** * A run of an administrator operation

    A rebuild is prepared, published and claimed; its worker commits three
    transactions, loses its lease session and its queue record; a recovery
    sweep delivers the next attempt, whose worker fails, and the operation is
    retried.  Witnesses of [AdminRuntimeSpec] and [AdminRecovery]. *)

From stdpp Require Import base gmap strings list relations.
From S2P Require Import Prelude Keyset TaskState TaskRuns TaskPipeline TaskEngine AdminOperations AdminRuntime AdminRuntimeFacts AdminRuntimeSpec AdminRecovery.

Open Scope string_scope.
Open Scope Z_scope.

Abbreviation world := (AWorld Z).

Definition rebuild : PrepareRequest :=
  mkPrepare "admin-rebuild" "library:rebuild:active" "Rebuild" "library" 7 "maintenance" None.
Definition redis_up : Redis := mkRedis false false false false "".

(** ** Steps as functions *)

Definition on_tasks {A} (w : world) (x : result AdminError (gmap Z (AdminTask Z) * A)) : world :=
  match x with Ok (tasks, _) => set_tasks w tasks | Err _ => w end.
Definition publish (w : world) (id attempt : Z) : world :=
  let '(tasks, rq, _) := publish_admin_operation (w_now w) (w_tasks w) (w_rq w) id attempt redis_up in
  set_rq (set_tasks w tasks) rq.
Definition deliver (w : world) (id attempt worker : Z) : world :=
  move (set_rq w (<[(id, attempt) := mkRqJob "started" id attempt]> (w_rq w))) worker (Delivered id attempt).
Definition lease (w : world) (scope : string) (id attempt worker : Z) : world :=
  move (set_exec w (<[scope := worker]> (w_exec w))) worker (Leased id attempt).
Definition claim (w : world) (id attempt worker : Z) : world :=
  move (on_tasks w (claim_admin_operation (w_now w) (w_tasks w) id attempt)) worker (Executing id attempt).
Definition commit (w : world) (id attempt worker : Z) : world :=
  record w (mkEffect worker id attempt "library:rebuild:active").
Definition tick (w : world) (n : Z) : world :=
  mkAWorld (w_now w + n) (w_tasks w) (w_exec w) (w_rq w) (w_workers w) (w_effects w).
Definition sweep (w : world) : world :=
  let '(tasks, rq, _) := recover_admin_operation_dispatches (w_now w) (w_tasks w) (w_rq w) (w_exec w)
                           redis_up ADMIN_DISPATCH_GRACE_SECONDS 25 true in
  set_rq (set_tasks w tasks) rq.
Definition finish (w : world) (id attempt worker : Z) (status : string) : world :=
  leave (set_tasks w (update_admin_task (w_now w) (w_tasks w) id attempt CALLBACK_STATUSES status
    (Some (Some "disk full")) None).1) worker.

(** ** The run *)

Definition scope := "library:rebuild:active".
Definition start : world := mkAWorld 1000 ∅ ∅ ∅ ∅ [].
Definition prepared : world := on_tasks start (prepare_admin_operation 1000 ∅ rebuild 1).
Definition delivered : world := deliver (publish prepared 1 1) 1 1 10.
Definition running : world := claim (lease delivered scope 1 1 10) 1 1 10.
Definition worked : world := commit (commit (commit running 1 1 10) 1 1 10) 1 1 10.
(** The lease session and the queue record are lost. *)
Definition stranded : world :=
  tick (set_rq (set_exec worked (delete scope (w_exec worked))) (delete (1, 1) (w_rq worked))) 200.
Definition recovered : world := sweep stranded.
Definition second : world := commit (claim (lease (deliver recovered 1 2 11) scope 1 2 11) 1 2 11) 1 2 11.
Definition ended : world := finish second 1 2 11 "failed".

Lemma start_started : started_up start.
Proof. by split. Qed.

Lemma reached_step (w w' : world) : reached w → astep w w' → reached w'.
Proof. intros (w0 & Hs & Hr) H. exists w0. split; [done|]. by eapply rtc_r. Qed.

Lemma publish_reached (w : world) id a : reached w → reached (publish w id a).
Proof.
  intros Hr. unfold publish. destruct (publish_admin_operation _ _ _ _ _ _) as [[tasks rq] o] eqn:E.
  eapply reached_step; [exact Hr|]. by eapply a_publish.
Qed.

(** When the guards of the steps hold. *)
Definition can_deliver (w : world) (id a k : Z) : bool :=
  match w_rq w !! (id, a) with
  | Some job => bool_decide (rq_status job = "queued") && bool_decide (rq_task job = id) &&
                bool_decide (rq_attempt job = a)
  | None => false
  end && bool_decide (is_Some (w_workers w !! k) → False).
Definition can_lease (w : world) (id a k : Z) : bool :=
  match w_workers w !! k with Some (Delivered i b) => (i =? id) && (b =? a) | _ => false end &&
  match w_tasks w !! id with Some t => bool_decide (_scope_for_task t = Some scope) | None => false end &&
  match w_exec w !! scope with None => true | Some _ => false end.
Definition can_claim (w : world) (id a k : Z) : bool :=
  match w_workers w !! k with Some (Leased i b) => (i =? id) && (b =? a) | _ => false end &&
  match claim_admin_operation (w_now w) (w_tasks w) id a with Ok _ => true | Err _ => false end.
Definition can_commit (w : world) (id a k : Z) : bool :=
  match w_workers w !! k with Some (Executing i b) => (i =? id) && (b =? a) | _ => false end &&
  match fence_current_admin_operation_transaction (w_tasks w) id a with
  | Ok t => bool_decide (dp_scope_key <$> ad_dispatch t = Some scope) | Err _ => false end.

Ltac guards := repeat (case_match; try done);
  rewrite ?andb_true_iff, ?bool_decide_eq_true, ?Z.eqb_eq in *; destruct_and?; subst.

Lemma deliver_reached w id a k : reached w → can_deliver w id a k = true → reached (deliver w id a k).
Proof.
  intros Hr H. unfold can_deliver in H. apply andb_true_iff in H as [H Hk].
  apply bool_decide_eq_true in Hk. destruct (w_rq w !! (id, a)) as [job|] eqn:E; [|done]. guards.
  eapply reached_step; [exact Hr|]. unfold deliver.
  eapply (a_deliver w (rq_task job, rq_attempt job) job k); [done|done|]. by apply eq_None_not_Some.
Qed.

Lemma lease_reached w id a k : reached w → can_lease w id a k = true → reached (lease w scope id a k).
Proof.
  intros Hr H. unfold can_lease in H. rewrite !andb_true_iff in H. destruct H as [[Hw Ht] Hx]. guards.
  eapply reached_step; [exact Hr|]. by eapply a_lease.
Qed.

Lemma claim_reached w id a k : reached w → can_claim w id a k = true → reached (claim w id a k).
Proof.
  intros Hr H. unfold can_claim in H. rewrite !andb_true_iff in H. destruct H as [Hw Hc].
  unfold claim. destruct (claim_admin_operation _ _ _ _) as [[tasks args]|] eqn:E; [|done]. guards.
  eapply reached_step; [exact Hr|]. by eapply a_claim.
Qed.

Lemma commit_reached w id a k : reached w → can_commit w id a k = true → reached (commit w id a k).
Proof.
  intros Hr H. unfold can_commit in H. rewrite !andb_true_iff in H. destruct H as [Hw Hf].
  destruct (fence_current_admin_operation_transaction _ _ _) as [t|] eqn:E; [|done]. guards.
  apply fmap_Some in Hf as (dp & Hd & Hs). eapply reached_step; [exact Hr|]. unfold commit. fold scope. rewrite Hs.
  by eapply a_commit.
Qed.

Lemma prepared_reached : reached prepared.
Proof.
  eapply (reached_step start); [exists start; split; [apply start_started|apply rtc_refl]|].
  by eapply (a_prepare start rebuild 1).
Qed.

Lemma running_reached : reached running.
Proof.
  apply claim_reached; [|vm_compute; reflexivity]. apply lease_reached; [|vm_compute; reflexivity].
  apply deliver_reached; [|vm_compute; reflexivity]. apply publish_reached, prepared_reached.
Qed.

Lemma worked_reached : reached worked.
Proof. unfold worked. do 3 (apply commit_reached; [|vm_compute; reflexivity]). apply running_reached. Qed.

Lemma stranded_reached : reached stranded.
Proof.
  unfold stranded. eapply reached_step; [|by apply a_tick].
  apply (reached_step (set_exec worked (delete scope (w_exec worked)))); [|exact (a_rq_expire _ (1, 1))].
  apply (reached_step worked); [apply worked_reached|apply a_lose_lease].
Qed.

Lemma recovered_reached : reached recovered.
Proof.
  unfold recovered, sweep.
  destruct (recover_admin_operation_dispatches _ _ _ _ _ _ _ _) as [[tasks rq] o] eqn:E.
  by eapply sweep_reached; [apply stranded_reached|].
Qed.

Lemma second_reached : reached second.
Proof.
  unfold second. apply commit_reached; [|vm_compute; reflexivity]. apply claim_reached; [|vm_compute; reflexivity].
  apply lease_reached; [|vm_compute; reflexivity]. apply deliver_reached; [|vm_compute; reflexivity].
  apply recovered_reached.
Qed.

Lemma ended_reached : reached ended.
Proof.
  eapply reached_step; [apply second_reached|].
  eapply (a_finish second 11 1 2 "failed"); [vm_compute; reflexivity|set_solver|]. apply surjective_pairing.
Qed.

(** The stranded worker's next transaction is rolled back. *)
Example stranded_worker_fenced :
  w_workers second !! 10 = Some (Executing 1 1) ∧
  fence_current_admin_operation_transaction (w_tasks second) 1 1 = Err AttemptRejected.
Proof. split; vm_compute; reflexivity. Qed.

(** Another rebuild is refused while one is active. *)
Example second_rebuild_refused :
  prepare_admin_operation (w_now running) (w_tasks running) rebuild 2 = Err (AlreadyRunning 1).
Proof. vm_compute. reflexivity. Qed.

(** ** Witnesses *)

Definition row_of (w : world) : AdminTask Z :=
  default (mkAdminTask (new_task 0 true "enqueued" None) "" "" "" (0, 0) 0 None None None None) (w_tasks w !! 1).
Definition dispatch_of (w : world) : Dispatch Z :=
  default (_new_dispatch 0 0 0 "" "" "" 0 0) (ad_dispatch (row_of w)).

Lemma scope_single_flight_witness :
  active (row_of running) = true ∧ (∀ j u, w_tasks running !! j = Some u → active u = true →
    _scope_for_task u = Some scope → 1 = j).
Proof.
  split; [vm_compute; reflexivity|]. intros j u Hu Ha Hs.
  apply (scope_single_flight running 1 j (row_of running) u scope);
    [apply running_reached|vm_compute; reflexivity|done|vm_compute; reflexivity|done|vm_compute; reflexivity|done].
Defined.

Lemma attempts_never_interleave_witness : ∃ e f g,
  w_effects ended !! 0%nat = Some e ∧ w_effects ended !! 1%nat = Some f ∧ w_effects ended !! 2%nat = Some g ∧
  ef_worker f = ef_worker e ∧ ef_worker g = ef_worker e.
Proof.
  exists (mkEffect 10 1 1 scope), (mkEffect 10 1 1 scope), (mkEffect 10 1 1 scope).
  assert (w_effects ended = [mkEffect 10 1 1 scope; mkEffect 10 1 1 scope; mkEffect 10 1 1 scope; mkEffect 11 1 2 scope]%list)
    as E by (vm_compute; reflexivity).
  destruct (attempts_never_interleave ended 0 1 2 (mkEffect 10 1 1 scope) (mkEffect 10 1 1 scope) (mkEffect 10 1 1 scope))
    as (_ & _ & H1 & H2); [apply ended_reached|rewrite E; reflexivity|rewrite E; reflexivity|rewrite E; reflexivity|lia|reflexivity|reflexivity|reflexivity|].
  rewrite E. split_and!; [reflexivity|reflexivity|reflexivity|exact H1|exact H2].
Defined.

Lemma dispatches_well_formed_witness :
  dispatch_valid (row_of second) = true ∧ ad_rq_job_id (row_of second) = (1, 2).
Proof.
  destruct (dispatches_well_formed second 1 (row_of second) (dispatch_of second)) as (H1 & H2 & H3 & H4 & _);
    [apply second_reached|vm_compute; reflexivity|vm_compute; reflexivity|].
  split; [exact H1|]. rewrite H4. vm_compute. reflexivity.
Defined.

Lemma offered_retry_accepted_witness :
  "retry" ∈ (decide_admin (row_of ended) false).1 ∧
  ∃ t', prepare_admin_operation_retry (w_now ended) (w_tasks ended) (w_exec ended) 1 None =
          Ok (<[1 := t']> (w_tasks ended), 3) ∧ ad_status t' = "enqueued" ∧ dispatch_valid t' = true.
Proof.
  assert ("retry" ∈ (decide_admin (row_of ended) false).1) as Hr
    by (apply retry_offered; [vm_compute; discriminate|vm_compute; reflexivity|vm_compute; left]).
  split; [exact Hr|].
  destruct (offered_retry_accepted ended 1 (row_of ended) false) as (t' & H1 & H2 & _ & H3 & _);
    [apply ended_reached|vm_compute; reflexivity|exact Hr|vm_compute; discriminate| |].
  - intros s Hs. assert (s = scope) as -> by (vm_compute in Hs; injection Hs as <-; reflexivity). split; vm_compute; reflexivity.
  - exists t'. split; [exact H1|split; [exact H2|exact H3]].
Defined.

