(* ===== verification/SchedulerBatches.v ===== *)
(** * Subscription sync batches

    [app/services/scheduler_batches.py]: a batch synchronises every eligible
    subscription source once, as an administrator operation that works in
    slices.  Each source is an item; a slice visits due items, enqueues a
    download for an unbound item and follows the download of a bound one, and
    ends the batch or hands it to the next attempt.  Cancelling a batch
    prepares a second operation that cancels its items in slices.

    Downloads, imports, artifacts and receipts belong to other components:
    [d_children] holds what [reconcile_item] reads of them, and
    [enqueue_subscription_source_sync] is represented by its answers.  The
    receipt [reconcile_item] writes and the identifiers in an item's outcome
    are left out, as are operators and notes. *)

From stdpp Require Import base gmap strings list.
From S2P Require Import Prelude Keyset TaskState TaskRuns TaskPipeline TaskEngine AdminOperations.

Open Scope string_scope.
Open Scope Z_scope.

Definition OPERATION : string := "subscription-sync-batch".
Definition SCOPE : string := "library:subscription-sync-batch:active".
Definition ITEM_TERMINAL : list string := ["succeeded"; "skipped"; "failed"; "cancelled"].
Definition TRANSIENT : list string := [
  "lock_busy"; "membership_lock_busy"; "already_running"; "recent_failure_backoff";
  "resource_pressure"; "queue_saturated"; "enqueue_busy"; "redis_capacity"; "redis_unwritable";
  "disk_backpressure"; "import_backpressure"; "storage_unavailable"; "admission_check_failed";
  "enqueue_failed"; "proxy_degraded"; "download_unavailable" ].

(** The statuses [summarize] reports. *)
Definition ITEM_STATUSES : list string :=
  ["pending"; "queued"; "waiting"; "downloading"; "importing"; "succeeded"; "skipped"; "failed"; "cancelled"].

(** ** Rows *)

Record Summary := mkSummary {
  su_mode : string;
  su_candidate_count : Z;
  su_counts : list (string * Z);
  su_skipped_reasons : list (option string * Z);
  su_enqueued_count : Z }.

Record Batch := mkBatch {
  ba_task : Z;
  ba_request : Z;
  ba_mode : string;
  ba_state : string;
  ba_initialized_at : option Z;
  ba_result : option Summary }.

Record Item := mkItem {
  it_batch : Z;
  it_source : Z;
  it_status : string;
  it_next_retry_at : option Z;
  it_attempts : Z;
  it_download : option Z;
  it_child : option Z;
  it_owns : bool;
  it_reason : option string;
  it_error : option string;
  it_outcome : option string }.

(** A source with its subscription: the flags [initialize_batch] reads. *)
Record Source := mkSource {
  so_enabled : bool;
  so_private_enabled : bool;
  so_subscription_active : bool;
  so_sync_enabled : bool }.

(** The rows of one download: its status, the status of its receipt, the
    statuses of its imports, newest first, and whether an artifact of it is new,
    importing or failed. *)
Record ChildFacts := mkFacts {
  cf_job : option string;
  cf_receipt : option string;
  cf_imports : list string;
  cf_recoverable : bool }.

(** The options of the two operations. *)
Inductive BatchOptions :=
| OBatch (mode : string)
| OCleanup (batch parent : Z)
| OOther.

(** [d_cleanup]: the cleanup task named in a parent's metadata, and
    [cleanup_pending] of its result. *)
Record BatchDb := mkBatchDb {
  d_tasks : gmap Z (AdminTask BatchOptions);
  d_batches : gmap Z Batch;
  d_items : gmap Z Item;
  d_sources : gmap Z Source;
  d_children : gmap Z ChildFacts;
  d_cleanup : gmap Z (Z * bool) }.

Definition put_tasks (x : gmap Z (AdminTask BatchOptions)) (db : BatchDb) : BatchDb :=
  mkBatchDb x (d_batches db) (d_items db) (d_sources db) (d_children db) (d_cleanup db).
Definition put_batch (id : Z) (b : Batch) (db : BatchDb) : BatchDb :=
  mkBatchDb (d_tasks db) (<[id := b]> (d_batches db)) (d_items db) (d_sources db) (d_children db) (d_cleanup db).
Definition put_items (x : gmap Z Item) (db : BatchDb) : BatchDb :=
  mkBatchDb (d_tasks db) (d_batches db) x (d_sources db) (d_children db) (d_cleanup db).
Definition put_item (id : Z) (i : Item) (db : BatchDb) : BatchDb := put_items (<[id := i]> (d_items db)) db.
Definition put_child (id : Z) (f : ChildFacts) (db : BatchDb) : BatchDb :=
  mkBatchDb (d_tasks db) (d_batches db) (d_items db) (d_sources db) (<[id := f]> (d_children db)) (d_cleanup db).
Definition put_cleanup (task : Z) (c : Z * bool) (db : BatchDb) : BatchDb :=
  mkBatchDb (d_tasks db) (d_batches db) (d_items db) (d_sources db) (d_children db) (<[task := c]> (d_cleanup db)).

Definition terminal (i : Item) : bool := bool_decide (it_status i ∈ ITEM_TERMINAL).

Definition set_batch_state (b : Batch) (s : string) : Batch :=
  mkBatch (ba_task b) (ba_request b) (ba_mode b) s (ba_initialized_at b) (ba_result b).
Definition set_batch_result (b : Batch) (r : Summary) : Batch :=
  mkBatch (ba_task b) (ba_request b) (ba_mode b) (ba_state b) (ba_initialized_at b) (Some r).
Definition set_initialized (b : Batch) (at_ : Z) : Batch :=
  mkBatch (ba_task b) (ba_request b) (ba_mode b) (ba_state b) (Some at_) (ba_result b).

(** ** Admission *)

Inductive BatchError :=
| InvalidMode
| RequestModeConflict (task : Z)
| BatchActive (task : Z)
| BatchTaskNotFound
| BatchTerminal
| LegacyBatch
| Admin (e : AdminError).

Definition MODES : list string := ["force_eligible"; "due_scan"; "manual_all_enabled"].

Definition find_batch (p : Batch → bool) (db : BatchDb) : option (Z * Batch) :=
  List.find (λ kb, p kb.2) (map_to_list (d_batches db)).
Definition batch_of_request (request : Z) : BatchDb → option (Z * Batch) :=
  find_batch (λ b, ba_request b =? request).
Definition batch_of_task (task : Z) : BatchDb → option (Z * Batch) :=
  find_batch (λ b, ba_task b =? task).
Definition active_batch : BatchDb → option (Z * Batch) :=
  find_batch (λ b, bool_decide (ba_state b = "active")).

(** The request of the new operation. *)
Definition batch_request (mode : string) : PrepareRequest (O := BatchOptions) :=
  mkPrepare OPERATION SCOPE "Sync subscription sources" OPERATION (OBatch mode) "operations" None.

Definition lift_admin {A} (r : result AdminError A) : result BatchError A :=
  match r with Ok a => Ok a | Err e => Err (Admin e) end.

(** The answer is the task of the batch. *)
Definition admit_batch (now : Z) (db : BatchDb) (mode : string) (request fresh_task fresh_batch : Z)
    : result BatchError (BatchDb * Z) :=
  guard_or (bool_decide (mode ∈ MODES)) InvalidMode ≫= λ _,
  match batch_of_request request db with
  | Some (_, b) =>
      guard_or (bool_decide (ba_mode b = mode)) (RequestModeConflict (ba_task b)) ≫= λ _,
      Ok (db, ba_task b)
  | None =>
      match active_batch db with
      | Some (_, b) => Err (BatchActive (ba_task b))
      | None =>
          lift_admin (prepare_admin_operation now (d_tasks db) (batch_request mode) fresh_task)
            ≫= λ prepared,
          Ok (put_batch fresh_batch (mkBatch fresh_task request mode "active" None None)
                (put_tasks prepared.1 db), fresh_task)
      end
  end.

(** ** Transactions of a worker *)

(** A transaction that ends with the fence of the delivery [(task, attempt)]:
    a rejected attempt rolls it back. *)
Inductive Outcome := Committed | Rejected.
Global Instance Outcome_eq_dec : EqDecision Outcome.
Proof. solve_decision. Defined.

Definition fenced (db : BatchDb) (task attempt : Z) (after : BatchDb) : BatchDb * Outcome :=
  match fence_current_admin_operation_transaction (d_tasks db) task attempt with
  | Ok _ => (after, Committed)
  | Err _ => (db, Rejected)
  end.

(** *** The snapshot of the sources *)

Definition candidate (mode : string) (s : Source) : bool :=
  let manual := bool_decide (mode = "manual_all_enabled") in
  so_subscription_active s && (so_enabled s || (manual && so_private_enabled s)) &&
  (manual || so_sync_enabled s).

Definition new_item (batch source : Z) : Item :=
  mkItem batch source "pending" None 0 None None false None None None.

Definition has_item (batch source : Z) (items : gmap Z Item) : bool :=
  existsb (λ ki, (it_batch ki.2 =? batch) && (it_source ki.2 =? source)) (map_to_list items).

(** [new_id] are the random identifiers of the new rows. *)
Definition insert_candidates (batch : Z) (new_id : Z → Z) (sources : list (Z * Source))
    (items : gmap Z Item) : gmap Z Item :=
  foldr (λ s items, if has_item batch s.1 items then items
                    else <[new_id s.1 := new_item batch s.1]> items) items sources.

Definition initialize_batch (now : Z) (db : BatchDb) (task attempt : Z) (new_id : Z → Z)
    : BatchDb * Outcome :=
  match batch_of_task task db with
  | None => (db, Rejected)
  | Some (id, b) =>
      fenced db task attempt
        (match ba_initialized_at b with
         | Some _ => db
         | None =>
             put_batch id (set_initialized b now)
               (put_items (insert_candidates id new_id
                  (List.filter (λ s, candidate (ba_mode b) s.2) (map_to_list (d_sources db))) (d_items db)) db)
         end)
  end.

(** *** Items *)

Definition set_item (i : Item) (status : string) (reason : option string) (error : option string)
    (retry : option Z) : Item :=
  mkItem (it_batch i) (it_source i) status retry (it_attempts i) (it_download i) (it_child i) (it_owns i)
    reason error (it_outcome i).
Definition count_attempt (i : Item) : Item :=
  mkItem (it_batch i) (it_source i) (it_status i) (it_next_retry_at i) (it_attempts i + 1) (it_download i)
    (it_child i) (it_owns i) (it_reason i) (it_error i) (it_outcome i).
Definition bind_download (i : Item) (job : Z) (child : option Z) (owns : bool) (status : string) : Item :=
  mkItem (it_batch i) (it_source i) status (it_next_retry_at i) (it_attempts i) (Some job) child owns
    (it_reason i) (it_error i) (it_outcome i).
Definition with_outcome (i : Item) (o : string) : Item :=
  mkItem (it_batch i) (it_source i) (it_status i) (it_next_retry_at i) (it_attempts i) (it_download i)
    (it_child i) (it_owns i) (it_reason i) (it_error i) (Some o).

Definition defer_delay (attempts : Z) : Z := Z.min 300 (30 * 2 ^ Z.min (Z.max (attempts - 1) 0) 4).

Definition defer (now : Z) (i : Item) (reason : string) (error : option string) : Item :=
  set_item i "waiting" (Some reason) (String.substring 0 500 <$> error) (Some (now + defer_delay (it_attempts i))).

Definition no_facts : ChildFacts := mkFacts None None [] false.
Definition facts_of (db : BatchDb) (job : Z) : ChildFacts := default no_facts (d_children db !! job).

(** What the rows of the download say. *)
Definition child_status (f : ChildFacts) : option string :=
  let status := match cf_job f with Some s => Some s | None => cf_receipt f end in
  match cf_imports f with
  | newest :: _ => if bool_decide (newest ∈ ["failed"; "stale"; "cancelled"]) then Some newest else status
  | [] => status
  end.

Definition reconciled_status (f : ChildFacts) (i : Item) : Item :=
  let status := child_status f in
  let is_in l := bool_decide (default "" status ∈ (l : list string)) in
  let move s := set_item i s (it_reason i) (it_error i) (it_next_retry_at i) in
  let active_import := existsb (λ s, bool_decide (s ∈ ["enqueued"; "running"; "paused"; "recovering"])) (cf_imports f) in
  if active_import || (cf_recoverable f && negb (is_in ["failed"; "stale"; "cancelled"])) then move "importing"
  else if is_in ["enqueued"; "paused"] then move (if is_in ["enqueued"] then "queued" else "waiting")
  else if is_in ["downloading"; "running"; "recovering"] then move "downloading"
  else if is_in ["downloaded"; "importing"] then move "importing"
  else if is_in ["complete"; "failed"; "stale"; "cancelled"] then
    let s := default "" status in
    let complete := bool_decide (s = "complete") in
    with_outcome (set_item i (if complete then "succeeded" else "failed")
      (Some (if complete then "sync_complete" else "child_" +:+ s)) (it_error i) (it_next_retry_at i)) s
  else match cf_job f with
       | None => set_item i "failed" (Some "child_identity_missing")
                   (Some "Download identity has no current row or durable receipt; manual reconciliation required")
                   (it_next_retry_at i)
       | Some _ => i
       end.

Definition reconcile_item (now : Z) (db : BatchDb) (i : Item) : Item :=
  match it_download i with
  | None => i
  | Some job =>
      let i := reconciled_status (facts_of db job) i in
      set_item i (it_status i) (it_reason i) (it_error i) (if terminal i then None else Some (now + 30))
  end.

(** The answers of [enqueue_subscription_source_sync]: a new download bound to
    the item, an earlier download linked by the recovery of an old batch, or a
    refusal with its code, the running download it names, whether it may be
    retried, and whether it is an error. *)
Inductive EnqueueResult :=
| Bound (job child : Z)
| Linked (job : Z)
| Refused (code : string) (linked : option Z) (retryable error : bool).

Definition settle_refusal (now : Z) (db : BatchDb) (code : string) (linked : option Z)
    (retryable error : bool) (i : Item) : Item :=
  match linked with
  | Some job =>
      if bool_decide (code = "already_running")
      then reconcile_item now db (bind_download i job (it_child i) false (it_status i))
      else if bool_decide (code ∈ TRANSIENT) || retryable then defer now i code None
      else set_item i (if error then "failed" else "skipped") (Some code) (it_error i) (it_next_retry_at i)
  | None =>
      if bool_decide (code ∈ TRANSIENT) || retryable then defer now i code None
      else set_item i (if error then "failed" else "skipped") (Some code) (it_error i) (it_next_retry_at i)
  end.

(** The transaction of the enqueue helper that binds a new download. *)
Definition bind_item (db : BatchDb) (id task attempt : Z) (i : Item) (job child : Z) : BatchDb * Outcome :=
  fenced db task attempt
    (put_child job (mkFacts (Some "enqueued") None [] false)
       (put_item id (bind_download i job (Some child) true "queued") db)).

Definition _publish_bound_child (now : Z) (db : BatchDb) (id task attempt : Z) (publication : option string)
    : BatchDb * Outcome :=
  match d_items db !! id, publication with
  | Some i, Some p =>
      match it_download i with
      | Some job =>
          if it_owns i && bool_decide (cf_job (facts_of db job) = Some "enqueued") && negb (terminal i) then
            let i' := if bool_decide (p = "deferred") then defer now i "publication_deferred" None
                      else if bool_decide (p = "cancelled") then i
                      else let j := reconcile_item now db i in
                           if bool_decide (it_status j = "queued")
                           then set_item j (it_status j) None (it_error j) (it_next_retry_at j) else j in
            fenced db task attempt (put_item id i' db)
          else (db, Committed)
      | None => (db, Committed)
      end
  | _, _ => (db, Committed)
  end.

(** Its transactions on an open item. *)
Definition enqueue_or_follow (now : Z) (db : BatchDb) (id task attempt : Z) (enqueue : EnqueueResult) (i : Item)
    : BatchDb * Outcome :=
  match it_download i, enqueue with
  | Some _, _ => fenced db task attempt (put_item id (reconcile_item now db i) db)
  | None, Bound job child =>
      match bind_item db id task attempt i job child with
      | (db', Rejected) => (db', Rejected)
      | (db', Committed) =>
          fenced db' task attempt
            (put_item id (reconcile_item now db' (bind_download i job (Some child) true "queued")) db')
      end
  | None, Linked job =>
      fenced db task attempt
        (put_item id (reconcile_item now db (bind_download i job (it_child i) false (it_status i))) db)
  | None, Refused code linked retryable error =>
      fenced db task attempt (put_item id (settle_refusal now db code linked retryable error i) db)
  end.

Definition _process_item (now : Z) (db : BatchDb) (id task attempt : Z) (enqueue : EnqueueResult)
    (publication : option string) : BatchDb * Outcome :=
  match d_items db !! id with
  | None => (db, Committed)
  | Some i =>
      if terminal i then (db, Committed)
      else
        match enqueue_or_follow now db id task attempt enqueue (count_attempt i) with
        | (db', Committed) => _publish_bound_child now db' id task attempt publication
        | (db', Rejected) => (db', Rejected)
        end
  end.

(** [infrastructure]: the exception is one of the queue or the database. *)
Definition _record_item_error (now : Z) (db : BatchDb) (id task attempt : Z) (infrastructure : bool)
    (text : string) : BatchDb * Outcome :=
  match d_items db !! id with
  | None => (db, Committed)
  | Some i =>
      if terminal i then (db, Committed)
      else
        let i := count_attempt i in
        fenced db task attempt (put_item id
          (if infrastructure then defer now i "infrastructure_unavailable" (Some text)
           else set_item i "failed" (Some "unexpected_source_error") (Some (String.substring 0 500 text))
                  (it_next_retry_at i)) db)
  end.

(** ** Slices *)

Definition items_of (db : BatchDb) (batch : Z) : list (Z * Item) :=
  List.filter (λ ki, it_batch ki.2 =? batch) (map_to_list (d_items db)).

Definition count_items (p : Item → bool) (items : list (Z * Item)) : Z :=
  Z.of_nat (length (List.filter (λ ki, p ki.2) items)).

Definition has_status (s : string) (i : Item) : bool := bool_decide (it_status i = s).

Definition reasons_of (items : list (Z * Item)) : list (option string) :=
  remove_dups ((λ ki, it_reason ki.2) <$> List.filter (λ ki, has_status "skipped" ki.2) items).

Definition summarize (db : BatchDb) (id : Z) (b : Batch) : Summary :=
  let items := items_of db id in
  mkSummary (ba_mode b) (Z.of_nat (length items))
    ((λ s, (s, count_items (has_status s) items)) <$> ITEM_STATUSES)
    ((λ r, (r, count_items (λ i, has_status "skipped" i && bool_decide (it_reason i = r)) items)) <$> reasons_of items)
    (count_items it_owns items).

Definition count_of (r : Summary) (s : string) : Z := default 0 (assoc s (su_counts r)).
Definition terminal_count (r : Summary) : Z := foldr (λ s n, count_of r s + n) 0 ITEM_TERMINAL.
Definition pending (r : Summary) : bool := terminal_count r <? su_candidate_count r.

Definition due (now : Z) (i : Item) : bool :=
  match it_next_retry_at i with None => true | Some at_ => at_ <=? now end.

(** [order_by(next_retry_at.asc().nullsfirst(), id)] *)
Definition item_before (a b : Z * Item) : bool :=
  let rank x := match x with None => (0, 0) | Some z => (1, z) end in
  let '(n1, v1) := rank (it_next_retry_at a.2) in
  let '(n2, v2) := rank (it_next_retry_at b.2) in
  (n1 <? n2) || (n1 =? n2) && ((v1 <? v2) || (v1 =? v2) && (a.1 <? b.1)).

Definition SLICE_LIMIT : nat := 25.

Definition due_items (now : Z) (db : BatchDb) (batch : Z) : list Z :=
  fst <$> select_rows (λ ki, (it_batch ki.2 =? batch) && negb (terminal ki.2) && due now ki.2) item_before 0
            SLICE_LIMIT (map_to_list (d_items db)).

(** What happens with one item of a slice: it is processed, an exception is
    raised, or the time of the slice is up. *)
Inductive ItemEvent :=
| Ran (enqueue : EnqueueResult) (publication : option string)
| Raised (infrastructure : bool) (text : string)
| OutOfTime.

Fixpoint visit_items (now : Z) (db : BatchDb) (task attempt : Z) (ids : list Z) (events : list ItemEvent)
    : BatchDb * Outcome :=
  match ids, events with
  | id :: ids, Ran enqueue publication :: events =>
      match _process_item now db id task attempt enqueue publication with
      | (db', Rejected) => (db', Rejected)
      | (db', Committed) => visit_items now db' task attempt ids events
      end
  | id :: ids, Raised infrastructure text :: events =>
      match _record_item_error now db id task attempt infrastructure text with
      | (db', Rejected) => (db', Rejected)
      | (db', Committed) => visit_items now db' task attempt ids events
      end
  | _, _ => (db, Committed)
  end.

Definition minimum (l : list Z) : option Z :=
  match l with [] => None | x :: l => Some (foldr Z.min x l) end.

(** [max(1, min(300, (next_due - now).total_seconds()))], or 1 when an item is
    due, or 30 when no item has a time. *)
Definition handoff_delay (now : Z) (open_items : list (Z * Item)) : Z :=
  if existsb (λ ki, due now ki.2) open_items then 1
  else match minimum (omap (λ ki, it_next_retry_at ki.2) open_items) with
       | Some next_due => Z.max 1 (Z.min 300 (next_due - now))
       | None => 30
       end.

Inductive SliceEnd :=
| SliceRejected
| HandOff (attempt : Z) (ready : bool)
| SliceDone (status : string).

Definition result_status (r : Summary) : string :=
  if pending r then "pending"
  else if 0 <? count_of r "failed" then "partial_error"
  else if 0 <? count_of r "succeeded" then "complete" else "noop".

(** [TaskService.update_task] with progress and result only. *)
Definition touched (now : Z) (tasks : gmap Z (AdminTask BatchOptions)) (id : Z)
    : gmap Z (AdminTask BatchOptions) :=
  match tasks !! id with
  | Some t => <[id := set_run t (touch now None None None (ad_run t))]> tasks
  | None => tasks
  end.

(** The last transaction of a slice. *)
Definition finish_slice (now : Z) (db : BatchDb) (batch task attempt : Z) (options : BatchOptions)
    : BatchDb * SliceEnd :=
  match d_batches db !! batch, fence_current_admin_operation_transaction (d_tasks db) task attempt with
  | Some b, Ok _ =>
      let r := summarize db batch b in
      let b := set_batch_result b r in
      let tasks := touched now (d_tasks db) task in
      if pending r then
        let open_items := List.filter (λ ki, negb (terminal ki.2)) (items_of db batch) in
        match prepare_admin_operation_handoff now tasks task attempt options (handoff_delay now open_items) with
        | Some (tasks', next) =>
            (put_tasks tasks' (put_batch batch b db), HandOff next (existsb (λ ki, due now ki.2) open_items))
        | None => (db, SliceRejected)
        end
      else (put_tasks tasks (put_batch batch
              (set_batch_state b (if 0 <? count_of r "failed" then "failed" else "complete")) db),
            SliceDone (result_status r))
  | _, _ => (db, SliceRejected)
  end.

Definition _run_batch_slice (now : Z) (db : BatchDb) (task attempt : Z) (options : BatchOptions)
    (new_id : Z → Z) (events : list ItemEvent) : BatchDb * SliceEnd :=
  match initialize_batch now db task attempt new_id, batch_of_task task db with
  | (db, Committed), Some (batch, _) =>
      match visit_items now db task attempt (due_items now db batch) events with
      | (db, Committed) => finish_slice now db batch task attempt options
      | (db, Rejected) => (db, SliceRejected)
      end
  | (db, _), _ => (db, SliceRejected)
  end.

Definition _defer_infrastructure_slice (now : Z) (db : BatchDb) (task attempt : Z) (options : BatchOptions)
    : BatchDb * SliceEnd :=
  match fence_current_admin_operation_transaction (d_tasks db) task attempt with
  | Ok _ =>
      match prepare_admin_operation_handoff now (touched now (d_tasks db) task) task attempt options 30 with
      | Some (tasks', next) => (put_tasks tasks' db, HandOff next false)
      | None => (db, SliceRejected)
      end
  | Err _ => (db, SliceRejected)
  end.

(** ** Cancellation *)

Definition cleanup_request (batch task : Z) (scope : string) : PrepareRequest (O := BatchOptions) :=
  mkPrepare "subscription-sync-batch-cleanup" scope "Cancel subscription batch downloads"
    "subscription-sync-batch-cleanup" (OCleanup batch task) "operations" None.

(** [scope] is [f"library:subscription-sync-cancel:{task_id}"].  The first
    commit cancels the parent with its cleanup, the second one the batch. *)
Definition cancel_batch (now : Z) (db : BatchDb) (task : Z) (scope : string) (fresh : Z)
    : result BatchError (BatchDb * BatchDb * (Z * bool)) :=
  match d_tasks db !! task with
  | None => Err BatchTaskNotFound
  | Some t =>
      guard_or (negb (bool_decide (ad_status t = "complete"))) BatchTerminal ≫= λ _,
      match batch_of_task task db with
      | None => Err LegacyBatch
      | Some (batch, b) =>
          let closed := set_batch_state b "cancelled" in
          match d_cleanup db !! task with
          | Some c => Ok (db, put_batch batch closed db, c)
          | None =>
              lift_admin (prepare_admin_operation now (d_tasks db) (cleanup_request batch task scope) fresh)
                ≫= λ prepared,
              let tasks := match prepared.1 !! task with
                           | Some t => <[task := set_run t (touch now (Some "cancelled") None None (ad_run t))]> prepared.1
                           | None => prepared.1 end in
              let db1 := put_cleanup task (fresh, true) (put_tasks tasks db) in
              Ok (db1, put_batch batch closed db1, (fresh, true))
          end
      end
  end.

Definition cancel_item (now : Z) (i : Item) : Item :=
  set_item i "cancelled" (Some "batch_cancelled") (it_error i) None.

(** [TaskEngine.cancel_download] as the item sees it. *)
Definition cancel_child (db : BatchDb) (job : Z) : BatchDb :=
  let f := facts_of db job in
  put_child job (mkFacts (Some "cancelled") (cf_receipt f) (cf_imports f) (cf_recoverable f)) db.

(** The item read again under the locks of its download, and whether the
    download is cancelled. *)
Definition cancel_download_of (now : Z) (db : BatchDb) (i : Item) : Item * option Z :=
  match it_download i with
  | Some job =>
      if terminal i then (i, None)
      else
        let i := reconcile_item now db i in
        (i, if negb (terminal i) && it_owns i &&
               match cf_job (facts_of db job) with
               | Some s => bool_decide (s ∈ DOWNLOAD_CANCELLABLE_STATUSES)
               | None => false
               end
            then Some job else None)
  | None => (i, None)
  end.

Definition _cancel_batch_item (now : Z) (db : BatchDb) (id task attempt : Z) : BatchDb * Outcome :=
  match d_items db !! id with
  | None => (db, Committed)
  | Some i =>
      if terminal i then (db, Committed)
      else
        let '(i, job) := cancel_download_of now db (reconcile_item now db (count_attempt i)) in
        let db' := match job with Some job => cancel_child db job | None => db end in
        fenced db task attempt (put_item id (if terminal i then i else cancel_item now i) db')
  end.

Definition retry_cancel (now : Z) (db : BatchDb) (id task attempt : Z) (text : string) : BatchDb * Outcome :=
  match d_items db !! id with
  | None => (db, Committed)
  | Some i => fenced db task attempt (put_item id (defer now (count_attempt i) "cancel_retry" (Some text)) db)
  end.

(** The items without a download, cancelled in one statement. *)
Definition cancel_unbound (batch : Z) (items : gmap Z Item) : gmap Z Item :=
  (λ i, if (it_batch i =? batch) && bool_decide (it_download i = None) && negb (terminal i)
        then set_item i "cancelled" (Some "batch_cancelled") (it_error i) None else i) <$> items.

Definition cancel_due (now : Z) (i : Item) : bool :=
  negb (bool_decide (it_reason i = Some "cancel_retry")) ||
  match it_next_retry_at i with Some at_ => at_ <=? now | None => false end.

Definition open_for_cancel (now batch : Z) (i : Item) : bool :=
  (it_batch i =? batch) && negb (terminal i) && cancel_due now i.

Inductive CancelEvent := Cancelled | CancelRaised (text : string) | CancelOutOfTime.

Fixpoint visit_cancels (now : Z) (db : BatchDb) (task attempt : Z) (ids : list Z) (events : list CancelEvent)
    : BatchDb * Outcome :=
  match ids, events with
  | id :: ids, Cancelled :: events =>
      match _cancel_batch_item now db id task attempt with
      | (db', Rejected) => (db', Rejected)
      | (db', Committed) => visit_cancels now db' task attempt ids events
      end
  | id :: ids, CancelRaised text :: events =>
      match retry_cancel now db id task attempt text with
      | (db', Rejected) => (db', Rejected)
      | (db', Committed) => visit_cancels now db' task attempt ids events
      end
  | _, _ => (db, Committed)
  end.

Definition parent_cancelled (db : BatchDb) (parent : Z) : bool :=
  match d_tasks db !! parent with Some t => bool_decide (ad_status t = "cancelled") | None => false end.

(** [cleanup_pending] in the result of a cancelled parent. *)
Definition note_pending (parent : Z) (p : bool) (db : BatchDb) : BatchDb :=
  if parent_cancelled db parent
  then match d_cleanup db !! parent with Some (c, _) => put_cleanup parent (c, p) db | None => db end
  else db.

(** The last transaction of a cleanup slice. *)
Definition finish_cleanup (now : Z) (db : BatchDb) (batch parent task attempt : Z) (options : BatchOptions)
    : BatchDb * SliceEnd :=
  match d_batches db !! batch, fence_current_admin_operation_transaction (d_tasks db) task attempt with
  | Some b, Ok _ =>
      let r := summarize db batch b in
      let b := set_batch_state (set_batch_result b r) "cancelled" in
      let tasks := if parent_cancelled db parent then touched now (d_tasks db) parent else d_tasks db in
      let db1 := note_pending parent (pending r) (put_batch batch b db) in
      if pending r then
        let ready := existsb (λ ki, open_for_cancel now batch ki.2) (map_to_list (d_items db)) in
        match prepare_admin_operation_handoff now tasks task attempt options (if ready then 1 else 30) with
        | Some (tasks', next) => (put_tasks tasks' db1, HandOff next ready)
        | None => (db, SliceRejected)
        end
      else (put_tasks tasks db1, SliceDone "cancelled")
  | _, _ => (db, SliceRejected)
  end.

Definition _run_batch_cleanup_slice (now : Z) (db : BatchDb) (task attempt batch parent : Z)
    (events : list CancelEvent) : BatchDb * SliceEnd :=
  match fenced db task attempt (put_items (cancel_unbound batch (d_items db)) db) with
  | (db, Committed) =>
      let ids := fst <$> select_rows (λ ki, open_for_cancel now batch ki.2) item_before 0 SLICE_LIMIT
                           (map_to_list (d_items db)) in
      match visit_cancels now db task attempt ids events with
      | (db, Committed) => finish_cleanup now db batch parent task attempt (OCleanup batch parent)
      | (db, Rejected) => (db, SliceRejected)
      end
  | (db, Rejected) => (db, SliceRejected)
  end.

(** ** Reading *)

Definition batch_items (db : BatchDb) (task offset limit : Z) : option (Z * list (Z * Item)) :=
  match batch_of_task task db with
  | None => None
  | Some (batch, _) =>
      Some (Z.of_nat (length (items_of db batch)),
            select_rows (λ ki, it_batch ki.2 =? batch) (λ a b, a.1 <? b.1) (Z.to_nat (Z.max 0 offset))
              (Z.to_nat (Z.max 1 (Z.min 100 limit))) (map_to_list (d_items db)))
  end.
