(* ===== verification/SchedulerFacts.v ===== *)
(** * Facts about subscription sync batches

    Counting items, what the transactions of a slice do to items, and the rows
    they leave alone. *)

From stdpp Require Import base gmap strings list.
From S2P Require Import Prelude Keyset TaskState TaskRuns TaskPipeline TaskEngine AdminOperations AdminRuntime AdminRuntimeFacts SchedulerBatches.

Open Scope string_scope.
Open Scope Z_scope.

(** ** Counting *)

Lemma count_items_cons p ki items :
  count_items p (ki :: items) = (if p ki.2 then 1 else 0) + count_items p items.
Proof. unfold count_items. cbn. destruct (p ki.2); cbn; lia. Qed.

Lemma count_items_nonneg p items : 0 ≤ count_items p items.
Proof. unfold count_items. lia. Qed.

Lemma count_items_positive p items : 0 < count_items p items ↔ ∃ ki, ki ∈ items ∧ p ki.2 = true.
Proof.
  induction items as [|x items IH].
  - split; [done|]. by intros (ki & H%elem_of_nil & _).
  - rewrite count_items_cons. pose proof (count_items_nonneg p items). destruct (p x.2) eqn:E.
    + split; [|lia]. intros _. exists x. split; [left|done].
    + rewrite Z.add_0_l, IH. split; intros (ki & Hin & Hp).
      * exists ki. split; [by right|done].
      * apply elem_of_cons in Hin as [->|Hin]; [congruence|eauto].
Qed.

(** The four terminal counts add up. *)
Lemma terminal_sum items :
  count_items (has_status "succeeded") items + (count_items (has_status "skipped") items +
  (count_items (has_status "failed") items + (count_items (has_status "cancelled") items + 0))) =
  count_items terminal items.
Proof.
  induction items as [|x items IH]; [done|]. rewrite !count_items_cons, <-IH.
  assert ((if has_status "succeeded" x.2 then 1 else 0) + (if has_status "skipped" x.2 then 1 else 0) +
    (if has_status "failed" x.2 then 1 else 0) + (if has_status "cancelled" x.2 then 1 else 0) =
    (if terminal x.2 then 1 else 0)) as E; [|lia].
  unfold has_status, terminal, ITEM_TERMINAL.
  destruct (bool_decide (it_status x.2 = "succeeded")) eqn:E1;
    [apply bool_decide_eq_true in E1; rewrite E1; reflexivity|].
  destruct (bool_decide (it_status x.2 = "skipped")) eqn:E2;
    [apply bool_decide_eq_true in E2; rewrite E2; reflexivity|].
  destruct (bool_decide (it_status x.2 = "failed")) eqn:E3;
    [apply bool_decide_eq_true in E3; rewrite E3; reflexivity|].
  destruct (bool_decide (it_status x.2 = "cancelled")) eqn:E4;
    [apply bool_decide_eq_true in E4; rewrite E4; reflexivity|].
  rewrite !bool_decide_eq_false in *. rewrite bool_decide_eq_false_2; [done|]. set_solver.
Qed.

Lemma terminal_all items : count_items terminal items < Z.of_nat (length items) ↔
  ∃ ki, ki ∈ items ∧ terminal ki.2 = false.
Proof.
  assert (Z.of_nat (length items) = count_items terminal items + count_items (λ i, negb (terminal i)) items) as ->.
  { induction items as [|x items IH]; [done|]. rewrite !count_items_cons. cbn [length]. destruct (terminal x.2); cbn [negb]; lia. }
  pose proof (count_items_positive (λ i, negb (terminal i)) items) as [H1 H2]. split.
  - intros H. destruct H1 as (ki & ? & ?%negb_true_iff); [lia|]. eauto.
  - intros (ki & Hin & Ht). assert (0 < count_items (λ i, negb (terminal i)) items); [|lia].
    apply H2. exists ki. by rewrite Ht.
Qed.

Lemma summary_counts db id b s : s ∈ ITEM_STATUSES →
  count_of (summarize db id b) s = count_items (has_status s) (items_of db id).
Proof.
  unfold count_of, summarize, ITEM_STATUSES. cbn [su_counts]. intros Hs.
  set_unfold in Hs. by destruct_or? Hs; subst.
Qed.

Lemma pending_iff db id b : pending (summarize db id b) = true ↔
  ∃ k i, d_items db !! k = Some i ∧ it_batch i = id ∧ terminal i = false.
Proof.
  unfold pending. rewrite Z.ltb_lt. unfold terminal_count, ITEM_TERMINAL. cbn [foldr].
  rewrite !summary_counts by (unfold ITEM_STATUSES; set_solver). rewrite terminal_sum.
  cbn [su_candidate_count summarize]. rewrite terminal_all. unfold items_of. split.
  - intros ([k i] & Hin & Ht). rewrite list_elem_of_In, List.filter_In, <-list_elem_of_In, elem_of_map_to_list, Z.eqb_eq in Hin.
    exists k, i. naive_solver.
  - intros (k & i & Hk & Hb & Ht). exists (k, i). split; [|done].
    rewrite list_elem_of_In, List.filter_In, <-list_elem_of_In, elem_of_map_to_list, Z.eqb_eq. done.
Qed.

Lemma failed_count_iff db id b : 0 < count_of (summarize db id b) "failed" ↔
  ∃ k i, d_items db !! k = Some i ∧ it_batch i = id ∧ it_status i = "failed".
Proof.
  rewrite summary_counts by (unfold ITEM_STATUSES; set_solver). rewrite count_items_positive. unfold items_of, has_status. split.
  - intros ([k i] & Hin & Ht%bool_decide_eq_true).
    rewrite list_elem_of_In, List.filter_In, <-list_elem_of_In, elem_of_map_to_list, Z.eqb_eq in Hin.
    exists k, i. naive_solver.
  - intros (k & i & Hk & Hb & Ht). exists (k, i). split; [|by apply bool_decide_eq_true].
    rewrite list_elem_of_In, List.filter_In, <-list_elem_of_In, elem_of_map_to_list, Z.eqb_eq. done.
Qed.

(** ** Items *)

Definition status_ok (i : Item) : Prop := it_status i ∈ ITEM_STATUSES.

Lemma defer_bounds n : 30 ≤ defer_delay n ≤ 300.
Proof.
  unfold defer_delay.
  assert (0 ≤ Z.min (Z.max (n - 1) 0) 4 ≤ 4) as H by lia.
  assert (2 ^ 0 ≤ 2 ^ Z.min (Z.max (n - 1) 0) 4) by (apply Z.pow_le_mono_r; lia). lia.
Qed.

Ltac status_member := unfold status_ok, ITEM_STATUSES; cbn; solve [repeat (first [left | right])].

Lemma reconciled_ok f i : status_ok i → status_ok (reconciled_status f i).
Proof. intros Hi. unfold reconciled_status. repeat case_match; try done; status_member. Qed.

Lemma item_reconcile_ok now db i : status_ok i → status_ok (reconcile_item now db i).
Proof. intros Hi. unfold reconcile_item. case_match; [|done]. unfold status_ok. cbn. by apply reconciled_ok. Qed.

Lemma settle_ok now db code linked retryable error i :
  status_ok i → status_ok (settle_refusal now db code linked retryable error i).
Proof.
  intros Hi. unfold settle_refusal, defer. repeat case_match; try by apply item_reconcile_ok.
  all: status_member.
Qed.

Lemma reconcile_batch now db i : it_batch (reconcile_item now db i) = it_batch i.
Proof. unfold reconcile_item, reconciled_status. repeat case_match; done. Qed.

Lemma settle_batch now db code linked retryable error i :
  it_batch (settle_refusal now db code linked retryable error i) = it_batch i.
Proof. unfold settle_refusal. repeat case_match; by rewrite ?reconcile_batch. Qed.

(** ** What transactions on items keep *)

Record kept (db db' : BatchDb) : Prop := {
  kp_batches : d_batches db' = d_batches db;
  kp_tasks : d_tasks db' = d_tasks db;
  kp_cleanup : d_cleanup db' = d_cleanup db;
  kp_items k i : d_items db !! k = Some i → ∃ i', d_items db' !! k = Some i' ∧
    it_batch i' = it_batch i ∧ it_source i' = it_source i ∧ (terminal i = true → i' = i) ∧
    (status_ok i → status_ok i');
  kp_old k i' : d_items db' !! k = Some i' → is_Some (d_items db !! k) }.

Lemma kept_refl db : kept db db.
Proof. split; try done; eauto 10. Qed.

Lemma kept_trans db1 db2 db3 : kept db1 db2 → kept db2 db3 → kept db1 db3.
Proof.
  intros [B1 T1 C1 I1 O1] [B2 T2 C2 I2 O2]. split; try congruence.
  - intros k i Hi. destruct (I1 _ _ Hi) as (i1 & H1 & Hb1 & Hs1 & Ht1 & Ho1).
    destruct (I2 _ _ H1) as (i2 & H2 & Hb2 & Hs2 & Ht2 & Ho2).
    exists i2. split_and!; [done|congruence|congruence| |auto]. intros Ht. rewrite Ht2; rewrite Ht1; done.
  - intros k i' H. destruct (O2 _ _ H) as [i2 H2]. eauto.
Qed.

Lemma put_item_kept db id i i' : d_items db !! id = Some i → terminal i = false →
  it_batch i' = it_batch i → it_source i' = it_source i → (status_ok i → status_ok i') →
  kept db (put_item id i' db).
Proof.
  intros Hi Ht Hb Hs Ho. split; try done.
  - intros k j Hj. cbn. destruct (base.decide (k = id)) as [->|Hk].
    + rewrite lookup_insert_eq. simplify_eq. exists i'. split_and!; [done|done|done|congruence|done].
    + rewrite lookup_insert_ne by done. eauto 10.
  - intros k j. cbn. intros [[<- _]|[_ ?]]%lookup_insert_Some; eauto.
Qed.

Lemma put_child_kept db job f : kept db (put_child job f db).
Proof. split; try done; cbn; eauto 10. Qed.

Lemma fenced_kept db task attempt after : kept db after → kept db (fenced db task attempt after).1.
Proof. intros H. unfold fenced. case_match; [done|apply kept_refl]. Qed.

Lemma reconcile_source now db i : it_source (reconcile_item now db i) = it_source i.
Proof. unfold reconcile_item, reconciled_status. repeat case_match; done. Qed.

Lemma settle_source now db code linked retryable error i :
  it_source (settle_refusal now db code linked retryable error i) = it_source i.
Proof. unfold settle_refusal. repeat case_match; by rewrite ?reconcile_source. Qed.

Lemma status_count i : status_ok i → status_ok (count_attempt i).
Proof. done. Qed.

Lemma bound_ok i job child owns : status_ok (bind_download i job child owns "queued").
Proof. status_member. Qed.
Global Hint Resolve item_reconcile_ok settle_ok status_count bound_ok kept_refl : core.

Lemma publish_child_kept now db id task attempt p : kept db (_publish_bound_child now db id task attempt p).1.
Proof.
  unfold _publish_bound_child. destruct (d_items db !! id) as [i|] eqn:Hi; [|done].
  destruct p as [p|]; [|done]. destruct (it_download i) as [job|]; [|done].
  destruct (_ && negb (terminal i)) eqn:Hg; [|done]. apply andb_true_iff in Hg as [_ Ht%negb_true_iff].
  apply fenced_kept. eapply put_item_kept; [done|done|..]; repeat case_match; cbn;
    rewrite ?reconcile_batch, ?reconcile_source; try done; intros Ho; try status_member.
  all: by apply (item_reconcile_ok now db) in Ho.
Qed.

Lemma follow_kept now db id task attempt e i i0 : d_items db !! id = Some i0 → terminal i0 = false →
  i = count_attempt i0 → kept db (enqueue_or_follow now db id task attempt e i).1.
Proof.
  intros Hi Ht ->. unfold enqueue_or_follow. destruct (it_download (count_attempt i0)) as [job|] eqn:Hd.
  - apply fenced_kept. eapply put_item_kept; [done|done|by rewrite reconcile_batch|by rewrite reconcile_source|auto].
  - destruct e as [job child|job|code linked retryable error].
    + unfold bind_item, fenced at 1.
      destruct (fence_current_admin_operation_transaction (d_tasks db) task attempt) as [t|]; [|done].
      eapply kept_trans; [by eapply (put_item_kept db id i0 (bind_download (count_attempt i0) job (Some child) true "queued"))|].
      eapply kept_trans; [apply put_child_kept|]. apply fenced_kept.
      eapply put_item_kept; [apply lookup_insert_eq|done|by rewrite reconcile_batch|by rewrite reconcile_source|auto].
    + apply fenced_kept. eapply put_item_kept; [done|done|by rewrite reconcile_batch|by rewrite reconcile_source|].
      intros Ho. by apply item_reconcile_ok.
    + apply fenced_kept. eapply put_item_kept; [done|done|by rewrite settle_batch|by rewrite settle_source|auto].
Qed.

Lemma process_kept now db id task attempt e p : kept db (_process_item now db id task attempt e p).1.
Proof.
  unfold _process_item. destruct (d_items db !! id) as [i|] eqn:Hi; [|done].
  destruct (terminal i) eqn:Ht; [done|].
  pose proof (follow_kept now db id task attempt e _ _ Hi Ht eq_refl) as Hk.
  destruct (enqueue_or_follow _ _ _ _ _ _ _) as [db1 [|]]; cbn in Hk |- *; [|done].
  eapply kept_trans; [exact Hk|apply publish_child_kept].
Qed.

Lemma record_error_kept now db id task attempt infra text :
  kept db (_record_item_error now db id task attempt infra text).1.
Proof.
  unfold _record_item_error. destruct (d_items db !! id) as [i|] eqn:Hi; [|done].
  destruct (terminal i) eqn:Ht; [done|]. apply fenced_kept.
  eapply put_item_kept; [done|done|by case_match|by case_match|]. intros _. case_match; status_member.
Qed.

Lemma cancel_item_kept now db id task attempt : kept db (_cancel_batch_item now db id task attempt).1.
Proof.
  unfold _cancel_batch_item. destruct (d_items db !! id) as [i|] eqn:Hi; [|done].
  destruct (terminal i) eqn:Ht; [done|].
  destruct (cancel_download_of now db _) as [j job] eqn:E.
  assert (it_batch j = it_batch i ∧ it_source j = it_source i ∧ (status_ok i → status_ok j)) as (Hb & Hs & Ho).
  { unfold cancel_download_of in E. repeat case_match; injection E as <- _;
      rewrite ?reconcile_batch, ?reconcile_source; auto. }
  apply fenced_kept.
  assert (kept db (match job with Some job => cancel_child db job | None => db end)) as Hk
    by (case_match; [apply put_child_kept|done]).
  eapply kept_trans; [exact Hk|].
  apply (put_item_kept _ id i); [by destruct job|done|by destruct (terminal j)|by destruct (terminal j)|].
  intros H. destruct (terminal j); [auto|status_member].
Qed.
