(* ===== verification/SchedulerSpec.v ===== *)
(** * What subscription sync batches guarantee

    The transactions of [SchedulerBatches] interleaved with each other, with
    the administrator runtime and with changes of downloads and sources:
    at most one batch is active, a source has one item per batch, terminal
    items are final, a closed batch has no open item. *)

From stdpp Require Import base gmap strings list relations.
From S2P Require Import Prelude Keyset TaskState TaskRuns TaskPipeline TaskEngine AdminOperations AdminRuntime AdminRuntimeFacts SchedulerBatches SchedulerFacts.

Open Scope string_scope.
Open Scope Z_scope.

(** The item belongs to the batch of [task]. *)
Definition item_of_task (db : BatchDb) (id task : Z) : Prop :=
  ∃ i b, d_items db !! id = Some i ∧ d_batches db !! it_batch i = Some b ∧ ba_task b = task.

(** [task] is the cleanup of [batch]. *)
Definition cleanup_of (db : BatchDb) (batch task : Z) : Prop :=
  ∃ b p, d_batches db !! batch = Some b ∧ d_cleanup db !! ba_task b = Some (task, p).

Inductive bstep : BatchDb → BatchDb → Prop :=
| b_admit now db mode request fresh_task fresh_batch db' t :
    d_tasks db !! fresh_task = None → d_batches db !! fresh_batch = None →
    admit_batch now db mode request fresh_task fresh_batch = Ok (db', t) → bstep db db'
| b_initialize now db task attempt new_id :
    (∀ s, d_items db !! new_id s = None) → Inj (=) (=) new_id →
    bstep db (initialize_batch now db task attempt new_id).1
| b_process now db id task attempt enqueue publication : item_of_task db id task →
    bstep db (_process_item now db id task attempt enqueue publication).1
| b_error now db id task attempt infrastructure text : item_of_task db id task →
    bstep db (_record_item_error now db id task attempt infrastructure text).1
| b_finish now db batch b task attempt options : d_batches db !! batch = Some b → ba_task b = task →
    is_Some (ba_initialized_at b) → bstep db (finish_slice now db batch task attempt options).1
| b_defer now db task attempt options : bstep db (_defer_infrastructure_slice now db task attempt options).1
(** cancellation, commit by commit *)
| b_cancel now db task scope fresh db1 db2 c : d_tasks db !! fresh = None →
    cancel_batch now db task scope fresh = Ok (db1, db2, c) → bstep db db1
| b_close db task id b : batch_of_task task db = Some (id, b) → is_Some (d_cleanup db !! task) →
    bstep db (put_batch id (set_batch_state b "cancelled") db)
| b_cancel_unbound db batch task attempt : cleanup_of db batch task →
    bstep db (fenced db task attempt (put_items (cancel_unbound batch (d_items db)) db)).1
| b_cancel_item now db id i task attempt : d_items db !! id = Some i → cleanup_of db (it_batch i) task →
    bstep db (_cancel_batch_item now db id task attempt).1
| b_retry_cancel now db id i task attempt text : d_items db !! id = Some i → cleanup_of db (it_batch i) task →
    bstep db (retry_cancel now db id task attempt text).1
| b_finish_cleanup now db batch parent task attempt options : cleanup_of db batch task →
    bstep db (finish_cleanup now db batch parent task attempt options).1
(** the administrator runtime, downloads, sources *)
| b_tasks db tasks' : updated (d_tasks db) tasks' → bstep db (put_tasks tasks' db)
| b_child db job f : bstep db (put_child job f db)
| b_source db sources : bstep db
    (mkBatchDb (d_tasks db) (d_batches db) (d_items db) sources (d_children db) (d_cleanup db)).

Definition empty_batches (db : BatchDb) : Prop :=
  d_batches db = ∅ ∧ d_items db = ∅ ∧ d_cleanup db = ∅.

Definition batches_reached (db : BatchDb) : Prop := ∃ db0, empty_batches db0 ∧ rtc bstep db0 db.

(** ** The invariant *)

Record batches_ok (db : BatchDb) : Prop := {
  bo_active i j b c : d_batches db !! i = Some b → d_batches db !! j = Some c →
    ba_state b = "active" → ba_state c = "active" → i = j;
  bo_task i b : d_batches db !! i = Some b → is_Some (d_tasks db !! ba_task b);
  bo_one_task i j b c : d_batches db !! i = Some b → d_batches db !! j = Some c → ba_task b = ba_task c → i = j;
  bo_request i j b c : d_batches db !! i = Some b → d_batches db !! j = Some c → ba_request b = ba_request c → i = j;
  bo_status k i : d_items db !! k = Some i → status_ok i;
  bo_item k i : d_items db !! k = Some i → is_Some (d_batches db !! it_batch i);
  bo_source k l i j : d_items db !! k = Some i → d_items db !! l = Some j →
    it_batch i = it_batch j → it_source i = it_source j → k = l;
  bo_closed id b : d_batches db !! id = Some b → ba_state b ∈ ["complete"; "failed"] →
    d_cleanup db !! ba_task b = None →
    is_Some (ba_initialized_at b) ∧
    ∀ k i, d_items db !! k = Some i → it_batch i = id →
      terminal i = true ∧ (ba_state b = "complete" → it_status i ≠ "failed") }.

Lemma empty_ok db : empty_batches db → batches_ok db.
Proof. intros (H1 & H2 & H3). split; rewrite ?H1, ?H2; intros *; by rewrite ?lookup_empty. Qed.

Lemma find_batch_some p db id b : find_batch p db = Some (id, b) → d_batches db !! id = Some b ∧ p b = true.
Proof.
  unfold find_batch. intros [Hin Hp]%List.find_some. split; [|done].
  by apply list_elem_of_In, elem_of_map_to_list in Hin.
Qed.

Lemma find_batch_none p db : find_batch p db = None → ∀ id b, d_batches db !! id = Some b → p b = false.
Proof.
  unfold find_batch. intros Hn id b Hb. apply (List.find_none _ _ Hn (id, b)).
  by apply list_elem_of_In, elem_of_map_to_list.
Qed.

Lemma find_batch_unique p db id b : d_batches db !! id = Some b → p b = true →
  (∀ j c, d_batches db !! j = Some c → p c = true → j = id) → find_batch p db = Some (id, b).
Proof.
  intros Hb Hp Hu. destruct (find_batch p db) as [[j c]|] eqn:E.
  - apply find_batch_some in E as [Hc Hpc]. pose proof (Hu _ _ Hc Hpc) as ->. congruence.
  - pose proof (find_batch_none _ _ E _ _ Hb). congruence.
Qed.

(** *** The kinds of change *)

(** Only items, by [kept]. *)
Lemma kept_ok db db' : kept db db' → batches_ok db → batches_ok db'.
Proof.
  intros [Hb Ht Hc Hi Ho] Hok.
  assert (∀ k i', d_items db' !! k = Some i' → ∃ i, d_items db !! k = Some i ∧ it_batch i' = it_batch i ∧
    it_source i' = it_source i ∧ (terminal i = true → i' = i) ∧ (status_ok i → status_ok i')) as Hback.
  { intros k i' H. destruct (Ho _ _ H) as [i Hki]. exists i. split; [done|].
    destruct (Hi _ _ Hki) as (i2 & H2 & ?). by simplify_eq. }
  destruct Hok as [H1 H2 H3 H4 H5 H6 H7 H8]. split; rewrite ?Hb, ?Ht, ?Hc; try done.
  - intros k i' (i & Hk & _ & _ & _ & Hs)%Hback. eauto.
  - intros k i' (i & Hk & -> & _)%Hback. eauto.
  - intros k l i' j' (i & Hk & -> & -> & _)%Hback (j & Hl & -> & -> & _)%Hback. by apply H7.
  - intros id b Hid Hs Hcl. destruct (H8 _ _ Hid Hs Hcl) as [Hin Hall]. split; [done|].
    intros k i' (i & Hk & -> & _ & Hfin & _)%Hback Hbi. destruct (Hall _ _ Hk Hbi) as [Hterm Hf].
    by rewrite (Hfin Hterm).
Qed.

(** Only the task table, in which no row disappears. *)
Lemma tasks_ok db tasks : (∀ id, is_Some (d_tasks db !! id) → is_Some (tasks !! id)) →
  batches_ok db → batches_ok (put_tasks tasks db).
Proof. intros Hg []. split; cbn; eauto. Qed.

(** A batch row rewritten with the same identity. *)
Lemma batch_ok db id b b' : d_batches db !! id = Some b → ba_task b' = ba_task b → ba_request b' = ba_request b →
  (ba_state b' = "active" → ba_state b = "active") →
  (ba_state b' ∈ ["complete"; "failed"] → d_cleanup db !! ba_task b = None →
   is_Some (ba_initialized_at b') ∧ ∀ k i, d_items db !! k = Some i → it_batch i = id →
     terminal i = true ∧ (ba_state b' = "complete" → it_status i ≠ "failed")) →
  batches_ok db → batches_ok (put_batch id b' db).
Proof.
  intros Hb Et Er Ha Hc [H1 H2 H3 H4 H5 H6 H7 H8].
  assert (∀ j c, <[id := b']> (d_batches db) !! j = Some c → ∃ c0, d_batches db !! j = Some c0 ∧
    ba_task c = ba_task c0 ∧ ba_request c = ba_request c0 ∧ (ba_state c = "active" → ba_state c0 = "active")) as Hback.
  { intros j c [[<- <-]|[Hne Hj]]%lookup_insert_Some; eauto 10. }
  split; cbn; try done.
  - intros i j c d (c0 & Hi & _ & _ & ?)%Hback (d0 & Hj & _ & _ & ?)%Hback ??. eauto.
  - intros i c (c0 & Hi & -> & _)%Hback. eauto.
  - intros i j c d (c0 & Hi & -> & _)%Hback (d0 & Hj & -> & _)%Hback. eauto.
  - intros i j c d (c0 & Hi & _ & -> & _)%Hback (d0 & Hj & _ & -> & _)%Hback. eauto.
  - intros k i Hk. destruct (base.decide (it_batch i = id)) as [->|Hne].
    + rewrite lookup_insert_eq. by eexists.
    + rewrite lookup_insert_ne by done. eauto.
  - intros j c [[<- <-]|[Hne Hj]]%lookup_insert_Some Hs Hcl; [|by eapply H8].
    apply Hc; [done|congruence].
Qed.

(** Items that disappear from view of [bo_closed]: the batch is being
    cancelled. *)
Lemma reopened_ok db id i i' : d_items db !! id = Some i → it_batch i' = it_batch i → it_source i' = it_source i →
  status_ok i' → (∀ b, d_batches db !! it_batch i = Some b → is_Some (d_cleanup db !! ba_task b)) →
  batches_ok db → batches_ok (put_item id i' db).
Proof.
  intros Hi Eb Es Hst Hcl [H1 H2 H3 H4 H5 H6 H7 H8].
  assert (∀ k j, <[id := i']> (d_items db) !! k = Some j → ∃ j0, d_items db !! k = Some j0 ∧
    it_batch j = it_batch j0 ∧ it_source j = it_source j0) as Hback.
  { intros k j [[<- <-]|[Hne Hj]]%lookup_insert_Some; eauto. }
  split; cbn; try done.
  - intros k j [[<- <-]|[Hne Hj]]%lookup_insert_Some; eauto.
  - intros k j (j0 & Hj & -> & _)%Hback. eauto.
  - intros k l j m (j0 & Hj & -> & ->)%Hback (m0 & Hm & -> & ->)%Hback. by apply H7.
  - intros b c Hb Hs Hc. destruct (H8 _ _ Hb Hs Hc) as [Hin Hall]. split; [done|].
    intros k j [[<- <-]|[Hne Hj]]%lookup_insert_Some Hjb; [|by eapply Hall].
    exfalso. rewrite Eb in Hjb. subst b. destruct (Hcl _ Hb) as [x Hx]. congruence.
Qed.

(** A cancellation is recorded. *)
Lemma cleanup_ok db task c : batches_ok db → batches_ok (put_cleanup task c db).
Proof.
  intros [H1 H2 H3 H4 H5 H6 H7 H8]. split; cbn; try done. intros id b Hb Hs Hc.
  apply H8; [done|done|]. by apply lookup_insert_None in Hc as [? _].
Qed.

Lemma updated_rows (tasks tasks' : gmap Z (AdminTask BatchOptions)) id :
  updated tasks tasks' → is_Some (tasks !! id) → is_Some (tasks' !! id).
Proof. intros [->|(j & t & t' & -> & _)] H; [done|]. apply lookup_insert_is_Some'. by right. Qed.

Lemma touched_rows now tasks task id : is_Some (tasks !! id) → is_Some (touched now tasks task !! id).
Proof. unfold touched. case_match; [|done]. intros Hid. apply lookup_insert_is_Some'. by right. Qed.

Lemma handoff_rows now (tasks : gmap Z (AdminTask BatchOptions)) id attempt options delay tasks' n j :
  prepare_admin_operation_handoff now tasks id attempt options delay = Some (tasks', n) →
  is_Some (tasks !! j) → is_Some (tasks' !! j).
Proof. intros H. by eapply updated_rows, handoff_updated. Qed.

(** *** The operations *)

Lemma admit_ok now db mode request ft fb db' t : d_tasks db !! ft = None → d_batches db !! fb = None →
  admit_batch now db mode request ft fb = Ok (db', t) → batches_ok db → batches_ok db'.
Proof.
  intros Hft Hfb H Hok. unfold admit_batch in H. res_simpl.
  destruct (batch_of_request request db) as [[id b]|] eqn:Er; [by res_simpl|].
  destruct (active_batch db) as [[id b]|] eqn:Ea; [done|]. res_simpl.
  match goal with H : lift_admin _ = Ok _ |- _ => unfold lift_admin in H; destruct (prepare_admin_operation _ _ _ _) as [[tasks n]|] eqn:Ep; [|done] end.
  res_simpl. destruct (prepare_spec _ _ _ _ _ _ Ep) as (row & -> & _). cbn [fst].
  pose proof (find_batch_none _ _ Er) as Hr. pose proof (find_batch_none _ _ Ea) as Ha. cbn in Hr, Ha.
  destruct Hok as [H1 H2 H3 H4 H5 H6 H7 H8].
  assert (∀ k i, d_items db !! k = Some i → it_batch i ≠ fb) as Hnew.
  { intros k i Hk E. destruct (H6 _ _ Hk) as [b Hb]. congruence. }
  split; cbn; try done.
  - intros i j b c [[<- <-]|[_ Hi]]%lookup_insert_Some [[<- <-]|[_ Hj]]%lookup_insert_Some Hb Hc; [done| | |eauto].
    + apply Ha in Hj. by rewrite bool_decide_eq_true_2 in Hj.
    + apply Ha in Hi. by rewrite bool_decide_eq_true_2 in Hi.
  - intros i b [[<- <-]|[_ Hi]]%lookup_insert_Some; apply lookup_insert_is_Some'; [by left|right; eauto].
  - intros i j b c [[<- <-]|[_ Hi]]%lookup_insert_Some [[<- <-]|[_ Hj]]%lookup_insert_Some E; [done| | |eauto].
    + cbn in E. apply H2 in Hj as [y Hy]. rewrite <-E in Hy. congruence.
    + cbn in E. apply H2 in Hi as [y Hy]. rewrite E in Hy. congruence.
  - intros i j b c [[<- <-]|[_ Hi]]%lookup_insert_Some [[<- <-]|[_ Hj]]%lookup_insert_Some E; [done| | |eauto].
    + cbn in E. apply Hr in Hj. rewrite <-E in Hj. lia.
    + cbn in E. apply Hr in Hi. rewrite E in Hi. lia.
  - intros k i Hk. apply lookup_insert_is_Some'. right. eauto.
  - intros id b [[<- <-]|[_ Hi]]%lookup_insert_Some Hs Hc; [cbn in Hs; set_unfold in Hs; by destruct_or? Hs|]. by apply H8.
Qed.

Lemma has_item_spec batch source items : has_item batch source items = true ↔
  ∃ k i, items !! k = Some i ∧ it_batch i = batch ∧ it_source i = source.
Proof.
  unfold has_item. rewrite existsb_exists. split.
  - intros ([k i] & Hin%list_elem_of_In%elem_of_map_to_list & [E1 E2]%andb_true_iff).
    exists k, i. cbn in E1, E2. rewrite Z.eqb_eq in E1, E2. done.
  - intros (k & i & Hk & <- & <-). exists (k, i). rewrite <-list_elem_of_In, elem_of_map_to_list. cbn. by rewrite !Z.eqb_refl.
Qed.

(** The snapshot adds one item per source that has none. *)
Lemma insert_candidates_spec batch new_id l items : (∀ s, items !! new_id s = None) → Inj (=) (=) new_id →
  let items' := insert_candidates batch new_id l items in
  (∀ k i, items !! k = Some i → items' !! k = Some i) ∧
  (∀ k i, items' !! k = Some i → items !! k = Some i ∨ ∃ s, k = new_id s ∧ i = new_item batch s) ∧
  ((∀ k l i j, items !! k = Some i → items !! l = Some j → it_batch i = it_batch j → it_source i = it_source j → k = l) →
    ∀ k l i j, items' !! k = Some i → items' !! l = Some j → it_batch i = it_batch j → it_source i = it_source j → k = l).
Proof.
  intros Hfresh Hinj. cbn zeta. induction l as [|[s x] l (IH1 & IH2 & IH3)]; cbn; [by split_and!; eauto|].
  set (mid := insert_candidates batch new_id l items) in *. fold (insert_candidates batch new_id l items). fold mid.
  destruct (has_item batch s mid) eqn:Eh; [done|].
  assert (∀ k i, mid !! k = Some i → it_batch i = batch → it_source i = s → False) as Hno.
  { intros k i Hk Hb Hs. assert (has_item batch s mid = true); [|congruence]. apply has_item_spec. eauto. }
  split_and!.
  - intros k i Hk. rewrite lookup_insert_ne; [by apply IH1|]. intros <-. by rewrite Hfresh in Hk.
  - intros k i [[<- <-]|[_ Hk]]%lookup_insert_Some; eauto.
  - intros Hu k m i j [[<- <-]|[_ Hk]]%lookup_insert_Some [[<- <-]|[_ Hm]]%lookup_insert_Some Eb Es; [done| | |by eapply IH3].
    + exfalso. by eapply (Hno _ _ Hm).
    + exfalso. by eapply (Hno _ _ Hk).
Qed.

Lemma initialize_ok now db task attempt new_id : (∀ s, d_items db !! new_id s = None) → Inj (=) (=) new_id →
  batches_ok db → batches_ok (initialize_batch now db task attempt new_id).1.
Proof.
  intros Hfresh Hinj Hok. unfold initialize_batch. destruct (batch_of_task task db) as [[id b]|] eqn:Eb; [|done].
  apply find_batch_some in Eb as [Hb _]. unfold fenced. case_match; [|done]. cbn.
  destruct (ba_initialized_at b) as [at_|] eqn:Ei; [done|].
  destruct Hok as [H1 H2 H3 H4 H5 H6 H7 H8].
  match goal with |- context [insert_candidates id new_id ?l ?m] =>
    destruct (insert_candidates_spec id new_id l m Hfresh Hinj) as (I1 & I2 & I3); set (items' := insert_candidates id new_id l m) in * end.
  apply (batch_ok (put_items items' db) id b (set_initialized b now)); [done|done|done|done| |].
  - cbn. intros Hs Hc. destruct (H8 _ _ Hb Hs Hc) as [[? ?] _]. congruence.
  - split; cbn; try done.
    + intros k i [Hk|(s & _ & ->)]%I2; [by eapply H5|]. status_member.
    + intros k i [Hk|(s & _ & ->)]%I2; [by eapply H6|]. cbn. eauto.
    + by apply I3.
    + intros j c Hj Hs Hc. destruct (H8 _ _ Hj Hs Hc) as [Hin Hall]. split; [done|].
      intros k i [Hk|(s & _ & ->)]%I2 Hi; [by eapply Hall|]. cbn in Hi. subst j.
      rewrite Hb in Hj. injection Hj as <-. rewrite Ei in Hin. by destruct Hin.
Qed.

Lemma finish_ok now db batch b task attempt options : d_batches db !! batch = Some b →
  is_Some (ba_initialized_at b) → batches_ok db → batches_ok (finish_slice now db batch task attempt options).1.
Proof.
  intros Hb Hin Hok. unfold finish_slice. rewrite Hb. case_match; [|done].
  destruct (pending (summarize db batch b)) eqn:Ep.
  - destruct (prepare_admin_operation_handoff _ _ _ _ _ _) as [[tasks' n]|] eqn:Eh; [|done]. cbn.
    apply tasks_ok; [intros id Hid; cbn in Hid; eapply handoff_rows; [done|by apply touched_rows]|].
    eapply batch_ok; [done|done|done|done| |done]. cbn. intros Hs Hc. by apply (bo_closed _ Hok).
  - cbn [fst]. apply tasks_ok; [intros id Hid; by apply touched_rows|].
    eapply batch_ok; [done|done|done| | |done].
    + cbn. by case_match.
    + cbn [ba_state ba_initialized_at set_batch_state set_batch_result].
      intros Hs Hc. split; [done|]. intros k i Hk Hi.
      assert (terminal i = true) as Hterm.
      { destruct (terminal i) eqn:Et; [done|]. assert (pending (summarize db batch b) = true); [|congruence].
        apply pending_iff. eauto. }
      split; [done|]. intros Hcomp Hf. assert (0 < count_of (summarize db batch b) "failed") as Hlt.
      { apply failed_count_iff. eauto. }
      apply Z.ltb_lt in Hlt. rewrite Hlt in Hcomp. done.
Qed.

Lemma cancel_unbound_kept batch db : kept db (put_items (cancel_unbound batch (d_items db)) db).
Proof.
  split; try done; cbn; unfold cancel_unbound.
  - intros k i Hk. rewrite lookup_fmap, Hk. cbn. eexists. split; [done|].
    destruct (terminal i) eqn:Et; rewrite ?andb_false_r, ?andb_true_r; cbn; [by split_and!|].
    case_match; cbn; split_and!; try done. intros _. status_member.
  - intros k i'. rewrite lookup_fmap. intros (i & -> & _)%fmap_Some. by eexists.
Qed.

Lemma cancel_ok now db task scope fresh db1 db2 c :
  cancel_batch now db task scope fresh = Ok (db1, db2, c) → batches_ok db → batches_ok db1.
Proof.
  unfold cancel_batch. intros H Hok. destruct (d_tasks db !! task) as [t|] eqn:Ht; [|done]. res_simpl.
  destruct (batch_of_task task db) as [[batch b]|]; [|done].
  destruct (d_cleanup db !! task) as [c'|]; [by res_simpl|]. res_simpl.
  match goal with H : lift_admin _ = Ok _ |- _ => unfold lift_admin in H; destruct (prepare_admin_operation _ _ _ _) as [[tasks n]|] eqn:Ep; [|done] end.
  res_simpl. destruct (prepare_spec _ _ _ _ _ _ Ep) as (t' & -> & _). cbn [fst].
  apply cleanup_ok, tasks_ok; [|done]. intros id Hid.
  assert (is_Some (<[fresh := t']> (d_tasks db) !! id)) as Hid' by (apply lookup_insert_is_Some'; by right).
  case_match; [|done]. apply lookup_insert_is_Some'. by right.
Qed.

Lemma finish_cleanup_ok now db batch parent task attempt options :
  batches_ok db → batches_ok (finish_cleanup now db batch parent task attempt options).1.
Proof.
  intros Hok. unfold finish_cleanup. destruct (d_batches db !! batch) as [b|] eqn:Hb; [|done]. case_match; [|done].
  set (r := summarize db batch b). set (db1 := put_batch batch _ db).
  assert (batches_ok db1) as H1.
  { eapply batch_ok; [done|done|done|done| |done]. cbn. intros Hs. set_unfold in Hs. by destruct_or? Hs. }
  set (db2 := note_pending _ _ db1).
  assert (batches_ok db2 ∧ d_tasks db2 = d_tasks db) as [H2 Et].
  { unfold db2, note_pending. repeat case_match; split; try done; by apply cleanup_ok. }
  assert (∀ id, is_Some (d_tasks db2 !! id) →
    is_Some ((if parent_cancelled db parent then touched now (d_tasks db) parent else d_tasks db) !! id)) as Hrow.
  { rewrite Et. intros id Hid. case_match; [by apply touched_rows|done]. }
  destruct (pending r); [|by apply tasks_ok].
  destruct (prepare_admin_operation_handoff _ _ _ _ _ _) as [[tasks' n]|] eqn:Eh; [|done].
  apply tasks_ok; [|done]. intros id Hid. eapply handoff_rows; [done|by apply Hrow].
Qed.

Lemma bstep_ok db db' : bstep db db' → batches_ok db → batches_ok db'.
Proof.
  intros Hstep Hok. destruct Hstep.
  - by eapply admit_ok.
  - by apply initialize_ok.
  - eapply kept_ok; [apply process_kept|done].
  - eapply kept_ok; [apply record_error_kept|done].
  - by eapply finish_ok.
  - unfold _defer_infrastructure_slice. case_match; [|done].
    destruct (prepare_admin_operation_handoff _ _ _ _ _ _) as [[tasks' n]|] eqn:Eh; [|done].
    apply tasks_ok; [|done]. intros id Hid. eapply handoff_rows; [done|by apply touched_rows].
  - by eapply cancel_ok.
  - match goal with H : batch_of_task _ _ = _ |- _ => apply find_batch_some in H as [Hb _] end.
    eapply batch_ok; [done|done|done|done| |done]. cbn. intros Hs. set_unfold in Hs. by destruct_or? Hs.
  - eapply kept_ok; [|exact Hok]. apply fenced_kept, cancel_unbound_kept.
  - eapply kept_ok; [apply cancel_item_kept|done].
  - unfold retry_cancel. rewrite H. unfold fenced. case_match; [|done].
    apply (reopened_ok _ _ i); [done|done|done|status_member| |done].
    destruct H0 as (b & p & Hb & Hc). intros b' Hb'. simplify_eq. eauto.
  - by apply finish_cleanup_ok.
  - apply tasks_ok; [|done]. intros id. by apply updated_rows.
  - eapply kept_ok; [apply put_child_kept|done].
  - by destruct Hok; split.
Qed.

Lemma batches_reached_ok db : batches_reached db → batches_ok db.
Proof. intros (db0 & H0 & Hr). apply empty_ok in H0. induction Hr; eauto using bstep_ok. Qed.

(** ** Consequences *)

(** At most one batch is active, and a batch has at most one item for a
    source. *)
Theorem one_active_batch db i j b c k l x y : batches_reached db →
  (d_batches db !! i = Some b → d_batches db !! j = Some c →
   ba_state b = "active" → ba_state c = "active" → i = j) ∧
  (d_items db !! k = Some x → d_items db !! l = Some y →
   it_batch x = it_batch y → it_source x = it_source y → k = l).
Proof. intros H%batches_reached_ok. split; [apply (bo_active _ H)|apply (bo_source _ H)]. Qed.

(** C12: A batch that is reported complete or failed, and whose cancellation was
    not requested, was initialised and has no open item; if it is complete, no
    item of it failed. *)
Theorem closed_batches_settled db id b k i : batches_reached db →
  d_batches db !! id = Some b → ba_state b ∈ ["complete"; "failed"] → d_cleanup db !! ba_task b = None →
  d_items db !! k = Some i → it_batch i = id →
  is_Some (ba_initialized_at b) ∧ it_status i ∈ ITEM_TERMINAL ∧ (ba_state b = "complete" → it_status i ≠ "failed").
Proof.
  intros H%batches_reached_ok Hb Hs Hc Hk Hi. destruct (bo_closed _ H _ _ Hb Hs Hc) as [Hin Hall].
  destruct (Hall _ _ Hk Hi) as [Ht Hf]. split_and!; [done| |done]. by apply bool_decide_eq_true in Ht.
Qed.

Definition same_batch (b b' : Batch) : Prop :=
  ba_task b' = ba_task b ∧ ba_request b' = ba_request b ∧ ba_mode b' = ba_mode b.

(** What no step takes back: batches keep their task, request and mode, cancellations stay
    recorded, and a terminal item changes only under its batch's cleanup. *)
Record lasting (db db' : BatchDb) : Prop := {
  la_batch id b : d_batches db !! id = Some b → ∃ b', d_batches db' !! id = Some b' ∧ same_batch b b';
  la_cleanup t : is_Some (d_cleanup db !! t) → is_Some (d_cleanup db' !! t);
  la_item k i : d_items db !! k = Some i → terminal i = true →
    d_items db' !! k = Some i ∨
    ∃ b, d_batches db' !! it_batch i = Some b ∧ is_Some (d_cleanup db' !! ba_task b) }.

Lemma lasting_refl db : lasting db db.
Proof. split; [intros id b Hb; exists b; by split_and!|eauto|eauto]. Qed.


Lemma kept_lasting db db' : kept db db' → lasting db db'.
Proof.
  intros [Hb Ht Hc Hi Ho]. split; rewrite ?Hb, ?Hc; [intros id b H; exists b; by split_and!|done|].
  intros k i Hk Hterm. left. destruct (Hi _ _ Hk) as (i' & Hk' & _ & _ & E & _). by rewrite Hk', E.
Qed.

Lemma lasting_trans db1 db2 db3 : lasting db1 db2 → lasting db2 db3 → lasting db1 db3.
Proof.
  intros [B1 C1 I1] [B2 C2 I2]. split; [|auto|].
  - intros id b Hb. destruct (B1 _ _ Hb) as (b1 & H1 & E1). destruct (B2 _ _ H1) as (b2 & H2 & E2).
    exists b2. split; [done|]. unfold same_batch in *. intuition congruence.
  - intros k i Hk Ht. destruct (I1 _ _ Hk Ht) as [H1|(b & Hb & Hc)]; [by apply I2|right].
    destruct (B2 _ _ Hb) as (b2 & H2 & E2 & _). exists b2. rewrite E2. auto.
Qed.

(** Batches and cancellations that only grow, with the items as they were. *)
Lemma batches_lasting db db' : d_items db' = d_items db →
  (∀ id b, d_batches db !! id = Some b → ∃ b', d_batches db' !! id = Some b' ∧ same_batch b b') →
  (∀ t, is_Some (d_cleanup db !! t) → is_Some (d_cleanup db' !! t)) → lasting db db'.
Proof. intros Hi Hb Hc. split; [done|done|]. rewrite Hi. eauto. Qed.

Lemma put_batch_lasting db id b b' : d_batches db !! id = Some b → same_batch b b' →
  ∀ j c, d_batches db !! j = Some c → ∃ c', d_batches (put_batch id b' db) !! j = Some c' ∧ same_batch c c'.
Proof.
  intros Hb Et j c Hc. cbn. destruct (base.decide (j = id)) as [->|Hne].
  - rewrite lookup_insert_eq. simplify_eq. eauto.
  - rewrite lookup_insert_ne by done. exists c. by split_and!.
Qed.

Lemma same_batch_refl b : same_batch b b.
Proof. done. Qed.
Local Hint Resolve same_batch_refl : core.

Lemma bstep_lasting db db' : bstep db db' → lasting db db'.
Proof.
  intros Hstep. destruct Hstep; try by apply batches_lasting; eauto.
  - unfold admit_batch in H1. res_simpl. destruct (batch_of_request _ _) as [[]|]; [res_simpl; apply lasting_refl|].
    destruct (active_batch db) as [[]|]; [done|]. res_simpl.
    apply batches_lasting; [done| |done]. cbn. intros id b Hb. exists b. rewrite lookup_insert_ne by congruence. auto.
  - unfold initialize_batch. destruct (batch_of_task task db) as [[id b]|] eqn:Eb; [|apply lasting_refl].
    apply find_batch_some in Eb as [Hb _]. unfold fenced. case_match; [|apply lasting_refl]. cbn [fst].
    destruct (ba_initialized_at b); [apply lasting_refl|].
    destruct (insert_candidates_spec id new_id (List.filter (λ s, candidate (ba_mode b) s.2) (map_to_list (d_sources db))) (d_items db) H H0) as (I1 & _).
    split; [exact (put_batch_lasting db id b (set_initialized b now) Hb ltac:(done))|done|].
    cbn. intros k i Hk _. left. by apply I1.
  - apply kept_lasting, process_kept.
  - apply kept_lasting, record_error_kept.
  - unfold finish_slice. rewrite H. repeat case_match; try apply lasting_refl; cbn [fst].
    all: apply batches_lasting; [done|by eapply put_batch_lasting|done].
  - unfold _defer_infrastructure_slice. repeat case_match; try apply lasting_refl. by apply batches_lasting; eauto.
  - unfold cancel_batch in H0. destruct (d_tasks db !! task); [|done]. res_simpl.
    destruct (batch_of_task task db) as [[]|]; [|done]. destruct (d_cleanup db !! task) eqn:Ec; [res_simpl; apply lasting_refl|].
    res_simpl. apply batches_lasting; [done|eauto|]. cbn. intros t Hc. apply lookup_insert_is_Some'. by right.
  - apply find_batch_some in H as [Hb _]. apply batches_lasting; [done|by eapply put_batch_lasting|done].
  - apply kept_lasting, fenced_kept, cancel_unbound_kept.
  - apply kept_lasting, cancel_item_kept.
  - unfold retry_cancel. rewrite H. unfold fenced. case_match; [|apply lasting_refl]. cbn [fst]. split; [eauto|done|].
    cbn. intros k j Hk Ht. destruct (base.decide (k = id)) as [->|Hne]; [|left; by rewrite lookup_insert_ne].
    right. simplify_eq. destruct H0 as (b & p & Hb & Hc). eauto.
  - unfold finish_cleanup. destruct (d_batches db !! batch) as [b|] eqn:Hb; [|apply lasting_refl].
    case_match; [|apply lasting_refl].
    set (db1 := put_batch batch _ db).
    assert (∀ p, d_items (note_pending parent p db1) = d_items db ∧ d_batches (note_pending parent p db1) = d_batches db1 ∧
      ∀ t, is_Some (d_cleanup db !! t) → is_Some (d_cleanup (note_pending parent p db1) !! t)) as Hn.
    { intros p. unfold note_pending. repeat case_match; split_and!; try done. cbn. intros t Ht.
      apply lookup_insert_is_Some'. by right. }
    destruct (pending _); [|].
    + destruct (prepare_admin_operation_handoff _ _ _ _ _ _) as [[]|]; [|apply lasting_refl]. cbn [fst].
      destruct (Hn true) as (E1 & E2 & E3). apply batches_lasting; cbn; rewrite ?E1, ?E2; [done|by eapply put_batch_lasting|done].
    + destruct (Hn false) as (E1 & E2 & E3). apply batches_lasting; cbn; rewrite ?E1, ?E2; [done|by eapply put_batch_lasting|done].
Qed.

Lemma run_lasting db db' : rtc bstep db db' → lasting db db'.
Proof.
  induction 1 as [|x y z Hxy _ IH]; [apply lasting_refl|].
  eapply lasting_trans; [by apply bstep_lasting|exact IH].
Qed.

(** C19: A terminal item is final: whatever slices, errors and cancellations
    follow, its row stays as it is unless the cancellation of its batch was
    requested. *)
Theorem terminal_items_final db db' k i : rtc bstep db db' → d_items db !! k = Some i →
  it_status i ∈ ITEM_TERMINAL →
  d_items db' !! k = Some i ∨ ∃ b, d_batches db' !! it_batch i = Some b ∧ is_Some (d_cleanup db' !! ba_task b).
Proof.
  intros Hr Hk Ht. apply (la_item _ _ (run_lasting _ _ Hr)); [done|]. by apply bool_decide_eq_true.
Qed.
