(* ===== verification/SchedulerSlices.v ===== *)
(** * How slices of subscription sync batches end

    The end of a slice, the termination of a cancellation, repeated admission,
    and the batch whose operation failed outside of a slice. *)

From stdpp Require Import base gmap strings list relations.
From S2P Require Import Prelude Keyset TaskState TaskRuns TaskPipeline TaskEngine AdminOperations AdminRuntime AdminRuntimeFacts AdminRecovery SchedulerBatches SchedulerFacts SchedulerSpec.

Open Scope string_scope.
Open Scope Z_scope.

Abbreviation btask := (AdminTask BatchOptions).

(** ** The fence and the hand-off *)

Definition current (tasks : gmap Z btask) (task attempt : Z) : Prop :=
  ∃ t, fence_current_admin_operation_transaction tasks task attempt = Ok t.

Lemma current_spec tasks task attempt : current tasks task attempt ↔
  ∃ t dp, tasks !! task = Some t ∧ active t = true ∧ ad_dispatch t = Some dp ∧ dp_attempt dp = attempt.
Proof.
  unfold current. split.
  - intros (t & (H1 & H2 & dp & H3 & H4)%fence_spec). eauto 10.
  - intros (t & dp & H1 & H2 & H3 & H4). exists t. apply fence_spec. eauto 10.
Qed.

Lemma fenced_current db task attempt after : current (d_tasks db) task attempt →
  fenced db task attempt after = (after, Committed).
Proof. intros [t H]. unfold fenced. by rewrite H. Qed.

Lemma touched_lookup now (tasks : gmap Z btask) p id t : tasks !! id = Some t →
  ∃ t', touched now tasks p !! id = Some t' ∧ ad_dispatch t' = ad_dispatch t ∧ ad_status t' = ad_status t ∧
    ad_operation_type t' = ad_operation_type t.
Proof.
  intros Ht. unfold touched. destruct (base.decide (p = id)) as [->|Hne].
  - rewrite Ht, lookup_insert_eq. eexists. split_and!; [done|done| |done]. unfold ad_status.
    cbn [ad_run set_run]. by rewrite touch_status.
  - exists t. case_match; [|done]. by rewrite lookup_insert_ne.
Qed.

Lemma handoff_spec now (tasks : gmap Z btask) id t dp options delay :
  tasks !! id = Some t → active t = true → ad_dispatch t = Some dp →
  ∃ t' next, prepare_admin_operation_handoff now tasks id (dp_attempt dp) options delay =
      Some (<[id := t']> tasks, dp_attempt dp + 1) ∧
    ad_status t' = "enqueued" ∧ ad_attempts t' = dp_attempt dp + 1 ∧ ad_dispatch t' = Some next ∧
    dp_attempt next = dp_attempt dp + 1 ∧ dp_state next = DispatchPending ∧ dp_options next = options ∧
    dp_next_retry_at next = Some (now + Z.max 1 (Z.min delay ADMIN_DISPATCH_RETRY_MAX_SECONDS)).
Proof.
  intros Ht Ha Hd. unfold prepare_admin_operation_handoff.
  assert (current_attempt tasks id (dp_attempt dp) = Some (t, dp)) as -> by by apply current_attempt_spec.
  rewrite Ha. eexists _, _. by split_and!.
Qed.

Lemma handoff_delay_bounds now items : 1 ≤ handoff_delay now items ≤ 300.
Proof. unfold handoff_delay. repeat case_match; lia. Qed.

(** ** The end of a slice *)

(** Whether the batch has an item with the property. *)
Definition some_item (db : BatchDb) (batch : Z) (p : Item → Prop) : Prop :=
  ∃ k i, d_items db !! k = Some i ∧ it_batch i = batch ∧ p i.

(** C11: A slice of the current attempt ends a batch exactly when it has no open
    item left, as failed when an item failed and as complete otherwise; when an
    item is open, the batch stays as it is and the operation is handed to its
    next attempt, queued for publication after at least one and at most 300
    seconds, and after one second when an item is due. *)
Theorem slice_ends_or_continues now db batch b task attempt options db' e :
  d_batches db !! batch = Some b → current (d_tasks db) task attempt →
  finish_slice now db batch task attempt options = (db', e) →
  (some_item db batch (λ i, terminal i = false) ∧
   ∃ ready t dp d, e = HandOff (attempt + 1) ready ∧ ba_state <$> d_batches db' !! batch = Some (ba_state b) ∧
     d_tasks db' !! task = Some t ∧ ad_status t = "enqueued" ∧ ad_dispatch t = Some dp ∧
     dp_attempt dp = attempt + 1 ∧ dp_state dp = DispatchPending ∧ dp_options dp = options ∧
     dp_next_retry_at dp = Some (now + d) ∧ 1 ≤ d ≤ 300 ∧ (ready = true → d = 1) ∧
     (ready = true ↔ some_item db batch (λ i, terminal i = false ∧ due now i = true))) ∨
  (¬ some_item db batch (λ i, terminal i = false) ∧
   ∃ b', d_batches db' !! batch = Some b' ∧ e = SliceDone (result_status (summarize db batch b)) ∧
     (ba_state b' = "failed" ∧ some_item db batch (λ i, it_status i = "failed") ∨
      ba_state b' = "complete" ∧ ¬ some_item db batch (λ i, it_status i = "failed"))).
Proof.
  intros Hb Hcur Hf. apply current_spec in Hcur as (t & dp & Ht & Ha & Hd & <-).
  assert (fence_current_admin_operation_transaction (d_tasks db) task (dp_attempt dp) = Ok t) as Hfence
    by (apply fence_spec; eauto).
  unfold finish_slice in Hf. rewrite Hb, Hfence in Hf. destruct (pending (summarize db batch b)) eqn:Ep.
  - left. split; [by apply pending_iff in Ep|].
    set (open_items := List.filter _ _) in Hf.
    destruct (touched_lookup now (d_tasks db) task task t Ht) as (t1 & Ht1 & Ed1 & Es1 & _).
    assert (active t1 = true) as Ha1 by (unfold active; by rewrite Es1). rewrite Hd in Ed1.
    destruct (handoff_spec now (touched now (d_tasks db) task) task t1 dp options (handoff_delay now open_items) Ht1 Ha1 Ed1)
      as (t2 & next & Eh & Hs & _ & Hn & Hna & Hns & Hno & Hnr).
    rewrite Eh in Hf. injection Hf as <- <-.
    exists (existsb (λ ki, due now ki.2) open_items), t2, next, (handoff_delay now open_items).
    pose proof (handoff_delay_bounds now open_items) as Hbd.
    cbn. rewrite !lookup_insert_eq. split_and!; try done; try lia.
    + rewrite Hnr. f_equal. unfold ADMIN_DISPATCH_RETRY_MAX_SECONDS. lia.
    + unfold handoff_delay. by intros ->.
    + rewrite existsb_exists. unfold open_items, items_of. split.
      * intros ([k i] & Hin & Hdue). rewrite !List.filter_In, <-list_elem_of_In, elem_of_map_to_list in Hin.
        destruct Hin as [[Hk Hbi%Z.eqb_eq] Hopen%negb_true_iff]. exists k, i. cbn in *. by split_and!.
      * intros (k & i & Hk & Hbi & Hopen & Hdue). exists (k, i). split; [|done].
        rewrite !List.filter_In, <-list_elem_of_In, elem_of_map_to_list. cbn. rewrite Hopen, Z.eqb_eq. by split_and!.
  - right. injection Hf as <- <-. split.
    { intros Hsome. assert (pending (summarize db batch b) = true); [|congruence]. by apply pending_iff. }
    eexists. split; [apply lookup_insert_eq|]. split; [done|]. cbn [ba_state set_batch_state].
    destruct (Z.ltb_spec 0 (count_of (summarize db batch b) "failed")) as [Hlt|Hge].
    + left. split; [done|]. by apply failed_count_iff in Hlt.
    + right. split; [done|]. intros Hsome. assert (0 < count_of (summarize db batch b) "failed"); [|lia].
      by apply failed_count_iff.
Qed.


(** ** Admission *)

Lemma admitted_batch now db mode request ft fb db1 t : admit_batch now db mode request ft fb = Ok (db1, t) →
  ∃ id b, d_batches db1 !! id = Some b ∧ ba_request b = request ∧ ba_mode b = mode ∧ ba_task b = t.
Proof.
  unfold admit_batch. intros H. res_simpl.
  destruct (batch_of_request request db) as [[id b]|] eqn:Er.
  - res_simpl. apply find_batch_some in Er as [Hb Hr%Z.eqb_eq].
    match goal with H : bool_decide _ = true |- _ => apply bool_decide_eq_true in H end. eauto 10.
  - destruct (active_batch db) as [[]|]; [done|]. res_simpl. eexists fb, _. cbn. by rewrite lookup_insert_eq.
Qed.

(** Admitting a request again, at any later time and in the same mode,
    changes nothing and answers with the task of the first admission, whatever
    became of the batch; in another mode it is refused. *)
Theorem admission_repeats now now' db db1 db2 mode mode' request ft fb ft' fb' t :
  batches_reached db → d_tasks db !! ft = None → d_batches db !! fb = None →
  admit_batch now db mode request ft fb = Ok (db1, t) → rtc bstep db1 db2 → mode' ∈ MODES →
  admit_batch now' db2 mode' request ft' fb' =
    if bool_decide (mode' = mode) then Ok (db2, t) else Err (RequestModeConflict t).
Proof.
  intros (db0 & H0 & Hr0) Hft Hfb Hadm Hr Hm.
  assert (batches_reached db2) as Hok%batches_reached_ok.
  { exists db0. split; [done|]. etrans; [exact Hr0|]. eapply rtc_l; [by eapply b_admit|done]. }
  destruct (admitted_batch _ _ _ _ _ _ _ _ Hadm) as (id & b & Hb & Hreq & Hmode & Htask).
  destruct (la_batch _ _ (run_lasting _ _ Hr) _ _ Hb) as (b' & Hb' & E1 & E2 & E3).
  assert (batch_of_request request db2 = Some (id, b')) as Hfind.
  { apply find_batch_unique; [done|apply Z.eqb_eq; congruence|].
    intros j c Hj Ec%Z.eqb_eq. eapply (bo_request _ Hok); [done|exact Hb'|congruence]. }
  unfold admit_batch. rewrite (bool_decide_eq_true_2 _ Hm). cbn. rewrite Hfind.
  rewrite E3, Hmode, E1, Htask. destruct (base.decide (mode' = mode)) as [->|Hne].
  - by rewrite !bool_decide_eq_true_2.
  - by rewrite !bool_decide_eq_false_2.
Qed.

(** ** An operation that fails outside of its slices *)

(** When the operation of an active batch has failed (its job ended without
    a callback, or its slice raised an error), the batch blocks every further
    batch: no new request is admitted in any mode, and the action policy offers
    neither a retry nor a cancellation of the operation. *)
Theorem failed_operation_blocks_batches now db id b t mode request ft fb global :
  batches_reached db → d_batches db !! id = Some b → ba_state b = "active" →
  d_tasks db !! ba_task b = Some t → ad_operation_type t = OPERATION → ad_status t = "failed" →
  mode ∈ MODES → (∀ j c, d_batches db !! j = Some c → ba_request c ≠ request) →
  admit_batch now db mode request ft fb = Err (BatchActive (ba_task b)) ∧
  ¬ ("retry" ∈ (decide_admin t global).1) ∧ ¬ ("cancel" ∈ (decide_admin t global).1).
Proof.
  intros Hok%batches_reached_ok Hb Hs Ht Hop Hst Hm Hreq. split.
  - unfold admit_batch. rewrite (bool_decide_eq_true_2 _ Hm). cbn.
    destruct (batch_of_request request db) as [[j c]|] eqn:E.
    { apply find_batch_some in E as [Hj Ec%Z.eqb_eq]. by destruct (Hreq _ _ Hj). }
    assert (active_batch db = Some (id, b)) as ->; [|done].
    apply find_batch_unique; [done|by apply bool_decide_eq_true|].
    intros j c Hj Ec%bool_decide_eq_true. by apply (bo_active _ Hok j id c b).
  - unfold decide_admin. rewrite Hop, Hst, (bool_decide_eq_true_2 (OPERATION = _)) by done.
    rewrite (bool_decide_eq_false_2 ("failed" ∈ ACTIVE)), andb_false_r by (by intros H%(bool_decide_eq_true_2 _)).
    unfold when, allow. case_match; set_solver.
Qed.

(** * Cancelling a subscription sync batch terminates

    Slices of [run_batch_cleanup_slice] visit 25 items each and close every
    item they visit. *)

(** ** Open items *)

Definition open_keys (db : BatchDb) (batch : Z) : gset Z :=
  dom (filter (λ ki, it_batch ki.2 = batch ∧ terminal ki.2 = false) (d_items db)).

Lemma elem_of_open db batch k :
  k ∈ open_keys db batch ↔ ∃ i, d_items db !! k = Some i ∧ it_batch i = batch ∧ terminal i = false.
Proof.
  unfold open_keys. rewrite elem_of_dom. unfold is_Some. setoid_rewrite map_lookup_filter_Some. naive_solver.
Qed.

(** No open item waits for a repeated cancellation. *)
Definition plain_open (db : BatchDb) (batch : Z) : Prop :=
  ∀ k i, d_items db !! k = Some i → it_batch i = batch → terminal i = false → it_reason i ≠ Some "cancel_retry".

Lemma open_for_cancel_plain now db batch k i : plain_open db batch → d_items db !! k = Some i →
  open_for_cancel now batch i = (it_batch i =? batch) && negb (terminal i).
Proof.
  intros Hp Hk. unfold open_for_cancel. destruct (Z.eqb_spec (it_batch i) batch) as [E|]; [|done].
  destruct (terminal i) eqn:Et; [done|]. cbn. unfold cancel_due.
  by rewrite bool_decide_eq_false_2 by (by eapply Hp).
Qed.

Lemma elem_of_cancel_rows now db batch k i : plain_open db batch →
  (k, i) ∈ List.filter (λ ki, open_for_cancel now batch ki.2) (map_to_list (d_items db)) ↔
  d_items db !! k = Some i ∧ it_batch i = batch ∧ terminal i = false.
Proof.
  intros Hp. rewrite list_elem_of_In, List.filter_In, <-list_elem_of_In, elem_of_map_to_list. cbn. split.
  - intros [Hk Ho]. erewrite open_for_cancel_plain in Ho by done.
    apply andb_true_iff in Ho as [?%Z.eqb_eq ?%negb_true_iff]. done.
  - intros (Hk & Hb & Ht). split; [done|]. erewrite open_for_cancel_plain by done. by rewrite Ht, Hb, Z.eqb_refl.
Qed.

Lemma cancel_rows_keys now db batch : plain_open db batch →
  open_keys db batch =
    list_to_set (List.filter (λ ki, open_for_cancel now batch ki.2) (map_to_list (d_items db))).*1 ∧
  NoDup (List.filter (λ ki, open_for_cancel now batch ki.2) (map_to_list (d_items db))).*1.
Proof.
  intros Hp. split.
  - apply set_eq. intros k. rewrite elem_of_open, elem_of_list_to_set, list_elem_of_fmap. split.
    + intros (i & Hi). exists (k, i). split; [done|]. by apply elem_of_cancel_rows.
    + intros ([k' i] & -> & Hi%elem_of_cancel_rows); [|done]. eauto.
  - eapply sublist_NoDup; [apply (NoDup_fst_map_to_list (d_items db))|]. apply fmap_sublist, filter_sublist.
Qed.

(** The rows a slice selects. *)
Definition slice_ids (now : Z) (db : BatchDb) (batch : Z) : list Z :=
  fst <$> select_rows (λ ki, open_for_cancel now batch ki.2) item_before 0 SLICE_LIMIT (map_to_list (d_items db)).

Lemma slice_ids_spec now db batch : plain_open db batch →
  NoDup (slice_ids now db batch) ∧ (∀ k, k ∈ slice_ids now db batch → k ∈ open_keys db batch) ∧
  length (slice_ids now db batch) = (SLICE_LIMIT `min` size (open_keys db batch))%nat.
Proof.
  intros Hp. destruct (cancel_rows_keys now db batch Hp) as [Ek Hn]. split_and!.
  - unfold slice_ids. apply select_rows_distinct, NoDup_fst_map_to_list.
  - intros k. unfold slice_ids. rewrite list_elem_of_fmap. intros ([k' i] & -> & [Hin Ho]%select_rows_elem).
    rewrite Ek, elem_of_list_to_set, list_elem_of_fmap. exists (k', i). split; [done|].
    by rewrite list_elem_of_In, List.filter_In, <-list_elem_of_In.
  - unfold slice_ids. rewrite length_fmap. unfold select_rows. rewrite drop_0, length_take, order_by_perm.
    rewrite Ek, size_list_to_set by done. by rewrite length_fmap.
Qed.

(** ** One item *)

(** The rows other than items and downloads. *)
Definition same_frame (db db' : BatchDb) : Prop :=
  d_tasks db' = d_tasks db ∧ d_batches db' = d_batches db ∧ d_cleanup db' = d_cleanup db.

Lemma cancel_item_closes now db id task attempt i : current (d_tasks db) task attempt →
  d_items db !! id = Some i →
  ∃ db' i', _cancel_batch_item now db id task attempt = (db', Committed) ∧ same_frame db db' ∧
    d_items db' !! id = Some i' ∧ terminal i' = true ∧ ∀ k, k ≠ id → d_items db' !! k = d_items db !! k.
Proof.
  intros Hc Hi. unfold _cancel_batch_item. rewrite Hi. destruct (terminal i) eqn:Ht.
  { exists db, i. by split_and!. }
  destruct (cancel_download_of now db _) as [j job]. rewrite fenced_current by done.
  eexists _, (if terminal j then j else cancel_item now j). split; [done|].
  assert (terminal (if terminal j then j else cancel_item now j) = true) as Hterm by (by destruct (terminal j) eqn:Ej).
  destruct job as [job|]; cbn; rewrite lookup_insert_eq; split_and!; try done; intros k Hk; by rewrite lookup_insert_ne.
Qed.

Lemma visit_cancels_closes now task attempt batch ids n : (length ids ≤ n)%nat → ∀ db,
  current (d_tasks db) task attempt → (∀ k, k ∈ ids → is_Some (d_items db !! k)) →
  ∃ db', visit_cancels now db task attempt ids (replicate n Cancelled) = (db', Committed) ∧ same_frame db db' ∧
    open_keys db' batch = open_keys db batch ∖ list_to_set ids ∧
    ∀ k, ¬ (k ∈ ids) → d_items db' !! k = d_items db !! k.
Proof.
  revert n. induction ids as [|id ids IH]; intros n Hn db Hc Hids.
  { exists db. split_and!; [by destruct n|done|set_solver|done]. }
  destruct n as [|n]; [cbn in Hn; lia|]. cbn [replicate visit_cancels].
  destruct (Hids id) as [i Hi]; [set_solver|].
  destruct (cancel_item_closes now db id task attempt i Hc Hi) as (db1 & i1 & -> & (Et & Eb & Ecl) & Hi1 & Ht1 & Hfr).
  destruct (IH n ltac:(cbn in Hn; lia) db1) as (db2 & -> & (Et2 & Eb2 & Ecl2) & Ho2 & Hfr2).
  { by rewrite Et. }
  { intros k Hk. destruct (base.decide (k = id)) as [->|Hne]; [by rewrite Hi1|]. rewrite Hfr by done. apply Hids. by right. }
  exists db2. split_and!; [done|split_and!; congruence| |].
  - rewrite Ho2. apply set_eq. intros k. rewrite !elem_of_difference, !elem_of_open, !elem_of_list_to_set, elem_of_cons.
    destruct (base.decide (k = id)) as [->|Hne]; [rewrite Hi1; naive_solver congruence|].
    rewrite Hfr by done. naive_solver.
  - intros k Hk. rewrite elem_of_cons in Hk. rewrite Hfr2 by naive_solver. apply Hfr. naive_solver.
Qed.

(** ** One slice *)

Lemma cancel_unbound_open batch db : let db1 := put_items (cancel_unbound batch (d_items db)) db in
  (∀ k i, d_items db1 !! k = Some i → it_batch i = batch → terminal i = false → d_items db !! k = Some i) ∧
  open_keys db1 batch ⊆ open_keys db batch.
Proof.
  cbn. assert (∀ k i, cancel_unbound batch (d_items db) !! k = Some i → it_batch i = batch → terminal i = false →
    d_items db !! k = Some i) as H.
  { intros k i. unfold cancel_unbound. rewrite lookup_fmap. intros (j & Hj & ->)%fmap_Some.
    case_match; [|done]. by intros _ ?%eq_sym. }
  split; [done|]. intros k. rewrite !elem_of_open. cbn. intros (i & Hi & Hb & Ht). eauto.
Qed.

Lemma pending_open db batch b : pending (summarize db batch b) = true ↔ open_keys db batch ≠ ∅.
Proof.
  rewrite pending_iff. split.
  - intros (k & i & Hk & Hb & Ht) E. assert (k ∈ open_keys db batch) as Hin by (apply elem_of_open; eauto). set_solver.
  - intros [k Hk]%set_choose_L. apply elem_of_open in Hk as (i & ?). eauto.
Qed.

Lemma note_pending_frame parent p db :
  d_tasks (note_pending parent p db) = d_tasks db ∧ d_batches (note_pending parent p db) = d_batches db ∧
  d_items (note_pending parent p db) = d_items db.
Proof. unfold note_pending. by repeat case_match. Qed.

Lemma finish_cleanup_spec now db batch parent task attempt options b : d_batches db !! batch = Some b →
  current (d_tasks db) task attempt →
  ∃ db' e, finish_cleanup now db batch parent task attempt options = (db', e) ∧ d_items db' = d_items db ∧
    ba_state <$> d_batches db' !! batch = Some "cancelled" ∧
    ((open_keys db batch = ∅ ∧ e = SliceDone "cancelled") ∨
     (open_keys db batch ≠ ∅ ∧ ∃ ready, e = HandOff (attempt + 1) ready ∧ current (d_tasks db') task (attempt + 1))).
Proof.
  intros Hb Hcur. pose proof Hcur as [t Hf]. apply current_spec in Hcur as (t0 & dp & Ht & Ha & Hd & <-).
  unfold finish_cleanup. rewrite Hb, Hf. set (r := summarize db batch b). set (db1 := put_batch batch _ db).
  destruct (note_pending_frame parent (pending r) db1) as (E1 & E2 & E3).
  set (tasks := if parent_cancelled db parent then touched now (d_tasks db) parent else d_tasks db).
  assert (∃ t1, tasks !! task = Some t1 ∧ ad_dispatch t1 = Some dp ∧ active t1 = true) as (t1 & Ht1 & Hd1 & Ha1).
  { unfold tasks. case_match; [|eauto]. destruct (touched_lookup now (d_tasks db) parent task t0 Ht) as (t1 & ? & E & Es & _).
    exists t1. split_and!; [done|congruence|]. unfold active. by rewrite Es. }
  destruct (pending r) eqn:Ep.
  - match goal with |- context [prepare_admin_operation_handoff _ _ _ _ _ ?d] =>
      destruct (handoff_spec now tasks task t1 dp options d Ht1 Ha1 Hd1) as (t2 & next & -> & Hs & _ & Hn & Hna & _) end.
    eexists _, _. split; [done|]. cbn [d_items d_batches d_tasks put_tasks]. rewrite E3, E2. split_and!; [done| |].
    + cbn. by rewrite lookup_insert_eq.
    + right. split; [by apply pending_open in Ep|]. eexists. split; [done|]. apply current_spec. exists t2, next.
      rewrite lookup_insert_eq. split_and!; [done| |done|done]. unfold active. by rewrite Hs.
  - eexists _, _. split; [done|]. cbn [d_items d_batches d_tasks put_tasks]. rewrite E3, E2. split_and!; [done| |].
    + cbn. by rewrite lookup_insert_eq.
    + left. split; [|done]. destruct (base.decide (open_keys db batch = ∅)) as [|Hne]; [done|].
      apply (pending_open _ _ b) in Hne. unfold r in Ep. congruence.
Qed.

Lemma cleanup_slice_progress now db task attempt batch parent b n : d_batches db !! batch = Some b →
  current (d_tasks db) task attempt → plain_open db batch → (SLICE_LIMIT ≤ n)%nat →
  ∃ db' e, _run_batch_cleanup_slice now db task attempt batch parent (replicate n Cancelled) = (db', e) ∧
    (size (open_keys db' batch) ≤ size (open_keys db batch) - SLICE_LIMIT)%nat ∧
    ba_state <$> d_batches db' !! batch = Some "cancelled" ∧ plain_open db' batch ∧
    ((open_keys db' batch = ∅ ∧ e = SliceDone "cancelled") ∨
     (open_keys db' batch ≠ ∅ ∧ ∃ ready, e = HandOff (attempt + 1) ready ∧ current (d_tasks db') task (attempt + 1))).
Proof.
  intros Hb Hcur Hp Hn. unfold _run_batch_cleanup_slice. rewrite fenced_current by done.
  set (db1 := put_items _ db). destruct (cancel_unbound_open batch db) as [Hun Hsub]. fold db1 in Hun, Hsub.
  assert (plain_open db1 batch) as Hp1 by (intros k i Hk Hbi Ht; by eapply Hp; [apply Hun|..]).
  fold (slice_ids now db1 batch). destruct (slice_ids_spec now db1 batch Hp1) as (Hnd & Hin & Hlen).
  destruct (visit_cancels_closes now task attempt batch (slice_ids now db1 batch) n) with (db := db1)
    as (db2 & -> & (Et & Eb & _) & Ho & Hfr); [lia|done| |].
  { intros k Hk%Hin. apply elem_of_open in Hk as (i & -> & _). by eexists. }
  destruct (finish_cleanup_spec now db2 batch parent task attempt (OCleanup batch parent) b)
    as (db3 & e & Hf & Ei & Hs & Hend); [by rewrite Eb|by rewrite Et|].
  assert (open_keys db3 batch = open_keys db2 batch) as E3 by (unfold open_keys; by rewrite Ei).
  exists db3, e. rewrite Hf, E3. split_and!; [done| |done| |].
  - rewrite Ho, size_difference by (intros k Hk%elem_of_list_to_set; by apply Hin).
    rewrite size_list_to_set, Hlen by done. pose proof (subseteq_size _ _ Hsub). lia.
  - intros k i Hk Hbi Ht. rewrite Ei in Hk.
    assert (k ∈ open_keys db2 batch) as Hko by (apply elem_of_open; eauto).
    rewrite Ho, elem_of_difference, elem_of_list_to_set in Hko. rewrite Hfr in Hk by naive_solver. by eapply Hp1.
  - done.
Qed.

(** ** The whole cancellation *)

(** Up to [n] slices, each with the attempt the one before handed on. *)
Fixpoint cleanup_run (n : nat) (now : Z) (db : BatchDb) (task attempt batch parent : Z) : BatchDb * SliceEnd :=
  match n with
  | O => (db, SliceRejected)
  | S n =>
      match _run_batch_cleanup_slice now db task attempt batch parent (replicate SLICE_LIMIT Cancelled) with
      | (db', HandOff next _) => cleanup_run n (now + 1) db' task next batch parent
      | r => r
      end
  end.

(** C23: Cancelling a batch ends: when no visit raises an error, [n] slices are
    enough to close up to [25 * n] open items, after which the cleanup is done,
    the batch is cancelled and none of its items is open. *)
Theorem cleanup_terminates n now db task attempt batch parent b : d_batches db !! batch = Some b →
  current (d_tasks db) task attempt → plain_open db batch →
  (size (open_keys db batch) ≤ SLICE_LIMIT * n)%nat → (1 ≤ n)%nat →
  ∃ db', cleanup_run n now db task attempt batch parent = (db', SliceDone "cancelled") ∧
    ba_state <$> d_batches db' !! batch = Some "cancelled" ∧
    ∀ k i, d_items db' !! k = Some i → it_batch i = batch → it_status i ∈ ITEM_TERMINAL.
Proof.
  revert now db attempt b. induction n as [|n IH]; intros now db attempt b Hb Hcur Hp Hsize Hn; [lia|].
  destruct (cleanup_slice_progress now db task attempt batch parent b SLICE_LIMIT Hb Hcur Hp ltac:(lia))
    as (db' & e & Hrun & Hless & Hs & Hp' & Hend). cbn [cleanup_run]. rewrite Hrun.
  destruct Hend as [[Hempty ->]|(Hne & ready & -> & Hcur')].
  - exists db'. split_and!; [done|done|]. intros k i Hk Hbi. destruct (terminal i) eqn:Et; [by apply bool_decide_eq_true in Et|].
    assert (k ∈ open_keys db' batch) by (apply elem_of_open; eauto). set_solver.
  - apply fmap_Some in Hs as (b' & Hb' & _). destruct n as [|n].
    + destruct Hne. apply leibniz_equiv, size_empty_inv. unfold SLICE_LIMIT in *. lia.
    + apply (IH (now + 1) db' (attempt + 1) b'); [done|done|done|unfold SLICE_LIMIT in *; lia|lia].
Qed.
