(* ===== verification/SchedulerExample.v ===== *)
(** * A run of a subscription sync batch

    A batch over two eligible sources: one is downloaded, one refused.  The
    batch completes; in other runs its operation fails before the first slice,
    or it is cancelled.  Witnesses of the theorems on batches. *)

From stdpp Require Import base gmap strings list relations.
From S2P Require Import Prelude Keyset TaskState TaskRuns TaskPipeline TaskEngine AdminOperations AdminRuntime AdminRuntimeFacts AdminRecovery SchedulerBatches SchedulerFacts SchedulerSpec SchedulerSlices.

Open Scope string_scope.
Open Scope Z_scope.

Definition sources : gmap Z Source :=
  {[ 1 := mkSource true false true true; 2 := mkSource true false true true; 3 := mkSource false true true true ]}.
Definition before : BatchDb := mkBatchDb ∅ ∅ ∅ sources ∅ ∅.

Definition admitted_db : BatchDb :=
  match admit_batch 1000 before "force_eligible" 77 1 5 with Ok (db, _) => db | Err _ => before end.
Definition new_id (s : Z) : Z := 100 + s.
Definition initialized_db : BatchDb := (initialize_batch 1010 admitted_db 1 1 new_id).1.
Definition bound_db : BatchDb := (_process_item 1011 initialized_db 101 1 1 (Bound 900 901) (Some "published")).1.
Definition downloaded_db : BatchDb := put_child 900 (mkFacts (Some "complete") None ["complete"] false) bound_db.
Definition followed_db : BatchDb := (_process_item 1050 downloaded_db 101 1 1 (Linked 0) None).1.
Definition settled_db : BatchDb :=
  (_process_item 1051 followed_db 102 1 1 (Refused "source_url_empty" None false false) None).1.
Definition closed_db : BatchDb := (finish_slice 1052 settled_db 5 1 1 (OBatch "force_eligible")).1.

Example initial_items : (fst <$> map_to_list (d_items initialized_db)) ≡ₚ [101; 102].
Proof. vm_compute. apply Permutation_refl || (apply perm_swap). Qed.

Example closed_statuses :
  it_status <$> d_items closed_db !! 101 = Some "succeeded" ∧
  it_status <$> d_items closed_db !! 102 = Some "skipped" ∧
  ba_state <$> d_batches closed_db !! 5 = Some "complete".
Proof. vm_compute. auto. Qed.

(** ** The states are reached *)

Definition item_of_task_b (db : BatchDb) (id task : Z) : bool :=
  match d_items db !! id with
  | Some i => match d_batches db !! it_batch i with Some b => ba_task b =? task | None => false end
  | None => false
  end.

Lemma item_of_task_true db id task : item_of_task_b db id task = true → item_of_task db id task.
Proof.
  unfold item_of_task_b, item_of_task. destruct (d_items db !! id) as [i|]; [|done].
  destruct (d_batches db !! it_batch i) as [b|] eqn:E; [|done]. intros ?%Z.eqb_eq. eauto 10.
Qed.

Lemma step_reached db db' : batches_reached db → bstep db db' → batches_reached db'.
Proof. intros (db0 & H0 & Hr) H. exists db0. split; [done|]. by eapply rtc_r. Qed.

Lemma before_reached : batches_reached before.
Proof. exists before. split; [by split_and!|apply rtc_refl]. Qed.

Lemma admitted_ok : admit_batch 1000 before "force_eligible" 77 1 5 = Ok (admitted_db, 1).
Proof. vm_compute. reflexivity. Qed.

Lemma admitted_step : bstep before admitted_db.
Proof. by eapply (b_admit 1000 before "force_eligible" 77 1 5 _ 1); [..|apply admitted_ok]. Qed.

Lemma initialized_step : bstep admitted_db initialized_db.
Proof.
  apply b_initialize; [|intros x y; unfold new_id; lia]. intros s.
  assert (d_items admitted_db = ∅) as -> by (vm_compute; reflexivity). apply lookup_empty.
Qed.

Lemma bound_step : bstep initialized_db bound_db.
Proof. apply b_process, item_of_task_true. vm_compute. reflexivity. Qed.

Lemma followed_steps : rtc bstep bound_db settled_db.
Proof.
  eapply rtc_l; [apply (b_child bound_db 900 (mkFacts (Some "complete") None ["complete"] false))|].
  eapply rtc_l; [apply (b_process 1050 downloaded_db 101 1 1 (Linked 0) None), item_of_task_true; vm_compute; reflexivity|].
  eapply rtc_l; [apply (b_process 1051 followed_db 102 1 1 (Refused "source_url_empty" None false false) None), item_of_task_true; vm_compute; reflexivity|].
  apply rtc_refl.
Qed.

Definition the_batch (db : BatchDb) : Batch := default (mkBatch 0 0 "" "" None None) (d_batches db !! 5).

Lemma closed_step : bstep settled_db closed_db.
Proof.
  apply (b_finish 1052 settled_db 5 (the_batch settled_db) 1 1); [vm_compute; reflexivity..|].
  vm_compute. by eexists.
Qed.

Lemma bound_reached : batches_reached bound_db.
Proof.
  eapply step_reached; [eapply step_reached; [eapply step_reached; [apply before_reached|apply admitted_step]|apply initialized_step]|].
  apply bound_step.
Qed.

Lemma settled_reached : batches_reached settled_db.
Proof. destruct bound_reached as (db0 & H0 & Hr). exists db0. split; [done|]. etrans; [exact Hr|apply followed_steps]. Qed.

Lemma closed_reached : batches_reached closed_db.
Proof. eapply step_reached; [apply settled_reached|apply closed_step]. Qed.

Definition item_at (db : BatchDb) (k : Z) : Item := default (new_item 0 0) (d_items db !! k).

(** ** Witnesses *)

Lemma closed_batches_settled_witness :
  ba_state (the_batch closed_db) = "complete" ∧ it_status (item_at closed_db 101) ≠ "failed".
Proof.
  split; [vm_compute; reflexivity|].
  destruct (closed_batches_settled closed_db 5 (the_batch closed_db) 101 (item_at closed_db 101)) as (_ & _ & H);
    [apply closed_reached|vm_compute; reflexivity|vm_compute; left|vm_compute; reflexivity..|].
  apply H. vm_compute. reflexivity.
Defined.

Lemma one_active_batch_witness : ∀ j, (∃ c, d_batches bound_db !! j = Some c ∧ ba_state c = "active") → 5 = j.
Proof.
  intros j (c & Hc & Ha).
  destruct (one_active_batch bound_db 5 j (the_batch bound_db) c 0 0 (new_item 0 0) (new_item 0 0)) as [H _];
    [apply bound_reached|].
  apply H; [vm_compute; reflexivity|exact Hc|vm_compute; reflexivity|exact Ha].
Defined.

Lemma terminal_items_final_witness :
  d_items closed_db !! 102 = Some (item_at settled_db 102) ∨
  ∃ b, d_batches closed_db !! 5 = Some b ∧ is_Some (d_cleanup closed_db !! ba_task b).
Proof.
  apply (terminal_items_final settled_db closed_db 102 (item_at settled_db 102));
    [apply rtc_once, closed_step|vm_compute; reflexivity|vm_compute; right; left].
Defined.

Lemma bound_current : current (d_tasks bound_db) 1 1.
Proof. unfold current. vm_compute. eexists. reflexivity. Qed.

Lemma slice_ends_or_continues_witness : ∃ db' e,
  finish_slice 1012 bound_db 5 1 1 (OBatch "force_eligible") = (db', e) ∧ ∃ ready, e = HandOff 2 ready.
Proof.
  destruct (finish_slice 1012 bound_db 5 1 1 (OBatch "force_eligible")) as [db' e] eqn:E. exists db', e. split; [done|].
  destruct (slice_ends_or_continues 1012 bound_db 5 (the_batch bound_db) 1 1 (OBatch "force_eligible") db' e)
    as [(_ & ready & _ & _ & _ & -> & _)|[Hno _]]; [vm_compute; reflexivity|apply bound_current|exact E|by exists ready|].
  exfalso. apply Hno. exists 102, (item_at bound_db 102). split_and!; vm_compute; reflexivity.
Defined.

Lemma admission_repeats_witness :
  admit_batch 2000 bound_db "force_eligible" 77 8 9 = Ok (bound_db, 1) ∧
  admit_batch 2000 bound_db "due_scan" 77 8 9 = Err (RequestModeConflict 1).
Proof.
  assert (rtc bstep admitted_db bound_db) as Hr by (eapply rtc_l; [apply initialized_step|]; eapply rtc_once, bound_step).
  split.
  - rewrite (admission_repeats 1000 2000 before admitted_db bound_db "force_eligible" "force_eligible" 77 1 5 8 9 1);
      [reflexivity|apply before_reached|reflexivity|reflexivity|apply admitted_ok|exact Hr|left].
  - rewrite (admission_repeats 1000 2000 before admitted_db bound_db "force_eligible" "due_scan" 77 1 5 8 9 1);
      [reflexivity|apply before_reached|reflexivity|reflexivity|apply admitted_ok|exact Hr|right; left].
Defined.

(** The job of the first attempt ends in the queue before the worker claims it:
    the publication marks the operation failed. *)
Definition failed_publication :=
  publish_admin_operation 1030 (d_tasks admitted_db) {[ (1, 1) := mkRqJob "failed" 1 1 ]} 1 1 (mkRedis false false false false "").
Definition failed_db : BatchDb := put_tasks failed_publication.1.1 admitted_db.
Definition failed_task : AdminTask BatchOptions :=
  default (mkAdminTask (new_task 0 true "" None) "" "" "" (0, 0) 0 None None None None) (d_tasks failed_db !! 1).

Lemma failed_reached : batches_reached failed_db.
Proof.
  eapply step_reached; [eapply step_reached; [apply before_reached|apply admitted_step]|].
  apply b_tasks. destruct failed_publication as [[tasks rq] o] eqn:E. by eapply publish_updated.
Qed.

Lemma failed_operation_blocks_batches_witness :
  admit_batch 5000 failed_db "due_scan" 78 8 9 = Err (BatchActive 1) ∧
  ¬ ("retry" ∈ (decide_admin failed_task true).1) ∧ ¬ ("cancel" ∈ (decide_admin failed_task true).1).
Proof.
  assert (ba_task (the_batch failed_db) = 1) as E by (vm_compute; reflexivity).
  destruct (failed_operation_blocks_batches 5000 failed_db 5 (the_batch failed_db) failed_task "due_scan" 78 8 9 true)
    as (H1 & H2 & H3); [apply failed_reached|vm_compute; reflexivity..|right; left| |].
  - intros j c. assert (d_batches failed_db = {[ 5 := the_batch failed_db ]}) as -> by (vm_compute; reflexivity).
    intros [<- <-]%lookup_singleton_Some. vm_compute. discriminate.
  - rewrite E in H1. split; [exact H1|split; [exact H2|exact H3]].
Defined.

(** The batch is cancelled with one item bound and one open. *)
Definition cancelled_db : BatchDb :=
  match cancel_batch 1020 bound_db 1 "library:subscription-sync-cancel:1" 2 with Ok (_, db, _) => db | Err _ => bound_db end.

Lemma cleanup_terminates_witness : ∃ db',
  cleanup_run 1 1030 cancelled_db 2 1 5 1 = (db', SliceDone "cancelled") ∧
  ∀ k i, d_items db' !! k = Some i → it_batch i = 5 → it_status i ∈ ITEM_TERMINAL.
Proof.
  destruct (cleanup_terminates 1 1030 cancelled_db 2 1 5 1 (the_batch cancelled_db)) as (db' & H1 & _ & H2);
    [vm_compute; reflexivity| | | |lia|exists db'; split; [exact H1|exact H2]].
  - unfold current. vm_compute. eexists. reflexivity.
  - intros k i Hk _ _. assert (Forall (λ ki, it_reason ki.2 = None) (map_to_list (d_items cancelled_db))) as Hall
      by (vm_compute; repeat constructor).
    rewrite list.Forall_forall in Hall.
    assert (it_reason i = None) as ->; [|discriminate]. apply (Hall (k, i)). by apply elem_of_map_to_list.
  - apply Nat.leb_le. vm_compute. reflexivity.
Defined.

(** The child of the cancelled batch is cancelled too. *)
Example cancelled_child :
  cf_job <$> d_children (cleanup_run 1 1030 cancelled_db 2 1 5 1).1 !! 900 = Some (Some "cancelled").
Proof. vm_compute. reflexivity. Qed.

(** An error after a committed visit of the cleanup opens the item again. *)
Example cleanup_error_reopens :
  let visited := (_cancel_batch_item 1030 cancelled_db 101 2 1).1 in
  it_status <$> d_items visited !! 101 = Some "cancelled" ∧
  it_status <$> d_items (retry_cancel 1031 visited 101 2 1 "TimeoutError").1 !! 101 = Some "waiting".
Proof. vm_compute. auto. Qed.
