(* ===== verification/DownloadAdmission.v ===== *)
(** * Admission of downloads to the queue

    [app/services/queue_admission.py], [app/services/backpressure.py] and the
    queue limits of [app/services/device_profile.py]: the capacity checks before
    a download job is published, and the publication under the admission lock,
    as one call and as a transition system of producers.

    A call of Redis may raise; [Faults] says which calls do.  Messages, counters
    of rejections and the wake-up of workers, which never fail a publication,
    are left out.  Ratios are compared exactly. *)

From stdpp Require Import base gmap strings list relations.
From S2P Require Import Prelude PyStr Pressure.

Open Scope string_scope.
Open Scope Z_scope.

(** ** Device profiles *)

Definition GIB : Z := 1024 ^ 3.

(** publications per scheduler cycle, queued downloads, concurrent downloads *)
Definition PROFILE_LIMITS : list (string * (Z * Z * Z)) :=
  [("compact", (5, 25, 1)); ("standard", (25, 100, 1)); ("performance", (50, 200, 2))].

Definition classify_device_profile (memory_total_bytes cpu_count : option Z) : string :=
  match memory_total_bytes, cpu_count with
  | Some memory, Some cpus =>
      if (memory <? 12 * GIB) || (cpus <? 6) then "compact"
      else if (24 * GIB <=? memory) && (8 <=? cpus) then "performance" else "standard"
  | _, _ => "compact"
  end.

(** [requested] is the configured name, stripped and lowered. *)
Definition resolve_device_profile (requested : string) (memory cpus : option Z) : string * (Z * Z * Z) :=
  match assoc requested PROFILE_LIMITS with
  | Some limits => (requested, limits)
  | None =>
      let name := classify_device_profile memory cpus in
      (name, default (5, 25, 1) (assoc name PROFILE_LIMITS))
  end.

Definition DEFAULT_MAX_QUEUED_DOWNLOADS : Z := 100.

(** [configured]: [int(settings.download_queue_max_pending)], if it is one. *)
Definition _download_queue_limit (configured : option Z) (profile : string * (Z * Z * Z)) : Z :=
  Z.min (match configured with Some n => Z.max 1 n | None => DEFAULT_MAX_QUEUED_DOWNLOADS end)
    profile.2.1.2.

(** ** The queue *)

Definition DOWNLOAD_QUEUE_NAMES : list string :=
  ["downloads"; "downloads:pixiv"; "downloads:danbooru"; "downloads:iwara"; "downloads:weibo";
   "downloads:bilibili"; "downloads:pinterest"; "downloads:lofter"; "downloads:x"].

Inductive Registry := Queued | Intermediate | Scheduled | Deferred | Started | Ended.
Global Instance Registry_eq_dec : EqDecision Registry.
Proof. solve_decision. Defined.

Record DownloadRq := mkDownloadRq { dj_queue : string; dj_registry : Registry }.

Record QueueServer := mkServer {
  qs_used_memory : Z;
  qs_maxmemory : Z;
  qs_jobs : gmap string DownloadRq }.

Definition put_job (id : string) (j : DownloadRq) (s : QueueServer) : QueueServer :=
  mkServer (qs_used_memory s) (qs_maxmemory s) (<[id := j]> (qs_jobs s)).

Definition waits (r : Registry) : bool :=
  bool_decide (r ∈ [Queued; Intermediate; Scheduled; Deferred]).

(** [_download_waiting_count] *)
Definition waiting_job (extra : option string) (j : DownloadRq) : bool :=
  (bool_decide (dj_queue j ∈ DOWNLOAD_QUEUE_NAMES) || bool_decide (extra = Some (dj_queue j))) &&
  waits (dj_registry j).

Definition _download_waiting_count (s : QueueServer) (extra_queue_name : option string) : Z :=
  Z.of_nat (size (filter (λ kj, waiting_job extra_queue_name kj.2 = true) (qs_jobs s))).

(** ** Capacity *)

(** Which calls raise; the flags of [fa_acquire], [fa_fetch], [fa_count] and
    [fa_enqueue] say whether the error is transient.  An enqueue that raises
    may have stored the job. *)
Record Faults := mkFaults {
  fa_acquire : option bool;
  fa_fetch : option bool;
  fa_info : bool;
  fa_probe : bool;
  fa_count : option bool;
  fa_enqueue : option (bool * bool);
  fa_confirm : bool }.

Definition no_faults : Faults := mkFaults None None false false None None false.

(** [DownloadAdmissionError] and the reasons it is made of. *)
Record Reason := mkReason { re_code : string; re_transient : option bool }.
Record AdmissionError := mkAdmissionError {
  ae_code : string;
  ae_status_code : Z;
  ae_transient : option bool;
  ae_publication_uncertain : bool }.

(** [REDIS_ENQUEUE_STOP_RATIO] is 0.90. *)
Definition over_stop_ratio (used maximum : Z) : bool := 9 * maximum <=? 10 * used.

(** The code of the [QueueAdmissionError]. *)
Definition ensure_redis_enqueue_capacity (s : QueueServer) (f : Faults) : option string :=
  if fa_info f then Some "redis_unwritable"
  else if (0 <? qs_maxmemory s) && over_stop_ratio (qs_used_memory s) (qs_maxmemory s) then Some "redis_capacity"
  else if fa_probe f then Some "redis_unwritable"
  else None.

Definition _redis_capacity_and_queue_state (s : QueueServer) (f : Faults) (limit : Z)
    (extra_queue_name : option string) : option Reason * option Z :=
  match ensure_redis_enqueue_capacity s f with
  | Some code => (Some (mkReason code None), None)
  | None =>
      match fa_count f with
      | Some transient => (Some (mkReason "redis_unwritable" (Some transient)), None)
      | None =>
          let waiting := _download_waiting_count s extra_queue_name in
          (if limit <=? waiting then Some (mkReason "queue_saturated" None) else None, Some waiting)
      end
  end.

Definition admission_error (r : Reason) : AdmissionError :=
  mkAdmissionError (re_code r) (if bool_decide (re_code r = "queue_saturated") then 429 else 503)
    (re_transient r) false.

(** ** Publication *)

Record PublishRequest := mkPublish { pq_queue : string; pq_job : string; pq_delayed : bool }.

Definition new_job (q : PublishRequest) : DownloadRq :=
  mkDownloadRq (pq_queue q) (if pq_delayed q then Scheduled else Queued).

Definition unwritable (transient : option bool) (uncertain : bool) : AdmissionError :=
  mkAdmissionError "redis_unwritable" 503 transient uncertain.

(** The enqueue call with the confirmation of an ambiguous answer.  The job is
    new: [Queue.enqueue] would overwrite another one. *)
Definition publish_job (s : QueueServer) (q : PublishRequest) (f : Faults)
    : QueueServer * result AdmissionError string :=
  match fa_enqueue f with
  | None => (put_job (pq_job q) (new_job q) s, Ok (pq_job q))
  | Some (stored, transient) =>
      let s' := if stored then put_job (pq_job q) (new_job q) s else s in
      if fa_confirm f then (s', Err (unwritable (Some transient) true))
      else match qs_jobs s' !! pq_job q with
           | Some _ => (s', Ok (pq_job q))
           | None => (s', Err (unwritable (Some transient) false))
           end
  end.

(** What a producer does once it has the lock. *)
Definition admit_and_publish (s : QueueServer) (q : PublishRequest) (f : Faults) (limit : Z)
    : QueueServer * result AdmissionError string :=
  match fa_fetch f with
  | Some transient => (s, Err (unwritable (Some transient) true))
  | None =>
      match qs_jobs s !! pq_job q with
      | Some _ => (s, Ok (pq_job q))
      | None =>
          match (_redis_capacity_and_queue_state s f limit (Some (pq_queue q))).1 with
          | Some reason => (s, Err (admission_error reason))
          | None => publish_job s q f
          end
      end
  end.

(** [busy]: the lock is held by another producer for the whole wait. *)
Definition enqueue_download_rq (s : QueueServer) (q : PublishRequest) (f : Faults) (limit : Z) (busy : bool)
    : QueueServer * result AdmissionError string :=
  match fa_acquire f with
  | Some transient => (s, Err (unwritable (Some transient) false))
  | None =>
      if busy then (s, Err (mkAdmissionError "enqueue_busy" 503 None false))
      else admit_and_publish s q f limit
  end.

(** ** Preflight checks *)

(** What the producer's preflight reads: free bytes of the download storage, if
    it is mounted, its floor in bytes, artifacts waiting for import and their
    limit. *)
Record Preflight := mkPreflight {
  pf_free : option Z;
  pf_minimum_free : Z;
  pf_pending : Z;
  pf_max_pending : Z }.

(** Its first part, which no producer escapes. *)
Definition storage_reason (p : Preflight) : option Reason :=
  match pf_free p with
  | None => Some (mkReason "storage_unavailable" None)
  | Some free =>
      if free <? pf_minimum_free p then Some (mkReason "disk_backpressure" None)
      else if pf_max_pending p <=? pf_pending p then Some (mkReason "import_backpressure" None)
      else None
  end.

Definition _automatic_download_pressure_reason (sn : Snapshot) : option Reason :=
  if (resource_profile_permit sn (Some (u "download"))).1 then None
  else Some (mkReason "resource_pressure" None).

Definition _base_download_backpressure_reason (p : Preflight) (sn : Snapshot) (automatic : bool) : option Reason :=
  match storage_reason p with
  | Some r => Some r
  | None => if automatic then _automatic_download_pressure_reason sn else None
  end.

Record DownloadAdmissionSnapshot := mkAdmission {
  da_reason : option Reason;
  da_queued : option Z;
  da_maximum_queued : Z;
  da_remaining_slots : Z;
  da_automatic : bool }.

Definition reserve_published_slot (a : DownloadAdmissionSnapshot) : DownloadAdmissionSnapshot :=
  mkAdmission (da_reason a) (da_queued a) (da_maximum_queued a) (Z.max 0 (da_remaining_slots a - 1)) (da_automatic a).

Definition build_download_admission_snapshot (p : Preflight) (sn : Snapshot) (s : QueueServer) (f : Faults)
    (limit : Z) (automatic include_queue : bool) : DownloadAdmissionSnapshot :=
  let reason := match storage_reason p with
                | Some r => Some r
                | None => if automatic then _automatic_download_pressure_reason sn else None end in
  let '(reason, queued) := match reason with
                           | None => if include_queue then _redis_capacity_and_queue_state s f limit None else (None, None)
                           | Some r => (Some r, None) end in
  mkAdmission reason queued limit
    (match queued, reason with Some n, None => Z.max 0 (limit - n) | _, _ => 0 end) automatic.

(** [cached] is the snapshot of the running producer batch. *)
Definition download_backpressure_reason (cached : option DownloadAdmissionSnapshot) (p : Preflight) (sn : Snapshot)
    (s : QueueServer) (f : Faults) (limit : Z) (automatic include_queue : bool) : option Reason :=
  let direct :=
    match _base_download_backpressure_reason p sn automatic with
    | Some r => Some r
    | None => if include_queue then (_redis_capacity_and_queue_state s f limit None).1 else None
    end in
  match cached with
  | Some a =>
      if Bool.eqb (da_automatic a) automatic then
        match da_reason a with
        | Some r => Some r
        | None => if include_queue && (da_remaining_slots a <=? 0) then Some (mkReason "queue_saturated" None) else None
        end
      else direct
  | None => direct
  end.

(** ** Producers side by side *)

(** Where a producer stands; all but the first hold the admission lock, or
    held it until it expired. *)
Inductive Stage := Waiting | Inside | Absent | Cleared.

Record AdmissionWorld := mkAdmissionWorld {
  aw_server : QueueServer;
  aw_lock : option Z;
  aw_producers : gmap Z (PublishRequest * Stage) }.

Definition set_server (w : AdmissionWorld) (s : QueueServer) : AdmissionWorld :=
  mkAdmissionWorld s (aw_lock w) (aw_producers w).
Definition set_lock (w : AdmissionWorld) (l : option Z) : AdmissionWorld :=
  mkAdmissionWorld (aw_server w) l (aw_producers w).
Definition set_producer (w : AdmissionWorld) (k : Z) (q : PublishRequest) (st : Stage) : AdmissionWorld :=
  mkAdmissionWorld (aw_server w) (aw_lock w) (<[k := (q, st)]> (aw_producers w)).
(** The producer is done; its release only removes its own lock. *)
Definition finish (w : AdmissionWorld) (k : Z) : AdmissionWorld :=
  mkAdmissionWorld (aw_server w) (if bool_decide (aw_lock w = Some k) then None else aw_lock w)
    (delete k (aw_producers w)).

(** [strict]: the lease of the lock outlasts a producer's critical section. *)
Inductive pstep (limit : Z) (strict : bool) : AdmissionWorld → AdmissionWorld → Prop :=
| p_arrive w k q : aw_producers w !! k = None → pq_queue q ∈ DOWNLOAD_QUEUE_NAMES →
    pstep limit strict w (set_producer w k q Waiting)
| p_acquire w k q : aw_producers w !! k = Some (q, Waiting) → aw_lock w = None →
    pstep limit strict w (set_lock (set_producer w k q Inside) (Some k))
| p_fetch w k q : aw_producers w !! k = Some (q, Inside) → qs_jobs (aw_server w) !! pq_job q = None →
    pstep limit strict w (set_producer w k q Absent)
| p_admit w k q f n : aw_producers w !! k = Some (q, Absent) →
    _redis_capacity_and_queue_state (aw_server w) f limit (Some (pq_queue q)) = (None, n) →
    pstep limit strict w (set_producer w k q Cleared)
| p_publish w k q f s r : aw_producers w !! k = Some (q, Cleared) → publish_job (aw_server w) q f = (s, r) →
    pstep limit strict w (finish (set_server w s) k)
(** an early return or an error, with the release of the lock *)
| p_finish w k : pstep limit strict w (finish w k)
(** the process dies, the lock stays *)
| p_die w k : pstep limit strict w (mkAdmissionWorld (aw_server w) (aw_lock w) (delete k (aw_producers w)))
| p_expire w k : aw_lock w = Some k → (strict = true → aw_producers w !! k = None) →
    pstep limit strict w (set_lock w None)
(** workers take jobs, the scheduler of the queue moves them, records expire *)
| p_job w id j r : qs_jobs (aw_server w) !! id = Some j → (waits r = true → waits (dj_registry j) = true) →
    pstep limit strict w (set_server w (put_job id (mkDownloadRq (dj_queue j) r) (aw_server w)))
| p_remove w id : pstep limit strict w (set_server w
    (mkServer (qs_used_memory (aw_server w)) (qs_maxmemory (aw_server w)) (delete id (qs_jobs (aw_server w)))))
| p_memory w used : pstep limit strict w (set_server w
    (mkServer used (qs_maxmemory (aw_server w)) (qs_jobs (aw_server w)))).
