(* ===== verification/DownloadAdmissionSpec.v ===== *)
(** * What download admission guarantees

    The ceiling on waiting downloads, what the answer of a publication says
    about the queue, and the slots of a producer batch. *)

From stdpp Require Import base gmap strings list relations.
From S2P Require Import Prelude PyStr Pressure DownloadAdmission.

Open Scope string_scope.
Open Scope Z_scope.

(** ** Counting waiting jobs *)

Definition waiting_total (s : QueueServer) : Z := _download_waiting_count s None.

Lemma waiting_extra q j : q ∈ DOWNLOAD_QUEUE_NAMES → waiting_job (Some q) j = waiting_job None j.
Proof.
  intros Hq. unfold waiting_job. destruct (bool_decide (dj_queue j ∈ _)) eqn:E; [done|].
  apply bool_decide_eq_false in E. rewrite !bool_decide_eq_false_2; [done|congruence|congruence].
Qed.

Lemma waiting_count_extra s q : q ∈ DOWNLOAD_QUEUE_NAMES → _download_waiting_count s (Some q) = waiting_total s.
Proof.
  intros Hq. unfold waiting_total, _download_waiting_count. do 2 f_equal. apply map_filter_ext.
  intros i j _. cbn. by rewrite waiting_extra.
Qed.

Abbreviation waiting_jobs jobs := (filter (λ kj : string * DownloadRq, waiting_job None kj.2 = true) jobs).

Lemma waiting_insert_le (jobs : gmap string DownloadRq) id j :
  (size (waiting_jobs (<[id := j]> jobs)) ≤ S (size (waiting_jobs jobs)))%nat.
Proof.
  rewrite map_filter_insert. case_decide.
  - rewrite map_size_insert. case_match; cbn; lia.
  - etrans; [|apply Nat.le_succ_diag_r]. apply map_subseteq_size, map_filter_subseteq_mono, delete_subseteq.
Qed.

Lemma waiting_put_le s id j : waiting_total (put_job id j s) ≤ waiting_total s + 1.
Proof. unfold waiting_total, _download_waiting_count. cbn. pose proof (waiting_insert_le (qs_jobs s) id j). lia. Qed.

Lemma waiting_move_le (jobs : gmap string DownloadRq) id j j' : jobs !! id = Some j →
  (waiting_job None j' = true → waiting_job None j = true) →
  (size (waiting_jobs (<[id := j']> jobs)) ≤ size (waiting_jobs jobs))%nat.
Proof.
  intros Hj Hw. rewrite map_filter_insert. case_decide as Hd; cbn in Hd.
  - rewrite map_size_insert. rewrite (map_lookup_filter_Some_2 _ _ _ j); [done|done|]. cbn. auto.
  - apply map_subseteq_size, map_filter_subseteq_mono, delete_subseteq.
Qed.

Lemma waiting_delete_le (jobs : gmap string DownloadRq) id :
  (size (waiting_jobs (delete id jobs)) ≤ size (waiting_jobs jobs))%nat.
Proof. apply map_subseteq_size, map_filter_subseteq_mono, delete_subseteq. Qed.

(** ** The ceiling *)

Section Ceiling.
Context (limit : Z).

Record admission_ok (w : AdmissionWorld) : Prop := {
  ad_total : waiting_total (aw_server w) ≤ limit;
  ad_queue k q st : aw_producers w !! k = Some (q, st) → pq_queue q ∈ DOWNLOAD_QUEUE_NAMES;
  ad_lock k q st : aw_producers w !! k = Some (q, st) → st ≠ Waiting → aw_lock w = Some k;
  ad_cleared k q : aw_producers w !! k = Some (q, Cleared) → waiting_total (aw_server w) < limit }.

(** Fewer waiting jobs, fewer producers, and a lock that none of them loses. *)
Lemma shrink_ok w w' : admission_ok w → waiting_total (aw_server w') ≤ waiting_total (aw_server w) →
  (∀ k p, aw_producers w' !! k = Some p → aw_producers w !! k = Some p) →
  (∀ k, is_Some (aw_producers w' !! k) → aw_lock w = Some k → aw_lock w' = Some k) → admission_ok w'.
Proof.
  intros [H1 H2 H3 H4] Ht Hp Hl. split.
  - lia.
  - intros k q st Hk. eauto.
  - intros k q st Hk Hne. apply Hl; eauto.
  - intros k q Hk. apply Hp, H4 in Hk. lia.
Qed.

Lemma producer_finish_ok w k : admission_ok w → admission_ok (finish w k).
Proof.
  intros Hok. eapply shrink_ok; [exact Hok|done| |]; cbn.
  - intros l p. by rewrite lookup_delete_Some; intros [_ ?].
  - intros l [p [Hne _]%lookup_delete_Some] Hl. rewrite bool_decide_eq_false_2 by congruence. done.
Qed.

(** A producer moves on while it holds the lock. *)
Lemma advance_ok w k q st st' : admission_ok w → aw_producers w !! k = Some (q, st) → st ≠ Waiting →
  (st' = Cleared → waiting_total (aw_server w) < limit) → admission_ok (set_producer w k q st').
Proof.
  intros [H1 H2 H3 H4] Hk Hne Hadm. split; cbn; [done| | |].
  - intros l r x [[<- [= <- <-]]|[_ ?]]%lookup_insert_Some; eauto.
  - intros l r x [[<- [= <- <-]]|[_ ?]]%lookup_insert_Some; eauto.
  - intros l r [[<- [= <- ->]]|[_ ?]]%lookup_insert_Some; eauto.
Qed.

Lemma publish_le s q f s' r : publish_job s q f = (s', r) → waiting_total s' ≤ waiting_total s + 1.
Proof.
  unfold publish_job. pose proof (waiting_put_le s (pq_job q) (new_job q)).
  destruct (fa_enqueue f) as [[[] t]|]; intros E; repeat case_match; injection E as <- _; lia.
Qed.

Lemma pstep_ok w w' : pstep limit true w w' → admission_ok w → admission_ok w'.
Proof.
  intros Hstep Hok. destruct Hstep.
  - destruct Hok as [H1 H2 H3 H4]. split; cbn; [done| | |].
    + intros l r x [[<- [= <- <-]]|[_ ?]]%lookup_insert_Some; eauto.
    + intros l r x [[<- [= <- <-]]|[_ ?]]%lookup_insert_Some; [done|eauto].
    + intros l r [[<- [=]]|[_ ?]]%lookup_insert_Some; eauto.
  - destruct Hok as [H1 H2 H3 H4]. split; cbn; [done| | |].
    + intros l r x [[<- [= <- <-]]|[_ ?]]%lookup_insert_Some; eauto.
    + intros l r x [[<- [= <- <-]]|[_ Hl]]%lookup_insert_Some Hne; [done|].
      apply H3 in Hl; [|done]. congruence.
    + intros l r [[<- [=]]|[_ ?]]%lookup_insert_Some; eauto.
  - by eapply advance_ok.
  - eapply advance_ok; [done|done|done|]. intros _. unfold _redis_capacity_and_queue_state in H0.
    rewrite waiting_count_extra in H0 by (by eapply ad_queue).
    repeat case_match; simplify_eq. lia.
  - pose proof (ad_lock _ Hok _ _ _ H ltac:(done)) as Hl. pose proof (ad_cleared _ Hok _ _ H) as Ha.
    pose proof (publish_le _ _ _ _ _ H0) as Hle. destruct Hok as [H1 H2 H3 H4]. split; cbn.
    + lia.
    + intros l p x [_ ?]%lookup_delete_Some. eauto.
    + intros l p x [Hne Hp]%lookup_delete_Some Hx. apply H3 in Hp; [|done]. congruence.
    + intros l p [Hne Hp]%lookup_delete_Some. apply H3 in Hp; [|done]. congruence.
  - by apply producer_finish_ok.
  - eapply shrink_ok; [exact Hok|done| |done]; cbn. intros l p. by rewrite lookup_delete_Some; intros [_ ?].
  - eapply shrink_ok; [exact Hok|done|done|]; cbn. intros l [p Hp] Hl.
    assert (l = k) as -> by congruence. rewrite H0 in Hp; done.
  - eapply shrink_ok; [exact Hok| |done|done]. unfold waiting_total, _download_waiting_count. cbn.
    apply Nat2Z.inj_le, (waiting_move_le _ _ j); [done|]. unfold waiting_job. cbn.
    rewrite !andb_true_iff. naive_solver.
  - eapply shrink_ok; [exact Hok| |done|done]. unfold waiting_total, _download_waiting_count. cbn.
    apply Nat2Z.inj_le, waiting_delete_le.
  - by eapply shrink_ok; [exact Hok| |done|done].
Qed.

End Ceiling.


(** ** The answer of a publication *)

(** What the answer of a publication says of the queue: success means the
    job is there, and an error that is not marked as uncertain means this call
    stored nothing, and, once the lock was obtained, that no job of that id is
    there.  A job that is already there is always reported as success, whatever
    the capacity. *)
Theorem publication_outcome s q f limit busy s' r : enqueue_download_rq s q f limit busy = (s', r) →
  match r with
  | Ok id => id = pq_job q ∧ is_Some (qs_jobs s' !! pq_job q) ∧
             ∀ other, other ≠ pq_job q → qs_jobs s' !! other = qs_jobs s !! other
  | Err e => (ae_publication_uncertain e = false → s' = s ∧
               (fa_acquire f = None → busy = false → qs_jobs s !! pq_job q = None)) ∧
             (fa_acquire f = None → busy = false → fa_fetch f = None → qs_jobs s !! pq_job q = None)
  end.
Proof.
  unfold enqueue_download_rq. destruct (fa_acquire f) as [t|] eqn:Ea; [intros [= <- <-]; by split|].
  destruct busy; [intros [= <- <-]; by split|]. unfold admit_and_publish.
  destruct (fa_fetch f) as [t|] eqn:Ef; [intros [= <- <-]; by split|].
  destruct (qs_jobs s !! pq_job q) as [j|] eqn:Ej; [intros [= <- <-]; by rewrite Ej|].
  destruct (_.1) as [reason|]; [intros [= <- <-]; by split|].
  unfold publish_job. destruct (fa_enqueue f) as [[stored t]|].
  - destruct (fa_confirm f); [intros [= <- <-]; by split|]. destruct stored; cbn.
    + rewrite lookup_insert_eq. intros [= <- <-]. cbn. rewrite lookup_insert_eq. split_and!; [done|by eexists|].
      intros o Ho. by rewrite lookup_insert_ne.
    + rewrite Ej. intros [= <- <-]. by split.
  - intros [= <- <-]. cbn. rewrite lookup_insert_eq. split_and!; [done|by eexists|]. intros o Ho. by rewrite lookup_insert_ne.
Qed.

(** ** Producer batches *)

Lemma reserved_slots n a : da_remaining_slots (Nat.iter n reserve_published_slot a) =
  if (0 <? n)%nat then Z.max 0 (da_remaining_slots a - Z.of_nat n) else da_remaining_slots a.
Proof.
  induction n as [|n IH]; [cbn; lia|]. rewrite Nat.iter_succ. cbn [reserve_published_slot da_remaining_slots].
  rewrite IH. cbn [Nat.ltb Nat.leb]. destruct n; cbn; lia.
Qed.

Lemma reserved_rest n a : da_reason (Nat.iter n reserve_published_slot a) = da_reason a ∧
  da_automatic (Nat.iter n reserve_published_slot a) = da_automatic a.
Proof. induction n as [|n [IH1 IH2]]; done. Qed.

(** A producer batch whose snapshot found no obstacle may publish exactly as
    many downloads as the queue had free slots: after [n] publications its
    preflight passes if and only if [n] is below the free slots at the
    snapshot. *)
Theorem batch_fills_free_slots p sn s f limit automatic n :
  let a := build_download_admission_snapshot p sn s f limit automatic true in
  da_reason a = None →
  download_backpressure_reason (Some (Nat.iter n reserve_published_slot a)) p sn s f limit automatic true = None ↔
  Z.of_nat n < limit - waiting_total s.
Proof.
  cbn zeta. intros Hr. set (a := build_download_admission_snapshot p sn s f limit automatic true) in *.
  assert (da_remaining_slots a = Z.max 0 (limit - waiting_total s) ∧ waiting_total s < limit ∧ da_automatic a = automatic)
    as (Es & Hlt & Ea).
  { unfold a, build_download_admission_snapshot in *.
    destruct (match storage_reason p with Some r => Some r | None => if automatic then _automatic_download_pressure_reason sn else None end); [done|].
    unfold _redis_capacity_and_queue_state, waiting_total in *.
    destruct (ensure_redis_enqueue_capacity s f); [done|]. destruct (fa_count f); [done|].
    destruct (Z.leb_spec limit (_download_waiting_count s None)); [done|]. by cbn. }
  unfold download_backpressure_reason. destruct (reserved_rest n a) as [-> ->]. rewrite Ea, eqb_reflx, Hr, reserved_slots, Es. cbn [andb].
  match goal with |- context [?x <=? 0] => destruct (Z.leb_spec x 0) as [Hle|Hgt] end.
  - split; [done|]. destruct n; cbn in Hle; lia.
  - split; [|done]. destruct n; cbn in Hgt; lia.
Qed.

(** The limit is positive and at most what the device allows. *)
Lemma queue_limit_bounds configured requested memory cpus :
  1 ≤ _download_queue_limit configured (resolve_device_profile requested memory cpus) ≤ 200.
Proof.
  unfold _download_queue_limit, resolve_device_profile.
  assert (∀ name, 25 ≤ (default (5, 25, 1) (assoc name PROFILE_LIMITS)).1.2 ≤ 200) as Hl.
  { intros name. unfold PROFILE_LIMITS. cbn. repeat case_decide; cbn; lia. }
  assert (1 ≤ match configured with Some n => Z.max 1 n | None => DEFAULT_MAX_QUEUED_DOWNLOADS end)
    by (unfold DEFAULT_MAX_QUEUED_DOWNLOADS; case_match; lia).
  pose proof (Hl requested) as H1. pose proof (Hl (classify_device_profile memory cpus)) as H2.
  destruct (assoc requested PROFILE_LIMITS) as [l|]; cbn in *; lia.
Qed.

(** ** Witnesses *)

Definition empty_server : QueueServer := mkServer 10 1000 ∅.
Definition request (n : string) : PublishRequest := mkPublish "downloads:pixiv" n false.
Definition quiet : AdmissionWorld := mkAdmissionWorld empty_server None ∅.
Definition one_published : AdmissionWorld :=
  finish (set_server (set_producer (set_producer (set_lock (set_producer (set_producer quiet 1 (request "a") Waiting)
    1 (request "a") Inside) (Some 1)) 1 (request "a") Absent) 1 (request "a") Cleared)
    (put_job "a" (new_job (request "a")) empty_server)) 1.

Lemma one_published_run strict : rtc (pstep 1 strict) quiet one_published.
Proof.
  eapply rtc_l; [apply (p_arrive 1 strict quiet 1 (request "a")); [reflexivity|cbn; right; left]|].
  eapply rtc_l; [apply (p_acquire 1 strict _ 1 (request "a")); reflexivity|].
  eapply rtc_l; [apply (p_fetch 1 strict _ 1 (request "a")); reflexivity|].
  eapply rtc_l; [apply (p_admit 1 strict _ 1 (request "a") no_faults (Some 0)); reflexivity|].
  eapply rtc_l; [eapply (p_publish 1 strict _ 1 (request "a") no_faults _ (Ok "a")); [reflexivity|reflexivity]|]. apply rtc_refl.
Qed.


(** An answer that is lost after the job was stored is recovered. *)
Lemma publication_outcome_witness :
  is_Some (qs_jobs (enqueue_download_rq empty_server (request "a")
    (mkFaults None None false false None (Some (true, true)) false) 10 false).1 !! "a").
Proof.
  exact (proj1 (proj2 (publication_outcome empty_server (request "a")
    (mkFaults None None false false None (Some (true, true)) false) 10 false _ (Ok "a") eq_refl))).
Defined.

Definition calm : Snapshot := mkSnapshot "normal" None None.
Definition roomy : Preflight := mkPreflight (Some 1000) 10 0 100.

Lemma batch_fills_free_slots_witness :
  download_backpressure_reason (Some (Nat.iter 3 reserve_published_slot
    (build_download_admission_snapshot roomy calm empty_server no_faults 3 true true)))
    roomy calm empty_server no_faults 3 true true ≠ None.
Proof.
  intros H. apply (batch_fills_free_slots roomy calm empty_server no_faults 3 true 3) in H;
    [vm_compute in H; discriminate H|vm_compute; reflexivity].
Defined.

(** When the lock expires under a live producer, the ceiling gives way. *)
Example overrun_breaks_ceiling : ∃ w, rtc (pstep 1 false) quiet w ∧ waiting_total (aw_server w) = 2.
Proof.
  eexists. split.
  - eapply rtc_l; [apply (p_arrive 1 false quiet 1 (request "a")); [reflexivity|cbn; right; left]|].
    eapply rtc_l; [apply (p_acquire 1 false _ 1 (request "a")); reflexivity|].
    eapply rtc_l; [apply (p_fetch 1 false _ 1 (request "a")); reflexivity|].
    eapply rtc_l; [apply (p_admit 1 false _ 1 (request "a") no_faults (Some 0)); reflexivity|].
    eapply rtc_l; [apply (p_expire 1 false _ 1); [reflexivity|discriminate]|].
    eapply rtc_l; [apply (p_arrive 1 false _ 2 (request "b")); [reflexivity|cbn; right; left]|].
    eapply rtc_l; [apply (p_acquire 1 false _ 2 (request "b")); reflexivity|].
    eapply rtc_l; [apply (p_fetch 1 false _ 2 (request "b")); reflexivity|].
    eapply rtc_l; [apply (p_admit 1 false _ 2 (request "b") no_faults (Some 0)); reflexivity|].
    eapply rtc_l; [eapply (p_publish 1 false _ 2 (request "b") no_faults _ (Ok "b")); [reflexivity|reflexivity]|].
    eapply rtc_l; [eapply (p_publish 1 false _ 1 (request "a") no_faults _ (Ok "a")); [reflexivity|reflexivity]|]. apply rtc_refl.
  - vm_compute. reflexivity.
Qed.
