(* ===== verification/Programs.v ===== *)
(** * Programs that talk to shared services

    Code that runs beside other processes is a tree of the calls it makes: each
    call is one atomic exchange with a shared service, and what follows depends
    on its answer.  The transition systems of the components interleave the
    calls of several such programs.

    [wp] follows what one program owns through its calls, with a private state
    that only the answers change: the usual weakest precondition, for programs
    whose environment may act between any two calls. *)

From stdpp Require Import base list.
From S2P Require Import Prelude.

Section Programs.
Context {op : Type → Type}.

Inductive prog (A : Type) : Type :=
| Ret (a : A)
| Act {X : Type} (o : op X) (k : X → prog A).
Arguments Ret {A} a.
Arguments Act {A X} o k.

Fixpoint prog_bind {A B} (f : A → prog B) (p : prog A) : prog B :=
  match p with
  | Ret a => f a
  | Act o k => Act o (λ x, prog_bind f (k x))
  end.

Definition act {X} (o : op X) : prog X := Act o Ret.

(** The result of a program whose calls are answered by [answer]. *)
Fixpoint run_with (answer : ∀ X, op X → X) {A} (p : prog A) : A :=
  match p with
  | Ret a => a
  | Act o k => run_with answer (k (answer _ o))
  end.

Lemma run_with_bind answer {A B} (f : A → prog B) (p : prog A) :
  run_with answer (prog_bind f p) = run_with answer (f (run_with answer p)).
Proof. induction p; cbn; auto. Qed.

(** ** The calls a program makes *)

Section Only.
Context (P : ∀ X, op X → Prop).

Fixpoint only {A} (p : prog A) : Prop :=
  match p with
  | Ret _ => True
  | Act o k => P _ o ∧ ∀ x, only (k x)
  end.

Lemma only_bind {A B} (f : A → prog B) (p : prog A) :
  only p → (∀ a, only (f a)) → only (prog_bind f p).
Proof. intros Hp Hf. induction p as [a|X o k IH]; cbn in *; [auto|]. split; [tauto|]. intros x. by apply IH, Hp. Qed.

Lemma only_act {X} (o : op X) : P _ o → only (act o).
Proof. by split. Qed.

Lemma only_step {A X} (o : op X) (k : X → prog A) x : only (Act o k) → only (k x).
Proof. intros [_ Hk]. apply Hk. Qed.
End Only.

Lemma only_mono {A} (P R : ∀ X, op X → Prop) (p : prog A) :
  (∀ X (o : op X), P X o → R X o) → only P p → only R p.
Proof. intros HPR. induction p as [a|X o k IH]; cbn; [done|]. intros [? Hk]. split; auto. Qed.

(** ** What a program owns *)

Section WP.
Context {G : Type} (track : ∀ X, op X → X → G → G) (before : ∀ X, op X → G → Prop).

Fixpoint wp {A} (p : prog A) (Q : A → G → Prop) (g : G) : Prop :=
  match p with
  | Ret a => Q a g
  | Act o k => before _ o g ∧ ∀ x, wp (k x) Q (track _ o x g)
  end.

Lemma wp_mono {A} (p : prog A) (Q R : A → G → Prop) g :
  (∀ a g, Q a g → R a g) → wp p Q g → wp p R g.
Proof.
  intros H. revert g. induction p as [a|X o k IH]; intros g; cbn; [auto|].
  intros [? Hk]. split; auto.
Qed.

Lemma wp_bind {A B} (f : A → prog B) (p : prog A) (Q : B → G → Prop) g :
  wp p (λ a g', wp (f a) Q g') g → wp (prog_bind f p) Q g.
Proof. revert g. induction p as [a|X o k IH]; intros g; cbn; [done|]. intros [? Hk]. split; auto. Qed.

Lemma wp_act {X} (o : op X) (Q : X → G → Prop) g :
  before _ o g → (∀ x, Q x (track _ o x g)) → wp (act o) Q g.
Proof. by split. Qed.

(** Calls that leave the private state alone. *)
Definition inert (X : Type) (o : op X) : Prop := ∀ g, before _ o g ∧ ∀ x, track _ o x g = g.

Lemma wp_inert {A} (p : prog A) (Q : A → G → Prop) g :
  only inert p → (∀ a, Q a g) → wp p Q g.
Proof.
  intros Hp HQ. induction p as [a|X o k IH]; cbn in *; [auto|].
  destruct Hp as [Ho Hk]. destruct (Ho g) as [Hb Ht]. split; [done|]. intros x. rewrite Ht. auto.
Qed.
End WP.
End Programs.

Arguments prog op A : clear implicits.
Arguments Ret {op A} a.
Arguments Act {op A X} o k.

Global Instance prog_ret {op} : MRet (prog op) := @Ret op.
Global Instance prog_mbind {op} : MBind (prog op) := @prog_bind op.

Lemma run_with_mbind {op} (answer : ∀ X, op X → X) {A B} (f : A → prog op B) (p : prog op A) :
  run_with answer (p ≫= f) = run_with answer (f (run_with answer p)).
Proof. apply run_with_bind. Qed.
