(* ===== verification/HeavyIO.v ===== *)
(** * Heavy-I/O leases: keys, locks, leases and slots

    [app/services/heavy_io.py] and [app/services/remote_search_flight.py]: the
    profile-scoped admission of heavy background work.  A slice holds POSIX
    locks on the shared volume (a maintenance barrier, its lane, its profile,
    its source) and a renewable Redis lease with a memory reservation.

    Every call of Redis, of the file locks, of the marker file and of the
    pressure snapshot is one event of a program ([Programs]); calls that can
    raise answer a [result].  Log lines, the waiting between attempts and the
    metadata of the RQ job are left out; the resource state a slice publishes
    is an event.  [digest] is the first 24 hexadecimal digits of SHA-256;
    [barrier_file] the name of the configured lock file, whose directory holds
    the others. *)

From stdpp Require Import base gmap strings list numbers.
From Stdlib Require Import QArith.
From S2P Require Import Prelude PyStr Pressure Programs.

Open Scope string_scope.
Open Scope list_scope.
Open Scope Z_scope.

(** ** Keys *)

Definition HEAVY_IO_LOCK_KEY : pystr := u "lock:heavy-io".
Definition RESOURCE_NETWORK_TOKEN_KEY : pystr := u "lock:resource-budget:network".
Definition RESOURCE_DISK_TOKEN_KEY : pystr := u "lock:resource-budget:disk".
Definition RESOURCE_BACKGROUND_TOKEN_KEY : pystr := u "lock:resource-budget:background".
Definition REMOTE_RESERVATION_KEY : pystr := u "lock:resource-budget:remote-search".
Definition RESOURCE_RESERVATION_KEYS : list pystr :=
  [RESOURCE_NETWORK_TOKEN_KEY; RESOURCE_DISK_TOKEN_KEY; RESOURCE_BACKGROUND_TOKEN_KEY;
   REMOTE_RESERVATION_KEY].
Definition LAST_BACKGROUND_KEY : pystr := u "resource:lanes:last-background".
Definition LOCAL_LOCK_FILENAME : pystr := u "heavy-io.lock".
Definition DEFAULT_LEASE_SECONDS : Z := 300.

(** ** Exceptions *)

Inductive io_error := OSError | OtherError.
Inductive exn :=
| HeavyIOUnavailable (reason : string)
| Raised (e : io_error)
| ValueError
| OverflowError.
Global Instance io_error_eq_dec : EqDecision io_error.
Proof. solve_decision. Defined.
Global Instance exn_eq_dec : EqDecision exn.
Proof. solve_decision. Defined.

(** ** Data *)

(** The JSON value of a lease; [token] is the identifier drawn for it. *)
Record LeaseValue := mkLeaseValue {
  lv_token : nat * nat;   (** the process and its attempt *)
  lv_owner : pystr;
  lv_workload : pystr;
  lv_profile : pystr;
  lv_reserved_bytes : Z;
  lv_capacity_bytes : Z }.
Global Instance LeaseValue_eq_dec : EqDecision LeaseValue.
Proof. solve_decision. Defined.

(** The marker file of a remote search request. *)
Record FlightMarker := mkFlight {
  fm_owner : Z;
  fm_workload : pystr;
  fm_profile : pystr;
  fm_reserved_bytes : Z;
  fm_task_uid : option Z }.
Global Instance FlightMarker_eq_dec : EqDecision FlightMarker.
Proof. solve_decision. Defined.

(** A file lock object, and an ordered set of them. *)
Record LocalHeavyIOLock := mkLock { lk_path : pystr; lk_shared : bool }.
Global Instance LocalHeavyIOLock_eq_dec : EqDecision LocalHeavyIOLock.
Proof. solve_decision. Defined.

Record LocalResourceLocks := mkLocks {
  lr_locks : list LocalHeavyIOLock;
  lr_remote_exclusive : bool }.

(** What admission reads of the published snapshot: [None] where the field is
    missing or not a number. *)
Record HostSnapshot := mkHost {
  hs_snapshot : Snapshot;
  hs_reservations : list (pystr * Z);
  hs_available_bytes : option Z;
  hs_hard_floor : option Z }.

Definition empty_snapshot : HostSnapshot := mkHost (mkSnapshot "" None None) [] None None.

(** ** Events *)

Inductive op : Type → Type :=
| PressureSnapshot : op HostSnapshot
| MemoryAvailable : op (result io_error Z)
| Exists (key : pystr) : op (result io_error bool)
| SetNX (key : pystr) (value : LeaseValue) (seconds : Z) : op (result io_error bool)
| CompareDelete (key : pystr) (value : LeaseValue) : op (result io_error bool)
| ReconcileReservation : op (result io_error (option FlightMarker))
| ReserveMemory (key : pystr) (value : LeaseValue) (requested capacity seconds : Z)
    : op (result io_error Z)
| PublishReleased : op unit
| TryFlock (path : pystr) (shared : bool) : op (result io_error bool)
| Unlock (path : pystr) : op unit
| ReadMarker : op (result io_error (option FlightMarker))
| StartRenewal (keys : list pystr) (value : LeaseValue) (seconds : Z) : op unit
| StopRenewal : op unit
| SetState (state : string) (reason : option string) : op unit
| WaitEvent (seconds : Q) : op unit
| Uniform : op Q   (** [random.uniform(0.85, 1.15)] *)
| LocalHardGate : op bool   (** the memory latch of this worker's cgroup *)
| ShutdownRequested : op bool
| ReturnJob : op unit   (** the script that hands a stopped job back to its queue *)
| Yield : op Q.   (** the body of the slot; how long it took *)

Abbreviation program := (prog op).

Section HeavyIO.
Context `{Unicode} (digest : pystr → pystr) (barrier_file : pystr).

(** ** Which keys and locks a workload needs *)

Definition workload_conflict_group (workload : pystr) : option pystr :=
  let profile := workload_profile_name (Some workload) in
  if bool_decide (profile = u "download_network") then None
  else if bool_decide (profile ∈ [u "image_derive"; u "video_derive"]) then Some (u "media")
  else if bool_decide (profile = u "maintenance") then Some (u "maintenance")
  else if bool_decide (profile = u "light") then None
  else Some (replace_char 95 [45] profile).

Definition in_lane (lane : option pystr) (group : pystr) : pystr :=
  match lane with Some l => l ++ u "-" ++ group | None => group end.

Definition profile_lease_key (workload : pystr) (lane : option pystr) : option pystr :=
  match workload_conflict_group workload with
  | None => None
  | Some group =>
      if bool_decide (group = u "maintenance") then Some HEAVY_IO_LOCK_KEY
      else Some (u "lock:resource-profile:" ++ in_lane lane group)
  end.

Definition resource_budget_token_key (workload : pystr) (lane : option pystr)
    : result exn (option pystr) :=
  let profile := workload_profile_name (Some workload) in
  if negb (bool_decide (lane ∈ [None; Some (u "ingest"); Some (u "background")])) then Err ValueError
  else if bool_decide (profile = u "light") then Ok None
  else if bool_decide (profile = u "maintenance") then Ok (Some HEAVY_IO_LOCK_KEY)
  else if bool_decide (profile = u "download_network") then Ok (Some RESOURCE_NETWORK_TOKEN_KEY)
  else if bool_decide (lane = Some (u "ingest")) ||
          (bool_decide (lane = None) && bool_decide (profile = u "import_db"))
  then Ok (Some RESOURCE_DISK_TOKEN_KEY)
  else Ok (Some RESOURCE_BACKGROUND_TOKEN_KEY).

Definition resource_lease_keys (workload : pystr) (lane : option pystr) : result exn (list pystr) :=
  token ← resource_budget_token_key workload lane;
  mret (fromkeys (omap id [token; profile_lease_key workload lane])).

Definition source_lock_key (source_identity : pystr) : pystr :=
  u "lock:heavy-io:source:" ++ digest source_identity.

Definition source_lock_file (source_identity : pystr) : LocalHeavyIOLock :=
  mkLock (u "source-" ++ digest source_identity ++ u ".lock") false.

Definition lane_lock_file (token : option pystr) : list LocalHeavyIOLock :=
  if bool_decide (token = Some RESOURCE_DISK_TOKEN_KEY) then [mkLock (u "lane-ingest.lock") false]
  else if bool_decide (token = Some RESOURCE_BACKGROUND_TOKEN_KEY)
  then [mkLock (u "lane-background.lock") false] else [].

Definition local_lock_for_workload (workload : pystr) (source_identity lane : option pystr)
    : result exn (option LocalResourceLocks) :=
  let profile := workload_profile_name (Some workload) in
  let group := workload_conflict_group workload in
  if bool_decide (group = Some (u "maintenance"))
  then Ok (Some (mkLocks [mkLock barrier_file false] true))
  else if bool_decide (profile = u "light") then Ok None
  else
    token ← resource_budget_token_key workload lane;
    mret (Some (mkLocks
      ([mkLock barrier_file true] ++ lane_lock_file token ++
       match group with
       | Some g => [mkLock (u "profile-" ++ in_lane lane g ++ u ".lock") false]
       | None => []
       end ++
       match source_identity with
       | Some (c :: s) => [source_lock_file (c :: s)]
       | _ => []
       end)
      (bool_decide (token = Some RESOURCE_BACKGROUND_TOKEN_KEY)))).

Definition local_source_lock (source_identity : pystr) : LocalResourceLocks :=
  mkLocks [source_lock_file source_identity] false.

(** ** File locks *)

Fixpoint release_locks (held : list LocalHeavyIOLock) : program unit :=
  match held with
  | [] => Ret tt
  | lock :: rest => act (Unlock (lk_path lock)) ≫= λ _, release_locks rest
  end.

(** [LocalResourceLocks.try_acquire]; [acquired] most recent first.  The
    answer is whether every lock is held; otherwise none is. *)
Definition marker_conflicts (locks : LocalResourceLocks) (marker : option FlightMarker) : bool :=
  match marker with
  | Some m => lr_remote_exclusive locks || bool_decide (fm_profile m = u "maintenance")
  | None => false
  end.

Fixpoint acquire_locks (locks : LocalResourceLocks) (acquired todo : list LocalHeavyIOLock)
    : program (result exn bool) :=
  match todo with
  | lock :: rest =>
      act (TryFlock (lk_path lock) (lk_shared lock)) ≫= λ r,
      match r with
      | Ok true => acquire_locks locks (lock :: acquired) rest
      | Ok false => release_locks acquired ≫= λ _, Ret (Ok false)
      | Err e => release_locks acquired ≫= λ _, Ret (Err (Raised e))
      end
  | [] =>
      act ReadMarker ≫= λ r,
      match r with
      | Ok marker =>
          if marker_conflicts locks marker
          then release_locks acquired ≫= λ _, Ret (Ok false)
          else Ret (Ok true)
      | Err e => release_locks acquired ≫= λ _, Ret (Err (Raised e))
      end
  end.

Definition locks_try_acquire (locks : LocalResourceLocks) : program (result exn bool) :=
  acquire_locks locks [] (lr_locks locks).

(** [LocalResourceLocks.release]: the locks whose descriptor is open. *)
Definition locks_release (locks : LocalResourceLocks) (acquired : bool) : program unit :=
  if acquired then release_locks (rev (lr_locks locks)) else Ret tt.

(** ** Redis leases *)

Record RenewableRedisLease := mkLease {
  ls_keys : list pystr;
  ls_value : LeaseValue;
  ls_seconds : Z;
  ls_reservation_key : option pystr;
  ls_reservation_bytes : Z;
  ls_reservation_capacity : Z }.

Definition new_lease (token : nat * nat) (keys : list pystr) (workload owner : pystr) (lease_seconds : Z)
    (reservation_key : option pystr) (reservation_bytes reservation_capacity : Z)
    : RenewableRedisLease :=
  let keys := fromkeys keys in
  let reservation := reservation_key ≫= λ k, if bool_decide (k ∈ keys) then Some k else None in
  let keys := match reservation with
    | Some k => k :: List.filter (λ x, negb (bool_decide (x = k))) keys
    | None => keys
    end in
  mkLease keys
    (mkLeaseValue token owner workload (workload_profile_name (Some workload))
       (Z.max 0 reservation_bytes) (Z.max 0 reservation_capacity))
    (Z.max 30 lease_seconds) reservation (Z.max 0 reservation_bytes) (Z.max 0 reservation_capacity).

Fixpoint release_each (value : LeaseValue) (keys : list pystr) (released : bool) : program bool :=
  match keys with
  | [] => Ret released
  | key :: rest =>
      act (CompareDelete key value) ≫= λ r,
      release_each value rest (match r with Ok removed => removed || released | Err _ => released end)
  end.

(** [_release_keys] takes the keys in their order and deletes the last first. *)
Definition _release_keys (l : RenewableRedisLease) (keys : list pystr) : program unit :=
  release_each (ls_value l) (rev keys) false ≫= λ released,
  if released : bool then act PublishReleased else Ret tt.

Definition reservation_denial (code : Z) : string :=
  if code =? -4 then "remote_search_in_flight"
  else if (code =? -1) || (code =? -2) then "resource_reservation_capacity"
  else if code =? -3 then "background_yield_to_ingest"
  else "resource_reservation_busy".

Fixpoint acquire_keys (l : RenewableRedisLease) (acquired todo : list pystr)
    : program (bool * option string) :=
  match todo with
  | [] => Ret (true, None)
  | key :: rest =>
      if bool_decide (Some key = ls_reservation_key l) then
        act (ReserveMemory key (ls_value l) (ls_reservation_bytes l) (ls_reservation_capacity l)
               (ls_seconds l)) ≫= λ r,
        match r with
        | Ok code =>
            if code =? 1 then acquire_keys l (acquired ++ [key]) rest
            else _release_keys l acquired ≫= λ _, Ret (false, Some (reservation_denial code))
        | Err _ => _release_keys l acquired ≫= λ _, Ret (false, None)
        end
      else
        act (SetNX key (ls_value l) (ls_seconds l)) ≫= λ r,
        match r with
        | Ok true => acquire_keys l (acquired ++ [key]) rest
        | _ => _release_keys l acquired ≫= λ _, Ret (false, None)
        end
  end.

(** [RenewableRedisLease.try_acquire]: whether the lease is held, and the
    reason of a denial that has one. *)
Definition lease_try_acquire (l : RenewableRedisLease) : program (bool * option string) :=
  act ReconcileReservation ≫= λ r,
  match r with
  | Err _ => _release_keys l [] ≫= λ _, Ret (false, None)
  | Ok marker =>
      if match marker with
         | Some m => bool_decide (fm_profile m = u "maintenance") ||
                     bool_decide (HEAVY_IO_LOCK_KEY ∈ ls_keys l) ||
                     bool_decide (RESOURCE_BACKGROUND_TOKEN_KEY ∈ ls_keys l)
         | None => false
         end
      then Ret (false, Some "remote_search_in_flight")
      else acquire_keys l [] (ls_keys l)
  end.

Definition start_renewal (l : RenewableRedisLease) : program unit :=
  act (StartRenewal (ls_keys l) (ls_value l) (ls_seconds l)).

(** [RenewableRedisLease.release] *)
Definition lease_release (l : RenewableRedisLease) (acquired : bool) : program unit :=
  if acquired then act StopRenewal ≫= λ _, _release_keys l (ls_keys l) else Ret tt.

(** ** Memory *)

Definition profile_reservation (profile : pystr) : Z :=
  match assoc profile RESOURCE_PROFILES with
  | Some p => memory_reservation_bytes p
  | None => 0
  end.

(** The bytes asked for and the capacity above the hard floor. *)
Definition resource_reservation_details (host : HostSnapshot) (workload : pystr) : program (Z * Z) :=
  let name := workload_profile_name (Some workload) in
  let requested := Z.max 0 (default (profile_reservation name) (assoc name (hs_reservations host))) in
  match hs_available_bytes host, hs_hard_floor host with
  | Some available, Some hard_floor =>
      act MemoryAvailable ≫= λ r,
      match r with
      | Ok live => Ret (requested, Z.max 0 (Z.min available live - hard_floor))
      | Err _ => Ret (requested, 0)
      end
  | _, _ => Ret (requested, 0)
  end.

(** ** Slots *)

Record SlotArgs := mkArgs {
  sa_workload : pystr;
  sa_owner : pystr;
  sa_source : option pystr;
  sa_lane : option pystr;
  sa_lease_seconds : Z;
  sa_inherited : option pystr }.   (** the profile of the lock of the parent process *)

Definition inherited_flock (a : SlotArgs) : bool :=
  match sa_inherited a with
  | Some p => bool_decide (p ∈ [u "legacy-global"; workload_profile_name (Some (sa_workload a))])
  | None => false
  end.

Definition needs_child_budget_token (a : SlotArgs) : bool :=
  inherited_flock a && bool_decide (sa_inherited a = Some (u "download_network")) &&
  bool_decide (workload_profile_name (Some (sa_workload a)) = u "download_network").

Definition takes_lease (a : SlotArgs) : bool := negb (inherited_flock a) || needs_child_budget_token a.

Definition unavailable {A} (reason : string) : program (result exn A) :=
  Ret (Err (HeavyIOUnavailable reason)).

Definition waiting {A} (reason : string) (after : program A) : program A :=
  act (SetState "waiting" (Some reason)) ≫= λ _, after.

Definition resource_profile_permitted (workload : pystr) : program (bool * HostSnapshot * option string) :=
  act PressureSnapshot ≫= λ host,
  let '(permitted, reason) := resource_profile_permit (hs_snapshot host) (Some workload) in
  Ret (permitted, host, reason).

(** The checks before anything is taken: the permit of the pressure controller
    and a pending maintenance. *)
Definition slot_permit (a : SlotArgs) : program (result exn HostSnapshot) :=
  if takes_lease a then
    resource_profile_permitted (sa_workload a) ≫= λ r,
    let '(permitted, host, reason) := r in
    if negb permitted
    then waiting (default "resource_pressure" reason) (unavailable "resource_pressure")
    else if negb (bool_decide (workload_profile_name (Some (sa_workload a)) = u "maintenance")) &&
            negb (inherited_flock a)
    then
      act (Exists HEAVY_IO_LOCK_KEY) ≫= λ e,
      match e with
      | Err _ => unavailable "redis_lease_unavailable"
      | Ok true => waiting "maintenance_pending" (unavailable "maintenance_pending")
      | Ok false => Ret (Ok host)
      end
    else Ret (Ok host)
  else Ret (Ok empty_snapshot).

Definition slot_keys (a : SlotArgs) : result exn (list pystr) :=
  keys ← (if takes_lease a then resource_lease_keys (sa_workload a) (sa_lane a) else Ok []);
  mret (keys ++ match sa_source a with
                | Some (c :: s) => [source_lock_key (c :: s)]
                | _ => []
                end).

(** [budget_token if ... in RESOURCE_RESERVATION_KEYS else None] *)
Definition slot_reservation_key (a : SlotArgs) (token : option pystr) : option pystr :=
  token ≫= λ k,
  if takes_lease a && bool_decide (k ∈ RESOURCE_RESERVATION_KEYS) then Some k else None.

(** The Redis part: the lease object with whether it is held. *)
Definition slot_lease (token : nat * nat) (a : SlotArgs) (host : HostSnapshot) (keys : list pystr)
    : program (result exn unit * option (RenewableRedisLease * bool)) :=
  match keys with
  | [] => Ret (Ok tt, None)
  | _ =>
      resource_reservation_details host (sa_workload a) ≫= λ d,
      let '(requested, capacity) := d in
      if capacity <? requested
      then waiting "profile_memory_reserve_live"
             (Ret (Err (HeavyIOUnavailable "profile_memory_reserve_live"), None))
      else
        match resource_budget_token_key (sa_workload a) (sa_lane a) with
        | Err e => Ret (Err e, None)
        | Ok budget =>
            let l := new_lease token keys (sa_workload a) (sa_owner a) (sa_lease_seconds a)
                       (slot_reservation_key a budget) requested capacity in
            lease_try_acquire l ≫= λ r,
            let '(acquired, denial) := r in
            if acquired : bool then start_renewal l ≫= λ _, Ret (Ok tt, Some (l, true))
            else if takes_lease a then
              waiting (default "redis_lease_busy" denial)
                (Ret (Err (HeavyIOUnavailable (default "redis_lease_busy" denial)), Some (l, false)))
            else Ret (Ok tt, Some (l, false))
        end
  end.

(** The file locks a slot takes itself. *)
Definition slot_locks (a : SlotArgs) : result exn (option LocalResourceLocks) :=
  if inherited_flock a then
    match sa_source a with
    | Some s =>
        if bool_decide (workload_profile_name (Some (sa_workload a)) = u "download_network")
        then Ok (Some (local_source_lock s)) else Ok None
    | None => Ok None
    end
  else local_lock_for_workload (sa_workload a) (sa_source a) (sa_lane a).

Definition slot_local (a : SlotArgs) : program (result exn unit * option (LocalResourceLocks * bool)) :=
  match slot_locks a with
  | Err e => Ret (Err e, None)
  | Ok None => Ret (Ok tt, None)
  | Ok (Some locks) =>
      locks_try_acquire locks ≫= λ r,
      match r with
      | Ok true => Ret (Ok tt, Some (locks, true))
      | Ok false => waiting "profile_busy" (Ret (Err (HeavyIOUnavailable "profile_busy"), Some (locks, false)))
      | Err (Raised OSError) => Ret (Err (HeavyIOUnavailable "local_lock_unavailable"), Some (locks, false))
      | Err e => Ret (Err e, Some (locks, false))
      end
  end.

(** The [finally] of a slot. *)
Definition slot_cleanup (local : option (LocalResourceLocks * bool))
    (lease : option (RenewableRedisLease * bool)) : program unit :=
  match local with Some (locks, acquired) => locks_release locks acquired | None => Ret tt end ≫= λ _,
  match lease with Some (l, acquired) => lease_release l acquired | None => Ret tt end.

(** The body of the slot is the event [Yield]. *)
Definition heavy_io_slot (token : nat * nat) (a : SlotArgs) : program (result exn Q) :=
  slot_permit a ≫= λ permit,
  match permit with
  | Err e => Ret (Err e)
  | Ok host =>
      match slot_keys a with
      | Err e => Ret (Err e)
      | Ok keys =>
          slot_lease token a host keys ≫= λ rl,
          match rl with
          | (Err e, lease) => slot_cleanup None lease ≫= λ _, Ret (Err e)
          | (Ok _, lease) =>
              slot_local a ≫= λ rk,
              match rk with
              | (Err e, local) => slot_cleanup local lease ≫= λ _, Ret (Err e)
              | (Ok _, local) =>
                  act (SetState "running" None) ≫= λ _,
                  act Yield ≫= λ elapsed,
                  slot_cleanup local lease ≫= λ _, Ret (Ok elapsed)
              end
          end
      end
  end.

(** [try_heavy_io_slot]: one attempt.  [Ok true]: the body ran inside the slot;
    [Ok false]: it was given [None]. *)
Definition denied : program (result exn bool) := Ret (Ok false).

Definition try_permit (a : SlotArgs) : program (option HostSnapshot) :=
  if inherited_flock a then Ret (Some empty_snapshot)
  else
    resource_profile_permitted (sa_workload a) ≫= λ r,
    let '(permitted, host, reason) := r in
    if negb permitted then waiting (default "resource_pressure" reason) (Ret None)
    else if negb (bool_decide (workload_profile_name (Some (sa_workload a)) = u "maintenance"))
    then
      act (Exists HEAVY_IO_LOCK_KEY) ≫= λ e,
      match e with
      | Err _ => Ret None
      | Ok true => waiting "maintenance_pending" (Ret None)
      | Ok false => Ret (Some host)
      end
    else Ret (Some host).

Definition try_lease (token : nat * nat) (a : SlotArgs) (host : HostSnapshot) (keys : list pystr)
    : program (result exn bool * option (RenewableRedisLease * bool)) :=
  match keys with
  | [] => Ret (Ok true, None)
  | _ =>
      resource_reservation_details host (sa_workload a) ≫= λ d,
      let '(requested, capacity) := d in
      if capacity <? requested then waiting "profile_memory_reserve_live" (Ret (Ok false, None))
      else
        match resource_budget_token_key (sa_workload a) None with
        | Err e => Ret (Err e, None)
        | Ok budget =>
            let reservation := budget ≫= λ k,
              if bool_decide (k ∈ RESOURCE_RESERVATION_KEYS) then Some k else None in
            let l := new_lease token keys (sa_workload a) (sa_owner a) DEFAULT_LEASE_SECONDS
                       reservation requested capacity in
            lease_try_acquire l ≫= λ r,
            let '(acquired, denial) := r in
            if acquired : bool then start_renewal l ≫= λ _, Ret (Ok true, Some (l, true))
            else waiting (default "redis_lease_busy" denial) (Ret (Ok false, Some (l, false)))
        end
  end.

Definition try_local (a : SlotArgs) : program (result exn bool * option (LocalResourceLocks * bool)) :=
  if inherited_flock a then Ret (Ok true, None)
  else
    match local_lock_for_workload (sa_workload a) None None with
    | Err e => Ret (Err e, None)
    | Ok None => Ret (Ok true, None)
    | Ok (Some locks) =>
        locks_try_acquire locks ≫= λ r,
        match r with
        | Ok true => Ret (Ok true, Some (locks, true))
        | Ok false => waiting "profile_busy" (Ret (Ok false, Some (locks, false)))
        | Err (Raised OSError) => Ret (Ok false, Some (locks, false))
        | Err e => Ret (Err e, Some (locks, false))
        end
    end.

Definition try_heavy_io_slot (token : nat * nat) (a : SlotArgs) : program (result exn bool) :=
  try_permit a ≫= λ permit,
  match permit with
  | None => denied
  | Some host =>
      match (if inherited_flock a then Ok [] else resource_lease_keys (sa_workload a) None) with
      | Err e => Ret (Err e)
      | Ok keys =>
          try_lease token a host keys ≫= λ rl,
          match rl with
          | (Ok true, lease) =>
              try_local a ≫= λ rk,
              match rk with
              | (Ok true, local) =>
                  act (SetState "running" None) ≫= λ _,
                  act Yield ≫= λ _,
                  slot_cleanup local lease ≫= λ _, Ret (Ok true)
              | (r, local) => slot_cleanup local lease ≫= λ _, Ret r
              end
          | (r, lease) => slot_cleanup None lease ≫= λ _, Ret r
          end
      end
  end.

(** ** Adaptive slices

    [adaptive_resource_slice] waits for a slot in a loop; [fuel] bounds the
    attempts of one run and [StillWaiting] is a run that used them all. *)
Inductive slice_outcome :=
| SliceDenied
| SliceDone (limits : ResourceSliceLimits) (cooldown : Q)
| SliceFailed (e : exn)
| StillWaiting.

(** A Python [int] as a factor of a float product: past the largest double it
    raises. *)
Definition float_of_int (n : Z) : result exn Q :=
  if 2 ^ 1024 - 2 ^ 970 <=? n then Err OverflowError else Ok (inject_Z n).

Definition _adaptive_poll_seconds (attempt : Z) (initial uniform : Q) : result exn Q :=
  factor ← float_of_int (2 ^ Z.max 0 attempt);
  let base := qmin 30 (qmax 2 initial * factor)%Q in
  mret (qmax 2 (qmin 30 (base * uniform)%Q)).

Definition DEFAULT_POLL_SECONDS : Q := 10.

(** [wait_for_resource_capacity]: the snapshot that permits the workload, or
    [Ok None] when the fuel is used up. *)
Fixpoint wait_for_resource_capacity (fuel : nat) (workload : pystr) (attempt : Z)
    : program (result exn (option HostSnapshot)) :=
  match fuel with
  | O => Ret (Ok None)
  | S fuel =>
      resource_profile_permitted workload ≫= λ r,
      let '(permitted, host, reason) := r in
      if permitted : bool then act (SetState "running" None) ≫= λ _, Ret (Ok (Some host))
      else waiting (default "resource_pressure" reason)
        (act Uniform ≫= λ x,
         match (if bool_decide (workload_profile_name (Some workload) = u "import_db") then Ok 2%Q
                else _adaptive_poll_seconds attempt DEFAULT_POLL_SECONDS x) with
         | Ok seconds => act (WaitEvent seconds) ≫= λ _,
                         wait_for_resource_capacity fuel workload (attempt + 1)
         | Err e => Ret (Err e)
         end)
  end.

Record SliceArgs := mkSlice {
  sc_slot : SlotArgs;
  sc_max_work_units : option Z;
  sc_max_slice_seconds : option Q;
  sc_wait : bool;
  sc_jitter : option Q }.

Fixpoint adaptive_resource_slice (fuel : nat) (cfg : Settings) (process : nat) (s : SliceArgs)
    (attempt : Z) : program slice_outcome :=
  match fuel with
  | O => Ret StillWaiting
  | S fuel =>
      let a := sc_slot s in
      act PressureSnapshot ≫= λ host,
      let limits := profile_slice_limits cfg (hs_snapshot host) (Some (sa_workload a))
                      (sc_max_work_units s) (sc_max_slice_seconds s) in
      if negb (sl_allowed limits) then
        if negb (sc_wait s) then Ret SliceDenied
        else wait_for_resource_capacity fuel (sa_workload a) 0 ≫= λ r,
             match r with
             | Ok (Some _) => adaptive_resource_slice fuel cfg process s attempt
             | Ok None => Ret StillWaiting
             | Err e => Ret (SliceFailed e)
             end
      else
        heavy_io_slot (process, fuel) a ≫= λ r,
        match r with
        | Err (HeavyIOUnavailable reason) =>
            waiting reason
              (if negb (sc_wait s) then Ret SliceDenied
               else act Uniform ≫= λ x,
                    match _adaptive_poll_seconds attempt DEFAULT_POLL_SECONDS x with
                    | Ok seconds => act (WaitEvent seconds) ≫= λ _,
                                    adaptive_resource_slice fuel cfg process s (attempt + 1)
                    | Err e => Ret (SliceFailed e)
                    end)
        | Err e => Ret (SliceFailed e)
        | Ok elapsed =>
            act (SetState "yielded" (Some "slice_complete")) ≫= λ _,
            Ret (SliceDone limits
                   (profile_slice_cooldown_seconds cfg (hs_snapshot host) elapsed 300
                      (sc_jitter s) (Some (sa_workload a))))
        end
  end.
End HeavyIO.
