(* ===== verification/HeavyIOWorker.v ===== *)
(** * The resource-aware worker

    [app/services/resource_aware_worker.py]: which profile a job needs, how its
    slice is bounded, and the admission of a job whose parent process holds the
    profile while the workhorse runs.

    A job is what the worker reads of it: the lower-cased function name, its
    metadata and, for the outbox jobs, its numeric arguments.  Waits between
    attempts, worker telemetry, heartbeats, the cool-down after a job and the
    dequeue loop are left out, and so is the effect of the published slice
    ([_apply_profile_slice]) on the arguments of the job that then runs;
    [fuel] bounds the attempts of one admission and [NotYet] is an admission
    that used them all. *)

From stdpp Require Import base gmap strings list numbers.
From Stdlib Require Import QArith.
From S2P Require Import Prelude PyStr Pressure Programs HeavyIO.

Open Scope string_scope.
Open Scope list_scope.
Open Scope Z_scope.

Record RqJob := mkJob {
  jb_func_name : pystr;
  jb_admin_operation : option pystr;
  jb_internal_profile : option pystr;
  jb_resource_profile : option pystr;
  jb_workload_profile : option pystr;
  jb_args : list Q }.

Definition HEAVY_QUEUE_NAMES : list pystr := [u "imports"; u "operations"; u "maintenance"].

Definition is_download_queue (name : pystr) : bool :=
  bool_decide (name = u "downloads") || startswith name (u "downloads:").

Definition _is_heavy_queue (name : pystr) : bool :=
  bool_decide (name ∈ HEAVY_QUEUE_NAMES) || is_download_queue name.

(** [None]: the worker refuses to start. *)
Definition _uses_heavy_gate (queues : list pystr) : option bool :=
  let heavy_flags := _is_heavy_queue <$> queues in
  if existsb id heavy_flags && negb (forallb id heavy_flags) then None
  else Some (negb (bool_decide (heavy_flags = [])) && forallb id heavy_flags).

Definition _workload_profile (queues : list pystr) : pystr :=
  if negb (bool_decide (queues = [])) && forallb is_download_queue queues then u "download_network"
  else if negb (bool_decide (queues = [])) && forallb (λ q, bool_decide (q = u "imports")) queues
  then u "import_db" else u "light".

Definition truthy (s : option pystr) : option pystr :=
  match s with Some (c :: r) => Some (c :: r) | _ => None end.

Definition ADMIN_PARENT_ADMISSION_OPERATION_TYPES : list pystr :=
  [u "admin-integrity-scan"; u "admin-backup-estimate"; u "admin-backup-create";
   u "admin-restore-validate"; u "admin-proxy-test"; u "admin-gallerydl-connectivity-test"].

Definition internal_profiles : list (pystr * pystr) := [
  (u "run_clear_operation", u "maintenance");
  (u "run_library_rebuild_operation", u "maintenance");
  (u "run_disk_import_operation", u "maintenance");
  (u "run_gitllery_rebuild_operation", u "maintenance");
  (u "run_creator_reenrich_operation", u "maintenance");
  (u "run_gitllery_sync_operation", u "git_projection");
  (u "run_curation_backfill_operation", u "import_db");
  (u "run_search_reindex_operation", u "search_index");
  (u "import_runner.run_import_job", u "import_db");
  (u "run_asset_dedup_scan", u "image_derive");
  (u "run_asset_dedup_outbox", u "image_derive");
  (u "run_media_derivative_outbox", u "image_derive");
  (u "run_gitllery_projection_outbox", u "git_projection");
  (u "run_import_projection_outbox", u "import_db");
  (u "run_search_projection_outbox", u "search_index")].

Definition _internal_slice_workload (job : RqJob) : option pystr :=
  if match truthy (jb_admin_operation job) with
     | Some t => bool_decide (t ∈ ADMIN_PARENT_ADMISSION_OPERATION_TYPES)
     | None => false
     end
  then None
  else match truthy (jb_internal_profile job) with
       | Some p => Some p
       | None => snd <$> List.find (λ np, contains (jb_func_name job) np.1) internal_profiles
       end.

Definition _job_workload (job : RqJob) (queue_name : pystr) : pystr :=
  match _internal_slice_workload job with
  | Some p => p
  | None =>
      match truthy (jb_resource_profile job), truthy (jb_workload_profile job) with
      | Some p, _ => p
      | None, Some p => p
      | None, None =>
          if bool_decide (queue_name = u "imports") then u "import_db"
          else if is_download_queue queue_name then u "download_network"
          else u "maintenance"
      end
  end.

Definition nonblocking_names : list pystr :=
  [u "run_asset_dedup_scan"; u "run_asset_dedup_outbox"; u "run_media_derivative_outbox";
   u "run_gitllery_projection_outbox"; u "run_import_projection_outbox";
   u "run_search_projection_outbox"].

Definition _job_uses_nonblocking_child_admission (job : RqJob) : bool :=
  bool_decide (jb_admin_operation job = Some (u "asset-dedup-scan")) ||
  existsb (contains (jb_func_name job)) nonblocking_names.

(** ** Bounds on one slice *)

Definition arg (job : RqJob) (i : nat) : option Q := jb_args job !! i.
Definition with_args (job : RqJob) (args : list Q) : RqJob :=
  mkJob (jb_func_name job) (jb_admin_operation job) (jb_internal_profile job)
    (jb_resource_profile job) (jb_workload_profile job) args.

Definition bounded_units (job : RqJob) (limit : Z) : Q :=
  inject_Z (match arg job 0 with Some x => Z.min (py_trunc x) limit | None => limit end).
Definition bounded_seconds (job : RqJob) (limit : Q) : Q :=
  match arg job 1 with Some x => qmin x limit | None => limit end.

Definition _bound_job_slice (job : RqJob) : RqJob :=
  let has s := contains (jb_func_name job) (u s) in
  if has "media_derivatives" then with_args job [bounded_units job 1; bounded_seconds job 20]
  else if has "run_asset_dedup_outbox" then with_args job [1%Q]
  else if has "import_projection" then with_args job [bounded_units job 25; bounded_seconds job 20]
  else if has "gitllery_projection" then with_args job [bounded_units job 1; bounded_seconds job 20]
  else if has "search_projection" then with_args job [bounded_units job 500]
  else job.

(** [units], [slice_seconds]: the published limits of the profile, if there are
    any; [soft]: the worker's own soft feedback is in force. *)
Definition _apply_profile_slice (job : RqJob) (published : option (Z * option Q)) (soft : bool) : RqJob :=
  match published with
  | None => job
  | Some (work_units, published_seconds) =>
      let units := Z.max 1 (if work_units =? 0 then 1 else work_units) in
      let seconds := qmax 1 <$> published_seconds in
      let units := if soft then Z.max 1 (py_trunc (inject_Z units * (1 # 2))) else units in
      let seconds := if soft then (λ s, qmax 1 (s * (1 # 2))) <$> seconds else seconds in
      let has s := contains (jb_func_name job) (u s) in
      let current_seconds := default 20%Q (arg job 1) in
      let new_seconds := match seconds with Some s => qmin current_seconds s | None => current_seconds end in
      if has "media_derivatives" then with_args job [1%Q; new_seconds]
      else if has "import_projection" || has "gitllery_projection" then
        let default_units := if has "gitllery_projection" then 1 else 25 in
        let current_units := match arg job 0 with Some x => py_trunc x | None => default_units end in
        with_args job [inject_Z (Z.min current_units units); new_seconds]
      else if has "search_projection" then
        let current_units := match arg job 0 with Some x => py_trunc x | None => 500 end in
        with_args job [inject_Z (Z.min current_units units)]
      else job
  end.

(** ** Admission by the parent *)

Section Worker.
Context `{Unicode} (digest : pystr → pystr) (barrier_file : pystr).

Inductive admission :=
| Granted (local : option LocalResourceLocks) (lease : option RenewableRedisLease) (host : HostSnapshot)
| StopRequested
| Failed (e : exn)
| NotYet.

(** One round of [_wait_until_pressure_allows_dequeue]: the permit after the
    hard-only rule and the worker's own memory latch. *)
Definition worker_permit (workload : pystr) (hard_only : bool)
    : program (bool * HostSnapshot * option string) :=
  act PressureSnapshot ≫= λ host,
  let sn := hs_snapshot host in
  let '(permitted, reason) := resource_profile_permit sn (Some workload) in
  let paused := bool_decide (sn_status sn = "paused") in
  let is_critical := match sn_controller_mode sn with
    | Some m => bool_decide (m = critical) | None => paused end in
  let '(permitted, reason) :=
    if hard_only && negb is_critical && negb paused then (true, None) else (permitted, reason) in
  act LocalHardGate ≫= λ gate,
  Ret (if gate : bool then (false, host, Some "worker_cgroup_oom_kill") else (permitted, host, reason)).

(** What follows a denied attempt: the state, the wait, the next attempt unless
    the worker was asked to stop. *)
Definition retry (reason : string) (again : program admission) : program admission :=
  waiting reason (act ShutdownRequested ≫= λ stop, if stop : bool then Ret StopRequested else again).

(** The parent's lease and locks, once the permit is there. *)
Definition parent_lease (token : nat * nat) (workload owner : pystr) (host : HostSnapshot)
    : program (result (exn + string) (option RenewableRedisLease)) :=
  match (if bool_decide (workload_profile_name (Some workload) = u "download_network") then Ok []
         else resource_lease_keys workload None) with
  | Err e => Ret (Err (inl e))
  | Ok [] => Ret (Ok None)
  | Ok keys =>
      resource_reservation_details host workload ≫= λ d,
      let '(requested, capacity) := d in
      if capacity <? requested then Ret (Err (inr "profile_memory_reserve_live"))
      else
        match resource_budget_token_key workload None with
        | Err e => Ret (Err (inl e))
        | Ok budget =>
            let reservation := budget ≫= λ k,
              if bool_decide (k ∈ RESOURCE_RESERVATION_KEYS) then Some k else None in
            let l := new_lease token keys workload owner DEFAULT_LEASE_SECONDS reservation
                       requested capacity in
            lease_try_acquire l ≫= λ r,
            let '(acquired, denial) := r in
            if acquired : bool then Ret (Ok (Some l))
            else Ret (Err (inr (default "profile_lease_busy" denial)))
        end
  end.

(** An [OSError] of the lock counts as busy; any other error leaves the lease
    behind, which then runs out. *)
Definition parent_locks (workload : pystr) : program (result exn (bool * option LocalResourceLocks)) :=
  match local_lock_for_workload digest barrier_file workload None None with
  | Err e => Ret (Err e)
  | Ok None => Ret (Ok (true, None))
  | Ok (Some locks) =>
      locks_try_acquire locks ≫= λ r,
      match r with
      | Ok acquired => Ret (Ok (acquired, Some locks))
      | Err (Raised OSError) => Ret (Ok (false, Some locks))
      | Err e => Ret (Err e)
      end
  end.

Definition parent_take (token : nat * nat) (workload owner : pystr) (host : HostSnapshot)
    : program (result (exn + string) (option LocalResourceLocks * option RenewableRedisLease)) :=
  parent_lease token workload owner host ≫= λ rl,
  match rl with
  | Err e => Ret (Err e)
  | Ok lease =>
      parent_locks workload ≫= λ rk,
      match rk with
      | Err e => Ret (Err (inl e))
      | Ok (true, locks) => Ret (Ok (locks, lease))
      | Ok (false, _) =>
          match lease with Some l => lease_release l true | None => Ret tt end ≫= λ _,
          Ret (Err (inr "profile_lock_busy"))
      end
  end.

(** After the permit: a pending maintenance, then the profile itself. *)
Definition admission_attempt (token : nat * nat) (job : RqJob) (workload owner : pystr)
    (host : HostSnapshot) (again : program admission) : program admission :=
  let take :=
    if bool_decide (is_Some (_internal_slice_workload job)) then
      act (SetState "running" None) ≫= λ _, Ret (Granted None None host)
    else
      parent_take token workload owner host ≫= λ r,
      match r with
      | Err (inl e) => Ret (Failed e)
      | Err (inr reason) => retry reason again
      | Ok (locks, lease) => act (SetState "running" None) ≫= λ _, Ret (Granted locks lease host)
      end in
  if negb (bool_decide (workload_profile_name (Some workload) = u "maintenance")) &&
     negb (_job_uses_nonblocking_child_admission job)
  then
    act (Exists HEAVY_IO_LOCK_KEY) ≫= λ e,
    match e with
    | Ok false => take
    | _ => retry "maintenance_pending" again
    end
  else take.

Fixpoint _profile_admission (fuel : nat) (process : nat) (job : RqJob) (workload owner : pystr)
    : program admission :=
  if bool_decide (_internal_slice_workload job = Some (u "search_index"))
  then Ret (Granted None None empty_snapshot)
  else
    match fuel with
    | O => Ret NotYet
    | S fuel =>
        act ShutdownRequested ≫= λ stop,
        if stop : bool then Ret StopRequested
        else
          worker_permit workload (_job_uses_nonblocking_child_admission job) ≫= λ r,
          let '(permitted, host, reason) := r in
          if negb permitted then
            retry (default "resource_pressure" reason) (_profile_admission fuel process job workload owner)
          else
            act ShutdownRequested ≫= λ stop,
            if stop : bool then Ret StopRequested
            else admission_attempt (process, fuel) job workload owner host
                   (_profile_admission fuel process job workload owner)
    end.

(** ** Running the job

    [Yield] is the workhorse: a forked process that inherits the profile of the
    parent's lock ([inherited_by_child]). *)
Inductive job_outcome := JobRan | JobReturned | JobNotYet | JobFailed (e : exn).

Definition inherited_by_child (workload : pystr) (local : option LocalResourceLocks) : option pystr :=
  match local with Some _ => Some (workload_profile_name (Some workload)) | None => None end.

Definition execute_job (fuel : nat) (process : nat) (job : RqJob) (queue_name owner : pystr)
    : program job_outcome :=
  if negb (_is_heavy_queue queue_name) then act Yield ≫= λ _, Ret JobRan
  else
    let workload := _job_workload job queue_name in
    act ShutdownRequested ≫= λ stop,
    if stop : bool then act ReturnJob ≫= λ _, Ret JobReturned
    else
      _profile_admission fuel process (_bound_job_slice job) workload owner ≫= λ r,
      match r with
      | StopRequested => act ReturnJob ≫= λ _, Ret JobReturned
      | Failed e => Ret (JobFailed e)
      | NotYet => Ret JobNotYet
      | Granted local lease _ =>
          act Yield ≫= λ _,
          match local with Some locks => locks_release locks true | None => Ret tt end ≫= λ _,
          match lease with Some l => lease_release l true | None => Ret tt end ≫= λ _,
          act (SetState "yielded" (Some "slice_complete")) ≫= λ _, Ret JobRan
      end.
End Worker.

(** ** Handing a stopped job back

    The state of one job in RQ: its status, the queue and the intermediate list
    of the queue, as lists of job identifiers. *)
Record RqLists := mkLists {
  rl_status : option string;
  rl_queue : list pystr;
  rl_intermediate : list pystr;
  rl_first_seen : bool;
  rl_known : bool }.   (** the queue is in the set of queues *)

Definition lrem (id : pystr) (l : list pystr) : list pystr :=
  List.filter (λ x, negb (bool_decide (x = id))) l.

Definition return_job (id : pystr) (r : RqLists) : RqLists * Z :=
  let r1 := mkLists (rl_status r) (rl_queue r) (lrem id (rl_intermediate r)) false (rl_known r) in
  if negb (bool_decide (rl_status r = Some "queued")) then (r1, 0)
  else (mkLists (rl_status r) (id :: lrem id (rl_queue r)) (rl_intermediate r1) false true, 1).
