(* ===== verification/HeavyIOWorld.v ===== *)
(** * Heavy-I/O leases: the shared services and their interleavings

    The Redis keys with their expiry and the Lua scripts of
    [app/services/heavy_io.py], the lock files, and the durable marker of
    [app/services/remote_search_flight.py]; and the transition system in which
    slots, workers and their workhorses run side by side, one call at a time.

    A Redis call may raise before or after the server executed it.  A process
    may die between any two calls: the kernel then drops its file locks, while
    its Redis keys stay until they expire.  A parent whose workhorse is alive
    stays in the model, as its locks live on in the inherited descriptor.  Redis
    may restart empty.  Tokens of leases are distinct, as [uuid4] draws them. *)

From stdpp Require Import base gmap strings list numbers relations.
From Stdlib Require Import QArith.
From S2P Require Import Prelude PyStr Pressure Programs HeavyIO HeavyIOWorker.

Open Scope string_scope.
Open Scope list_scope.
Open Scope Z_scope.

(** ** Redis *)

(** [VLegacy]: a value that is not a JSON object with reserved bytes. *)
Inductive rvalue :=
| VLease (v : LeaseValue)
| VFlight (m : FlightMarker)
| VStamp (t : Z)
| VLegacy (raw : pystr).
Global Instance rvalue_eq_dec : EqDecision rvalue.
Proof. solve_decision. Defined.

Record entry := mkEntry { e_value : rvalue; e_expires : option Z }.
Abbreviation redis := (gmap pystr entry).

Definition live (now : Z) (e : entry) : bool :=
  match e_expires e with Some t => now <? t | None => true end.

Definition rget (now : Z) (r : redis) (k : pystr) : option rvalue :=
  r !! k ≫= λ e, if live now e then Some (e_value e) else None.

Definition rexists (now : Z) (r : redis) (k : pystr) : bool := bool_decide (is_Some (rget now r k)).

Definition _RENEW_SCRIPT (now : Z) (k : pystr) (v : LeaseValue) (seconds : Z) (r : redis) : redis * bool :=
  if bool_decide (rget now r k = Some (VLease v))
  then (<[k := mkEntry (VLease v) (Some (now + seconds))]> r, true) else (r, false).

Definition _RELEASE_SCRIPT (now : Z) (k : pystr) (v : LeaseValue) (r : redis) : redis * bool :=
  if bool_decide (rget now r k = Some (VLease v)) then (delete k r, true) else (r, false).

Definition set_nx (now : Z) (k : pystr) (v : LeaseValue) (seconds : Z) (r : redis) : redis * bool :=
  if rexists now r k then (r, false)
  else (<[k := mkEntry (VLease v) (Some (now + seconds))]> r, true).

Definition reserved_bytes (v : rvalue) : option Z :=
  match v with
  | VLease l => Some (lv_reserved_bytes l)
  | VFlight m => Some (fm_reserved_bytes m)
  | _ => None
  end.

(** The sum of the script over the keys after the first. *)
Fixpoint reserved_total (now : Z) (r : redis) (keys : list pystr) : option Z :=
  match keys with
  | [] => Some 0
  | k :: rest =>
      match rget now r k with
      | None => reserved_total now r rest
      | Some v =>
          b ← reserved_bytes v;
          t ← reserved_total now r rest;
          Some (b + t)
      end
  end.

Definition reserve_keys (key : pystr) : list pystr := fromkeys (key :: RESOURCE_RESERVATION_KEYS).

(** [ingest_ready] of the script; [queued]: the import queue or its started
    jobs are not empty. *)
Definition ingest_ready (now : Z) (queued : bool) (r : redis) : bool :=
  rexists now r RESOURCE_DISK_TOKEN_KEY || queued.

Definition stamp (now : Z) (r : redis) : redis :=
  <[LAST_BACKGROUND_KEY := mkEntry (VStamp now) (Some (now + 86400))]> r.

Definition grant (now : Z) (key : pystr) (v : LeaseValue) (seconds : Z) (r : redis) : redis * Z :=
  let r := <[key := mkEntry (VLease v) (Some (now + seconds))]> r in
  (if bool_decide (key = RESOURCE_BACKGROUND_TOKEN_KEY) then stamp now r else r, 1).

Definition _RESERVE_SCRIPT (now : Z) (queued : bool) (key : pystr) (v : LeaseValue)
    (requested capacity seconds : Z) (r : redis) : redis * Z :=
  if rexists now r key then (r, 0)
  else
    match reserved_total now r (tail (reserve_keys key)) with
    | None => (r, -2)
    | Some total =>
        if capacity <? total + requested then (r, -1)
        else if bool_decide (key = RESOURCE_BACKGROUND_TOKEN_KEY) && ingest_ready now queued r then
          match rget now r LAST_BACKGROUND_KEY with
          | Some (VStamp last) =>
              if now - last <? 60 then (r, -3) else grant now key v seconds r
          | _ => (stamp now r, -3)
          end
        else grant now key v seconds r
    end.

(** [_RESTORE_AND_FENCE_SCRIPT] before it: the restored accounting, and whether
    the remote flight fences this reservation. *)
Definition restore_remote (marker : option FlightMarker) (r : redis) : redis :=
  match marker with
  | Some m => <[REMOTE_RESERVATION_KEY := mkEntry (VFlight m) None]> r
  | None => delete REMOTE_RESERVATION_KEY r
  end.

Definition remote_fences (marker : option FlightMarker) (key : pystr) : bool :=
  match marker with
  | Some m => bool_decide (fm_profile m = u "maintenance") ||
              bool_decide (key = RESOURCE_BACKGROUND_TOKEN_KEY) || bool_decide (key = HEAVY_IO_LOCK_KEY)
  | None => false
  end.

Definition reserve_memory (now : Z) (queued : bool) (marker : option FlightMarker) (key : pystr)
    (v : LeaseValue) (requested capacity seconds : Z) (r : redis) : redis * Z :=
  let r := restore_remote marker r in
  if remote_fences marker key then (r, -4)
  else _RESERVE_SCRIPT now queued key v requested capacity seconds r.

(** ** The marker file *)

Definition flight_payload `{Unicode} (receipt : Z) (workload : pystr) : FlightMarker :=
  let profile := workload_profile_name (Some workload) in
  mkFlight receipt workload profile (profile_reservation profile) None.

(** [None]: the call raises. *)
Definition create_marker `{Unicode} (receipt : Z) (workload : pystr) (marker : option FlightMarker)
    : option FlightMarker :=
  match marker with
  | Some m => if bool_decide (fm_owner m = receipt) then Some m else None
  | None => Some (flight_payload receipt workload)
  end.

Definition clear_marker (receipt : Z) (marker : option FlightMarker) : option FlightMarker :=
  match marker with
  | Some m => if bool_decide (fm_owner m = receipt) then None else Some m
  | None => None
  end.

Definition record_task (receipt : Z) (uid : option Z) (marker : option FlightMarker) : option FlightMarker :=
  match marker with
  | Some m => if bool_decide (fm_owner m = receipt)
              then Some (mkFlight (fm_owner m) (fm_workload m) (fm_profile m) (fm_reserved_bytes m) uid)
              else None
  | None => None
  end.

(** ** Lock files *)

Record Flock := mkFlock { fl_path : pystr; fl_shared : bool; fl_owner : nat }.

Definition flock_conflict (path : pystr) (shared : bool) (f : Flock) : bool :=
  bool_decide (fl_path f = path) && negb (shared && fl_shared f).

Definition try_flock (path : pystr) (shared : bool) (i : nat) (fs : list Flock) : list Flock * bool :=
  if existsb (flock_conflict path shared) fs then (fs, false)
  else (mkFlock path shared i :: fs, true).

Definition unlock (path : pystr) (i : nat) (fs : list Flock) : list Flock :=
  List.filter (λ f, negb (bool_decide (fl_path f = path) && bool_decide (fl_owner f = i))) fs.

Definition drop_owner (i : nat) (fs : list Flock) : list Flock :=
  List.filter (λ f, negb (bool_decide (fl_owner f = i))) fs.

(** ** Slots side by side *)

(** What a process runs. *)
Inductive role :=
| RSlot (a : SlotArgs)
| RTry (a : SlotArgs)
| RSlice (fuel : nat) (cfg : Settings) (s : SliceArgs)
| RWorker (fuel : nat) (job : RqJob) (queue_name owner : pystr).

Record Slot := mkSlot {
  sl_role : role;
  sl_parent : option nat;
  sl_prog : program unit;
  sl_renewal : option (list pystr * LeaseValue * Z);
  sl_state : option (string * option string);
  sl_redis_failed : bool;
  sl_crashed : bool }.

Record World := mkWorld {
  w_now : Z;
  w_redis : redis;
  w_flocks : list Flock;
  w_marker : option FlightMarker;
  w_slots : gmap nat Slot;
  w_host : HostSnapshot;
  w_memory : Z;
  w_queued : bool;
  w_wakes : nat }.

Definition set_redis (r : redis) (w : World) : World :=
  mkWorld (w_now w) r (w_flocks w) (w_marker w) (w_slots w) (w_host w) (w_memory w) (w_queued w) (w_wakes w).
Definition set_flocks (fs : list Flock) (w : World) : World :=
  mkWorld (w_now w) (w_redis w) fs (w_marker w) (w_slots w) (w_host w) (w_memory w) (w_queued w) (w_wakes w).
Definition set_marker (m : option FlightMarker) (w : World) : World :=
  mkWorld (w_now w) (w_redis w) (w_flocks w) m (w_slots w) (w_host w) (w_memory w) (w_queued w) (w_wakes w).
Definition set_slots (s : gmap nat Slot) (w : World) : World :=
  mkWorld (w_now w) (w_redis w) (w_flocks w) (w_marker w) s (w_host w) (w_memory w) (w_queued w) (w_wakes w).
Definition set_now (t : Z) (w : World) : World :=
  mkWorld t (w_redis w) (w_flocks w) (w_marker w) (w_slots w) (w_host w) (w_memory w) (w_queued w) (w_wakes w).
Definition set_host (h : HostSnapshot) (m : Z) (q : bool) (w : World) : World :=
  mkWorld (w_now w) (w_redis w) (w_flocks w) (w_marker w) (w_slots w) h m q (w_wakes w).
Definition wake (w : World) : World :=
  mkWorld (w_now w) (w_redis w) (w_flocks w) (w_marker w) (w_slots w) (w_host w) (w_memory w) (w_queued w)
    (S (w_wakes w)).

Definition with_slot (i : nat) (f : Slot → Slot) (w : World) : World :=
  set_slots (alter f i (w_slots w)) w.

Definition set_prog (p : program unit) (s : Slot) : Slot :=
  mkSlot (sl_role s) (sl_parent s) p (sl_renewal s) (sl_state s) (sl_redis_failed s) (sl_crashed s).
Definition set_renewal (v : option (list pystr * LeaseValue * Z)) (s : Slot) : Slot :=
  mkSlot (sl_role s) (sl_parent s) (sl_prog s) v (sl_state s) (sl_redis_failed s) (sl_crashed s).
Definition set_state (v : string * option string) (s : Slot) : Slot :=
  mkSlot (sl_role s) (sl_parent s) (sl_prog s) (sl_renewal s) (Some v) (sl_redis_failed s) (sl_crashed s).
Definition mark_failed (s : Slot) : Slot :=
  mkSlot (sl_role s) (sl_parent s) (sl_prog s) (sl_renewal s) (sl_state s) true (sl_crashed s).
Definition mark_crashed (s : Slot) : Slot :=
  mkSlot (sl_role s) (sl_parent s) (Ret tt) None (sl_state s) (sl_redis_failed s) true.

(** How a call goes: normally, raising before the server executed it, raising
    after; and the values only the environment knows. *)
Inductive fault := Fine | Before (e : io_error) | After (e : io_error).
Record choice := mkChoice { ch_fault : fault; ch_number : Q; ch_flag : bool }.

(** A Redis command [f] of process [i]. *)
Definition redis_call {A} (c : choice) (i : nat) (w : World) (f : redis → redis * A)
    : result io_error A * World :=
  let '(r, a) := f (w_redis w) in
  match ch_fault c with
  | Fine => (Ok a, set_redis r w)
  | Before e => (Err e, with_slot i mark_failed w)
  | After e => (Err e, with_slot i mark_failed (set_redis r w))
  end.

Definition local_call {A} (c : choice) (w : World) (f : A * World) : result io_error A * World :=
  match ch_fault c with
  | Fine => (Ok f.1, f.2)
  | Before e | After e => (Err e, w)
  end.

Definition exec {X} (c : choice) (i : nat) (w : World) (o : op X) : X * World :=
  match o in op X return X * World with
  | PressureSnapshot => (w_host w, w)
  | MemoryAvailable => local_call c w (w_memory w, w)
  | Exists k => redis_call c i w (λ r, (r, rexists (w_now w) r k))
  | SetNX k v s => redis_call c i w (set_nx (w_now w) k v s)
  | CompareDelete k v => redis_call c i w (_RELEASE_SCRIPT (w_now w) k v)
  | ReconcileReservation => redis_call c i w (λ r, (restore_remote (w_marker w) r, w_marker w))
  | ReserveMemory k v requested capacity s =>
      redis_call c i w (reserve_memory (w_now w) (w_queued w) (w_marker w) k v requested capacity s)
  | PublishReleased => (tt, wake w)
  | TryFlock path shared =>
      local_call c w (let '(fs, b) := try_flock path shared i (w_flocks w) in (b, set_flocks fs w))
  | Unlock path => (tt, set_flocks (unlock path i (w_flocks w)) w)
  | ReadMarker => local_call c w (w_marker w, w)
  | StartRenewal ks v s => (tt, with_slot i (set_renewal (Some (ks, v, s))) w)
  | StopRenewal => (tt, with_slot i (set_renewal None) w)
  | SetState s r => (tt, with_slot i (set_state (s, r)) w)
  | WaitEvent _ => (tt, w)
  | Uniform => (ch_number c, w)
  | LocalHardGate => (ch_flag c, w)
  | ShutdownRequested => (ch_flag c, w)
  | ReturnJob => (tt, w)
  | Yield => (ch_number c, w)
  end.

Section System.
Context `{Unicode} (digest : pystr → pystr) (barrier_file : pystr).

Definition ignore {A} (p : program A) : program unit := p ≫= λ _, Ret tt.

Definition program_of (i : nat) (r : role) : program unit :=
  match r with
  | RSlot a => ignore (heavy_io_slot digest barrier_file (i, 0%nat) a)
  | RTry a => ignore (try_heavy_io_slot digest barrier_file (i, 0%nat) a)
  | RSlice fuel cfg s => ignore (adaptive_resource_slice digest barrier_file fuel cfg i s 0)
  | RWorker fuel job queue_name owner =>
      ignore (execute_job digest barrier_file fuel i job queue_name owner)
  end.

Definition is_yield {X} (o : op X) : bool := match o with Yield => true | _ => false end.

(** The slot is inside its body. *)
Definition running (s : Slot) : bool :=
  match sl_prog s with Act o _ => is_yield o | Ret _ => false end.
Definition finished (s : Slot) : bool := match sl_prog s with Ret _ => true | Act _ _ => false end.

Definition role_args (r : role) : option SlotArgs :=
  match r with
  | RSlot a | RTry a => Some a
  | RSlice _ _ s => Some (sc_slot s)
  | RWorker _ _ _ _ => None
  end.

Definition is_worker (r : role) : bool := match r with RWorker _ _ _ _ => true | _ => false end.

Definition role_inherited (r : role) : option pystr := role_args r ≫= sa_inherited.

(** The process runs under the locks of its parent. *)
Definition inherits (r : role) : bool :=
  match role_args r with Some a => inherited_flock a | None => false end.

(** The process whose file locks stand for slot [i]. *)
Definition authority (i : nat) (s : Slot) : option nat :=
  if inherits (sl_role s) then sl_parent s else Some i.

Definition role_workload (r : role) : pystr :=
  match r with
  | RSlot a | RTry a => sa_workload a
  | RSlice _ _ s => sa_workload (sc_slot s)
  | RWorker _ job q _ => _job_workload job q
  end.

(** The lock set the process holds in its body. *)
Definition role_locks (r : role) : option LocalResourceLocks :=
  match r with
  | RSlot a => match slot_locks digest barrier_file a with Ok l => l | Err _ => None end
  | RTry a => if inherited_flock a then None
              else match local_lock_for_workload digest barrier_file (sa_workload a) None None with
                   | Ok l => l | Err _ => None end
  | RSlice _ _ s => match slot_locks digest barrier_file (sc_slot s) with Ok l => l | Err _ => None end
  | RWorker _ job q _ =>
      if _is_heavy_queue q && negb (bool_decide (is_Some (_internal_slice_workload job)))
      then match local_lock_for_workload digest barrier_file (_job_workload job q) None None with
           | Ok l => l | Err _ => None end
      else None
  end.

Definition has_live_child (i : nat) (w : World) : bool :=
  existsb (λ ks, bool_decide (sl_parent ks.2 = Some i) && negb (finished ks.2)) (map_to_list (w_slots w)).

Definition new_slot (i : nat) (r : role) (parent : option nat) : Slot :=
  mkSlot r parent (program_of i r) None None false false.

Definition profile_of (r : role) : pystr := workload_profile_name (Some (role_workload r)).

Inductive step (w : World) : World → Prop :=
| step_spawn i r :
    w_slots w !! i = None → role_inherited r = None →
    step w (set_slots (<[i := new_slot i r None]> (w_slots w)) w)
| step_fork p s i r :
    w_slots w !! p = Some s → running s = true → w_slots w !! i = None →
    role_inherited r = inherited_by_child (role_workload (sl_role s)) (role_locks (sl_role s)) →
    is_worker (sl_role s) = true →
    step w (set_slots (<[i := new_slot i r (Some p)]> (w_slots w)) w)
| step_call i s X (o : op X) k c :
    w_slots w !! i = Some s → sl_prog s = Act o k →
    (is_yield o = true → has_live_child i w = false) →
    step w (with_slot i (set_prog (k (exec c i w o).1)) (exec c i w o).2)
| step_crash i s :
    w_slots w !! i = Some s → has_live_child i w = false →
    step w (with_slot i mark_crashed (set_flocks (drop_owner i (w_flocks w)) w))
| step_tick t : w_now w <= t → step w (set_now t w)
| step_renew i s ks v seconds k :
    w_slots w !! i = Some s → sl_renewal s = Some (ks, v, seconds) → k ∈ ks →
    step w (set_redis (_RENEW_SCRIPT (w_now w) k v seconds (w_redis w)).1 w)
| step_restart : step w (set_redis ∅ w)
| step_host h m q : step w (set_host h m q w)
| step_create i s ls receipt workload m (redis_ok : bool) :
    (* delivery creates it inside an exclusive slot of its own, of the
       maintenance profile for a maintenance request *)
    w_slots w !! i = Some s → running s = true → role_inherited (sl_role s) = None →
    role_locks (sl_role s) = Some ls → lr_remote_exclusive ls = true →
    (workload_profile_name (Some workload) = u "maintenance" → profile_of (sl_role s) = u "maintenance") →
    create_marker receipt workload (w_marker w) = Some m →
    step w (set_marker (Some m)
              (if redis_ok && bool_decide (w_marker w = None)
               then set_redis (<[REMOTE_RESERVATION_KEY := mkEntry (VFlight m) None]> (w_redis w)) w
               else w))
| step_clear receipt (redis_ok : bool) :
    step w (set_marker (clear_marker receipt (w_marker w))
              (if redis_ok && bool_decide (clear_marker receipt (w_marker w) ≠ w_marker w)
               then set_redis (delete REMOTE_RESERVATION_KEY (w_redis w)) w else w))
| step_record receipt uid m :
    record_task receipt uid (w_marker w) = Some m →
    step w (set_marker (Some m) w).

Definition init (host : HostSnapshot) (memory : Z) : World :=
  mkWorld 0 ∅ [] None ∅ host memory false 0.

Definition reachable (w : World) : Prop := ∃ host memory, rtc step (init host memory) w.
End System.
