(* ===== verification/HeavyIOFacts.v ===== *)
(** * Heavy-I/O leases: what a slot owns

    The file locks and the Redis keys of one process, followed through the
    calls of its program: in its body a slot holds exactly its locks, taken
    before the marker was read, and on every way out it holds none. *)

From stdpp Require Import base gmap strings list numbers relations.
From Stdlib Require Import QArith Sorting.Sorted.
From S2P Require Import Prelude PyStr Pressure Programs HeavyIO HeavyIOWorker HeavyIOWorld.

Open Scope string_scope.
Open Scope list_scope.
Open Scope Z_scope.

(** Closes the claim that a program without branches makes only some calls. *)
Ltac only_auto := repeat first [done | split | intros ?].

(** ** File locks *)

(** The locks held, most recent first, and whether the marker was read, with
    all of [locks] held and without conflict, since the last lock call. *)
Definition lock_track (locks : option LocalResourceLocks) (X : Type) (o : op X) (x : X)
    (g : list LocalHeavyIOLock * bool) : list LocalHeavyIOLock * bool :=
  match o in op X return X → _ with
  | TryFlock path shared => λ x,
      match x with Ok true => (mkLock path shared :: g.1, false) | _ => g end
  | Unlock path => λ _, (List.filter (λ l, negb (bool_decide (lk_path l = path))) g.1, false)
  | ReadMarker => λ x,
      (g.1, match x, locks with
            | Ok m, Some ls => bool_decide (g.1 = rev (lr_locks ls)) && negb (marker_conflicts ls m)
            | _, _ => false
            end)
  | Yield => λ _, (g.1, false)
  | _ => λ _, g
  end x.

Definition lock_before (locks : option LocalResourceLocks) (X : Type) (o : op X)
    (g : list LocalHeavyIOLock * bool) : Prop :=
  match o with
  | Yield => match locks with
             | Some ls => g.1 = rev (lr_locks ls) ∧ g.2 = true
             | None => g.1 = []
             end
  | _ => True
  end.

Definition no_locks (X : Type) (o : op X) : Prop :=
  match o with TryFlock _ _ | Unlock _ | ReadMarker | Yield => False | _ => True end.

Lemma no_locks_inert locks X (o : op X) : no_locks X o → inert (lock_track locks) (lock_before locks) X o.
Proof. by destruct o. Qed.

Abbreviation lwp ls := (wp (lock_track ls) (lock_before ls)).

Lemma lwp_no_locks {A} ls (p : program A) (Q : A → _ → Prop) g :
  only no_locks p → (∀ a, Q a g) → lwp ls p Q g.
Proof. intros Hp. apply wp_inert. eapply only_mono; [|done]. apply no_locks_inert. Qed.

Lemma lwp_release ls held h c : (∀ l, l ∈ h → lk_path l ∈ lk_path <$> held) →
  lwp ls (release_locks held) (λ _ g, g.1 = []) (h, c).
Proof.
  revert h c. induction held as [|l held IH]; intros h c Hh; cbn.
  - destruct h as [|l h]; [done|]. specialize (Hh l ltac:(set_solver)). set_solver.
  - split; [done|]. intros _. apply IH. intros l' Hl'.
    apply list_elem_of_In, List.filter_In in Hl' as [Hl' Hne].
    apply list_elem_of_In, Hh in Hl'. rewrite fmap_cons, elem_of_cons in Hl'.
    destruct Hl' as [He|]; [|done]. rewrite He in Hne. by rewrite bool_decide_true in Hne.
Qed.

Lemma lwp_then_release {A} ls held c (a : A) (Q : A → _ → Prop) : (∀ g, g.1 = [] → Q a g) →
  lwp ls (release_locks held ≫= λ _, Ret a) Q (held, c).
Proof.
  intros HQ. apply wp_bind. eapply wp_mono; [|apply lwp_release].
  - intros x g Hg. cbn. auto.
  - intros l Hl. by apply list_elem_of_fmap_2.
Qed.

(** After [try_acquire]: all the locks, with the marker read, or none. *)
Definition locks_result (ls : LocalResourceLocks) (r : result exn bool) (g : list LocalHeavyIOLock * bool) :=
  match r with
  | Ok true => g = (rev (lr_locks ls), true)
  | _ => g.1 = []
  end.

Lemma lwp_acquire ls acquired todo c : rev todo ++ acquired = rev (lr_locks ls) →
  lwp (Some ls) (acquire_locks ls acquired todo) (locks_result ls) (acquired, c).
Proof.
  revert acquired c. induction todo as [|l todo IH]; intros acquired c Heq; cbn.
  - split; [done|]. intros [m|e]; [|by apply lwp_then_release].
    cbn in Heq. destruct (marker_conflicts ls m) eqn:Hm; [by apply lwp_then_release|].
    cbn. rewrite bool_decide_true by done. by rewrite Heq.
  - split; [done|]. intros [[]|e]; [|by apply lwp_then_release..].
    destruct l as [path shared]. apply IH. cbn in Heq. by rewrite <- app_assoc in Heq.
Qed.

Lemma lwp_try_acquire ls c : lwp (Some ls) (locks_try_acquire ls) (locks_result ls) ([], c).
Proof. apply lwp_acquire. by rewrite app_nil_r. Qed.

Lemma lwp_locks_release ls ls' c : lwp ls (locks_release ls' true) (λ _ g, g.1 = []) (rev (lr_locks ls'), c).
Proof. apply lwp_release. intros l Hl. by apply list_elem_of_fmap_2. Qed.

(** ** The parts of a slot that take no file lock *)

Section Slots.
Context `{Unicode} (digest : pystr → pystr) (barrier_file : pystr).

Lemma no_locks_waiting {A} reason (p : program A) : only no_locks p → only no_locks (waiting reason p).
Proof. intros Hp. by split. Qed.

Lemma no_locks_release_each v keys released : only no_locks (release_each v keys released).
Proof. revert released. induction keys; intros released; cbn; [done|]. split; [done|]. auto. Qed.

Lemma no_locks_release_keys l keys : only no_locks (_release_keys l keys).
Proof. apply only_bind; [apply no_locks_release_each|]. by intros []. Qed.

Lemma no_locks_then {A} l keys (a : A) : only no_locks (_release_keys l keys ≫= λ _, Ret a).
Proof. apply only_bind; [apply no_locks_release_keys|done]. Qed.

Lemma no_locks_acquire_keys l acquired todo : only no_locks (acquire_keys l acquired todo).
Proof.
  revert acquired. induction todo as [|k todo IH]; intros acquired; cbn; [done|].
  destruct (bool_decide _); (split; [done|]).
  - intros [code|e]; [|apply no_locks_then]. destruct (code =? 1); [apply IH|apply no_locks_then].
  - intros [[]|e]; [apply IH|apply no_locks_then..].
Qed.

Lemma no_locks_try_lease l : only no_locks (lease_try_acquire l).
Proof.
  split; [done|]. intros [m|e]; [|apply no_locks_then]. cbn.
  match goal with |- context [if ?b then _ else _] => destruct b end; [done|apply no_locks_acquire_keys].
Qed.

Lemma no_locks_lease_release l b : only no_locks (lease_release l b).
Proof. destruct b; [|done]. split; [done|]. intros ?. apply no_locks_release_keys. Qed.

Lemma no_locks_details host workload : only no_locks (resource_reservation_details host workload).
Proof.
  unfold resource_reservation_details. destruct (hs_available_bytes host), (hs_hard_floor host); try done.
  split; [done|]. by intros [].
Qed.

Lemma no_locks_permitted workload : only no_locks (resource_profile_permitted workload).
Proof. split; [done|]. intros host. cbn. by destruct (resource_profile_permit _ _). Qed.

Lemma no_locks_slot_permit a : only no_locks (slot_permit a).
Proof.
  unfold slot_permit. destruct (takes_lease a); [|done].
  apply only_bind; [apply no_locks_permitted|]. intros [[permitted host] reason].
  destruct permitted; [|only_auto].
  destruct (_ && _); [|done]. split; [done|]. intros [[]|]; only_auto.
Qed.

Lemma no_locks_try_permit a : only no_locks (try_permit a).
Proof.
  unfold try_permit. destruct (inherited_flock a); [done|].
  apply only_bind; [apply no_locks_permitted|]. intros [[permitted host] reason].
  destruct permitted; [|only_auto].
  destruct (bool_decide _); [done|]. split; [done|]. intros [[]|]; only_auto.
Qed.

Lemma no_locks_slot_lease token a host keys : only no_locks (slot_lease token a host keys).
Proof.
  unfold slot_lease. destruct keys as [|k keys]; [done|].
  apply only_bind; [apply no_locks_details|]. intros [requested capacity].
  destruct (capacity <? requested); [only_auto|].
  destruct (resource_budget_token_key _ _); [|done].
  apply only_bind; [apply no_locks_try_lease|]. intros [[] denial]; [done|].
  destruct (takes_lease a); [only_auto|done].
Qed.

Lemma no_locks_try_slot_lease token a host keys : only no_locks (try_lease token a host keys).
Proof.
  unfold try_lease. destruct keys as [|k keys]; [done|].
  apply only_bind; [apply no_locks_details|]. intros [requested capacity].
  destruct (capacity <? requested); [only_auto|].
  destruct (resource_budget_token_key _ _); [|done].
  apply only_bind; [apply no_locks_try_lease|]. intros [[] denial]; [done|only_auto].
Qed.

(** ** Slots *)

(** What the local part leaves, by its lock object. *)
Definition local_result (ok : bool) (ls : option LocalResourceLocks) (local : option (LocalResourceLocks * bool))
    (g : list LocalHeavyIOLock * bool) : Prop :=
  match local with
  | None => g.1 = [] ∧ (ok = true → ls = None)
  | Some (l, acquired) =>
      ls = Some l ∧ if acquired : bool then g = (rev (lr_locks l), true) else g.1 = [] ∧ ok = false
  end.

Lemma lwp_cleanup ls ok local lease g : local_result ok ls local g →
  lwp ls (slot_cleanup local lease) (λ _ g, g.1 = []) g.
Proof.
  intros Hl. apply wp_bind.
  assert (Hr : ∀ g, g.1 = [] →
    lwp ls (match lease with Some (l, acquired) => lease_release l acquired | None => Ret tt end)
      (λ _ g, g.1 = []) g).
  { intros g' Hg'. destruct lease as [[l b]|]; [|done]. by apply lwp_no_locks; [apply no_locks_lease_release|]. }
  destruct local as [[l []]|]; cbn in Hl.
  - destruct Hl as [_ ->]. eapply wp_mono; [|apply lwp_locks_release]. auto.
  - apply Hr. tauto.
  - apply Hr. tauto.
Qed.

Lemma lwp_cleanup_then {A} ls ok local lease g (a : A) : local_result ok ls local g →
  lwp ls (slot_cleanup local lease ≫= λ _, Ret a) (λ _ g, g.1 = []) g.
Proof. intros Hl. apply wp_bind. by eapply lwp_cleanup. Qed.

Lemma lwp_slot_local a c : 
  lwp (match slot_locks digest barrier_file a with Ok l => l | Err _ => None end)
    (slot_local digest barrier_file a)
    (λ r g, local_result (is_ok r.1) (match slot_locks digest barrier_file a with Ok l => l | Err _ => None end) r.2 g)
    ([], c).
Proof.
  unfold slot_local. destruct (slot_locks digest barrier_file a) as [[ls|]|e]; [|done..].
  apply wp_bind. eapply wp_mono; [|apply lwp_try_acquire].
  intros [[]|e] g Hg; cbn in Hg |- *.
  - done.
  - by split.
  - by destruct e as [?|[]| |].
Qed.

Lemma lwp_body {A} ls local lease g (a : Q → A) : local_result true ls local g →
  lwp ls (act (SetState "running" None) ≫= λ _, act Yield ≫= λ x,
          slot_cleanup local lease ≫= λ _, Ret (a x)) (λ _ g, g.1 = []) g.
Proof.
  intros Hl. apply wp_bind, wp_act; [done|]. intros u0. apply wp_bind, wp_act.
  - cbn. destruct local as [[l []]|]; cbn in Hl.
    + destruct Hl as [-> ->]. done.
    + by destruct Hl as [_ [_ ?]].
    + destruct Hl as [? ->]; done.
  - intros x. cbn [lock_track]. destruct local as [[l []]|]; cbn in Hl.
    + destruct Hl as [-> ->]. apply wp_bind, wp_bind.
      eapply wp_mono; [|apply lwp_locks_release]. intros ? g' Hg'.
      apply lwp_no_locks; [|done]. destruct lease as [[]|]; [apply no_locks_lease_release|done].
    + by destruct Hl as [_ [_ ?]].
    + eapply (lwp_cleanup_then ls false). split; [apply Hl|done].
Qed.

Lemma lwp_heavy_io_slot token a c :
  lwp (match slot_locks digest barrier_file a with Ok l => l | Err _ => None end)
    (heavy_io_slot digest barrier_file token a) (λ _ g, g.1 = []) ([], c).
Proof.
  apply wp_bind, lwp_no_locks; [apply no_locks_slot_permit|]. intros [host|e]; [|done].
  destruct (slot_keys digest a) as [keys|e]; [|done].
  apply wp_bind, lwp_no_locks; [apply no_locks_slot_lease|]. intros [[[]|e] lease].
  - apply wp_bind. eapply wp_mono; [|apply lwp_slot_local].
    intros [[[]|e] local] g Hg; cbn in Hg.
    + by apply lwp_body.
    + by eapply lwp_cleanup_then.
  - by eapply (lwp_cleanup_then _ false).
Qed.

Lemma lwp_try_heavy_io_slot token a c :
  lwp (role_locks digest barrier_file (RTry a))
    (try_heavy_io_slot digest barrier_file token a) (λ _ g, g.1 = []) ([], c).
Proof.
  apply wp_bind, lwp_no_locks; [apply no_locks_try_permit|]. intros [host|]; [|done].
  destruct (if inherited_flock a then _ else _) as [keys|e]; [|done].
  apply wp_bind, lwp_no_locks; [apply no_locks_try_slot_lease|].
  intros [[[]|e] lease]; [|by apply (lwp_cleanup_then _ false)..].
  apply wp_bind. eapply (wp_mono _ _ _ (λ r g, local_result (match r.1 with Ok b => b | Err _ => false end)
    (role_locks digest barrier_file (RTry a)) r.2 g)).
  - intros [[[]|e] local] g Hg; cbn [fst snd] in Hg;
    [by apply lwp_body|exact (lwp_cleanup_then _ _ _ _ _ _ Hg)..].
  - unfold try_local, role_locks. destruct (inherited_flock a); [done|].
    destruct (local_lock_for_workload _ _ _ _ _) as [[ls|]|e]; [|done..].
    apply wp_bind. eapply wp_mono; [|apply lwp_try_acquire].
    intros [[]|e] g Hg; cbn in Hg |- *; [done..|].
    by destruct e as [?|[]| |].
Qed.

Lemma no_locks_wait fuel workload attempt : only no_locks (wait_for_resource_capacity fuel workload attempt).
Proof.
  revert attempt. induction fuel as [|fuel IH]; intros attempt; [done|].
  apply only_bind; [apply no_locks_permitted|]. intros [[permitted host] reason].
  destruct permitted; [only_auto|]. split; [done|]. intros ?. split; [done|]. intros y. cbn.
  destruct (if bool_decide _ then _ else _); [|done]. split; [done|]. intros ?. apply IH.
Qed.

Lemma lwp_adaptive fuel cfg process s attempt c :
  lwp (role_locks digest barrier_file (RSlice fuel cfg s))
    (adaptive_resource_slice digest barrier_file fuel cfg process s attempt) (λ _ g, g.1 = []) ([], c).
Proof.
  cbn [role_locks]. revert attempt c. induction fuel as [|fuel IH]; intros attempt c; [done|].
  apply wp_bind, wp_act; [done|]. intros host. cbn zeta.
  destruct (sl_allowed _); cbn [negb].
  - apply wp_bind. eapply wp_mono; [|apply lwp_heavy_io_slot].
    intros [elapsed|[reason|e| |]] [h c'] Hg; cbn in Hg; subst h; [done| |done..].
    apply wp_bind, wp_act; [done|]. intros ?. destruct (sc_wait s); [|done].
    apply wp_bind, wp_act; [done|]. intros y. destruct (_adaptive_poll_seconds _ _ _); [|done].
    apply wp_bind, wp_act; [done|]. intros ?. apply IH.
  - destruct (sc_wait s); [|done]. apply wp_bind, lwp_no_locks; [apply no_locks_wait|].
    intros [[|]|]; [apply IH|done..].
Qed.

(** ** The worker *)

Lemma internal_bounded job : _internal_slice_workload (_bound_job_slice job) = _internal_slice_workload job.
Proof. unfold _bound_job_slice. cbn zeta. by repeat case_match. Qed.

Lemma no_locks_parent_lease token workload owner host : only no_locks (parent_lease token workload owner host).
Proof.
  unfold parent_lease. destruct (if bool_decide _ then _ else _) as [[|k keys]|e]; [done| |done].
  apply only_bind; [apply no_locks_details|]. intros [requested capacity].
  destruct (capacity <? requested); [done|]. destruct (resource_budget_token_key _ _); [|done].
  apply only_bind; [apply no_locks_try_lease|]. by intros [[] denial].
Qed.

Lemma no_locks_worker_permit workload hard_only : only no_locks (worker_permit workload hard_only).
Proof.
  split; [done|]. intros host. cbn. destruct (resource_profile_permit _ _).
  by destruct (if hard_only && _ && _ then _ else _).
Qed.

Definition admission_result (ls : option LocalResourceLocks) (r : admission)
    (g : list LocalHeavyIOLock * bool) : Prop :=
  match r with
  | Granted (Some l) _ _ => ls = Some l ∧ g = (rev (lr_locks l), true)
  | Granted None _ _ => ls = None ∧ g.1 = []
  | _ => g.1 = []
  end.

Definition take_result (ls : option LocalResourceLocks)
    (r : result (exn + string) (option LocalResourceLocks * option RenewableRedisLease))
    (g : list LocalHeavyIOLock * bool) : Prop :=
  match r with
  | Ok (Some l, _) => ls = Some l ∧ g = (rev (lr_locks l), true)
  | Ok (None, _) => ls = None ∧ g.1 = []
  | Err _ => g.1 = []
  end.

Lemma lwp_parent_take token workload owner host c :
  let ls := match local_lock_for_workload digest barrier_file workload None None with
            | Ok l => l | Err _ => None end in
  lwp ls (parent_take digest barrier_file token workload owner host) (take_result ls) ([], c).
Proof.
  intros ls. apply wp_bind, lwp_no_locks; [apply no_locks_parent_lease|]. intros [lease|e]; [|done].
  apply wp_bind. unfold parent_locks, ls. clear ls.
  destruct (local_lock_for_workload _ _ _ _ _) as [[ls|]|e]; [|done..].
  assert (Hbusy : ∀ g, g.1 = [] → lwp (Some ls)
    (match lease with Some l => lease_release l true | None => Ret tt end ≫= λ _,
     Ret (Err (inr "profile_lock_busy"))) (take_result (Some ls)) g).
  { intros g Hg. apply wp_bind, lwp_no_locks; [|done].
    destruct lease; [apply no_locks_lease_release|done]. }
  apply wp_bind. eapply wp_mono; [|apply lwp_try_acquire].
  intros [[]|[?|[]| |]] g Hg; cbn in Hg |- *; auto.
Qed.

Lemma lwp_admission_attempt ls token job workload owner host again c :
  (∀ c, lwp ls again (admission_result ls) ([], c)) →
  ls = (if bool_decide (is_Some (_internal_slice_workload job)) then None
        else match local_lock_for_workload digest barrier_file workload None None with
             | Ok l => l | Err _ => None end) →
  lwp ls (admission_attempt digest barrier_file token job workload owner host again) (admission_result ls) ([], c).
Proof.
  intros Hagain Hls.
  assert (Hretry : ∀ reason g, g.1 = [] → lwp ls (retry reason again) (admission_result ls) g).
  { intros reason [h c'] Hg. cbn in Hg. subst h. apply wp_bind, wp_act; [done|]. intros ?.
    apply wp_bind, wp_act; [done|]. intros []; [done|apply Hagain]. }
  assert (Htake : lwp ls
    (if bool_decide (is_Some (_internal_slice_workload job)) then
      act (SetState "running" None) ≫= λ _, Ret (Granted None None host)
    else
      parent_take digest barrier_file token workload owner host ≫= λ r,
      match r with
      | Err (inl e) => Ret (Failed e)
      | Err (inr reason) => retry reason again
      | Ok (locks, lease) => act (SetState "running" None) ≫= λ _, Ret (Granted locks lease host)
      end) (admission_result ls) ([], c)).
  { revert Hls. destruct (bool_decide _); intros Hls; [by apply wp_bind, wp_act|].
    pose proof (lwp_parent_take token workload owner host c) as Hp. cbn zeta in Hp. rewrite <- Hls in Hp.
    apply wp_bind. eapply wp_mono; [|exact Hp].
    intros [[[l|] lease]|[e|reason]] g Hg; [| |done|by apply Hretry];
      (apply wp_bind, wp_act; [done|]; intros ?; exact Hg). }
  unfold admission_attempt. cbn zeta. destruct (_ && _); [|exact Htake].
  apply wp_bind, wp_act; [done|]. intros [[]|e]; [by apply Hretry|exact Htake|by apply Hretry].
Qed.

Lemma lwp_profile_admission ls fuel process job workload owner c :
  ls = (if bool_decide (is_Some (_internal_slice_workload job)) then None
        else match local_lock_for_workload digest barrier_file workload None None with
             | Ok l => l | Err _ => None end) →
  lwp ls (_profile_admission digest barrier_file fuel process job workload owner) (admission_result ls) ([], c).
Proof.
  intros Hls. revert c. induction fuel as [|fuel IH]; intros c; cbn [_profile_admission].
  all: destruct (bool_decide (_internal_slice_workload job = Some (u "search_index"))) eqn:Hs;
    [apply bool_decide_eq_true in Hs; rewrite Hs, bool_decide_true in Hls by eauto; done|].
  { done. }
  apply wp_bind, wp_act; [done|]. intros []; [done|].
  apply wp_bind, lwp_no_locks; [apply no_locks_worker_permit|]. intros [[permitted host] reason].
  destruct permitted; cbn [negb].
  - apply wp_bind, wp_act; [done|]. intros []; [done|]. by apply lwp_admission_attempt.
  - apply wp_bind, wp_act; [done|]. intros ?. apply wp_bind, wp_act; [done|]. intros []; [done|apply IH].
Qed.

Lemma lwp_execute_job fuel process job q owner c :
  lwp (role_locks digest barrier_file (RWorker fuel job q owner))
    (execute_job digest barrier_file fuel process job q owner) (λ _ g, g.1 = []) ([], c).
Proof.
  unfold execute_job, role_locks. destruct (_is_heavy_queue q); cbn [negb andb]; [|by split].
  apply wp_bind, wp_act; [done|]. intros []; [apply wp_bind, wp_act; done|].
  apply wp_bind. eapply wp_mono; [|apply lwp_profile_admission; rewrite internal_bounded; by destruct (bool_decide _)].
  intros [local lease host| |e|] g Hg; cbn in Hg; [|by apply wp_bind, wp_act|done..].
  apply wp_bind, wp_act.
  - destruct local as [l|]; destruct Hg as [-> Hg]; [by subst g|done].
  - intros elapsed. apply wp_bind. apply (wp_mono _ _ _ (λ _ g, g.1 = [])).
    + intros ? g' Hg'. apply lwp_no_locks; [|done]. apply only_bind; [|only_auto].
      destruct lease; [apply no_locks_lease_release|done].
    + destruct local as [l|]; destruct Hg as [-> Hg]; [subst g; apply lwp_locks_release|done].
Qed.

(** Every process: in its body it holds its locks, at its end none. *)
Lemma lwp_program i r c :
  lwp (role_locks digest barrier_file r) (program_of digest barrier_file i r) (λ _ g, g.1 = []) ([], c).
Proof.
  unfold program_of, ignore.
  destruct r; apply wp_bind; (eapply wp_mono; [|first [apply lwp_heavy_io_slot|apply lwp_try_heavy_io_slot
    |apply lwp_adaptive|apply lwp_execute_job]]); done.
Qed.
End Slots.

(** * Heavy-I/O leases: exclusion

    The invariant of the lock files over every interleaving: compatible locks,
    each owned by a process whose program accounts for it; a workhorse only runs
    inside its parent; and a slot whose locks conflict with an unresolved remote
    flight is the one that created it. *)

(** ** Lock files *)

Definition compatible (f g : Flock) : Prop :=
  fl_path f = fl_path g → fl_shared f = true ∧ fl_shared g = true.

Lemma compatible_sym f g : compatible f g → compatible g f.
Proof. unfold compatible. naive_solver. Qed.

Lemma sorted_filter {A} (R : A → A → Prop) (p : A → bool) l :
  StronglySorted R l → StronglySorted R (List.filter p l).
Proof.
  induction 1 as [|x l Hl IH Hx]; cbn; [constructor|]. destruct (p x); [|done].
  constructor; [done|]. rewrite Forall_forall in Hx |- *. intros y Hy.
  apply Hx, list_elem_of_In. apply list_elem_of_In, List.filter_In in Hy. tauto.
Qed.

Lemma sorted_pair {A} (R : A → A → Prop) l x y : (∀ x y, R x y → R y x) →
  StronglySorted R l → x ∈ l → y ∈ l → x ≠ y → R x y.
Proof.
  intros Hsym Hl. induction Hl as [|z l Hl IH Hz]; intros Hx Hy Hne; [by apply elem_of_nil in Hx|].
  rewrite Forall_forall in Hz.
  apply elem_of_cons in Hx as [->|Hx], Hy as [->|Hy]; auto; done.
Qed.

Lemma try_flock_compatible path shared i fs fs' :
  StronglySorted compatible fs → try_flock path shared i fs = (fs', true) →
  fs' = mkFlock path shared i :: fs ∧ StronglySorted compatible fs'.
Proof.
  unfold try_flock. intros Hs. destruct (existsb _ fs) eqn:He; [done|]. intros [= <-]. split; [done|].
  constructor; [done|]. rewrite Forall_forall. intros g Hg Hp. cbn in Hp |- *.
  rewrite <- not_true_iff_false, existsb_exists in He.
  destruct (shared && fl_shared g) eqn:Hb; [by apply andb_true_iff in Hb|].
  destruct He. exists g. split; [by apply list_elem_of_In|].
  unfold flock_conflict. by rewrite Hb, bool_decide_true.
Qed.

Definition lock_of (f : Flock) : LocalHeavyIOLock := mkLock (fl_path f) (fl_shared f).
Definition owned (i : nat) (fs : list Flock) : list Flock := List.filter (λ f, bool_decide (fl_owner f = i)) fs.
Definition lock_view (i : nat) (fs : list Flock) : list LocalHeavyIOLock := lock_of <$> owned i fs.

Lemma elem_of_lock_view i fs l : l ∈ lock_view i fs ↔ ∃ f, f ∈ fs ∧ fl_owner f = i ∧ lock_of f = l.
Proof.
  unfold lock_view, owned. rewrite list_elem_of_fmap. split.
  - intros (f & -> & Hf). apply list_elem_of_In, List.filter_In in Hf as [Hf Hb].
    apply bool_decide_eq_true in Hb. apply list_elem_of_In in Hf. eauto.
  - intros (f & Hf & Ho & <-). exists f. split; [done|].
    apply list_elem_of_In, List.filter_In. rewrite bool_decide_true by done. by split; [apply list_elem_of_In|].
Qed.

Lemma lock_view_other i j path shared fs : i ≠ j → lock_view j (mkFlock path shared i :: fs) = lock_view j fs.
Proof. intros Hne. unfold lock_view, owned. cbn. by rewrite bool_decide_false. Qed.

Lemma lock_view_unlock i j path fs :
  lock_view j (unlock path i fs) =
  if bool_decide (i = j) then List.filter (λ l, negb (bool_decide (lk_path l = path))) (lock_view j fs)
  else lock_view j fs.
Proof.
  unfold lock_view, owned, unlock. induction fs as [|f fs IH]; cbn; [by case_bool_decide|].
  destruct (bool_decide (fl_owner f = j)) eqn:Hj; destruct (bool_decide (fl_path f = path)) eqn:Hp;
    destruct (bool_decide (fl_owner f = i)) eqn:Hi; cbn; rewrite ?Hj; cbn; rewrite ?Hp; cbn; try done;
    repeat match goal with H : bool_decide _ = _ |- _ =>
      first [apply bool_decide_eq_true in H|apply bool_decide_eq_false in H] end;
    case_bool_decide; cbn; rewrite ?Hp; cbn; try congruence.
Qed.

Lemma lock_view_drop i j fs : i ≠ j → lock_view j (drop_owner i fs) = lock_view j fs.
Proof.
  intros Hne. unfold lock_view, owned, drop_owner. induction fs as [|f fs IH]; cbn; [done|].
  destruct (bool_decide (fl_owner f = i)) eqn:Hi; cbn; [|by destruct (bool_decide (fl_owner f = j)); cbn; rewrite IH].
  rewrite IH, (bool_decide_false (fl_owner f = j)); [done|]. apply bool_decide_eq_true in Hi. congruence.
Qed.

Lemma lock_view_dropped i fs : lock_view i (drop_owner i fs) = [].
Proof.
  unfold lock_view, owned, drop_owner. induction fs as [|f fs IH]; cbn; [done|].
  destruct (bool_decide (fl_owner f = i)) eqn:Hi; cbn; [done|]. by rewrite Hi.
Qed.

(** ** What a step changes for the locks *)

Definition core : Type := role * option nat * program unit.
Definition core_of (s : Slot) : core := (sl_role s, sl_parent s, sl_prog s).
Definition cores (w : World) (i : nat) : option core := core_of <$> w_slots w !! i.

Definition prog_running (p : program unit) : bool :=
  match p with Act o _ => is_yield o | Ret _ => false end.
Definition prog_finished (p : program unit) : bool := match p with Ret _ => true | Act _ _ => false end.

Lemma cores_with_slot w i f j : (∀ s, core_of (f s) = core_of s) → cores (with_slot i f w) j = cores w j.
Proof.
  intros Hf. unfold cores, with_slot. cbn. destruct (decide (i = j)) as [->|Hne].
  - rewrite lookup_alter_eq. destruct (w_slots w !! j); cbn; [by rewrite Hf|done].
  - by rewrite lookup_alter_ne.
Qed.

Lemma cores_set_prog w i p j :
  cores (with_slot i (set_prog p) w) j =
  if bool_decide (i = j) then (λ c, (c.1, p)) <$> cores w j else cores w j.
Proof.
  unfold cores, with_slot. cbn. case_bool_decide as Hij; [subst j; rewrite lookup_alter_eq|by rewrite lookup_alter_ne].
  by destruct (w_slots w !! i).
Qed.

Lemma redis_call_frame {A} (c : choice) (i : nat) (w : World) (f : redis → redis * A) :
  w_flocks (redis_call c i w f).2 = w_flocks w ∧ w_marker (redis_call c i w f).2 = w_marker w ∧
  ∀ j, cores (redis_call c i w f).2 j = cores w j.
Proof.
  unfold redis_call. destruct (f (w_redis w)) as [r a].
  destruct (ch_fault c); (split; [done|split; [done|intros j]]); cbn [snd]; by rewrite ?cores_with_slot.
Qed.

(** The lock files after a call, and the answers about them. *)
Definition lock_effect {X} (i : nat) (o : op X) (x : X) (fs fs' : list Flock) (mk : option FlightMarker) : Prop :=
  match o in op X return X → Prop with
  | TryFlock path shared => λ x,
      match x with
      | Ok true => try_flock path shared i fs = (fs', true)
      | _ => fs' = fs
      end
  | Unlock path => λ _, fs' = unlock path i fs
  | ReadMarker => λ x, fs' = fs ∧ match x with Ok m => m = mk | Err _ => True end
  | _ => λ _, fs' = fs
  end x.

Lemma exec_frame {X} c i w (o : op X) :
  w_marker (exec c i w o).2 = w_marker w ∧ (∀ j, cores (exec c i w o).2 j = cores w j) ∧
  lock_effect i o (exec c i w o).1 (w_flocks w) (w_flocks (exec c i w o).2) (w_marker w).
Proof.
  destruct o; cbn [exec lock_effect];
    try (match goal with |- context [redis_call ?c ?i ?w ?f] =>
           destruct (redis_call_frame c i w f) as (? & ? & ?) end; done);
    try (split; [done|split; [intros j; cbn [snd]; by rewrite ?cores_with_slot|done]]).
  - unfold local_call. by destruct (ch_fault c).
  - unfold local_call. destruct (try_flock path shared i (w_flocks w)) as [fs b] eqn:Ht.
    destruct (ch_fault c); [|done..]. cbn. destruct b; [done|].
    split; [done|]. split; [done|]. unfold try_flock in Ht. by case_match; simplify_eq.
  - unfold local_call. by destruct (ch_fault c).
Qed.

(** [lock_effect] moves the view of its process as [lock_track] says, and
    leaves the others. *)
Lemma lock_effect_view {X} ls i (o : op X) x fs fs' mk b :
  StronglySorted compatible fs → lock_effect i o x fs fs' mk →
  StronglySorted compatible fs' ∧
  lock_view i fs' = (lock_track ls X o x (lock_view i fs, b)).1 ∧
  (∀ j, j ≠ i → lock_view j fs' = lock_view j fs) ∧
  (∀ f, f ∈ fs' → f ∈ fs ∨ fl_owner f = i).
Proof.
  intros Hs. destruct o; cbn; try (intros ->; naive_solver).
  - destruct x as [[]|]; [|intros ->; naive_solver..]. intros Ht.
    apply try_flock_compatible in Ht as [-> Ht]; [|done]. split_and!; [done| |..].
    + unfold lock_view, owned. cbn. by rewrite bool_decide_true.
    + intros j Hj. by apply lock_view_other.
    + intros f Hf. apply elem_of_cons in Hf as [->|]; auto.
  - intros ->. split_and!; [by apply sorted_filter| |..].
    + by rewrite lock_view_unlock, bool_decide_true.
    + intros j Hj. by rewrite lock_view_unlock, bool_decide_false.
    + intros f Hf. left. apply list_elem_of_In, List.filter_In in Hf. apply list_elem_of_In. tauto.
  - intros [-> _]. destruct x; naive_solver.
Qed.

(** ** The invariant *)

Section Exclusion.
Context `{Unicode} (digest : pystr → pystr) (barrier_file : pystr).
Local Abbreviation locks_of := (role_locks digest barrier_file).

(** [checked i]: process [i] read the marker with all its locks in hold;
    [creator]: the process that created the marker. *)
Record lock_inv (cs : nat → option core) (fs : list Flock) (mk : option FlightMarker)
    (checked : nat → bool) (creator : option nat) : Prop := {
  li_compatible : StronglySorted compatible fs;
  li_owned : ∀ f, f ∈ fs → is_Some (cs (fl_owner f));
  li_program : ∀ i r par p, cs i = Some (r, par, p) →
    lwp (locks_of r) p (λ _ g, g.1 = []) (lock_view i fs, checked i);
  li_parent : ∀ i r q p, cs i = Some (r, Some q, p) → prog_finished p = false →
    ∃ rq parq pq, cs q = Some (rq, parq, pq) ∧ prog_running pq = true ∧ is_worker rq = true;
  li_checked : ∀ i r par p, cs i = Some (r, par, p) → checked i = true →
    ∃ ls, locks_of r = Some ls ∧ lock_view i fs = rev (lr_locks ls);
  li_fenced : ∀ i r par p ls m, cs i = Some (r, par, p) → checked i = true → inherits r = false →
    locks_of r = Some ls → mk = Some m → marker_conflicts ls (Some m) = true →
    creator = Some i ∧ prog_running p = true }.

Lemma lock_inv_ext cs cs' fs mk checked creator :
  (∀ i, cs' i = cs i) → lock_inv cs fs mk checked creator → lock_inv cs' fs mk checked creator.
Proof.
  intros He [H1 H2 H3 H4 H5 H6]. split; [done|..].
  - intros f Hf. rewrite He. auto.
  - intros i r par p. rewrite He. apply H3.
  - intros i r q p. rewrite He. intros Hi Hp. destruct (H4 _ _ _ _ Hi Hp) as (rq & parq & pq & Hq & ?).
    exists rq, parq, pq. by rewrite He.
  - intros i r par p. rewrite He. apply H5.
  - intros i r par p ls m. rewrite He. apply H6.
Qed.

Definition set_core (i : nat) (c : core) (cs : nat → option core) (j : nat) : option core :=
  if bool_decide (i = j) then Some c else cs j.

Definition set_flag (i : nat) (b : bool) (f : nat → bool) (j : nat) : bool :=
  if bool_decide (i = j) then b else f j.

Lemma set_core_eq i c cs : set_core i c cs i = Some c.
Proof. unfold set_core. by rewrite bool_decide_true. Qed.
Lemma set_core_ne i j c cs : i ≠ j → set_core i c cs j = cs j.
Proof. intros. unfold set_core. by rewrite bool_decide_false. Qed.
Lemma set_flag_eq i b f : set_flag i b f i = b.
Proof. unfold set_flag. by rewrite bool_decide_true. Qed.
Lemma set_flag_ne i j b f : i ≠ j → set_flag i b f j = f j.
Proof. intros. unfold set_flag. by rewrite bool_decide_false. Qed.
Create Rewrite HintDb heavy_io.
Hint Rewrite set_core_eq set_flag_eq : heavy_io.
Hint Rewrite set_core_ne set_flag_ne using done : heavy_io.

(** Splits on whether a process is the one that moved. *)
Ltac at_process i j :=
  destruct (decide (i = j)) as [->|Hne]; autorewrite with heavy_io.

(** A running process holds its locks, whoever calls. *)
Lemma running_view cs fs mk checked creator i r par p :
  lock_inv cs fs mk checked creator → cs i = Some (r, par, p) → prog_running p = true →
  match locks_of r with
  | Some ls => lock_view i fs = rev (lr_locks ls) ∧ checked i = true
  | None => lock_view i fs = []
  end.
Proof.
  intros Hi Hc Hp. pose proof (li_program _ _ _ _ _ Hi _ _ _ _ Hc) as Hw.
  destruct p as [|X o k]; [done|]. destruct o; try done. destruct Hw as [Hw _]. done.
Qed.

Lemma lock_inv_new cs fs mk checked creator i r par p :
  lock_inv cs fs mk checked creator → cs i = None →
  (∀ c, lwp (locks_of r) p (λ _ g, g.1 = []) ([], c)) →
  (∀ q, par = Some q → ∃ rq parq pq, cs q = Some (rq, parq, pq) ∧ prog_running pq = true ∧ is_worker rq = true) →
  lock_inv (set_core i (r, par, p) cs) fs mk (set_flag i false checked) creator.
Proof.
  intros Hi Hn Hp Hpar.
  assert (Hv : lock_view i fs = []).
  { destruct (lock_view i fs) as [|l v] eqn:Hv; [done|].
    assert (Hl : l ∈ lock_view i fs) by (rewrite Hv; set_solver).
    apply elem_of_lock_view in Hl as (f & Hf & <- & _).
    apply (li_owned _ _ _ _ _ Hi) in Hf as [? Hf]. congruence. }
  split.
  - apply Hi.
  - intros f Hf. at_process i (fl_owner f); [done|]. by apply (li_owned _ _ _ _ _ Hi).
  - intros j r' par' p'. at_process i j.
    + intros [= <- <- <-]. rewrite Hv. apply Hp.
    + apply Hi.
  - intros j r' q p' Hj Hf.
    assert (Hq : ∃ rq parq pq, cs q = Some (rq, parq, pq) ∧ prog_running pq = true ∧ is_worker rq = true).
    { revert Hj. at_process i j; [intros [= <- -> <-]; by apply Hpar|]. intros Hj. by apply (li_parent _ _ _ _ _ Hi _ _ _ _ Hj). }
    destruct Hq as (rq & parq & pq & Hq & Hr & Hwk). exists rq, parq, pq.
    rewrite set_core_ne; [done|]. intros ->. congruence.
  - intros j r' par' p'. at_process i j; [done|]. apply Hi.
  - intros j r' par' p' ls m. at_process i j; [done|]. apply Hi.
Qed.

(** The parent of a live process is running, hence not the one that ends a body
    or dies without live children. *)
Lemma lock_inv_children cs fs mk checked creator i r par p :
  lock_inv cs fs mk checked creator → cs i = Some (r, par, p) →
  (prog_running p = true → ∀ j rj pj, cs j = Some (rj, Some i, pj) → prog_finished pj = true) →
  ∀ j rj pj, cs j = Some (rj, Some i, pj) → prog_finished pj = true.
Proof.
  intros Hi Hc Hno j rj pj Hj. destruct (prog_finished pj) eqn:Hf; [done|].
  destruct (li_parent _ _ _ _ _ Hi _ _ _ _ Hj Hf) as (rq & parq & pq & Hq & Hr & _).
  rewrite Hq in Hc. simplify_eq. rewrite (Hno Hr _ _ _ Hj) in Hf. done.
Qed.

(** A process that moves on: its locks follow [v], and the others keep theirs. *)
Lemma lock_inv_move cs fs fs' mk checked creator i r par p p' b :
  lock_inv cs fs mk checked creator → cs i = Some (r, par, p) →
  (∀ j rj pj, cs j = Some (rj, Some i, pj) → prog_finished pj = true) →
  StronglySorted compatible fs' →
  (∀ j, j ≠ i → lock_view j fs' = lock_view j fs) →
  (∀ f, f ∈ fs' → f ∈ fs ∨ fl_owner f = i) →
  lwp (locks_of r) p' (λ _ g, g.1 = []) (lock_view i fs', b) →
  (prog_finished p = true → prog_finished p' = true) →
  (b = true → ∃ ls, locks_of r = Some ls ∧ lock_view i fs' = rev (lr_locks ls)) →
  (b = true → ∀ ls m, inherits r = false → locks_of r = Some ls → mk = Some m →
     marker_conflicts ls (Some m) = false) →
  lock_inv (set_core i (r, par, p') cs) fs' mk (set_flag i b checked) creator.
Proof.
  intros Hi Hc Hno Hs Hother Howned Hp Hfin Hb Hfence. split.
  - done.
  - intros f Hf. at_process i (fl_owner f); [done|].
    apply Howned in Hf as [Hf|]; [by apply (li_owned _ _ _ _ _ Hi)|congruence].
  - intros j r' par' q'. at_process i j; [by intros [= <- <- <-]|].
    rewrite Hother by congruence. apply Hi.
  - intros j r' q p'' Hj Hf.
    assert (Hq : ∃ rq parq pq, cs q = Some (rq, parq, pq) ∧ prog_running pq = true ∧ is_worker rq = true).
    { revert Hj. at_process i j; [|intros Hj; by apply (li_parent _ _ _ _ _ Hi _ _ _ _ Hj)].
      intros [= <- -> <-]. apply (li_parent _ _ _ _ _ Hi _ _ _ _ Hc).
      destruct (prog_finished p); [|done]. by rewrite Hfin in Hf. }
    destruct Hq as (rq & parq & pq & Hq & Hr & Hwk). exists rq, parq, pq.
    rewrite set_core_ne; [done|]. intros <-.
    revert Hj. at_process i j.
    + intros [= <- -> <-]. rewrite Hc in Hq. simplify_eq. specialize (Hno _ _ _ Hc).
      by destruct pq.
    + intros Hj. by rewrite (Hno _ _ _ Hj) in Hf.
  - intros j r' par' q'. at_process i j; [by intros [= <- <- <-]|].
    rewrite Hother by congruence. apply Hi.
  - intros j r' par' q' ls m. at_process i j; [|apply Hi].
    intros [= <- <- <-] Hbt Hr Hls Hm Hcf. by rewrite (Hfence Hbt ls m) in Hcf.
Qed.

(** A call that leaves its process checked leaves it without conflict. *)
Lemma call_fenced {X} cs fs fs' m checked creator i r par (o : op X) k x ls :
  lock_inv cs fs (Some m) checked creator → cs i = Some (r, par, Act o k) →
  lock_effect i o x fs fs' (Some m) →
  (lock_track (locks_of r) X o x (lock_view i fs, checked i)).2 = true →
  inherits r = false → locks_of r = Some ls → marker_conflicts ls (Some m) = false.
Proof.
  intros Hi Hc He Hb Hr Hls. destruct (marker_conflicts ls (Some m)) eqn:Hm; [|done].
    assert (Hold : checked i = true → False).
    { intros Hch. destruct (li_fenced _ _ _ _ _ Hi _ _ _ _ _ _ Hc Hch Hr Hls eq_refl Hm) as [_ Hrun].
      cbn in Hrun. destruct o; try done. }
    destruct o; cbn in Hb; try (by destruct (Hold Hb)); try done.
    + destruct x as [[]|]; [done|by destruct (Hold Hb)..].
    + destruct He as [_ He]. destruct x as [m'|]; [|done]. subst m'. rewrite Hls in Hb.
      rewrite Hm in Hb. by rewrite andb_false_r in Hb.
Qed.

Lemma lock_inv_call {X} cs fs fs' mk checked creator i r par (o : op X) k x :
  lock_inv cs fs mk checked creator → cs i = Some (r, par, Act o k) →
  (is_yield o = true → ∀ j rj pj, cs j = Some (rj, Some i, pj) → prog_finished pj = true) →
  lock_effect i o x fs fs' mk →
  lock_inv (set_core i (r, par, k x) cs) fs' mk
    (set_flag i (lock_track (locks_of r) X o x (lock_view i fs, checked i)).2 checked) creator.
Proof.
  intros Hi Hc Hno He.
  destruct (lock_effect_view (locks_of r) i o x fs fs' mk (checked i) (li_compatible _ _ _ _ _ Hi) He)
    as (Hs & Hv & Hother & Howned).
  pose proof (li_program _ _ _ _ _ Hi _ _ _ _ Hc) as [Hbefore Hw].
  eapply lock_inv_move; eauto; [by eapply lock_inv_children| | | |].
  - rewrite Hv. rewrite <- surjective_pairing. apply Hw.
  - done.
  - rewrite Hv. pose proof (li_checked _ _ _ _ _ Hi _ _ _ _ Hc) as Hch. clear He Hw Hbefore.
    destruct o; cbn; try done; try (by destruct x as [[]|]).
    destruct x as [m|]; [|done]. destruct (locks_of r) as [ls|]; [|done].
    intros [Hb _]%andb_true_iff. apply bool_decide_eq_true in Hb. eauto.
  - intros Hb ls m Hr Hls ->. by eapply call_fenced.
Qed.

Lemma lock_inv_crash cs fs mk checked creator i r par p :
  lock_inv cs fs mk checked creator → cs i = Some (r, par, p) →
  (∀ j rj pj, cs j = Some (rj, Some i, pj) → prog_finished pj = true) →
  lock_inv (set_core i (r, par, Ret tt) cs) (drop_owner i fs) mk (set_flag i false checked) creator.
Proof.
  intros Hi Hc Hno. eapply lock_inv_move; eauto; try done.
  - by apply sorted_filter, Hi.
  - intros j Hj. by apply lock_view_drop.
  - intros f Hf. left. apply list_elem_of_In, List.filter_In in Hf. apply list_elem_of_In. tauto.
  - cbn. by rewrite lock_view_dropped.
Qed.

(** ** The shape of the lock sets *)

Lemma local_lock_shape workload src lane ls :
  local_lock_for_workload digest barrier_file workload src lane = Ok (Some ls) →
  (ls = mkLocks [mkLock barrier_file false] true) ∨
  (workload_profile_name (Some workload) ≠ u "maintenance" ∧ mkLock barrier_file true ∈ lr_locks ls ∧
   (lr_remote_exclusive ls = true → mkLock (u "lane-background.lock") false ∈ lr_locks ls)).
Proof.
  unfold local_lock_for_workload. cbn zeta.
  destruct (bool_decide (workload_conflict_group workload = _)) eqn:Hg; [intros [= <-]; by left|].
  apply bool_decide_eq_false in Hg.
  destruct (bool_decide (_ = u "light")); [done|].
  destruct (resource_budget_token_key workload lane) as [token|] eqn:Ht; [|done].
  cbn. intros [= <-]. right. split_and!.
  - intros Hp. apply Hg. unfold workload_conflict_group. cbn zeta. by rewrite Hp.
  - cbn. set_solver.
  - cbn. intros Hx. apply bool_decide_eq_true in Hx. rewrite Hx. unfold lane_lock_file.
    rewrite bool_decide_false, bool_decide_true by done. cbn. set_solver.
Qed.

(** The lock set of a process that inherits nothing. *)
Lemma role_locks_own r ls : inherits r = false → locks_of r = Some ls →
  ∃ src lane, local_lock_for_workload digest barrier_file (role_workload r) src lane = Ok (Some ls).
Proof.
  unfold inherits. destruct r as [a|a|fuel cfg s|fuel job q owner]; cbn;
    unfold slot_locks; intros Hin; rewrite ?Hin.
  1,3: destruct (local_lock_for_workload _ _ _ _ _) eqn:Hl; [intros ->; eauto|done].
  - destruct (local_lock_for_workload _ _ _ _ _) eqn:Hl; [intros ->; eauto|done].
  - destruct (_ && _); [|done]. destruct (local_lock_for_workload _ _ _ _ _) eqn:Hl; [intros ->; eauto|done].
Qed.

Definition clash (la lb : LocalResourceLocks) : Prop :=
  ∃ a b, a ∈ lr_locks la ∧ b ∈ lr_locks lb ∧ lk_path a = lk_path b ∧ (lk_shared a && lk_shared b) = false.

(** The set of a maintenance process meets every other. *)
Lemma maintenance_locks r ls : inherits r = false → locks_of r = Some ls →
  profile_of r = u "maintenance" → ls = mkLocks [mkLock barrier_file false] true.
Proof.
  intros Hin Hls Hp. destruct (role_locks_own r ls Hin Hls) as (src & lane & Hl).
  destruct (local_lock_shape _ _ _ _ Hl) as [|[Hne _]]; [done|]. by destruct Hne.
Qed.

Lemma barrier_clash r ls : inherits r = false → locks_of r = Some ls →
  clash (mkLocks [mkLock barrier_file false] true) ls.
Proof.
  intros Hin Hls. destruct (role_locks_own r ls Hin Hls) as (src & lane & Hl).
  destruct (local_lock_shape _ _ _ _ Hl) as [->|(_ & Hb & _)].
  - exists (mkLock barrier_file false), (mkLock barrier_file false). split_and!; [set_solver..|done|done].
  - exists (mkLock barrier_file false), (mkLock barrier_file true). split_and!; [set_solver..|done|done|done].
Qed.

Lemma clash_sym la lb : clash la lb → clash lb la.
Proof. intros (a & b & ? & ? & ? & Hs). exists b, a. rewrite andb_comm in Hs. split_and!; congruence. Qed.

Lemma exclusive_clash r r' ls ls' :
  inherits r = false → locks_of r = Some ls → lr_remote_exclusive ls = true →
  inherits r' = false → locks_of r' = Some ls' → lr_remote_exclusive ls' = true →
  clash ls ls'.
Proof.
  intros Hin Hls Hx Hin' Hls' Hx'.
  destruct (role_locks_own r ls Hin Hls) as (src & lane & Hl).
  destruct (role_locks_own r' ls' Hin' Hls') as (src' & lane' & Hl').
  destruct (local_lock_shape _ _ _ _ Hl) as [->|(_ & _ & Hb)]; [by apply (barrier_clash r')|].
  destruct (local_lock_shape _ _ _ _ Hl') as [->|(_ & _ & Hb')]; [by apply clash_sym, (barrier_clash r)|].
  exists (mkLock (u "lane-background.lock") false), (mkLock (u "lane-background.lock") false).
  split_and!; auto.
Qed.

Lemma not_inherited r : role_inherited r = None → inherits r = false.
Proof.
  unfold role_inherited, inherits. destruct (role_args r) as [a|]; [|done].
  unfold inherited_flock. cbn. by intros ->.
Qed.

(** Two processes never hold clashing sets together. *)
Lemma views_compatible fs i j ls ls' :
  StronglySorted compatible fs → i ≠ j →
  lock_view i fs = rev (lr_locks ls) → lock_view j fs = rev (lr_locks ls') → ¬ clash ls ls'.
Proof.
  intros Hs Hne Hi Hj (a & b & Ha & Hb & Hp & Hsh).
  assert (Ha' : a ∈ lock_view i fs) by (rewrite Hi; by rewrite list_elem_of_In, <- in_rev, <- list_elem_of_In).
  assert (Hb' : b ∈ lock_view j fs) by (rewrite Hj; by rewrite list_elem_of_In, <- in_rev, <- list_elem_of_In).
  apply elem_of_lock_view in Ha' as (f & Hf & Hfo & <-), Hb' as (g & Hg & Hgo & <-).
  destruct (sorted_pair compatible fs f g compatible_sym Hs Hf Hg) as [H1 H2]; [congruence|done|].
  cbn in Hsh. by rewrite H1, H2 in Hsh.
Qed.

(** ** The marker *)

Lemma lock_inv_marker cs fs mk mk' checked creator :
  lock_inv cs fs mk checked creator →
  (∀ m', mk' = Some m' → ∃ m, mk = Some m ∧ fm_profile m' = fm_profile m) →
  lock_inv cs fs mk' checked creator.
Proof.
  intros Hi Hm. destruct Hi as [H1 H2 H3 H4 H5 H6]. split; [done..|].
  intros i r par p ls m' Hc Hch Hr Hls -> Hcf. destruct (Hm m' eq_refl) as (m & -> & Hp).
  eapply H6; eauto. unfold marker_conflicts in *. by rewrite <- Hp.
Qed.

Lemma lock_inv_create cs fs checked creator i r par p ls m :
  lock_inv cs fs None checked creator → cs i = Some (r, par, p) → prog_running p = true →
  inherits r = false → locks_of r = Some ls → lr_remote_exclusive ls = true →
  (fm_profile m = u "maintenance" → profile_of r = u "maintenance") →
  lock_inv cs fs (Some m) checked (Some i).
Proof.
  intros Hi Hc Hrun Hin Hls Hx Hm.
  pose proof (running_view _ _ _ _ _ _ _ _ _ Hi Hc Hrun) as Hv. rewrite Hls in Hv. destruct Hv as [Hv _].
  destruct Hi as [H1 H2 H3 H4 H5 H6]. split; [done..|].
  intros j r' par' p' ls' m' Hc' Hch' Hin' Hls' [= <-] Hcf.
  destruct (decide (i = j)) as [<-|Hne]; [split; congruence|].
  destruct (H5 _ _ _ _ Hc' Hch') as (ls'' & Hls'' & Hv'). rewrite Hls' in Hls''. injection Hls'' as <-.
  exfalso. eapply (views_compatible fs i j ls ls'); eauto.
  cbn in Hcf. apply orb_true_iff in Hcf as [Hx'|Hp].
  - by apply (exclusive_clash r r').
  - apply bool_decide_eq_true in Hp. rewrite (maintenance_locks r ls) by auto. by apply (barrier_clash r').
Qed.

(** ** Every step *)

Lemma cores_insert w i s j : cores (set_slots (<[i := s]> (w_slots w)) w) j = set_core i (core_of s) (cores w) j.
Proof.
  unfold cores, set_core. cbn. case_bool_decide as Hij; [subst j; by rewrite lookup_insert_eq|].
  by rewrite lookup_insert_ne.
Qed.

Lemma cores_lookup w i s : w_slots w !! i = Some s → cores w i = Some (core_of s).
Proof. unfold cores. by intros ->. Qed.

Lemma no_live_child i w : has_live_child i w = false →
  ∀ j rj pj, cores w j = Some (rj, Some i, pj) → prog_finished pj = true.
Proof.
  intros Hn j rj pj Hj. destruct (prog_finished pj) eqn:Hf; [done|].
  unfold cores in Hj. destruct (w_slots w !! j) as [s|] eqn:Hs; [|done].
  cbn in Hj. unfold core_of in Hj. simplify_eq.
  rewrite <- Hn. unfold has_live_child. apply existsb_exists. exists (j, s).
  split; [by apply list_elem_of_In, elem_of_map_to_list|]. cbn. rewrite bool_decide_true by done.
  unfold finished. unfold prog_finished in Hf. by rewrite Hf.
Qed.

Definition lock_ok (w : World) : Prop :=
  ∃ checked creator, lock_inv (cores w) (w_flocks w) (w_marker w) checked creator.

Lemma lock_ok_step w w' : step digest barrier_file w w' → lock_ok w → lock_ok w'.
Proof.
  intros Hstep (checked & creator & Hi). unfold lock_ok.
  destruct Hstep as [i r Hn Hin|q s i r Hq Hrun Hn Hin Hw|i s X o k c Hs Hp Hy|i s Hs Hno|t Ht
    |i s ks v seconds k Hs Hr Hk| |h m q|i s ls receipt workload m ok Hs Hrun Hin Hls Hx Hm Hcr|receipt ok|receipt uid m Hrec].
  - do 2 eexists. eapply lock_inv_ext; [apply cores_insert|].
    apply lock_inv_new; [done|by unfold cores; rewrite Hn|intros c; apply lwp_program|done].
  - do 2 eexists. eapply lock_inv_ext; [apply cores_insert|].
    apply lock_inv_new; [done|by unfold cores; rewrite Hn|intros c; apply lwp_program|].
    intros ? [= <-]. apply cores_lookup in Hq. by exists (sl_role s), (sl_parent s), (sl_prog s).
  - destruct (exec_frame c i w o) as (Hmk & Hcs & He).
    apply cores_lookup in Hs. unfold core_of in Hs. rewrite Hp in Hs.
    do 2 eexists. eapply lock_inv_ext; [|cbn; rewrite Hmk; eapply (lock_inv_call _ _ _ _ _ _ i _ _ o k); eauto].
    + intros j. rewrite cores_set_prog. unfold set_core. case_bool_decide; [|apply Hcs].
      subst j. by rewrite Hcs, Hs.
    + intros Hyo. by apply no_live_child, Hy.
  - apply cores_lookup in Hs. do 2 eexists.
    eapply lock_inv_ext; [|eapply (lock_inv_crash _ _ _ _ _ i); [done|exact Hs|by apply no_live_child]].
    intros j. unfold cores, with_slot, set_core. cbn. case_bool_decide as Hij; [subst j|by rewrite lookup_alter_ne].
    rewrite lookup_alter_eq. unfold cores, core_of in Hs. destruct (w_slots w !! i); [|done].
    cbn in Hs |- *. unfold core_of, mark_crashed. cbn. injection Hs as <- <- _. done.
  - by exists checked, creator.
  - by exists checked, creator.
  - by exists checked, creator.
  - by exists checked, creator.
  - destruct (w_marker w) as [m0|] eqn:Hmk; cbn in Hcr.
    + destruct (bool_decide (fm_owner m0 = receipt)); [|done]. injection Hcr as <-.
      exists checked, creator. by destruct (ok && _).
    + injection Hcr as <-. apply cores_lookup in Hs. exists checked, (Some i).
      destruct ok; cbn; (eapply lock_inv_create; [exact Hi|exact Hs|..]; eauto using not_inherited).
  - exists checked, creator.
    assert (Hl : lock_inv (cores w) (w_flocks w) (clear_marker receipt (w_marker w)) checked creator).
    { eapply lock_inv_marker; [done|]. intros m'. unfold clear_marker.
      destruct (w_marker w) as [m|]; [|done]. destruct (bool_decide _); [done|]. intros [= <-]. eauto. }
    by destruct (ok && _).
  - exists checked, creator. eapply lock_inv_marker; [done|]. intros m' [= <-].
    unfold record_task in Hrec. destruct (w_marker w) as [m0|]; [|done].
    destruct (bool_decide _); [|done]. injection Hrec as <-. by exists m0.
Qed.

Lemma lock_ok_reachable w : reachable digest barrier_file w → lock_ok w.
Proof.
  intros (host & memory & Hr). apply (rtc_ind_r (λ w, lock_ok w)) in Hr; [done|..].
  - exists (λ _, false), None. split; cbn; try done; [constructor|]. intros f Hf. by apply elem_of_nil in Hf.
  - intros x y _ Hxy Hx. by eapply lock_ok_step.
Qed.
End Exclusion.
