(* ===== verification/HeavyIOLeases.v ===== *)
(** * Heavy-I/O leases: Redis keys and memory

    Which keys a process may write, what it leaves behind, and the bound on the
    memory reserved by the lanes, over every interleaving, loss of answers,
    expiry and restart of Redis. *)

From stdpp Require Import base gmap strings list numbers relations.
From Stdlib Require Import QArith.
From S2P Require Import Prelude PyStr Pressure Programs HeavyIO HeavyIOWorker HeavyIOWorld HeavyIOFacts.

Open Scope string_scope.
Open Scope list_scope.
Open Scope Z_scope.

Definition LANE_KEYS : list pystr :=
  [RESOURCE_NETWORK_TOKEN_KEY; RESOURCE_DISK_TOKEN_KEY; RESOURCE_BACKGROUND_TOKEN_KEY].

(** ** The calls of a process *)

(** Plain keys are set outside the reservation keys; a reservation goes to a
    lane and records what it asked for. *)
Definition lawful (i : nat) (X : Type) (o : op X) : Prop :=
  match o with
  | SetNX k v _ => ¬ (k ∈ RESOURCE_RESERVATION_KEYS) ∧ k ≠ LAST_BACKGROUND_KEY ∧ (lv_token v).1 = i
  | ReserveMemory k v requested capacity seconds =>
      k ∈ LANE_KEYS ∧ lv_reserved_bytes v = requested ∧ lv_capacity_bytes v = capacity ∧
      0 <= requested ∧ 0 < seconds ∧ (lv_token v).1 = i
  | _ => True
  end.

(** Calls that never write a lease. *)
Definition no_writes (X : Type) (o : op X) : Prop :=
  match o with SetNX _ _ _ | ReserveMemory _ _ _ _ _ => False | _ => True end.

Lemma no_writes_lawful i X (o : op X) : no_writes X o → lawful i X o.
Proof. by destruct o. Qed.

Lemma lawful_of {A} i (p : program A) : only no_writes p → only (lawful i) p.
Proof. apply only_mono, no_writes_lawful. Qed.

Lemma no_writes_release_each v keys released : only no_writes (release_each v keys released).
Proof. revert released. induction keys; intros released; cbn; [done|]. split; [done|]. auto. Qed.

Lemma no_writes_release_keys l keys : only no_writes (_release_keys l keys).
Proof. apply only_bind; [apply no_writes_release_each|]. by intros []. Qed.

Lemma no_writes_then {A} l keys (a : A) : only no_writes (_release_keys l keys ≫= λ _, Ret a).
Proof. apply only_bind; [apply no_writes_release_keys|done]. Qed.

Lemma no_writes_lease_release l b : only no_writes (lease_release l b).
Proof. destruct b; [|done]. split; [done|]. intros ?. apply no_writes_release_keys. Qed.

Lemma no_writes_release_locks held : only no_writes (release_locks held).
Proof. induction held; cbn; [done|]. by split. Qed.

Lemma no_writes_locks_release ls b : only no_writes (locks_release ls b).
Proof. destruct b; [apply no_writes_release_locks|done]. Qed.

Lemma no_writes_cleanup local lease : only no_writes (slot_cleanup local lease).
Proof.
  apply only_bind; [destruct local as [[]|]; [apply no_writes_locks_release|done]|].
  intros ?. destruct lease as [[]|]; [apply no_writes_lease_release|done].
Qed.

Lemma no_writes_cleanup_then {A} local lease (a : A) : only no_writes (slot_cleanup local lease ≫= λ _, Ret a).
Proof. apply only_bind; [apply no_writes_cleanup|done]. Qed.

Lemma no_writes_acquire ls acquired todo : only no_writes (acquire_locks ls acquired todo).
Proof.
  assert (Hr : ∀ r : result exn bool, only no_writes (release_locks acquired ≫= λ _, Ret r)).
  { intros r. apply only_bind; [apply no_writes_release_locks|done]. }
  revert acquired Hr. induction todo as [|l todo IH]; intros acquired Hr; cbn; (split; [done|]).
  - intros [m|e]; [|apply Hr]. destruct (marker_conflicts ls m); [apply Hr|done].
  - intros [[]|e]; [|apply Hr..]. apply IH. intros r. apply only_bind; [apply no_writes_release_locks|done].
Qed.

Section Writes.
Context `{Unicode} (digest : pystr → pystr) (barrier_file : pystr).

Lemma no_writes_details host workload : only no_writes (resource_reservation_details host workload).
Proof.
  unfold resource_reservation_details. destruct (hs_available_bytes host), (hs_hard_floor host); try done.
  split; [done|]. by intros [].
Qed.

Lemma no_writes_permitted workload : only no_writes (resource_profile_permitted workload).
Proof. split; [done|]. intros host. cbn. by destruct (resource_profile_permit _ _). Qed.

Lemma no_writes_slot_permit a : only no_writes (slot_permit a).
Proof.
  unfold slot_permit. destruct (takes_lease a); [|done].
  apply only_bind; [apply no_writes_permitted|]. intros [[permitted host] reason].
  destruct permitted; [|only_auto].
  destruct (_ && _); [|done]. split; [done|]. intros [[]|]; only_auto.
Qed.

Lemma no_writes_try_permit a : only no_writes (try_permit a).
Proof.
  unfold try_permit. destruct (inherited_flock a); [done|].
  apply only_bind; [apply no_writes_permitted|]. intros [[permitted host] reason].
  destruct permitted; [|only_auto].
  destruct (bool_decide _); [done|]. split; [done|]. intros [[]|]; only_auto.
Qed.

Lemma no_writes_slot_local a : only no_writes (slot_local digest barrier_file a).
Proof.
  unfold slot_local. destruct (slot_locks _ _ a) as [[ls|]|]; [|done..].
  apply only_bind; [apply no_writes_acquire|]. intros [[]|[|[]| |]]; only_auto.
Qed.

Lemma no_writes_try_local a : only no_writes (try_local digest barrier_file a).
Proof.
  unfold try_local. destruct (inherited_flock a); [done|].
  destruct (local_lock_for_workload _ _ _ _ _) as [[ls|]|]; [|done..].
  apply only_bind; [apply no_writes_acquire|]. intros [[]|[|[]| |]]; only_auto.
Qed.

Lemma no_writes_wait fuel workload attempt : only no_writes (wait_for_resource_capacity fuel workload attempt).
Proof.
  revert attempt. induction fuel as [|fuel IH]; intros attempt; [done|].
  apply only_bind; [apply no_writes_permitted|]. intros [[permitted host] reason].
  destruct permitted; [only_auto|]. split; [done|]. intros ?. split; [done|]. intros y. cbn.
  destruct (if bool_decide _ then _ else _); [|done]. split; [done|]. intros ?. apply IH.
Qed.

Lemma no_writes_worker_permit workload hard_only : only no_writes (worker_permit workload hard_only).
Proof.
  split; [done|]. intros host. cbn. destruct (resource_profile_permit _ _).
  by destruct (if hard_only && _ && _ then _ else _).
Qed.

Lemma no_writes_parent_locks workload : only no_writes (parent_locks digest barrier_file workload).
Proof.
  unfold parent_locks. destruct (local_lock_for_workload _ _ _ _ _) as [[ls|]|]; [|done..].
  apply only_bind; [apply no_writes_acquire|]. intros [|[|[]| |]]; only_auto.
Qed.

(** ** Leases *)

(** A lease as the slots build it: only its reservation key, if any, is a lane. *)
Definition lawful_lease (i : nat) (l : RenewableRedisLease) : Prop :=
  (lv_token (ls_value l)).1 = i ∧
  lv_reserved_bytes (ls_value l) = ls_reservation_bytes l ∧
  lv_capacity_bytes (ls_value l) = ls_reservation_capacity l ∧
  0 <= ls_reservation_bytes l ∧ 0 < ls_seconds l ∧
  ∀ k, k ∈ ls_keys l →
    if bool_decide (Some k = ls_reservation_key l) then k ∈ LANE_KEYS
    else ¬ (k ∈ RESOURCE_RESERVATION_KEYS) ∧ k ≠ LAST_BACKGROUND_KEY.

Lemma lawful_acquire_keys i l acquired todo : lawful_lease i l → (∀ k, k ∈ todo → k ∈ ls_keys l) →
  only (lawful i) (acquire_keys l acquired todo).
Proof.
  intros (Ht & Hr & Hc & Hp & Hs & Hk). revert acquired. induction todo as [|k todo IH]; intros acquired Hin; cbn; [done|].
  pose proof (Hk k (Hin k ltac:(set_solver))) as Hkk.
  assert (Hrest : ∀ acquired, only (lawful i) (acquire_keys l acquired todo)).
  { intros acq. apply IH. intros k' Hk'. apply Hin. set_solver. }
  destruct (bool_decide (Some k = ls_reservation_key l)); split.
  - done.
  - intros [code|e]; [|apply lawful_of, no_writes_then].
    destruct (code =? 1); [apply Hrest|apply lawful_of, no_writes_then].
  - by destruct Hkk.
  - intros [[]|e]; [apply Hrest|apply lawful_of, no_writes_then..].
Qed.

Lemma lawful_try_acquire i l : lawful_lease i l → only (lawful i) (lease_try_acquire l).
Proof.
  intros Hl. split; [done|]. intros [m|e]; [|apply lawful_of, no_writes_then]. cbn.
  match goal with |- context [if ?b then _ else _] => destruct b end; [done|].
  by apply lawful_acquire_keys.
Qed.

(** The keys of a slot: its token and keys outside the reservations. *)
Definition plain_key (k : pystr) : Prop := ¬ (k ∈ RESOURCE_RESERVATION_KEYS) ∧ k ≠ LAST_BACKGROUND_KEY.

Lemma plain_heavy : plain_key HEAVY_IO_LOCK_KEY.
Proof. split; [|done]. intros Hk. by repeat apply elem_of_cons in Hk as [Hk|Hk]; [..|apply elem_of_nil in Hk]. Qed.

Lemma plain_profile x : plain_key (u "lock:resource-profile:" ++ x).
Proof. split; [|done]. intros Hk. by repeat apply elem_of_cons in Hk as [Hk|Hk]; [..|apply elem_of_nil in Hk]. Qed.

Lemma plain_source x : plain_key (source_lock_key digest x).
Proof. split; [|done]. intros Hk. by repeat apply elem_of_cons in Hk as [Hk|Hk]; [..|apply elem_of_nil in Hk]. Qed.

Lemma new_lease_lawful i n keys workload owner seconds reservation bytes capacity :
  (∀ k, reservation = Some k → k ∈ LANE_KEYS) →
  (∀ k, k ∈ keys → reservation = Some k ∨ plain_key k) →
  lawful_lease i (new_lease (i, n) keys workload owner seconds reservation bytes capacity).
Proof.
  intros Hres Hkeys. unfold new_lease. cbn zeta. split_and!; [done..|cbn; lia|cbn; lia|].
  cbn [ls_keys ls_reservation_key].
  destruct reservation as [k0|]; cbn [mbind option_bind]; [case_bool_decide as Hin|].
  - intros k Hk. case_bool_decide as Heq.
    + injection Heq as ->. by apply Hres.
    + apply elem_of_cons in Hk as [->|Hk]; [done|].
      apply list_elem_of_In, List.filter_In in Hk as [Hk _].
      rewrite <- list_elem_of_In, elem_of_fromkeys in Hk.
      destruct (Hkeys k Hk); [congruence|done].
  - intros k Hk. rewrite bool_decide_false by done. pose proof Hk as Hk'. rewrite elem_of_fromkeys in Hk'.
    destruct (Hkeys k Hk') as [[= ->]|]; done.
  - intros k Hk. rewrite elem_of_fromkeys in Hk. by destruct (Hkeys k Hk).
Qed.

Lemma token_key_lane workload lane k : resource_budget_token_key workload lane = Ok (Some k) →
  k ∈ LANE_KEYS ∨ k = HEAVY_IO_LOCK_KEY.
Proof. unfold resource_budget_token_key. cbn zeta. repeat case_match; intros; simplify_eq; auto; left; set_solver. Qed.

Lemma profile_key_plain workload lane k : profile_lease_key workload lane = Some k → plain_key k.
Proof.
  unfold profile_lease_key. destruct (workload_conflict_group workload); [|done].
  case_bool_decide; intros [= <-]; [apply plain_heavy|apply plain_profile].
Qed.

(** The reservation key a token gives. *)
Definition lane_token (token : option pystr) : option pystr :=
  token ≫= λ k, if bool_decide (k ∈ RESOURCE_RESERVATION_KEYS) then Some k else None.

Lemma lane_token_lane workload lane token k :
  resource_budget_token_key workload lane = Ok token → lane_token token = Some k → k ∈ LANE_KEYS.
Proof.
  intros Ht. unfold lane_token. destruct token as [k0|]; [|done]. cbn. case_bool_decide as Hr; [|done].
  intros [= ->]. destruct (token_key_lane _ _ _ Ht) as [| ->]; [done|]. by destruct plain_heavy.
Qed.

Lemma lease_keys_plain workload lane keys token k :
  resource_lease_keys workload lane = Ok keys → resource_budget_token_key workload lane = Ok token →
  k ∈ keys → lane_token token = Some k ∨ plain_key k.
Proof.
  unfold resource_lease_keys. intros Hk Ht. rewrite Ht in Hk. injection Hk as <-.
  intros Hkk. rewrite elem_of_fromkeys in Hkk. apply (list_elem_of_omap id [token; profile_lease_key workload lane]) in Hkk.
  destruct Hkk as (x & Hx & Hxk). unfold id in Hxk. subst x.
  apply elem_of_cons in Hx as [Hx|Hx]; [|apply elem_of_cons in Hx as [Hx|Hx]; [|by apply elem_of_nil in Hx]].
  - subst token. destruct (token_key_lane _ _ _ Ht) as [Hl| ->]; [left|right; apply plain_heavy].
    unfold lane_token. cbn. rewrite bool_decide_true; [done|]. revert Hl. unfold LANE_KEYS, RESOURCE_RESERVATION_KEYS.
    rewrite !elem_of_cons. tauto.
  - right. by eapply profile_key_plain.
Qed.

Lemma slot_keys_plain a keys token k :
  slot_keys digest a = Ok keys → resource_budget_token_key (sa_workload a) (sa_lane a) = Ok token →
  k ∈ keys → slot_reservation_key a token = Some k ∨ plain_key k.
Proof.
  unfold slot_keys, slot_reservation_key. intros Hk Ht Hin.
  destruct (takes_lease a).
  - destruct (resource_lease_keys (sa_workload a) (sa_lane a)) as [ks|] eqn:Hl; [|done].
    injection Hk as <-. apply elem_of_app in Hin as [Hin|Hin]; [by eapply lease_keys_plain|].
    right. destruct (sa_source a) as [[|c s]|]; [by apply elem_of_nil in Hin| |by apply elem_of_nil in Hin].
    apply list_elem_of_singleton in Hin as ->. apply plain_source.
  - injection Hk as <-. right. destruct (sa_source a) as [[|c s]|]; [by apply elem_of_nil in Hin| |by apply elem_of_nil in Hin].
    apply list_elem_of_singleton in Hin as ->. apply plain_source.
Qed.

(** ** Slots and workers *)

Lemma lawful_slot_lease i n a host keys : slot_keys digest a = Ok keys →
  only (lawful i) (slot_lease (i, n) a host keys).
Proof.
  intros Hk. unfold slot_lease. destruct keys as [|k0 keys]; [done|].
  apply only_bind; [apply lawful_of, no_writes_details|]. intros [requested capacity].
  destruct (capacity <? requested); [only_auto|].
  destruct (resource_budget_token_key (sa_workload a) (sa_lane a)) as [token|] eqn:Ht; [|done].
  apply only_bind.
  - apply lawful_try_acquire, new_lease_lawful.
    + intros k Hr. unfold slot_reservation_key in Hr. destruct token as [k'|]; [|done]. cbn in Hr.
      destruct (takes_lease a); [|done]. by eapply lane_token_lane.
    + intros k. by apply slot_keys_plain.
  - intros [[] denial]; [only_auto|]. destruct (takes_lease a); only_auto.
Qed.

Lemma lawful_heavy_io_slot i n a : only (lawful i) (heavy_io_slot digest barrier_file (i, n) a).
Proof.
  apply only_bind; [apply lawful_of, no_writes_slot_permit|]. intros [host|e]; [|done].
  destruct (slot_keys digest a) as [keys|e] eqn:Hk; [|done].
  apply only_bind; [by apply lawful_slot_lease|]. intros [[[]|e] lease]; [|apply lawful_of, no_writes_cleanup_then].
  apply only_bind; [apply lawful_of, no_writes_slot_local|]. intros [[[]|e] local].
  - split; [done|]. intros ?. split; [done|]. intros y. apply lawful_of, no_writes_cleanup_then.
  - apply lawful_of, no_writes_cleanup_then.
Qed.

Lemma lawful_default_lease i n workload owner keys token requested capacity :
  resource_lease_keys workload None = Ok keys → resource_budget_token_key workload None = Ok token →
  only (lawful i) (lease_try_acquire (new_lease (i, n) keys workload owner DEFAULT_LEASE_SECONDS
    (lane_token token) requested capacity)).
Proof.
  intros Hk Ht. apply lawful_try_acquire, new_lease_lawful.
  - intros k. by eapply lane_token_lane.
  - intros k. by eapply lease_keys_plain.
Qed.

Lemma lawful_try_slot i n a : only (lawful i) (try_heavy_io_slot digest barrier_file (i, n) a).
Proof.
  apply only_bind; [apply lawful_of, no_writes_try_permit|]. intros [host|]; [|done].
  assert (Hl : ∀ keys, (if inherited_flock a then Ok [] else resource_lease_keys (sa_workload a) None) = Ok keys →
    only (lawful i) (try_lease (i, n) a host keys)).
  { intros [|k keys] Hk; [done|]. apply only_bind; [apply lawful_of, no_writes_details|]. intros [requested capacity].
    destruct (capacity <? requested); [only_auto|].
    destruct (resource_budget_token_key (sa_workload a) None) as [token|] eqn:Ht; [|done].
    apply only_bind; [|intros [[] denial]; only_auto].
    apply lawful_default_lease; [|done]. by destruct (inherited_flock a). }
  destruct (if inherited_flock a then _ else _) as [keys|e]; [|done].
  apply only_bind; [by apply Hl|]. intros [[[]|e] lease]; [|apply lawful_of, no_writes_cleanup_then..].
  apply only_bind; [apply lawful_of, no_writes_try_local|]. intros [[[]|e] local]; [|apply lawful_of, no_writes_cleanup_then..].
  split; [done|]. intros ?. split; [done|]. intros y. apply lawful_of, no_writes_cleanup_then.
Qed.

Lemma lawful_adaptive fuel cfg i s attempt :
  only (lawful i) (adaptive_resource_slice digest barrier_file fuel cfg i s attempt).
Proof.
  revert attempt. induction fuel as [|fuel IH]; intros attempt; [done|].
  apply only_bind; [done|]. intros host. cbn zeta. destruct (sl_allowed _); cbn [negb].
  - apply only_bind; [apply lawful_heavy_io_slot|]. intros [elapsed|[reason|e| |]]; [only_auto| |done..].
    apply only_bind; [done|]. intros ?. destruct (sc_wait s); [|done].
    apply only_bind; [done|]. intros y. destruct (_adaptive_poll_seconds _ _ _); [|done].
    apply only_bind; [done|]. intros ?. apply IH.
  - destruct (sc_wait s); [|done]. apply only_bind; [apply lawful_of, no_writes_wait|].
    intros [[|]|]; [apply IH|done..].
Qed.

Lemma lawful_parent_take i n workload owner host :
  only (lawful i) (parent_take digest barrier_file (i, n) workload owner host).
Proof.
  apply only_bind.
  - unfold parent_lease. destruct (if bool_decide _ then _ else _) as [[|k keys]|e] eqn:Hk; [done| |done].
    apply only_bind; [apply lawful_of, no_writes_details|]. intros [requested capacity].
    destruct (capacity <? requested); [done|].
    destruct (resource_budget_token_key workload None) as [token|] eqn:Ht; [|done].
    apply only_bind; [|by intros [[] denial]].
    apply lawful_default_lease; [|done]. by destruct (bool_decide _).
  - intros [lease|e]; [|done]. apply only_bind; [apply lawful_of, no_writes_parent_locks|].
    intros [[[] locks]|e]; [done| |done]. apply only_bind; [|done].
    destruct lease; [apply lawful_of, no_writes_lease_release|done].
Qed.

Lemma lawful_admission fuel i job workload owner :
  only (lawful i) (_profile_admission digest barrier_file fuel i job workload owner).
Proof.
  induction fuel as [|fuel IH]; cbn [_profile_admission]; (destruct (bool_decide _); [done|]); [done|].
  assert (Hretry : ∀ reason, only (lawful i) (retry reason (_profile_admission digest barrier_file fuel i job workload owner))).
  { intros reason. split; [done|]. intros ?. split; [done|]. by intros []. }
  apply only_bind; [done|]. intros []; [done|].
  apply only_bind; [apply lawful_of, no_writes_worker_permit|]. intros [[permitted host] reason].
  destruct permitted; cbn [negb]; [|apply Hretry].
  apply only_bind; [done|]. intros []; [done|].
  unfold admission_attempt. cbn zeta.
  match goal with |- context [if bool_decide (is_Some _) then ?a else ?b] =>
    assert (Htake : only (lawful i) (if bool_decide (is_Some (_internal_slice_workload job)) then a else b)) end.
  { destruct (bool_decide _); [only_auto|]. apply only_bind; [apply lawful_parent_take|].
    intros [[locks lease]|[e|reason']]; [only_auto|done|apply Hretry]. }
  destruct (_ && _); [|exact Htake].
  apply only_bind; [done|]. intros [[]|e]; [apply Hretry|exact Htake|apply Hretry].
Qed.

Lemma lawful_execute_job fuel i job q owner :
  only (lawful i) (execute_job digest barrier_file fuel i job q owner).
Proof.
  unfold execute_job. destruct (negb _); [only_auto|]. apply only_bind; [done|]. intros []; [only_auto|].
  apply only_bind; [apply lawful_admission|]. intros [local lease host| |e|]; [|only_auto|done..].
  apply only_bind; [done|]. intros y. apply only_bind.
  - destruct local; [apply lawful_of, no_writes_locks_release|done].
  - intros ?. apply only_bind; [|only_auto]. destruct lease; [apply lawful_of, no_writes_lease_release|done].
Qed.

Lemma lawful_program i r : only (lawful i) (program_of digest barrier_file i r).
Proof.
  unfold program_of, ignore. destruct r; (apply only_bind; [|done]);
    [apply lawful_heavy_io_slot|apply lawful_try_slot|apply lawful_adaptive|apply lawful_execute_job].
Qed.
End Writes.

(** * Heavy-I/O leases: the memory the lanes reserve

    The live reservations of the lanes always fit the capacity recorded by one
    of them, the latest granted: each grant was checked against the sum of the
    reservations that were live then. *)

(** ** Sums *)

Fixpoint total_of {A} (f : A → Z) (l : list A) : Z :=
  match l with [] => 0 | x :: l => f x + total_of f l end.

Lemma total_of_app {A} (f : A → Z) l l' : total_of f (l ++ l') = total_of f l + total_of f l'.
Proof. induction l as [|x l IH]; cbn; [lia|]. rewrite IH. lia. Qed.

Global Instance total_of_perm {A} (f : A → Z) : Proper ((≡ₚ) ==> (=)) (total_of f).
Proof. intros l l' Hl. induction Hl; cbn; lia. Qed.

Lemma total_of_nonneg {A} (f : A → Z) l : (∀ x, x ∈ l → 0 <= f x) → 0 <= total_of f l.
Proof.
  induction l as [|x l IH]; intros Hf; cbn; [lia|].
  pose proof (Hf x ltac:(set_solver)). assert (0 <= total_of f l) by (apply IH; set_solver). lia.
Qed.

Lemma total_of_subset {A} (f : A → Z) l l' :
  NoDup l → (∀ x, x ∈ l → x ∈ l') → (∀ x, x ∈ l' → 0 <= f x) → total_of f l <= total_of f l'.
Proof.
  intros Hl Hin Hf.
  destruct (submseteq_Permutation l l') as [k Hk]; [by apply NoDup_submseteq|].
  rewrite Hk, total_of_app.
  assert (0 <= total_of f k); [|lia]. apply total_of_nonneg. intros x Hx. apply Hf. rewrite Hk. set_solver.
Qed.

Lemma total_of_filter {A} (f : A → Z) (p : A → bool) l :
  (∀ x, x ∈ l → p x = false → f x = 0) → total_of f (List.filter p l) = total_of f l.
Proof.
  induction l as [|x l IH]; intros Hf; cbn; [done|].
  assert (Hl : total_of f (List.filter p l) = total_of f l) by (apply IH; set_solver).
  destruct (p x) eqn:Hp; cbn; [lia|]. rewrite (Hf x) by set_solver. lia.
Qed.

(** ** Reservations in the order of their grants *)

(** The latest first: each fits its own capacity together with those before. *)
Inductive stairs : list LeaseValue → Prop :=
| stairs_nil : stairs []
| stairs_cons v l :
    stairs l → 0 <= lv_reserved_bytes v →
    lv_reserved_bytes v + total_of lv_reserved_bytes l <= lv_capacity_bytes v → stairs (v :: l).

Lemma stairs_nonneg l : stairs l → ∀ v, v ∈ l → 0 <= lv_reserved_bytes v.
Proof. induction 1; set_solver. Qed.

Lemma total_of_sublist {A} (f : A → Z) (l l' : list A) :
  l `sublist_of` l' → (∀ x, x ∈ l' → 0 <= f x) → total_of f l <= total_of f l'.
Proof.
  induction 1 as [|x l l' Hl IH|x l l' Hl IH]; intros Hf; cbn; [lia|..].
  - assert (total_of f l <= total_of f l') by (apply IH; set_solver). lia.
  - assert (total_of f l <= total_of f l') by (apply IH; set_solver).
    pose proof (Hf x ltac:(set_solver)). lia.
Qed.

Lemma stairs_sublist l l' : stairs l' → l `sublist_of` l' → stairs l.
Proof.
  intros Hs. revert l. induction Hs as [|v l' Hs IH Hv Hc]; intros l Hl.
  - apply sublist_nil_r in Hl as ->. constructor.
  - inversion Hl as [|? l0 ? Hl0|? l0 ? Hl0]; subst; [|by apply IH].
    constructor; [by apply IH|done|].
    pose proof (total_of_sublist lv_reserved_bytes _ _ Hl0 (stairs_nonneg _ Hs)). lia.
Qed.

(** ** The invariant on Redis *)

Definition holds (now : Z) (r : redis) (k : pystr) (v : LeaseValue) : Prop := rget now r k = Some (VLease v).

Definition reserved_fit (now : Z) (r : redis) : Prop :=
  ∃ order vs, NoDup order ∧ (∀ k, k ∈ order ↔ k ∈ LANE_KEYS ∧ is_Some (rget now r k)) ∧
    Forall2 (holds now r) order vs ∧ stairs vs.

(** Keys of lanes that disappear, and nothing else. *)
Lemma reserved_fit_shrink now now' r r' :
  (∀ k, k ∈ LANE_KEYS → rget now' r' k = rget now r k ∨ rget now' r' k = None) →
  reserved_fit now r → reserved_fit now' r'.
Proof.
  intros Hk (order & vs & Hnd & Hin & Hvs & Hst).
  assert (Hsub : ∃ order' vs', NoDup order' ∧ (∀ k, k ∈ order' ↔ k ∈ order ∧ is_Some (rget now' r' k)) ∧
    Forall2 (holds now' r') order' vs' ∧ vs' `sublist_of` vs).
  { assert (Hl : ∀ k, k ∈ order → k ∈ LANE_KEYS) by (intros k Ho; by apply Hin).
    clear Hin Hst. induction Hvs as [|k v order vs Hv Hvs IH].
    - exists [], []. split_and!; [constructor| |constructor|constructor]. set_solver.
    - apply NoDup_cons in Hnd as [Hk0 Hnd].
      destruct (IH Hnd) as (o' & v' & Hnd' & Hin' & Hvs' & Hs'); [set_solver|].
      destruct (Hk k (Hl k ltac:(set_solver))) as [He|He].
      + exists (k :: o'), (v :: v'). split_and!.
        * constructor; [|done]. rewrite Hin'. tauto.
        * intros x. rewrite !elem_of_cons, Hin'. unfold holds in Hv. split; [|tauto].
          intros [->|?]; [|tauto]. rewrite He, Hv. eauto.
        * constructor; [|done]. unfold holds. by rewrite He.
        * by constructor.
      + exists o', v'. split_and!; [done| |done|by constructor].
        intros x. rewrite elem_of_cons, Hin'. split; [tauto|]. intros [[->|?] Hx]; [|tauto].
        rewrite He in Hx. by destruct Hx. }
  destruct Hsub as (o' & v' & Hnd' & Hin' & Hvs' & Hs'). exists o', v'. split_and!; [done| |done|].
  - intros k. rewrite Hin', Hin. split; [tauto|]. intros [HL Hx]. split_and!; [done| |done].
    destruct (Hk k HL) as [He|He]; rewrite He in Hx; [done|by destruct Hx].
  - by eapply stairs_sublist.
Qed.

Definition reserved_at (now : Z) (r : redis) (k : pystr) : Z :=
  match rget now r k with Some v => default 0 (reserved_bytes v) | None => 0 end.

Lemma reserved_total_sum now r keys t :
  reserved_total now r keys = Some t → t = total_of (reserved_at now r) keys.
Proof.
  revert t. induction keys as [|k keys IH]; intros t; cbn; [by intros [= <-]|].
  unfold reserved_at at 1. destruct (rget now r k) as [v|]; [|intros Ht; rewrite (IH _ Ht); lia].
  destruct (reserved_bytes v) as [b|]; [|done]. cbn.
  destruct (reserved_total now r keys) as [t'|]; [|done]. intros [= <-]. rewrite (IH t') by done. cbn. lia.
Qed.

Lemma total_of_values now r order vs :
  Forall2 (holds now r) order vs → total_of (reserved_at now r) order = total_of lv_reserved_bytes vs.
Proof.
  induction 1 as [|k v order vs Hv Hvs IH]; cbn; [done|]. unfold reserved_at at 1. rewrite Hv. cbn. lia.
Qed.

Lemma holds_ext now r r' order vs : Forall2 (holds now r) order vs →
  (∀ x, x ∈ order → rget now r' x = rget now r x) → Forall2 (holds now r') order vs.
Proof.
  induction 1 as [|k v order vs Hv Hvs IH]; intros Hx; constructor.
  - unfold holds. rewrite Hx; [done|set_solver].
  - apply IH. set_solver.
Qed.

Lemma reserve_keys_head k : k ∈ LANE_KEYS → reserve_keys k = k :: tail (reserve_keys k).
Proof.
  unfold LANE_KEYS. rewrite !elem_of_cons, elem_of_nil. intros [->|[->|[->|[]]]]; by vm_compute.
Qed.

Lemma reserve_keys_tail k x : k ∈ LANE_KEYS → x ∈ tail (reserve_keys k) → x ∈ LANE_KEYS ++ [REMOTE_RESERVATION_KEY].
Proof.
  intros Hk Hx. assert (Hx' : x ∈ reserve_keys k) by (destruct (reserve_keys k); [done|cbn in Hx; set_solver]).
  unfold reserve_keys in Hx'. rewrite elem_of_fromkeys, elem_of_cons in Hx'.
  destruct Hx' as [->|Hx']; [|exact Hx']. by apply elem_of_app; left.
Qed.

(** A granted reservation. *)
Lemma reserved_fit_grant now r r' k v requested total :
  reserved_fit now r → k ∈ LANE_KEYS → rget now r k = None →
  (∀ x, x ∈ LANE_KEYS → x ≠ k → rget now r' x = rget now r x) → rget now r' k = Some (VLease v) →
  lv_reserved_bytes v = requested → 0 <= requested →
  0 <= reserved_at now r REMOTE_RESERVATION_KEY →
  reserved_total now r (tail (reserve_keys k)) = Some total →
  total + requested <= lv_capacity_bytes v →
  reserved_fit now r'.
Proof.
  intros (order & vs & Hnd & Hin & Hvs & Hst) HL Hnone Hother Hk Hreq Hpos Hrem Htot Hcap.
  assert (Hknot : ¬ (k ∈ order)) by (rewrite Hin; intros [_ Hx]; rewrite Hnone in Hx; by destruct Hx).
  exists (k :: order), (v :: vs). split_and!.
  - by constructor.
  - intros x. rewrite elem_of_cons, Hin. destruct (decide (x = k)) as [->|Hne]; [rewrite Hk; naive_solver|].
    split; [intros [?|[Hx Hs]]; [done|by rewrite Hother]|]. intros [Hx Hs]. rewrite Hother in Hs by done. auto.
  - constructor; [done|]. eapply holds_ext; [exact Hvs|]. intros x Hx.
    assert (x ≠ k) by (intros ->; done). apply Hin in Hx as [Hx _]. by apply Hother.
  - constructor; [done|by rewrite Hreq|].
    rewrite <- (total_of_values now r order vs Hvs), Hreq.
    assert (total_of (reserved_at now r) order <= total); [|lia].
    rewrite (reserved_total_sum _ _ _ _ Htot). apply total_of_subset; [done|..].
    + intros x Hx. assert (Hxk : x ≠ k) by (intros ->; done). apply Hin in Hx as [Hx _].
      assert (Hx' : x ∈ reserve_keys k).
      { unfold reserve_keys. rewrite elem_of_fromkeys, elem_of_cons. right. change (x ∈ LANE_KEYS ++ [REMOTE_RESERVATION_KEY]). apply elem_of_app. by left. }
      rewrite (reserve_keys_head k HL) in Hx'. by apply elem_of_cons in Hx' as [->|].
    + intros x Hx. apply reserve_keys_tail in Hx; [|done].
      apply elem_of_app in Hx as [Hx|Hx]; [|by apply list_elem_of_singleton in Hx as ->].
      destruct (rget now r x) as [y|] eqn:Hg; [|unfold reserved_at; by rewrite Hg].
      assert (Hxo : x ∈ order) by (apply Hin; rewrite Hg; eauto).
      destruct (Forall2_elem_l _ _ _ _ Hvs Hxo) as (vx & Hvx & Hh). unfold reserved_at. rewrite Hh. cbn.
      by apply (stairs_nonneg vs).
Qed.

(** ** Every call *)

Lemma lane_not_remote k : k ∈ LANE_KEYS → k ≠ REMOTE_RESERVATION_KEY.
Proof. unfold LANE_KEYS. rewrite !elem_of_cons, elem_of_nil. by intros [->|[->|[->|[]]]]. Qed.

Lemma lane_not_last k : k ∈ LANE_KEYS → k ≠ LAST_BACKGROUND_KEY.
Proof. unfold LANE_KEYS. rewrite !elem_of_cons, elem_of_nil. by intros [->|[->|[->|[]]]]. Qed.

Lemma lane_reserved k : k ∈ LANE_KEYS → k ∈ RESOURCE_RESERVATION_KEYS.
Proof. change RESOURCE_RESERVATION_KEYS with (LANE_KEYS ++ [REMOTE_RESERVATION_KEY]). rewrite elem_of_app. auto. Qed.

Lemma rget_insert_ne now r k k' e : k ≠ k' → rget now (<[k := e]> r) k' = rget now r k'.
Proof. intros. unfold rget. by rewrite lookup_insert_ne. Qed.

Lemma rget_delete_ne now r k k' : k ≠ k' → rget now (delete k r) k' = rget now r k'.
Proof. intros. unfold rget. by rewrite lookup_delete_ne. Qed.

Lemma rget_delete now r k : rget now (delete k r) k = None.
Proof. unfold rget. by rewrite lookup_delete_eq. Qed.

(** A write outside the lanes. *)
Lemma reserved_fit_other now r k e : ¬ (k ∈ LANE_KEYS) → reserved_fit now r → reserved_fit now (<[k := e]> r).
Proof. intros Hk. apply reserved_fit_shrink. intros x Hx. left. apply rget_insert_ne. by intros ->. Qed.

Lemma reserved_fit_delete now r k : reserved_fit now r → reserved_fit now (delete k r).
Proof.
  apply reserved_fit_shrink. intros x Hx. destruct (decide (k = x)) as [->|]; [right; apply rget_delete|].
  left. by apply rget_delete_ne.
Qed.

Lemma reserved_fit_restore now r marker : reserved_fit now r → reserved_fit now (restore_remote marker r).
Proof.
  destruct marker as [m|]; [|apply reserved_fit_delete]. apply reserved_fit_other.
  intros Hk. by apply lane_not_remote in Hk.
Qed.

Lemma reserved_fit_stamp now r : reserved_fit now r → reserved_fit now (stamp now r).
Proof. apply reserved_fit_other. intros Hk. by apply lane_not_last in Hk. Qed.

Lemma reserved_fit_script now queued k v requested capacity seconds r :
  k ∈ LANE_KEYS → lv_reserved_bytes v = requested → lv_capacity_bytes v = capacity → 0 <= requested →
  0 < seconds → 0 <= reserved_at now r REMOTE_RESERVATION_KEY →
  reserved_fit now r → reserved_fit now (_RESERVE_SCRIPT now queued k v requested capacity seconds r).1.
Proof.
  intros Hk Hr Hc Hp Hsec Hrem Hfit. unfold _RESERVE_SCRIPT.
  destruct (rexists now r k) eqn:He; [done|].
  assert (Hnone : rget now r k = None).
  { unfold rexists in He. apply bool_decide_eq_false in He. by apply eq_None_not_Some. }
  destruct (reserved_total now r (tail (reserve_keys k))) as [total|] eqn:Ht; [|done].
  destruct (capacity <? total + requested) eqn:Hcap; [done|].
  assert (Hg : reserved_fit now (grant now k v seconds r).1).
  { assert (Hfit' : reserved_fit now (<[k := mkEntry (VLease v) (Some (now + seconds))]> r)).
    { eapply (reserved_fit_grant now r _ k v requested total); eauto; [..|lia].
      - intros x _ Hne. by apply rget_insert_ne.
      - unfold rget. rewrite lookup_insert_eq. cbn. unfold live. cbn. by rewrite (proj2 (Z.ltb_lt _ _)) by lia. }
    unfold grant. cbn [fst]. destruct (bool_decide _); [by apply reserved_fit_stamp|done]. }
  destruct (bool_decide _ && _); [|done].
  destruct (rget now r LAST_BACKGROUND_KEY) as [[| |last|]|]; try by apply reserved_fit_stamp.
  by destruct (now - last <? 60).
Qed.

Lemma restored_nonneg now r marker : (∀ m, marker = Some m → 0 <= fm_reserved_bytes m) →
  0 <= reserved_at now (restore_remote marker r) REMOTE_RESERVATION_KEY.
Proof.
  intros Hm. unfold reserved_at, restore_remote. destruct marker as [m|].
  - unfold rget. rewrite lookup_insert_eq. cbn. by apply Hm.
  - by rewrite rget_delete.
Qed.

Lemma reserved_fit_reserve now queued marker k v requested capacity seconds r :
  k ∈ LANE_KEYS → lv_reserved_bytes v = requested → lv_capacity_bytes v = capacity → 0 <= requested →
  0 < seconds → (∀ m, marker = Some m → 0 <= fm_reserved_bytes m) → reserved_fit now r →
  reserved_fit now (reserve_memory now queued marker k v requested capacity seconds r).1.
Proof.
  intros. unfold reserve_memory. destruct (remote_fences marker k); [by apply reserved_fit_restore|].
  apply reserved_fit_script; auto; [by apply restored_nonneg|by apply reserved_fit_restore].
Qed.

(** ** Every step *)

Section Steps.
Context `{Unicode} (digest : pystr → pystr) (barrier_file : pystr).

Record memory_ok (w : World) : Prop := {
  mo_fit : reserved_fit (w_now w) (w_redis w);
  mo_marker : ∀ m, w_marker w = Some m → 0 <= fm_reserved_bytes m;
  mo_lawful : ∀ i s, w_slots w !! i = Some s → only (lawful i) (sl_prog s) }.

Lemma rget_renew now k v seconds r x :
  rget now (_RENEW_SCRIPT now k v seconds r).1 x = rget now r x ∨
  rget now (_RENEW_SCRIPT now k v seconds r).1 x = None.
Proof.
  unfold _RENEW_SCRIPT. case_bool_decide as Hg; [|by left]. cbn.
  destruct (decide (k = x)) as [->|Hne]; [|left; by apply rget_insert_ne].
  unfold rget at 1 3. rewrite lookup_insert_eq. cbn. unfold live. cbn.
  destruct (now <? now + seconds); [left; by rewrite Hg|by right].
Qed.

Lemma rget_later now now' r x : now <= now' → rget now' r x = rget now r x ∨ rget now' r x = None.
Proof.
  intros Hle. unfold rget. destruct (r !! x) as [[v [t|]]|]; cbn; [|by left..].
  unfold live. cbn. destruct (now' <? t) eqn:H1; [|by right]. left.
  apply Z.ltb_lt in H1. by rewrite (proj2 (Z.ltb_lt now t)) by lia.
Qed.

(** The Redis commands of lawful calls keep the reservations within bounds. *)
Lemma redis_call_fit {A} (c : choice) (i : nat) (w : World) (f : redis → redis * A) :
  reserved_fit (w_now w) (w_redis w) → reserved_fit (w_now w) (f (w_redis w)).1 →
  reserved_fit (w_now (redis_call c i w f).2) (w_redis (redis_call c i w f).2).
Proof. intros H1 H2. unfold redis_call. destruct (f (w_redis w)) as [r a]. by destruct (ch_fault c). Qed.

Lemma exec_fit {X} c i (w : World) (o : op X) : lawful i X o → memory_ok w →
  reserved_fit (w_now (exec c i w o).2) (w_redis (exec c i w o).2).
Proof.
  intros Hl [Hfit Hm _]. destruct o; cbn [exec]; try done;
    try (unfold local_call; by destruct (ch_fault c)); try apply redis_call_fit; try done.
  - destruct Hl as [Hl _]. unfold set_nx. destruct (rexists _ _ _); [done|].
    apply reserved_fit_other; [|done]. intros Hk. by apply lane_reserved in Hk.
  - unfold _RELEASE_SCRIPT. destruct (bool_decide _); [by apply reserved_fit_delete|done].
  - by apply reserved_fit_restore.
  - destruct Hl as (? & ? & ? & ? & ? & ?). by apply reserved_fit_reserve.
  - unfold local_call. by destruct (try_flock _ _ _ _), (ch_fault c).
Qed.

Lemma exec_slots {X} (c : choice) (i : nat) (w : World) (o : op X) (j : nat) (s : Slot) :
  w_slots (exec c i w o).2 !! j = Some s → ∃ s0, w_slots w !! j = Some s0 ∧ sl_prog s = sl_prog s0.
Proof.
  assert (Hw : ∀ f w0, w_slots w0 = w_slots w → (∀ s, sl_prog (f s) = sl_prog s) →
    w_slots (with_slot i f w0) !! j = Some s → ∃ s0, w_slots w !! j = Some s0 ∧ sl_prog s = sl_prog s0).
  { intros f w0 He Hf. unfold with_slot. cbn. rewrite He. destruct (decide (i = j)) as [->|].
    - rewrite lookup_alter_eq. destruct (w_slots w !! j) as [s0|]; [|done]. intros [= <-]. eauto.
    - rewrite lookup_alter_ne by done. eauto. }
  assert (Hr : ∀ A (f : redis → redis * A), w_slots (redis_call c i w f).2 !! j = Some s →
    ∃ s0, w_slots w !! j = Some s0 ∧ sl_prog s = sl_prog s0).
  { intros A f. unfold redis_call. destruct (f (w_redis w)). destruct (ch_fault c); [cbn; eauto|by apply Hw..]. }
  destruct o; cbn [exec]; try apply Hr; try (by apply Hw); try (cbn; by eauto);
    unfold local_call; try (destruct (try_flock _ _ _ _)); destruct (ch_fault c); cbn; eauto.
Qed.

Lemma exec_marker {X} (c : choice) (i : nat) (w : World) (o : op X) : w_marker (exec c i w o).2 = w_marker w.
Proof.
  assert (Hr : ∀ A (f : redis → redis * A), w_marker (redis_call c i w f).2 = w_marker w).
  { intros A f. unfold redis_call. destruct (f (w_redis w)). by destruct (ch_fault c). }
  destruct o; cbn [exec]; try apply Hr; try done;
    unfold local_call; try (destruct (try_flock _ _ _ _)); by destruct (ch_fault c).
Qed.

Lemma profile_reservation_nonneg p : 0 <= profile_reservation p.
Proof.
  unfold profile_reservation. destruct (assoc p RESOURCE_PROFILES) as [x|] eqn:Hx; [|done].
  apply assoc_elem_of in Hx. unfold RESOURCE_PROFILES in Hx. rewrite !elem_of_cons, elem_of_nil in Hx.
  repeat (destruct Hx as [[= _ ->]|Hx]; [by vm_compute|]). done.
Qed.

Lemma memory_ok_step w w' : step digest barrier_file w w' → memory_ok w → memory_ok w'.
Proof.
  intros Hstep Hok. pose proof Hok as [Hfit Hm Hlaw].
  destruct Hstep as [i r Hn Hin|q s i r Hq Hrun Hn Hin Hw|i s X o k c Hs Hp Hy|i s Hs Hno|t Ht
    |i s ks v seconds k Hs Hr Hk| |h m q|i s ls receipt workload m ok Hs Hrun Hin Hls Hx Hmw Hcr|receipt ok|receipt uid m Hrec].
  - split; [done..|]. intros j s. cbn. destruct (decide (i = j)) as [->|]; [|rewrite lookup_insert_ne by done; apply Hlaw].
    rewrite lookup_insert_eq. intros [= <-]. apply lawful_program.
  - split; [done..|]. intros j s'. cbn. destruct (decide (i = j)) as [->|]; [|rewrite lookup_insert_ne by done; apply Hlaw].
    rewrite lookup_insert_eq. intros [= <-]. apply lawful_program.
  - pose proof (Hlaw i s Hs) as Hl. rewrite Hp in Hl. destruct Hl as [Ho Hk]. split.
    + by apply exec_fit.
    + cbn. by rewrite exec_marker.
    + intros j s'. unfold with_slot. cbn. destruct (decide (i = j)) as [->|].
      * rewrite lookup_alter_eq. intros (s0 & _ & ->)%fmap_Some. apply Hk.
      * rewrite lookup_alter_ne by done. intros Hj. apply exec_slots in Hj as (s0 & Hj & ->). by apply Hlaw.
  - split; [done..|]. intros j s'. unfold with_slot. cbn. destruct (decide (i = j)) as [->|].
    + rewrite lookup_alter_eq. by intros (s0 & _ & ->)%fmap_Some.
    + rewrite lookup_alter_ne by done. apply Hlaw.
  - split; [|done..]. eapply reserved_fit_shrink; [|exact Hfit]. intros x _. by apply rget_later.
  - split; [|done..]. eapply reserved_fit_shrink; [|exact Hfit]. intros x _. apply rget_renew.
  - split; [|done..]. eapply reserved_fit_shrink; [|exact Hfit]. intros x _. by right.
  - by split.
  - assert (Hm' : 0 <= fm_reserved_bytes m).
    { unfold create_marker in Hcr. destruct (w_marker w) as [m0|] eqn:Hm0.
      - destruct (bool_decide _); [|done]. injection Hcr as <-. by apply Hm.
      - injection Hcr as <-. apply profile_reservation_nonneg. }
    split; [|by intros ? [= <-]|by destruct (ok && _)].
    destruct (ok && _); [|done]. cbn. apply reserved_fit_other; [|done]. intros HL. by apply lane_not_remote in HL.
  - split; [|cbn|by destruct (ok && _)].
    + destruct (ok && _); [|done]. by apply reserved_fit_delete.
    + intros m. unfold clear_marker. destruct (w_marker w) as [m0|] eqn:Hm0; [|done].
      destruct (bool_decide _); [done|]. intros [= <-]. by apply Hm.
  - split; [done| |done]. intros m' [= <-]. unfold record_task in Hrec.
    destruct (w_marker w) as [m0|] eqn:Hm0; [|done]. destruct (bool_decide _); [|done].
    injection Hrec as <-. by apply (Hm m0).
Qed.

Lemma memory_ok_reachable w : reachable digest barrier_file w → memory_ok w.
Proof.
  intros (host & memory & Hr). apply (rtc_ind_r (λ w, memory_ok w)) in Hr; [done|..].
  - split; [|done|done]. exists [], []. split_and!; [constructor| |constructor|constructor].
    intros k. rewrite elem_of_nil. split; [done|]. intros [_ []]. done.
  - intros x y _ Hxy Hx. by eapply memory_ok_step.
Qed.
End Steps.

(** * Heavy-I/O leases: what a slot leaves in Redis

    A slot that ends, on whatever path, leaves no lease of its own in Redis,
    unless one of its Redis calls raised: such a key may have been written and
    stays until it expires. *)

(** The leases a process may have in Redis, and whether a call raised. *)
Abbreviation ledger := (list (pystr * LeaseValue) * bool)%type.

Definition note {A} (r : result io_error A) (own : list (pystr * LeaseValue)) (g : ledger) : ledger :=
  match r with Ok _ => (own, g.2) | Err _ => (g.1, true) end.

Definition lease_track (X : Type) (o : op X) (x : X) (g : ledger) : ledger :=
  match o in op X return X → ledger with
  | SetNX k v _ => λ x, note x (match x with Ok true => (k, v) :: g.1 | _ => g.1 end) g
  | ReserveMemory k v _ _ _ => λ x,
      note x (match x with Ok code => if code =? 1 then (k, v) :: g.1 else g.1 | _ => g.1 end) g
  | CompareDelete k v => λ x, note x (List.filter (λ kv, negb (bool_decide (kv = (k, v)))) g.1) g
  | Exists _ => λ x, note x g.1 g
  | ReconcileReservation => λ x, note x g.1 g
  | _ => λ _, g
  end x.

Definition always (X : Type) (o : op X) (g : ledger) : Prop := True.

Abbreviation rwp := (wp lease_track always).

(** While nothing raised, the leases are [v] at some of [keys]. *)
Definition covered (keys : list pystr) (v : LeaseValue) (g : ledger) : Prop :=
  g.2 = false → ∀ kv, kv ∈ g.1 → kv.2 = v ∧ kv.1 ∈ keys.

Definition clean (g : ledger) : Prop := g.2 = false → g.1 = [].

Lemma covered_nil v g : covered [] v g ↔ clean g.
Proof.
  unfold covered, clean. split; intros Hg Hf; specialize (Hg Hf).
  - destruct g.1 as [|kv own]; [done|]. destruct (Hg kv) as [_ Hk]; [set_solver|by apply elem_of_nil in Hk].
  - rewrite Hg. intros kv Hkv. by apply elem_of_nil in Hkv.
Qed.

Lemma covered_mono ks ks' v g : (∀ k, k ∈ ks → k ∈ ks') → covered ks v g → covered ks' v g.
Proof. intros Hk Hc Hf kv Hkv. destruct (Hc Hf kv Hkv). auto. Qed.

Lemma clean_covered ks v g : clean g → covered ks v g.
Proof. intros Hc. apply (covered_mono []); [set_solver|by apply covered_nil]. Qed.

(** Calls that write no lease. *)
Lemma covered_quiet ks v X (o : op X) x g : no_writes X o → covered ks v g → covered ks v (lease_track X o x g).
Proof.
  unfold covered. destruct o; cbn; try done; try (by destruct x). destruct x as [b|]; [|done]. cbn.
  intros _ Hc Hf kv Hkv. apply Hc; [done|].
  apply list_elem_of_In, List.filter_In in Hkv. apply list_elem_of_In. tauto.
Qed.

Lemma rwp_covered {A} ks v (p : program A) g : only no_writes p → covered ks v g → rwp p (λ _, covered ks v) g.
Proof.
  intros Hp. revert g. induction p as [a|X o k IH]; intros g Hg; cbn in *; [done|].
  destruct Hp as [Ho Hk]. split; [done|]. intros x. apply IH; [apply Hk|]. by apply covered_quiet.
Qed.

Lemma rwp_clean {A} (p : program A) g : only no_writes p → clean g → rwp p (λ _, clean) g.
Proof.
  intros Hp Hg. set (v := mkLeaseValue (0, 0)%nat [] [] [] 0 0).
  eapply wp_mono; [|apply (rwp_covered [] v); [done|by apply clean_covered]].
  intros a g'. apply covered_nil.
Qed.

(** ** Leases *)

Lemma rwp_release_each v keys released g : covered keys v g → rwp (release_each v keys released) (λ _, clean) g.
Proof.
  revert released g. induction keys as [|k keys IH]; intros released g Hg; [by apply (covered_nil v)|].
  apply wp_bind, wp_act; [done|]. intros [b|e]; cbn; apply IH.
  - intros Hf kv Hkv. cbn in Hf, Hkv. apply list_elem_of_In, List.filter_In in Hkv as [Hkv Hne].
    apply list_elem_of_In in Hkv. destruct (Hg Hf kv Hkv) as [Hv Hk]. split; [done|].
    apply elem_of_cons in Hk as [Hk|]; [|done]. destruct kv as [k' v']. cbn in *. subst.
    by rewrite bool_decide_true in Hne.
  - intros Hf. done.
Qed.

Lemma rwp_release_keys l keys g : covered keys (ls_value l) g → rwp (_release_keys l keys) (λ _, clean) g.
Proof.
  intros Hg. apply wp_bind. eapply wp_mono; [|apply rwp_release_each; eapply covered_mono; [|exact Hg]].
  - intros [] g' Hg'; by apply rwp_clean.
  - intros k Hk. rewrite list_elem_of_In, <- in_rev. by apply list_elem_of_In.
Qed.

Lemma rwp_release_then {A} l keys (a : A) g (Q : A → ledger → Prop) :
  covered keys (ls_value l) g → (∀ g, clean g → Q a g) → rwp (_release_keys l keys ≫= λ _, Ret a) Q g.
Proof. intros Hg HQ. apply wp_bind. eapply wp_mono; [|by apply rwp_release_keys]. intros ? g' Hg'. by apply HQ. Qed.

Definition acquired_keys (l : RenewableRedisLease) (r : bool * option string) (g : ledger) : Prop :=
  if r.1 then covered (ls_keys l) (ls_value l) g else clean g.

Lemma covered_add k ks v g : covered ks v g → covered (ks ++ [k]) v ((k, v) :: g.1, g.2).
Proof.
  intros Hg Hf kv Hkv. cbn in *. rewrite elem_of_app, list_elem_of_singleton.
  apply elem_of_cons in Hkv as [->|Hkv]; [auto|]. destruct (Hg Hf kv Hkv). auto.
Qed.

Lemma rwp_acquire_keys l acquired todo g : acquired ++ todo = ls_keys l →
  covered acquired (ls_value l) g → rwp (acquire_keys l acquired todo) (acquired_keys l) g.
Proof.
  revert acquired g. induction todo as [|k todo IH]; intros acquired g He Hg.
  - rewrite app_nil_r in He. cbn. unfold acquired_keys. cbn. by rewrite <- He.
  - assert (Hnext : ∀ g, covered (acquired ++ [k]) (ls_value l) g →
      rwp (acquire_keys l (acquired ++ [k]) todo) (acquired_keys l) g).
    { intros g' Hg'. apply IH; [|done]. by rewrite <- app_assoc. }
    assert (Hfail : ∀ d g, covered acquired (ls_value l) g →
      rwp (_release_keys l acquired ≫= λ _, Ret (false, d)) (acquired_keys l) g).
    { intros d g' Hg'. by apply rwp_release_then. }
    cbn [acquire_keys]. destruct (bool_decide _); (apply wp_bind, wp_act; [done|]).
    + intros [code|e]; cbn [lease_track note]; [|by apply Hfail].
      destruct (code =? 1); [by apply Hnext, covered_add|]. apply Hfail. by destruct g.
    + intros [[]|e]; cbn [lease_track note]; [by apply Hnext, covered_add|apply Hfail; by destruct g|by apply Hfail].
Qed.

Lemma rwp_try_lease l g : clean g → rwp (lease_try_acquire l) (acquired_keys l) g.
Proof.
  intros Hg. apply wp_bind, wp_act; [done|]. intros [m|e].
  - assert (Hg' : clean (lease_track _ ReconcileReservation (Ok m) g)) by (by destruct g).
    match goal with |- context [if ?b then _ else _] => destruct b end; [done|].
    apply rwp_acquire_keys; [done|by apply clean_covered].
  - apply rwp_release_then; [by apply clean_covered|done].
Qed.

Lemma rwp_lease_release l g : covered (ls_keys l) (ls_value l) g → rwp (lease_release l true) (λ _, clean) g.
Proof. intros Hg. apply wp_bind, wp_act; [done|]. intros ?. by apply rwp_release_keys. Qed.

(** ** Slots *)

(** What a lease object stands for. *)
Definition lease_result (lease : option (RenewableRedisLease * bool)) (g : ledger) : Prop :=
  match lease with
  | Some (l, true) => covered (ls_keys l) (ls_value l) g
  | _ => clean g
  end.

Lemma rwp_keep {A} lease (p : program A) g : only no_writes p → lease_result lease g → rwp p (λ _, lease_result lease) g.
Proof. intros Hp Hg. destruct lease as [[l []]|]; [by apply rwp_covered|by apply rwp_clean..]. Qed.

Lemma rwp_cleanup_then {A} local lease (a : A) g : lease_result lease g →
  rwp (slot_cleanup local lease ≫= λ _, Ret a) (λ _, clean) g.
Proof.
  intros Hg. apply wp_bind, wp_bind. eapply wp_mono; [|apply (rwp_keep lease); [|exact Hg]].
  - intros ? g' Hg'. destruct lease as [[l []]|]; [by apply rwp_lease_release|done..].
  - destruct local as [[]|]; [apply no_writes_locks_release|done].
Qed.

Section Slots.
Context `{Unicode} (digest : pystr → pystr) (barrier_file : pystr).

Lemma rwp_slot_lease token a host keys g : clean g →
  rwp (slot_lease token a host keys) (λ r, lease_result r.2) g.
Proof.
  intros Hg. unfold slot_lease. destruct keys as [|k keys]; [done|].
  apply wp_bind. eapply wp_mono; [|apply rwp_clean; [apply no_writes_details|done]].
  intros [requested capacity] g1 Hg1. destruct (capacity <? requested); [by apply wp_bind, wp_act|].
  destruct (resource_budget_token_key _ _); [|done].
  apply wp_bind. eapply wp_mono; [|by apply rwp_try_lease]. intros [[] denial] g2 Hg2; [by apply wp_bind, wp_act|].
  destruct (takes_lease a); [by apply wp_bind, wp_act|done].
Qed.

Lemma rwp_try_slot_lease token a host keys g : clean g →
  rwp (try_lease token a host keys) (λ r, lease_result r.2) g.
Proof.
  intros Hg. unfold try_lease. destruct keys as [|k keys]; [done|].
  apply wp_bind. eapply wp_mono; [|apply rwp_clean; [apply no_writes_details|done]].
  intros [requested capacity] g1 Hg1. destruct (capacity <? requested); [by apply wp_bind, wp_act|].
  destruct (resource_budget_token_key _ _); [|done].
  apply wp_bind. eapply wp_mono; [|by apply rwp_try_lease]. intros [[] denial] g2 Hg2; by apply wp_bind, wp_act.
Qed.

Lemma rwp_body {A} local lease g (a : Q → A) : lease_result lease g →
  rwp (act (SetState "running" None) ≫= λ _, act Yield ≫= λ x,
       slot_cleanup local lease ≫= λ _, Ret (a x)) (λ _, clean) g.
Proof.
  intros Hg. apply wp_bind, wp_act; [done|]. intros u0. apply wp_bind, wp_act; [done|].
  intros x. by apply rwp_cleanup_then.
Qed.

Lemma rwp_heavy_io_slot token a g : clean g →
  rwp (heavy_io_slot digest barrier_file token a) (λ _, clean) g.
Proof.
  intros Hg. apply wp_bind. eapply wp_mono; [|apply rwp_clean; [apply no_writes_slot_permit|done]].
  intros [host|e] g1 Hg1; [|done]. destruct (slot_keys digest a) as [keys|e]; [|done].
  apply wp_bind. eapply wp_mono; [|by apply rwp_slot_lease]. intros [[[]|e] lease] g2 Hg2; [|by apply rwp_cleanup_then].
  apply wp_bind. eapply wp_mono; [|apply (rwp_keep lease); [apply no_writes_slot_local|exact Hg2]].
  intros [[[]|e] local] g3 Hg3; [by apply rwp_body|by apply rwp_cleanup_then].
Qed.

Lemma rwp_try_heavy_io_slot token a g : clean g →
  rwp (try_heavy_io_slot digest barrier_file token a) (λ _, clean) g.
Proof.
  intros Hg. apply wp_bind. eapply wp_mono; [|apply rwp_clean; [apply no_writes_try_permit|done]].
  intros [host|] g1 Hg1; [|done]. destruct (if inherited_flock a then _ else _) as [keys|e]; [|done].
  apply wp_bind. eapply wp_mono; [|by apply rwp_try_slot_lease].
  intros [[[]|e] lease] g2 Hg2; [|by apply rwp_cleanup_then..].
  apply wp_bind. eapply wp_mono; [|apply (rwp_keep lease); [apply no_writes_try_local|exact Hg2]].
  intros [[[]|e] local] g3 Hg3; [by apply rwp_body|by apply rwp_cleanup_then..].
Qed.

Lemma rwp_adaptive fuel cfg process s attempt g : clean g →
  rwp (adaptive_resource_slice digest barrier_file fuel cfg process s attempt) (λ _, clean) g.
Proof.
  revert attempt g. induction fuel as [|fuel IH]; intros attempt g Hg; [done|].
  apply wp_bind, wp_act; [done|]. intros host. cbn zeta. destruct (sl_allowed _); cbn [negb].
  - apply wp_bind. eapply wp_mono; [|by apply rwp_heavy_io_slot].
    intros [elapsed|[reason|e| |]] g1 Hg1; [by apply wp_bind, wp_act| |done..].
    apply wp_bind, wp_act; [done|]. intros ?. destruct (sc_wait s); [|done].
    apply wp_bind, wp_act; [done|]. intros y. destruct (_adaptive_poll_seconds _ _ _); [|done].
    apply wp_bind, wp_act; [done|]. intros ?. by apply IH.
  - destruct (sc_wait s); [|done]. apply wp_bind.
    eapply wp_mono; [|apply rwp_clean; [apply no_writes_wait|done]].
    intros [[|]|] g1 Hg1; [by apply IH|done..].
Qed.

Lemma rwp_program i r g : is_worker r = false → clean g →
  rwp (program_of digest barrier_file i r) (λ _, clean) g.
Proof.
  intros Hw Hg. unfold program_of, ignore. destruct r; [..|done]; apply wp_bind;
    (eapply wp_mono; [|first [by apply rwp_heavy_io_slot|by apply rwp_try_heavy_io_slot|by apply rwp_adaptive]]); done.
Qed.
End Slots.

(** ** Which leases a command writes *)

Lemma holds_insert now r k e k' v' : holds now (<[k := e]> r) k' v' →
  holds now r k' v' ∨ (k' = k ∧ e_value e = VLease v').
Proof.
  unfold holds. destruct (decide (k = k')) as [->|Hne]; [|rewrite rget_insert_ne by done; auto].
  unfold rget. rewrite lookup_insert_eq. cbn. destruct (live now e); [|done]. intros [= He]. auto.
Qed.

Lemma holds_delete now r k k' v' : holds now (delete k r) k' v' → holds now r k' v' ∧ k' ≠ k.
Proof.
  unfold holds. destruct (decide (k = k')) as [->|Hne]; [by rewrite rget_delete|].
  rewrite rget_delete_ne by done. auto.
Qed.

Lemma holds_set_nx now k v seconds r k' v' : holds now (set_nx now k v seconds r).1 k' v' →
  holds now r k' v' ∨ ((k', v') = (k, v) ∧ (set_nx now k v seconds r).2 = true).
Proof.
  unfold set_nx. destruct (rexists now r k); [auto|]. cbn. intros Hh. apply holds_insert in Hh as [|[-> [= <-]]]; auto.
Qed.

Lemma holds_release now k v r k' v' : holds now (_RELEASE_SCRIPT now k v r).1 k' v' →
  holds now r k' v' ∧ (k', v') ≠ (k, v).
Proof.
  unfold _RELEASE_SCRIPT. case_bool_decide as Hg; cbn; intros Hh.
  - apply holds_delete in Hh as [? Hne]. split; [done|]. congruence.
  - split; [done|]. intros [= -> ->]. done.
Qed.

Lemma holds_restore now marker r k' v' : holds now (restore_remote marker r) k' v' → holds now r k' v'.
Proof.
  unfold restore_remote. destruct marker; intros Hh; [by apply holds_insert in Hh as [|[_ ?]]|].
  by apply holds_delete in Hh as [? _].
Qed.

Lemma holds_stamp now r k' v' : holds now (stamp now r) k' v' → holds now r k' v'.
Proof. intros Hh. by apply holds_insert in Hh as [|[_ ?]]. Qed.

Lemma holds_grant now k v seconds r k' v' : holds now (grant now k v seconds r).1 k' v' →
  holds now r k' v' ∨ (k', v') = (k, v).
Proof.
  unfold grant. cbn [fst]. intros Hh.
  assert (Hh' : holds now (<[k := mkEntry (VLease v) (Some (now + seconds))]> r) k' v').
  { destruct (bool_decide _); [by apply holds_stamp|done]. }
  apply holds_insert in Hh' as [|[-> [= <-]]]; auto.
Qed.

Lemma holds_script now queued k v requested capacity seconds r k' v' :
  holds now (_RESERVE_SCRIPT now queued k v requested capacity seconds r).1 k' v' →
  holds now r k' v' ∨
  ((k', v') = (k, v) ∧ (_RESERVE_SCRIPT now queued k v requested capacity seconds r).2 = 1).
Proof.
  unfold _RESERVE_SCRIPT. destruct (rexists now r k); [auto|].
  destruct (reserved_total _ _ _); [|auto]. destruct (capacity <? _); [auto|].
  assert (Hg : holds now (grant now k v seconds r).1 k' v' → holds now r k' v' ∨
    ((k', v') = (k, v) ∧ (grant now k v seconds r).2 = 1)).
  { intros Hh. by apply holds_grant in Hh as [|]; auto. }
  destruct (_ && _); [|done]. destruct (rget now r LAST_BACKGROUND_KEY) as [[| |last|]|];
    try (intros Hh; left; by apply holds_stamp). by destruct (now - last <? 60); [auto|].
Qed.

Lemma holds_reserve now queued marker k v requested capacity seconds r k' v' :
  holds now (reserve_memory now queued marker k v requested capacity seconds r).1 k' v' →
  holds now r k' v' ∨
  ((k', v') = (k, v) ∧ (reserve_memory now queued marker k v requested capacity seconds r).2 = 1).
Proof.
  unfold reserve_memory. destruct (remote_fences marker k); [intros Hh; left; by eapply holds_restore|].
  intros Hh. apply holds_script in Hh as [Hh|]; [left; by eapply holds_restore|auto].
Qed.

Lemma holds_renew now k v seconds r k' v' : holds now (_RENEW_SCRIPT now k v seconds r).1 k' v' → holds now r k' v'.
Proof. unfold holds. destruct (rget_renew now k v seconds r k') as [->|Hn]; [done|]. by rewrite Hn. Qed.

Lemma holds_later now now' r k v : now <= now' → holds now' r k v → holds now r k v.
Proof. intros Hle. unfold holds. destruct (rget_later now now' r k Hle) as [->|Hn]; [done|]. by rewrite Hn. Qed.

(** ** Which leases a call writes *)

Definition world_holds (w : World) (k : pystr) (v : LeaseValue) : Prop := holds (w_now w) (w_redis w) k v.

Lemma redis_call_holds {A} (c : choice) (i : nat) (w : World) (f : redis → redis * A) (P : Prop) k v :
  (holds (w_now w) (f (w_redis w)).1 k v → P) → (world_holds w k v → P) →
  world_holds (redis_call c i w f).2 k v → P.
Proof. unfold redis_call. destruct (f (w_redis w)) as [r a]. intros H1 H2. by destruct (ch_fault c). Qed.

Lemma exec_holds_other {X} (c : choice) (i : nat) (w : World) (o : op X) k v :
  lawful i X o → (lv_token v).1 ≠ i → world_holds (exec c i w o).2 k v → world_holds w k v.
Proof.
  intros Hl Hne. destruct o; cbn [exec]; try done; try (eapply redis_call_holds; [|done]);
    try (unfold local_call; by destruct (ch_fault c)).
  - intros Hh. apply holds_set_nx in Hh as [|[[= -> ->] _]]; [done|]. by destruct Hl as (_ & _ & ?).
  - intros Hh. by apply holds_release in Hh as [? _].
  - apply holds_restore.
  - intros Hh. apply holds_reserve in Hh as [|[[= -> ->] _]]; [done|]. by destruct Hl as (_ & _ & _ & _ & _ & ?).
  - unfold local_call. by destruct (try_flock _ _ _ _), (ch_fault c).
Qed.

Lemma redis_call_own {A} (c : choice) (i : nat) (w : World) (f : redis → redis * A)
    (T : result io_error A → ledger) :
  (∀ e, (T (Err e)).2 = true) →
  (∀ k v, (lv_token v).1 = i → holds (w_now w) (f (w_redis w)).1 k v → (k, v) ∈ (T (Ok (f (w_redis w)).2)).1) →
  (T (redis_call c i w f).1).2 = false →
  ∀ k v, (lv_token v).1 = i → world_holds (redis_call c i w f).2 k v → (k, v) ∈ (T (redis_call c i w f).1).1.
Proof.
  unfold redis_call. destruct (f (w_redis w)) as [r a]. intros He Hok.
  destruct (ch_fault c); cbn [fst snd]; [intros _; exact Hok|by rewrite He..].
Qed.

Lemma exec_holds_own {X} (c : choice) (i : nat) (w : World) (o : op X) own f :
  (∀ k v, (lv_token v).1 = i → world_holds w k v → (k, v) ∈ own) →
  (lease_track X o (exec c i w o).1 (own, f)).2 = false →
  ∀ k v, (lv_token v).1 = i → world_holds (exec c i w o).2 k v →
    (k, v) ∈ (lease_track X o (exec c i w o).1 (own, f)).1.
Proof.
  intros Hown. destruct o; cbn [exec]; try done; try (by intros _; apply Hown);
    try (by unfold local_call; destruct (ch_fault c); intros _; apply Hown);
    try (apply (redis_call_own c i w _ (λ x, lease_track _ _ x (own, f))); [done|]; intros k' v' Hi Hh).
  - by apply Hown.
  - apply holds_set_nx in Hh as [Hh|[He Hb]].
    + apply (Hown _ _ Hi) in Hh. cbn. destruct (set_nx _ _ _ _ _).2; set_solver.
    + cbn. rewrite Hb, He. set_solver.
  - apply holds_release in Hh as [Hh Hne]. apply list_elem_of_In, List.filter_In.
    split; [by apply list_elem_of_In, Hown|]. by rewrite bool_decide_false.
  - apply holds_restore in Hh. by apply Hown.
  - apply holds_reserve in Hh as [Hh|[He Hb]].
    + apply (Hown _ _ Hi) in Hh. cbn [lease_track note fst]. destruct (_ =? 1); set_solver.
    + cbn [lease_track note fst]. rewrite Hb, He. cbn. set_solver.
  - unfold local_call. destruct (try_flock _ _ _ _), (ch_fault c); intros _; apply Hown.
Qed.

(** ** Every step *)

Lemma failed_sticky X (o : op X) x own : (lease_track X o x (own, true)).2 = true.
Proof. destruct o; cbn; try done; by destruct x. Qed.

(** The slot of the caller after a call. *)
Lemma exec_caller {X} (c : choice) (i : nat) (w : World) (o : op X) (s : Slot) own :
  w_slots w !! i = Some s →
  ∃ s', w_slots (exec c i w o).2 !! i = Some s' ∧ sl_role s' = sl_role s ∧ sl_crashed s' = sl_crashed s ∧
    sl_redis_failed s' = (lease_track X o (exec c i w o).1 (own, sl_redis_failed s)).2.
Proof.
  intros Hs.
  assert (Hw : ∀ f w0, w_slots w0 = w_slots w → w_slots (with_slot i f w0) !! i = Some (f s)).
  { intros f w0 He. unfold with_slot. cbn. by rewrite He, lookup_alter_eq, Hs. }
  assert (Hr : ∀ A (f : redis → redis * A) (T : result io_error A → ledger),
    (∀ a, (T (Ok a)).2 = sl_redis_failed s) → (∀ e, (T (Err e)).2 = true) →
    ∃ s', w_slots (redis_call c i w f).2 !! i = Some s' ∧ sl_role s' = sl_role s ∧ sl_crashed s' = sl_crashed s ∧
      sl_redis_failed s' = (T (redis_call c i w f).1).2).
  { intros A f T Ha He. unfold redis_call. destruct (f (w_redis w)) as [r a].
    destruct (ch_fault c); cbn [fst snd]; rewrite ?Ha, ?He; [by exists s|by exists (mark_failed s); rewrite Hw..]. }
  destruct o; cbn [exec];
    try (apply (Hr _ _ (λ x, lease_track _ _ x (own, sl_redis_failed s))); done);
    try (eexists; split; [by apply Hw|done]); try (by exists s);
    unfold local_call; try (destruct (try_flock _ _ _ _)); destruct (ch_fault c); by exists s.
Qed.

Lemma exec_others {X} (c : choice) (i j : nat) (w : World) (o : op X) :
  i ≠ j → w_slots (exec c i w o).2 !! j = w_slots w !! j.
Proof.
  intros Hne.
  assert (Hr : ∀ A (f : redis → redis * A), w_slots (redis_call c i w f).2 !! j = w_slots w !! j).
  { intros A f. unfold redis_call. destruct (f (w_redis w)). destruct (ch_fault c); [done|by apply lookup_alter_ne..]. }
  destruct o; cbn [exec]; try apply Hr; try done; try (by apply lookup_alter_ne);
    unfold local_call; try (destruct (try_flock _ _ _ _)); by destruct (ch_fault c).
Qed.

Section Steps.
Context `{Unicode} (digest : pystr → pystr) (barrier_file : pystr).

(** A slot whose account of its leases is kept: not a worker, alive or ended by
    itself, with all its Redis calls answered. *)
Definition accountable (s : Slot) : Prop := is_worker (sl_role s) = false ∧ sl_crashed s = false.

Record residue_inv (w : World) (own : nat → list (pystr * LeaseValue)) : Prop := {
  ri_known : ∀ k v, world_holds w k v → is_Some (w_slots w !! (lv_token v).1);
  ri_program : ∀ i s, w_slots w !! i = Some s → accountable s →
    rwp (sl_prog s) (λ _, clean) (own i, sl_redis_failed s);
  ri_own : ∀ i s k v, w_slots w !! i = Some s → accountable s → sl_redis_failed s = false →
    (lv_token v).1 = i → world_holds w k v → (k, v) ∈ own i }.

(** Steps that write no lease and move no slot. *)
Lemma residue_frame w w' own : w_slots w' = w_slots w →
  (∀ k v, world_holds w' k v → world_holds w k v) → residue_inv w own → residue_inv w' own.
Proof.
  intros Hs Hh [H1 H2 H3]. split; rewrite Hs; [naive_solver..|]. intros i s k v ? ? ? ? Hw. by eapply H3; eauto.
Qed.

Definition set_own (i : nat) (l : list (pystr * LeaseValue)) (own : nat → list (pystr * LeaseValue)) (j : nat) :=
  if bool_decide (i = j) then l else own j.

Lemma residue_new w own i r parent : w_slots w !! i = None → residue_inv w own →
  residue_inv (set_slots (<[i := new_slot digest barrier_file i r parent]> (w_slots w)) w) (set_own i [] own).
Proof.
  intros Hn [H1 H2 H3]. split; unfold set_own; cbn [w_slots set_slots].
  - intros k v Hh. destruct (decide (i = (lv_token v).1)) as [->|]; [by rewrite lookup_insert_eq|].
    rewrite lookup_insert_ne by done. by apply (H1 k).
  - intros j s. case_bool_decide as Hij; [subst j; rewrite lookup_insert_eq|rewrite lookup_insert_ne by done; apply H2].
    intros [= <-] [Hw _]. by apply rwp_program.
  - intros j s k v. case_bool_decide as Hij; [subst j|rewrite lookup_insert_ne by done; apply H3].
    intros _ _ _ Hi Hh. apply H1 in Hh. rewrite Hi, Hn in Hh. by destruct Hh.
Qed.

Lemma residue_call {X} w own (i : nat) (s : Slot) (o : op X) k c :
  memory_ok w → residue_inv w own → w_slots w !! i = Some s → sl_prog s = Act o k →
  residue_inv (with_slot i (set_prog (k (exec c i w o).1)) (exec c i w o).2)
    (set_own i (lease_track X o (exec c i w o).1 (own i, sl_redis_failed s)).1 own).
Proof.
  intros Hm [H1 H2 H3] Hs Hp. pose proof (mo_lawful _ Hm i s Hs) as Hlaw. rewrite Hp in Hlaw. destruct Hlaw as [Hlaw _].
  destruct (exec_caller c i w o s (own i) Hs) as (s' & Hs' & Hr' & Hc' & Hf').
  assert (Hacc : accountable (set_prog (k (exec c i w o).1) s') → accountable s).
  { unfold accountable. cbn. by rewrite Hr', Hc'. }
  assert (Hlook : ∀ j, w_slots (with_slot i (set_prog (k (exec c i w o).1)) (exec c i w o).2) !! j =
    if bool_decide (i = j) then Some (set_prog (k (exec c i w o).1) s') else w_slots w !! j).
  { intros j. unfold with_slot. cbn. case_bool_decide as Hij.
    - subst j. by rewrite lookup_alter_eq, Hs'.
    - by rewrite lookup_alter_ne, exec_others. }
  assert (Hother : ∀ k' v, (lv_token v).1 ≠ i → world_holds (exec c i w o).2 k' v → world_holds w k' v).
  { intros k' v Hne. by apply exec_holds_other. }
  split; unfold set_own.
  - intros k' v Hh. rewrite Hlook. case_bool_decide as Hij; [done|]. apply (H1 k'), Hother; [congruence|exact Hh].
  - intros j sj. rewrite Hlook. case_bool_decide as Hij; [subst j|apply H2].
    intros [= <-] Ha. pose proof (H2 i s Hs (Hacc Ha)) as Hw. rewrite Hp in Hw. destruct Hw as [_ Hw].
    cbn [sl_prog sl_redis_failed set_prog]. rewrite Hf'. rewrite <- surjective_pairing. apply Hw.
  - intros j sj k' v. rewrite Hlook. case_bool_decide as Hij; [subst j|].
    + intros [= <-] Ha Hf Hi Hh. cbn in Hf. rewrite Hf' in Hf.
      apply (exec_holds_own c i w o (own i) (sl_redis_failed s)); [|done|done|exact Hh].
      intros k0 v0 Hi0 Hh0. eapply H3; eauto.
      destruct (sl_redis_failed s) eqn:Hfs; [|done]. by rewrite failed_sticky in Hf.
    + intros Hj Ha Hf Hi Hh. eapply H3; eauto. apply Hother; [congruence|exact Hh].
Qed.

Lemma residue_step w w' own : step digest barrier_file w w' → memory_ok w → residue_inv w own →
  ∃ own', residue_inv w' own'.
Proof.
  intros Hstep Hm Hi.
  destruct Hstep as [i r Hn Hin|q s i r Hq Hrun Hn Hin Hw|i s X o k c Hs Hp Hy|i s Hs Hno|t Ht
    |i s ks v seconds k Hs Hr Hk| |h m q|i s ls receipt workload m ok Hs Hrun Hin Hls Hx Hmw Hcr|receipt ok|receipt uid m Hrec].
  - eexists. by apply residue_new.
  - eexists. by apply residue_new.
  - eexists. by apply (residue_call w own i s).
  - exists own. destruct Hi as [H1 H2 H3]. unfold with_slot. split; cbn [w_slots set_slots].
    + intros k v Hh. destruct (decide (i = (lv_token v).1)) as [->|]; [rewrite lookup_alter_eq; cbn; by rewrite Hs|].
      rewrite lookup_alter_ne by done. by apply (H1 k).
    + intros j sj. destruct (decide (i = j)) as [->|]; [|rewrite lookup_alter_ne by done; apply H2].
      rewrite lookup_alter_eq. cbn. rewrite Hs. by intros [= <-] [_ ?].
    + intros j sj k v. destruct (decide (i = j)) as [->|]; [|rewrite lookup_alter_ne by done; apply H3].
      rewrite lookup_alter_eq. cbn. rewrite Hs. by intros [= <-] [_ ?].
  - exists own. eapply (residue_frame w); [done| |done]. intros k v Hh. eapply holds_later; [exact Ht|exact Hh].
  - exists own. eapply (residue_frame w); [done| |done]. intros k' v'. apply holds_renew.
  - exists own. by eapply (residue_frame w).
  - exists own. by eapply (residue_frame w).
  - exists own. eapply (residue_frame w); [by destruct (ok && _)| |done]. intros k v.
    destruct (ok && _); [|done]. intros Hh. by apply holds_insert in Hh as [|[_ ?]].
  - exists own. eapply (residue_frame w); [by destruct (ok && _)| |done]. intros k v.
    destruct (ok && _); [|done]. intros Hh. by apply holds_delete in Hh as [? _].
  - exists own. by eapply (residue_frame w).
Qed.

Lemma residue_reachable w : reachable digest barrier_file w → ∃ own, residue_inv w own.
Proof.
  intros (host & memory & Hr).
  apply (rtc_ind_r (λ w, memory_ok w ∧ ∃ own, residue_inv w own)) in Hr; [tauto|..].
  - split; [apply (memory_ok_reachable digest barrier_file); exists host, memory; constructor|].
    by exists (λ _, []).
  - intros x y _ Hxy [Hm [own Hx]]. split; [by eapply memory_ok_step|by eapply residue_step].
Qed.
End Steps.
