(* ===== verification/HeavyIOSpec.v ===== *)
(** * Heavy-I/O leases: what they promise

    Exclusion between slices, the fence of an unresolved remote flight, the
    absence of residue, the bound on reserved memory, the rotation between
    ingest and background, and the end of a long wait for capacity. *)

From stdpp Require Import base gmap strings list numbers relations.
From Stdlib Require Import QArith.
From S2P Require Import Prelude PyStr Pressure Programs HeavyIO HeavyIOWorker HeavyIOWorld HeavyIOFacts HeavyIOLeases.

Open Scope string_scope.
Open Scope list_scope.
Open Scope Z_scope.

Section Spec.
Context `{Unicode} (digest : pystr → pystr) (barrier_file : pystr).

Lemma running_core s : running s = prog_running (sl_prog s).
Proof. done. Qed.

(** The process whose locks stand for a running slot is running and holds
    them. *)
Lemma authority_holds checked creator w i s p sp :
  lock_inv digest barrier_file (cores w) (w_flocks w) (w_marker w) checked creator →
  w_slots w !! i = Some s → running s = true → authority i s = Some p → w_slots w !! p = Some sp →
  running sp = true ∧ inherits (sl_role sp) = false.
Proof.
  intros Hi Hs Hr Ha Hp. unfold authority in Ha. destruct (inherits (sl_role s)) eqn:Hin.
  - apply cores_lookup in Hs. unfold core_of in Hs. rewrite Ha in Hs.
    destruct (li_parent _ _ _ _ _ _ _ Hi _ _ _ _ Hs) as (rq & parq & pq & Hq & Hrq & Hw).
    { rewrite running_core in Hr. by destruct (sl_prog s). }
    apply cores_lookup in Hp. rewrite Hq in Hp. unfold core_of in Hp. simplify_eq. split; [done|].
    by destruct (sl_role sp).
  - by simplify_eq.
Qed.


(** A slot enters its body only by a call of its own. *)
Lemma entered_by_call w w' i s' :
  step digest barrier_file w w' →
  (∀ s, w_slots w !! i = Some s → running s = false) → w_slots w' !! i = Some s' → running s' = true →
  (w_slots w !! i = None ∧ sl_prog s' = program_of digest barrier_file i (sl_role s')) ∨
  (∃ s X (o : op X) k c, w_slots w !! i = Some s ∧ sl_prog s = Act o k ∧ sl_role s' = sl_role s ∧
     sl_prog s' = k (exec c i w o).1 ∧ w_marker w' = w_marker w).
Proof.
  intros Hstep Hn Hs' Hr'.
  assert (Hsame : ∀ w0 : World, w_slots w0 = w_slots w → w_slots w0 !! i = Some s' → False).
  { intros w0 He Hw0. rewrite He in Hw0. rewrite (Hn _ Hw0) in Hr'. done. }
  destruct Hstep as [j r Hj Hin|q s j r Hq Hrun Hj Hin Hw|j s X o k c Hs Hp Hy|j s Hs Hno|t Ht
    |j s ks v seconds k Hs Hr Hk| |h m q|j s ls receipt workload m ok Hs Hrun Hin Hls Hx Hmw Hcr|receipt ok|receipt uid m Hrec];
    try (exfalso; by eapply Hsame; [|exact Hs']).
  - destruct (decide (j = i)) as [->|]; [|exfalso; cbn in Hs'; rewrite lookup_insert_ne in Hs' by done; by eapply (Hsame w)].
    cbn in Hs'. rewrite lookup_insert_eq in Hs'. injection Hs' as <-. by left.
  - destruct (decide (j = i)) as [->|]; [|exfalso; cbn in Hs'; rewrite lookup_insert_ne in Hs' by done; by eapply (Hsame w)].
    cbn in Hs'. rewrite lookup_insert_eq in Hs'. injection Hs' as <-. by left.
  - unfold with_slot in Hs'. cbn in Hs'. destruct (decide (j = i)) as [->|].
    + rewrite lookup_alter_eq in Hs'. destruct (exec_caller c i w o s [] Hs) as (s1 & Hs1 & Hr1 & _).
      rewrite Hs1 in Hs'. injection Hs' as <-. right. exists s, X, o, k, c.
      split_and!; [done|done|done|done|]. cbn. apply exec_marker.
    + exfalso. rewrite lookup_alter_ne in Hs' by done. rewrite exec_others in Hs' by done. by eapply (Hsame w).
  - unfold with_slot in Hs'. cbn in Hs'. destruct (decide (j = i)) as [->|].
    + rewrite lookup_alter_eq in Hs'. cbn in Hs'. rewrite Hs in Hs'. by injection Hs' as <-.
    + exfalso. rewrite lookup_alter_ne in Hs' by done. by eapply (Hsame w).
  - exfalso. eapply Hsame; [|exact Hs']. by destruct (ok && _).
  - exfalso. eapply Hsame; [|exact Hs']. by destruct (ok && _).
Qed.

(** The slot runs under its own locks, which conflict with the marker. *)
Definition in_conflict (m : FlightMarker) (s : Slot) : Prop :=
  inherits (sl_role s) = false ∧
  ∃ ls, role_locks digest barrier_file (sl_role s) = Some ls ∧ marker_conflicts ls (Some m) = true.

(** C14: While a remote search request is unresolved, at most one running slice
    has locks that conflict with it (the one that created it), and no slice with
    conflicting locks enters its body. *)
Theorem remote_flight_fences w m :
  reachable digest barrier_file w → w_marker w = Some m →
  (∀ i j si sj, w_slots w !! i = Some si → running si = true → in_conflict m si →
     w_slots w !! j = Some sj → running sj = true → in_conflict m sj → i = j) ∧
  (∀ w' i s', step digest barrier_file w w' → w_marker w' = Some m →
     (∀ s, w_slots w !! i = Some s → running s = false) →
     w_slots w' !! i = Some s' → running s' = true → ¬ in_conflict m s').
Proof.
  intros Hr Hm. destruct (lock_ok_reachable _ _ _ Hr) as (checked & creator & Hi). split.
  - assert (Hone : ∀ i s, w_slots w !! i = Some s → running s = true → in_conflict m s → creator = Some i).
    { intros i s Hs Hrun (Hin & ls & Hls & Hcf).
      pose proof (running_view _ _ _ _ _ _ _ _ _ _ _ Hi (cores_lookup _ _ _ Hs) Hrun) as Hv. rewrite Hls in Hv.
      destruct (li_fenced _ _ _ _ _ _ _ Hi _ _ _ _ _ _ (cores_lookup _ _ _ Hs) (proj2 Hv) Hin Hls Hm Hcf). done. }
    intros i j si sj Hsi Hri Hci Hsj Hrj Hcj.
    apply (Hone i si) in Hci; [|done..]. apply (Hone j sj) in Hcj; [|done..]. congruence.
  - intros w' i s' Hstep Hm' Hn Hs' Hr' (Hin & ls & Hls & Hcf).
    destruct (entered_by_call w w' i s' Hstep Hn Hs' Hr') as [[Hnone Hp]|(s & X & o & k & c & Hs & Hp & Hrole & Hp' & Hmk)].
    + pose proof (lwp_program digest barrier_file i (sl_role s') false) as Hw. rewrite <- Hp, Hls in Hw.
      rewrite running_core in Hr'. destruct (sl_prog s') as [|X o k]; [done|]. destruct o; try done.
      by destruct Hw as [[_ ?] _].
    + pose proof (cores_lookup _ _ _ Hs) as Hc. unfold core_of in Hc. rewrite Hp in Hc.
      destruct (exec_frame c i w o) as (_ & _ & He). rewrite Hm in He, Hi.
      pose proof (li_program _ _ _ _ _ _ _ Hi _ _ _ _ Hc) as [_ Hw]. specialize (Hw (exec c i w o).1).
      rewrite <- Hp', <- Hrole, Hls in Hw.
      assert (Hb : (lock_track (Some ls) X o (exec c i w o).1 (lock_view i (w_flocks w), checked i)).2 = true).
      { rewrite running_core in Hr'. destruct (sl_prog s') as [|Y o' k']; [done|]. destruct o'; try done.
        by destruct Hw as [[_ ?] _]. }
      rewrite Hrole in Hls, Hin. rewrite <- Hls in Hb.
      by rewrite (call_fenced _ _ _ _ _ _ _ _ _ _ _ _ _ _ _ Hi Hc He Hb Hin Hls) in Hcf.
Qed.

(** C15: A slot that ended, on whatever path, holds no lock file; and unless it
    was killed or one of its Redis calls raised, no key of Redis holds a lease of
    its own. *)
Theorem ended_slot_leaves_nothing w i s :
  reachable digest barrier_file w → w_slots w !! i = Some s → finished s = true →
  (∀ f, f ∈ w_flocks w → fl_owner f ≠ i) ∧
  (accountable s → sl_redis_failed s = false →
     ∀ k v, rget (w_now w) (w_redis w) k = Some (VLease v) → (lv_token v).1 ≠ i).
Proof.
  intros Hr Hs Hf. split.
  - destruct (lock_ok_reachable _ _ _ Hr) as (checked & creator & Hi).
    pose proof (li_program _ _ _ _ _ _ _ Hi _ _ _ _ (cores_lookup _ _ _ Hs)) as Hw. unfold finished in Hf.
    destruct (sl_prog s); [|done]. cbn in Hw. intros f Hfl <-.
    assert (Hv : lock_of f ∈ lock_view (fl_owner f) (w_flocks w)) by (apply elem_of_lock_view; eauto).
    rewrite Hw in Hv. by apply elem_of_nil in Hv.
  - destruct (residue_reachable _ _ _ Hr) as (own & Hi). intros Ha Hnf k v Hh Ht.
    pose proof (ri_program _ _ Hi _ _ Hs Ha) as Hw. unfold finished in Hf. destruct (sl_prog s); [|done].
    pose proof (ri_own _ _ Hi _ _ _ _ Hs Ha Hnf Ht Hh) as Hin. specialize (Hw Hnf). cbn in Hw. rewrite Hw in Hin.
    by apply elem_of_nil in Hin.
Qed.

(** C16: Whenever a lane is reserved, the live reservations of all lanes together
    fit the capacity one of the live leases was granted under. *)
Theorem reserved_memory_bounded w k0 :
  reachable digest barrier_file w → k0 ∈ LANE_KEYS → is_Some (rget (w_now w) (w_redis w) k0) →
  ∃ k v, k ∈ LANE_KEYS ∧ rget (w_now w) (w_redis w) k = Some (VLease v) ∧
    total_of (reserved_at (w_now w) (w_redis w)) LANE_KEYS <= lv_capacity_bytes v.
Proof.
  intros Hr Hk0 Hs0. destruct (mo_fit _ (memory_ok_reachable _ _ _ Hr)) as (order & vs & Hnd & Hin & Hvs & Hst).
  assert (Hp : order ≡ₚ List.filter (λ k, bool_decide (is_Some (rget (w_now w) (w_redis w) k))) LANE_KEYS).
  { apply NoDup_Permutation; [done|apply NoDup_ListNoDup, List.NoDup_filter, NoDup_ListNoDup|].
    - apply (bool_decide_unpack _). by vm_compute.
    - intros k. rewrite Hin, (list_elem_of_In (List.filter _ _) k), List.filter_In, <- list_elem_of_In.
      by rewrite bool_decide_eq_true. }
  assert (Ht : total_of (reserved_at (w_now w) (w_redis w)) LANE_KEYS = total_of lv_reserved_bytes vs).
  { rewrite <- (total_of_values _ _ _ _ Hvs), (total_of_perm _ _ _ Hp). symmetry. apply total_of_filter.
    intros k _ Hb. apply bool_decide_eq_false in Hb. unfold reserved_at.
    destruct (rget (w_now w) (w_redis w) k); [|done]. by destruct Hb. }
  rewrite Ht. destruct Hvs as [|k v order vs Hh Hvs].
  - pose proof (proj2 (Hin k0) (conj Hk0 Hs0)) as Hx. by apply elem_of_nil in Hx.
  - exists k, v. split_and!; [apply Hin; set_solver|done|]. by inversion Hst.
Qed.
End Spec.

(** ** Rotation of the background lane *)

Lemma rget_last_restored now r : rget now (restore_remote None r) LAST_BACKGROUND_KEY = rget now r LAST_BACKGROUND_KEY.
Proof. apply rget_delete_ne. by vm_compute. Qed.

Lemma rget_background_restored now r :
  rexists now (restore_remote None r) RESOURCE_BACKGROUND_TOKEN_KEY = rexists now r RESOURCE_BACKGROUND_TOKEN_KEY.
Proof. unfold rexists. cbn [restore_remote]. by rewrite rget_delete_ne. Qed.

(** A background attempt that yields leaves a stamp behind. *)
Lemma yield_leaves_stamp now queued v requested capacity seconds r r1 :
  (∀ t, rget now r LAST_BACKGROUND_KEY = Some (VStamp t) → t <= now) →
  reserve_memory now queued None RESOURCE_BACKGROUND_TOKEN_KEY v requested capacity seconds r = (r1, -3) →
  ∃ last, rget now r1 LAST_BACKGROUND_KEY = Some (VStamp last) ∧ last <= now.
Proof.
  intros Hpast. unfold reserve_memory. cbn [remote_fences]. unfold _RESERVE_SCRIPT, grant.
  assert (Hstamp : ∀ r0, rget now (stamp now r0) LAST_BACKGROUND_KEY = Some (VStamp now)).
  { intros r0. unfold rget, stamp. rewrite lookup_insert_eq. cbn. unfold live. cbn [e_expires].
    by rewrite (proj2 (Z.ltb_lt now (now + 86400))) by lia. }
  destruct (rexists _ _ _); [done|]. destruct (reserved_total _ _ _); [|done]. destruct (_ <? _); [done|].
  destruct (bool_decide _ && _); [|done].
  destruct (rget now (restore_remote None r) LAST_BACKGROUND_KEY) as [[| |last|]|] eqn:Hl;
    try (intros [= <-]; exists now; split; [apply Hstamp|lia]).
  destruct (now - last <? 60); [|done]. intros [= <-]. exists last. split; [done|].
  apply Hpast. by rewrite <- rget_last_restored.
Qed.


(** ** A long wait *)


(** ** A worker that stops *)

(** A worker that is asked to stop while it waits for admission hands its job
    back once, at the head of its queue, if the job is still queued; a job that
    was cancelled meanwhile is not revived; and in both cases the job has left
    the intermediate list. *)
Theorem stopped_job_returns id r :
  let '(r', code) := return_job id r in
  ¬ (id ∈ rl_intermediate r') ∧
  (rl_status r = Some "queued" →
     code = 1 ∧ head (rl_queue r') = Some id ∧ ¬ (id ∈ tail (rl_queue r')) ∧ rl_known r' = true ∧
     ∀ x, x ≠ id → x ∈ rl_queue r' ↔ x ∈ rl_queue r) ∧
  (rl_status r ≠ Some "queued" → code = 0 ∧ rl_queue r' = rl_queue r).
Proof.
  assert (Hl : ∀ x l, x ∈ lrem id l ↔ x ∈ l ∧ x ≠ id).
  { intros x l. unfold lrem. rewrite !list_elem_of_In, List.filter_In, negb_true_iff, bool_decide_eq_false. done. }
  unfold return_job. case_bool_decide as Hq; cbn [negb].
  - split_and!; cbn; [rewrite Hl; tauto| |done]. intros _. split_and!; [done|done|rewrite Hl; tauto|done|].
    intros x Hx. rewrite elem_of_cons, Hl. naive_solver.
  - split_and!; cbn; [rewrite Hl; tauto|done|done].
Qed.

(** * Heavy-I/O leases on concrete hosts

    A search slice and an import slice side by side, a search request in
    flight, a slot that ends, a maintenance slot kept out, and the witnesses of
    the theorems of [HeavyIOSpec]. *)

(** ** Running a process *)

Definition plain_digest (s : pystr) : pystr := s.
Definition fine : choice := mkChoice Fine 1 false.

Definition call_once (i : nat) (w : World) : World :=
  match w_slots w !! i with
  | Some s =>
      match sl_prog s with
      | Act o k => with_slot i (set_prog (k (exec fine i w o).1)) (exec fine i w o).2
      | Ret _ => w
      end
  | None => w
  end.

(** Up to [n] calls of process [i]; a body is left only when [leave] is set. *)
Fixpoint drive (leave : bool) (n : nat) (i : nat) (w : World) : World :=
  match n with
  | O => w
  | S n =>
      match w_slots w !! i with
      | Some s => if running s && (negb leave || has_live_child i w) then w
                  else drive leave n i (call_once i w)
      | None => w
      end
  end.

Section Drive.
Context `{Unicode} (digest : pystr → pystr) (barrier_file : pystr).
Local Abbreviation steps := (rtc (step digest barrier_file)).

Lemma call_once_steps i w s : w_slots w !! i = Some s →
  (running s = true → has_live_child i w = false) → steps w (call_once i w).
Proof.
  intros Hs Hy. unfold call_once. rewrite Hs. destruct (sl_prog s) as [|X o k] eqn:Hp; [constructor|].
  apply rtc_once, (step_call digest barrier_file w i s X o k fine Hs Hp).
  intros Ho. apply Hy. unfold running. by rewrite Hp.
Qed.

Lemma drive_steps leave n i w : steps w (drive leave n i w).
Proof.
  revert w. induction n as [|n IH]; intros w; cbn; [constructor|].
  destruct (w_slots w !! i) as [s|] eqn:Hs; [|constructor].
  destruct (running s && _) eqn:Hr; [constructor|].
  etrans; [|apply IH]. apply (call_once_steps i w s Hs). intros Hrun. rewrite Hrun in Hr. cbn in Hr.
  by apply orb_false_iff in Hr as [_ Hr].
Qed.

Lemma spawn_steps i r w : bool_decide (w_slots w !! i = None) = true → role_inherited r = None →
  steps w (set_slots (<[i := new_slot digest barrier_file i r None]> (w_slots w)) w).
Proof. intros Hi Hr. apply rtc_once, step_spawn; [by apply bool_decide_eq_true in Hi|done]. Qed.
End Drive.

Definition slot_at (i : nat) (w : World) : Slot :=
  default (mkSlot (RWorker 0 (mkJob [] None None None None []) [] []) None (Ret tt) None None false false)
    (w_slots w !! i).

Lemma slot_at_some i w : match w_slots w !! i with Some _ => true | None => false end = true →
  w_slots w !! i = Some (slot_at i w).
Proof. unfold slot_at. by destruct (w_slots w !! i). Qed.

(** ** A quiet host *)

Definition quiet_host : HostSnapshot :=
  mkHost (mkSnapshot "normal" None None) [] (Some (8 * 1024 ^ 3)) (Some (1024 ^ 3)).

Definition slot_of (workload : string) : role :=
  RSlot (mkArgs (u workload) (u "owner") None None 300 None).

Definition spawn (i : nat) (r : role) (w : World) : World :=
  set_slots (<[i := new_slot plain_digest LOCAL_LOCK_FILENAME i r None]> (w_slots w)) w.

Definition w0 : World := init quiet_host (8 * 1024 ^ 3).
(** A search slice, then an import slice, both in their bodies. *)
Definition w1 : World := drive false 30 1 (spawn 1 (slot_of "search") w0).
Definition w2 : World := drive false 30 0 (spawn 0 (slot_of "imports") w1).
(** A maintenance slot that tries beside them, and the search slice ended. *)
Definition w3 : World := drive false 30 2 (spawn 2 (slot_of "backup") w2).
Definition w4 : World := drive true 60 1 w3.

Lemma w2_reachable : reachable plain_digest LOCAL_LOCK_FILENAME w2.
Proof.
  exists quiet_host, (8 * 1024 ^ 3). etrans; [|apply drive_steps].
  etrans; [|by apply spawn_steps; vm_compute]. etrans; [|apply drive_steps].
  by apply spawn_steps; vm_compute.
Qed.

Lemma w4_reachable : reachable plain_digest LOCAL_LOCK_FILENAME w4.
Proof.
  destruct w2_reachable as (h & m & Hw). exists h, m. etrans; [exact Hw|]. etrans; [|apply drive_steps].
  etrans; [|apply drive_steps]. by apply spawn_steps; vm_compute.
Qed.

(** Ingest and background run side by side; maintenance is kept out. *)
Example lanes_coexist :
  running (slot_at 0 w2) = true ∧ running (slot_at 1 w2) = true ∧
  finished (slot_at 2 w3) = true ∧ sl_state (slot_at 2 w3) = Some ("waiting", Some "profile_busy") ∧
  finished (slot_at 1 w4) = true ∧ length (w_flocks w4) = 3%nat.
Proof. by vm_compute. Qed.

(** ** Witnesses *)

Definition locks_at (i : nat) (w : World) : LocalResourceLocks :=
  default (mkLocks [] false) (role_locks plain_digest LOCAL_LOCK_FILENAME (sl_role (slot_at i w))).

Lemma locks_at_some i w :
  match role_locks plain_digest LOCAL_LOCK_FILENAME (sl_role (slot_at i w)) with Some _ => true | None => false end = true →
  role_locks plain_digest LOCAL_LOCK_FILENAME (sl_role (slot_at i w)) = Some (locks_at i w).
Proof. unfold locks_at. by destruct (role_locks _ _ _). Qed.


(** The search slice sends a request. *)
Definition flight : FlightMarker := flight_payload 7 (u "search_index").
Definition w5 : World :=
  set_marker (Some flight)
    (set_redis (<[REMOTE_RESERVATION_KEY := mkEntry (VFlight flight) None]> (w_redis w2)) w2).

Lemma w5_reachable : reachable plain_digest LOCAL_LOCK_FILENAME w5.
Proof.
  destruct w2_reachable as (h & m & Hw). exists h, m. eapply rtc_r; [exact Hw|].
  refine (step_create plain_digest LOCAL_LOCK_FILENAME w2 1 (slot_at 1 w2) (locks_at 1 w2) 7 (u "search_index")
    flight true _ _ _ _ _ _ _).
  all: first [apply slot_at_some; vm_compute; reflexivity|apply locks_at_some; vm_compute; reflexivity
             |vm_compute; reflexivity|vm_compute; discriminate].
Qed.

Lemma remote_flight_fences_witness :
  (∀ i j si sj, w_slots w5 !! i = Some si → running si = true → in_conflict plain_digest LOCAL_LOCK_FILENAME flight si →
     w_slots w5 !! j = Some sj → running sj = true → in_conflict plain_digest LOCAL_LOCK_FILENAME flight sj → i = j) ∧
  (∀ w' i s', step plain_digest LOCAL_LOCK_FILENAME w5 w' → w_marker w' = Some flight →
     (∀ s, w_slots w5 !! i = Some s → running s = false) →
     w_slots w' !! i = Some s' → running s' = true → ¬ in_conflict plain_digest LOCAL_LOCK_FILENAME flight s').
Proof. exact (remote_flight_fences plain_digest LOCAL_LOCK_FILENAME w5 flight w5_reachable eq_refl). Defined.

Lemma ended_slot_leaves_nothing_witness :
  (∀ f, f ∈ w_flocks w4 → fl_owner f ≠ 1%nat) ∧
  (accountable (slot_at 1 w4) → sl_redis_failed (slot_at 1 w4) = false →
     ∀ k v, rget (w_now w4) (w_redis w4) k = Some (VLease v) → (lv_token v).1 ≠ 1%nat).
Proof.
  refine (ended_slot_leaves_nothing plain_digest LOCAL_LOCK_FILENAME w4 1 (slot_at 1 w4) w4_reachable _ _).
  - apply slot_at_some. vm_compute. reflexivity.
  - vm_compute. reflexivity.
Defined.

Lemma reserved_memory_bounded_witness :
  ∃ k v, k ∈ LANE_KEYS ∧ rget (w_now w2) (w_redis w2) k = Some (VLease v) ∧
    total_of (reserved_at (w_now w2) (w_redis w2)) LANE_KEYS <= lv_capacity_bytes v.
Proof.
  refine (reserved_memory_bounded plain_digest LOCAL_LOCK_FILENAME w2 RESOURCE_DISK_TOKEN_KEY w2_reachable _ _).
  - apply elem_of_cons. right. apply elem_of_cons. left. reflexivity.
  - vm_compute. eexists. reflexivity.
Defined.

Definition lease1 : LeaseValue := mkLeaseValue (9, 0)%nat (u "o") (u "search") (u "search_index") 100 1000.
Definition yielded_redis : redis :=
  (reserve_memory 500 true None RESOURCE_BACKGROUND_TOKEN_KEY lease1 100 1000 300 ∅).1.


(** A host that stays paused. *)
Definition paused_answers (X : Type) (o : op X) : X :=
  match o in op X return X with
  | PressureSnapshot => mkHost (mkSnapshot "paused" None None) [] None None
  | MemoryAvailable => Err OSError
  | Exists _ => Ok false
  | SetNX _ _ _ => Ok false
  | CompareDelete _ _ => Ok false
  | ReconcileReservation => Ok None
  | ReserveMemory _ _ _ _ _ => Ok 0
  | PublishReleased => tt
  | TryFlock _ _ => Ok false
  | Unlock _ => tt
  | ReadMarker => Ok None
  | StartRenewal _ _ _ => tt
  | StopRenewal => tt
  | SetState _ _ => tt
  | WaitEvent _ => tt
  | Uniform => 1%Q
  | LocalHardGate => false
  | ShutdownRequested => false
  | ReturnJob => tt
  | Yield => 0%Q
  end.


Lemma stopped_job_returns_example :
  return_job (u "job") (mkLists (Some "queued") [u "a"] [u "job"] true false) =
  (mkLists (Some "queued") [u "job"; u "a"] [] false true, 1).
Proof. by vm_compute. Qed.
