(* ===== verification/SearchRebuild.v ===== *)
(** * Rebuilding search indexes

    [app/services/search_rebuild.py]: a rebuild fills a staging index from the
    database, replays the changes recorded in the outbox meanwhile, swaps the
    indexes and acknowledges what it replayed, one persisted transition per
    delivery slice; with the batching of [app/services/search.py] and the
    enqueueing of [app/services/search_projection_outbox.py] it relies on.

    Documents are values of any type with their size on the wire.  A domain
    entity that exists but has no document is [Some None].  The reads of one
    [prepare_next] happen at one instant.  The engine runs one command of a
    receipt at a time ([SearchDelivery] shows why) and a command has its whole
    effect or none.  The receipts of ordinary delivery, which [SearchDelivery]
    builds, are any batch of pending rows with their current documents here.
    Timestamps and identifiers are integers; index generations, leases and the
    task run of a legacy owner are left out. *)

From stdpp Require Import base gmap strings list numbers sorting relations.
From S2P Require Import Prelude.

Open Scope Z_scope.

Abbreviation entity := (string * Z)%type.   (** an index and an identity *)

Inductive event_action := EUpsert | EDelete.
Global Instance event_action_eq_dec : EqDecision event_action.
Proof. solve_decision. Defined.

(** A row of the outbox; there is one for each entity. *)
Record OutboxRow := mkRow {
  ob_id : Z;
  ob_action : event_action;
  ob_version : Z;
  ob_completed : bool;
  ob_updated_at : Z }.
Global Instance OutboxRow_eq_dec : EqDecision OutboxRow.
Proof. solve_decision. Defined.

(** The name of an index in the engine. *)
Inductive index_name := LiveIndex (index : string) | StagingIndex (index : string) (build : Z).
Global Instance index_name_eq_dec : EqDecision index_name.
Proof. solve_decision. Defined.
Global Instance index_name_countable : Countable index_name.
Proof.
  apply (inj_countable' (λ n, match n with LiveIndex i => inl i | StagingIndex i b => inr (i, b) end)
    (λ x, match x with inl i => LiveIndex i | inr (i, b) => StagingIndex i b end)). by intros [].
Defined.

Inductive build_phase :=
| PSettings | PBuild | PReplay | PEnsureLive | PSwap | PAcknowledge | PDiscardReplay | PCleanup | PComplete.
Global Instance build_phase_eq_dec : EqDecision build_phase.
Proof. solve_decision. Defined.

Inductive build_state := BRunning | BCleaningFailure | BComplete | BFailed.
Global Instance build_state_eq_dec : EqDecision build_state.
Proof. solve_decision. Defined.

Inductive cursor := NoCursor | IdCursor (id : Z) | EventCursor (updated_at id : Z).

Record Progress := mkProgress {
  pr_indexes : list string;
  pr_position : nat;
  pr_cursor : cursor;
  pr_batch_size : Z;
  pr_counts : gmap string Z;
  pr_batches : Z;
  pr_replayed : Z;
  pr_since : Z;
  pr_swapped : bool }.

Record Build := mkBuild {
  bd_id : Z;
  bd_owner : option string;
  bd_state : build_state;
  bd_phase : build_phase;
  bd_progress : Progress;
  bd_last_error : option string;
  bd_updated_at : Z }.

Definition active (b : Build) : bool := negb (bool_decide (bd_state b ∈ [BComplete; BFailed])).

(** Field updates. *)
Definition at_index (position : nat) (c : cursor) (p : Progress) : Progress :=
  mkProgress (pr_indexes p) position c (pr_batch_size p) (pr_counts p) (pr_batches p) (pr_replayed p)
    (pr_since p) (pr_swapped p).
Definition counting (c : cursor) (index : string) (n : Z) (p : Progress) : Progress :=
  mkProgress (pr_indexes p) (pr_position p) c (pr_batch_size p)
    (<[index := default 0 (pr_counts p !! index) + n]> (pr_counts p)) (pr_batches p + 1) (pr_replayed p)
    (pr_since p) (pr_swapped p).
Definition replaying (c : cursor) (n : Z) (p : Progress) : Progress :=
  mkProgress (pr_indexes p) (pr_position p) c (pr_batch_size p) (pr_counts p) (pr_batches p)
    (pr_replayed p + n) (pr_since p) (pr_swapped p).
Definition mark_swapped (p : Progress) : Progress :=
  mkProgress (pr_indexes p) 0 NoCursor (pr_batch_size p) (pr_counts p) (pr_batches p) (pr_replayed p)
    (pr_since p) true.

Definition set_build (state : build_state) (phase : build_phase) (p : Progress) (error : option string)
    (now : Z) (b : Build) : Build :=
  mkBuild (bd_id b) (bd_owner b) state phase p error now.

Definition move (phase : build_phase) (p : Progress) (now : Z) (b : Build) : Build :=
  set_build (bd_state b) phase p (bd_last_error b) now b.

Section Rebuild.
Context {D : Type} (doc_bytes : D → Z) (id_bytes : Z → Z).

(** The remote command of a receipt. *)
Inductive command :=
| CSettings
| CUpsert (docs : list (Z * D))
| CDelete (ids : list Z)
| CCreate
| CSwap (pairs : list (index_name * index_name))
| CDrop.

Inductive receipt_outcome := Prepared | Succeeded | Refused (error : string).

(** [re_build]: the rebuild it belongs to, if any; [re_versions]: outbox rows
    with the versions they had; [re_phase] and [re_progress]: the continuation. *)
Record Receipt := mkReceipt {
  re_build : option Z;
  re_index : index_name;
  re_command : command;
  re_versions : list (Z * Z);
  re_phase : build_phase;
  re_progress : Progress;
  re_outcome : receipt_outcome }.

Record World := mkWorld {
  w_now : Z;
  w_domain : gmap entity (option D);
  w_outbox : gmap entity OutboxRow;
  w_next_row : Z;
  w_replay : gmap (Z * Z) Z;  (** of a build and an outbox row, the version replayed *)
  w_engine : gmap index_name (gmap Z D);
  w_build : option Build;     (** the active build *)
  w_history : list Build;     (** the finished ones *)
  w_next_build : Z;
  w_receipt : option Receipt }.

Definition set_domain d o n w :=
  mkWorld (w_now w) d o n (w_replay w) (w_engine w) (w_build w) (w_history w) (w_next_build w) (w_receipt w).
Definition set_tables o r w :=
  mkWorld (w_now w) (w_domain w) o (w_next_row w) r (w_engine w) (w_build w) (w_history w) (w_next_build w)
    (w_receipt w).
Definition set_engine e r w :=
  mkWorld (w_now w) (w_domain w) (w_outbox w) (w_next_row w) (w_replay w) e (w_build w) (w_history w)
    (w_next_build w) r.
Definition set_rebuild b r w :=
  mkWorld (w_now w) (w_domain w) (w_outbox w) (w_next_row w) (w_replay w) (w_engine w) b (w_history w)
    (w_next_build w) r.
Definition set_history b w :=
  mkWorld (w_now w) (w_domain w) (w_outbox w) (w_next_row w) (w_replay w) (w_engine w) None (b :: w_history w)
    (w_next_build w) (w_receipt w).
Definition set_clock t w :=
  mkWorld t (w_domain w) (w_outbox w) (w_next_row w) (w_replay w) (w_engine w) (w_build w) (w_history w)
    (w_next_build w) (w_receipt w).

(** ** The domain and the outbox *)

(** The document the builders make now. *)
Definition current (w : World) (k : entity) : option D := w_domain w !! k ≫= id.

(** [_enqueue_projection_action] for one entity, [id] a fresh row. *)
Definition _enqueue_projection_action (now id : Z) (a : event_action) (k : entity)
    (o : gmap entity OutboxRow) : gmap entity OutboxRow :=
  <[k := match o !! k with
         | Some row => mkRow (ob_id row) a (ob_version row + 1) false now
         | None => mkRow id a 1 false now
         end]> o.

(** ** Starting *)

Inductive build_error :=
| AnotherActive | UnsupportedIndexes | NoProgress | TooLarge | TooManyEvents | RemoteError | NoIndex.

(** The answer of [_status], without the elapsed time. *)
Record BuildStatus := mkStatus {
  st_status : string;
  st_build : Z;
  st_phase : build_phase;
  st_counts : list (string * Z);
  st_batches : Z;
  st_replayed : Z;
  st_message : string }.

Definition phase_name (phase : build_phase) : string :=
  match phase with
  | PSettings => "settings" | PBuild => "build" | PReplay => "replay" | PEnsureLive => "ensure_live"
  | PSwap => "swap" | PAcknowledge => "acknowledge" | PDiscardReplay => "discard_replay"
  | PCleanup => "cleanup" | PComplete => "complete"
  end%string.

Definition _status (b : Build) : BuildStatus :=
  let p := bd_progress b in
  mkStatus (match bd_state b with BComplete => "ok" | BFailed => "error" | _ => "pending" end)%string
    (bd_id b) (bd_phase b) ((λ i, (i, default 0 (pr_counts p !! i))) <$> pr_indexes p)
    (pr_batches p) (pr_replayed p)
    (match bd_last_error b with
     | Some e => if bool_decide (e = "") then "Search rebuild " ++ phase_name (bd_phase b) else e
     | None => "Search rebuild " ++ phase_name (bd_phase b)
     end)%string.

Definition rebuild_status (id : Z) (w : World) : option BuildStatus :=
  _status <$> List.find (λ b, bd_id b =? id) (option_list (w_build w) ++ w_history w).

Definition new_build (w : World) (owner : option string) (indexes : list string) (batch_size : Z) : Build :=
  mkBuild (w_next_build w) owner BRunning PSettings
    (mkProgress (fromkeys indexes) 0 NoCursor (Z.max 1 (Z.min 500 batch_size)) ∅ 0 0 (w_now w) false)
    None (w_now w).

Definition add_build (b : Build) (w : World) : World :=
  mkWorld (w_now w) (w_domain w) (w_outbox w) (w_next_row w) (w_replay w) (w_engine w) (Some b) (w_history w)
    (w_next_build w + 1) (w_receipt w).

(** [specs]: the indexes that can be rebuilt.  The writer lock is held: a busy
    writer answers without reading anything. *)
Definition start_rebuild (specs indexes : list string) (batch_size : Z) (owner : option string) (w : World)
    : result build_error (World * BuildStatus) :=
  match w_build w with
  | Some b =>
      if bool_decide (is_Some owner) && bool_decide (bd_owner b = owner) then Ok (w, _status b)
      else Err AnotherActive
  | None =>
      match (if bool_decide (is_Some owner)
             then List.find (λ b, bool_decide (bd_owner b = owner)) (w_history w) else None) with
      | Some b => Ok (w, _status b)
      | None =>
          if bool_decide (indexes = []) || existsb (λ i, negb (bool_decide (i ∈ specs))) indexes
          then Err UnsupportedIndexes
          else let b := new_build w owner indexes batch_size in Ok (add_build b w, _status b)
      end
  end.

Definition MEMBERSHIP_BOOTSTRAP_OWNER : string := "subscription-memberships-v1-bootstrap".
(** Under the empty prefix of production. *)
Definition MEMBERSHIPS_INDEX : string := "subscription_memberships_v1".

Definition membership_bootstrap_due_condition (w : World) : bool :=
  negb (existsb (λ b, bool_decide (bd_owner b = Some MEMBERSHIP_BOOTSTRAP_OWNER) &&
                      (negb (bool_decide (bd_state b = BFailed)) || (w_now w - 300 <? bd_updated_at b)))
          (w_history w)).

Definition _bootstrap_memberships (limit : Z) (w : World) : option World :=
  if membership_bootstrap_due_condition w
  then Some (add_build (new_build w (Some MEMBERSHIP_BOOTSTRAP_OWNER) [MEMBERSHIPS_INDEX] limit) w)
  else None.

(** ** Phases *)

Definition _advance_index (p : Progress) (phase next_phase : build_phase) : build_phase * Progress :=
  if (length (pr_indexes p) <=? S (pr_position p))%nat then (next_phase, at_index 0 NoCursor p)
  else (phase, at_index (S (pr_position p)) NoCursor p).

Definition _begin_failure (error : string) (now : Z) (b : Build) : Build :=
  if bool_decide (bd_state b = BCleaningFailure) then b
  else set_build BCleaningFailure (if pr_swapped (bd_progress b) then PAcknowledge else PDiscardReplay)
         (at_index 0 NoCursor (bd_progress b)) (Some (String.substring 0 4000 error)) now b.

Definition staging_of (b : Build) (index : string) : index_name := StagingIndex index (bd_id b).

(** [_receipt]: the next phase and progress travel with the command. *)
Definition _receipt (b : Build) (name : index_name) (c : command) (versions : list (Z * Z))
    (phase : build_phase) (p : Progress) : Receipt :=
  mkReceipt (Some (bd_id b)) name c versions phase p Prepared.

(** ** Reading the database *)

Definition MEILI_DOCUMENT_PAYLOAD_BYTES : Z := 4 * 1024 * 1024.
Definition WORK_DOCUMENT_BATCH_SIZE : Z := 500.

(** The first batch of [_document_batches]. *)
Fixpoint first_batch (docs batch : list (Z * D)) (batch_bytes : Z) : result build_error (list (Z * D)) :=
  match docs with
  | [] => Ok batch
  | d :: rest =>
      let document_bytes := doc_bytes d.2 in
      let separator_bytes := if bool_decide (batch = []) then 0 else 1 in
      if MEILI_DOCUMENT_PAYLOAD_BYTES <? document_bytes + 2 then Err TooLarge
      else if negb (bool_decide (batch = [])) &&
              ((WORK_DOCUMENT_BATCH_SIZE <=? Z.of_nat (length batch)) ||
               (MEILI_DOCUMENT_PAYLOAD_BYTES <? batch_bytes + separator_bytes + document_bytes))
      then Ok batch
      else first_batch rest (batch ++ [d]) (batch_bytes + separator_bytes + document_bytes)
  end.

(** The identities of an index after the cursor, in order. *)
Definition identities_after (w : World) (index : string) (c : cursor) : list Z :=
  merge_sort Z.le
    (List.filter (λ id, match c with IdCursor last => last <? id | _ => true end)
       ((λ kd, kd.1.2) <$> List.filter (λ kd, bool_decide (kd.1.1 = index)) (map_to_list (w_domain w)))).

(** The last identity before the first document that was not chosen. *)
Fixpoint covered_prefix (w : World) (index : string) (chosen : list Z) (ids : list Z) (last : option Z)
    : option Z :=
  match ids with
  | [] => last
  | id :: rest =>
      if bool_decide (is_Some (current w (index, id))) && negb (bool_decide (id ∈ chosen)) then last
      else covered_prefix w index chosen rest (Some id)
  end.

Definition documents_of (w : World) (index : string) (ids : list Z) : list (Z * D) :=
  omap (λ id, (λ d, (id, d)) <$> current w (index, id)) ids.

(** Events of an index after the cursor, in order of time and row. *)
Definition event_before (a b : entity * OutboxRow) : Prop :=
  ob_updated_at a.2 < ob_updated_at b.2 ∨
  (ob_updated_at a.2 = ob_updated_at b.2 ∧ ob_id a.2 <= ob_id b.2).
Global Instance event_before_dec a b : Decision (event_before a b).
Proof. unfold event_before. apply _. Defined.

Definition after_cursor (c : cursor) (row : OutboxRow) : bool :=
  match c with
  | EventCursor t id => (t <? ob_updated_at row) || ((t =? ob_updated_at row) && (id <? ob_id row))
  | _ => true
  end.

Definition events_after (w : World) (index : string) (since : Z) (c : cursor) : list (entity * OutboxRow) :=
  merge_sort event_before
    (List.filter (λ ke, bool_decide (ke.1.1 = index) &&
                        (negb (ob_completed ke.2) || (since <=? ob_updated_at ke.2)) && after_cursor c ke.2)
       (map_to_list (w_outbox w))).

Definition actual_action (w : World) (ke : entity * OutboxRow) : event_action :=
  if bool_decide (ob_action ke.2 = EUpsert) && bool_decide (is_Some (current w ke.1)) then EUpsert else EDelete.

Definition item_bytes (w : World) (a : event_action) (ke : entity * OutboxRow) : Z :=
  match a, current w ke.1 with
  | EUpsert, Some d => doc_bytes d
  | _, _ => id_bytes ke.1.2
  end.

(** The events of one request: a run of one action within the size limit. *)
Fixpoint replay_run (w : World) (a : event_action) (events taken : list (entity * OutboxRow)) (size : Z)
    : result build_error (list (entity * OutboxRow)) :=
  match events with
  | [] => Ok taken
  | ke :: rest =>
      if negb (bool_decide (actual_action w ke = a)) then Ok taken
      else
        let length := item_bytes w a ke + (if bool_decide (taken = []) then 0 else 1) in
        if MEILI_DOCUMENT_PAYLOAD_BYTES <? size + length
        then if bool_decide (taken = []) then Err TooLarge else Ok taken
        else replay_run w a rest (taken ++ [ke]) (size + length)
  end.

Definition replay_command (w : World) (index : string) (a : event_action) (events : list (entity * OutboxRow))
    : command :=
  match a with
  | EUpsert => CUpsert (documents_of w index ((λ ke, ke.1.2) <$> events))
  | EDelete => CDelete ((λ ke, ke.1.2) <$> events)
  end.

Definition versions_of (events : list (entity * OutboxRow)) : list (Z * Z) :=
  (λ ke, (ob_id ke.2, ob_version ke.2)) <$> events.

Definition cursor_after (events : list (entity * OutboxRow)) (c : cursor) : cursor :=
  match last events with Some ke => EventCursor (ob_updated_at ke.2) (ob_id ke.2) | None => c end.

(** The update that completes outbox rows at given versions. *)
Definition complete_versions (now : Z) (versions : list (Z * Z)) (o : gmap entity OutboxRow)
    : gmap entity OutboxRow :=
  (λ row, if bool_decide ((ob_id row, ob_version row) ∈ versions)
          then mkRow (ob_id row) (ob_action row) (ob_version row) true now else row) <$> o.

(** ** One transition *)

Definition hand_out (b : Build) (r : Receipt) (w : World) : World := set_rebuild (Some b) (Some r) w.
Definition stay (b : Build) (w : World) : World := set_rebuild (Some b) None w.

Definition prepare_settings (b : Build) (live : string) (w : World) : World :=
  let '(phase, p) := _advance_index (bd_progress b) PSettings PBuild in
  hand_out b (_receipt b (staging_of b live) CSettings [] phase p) w.

Definition prepare_build (limit : Z) (b : Build) (live : string) (w : World) : result build_error World :=
  let p := bd_progress b in
  let identities := take (Z.to_nat (Z.min limit (pr_batch_size p))) (identities_after w live (pr_cursor p)) in
  if bool_decide (identities = []) then
    let '(phase, p') := _advance_index p PBuild PReplay in Ok (stay (move phase p' (w_now w) b) w)
  else
    match first_batch (documents_of w live identities) [] 2 with
    | Err e => Err e
    | Ok payload =>
        match covered_prefix w live payload.*1 identities None with
        | None => Err NoProgress
        | Some last =>
            let p' := counting (IdCursor last) live (Z.of_nat (length payload)) p in
            if bool_decide (payload.*1 = []) then Ok (stay (move PBuild p' (w_now w) b) w)
            else Ok (hand_out b (_receipt b (staging_of b live) (CUpsert payload) [] PBuild p') w)
        end
    end.

Definition prepare_replay (limit : Z) (b : Build) (live : string) (w : World) : result build_error World :=
  let p := bd_progress b in
  let events := take (Z.to_nat (Z.min limit (pr_batch_size p)))
                  (events_after w live (pr_since p) (pr_cursor p)) in
  match events with
  | [] => let '(phase, p') := _advance_index p PReplay PEnsureLive in Ok (stay (move phase p' (w_now w) b) w)
  | first :: _ =>
      let a := actual_action w first in
      match replay_run w a events [] 2 with
      | Err e => Err e
      | Ok taken =>
          let p' := replaying (cursor_after taken (pr_cursor p)) (Z.of_nat (length taken)) p in
          if 500000 <? pr_replayed p' then Err TooManyEvents
          else Ok (hand_out b (_receipt b (staging_of b live) (replay_command w live a taken)
                                 (versions_of taken) PReplay p') w)
      end
  end.

(** [answers]: the engine answers the request for the live index. *)
Definition prepare_ensure_live (answers : bool) (b : Build) (live : string) (w : World)
    : result build_error World :=
  if negb answers then Err RemoteError
  else
    let '(phase, p) := _advance_index (bd_progress b) PEnsureLive PSwap in
    if bool_decide (w_engine w !! LiveIndex live = None)
    then Ok (hand_out b (_receipt b (LiveIndex live) CCreate [] phase p) w)
    else Ok (stay (move phase p (w_now w) b) w).

Definition swap_pairs (b : Build) : list (index_name * index_name) :=
  (λ i, (LiveIndex i, staging_of b i)) <$> pr_indexes (bd_progress b).

(** The command of a swap names its indexes itself. *)
Definition prepare_swap (b : Build) (live : string) (w : World) : World :=
  hand_out b (_receipt b (LiveIndex live) (CSwap (swap_pairs b)) [] PAcknowledge (mark_swapped (bd_progress b))) w.

Definition replay_rows (b : Build) (w : World) : list (Z * Z) :=
  (λ r, (r.1.2, r.2)) <$> List.filter (λ r, bool_decide (r.1.1 = bd_id b)) (map_to_list (w_replay w)).

Definition drop_replay (b : Build) (rows : list Z) (r : gmap (Z * Z) Z) : gmap (Z * Z) Z :=
  filter (λ kv, ¬ (kv.1.1 = bd_id b ∧ kv.1.2 ∈ rows)) r.

Definition prepare_acknowledge (b : Build) (w : World) : World :=
  let rows := take 500 (replay_rows b w) in
  if bool_decide (rows = []) then stay (move PCleanup (bd_progress b) (w_now w) b) w
  else
    set_tables
      (if bool_decide (bd_phase b = PAcknowledge) then complete_versions (w_now w) rows (w_outbox w)
       else w_outbox w)
      (drop_replay b rows.*1 (w_replay w)) w.

Definition prepare_cleanup (b : Build) (live : string) (w : World) : World :=
  let '(phase, p) := _advance_index (bd_progress b) PCleanup PComplete in
  hand_out b (_receipt b (staging_of b live) CDrop [] phase p) w.

Definition prepare_phase (limit : Z) (answers : bool) (b : Build) (w : World) : result build_error World :=
  match pr_indexes (bd_progress b) !! pr_position (bd_progress b) with
  | None => Err NoIndex
  | Some live =>
      match bd_phase b with
      | PSettings => Ok (prepare_settings b live w)
      | PBuild => prepare_build limit b live w
      | PReplay => prepare_replay limit b live w
      | PEnsureLive => prepare_ensure_live answers b live w
      | PSwap => Ok (prepare_swap b live w)
      | PAcknowledge | PDiscardReplay => Ok (prepare_acknowledge b w)
      | PCleanup => Ok (prepare_cleanup b live w)
      | PComplete => Ok (stay b w)
      end
  end.

(** [prepare_next]; nothing when there is no rebuild.  [stopped]: the owners
    whose task was cancelled, failed or went stale. *)
Definition prepare_next (limit : Z) (stopped : string → bool) (answers : bool) (w : World)
    : option (result build_error World) :=
  match (match w_build w with Some b => Some w | None => _bootstrap_memberships limit w end) with
  | None => None
  | Some w =>
      match w_build w with
      | None => None
      | Some b =>
          if match bd_owner b with Some o => stopped o | None => false end &&
             negb (bool_decide (bd_state b = BCleaningFailure))
          then Some (Ok (stay (_begin_failure "Rebuild owner stopped before the next remote command"
                                 (w_now w) b) w))
          else Some (prepare_phase limit answers b w)
      end
  end.

Definition fail_active (error : string) (w : World) : World :=
  match w_build w with
  | Some b => set_rebuild (Some (_begin_failure error (w_now w) b)) (w_receipt w) w
  | None => w
  end.

(** The errors after which the slice gives the rebuild up; the others leave it
    for the next slice. *)
Definition gives_up (e : build_error) : option string :=
  match e with
  | NoProgress => Some "Rebuild made no keyset progress"
  | TooLarge => Some "Search document exceeds 4 MiB"
  | TooManyEvents => Some "Rebuild replay exceeded 500,000 events"
  | _ => None
  end%string.

(** The rebuild's part of [_admitted] when there is no receipt; [None] leaves
    the slice to ordinary delivery. *)
Definition rebuild_slice (limit : Z) (stopped : string → bool) (answers : bool) (w : World) : option World :=
  match prepare_next limit stopped answers w with
  | None => None
  | Some (Ok w') => Some w'
  | Some (Err e) => Some (match gives_up e with Some text => fail_active text w | None => w end)
  end.

(** The workload a slice asks admission for. *)
Definition active_workload (w : World) : string :=
  match w_build w with
  | Some b => if bool_decide (bd_phase b = PSwap) then "maintenance" else "search_index"
  | None => "search_index"
  end%string.

(** ** Receipts *)

Definition insert_replay (build : Z) (versions : list (Z * Z)) (r : gmap (Z * Z) Z) : gmap (Z * Z) Z :=
  foldl (λ r v, <[(build, v.1) := v.2]> r) r versions.

(** The build at its continuation. *)
Definition continue_build (error : option string) (r : Receipt) (b : Build) (w : World) : World :=
  let w := set_tables (w_outbox w) (insert_replay (bd_id b) (re_versions r) (w_replay w)) w in
  if bool_decide (re_phase r = PComplete)
  then set_history (set_build (if bool_decide (bd_state b = BCleaningFailure) then BFailed else BComplete)
                      PComplete (re_progress r) error (w_now w) b) w
  else set_rebuild (Some (set_build (bd_state b) (re_phase r) (re_progress r) error (w_now w) b))
         (w_receipt w) w.

Definition is_drop (c : command) : bool := match c with CDrop => true | _ => false end.

Definition complete_receipt (r : Receipt) (b : Build) (w : World) : World :=
  match re_outcome r with
  | Refused e =>
      if negb (is_drop (re_command r)) then fail_active e w
      else if bool_decide (bd_state b = BCleaningFailure) then w
      else continue_build (Some ("Old index cleanup failed: " ++ e)%string) r b w
  | _ => continue_build (bd_last_error b) r b w
  end.

Definition close_receipt (w : World) : World := set_rebuild (w_build w) None w.

Definition refused (r : Receipt) : bool := match re_outcome r with Refused _ => true | _ => false end.

(** [_finalize] *)
Definition _finalize (r : Receipt) (w : World) : option World :=
  match re_build r with
  | Some id =>
      match w_build w with
      | Some b => if bool_decide (bd_id b = id) then Some (close_receipt (complete_receipt r b w)) else None
      | None => None
      end
  | None =>
      Some (close_receipt
              (if refused r then w
               else set_tables (complete_versions (w_now w) (re_versions r) (w_outbox w)) (w_replay w) w))
  end.

(** ** The engine *)

Definition index_docs (e : gmap index_name (gmap Z D)) (name : index_name) : gmap Z D := default ∅ (e !! name).

Definition swap_pair (e : gmap index_name (gmap Z D)) (ab : index_name * index_name)
    : option (gmap index_name (gmap Z D)) :=
  match e !! ab.1, e !! ab.2 with
  | Some x, Some y => Some (<[ab.1 := y]> (<[ab.2 := x]> e))
  | _, _ => None
  end.

(** The effect of a command that succeeds; [None] when it cannot.  Deleting a
    missing index counts as success. *)
Definition apply_command (e : gmap index_name (gmap Z D)) (name : index_name) (c : command)
    : option (gmap index_name (gmap Z D)) :=
  match c with
  | CSettings => Some (<[name := index_docs e name]> e)
  | CUpsert docs => Some (<[name := list_to_map (reverse docs) ∪ index_docs e name]> e)
  | CDelete ids => (λ m, <[name := foldr delete m ids]> e) <$> e !! name
  | CCreate => if bool_decide (e !! name = None) then Some (<[name := ∅]> e) else None
  | CSwap pairs => foldl (λ acc ab, acc ≫= λ e, swap_pair e ab) (Some e) pairs
  | CDrop => Some (delete name e)
  end.

(** ** Steps *)

(** A batch of ordinary delivery: pending rows of one index with one action. *)
Definition ordinary_receipt (w : World) (index : string) (a : event_action)
    (rows : list (entity * OutboxRow)) : Receipt :=
  mkReceipt None (LiveIndex index) (replay_command w index a rows) (versions_of rows) PSettings
    (mkProgress [] 0 NoCursor 0 ∅ 0 0 0 false) Prepared.

Definition ordinary_batch (w : World) (index : string) (a : event_action) (rows : list (entity * OutboxRow))
    : bool :=
  forallb (λ ke, bool_decide (w_outbox w !! ke.1 = Some ke.2) && bool_decide (ke.1.1 = index) &&
                 negb (ob_completed ke.2) && bool_decide (actual_action w ke = a)) rows.

Definition with_outcome (o : receipt_outcome) (r : Receipt) : Receipt :=
  mkReceipt (re_build r) (re_index r) (re_command r) (re_versions r) (re_phase r) (re_progress r) o.

Definition change (k : entity) (x : option (option D)) (a : event_action) (w : World) : World :=
  set_domain (partial_alter (λ _, x) k (w_domain w))
    (_enqueue_projection_action (w_now w) (w_next_row w) a k (w_outbox w)) (w_next_row w + 1) w.

Inductive step : World → World → Prop :=
(** A transaction changes or removes an entity and enqueues it; a deletion is
    enqueued only for what has no document. *)
| step_change w k x a : (a = EDelete → x ≫= id = None) → step w (change k x a w)
| step_clock w t : w_now w <= t → step w (set_clock t w)
(** [prune_completed_projection_events] *)
| step_prune w k row : w_outbox w !! k = Some row → ob_completed row = true →
    step w (set_tables (delete k (w_outbox w)) (w_replay w) w)
| step_start w w' specs indexes batch_size owner status :
    start_rebuild specs indexes batch_size owner w = Ok (w', status) → step w w'
| step_prepare w w' limit stopped answers :
    w_receipt w = None → 0 < limit → rebuild_slice limit stopped answers w = Some w' → step w w'
| step_ordinary w limit stopped answers index a rows :
    w_receipt w = None → rebuild_slice limit stopped answers w = None → ordinary_batch w index a rows = true →
    step w (set_rebuild (w_build w) (Some (ordinary_receipt w index a rows)) w)
| step_succeed w r e :
    w_receipt w = Some r → re_outcome r = Prepared →
    apply_command (w_engine w) (re_index r) (re_command r) = Some e →
    step w (set_engine e (Some (with_outcome Succeeded r)) w)
| step_refuse w r error :
    w_receipt w = Some r → re_outcome r = Prepared →
    step w (set_engine (w_engine w) (Some (with_outcome (Refused error) r)) w)
| step_finalize w w' r :
    w_receipt w = Some r → re_outcome r ≠ Prepared → _finalize r w = Some w' → step w w'.

(** The domain and the live indexes may hold anything when the tables are first
    used; the staging names of builds to come are unused. *)
Definition initial (w : World) : Prop :=
  w_outbox w = ∅ ∧ w_replay w = ∅ ∧ w_build w = None ∧ w_history w = [] ∧ w_receipt w = None ∧
  ∀ i b, w_next_build w <= b → w_engine w !! StagingIndex i b = None.

Inductive reachable : World → Prop :=
| reachable_initial w : initial w → reachable w
| reachable_step w w' : reachable w → step w w' → reachable w'.

End Rebuild.
