(* ===== verification/SearchRebuildFacts.v ===== *)
(** * The invariant of index rebuilds

    What is known of the staging and of the live indexes between two steps.  A
    document is clean when it is the current one, or when the outbox row of its
    entity is pending at a version that no acknowledgement to come names. *)

From stdpp Require Import base gmap strings list numbers sorting relations.
From S2P Require Import Prelude SearchRebuild.

Open Scope Z_scope.

Section Facts.
Context {D : Type}.
Implicit Types (w : @World D) (e : gmap index_name (gmap Z D)) (rep : gmap (Z * Z) Z) (k : entity) (b : Build).

(** Rows with the versions that may yet be acknowledged. *)
Abbreviation acks := (Z → Z → Prop).
Definition no_acks : acks := λ _ _, False.
Definition replay_acks rep b : acks := λ id v, rep !! (bd_id b, id) = Some v.
Definition version_acks (versions : list (Z * Z)) : acks := λ id v, (id, v) ∈ versions.

Definition pending w k : Prop := ∃ row, w_outbox w !! k = Some row ∧ ob_completed row = false.

Definition clean w (a : acks) (doc : option D) k : Prop :=
  doc = current w k ∨
  ∃ row, w_outbox w !! k = Some row ∧ ob_completed row = false ∧ ¬ a (ob_id row) (ob_version row).

Definition live_doc e k : option D := index_docs e (LiveIndex k.1) !! k.2.
Definition stage_doc e b k : option D := index_docs e (staging_of b k.1) !! k.2.

(** Rows have their own identifiers and a deleted entity has no document. *)
Record table_ok w : Prop := {
  to_fresh : ∀ k row, w_outbox w !! k = Some row → ob_id row < w_next_row w;
  to_inj : ∀ k k' row row', w_outbox w !! k = Some row → w_outbox w !! k' = Some row' →
    ob_id row = ob_id row' → k = k';
  to_deleted : ∀ k row, w_outbox w !! k = Some row → ob_action row = EDelete → current w k = None }.

(** An acknowledgement names a version the row had. *)
Definition bounded w (a : acks) : Prop :=
  ∀ id v, a id v →
    id < w_next_row w ∧ ∀ k row, w_outbox w !! k = Some row → ob_id row = id → v <= ob_version row.

Definition replay_ok w rep : Prop :=
  (∀ build id v, rep !! (build, id) = Some v → build < w_next_build w) ∧
  ∀ build, bounded w (λ id v, rep !! (build, id) = Some v).

(** Entities the keyset walk has passed. *)
Definition covered (p : Progress) k : Prop :=
  ∃ j, pr_indexes p !! j = Some k.1 ∧
    ((j < pr_position p)%nat ∨ (j = pr_position p ∧ ∃ last, pr_cursor p = IdCursor last ∧ k.2 <= last)).

Definition staged w e rep b k : Prop :=
  match bd_phase b with
  | PSettings => stage_doc e b k = None
  | PBuild => clean w (replay_acks rep b) (stage_doc e b k) k ∨
              (¬ covered (bd_progress b) k ∧ stage_doc e b k = None)
  | PReplay | PEnsureLive | PSwap => clean w (replay_acks rep b) (stage_doc e b k) k
  | _ => True
  end.

Definition phase_ok b : Prop :=
  match bd_phase b with
  | PAcknowledge => pr_swapped (bd_progress b) = true
  | PCleanup | PComplete => True
  | _ => pr_swapped (bd_progress b) = false
  end.

(** Replay rows are of the build's indexes. *)
Definition replay_of w rep b : Prop :=
  ∀ k row v, w_outbox w !! k = Some row → rep !! (bd_id b, ob_id row) = Some v →
    k.1 ∈ pr_indexes (bd_progress b).

Record build_ok w e rep b : Prop := {
  bo_id : bd_id b < w_next_build w;
  bo_batch : 0 < pr_batch_size (bd_progress b);
  bo_indexes : NoDup (pr_indexes (bd_progress b));
  bo_phase : phase_ok b;
  bo_replay : replay_of w rep b;
  bo_staged : ∀ k, k.1 ∈ pr_indexes (bd_progress b) → staged w e rep b k }.

(** The acknowledgements that may yet complete rows for the live indexes. *)
Definition live_acks rep (ob : option Build) : acks :=
  match ob with
  | Some b => if pr_swapped (bd_progress b) then replay_acks rep b else no_acks
  | None => no_acks
  end.

Definition live_clean w e (a : acks) (G : list string) : Prop :=
  ∀ k, k.1 ∈ G → clean w a (live_doc e k) k.

Definition fresh_staging w e : Prop := ∀ i n, w_next_build w <= n → e !! StagingIndex i n = None.

(** [G]: indexes that a rebuild has swapped in. *)
Record good w e rep (ob : option Build) (G : list string) : Prop := {
  gd_fresh : fresh_staging w e;
  gd_replay : replay_ok w rep;
  gd_build : match ob with Some b => build_ok w e rep b | None => True end;
  gd_live : live_clean w e (live_acks rep ob) G }.

(** A build at the continuation of a receipt. *)
Definition continued (r : Receipt (D:=D)) b : Build :=
  set_build (bd_state b) (re_phase r) (re_progress r) (bd_last_error b) (bd_updated_at b) b.
Definition continued_replay (r : Receipt (D:=D)) rep b : gmap (Z * Z) Z :=
  insert_replay (bd_id b) (re_versions r) rep.

Definition swap_names (r : Receipt (D:=D)) : list string :=
  match re_command r with
  | CSwap pairs => omap (λ ab, match ab.1 with LiveIndex i => Some i | _ => None end) pairs
  | _ => []
  end.

Definition after_success w (r : Receipt (D:=D)) (P : gmap index_name (gmap Z D) → list string → Prop)
    (G : list string) : Prop :=
  match re_outcome r with
  | Prepared => ∀ e, apply_command (w_engine w) (re_index r) (re_command r) = Some e → P e (swap_names r ++ G)
  | Succeeded => P (w_engine w) G
  | Refused _ => True
  end.

Definition before_success (r : Receipt (D:=D)) : bool :=
  match re_outcome r with Succeeded => false | _ => true end.

Record ordinary_ok w (r : Receipt (D:=D)) G : Prop := {
  oo_versions : bounded w (version_acks (re_versions r));
  oo_unswapped : swap_names r = [];
  oo_good : good w (w_engine w) (w_replay w) (w_build w) G;
  oo_build : ∀ b, w_build w = Some b → bd_phase b = PSettings;
  oo_after : after_success w r (λ e G, good w e (w_replay w) (w_build w) G ∧
    live_clean w e (version_acks (re_versions r)) G) G }.

Record rebuild_ok w (r : Receipt (D:=D)) b G : Prop := {
  ro_before : before_success r = true → good w (w_engine w) (w_replay w) (Some b) G;
  ro_dropped : before_success r = true → is_drop (re_command r) = true →
    good w (w_engine w) (continued_replay r (w_replay w) b) (Some (continued r b)) G;
  ro_after : after_success w r
    (λ e G, good w e (continued_replay r (w_replay w) b) (Some (continued r b)) G) G }.

Definition receipt_ok w G : Prop :=
  match w_receipt w with
  | None => good w (w_engine w) (w_replay w) (w_build w) G
  | Some r =>
      match re_build r with
      | None => ordinary_ok w r G
      | Some id => ∃ b, w_build w = Some b ∧ bd_id b = id ∧ rebuild_ok w r b G
      end
  end.

Definition inv w G : Prop := table_ok w ∧ receipt_ok w G.

(** ** Changes of the domain and the outbox *)

Lemma bounded_none w : bounded w no_acks.
Proof. done. Qed.

Lemma bounded_replay w rep b : replay_ok w rep → bounded w (replay_acks rep b).
Proof. intros [_ H]. apply H. Qed.

Lemma bounded_live w rep ob : replay_ok w rep → bounded w (live_acks rep ob).
Proof.
  intros H. destruct ob as [b|]; [|done]. simpl. case_match; [by apply bounded_replay|done].
Qed.

Lemma clean_weaken w a a' doc k :
  (∀ id v, a' id v → a id v) → clean w a doc k → clean w a' doc k.
Proof. intros Hsub [?|(row & ? & ? & Hne)]; [by left|]. right. exists row. naive_solver. Qed.

Lemma clean_none w a doc k : clean w a doc k → clean w no_acks doc k.
Proof. by apply clean_weaken. Qed.

Lemma clean_pending w a doc k : clean w a doc k → pending w k ∨ doc = current w k.
Proof. intros [?|(row & ? & ? & _)]; [by right|]. left. by exists row. Qed.

(** What the invariant needs of a change of the tables. *)
Record carries w w' : Prop := {
  ca_next : w_next_build w' = w_next_build w;
  ca_clean : ∀ a doc k, bounded w a → clean w a doc k → clean w' a doc k;
  ca_bounded : ∀ a, bounded w a → bounded w' a;
  ca_rows : ∀ k row', w_outbox w' !! k = Some row' →
    (∃ row, w_outbox w !! k = Some row ∧ ob_id row = ob_id row') ∨ w_next_row w <= ob_id row' }.

(** A step outside the rebuild. *)
Record evolves w w' : Prop := {
  ev_carries : carries w w';
  ev_engine : w_engine w' = w_engine w;
  ev_replay : w_replay w' = w_replay w;
  ev_build : w_build w' = w_build w;
  ev_receipt : w_receipt w' = w_receipt w }.

Lemma carries_replay_ok w w' rep : carries w w' → replay_ok w rep → replay_ok w' rep.
Proof.
  intros Hca [H1 H2]. split.
  - intros build id v. rewrite (ca_next _ _ Hca). apply H1.
  - intros build. apply (ca_bounded _ _ Hca), H2.
Qed.

Lemma carries_staged w w' e rep b k : carries w w' → replay_ok w rep → staged w e rep b k → staged w' e rep b k.
Proof.
  intros Hca Hrep. unfold staged.
  destruct (bd_phase b); try done; intros H;
    try (by apply (ca_clean _ _ Hca); [apply bounded_replay|]).
  destruct H as [H|H]; [left|by right]. by apply (ca_clean _ _ Hca); [apply bounded_replay|].
Qed.

Lemma carries_live w w' e a G : carries w w' → bounded w a → live_clean w e a G → live_clean w' e a G.
Proof. intros Hca Ha H k Hk. by apply (ca_clean _ _ Hca), H. Qed.

Lemma carries_good w w' e rep ob G : carries w w' → good w e rep ob G → good w' e rep ob G.
Proof.
  intros Hca [Hf Hr Hb Hl]. split.
  - unfold fresh_staging. by rewrite (ca_next _ _ Hca).
  - by eapply carries_replay_ok.
  - destruct ob as [b|]; [|done]. destruct Hb as [Hid Hbs Hnd Hph Hro Hst]. split; try done.
    + by rewrite (ca_next _ _ Hca).
    + intros k row' v Hrow Hv. destruct (ca_rows _ _ Hca _ _ Hrow) as [(row & Ho & Heq)|Hge].
      * apply (Hro k row v); [done|]. by rewrite Heq.
      * destruct Hr as [_ Hr]. apply (Hr (bd_id b)) in Hv as [? _]. lia.
    + intros k Hk. eapply carries_staged; eauto.
  - eapply carries_live; [done| |done]. by apply bounded_live.
Qed.

(** Worlds with the same tables. *)
Lemma same_carries w w' :
  w_domain w' = w_domain w → w_outbox w' = w_outbox w → w_next_row w' = w_next_row w →
  w_next_build w' = w_next_build w → carries w w'.
Proof.
  intros Hd Ho Hn Hb. split; [done|..].
  - intros a doc k _. unfold clean, current. by rewrite Hd, Ho.
  - intros a H id v [Hlt Hle]%H. rewrite Hn, Ho. eauto.
  - intros k row'. rewrite Ho. eauto.
Qed.

Lemma same_table w w' :
  w_domain w' = w_domain w → w_outbox w' = w_outbox w → w_next_row w' = w_next_row w → table_ok w → table_ok w'.
Proof.
  intros Hd Ho Hn [Hf Hi Hdel]. split; rewrite ?Ho, ?Hn; try done. unfold current. rewrite Hd. apply Hdel.
Qed.

Lemma evolves_after w w' r P P' G :
  evolves w w' → (∀ e G, P e G → P' e G) → after_success w r P G → after_success w' r P' G.
Proof.
  intros Hev HP. unfold after_success. rewrite (ev_engine _ _ Hev). case_match; eauto.
Qed.

Lemma evolves_receipt w w' G : evolves w w' → receipt_ok w G → receipt_ok w' G.
Proof.
  intros Hev. unfold receipt_ok.
  rewrite (ev_receipt _ _ Hev), (ev_engine _ _ Hev), (ev_replay _ _ Hev), (ev_build _ _ Hev).
  destruct (w_receipt w) as [r|]; [|apply carries_good, (ev_carries _ _ Hev)].
  destruct (re_build r) as [id|].
  - intros (b & ? & ? & [Hb Hd Ha]). exists b. split_and!; [done..|]. split.
    + rewrite (ev_engine _ _ Hev), (ev_replay _ _ Hev). intros ?. eapply carries_good; [apply (ev_carries _ _ Hev)|eauto].
    + rewrite (ev_engine _ _ Hev), (ev_replay _ _ Hev). intros ? ?. eapply carries_good; [apply (ev_carries _ _ Hev)|eauto].
    + rewrite (ev_replay _ _ Hev). eapply evolves_after; [done| |done]. intros. eapply carries_good; [apply (ev_carries _ _ Hev)|done].
  - intros [Hv Hs Hg Hb Ha]. split; try done.
    + by apply (ca_bounded _ _ (ev_carries _ _ Hev)).
    + rewrite (ev_engine _ _ Hev), (ev_replay _ _ Hev), (ev_build _ _ Hev). eapply carries_good; [apply (ev_carries _ _ Hev)|eauto].
    + by rewrite (ev_build _ _ Hev).
    + rewrite (ev_replay _ _ Hev), (ev_build _ _ Hev). eapply evolves_after; [done| |done].
      intros e G' []. split; [eapply carries_good; [apply (ev_carries _ _ Hev)|done]|eapply carries_live; [apply (ev_carries _ _ Hev)|done|done]].
Qed.

Lemma current_change_ne w k k' x a : k ≠ k' → current (change k x a w) k' = current w k'.
Proof. intros. unfold current, change; simpl. by rewrite lookup_partial_alter_ne. Qed.

Lemma current_change_eq w k x a : current (change k x a w) k = x ≫= id.
Proof. unfold current, change; simpl. by rewrite lookup_partial_alter_eq. Qed.

(** The row of an entity after it is enqueued. *)
Definition enqueued_row w a k : OutboxRow :=
  match w_outbox w !! k with
  | Some row => mkRow (ob_id row) a (ob_version row + 1) false (w_now w)
  | None => mkRow (w_next_row w) a 1 false (w_now w)
  end.

Lemma outbox_change w k x a : w_outbox (change k x a w) = <[k := enqueued_row w a k]> (w_outbox w).
Proof. done. Qed.

Lemma enqueued_version w a k (ak : acks) : bounded w ak →
  ¬ ak (ob_id (enqueued_row w a k)) (ob_version (enqueued_row w a k)).
Proof.
  intros Hb Heq. apply Hb in Heq as [Hlt Hle]. revert Hlt Hle. unfold enqueued_row.
  destruct (w_outbox w !! k) as [row|] eqn:Ho; simpl; intros Hlt Hle; [|lia].
  specialize (Hle k row Ho eq_refl). lia.
Qed.

Lemma change_bounded w k x a ak : table_ok w → bounded w ak → bounded (change k x a w) ak.
Proof.
  intros Ht Hb id v Hv. destruct (Hb id v Hv) as [Hlt Hle]. split; [simpl; lia|].
  intros k' row'. rewrite outbox_change. destruct (decide (k = k')) as [<-|Hne].
  - rewrite lookup_insert_eq. intros [= <-]. unfold enqueued_row.
    destruct (w_outbox w !! k) as [row|] eqn:Ho; simpl; intros Hid; [|lia].
    specialize (Hle k row Ho Hid). lia.
  - rewrite lookup_insert_ne by done. apply Hle.
Qed.

Lemma change_evolves w k x a : table_ok w → evolves w (change k x a w).
Proof.
  intros Ht. split; try done. split; try done.
  - intros ak doc k' Hb Hc. destruct (decide (k = k')) as [<-|Hne].
    + right. exists (enqueued_row w a k). rewrite outbox_change, lookup_insert_eq.
      split_and!; [done| |by apply enqueued_version].
      unfold enqueued_row. by destruct (w_outbox w !! k).
    + unfold clean. rewrite current_change_ne, outbox_change, lookup_insert_ne by done. apply Hc.
  - intros. by apply change_bounded.
  - intros k' row'. rewrite outbox_change. destruct (decide (k = k')) as [<-|Hne].
    + rewrite lookup_insert_eq. intros [= <-]. unfold enqueued_row.
      destruct (w_outbox w !! k) as [row|]; [left; eauto|right; simpl; lia].
    + rewrite lookup_insert_ne by done. eauto.
Qed.

Lemma change_table w k x a : (a = EDelete → x ≫= id = None) → table_ok w → table_ok (change k x a w).
Proof.
  intros Hx [Hf Hi Hd].
  assert (Hrow : ∀ k' row', w_outbox (change k x a w) !! k' = Some row' →
    (k = k' ∧ row' = enqueued_row w a k) ∨ (k ≠ k' ∧ w_outbox w !! k' = Some row')).
  { intros k' row'. rewrite outbox_change. destruct (decide (k = k')) as [<-|Hne].
    - rewrite lookup_insert_eq. intros [= <-]. by left.
    - rewrite lookup_insert_ne by done. by right. }
  assert (Hid : (∃ row, w_outbox w !! k = Some row ∧ ob_id row = ob_id (enqueued_row w a k)) ∨
                ob_id (enqueued_row w a k) = w_next_row w).
  { unfold enqueued_row. destruct (w_outbox w !! k); [left; eauto|by right]. }
  split.
  - intros k1 r1 [[-> ->]|[_ H]]%Hrow; [|apply Hf in H; simpl; lia].
    simpl. destruct Hid as [(row & Ho & <-)|Hid]; [|rewrite Hid; lia]. apply Hf in Ho. lia.
  - intros k1 k2 r1 r2 [[<- ->]|[_ H1]]%Hrow [[<- ->]|[_ H2]]%Hrow Heq; try done.
    + destruct Hid as [(row & ? & Hr)|Hr]; [|apply Hf in H2; lia]. eapply Hi; eauto. congruence.
    + destruct Hid as [(row & ? & Hr)|Hr]; [|apply Hf in H1; lia]. eapply Hi; eauto. congruence.
    + eauto.
  - intros k' row' [[<- ->]|[Hne H]]%Hrow Ha.
    + rewrite current_change_eq. apply Hx. revert Ha. unfold enqueued_row. by destruct (w_outbox w !! k).
    + rewrite current_change_ne by done. eauto.
Qed.

Lemma prune_evolves w k row : w_outbox w !! k = Some row → ob_completed row = true →
  evolves w (set_tables (delete k (w_outbox w)) (w_replay w) w).
Proof.
  intros Ho Hc. split; try done. split; try done.
  - intros a doc k' _ [?|(row' & Ho' & Hc' & Hne)]; [by left|right]. exists row'. split_and!; try done.
    simpl. rewrite lookup_delete_ne; [done|]. intros ->. congruence.
  - intros a Hb id v [Hlt Hle]%Hb. split; [done|]. intros k' row'. simpl.
    rewrite lookup_delete_Some. intros [_ ?]. eauto.
  - intros k' row'. simpl. rewrite lookup_delete_Some. intros [_ ?]. left. eauto.
Qed.

Lemma prune_table w k : table_ok w → table_ok (set_tables (delete k (w_outbox w)) (w_replay w) w).
Proof.
  intros [Hf Hi Hd]. split; simpl.
  - intros k' row' [_ ?]%lookup_delete_Some. eauto.
  - intros k1 k2 r1 r2 [_ ?]%lookup_delete_Some [_ ?]%lookup_delete_Some. eauto.
  - intros k' row' [_ ?]%lookup_delete_Some. unfold current; simpl. eauto.
Qed.

Lemma clock_evolves w t : evolves w (set_clock t w).
Proof. split; try done. by apply same_carries. Qed.

Lemma clock_table w t : table_ok w → table_ok (set_clock t w).
Proof. by apply same_table. Qed.

End Facts.

(** * The transitions of a rebuild keep the invariant

    The effect of commands on the documents, the keyset walk and each phase of
    [prepare_next]. *)

Section Commands.
Context {D : Type}.
Implicit Types (w : @World D) (e : gmap index_name (gmap Z D)) (rep : gmap (Z * Z) Z) (k : entity) (b : Build).

Lemma index_docs_eq e n m : index_docs (<[n := m]> e) n = m.
Proof. unfold index_docs. by rewrite lookup_insert_eq. Qed.

Lemma index_docs_ne e n n' m : n ≠ n' → index_docs (<[n := m]> e) n' = index_docs e n'.
Proof. intros. unfold index_docs. by rewrite lookup_insert_ne. Qed.

Definition is_swap (c : command (D:=D)) : bool := match c with CSwap _ => true | _ => false end.

(** A command other than a swap touches its index only. *)
Lemma apply_elsewhere e name c e' n :
  is_swap c = false → apply_command e name c = Some e' → n ≠ name → e' !! n = e !! n.
Proof.
  intros Hs H Hne. destruct c; simpl in H; simplify_eq; try done.
  - by rewrite lookup_insert_ne.
  - by rewrite lookup_insert_ne.
  - destruct (e !! name); simplify_eq/=. by rewrite lookup_insert_ne.
  - case_bool_decide; simplify_eq. by rewrite lookup_insert_ne.
  - by rewrite lookup_delete_ne.
Qed.

Lemma index_docs_elsewhere e name c e' n :
  is_swap c = false → apply_command e name c = Some e' → n ≠ name → index_docs e' n = index_docs e n.
Proof. intros. unfold index_docs. by erewrite apply_elsewhere. Qed.

(** Settings and creation leave every document. *)
Lemma apply_keeps_docs e name c e' n :
  c = CSettings ∨ c = CCreate → apply_command e name c = Some e' → index_docs e' n = index_docs e n.
Proof.
  intros Hc H. destruct (decide (n = name)) as [->|Hne].
  - destruct Hc as [->| ->]; simpl in H.
    + simplify_eq. by rewrite index_docs_eq.
    + case_bool_decide as Hn; simplify_eq. rewrite index_docs_eq. unfold index_docs. by rewrite Hn.
  - eapply index_docs_elsewhere; eauto. by destruct Hc as [->| ->].
Qed.

(** An index named by an active build or by a live name. *)
Definition known_name w (n : index_name) : Prop :=
  match n with LiveIndex _ => True | StagingIndex _ id => id < w_next_build w end.

Lemma apply_fresh w e name c e' :
  is_swap c = false → known_name w name → apply_command e name c = Some e' →
  fresh_staging w e → fresh_staging w e'.
Proof.
  intros Hs Hn H Hf i n Hle. rewrite (apply_elsewhere e name c e'); [by apply Hf|done..|].
  intros <-. simpl in Hn. lia.
Qed.

Lemma upsert_effect w index e name docs e' id :
  (∀ id d, (id, d) ∈ docs → current w (index, id) = Some d) →
  apply_command e name (CUpsert docs) = Some e' →
  index_docs e' name !! id = if bool_decide (id ∈ docs.*1) then current w (index, id) else index_docs e name !! id.
Proof.
  intros Hdocs [= <-]. rewrite index_docs_eq, lookup_union.
  destruct ((list_to_map (reverse docs) : gmap Z D) !! id) as [d|] eqn:Hl.
  - apply elem_of_list_to_map_2 in Hl. rewrite elem_of_reverse in Hl.
    rewrite bool_decide_true by (apply list_elem_of_fmap; by exists (id, d)).
    rewrite (Hdocs _ _ Hl). by destruct (index_docs e name !! id).
  - apply not_elem_of_list_to_map_2 in Hl.
    rewrite bool_decide_false; [by destruct (index_docs e name !! id)|].
    intros Hin. apply Hl. by rewrite fmap_reverse, elem_of_reverse.
Qed.

Lemma documents_of_current w index ids id d :
  (id, d) ∈ documents_of w index ids → current w (index, id) = Some d.
Proof.
  unfold documents_of. rewrite list_elem_of_omap. intros (id' & _ & H).
  destruct (current w (index, id')) eqn:Hc; simplify_eq/=. done.
Qed.

Lemma documents_of_ids w index ids id :
  id ∈ (documents_of w index ids).*1 ↔ id ∈ ids ∧ is_Some (current w (index, id)).
Proof.
  unfold documents_of. rewrite list_elem_of_fmap. split.
  - intros ([id' d] & -> & (x & Hx & H)%list_elem_of_omap).
    destruct (current w (index, x)) eqn:Hc; simplify_eq/=. by rewrite Hc.
  - intros [Hin [d Hd]]. exists (id, d). split; [done|]. apply list_elem_of_omap.
    exists id. by rewrite Hd.
Qed.

Lemma apply_delete e name ids e' id :
  apply_command e name (CDelete ids) = Some e' →
  index_docs e' name !! id = if bool_decide (id ∈ ids) then None else index_docs e name !! id.
Proof.
  simpl. intros H. destruct (e !! name) as [m|] eqn:Hm; simplify_eq/=. rewrite index_docs_eq.
  unfold index_docs. rewrite Hm. simpl. case_bool_decide.
  - by apply lookup_foldr_delete.
  - by apply lookup_foldr_delete_not_elem_of.
Qed.

(** The rows of a request: rows of the outbox, of one index and one action. *)
Definition request_rows w (index : string) (a : event_action) (rows : list (entity * OutboxRow)) : Prop :=
  ∀ ke, ke ∈ rows → w_outbox w !! ke.1 = Some ke.2 ∧ ke.1.1 = index ∧ actual_action w ke = a.

Lemma actual_delete w ke : table_ok w → w_outbox w !! ke.1 = Some ke.2 → actual_action w ke = EDelete →
  current w ke.1 = None.
Proof.
  intros Ht Ho. unfold actual_action. intros H. destruct (current w ke.1) as [d|] eqn:Hc; [|done].
  destruct (ob_action ke.2) eqn:Ha; [done|]. by rewrite (to_deleted _ Ht _ _ Ho Ha) in Hc.
Qed.

Lemma actual_upsert w ke : actual_action w ke = EUpsert → is_Some (current w ke.1).
Proof.
  unfold actual_action. destruct (bool_decide (ob_action ke.2 = EUpsert)); simpl; [|done].
  by case_bool_decide.
Qed.

Lemma elem_keys (rows : list (entity * OutboxRow)) k : k ∈ rows.*1 → ∃ row, (k, row) ∈ rows.
Proof. intros ([k' row] & -> & ?)%list_elem_of_fmap. by exists row. Qed.

(** After a request its entities have their current documents. *)
Lemma request_effect w index a rows e name e' id :
  table_ok w → request_rows w index a rows →
  apply_command e name (replay_command w index a rows) = Some e' →
  index_docs e' name !! id =
    if bool_decide ((index, id) ∈ rows.*1) then current w (index, id) else index_docs e name !! id.
Proof.
  intros Ht Hrows H.
  assert (Hids : id ∈ (λ ke : entity * OutboxRow, ke.1.2) <$> rows ↔ (index, id) ∈ rows.*1).
  { rewrite !list_elem_of_fmap. split; intros (ke & Heq & Hin); exists ke; simplify_eq/=; split; try done.
    - destruct (Hrows _ Hin) as (_ & <- & _). by destruct ke as [[??] ?].
    - by rewrite <-Heq. }
  destruct a; simpl replay_command in H.
  - rewrite (upsert_effect w index e name _ e' id) by (try done; apply documents_of_current).
    case_bool_decide as H1; case_bool_decide as H2; try done.
    + apply documents_of_ids in H1 as [H1 _]. by apply Hids in H1.
    + destruct H1. apply documents_of_ids. split; [by apply Hids|].
      apply elem_keys in H2 as [row Hin]. apply (actual_upsert w (index, id, row)), (Hrows _ Hin).
  - rewrite (apply_delete _ _ _ _ _ H). rewrite (bool_decide_ext _ _ Hids).
    case_bool_decide as H2; [|done]. apply elem_keys in H2 as [row Hin].
    destruct (Hrows _ Hin) as (? & _ & ?). symmetry. by apply (actual_delete w (index, id, row)).
Qed.

(** ** Swaps *)

Definition pairs_of b (ixs : list string) : list (index_name * index_name) :=
  (λ i, (LiveIndex i, staging_of b i)) <$> ixs.

Lemma swap_none (pairs : list (index_name * index_name)) :
  foldl (λ (acc : option (gmap index_name (gmap Z D))) ab, acc ≫= λ e, swap_pair e ab) None pairs = None.
Proof. by induction pairs. Qed.

Record swapped_in b (ixs : list string) e e' : Prop := {
  sw_live : ∀ i, i ∈ ixs → e' !! LiveIndex i = e !! staging_of b i;
  sw_other : ∀ i, i ∉ ixs → e' !! LiveIndex i = e !! LiveIndex i;
  sw_kept : ∀ i, i ∉ ixs → e' !! staging_of b i = e !! staging_of b i;
  sw_builds : ∀ i n, n ≠ bd_id b → e' !! StagingIndex i n = e !! StagingIndex i n }.

Lemma swap_effect b ixs e e' : NoDup ixs →
  foldl (λ acc ab, acc ≫= λ e, swap_pair e ab) (Some e) (pairs_of b ixs) = Some e' → swapped_in b ixs e e'.
Proof.
  intros Hnd. revert e. induction Hnd as [|i ixs Hi Hnd IH]; intros e; [intros [= <-]; split; set_solver|]. simpl.
  unfold swap_pair at 2. simpl. destruct (e !! LiveIndex i) as [x|] eqn:Hx; [|by rewrite swap_none].
  destruct (e !! staging_of b i) as [y|] eqn:Hy; [|by rewrite swap_none].
  intros [Hl Ho Hk Hb]%IH. split; unfold staging_of in *.
  - intros j [->|Hj]%elem_of_cons.
    + rewrite Ho by done. by rewrite lookup_insert_eq.
    + rewrite Hl by done. rewrite !lookup_insert_ne; [done|by intros [= ->]|done].
  - intros j [Hne Hj]%not_elem_of_cons. rewrite Ho by done. by rewrite !lookup_insert_ne by (intros ?; simplify_eq).
  - intros j [Hne Hj]%not_elem_of_cons. rewrite Hk by done. by rewrite !lookup_insert_ne by (intros ?; simplify_eq).
  - intros j n Hn. rewrite Hb by done. by rewrite !lookup_insert_ne by (intros ?; simplify_eq).
Qed.

Lemma swap_pairs_names b : omap (λ ab, match ab.1 with LiveIndex i => Some i | _ => None end) (swap_pairs b) =
  pr_indexes (bd_progress b).
Proof.
  unfold swap_pairs. induction (pr_indexes (bd_progress b)) as [|i ixs IH]; [done|]. simpl.
  f_equal. exact IH.
Qed.

(** ** The keyset walk *)

Lemma identities_after_elem w index c id :
  id ∈ identities_after w index c ↔
  is_Some (w_domain w !! (index, id)) ∧ (match c with IdCursor last => last < id | _ => True end).
Proof.
  unfold identities_after. rewrite merge_sort_Permutation, list_elem_of_In, List.filter_In, <-list_elem_of_In.
  rewrite list_elem_of_fmap. split.
  - intros [([[i id'] x] & -> & Hin) Hc]. rewrite list_elem_of_In, List.filter_In, <-list_elem_of_In in Hin.
    destruct Hin as [Hin Hi]. apply bool_decide_eq_true in Hi. simpl in *. subst i.
    apply elem_of_map_to_list in Hin. split; [by eexists|]. destruct c; try done. lia.
  - intros [[x Hx] Hc]. split; [|destruct c; lia || done].
    exists (index, id, x). split; [done|]. rewrite list_elem_of_In, List.filter_In, <-list_elem_of_In.
    split; [by apply elem_of_map_to_list|]. by apply bool_decide_eq_true.
Qed.

Lemma current_domain w k : is_Some (current w k) → is_Some (w_domain w !! k).
Proof. unfold current. destruct (w_domain w !! k); [by eexists|]. by intros []. Qed.

Lemma covered_prefix_split w index chosen ids acc :
  ∃ l1 l2, ids = l1 ++ l2 ∧
    (∀ id, id ∈ l1 → current w (index, id) = None ∨ id ∈ chosen) ∧
    covered_prefix w index chosen ids acc = match last l1 with Some x => Some x | None => acc end.
Proof.
  revert acc. induction ids as [|id ids IH]; intros acc; simpl.
  - exists [], []. split_and!; [done|set_solver|done].
  - destruct (bool_decide (is_Some (current w (index, id))) && negb (bool_decide (id ∈ chosen))) eqn:Hc.
    + exists [], (id :: ids). split_and!; [done|set_solver|done].
    + destruct (IH (Some id)) as (l1 & l2 & -> & Hok & ->). exists (id :: l1), l2. split_and!; [done| |].
      * intros x [->|Hx]%elem_of_cons; [|by apply Hok].
        destruct (decide (id ∈ chosen)) as [|Hn]; [by right|left].
        rewrite (bool_decide_false (id ∈ chosen)) in Hc by done. simpl in Hc. rewrite andb_true_r in Hc.
        apply bool_decide_eq_false in Hc. by apply eq_None_not_Some.
      * rewrite last_cons. by destruct (last l1).
Qed.

Lemma last_elem {A} (l : list A) x : last l = Some x → x ∈ l.
Proof. rewrite last_Some. intros [l' ->]. set_solver. Qed.

(** The walk passes an entity with a document only when it sends it. *)
Lemma walk_covers w index c n chosen last id :
  covered_prefix w index chosen (take n (identities_after w index c)) None = Some last →
  id <= last → (match c with IdCursor x => x < id | _ => True end) →
  current w (index, id) = None ∨ id ∈ chosen.
Proof.
  intros Hp Hle Hc.
  destruct (covered_prefix_split w index chosen (take n (identities_after w index c)) None)
    as (l1 & l2 & Hl & Hok & Hlast).
  rewrite Hlast in Hp. destruct (list.last l1) as [x|] eqn:Hx; [|done]. injection Hp as ->.
  apply last_elem in Hx. destruct (current w (index, id)) as [d|] eqn:Hd; [right|by left].
  assert (Hin : id ∈ identities_after w index c).
  { apply identities_after_elem. split; [|done]. apply current_domain. by rewrite Hd. }
  assert (Hs : StronglySorted Z.le (identities_after w index c))
    by (apply StronglySorted_merge_sort; apply _).
  rewrite <-(take_drop n (identities_after w index c)), Hl, <-app_assoc in Hin, Hs.
  assert (Hin' : id ∈ l1).
  { apply elem_of_app in Hin as [?|Hin]; [done|]. assert (last <= id) by by eapply (StronglySorted_app_1_elem_of Z.le).
    by replace id with last by lia. }
  destruct (Hok _ Hin') as [?|?]; [congruence|done].
Qed.

End Commands.

Section Phases.
Context {D : Type}.
Implicit Types (w : @World D) (e : gmap index_name (gmap Z D)) (rep : gmap (Z * Z) Z) (k : entity) (b : Build).

Lemma good_rebuild w e rep ob G ob' r' : good w e rep ob G → good (set_rebuild ob' r' w) e rep ob G.
Proof. apply carries_good. by apply same_carries. Qed.

Lemma table_rebuild w ob' r' : table_ok w → table_ok (set_rebuild ob' r' w).
Proof. by apply same_table. Qed.

Lemma stay_inv w b G : table_ok w → good w (w_engine w) (w_replay w) (Some b) G → inv (stay b w) G.
Proof. intros Ht Hg. split; [by apply table_rebuild|]. by apply good_rebuild. Qed.

Lemma hand_out_inv w b name c versions phase p G :
  let r := _receipt b name c versions phase p in
  table_ok w → good w (w_engine w) (w_replay w) (Some b) G →
  (is_drop c = true → good w (w_engine w) (continued_replay r (w_replay w) b) (Some (continued r b)) G) →
  (∀ e, apply_command (w_engine w) name c = Some e →
    good w e (continued_replay r (w_replay w) b) (Some (continued r b)) (swap_names r ++ G)) →
  inv (hand_out b r w) G.
Proof.
  intros r Ht Hg Hd Ha. split; [by apply table_rebuild|]. exists b. split_and!; [done..|]. split.
  - intros _. by apply good_rebuild.
  - intros _ ?. apply good_rebuild. by apply Hd.
  - intros e He. apply good_rebuild. by apply Ha.
Qed.

(** A build at another place of the same work. *)
Record reshaped b b' : Prop := {
  rs_id : bd_id b' = bd_id b;
  rs_indexes : pr_indexes (bd_progress b') = pr_indexes (bd_progress b);
  rs_batch : pr_batch_size (bd_progress b') = pr_batch_size (bd_progress b);
  rs_swapped : pr_swapped (bd_progress b') = pr_swapped (bd_progress b) }.

Lemma insert_replay_lookup build versions rep build' id v :
  insert_replay build versions rep !! (build', id) = Some v →
  (build' = build ∧ (id, v) ∈ versions) ∨ rep !! (build', id) = Some v.
Proof.
  unfold insert_replay. induction versions as [|[x y] versions IH] using rev_ind; [by right|].
  rewrite foldl_app. simpl. intros [[Heq <-]|[_ H]]%lookup_insert_Some.
  - simplify_eq. left. set_solver.
  - destruct (IH H) as [[-> ?]|?]; [left; set_solver|by right].
Qed.

(** Versions read from rows of the build's indexes. *)
Definition versions_read w b (versions : list (Z * Z)) : Prop :=
  ∀ id v, (id, v) ∈ versions → ∃ k row, w_outbox w !! k = Some row ∧ ob_id row = id ∧ ob_version row = v ∧
    k.1 ∈ pr_indexes (bd_progress b).

Lemma versions_read_bounded w b versions : table_ok w → versions_read w b versions →
  bounded w (version_acks versions).
Proof.
  intros Ht Hv id v Hin. destruct (Hv _ _ Hin) as (k & row & Ho & <- & <- & _).
  split; [by eapply to_fresh|]. intros k' row' Ho' Heq.
  assert (k' = k) as -> by (eapply to_inj; eauto). by simplify_eq.
Qed.

Lemma insert_replay_ok w rep b versions : table_ok w → bd_id b < w_next_build w → versions_read w b versions →
  replay_ok w rep → replay_ok w (insert_replay (bd_id b) versions rep).
Proof.
  intros Ht Hid Hv [H1 H2]. split.
  - intros build id v [[-> _]|?]%insert_replay_lookup; eauto.
  - intros build id v [[-> Hin]|?]%insert_replay_lookup; [|by eapply H2].
    by apply (versions_read_bounded w b versions Ht Hv).
Qed.

Lemma insert_replay_of w rep b versions : table_ok w → versions_read w b versions →
  replay_of w rep b → replay_of w (insert_replay (bd_id b) versions rep) b.
Proof.
  intros Ht Hv Hr k row v Ho [[_ Hin]|?]%insert_replay_lookup; [|by eapply Hr].
  destruct (Hv _ _ Hin) as (k' & row' & Ho' & Heq & _ & Hk').
  by assert (k' = k) as <- by (eapply to_inj; eauto).
Qed.

(** A command that leaves the live documents. *)
Lemma good_write w e rep b b' versions G e' :
  table_ok w → good w e rep (Some b) G → reshaped b b' → phase_ok b' →
  (pr_swapped (bd_progress b) = true → versions = []) → versions_read w b versions →
  fresh_staging w e' → (∀ i, index_docs e' (LiveIndex i) = index_docs e (LiveIndex i)) →
  (∀ k, k.1 ∈ pr_indexes (bd_progress b) → staged w e' (insert_replay (bd_id b) versions rep) b' k) →
  good w e' (insert_replay (bd_id b) versions rep) (Some b') G.
Proof.
  intros Ht [Hf Hr [Hid Hbs Hnd Hph Hro Hst] Hl] [Ri Rx Rb Rs] Hph' Hsw Hv Hf' Hlive Hst'. split; try done.
  - by apply insert_replay_ok.
  - split; rewrite ?Ri, ?Rx, ?Rb; try done. unfold replay_of. rewrite Ri, Rx. by apply insert_replay_of.
  - intros k Hk. specialize (Hl k Hk). unfold live_doc in *. rewrite Hlive. revert Hl. simpl.
    rewrite Rs. destruct (pr_swapped (bd_progress b)); [|done].
    rewrite Hsw by done. unfold replay_acks. by rewrite Ri.
Qed.

Lemma good_move w e rep b b' G :
  table_ok w → good w e rep (Some b) G → reshaped b b' → phase_ok b' →
  (∀ k, k.1 ∈ pr_indexes (bd_progress b) → staged w e rep b' k) → good w e rep (Some b') G.
Proof.
  intros Ht Hg Hr Hph Hst. apply (good_write w e rep b b' [] G e); try done; [|apply Hg].
  by intros ?? ?%elem_of_nil.
Qed.

Lemma advance_cases p phase next phase' p' : _advance_index p phase next = (phase', p') →
  (phase' = next ∧ p' = at_index 0 NoCursor p ∧ (length (pr_indexes p) <= S (pr_position p))%nat) ∨
  (phase' = phase ∧ p' = at_index (S (pr_position p)) NoCursor p ∧ (S (pr_position p) < length (pr_indexes p))%nat).
Proof. unfold _advance_index. destruct (Nat.leb_spec (length (pr_indexes p)) (S (pr_position p))); naive_solver. Qed.

Lemma covered_first p k : ¬ covered (at_index 0 NoCursor p) k.
Proof. intros (j & _ & [H|(_ & last & [=] & _)]). simpl in H. lia. Qed.

(** A command to a staging index. *)
Lemma staging_write w e rep b b' versions G live c e' :
  table_ok w → good w e rep (Some b) G → reshaped b b' → phase_ok b' → is_swap c = false →
  apply_command e (staging_of b live) c = Some e' →
  (pr_swapped (bd_progress b) = true → versions = []) → versions_read w b versions →
  (∀ k, k.1 ∈ pr_indexes (bd_progress b) → staged w e' (insert_replay (bd_id b) versions rep) b' k) →
  good w e' (insert_replay (bd_id b) versions rep) (Some b') G.
Proof.
  intros Ht Hg Hr Hph Hs He Hsw Hv Hst. eapply good_write; eauto.
  - apply (apply_fresh w e (staging_of b live) c); try done; [|apply Hg]. apply (gd_build _ _ _ _ _ Hg).
  - intros i. by eapply index_docs_elsewhere.
Qed.

Lemma prepare_settings_inv w b live G :
  table_ok w → good w (w_engine w) (w_replay w) (Some b) G → bd_phase b = PSettings →
  inv (prepare_settings b live w) G.
Proof.
  intros Ht Hg Hp. unfold prepare_settings.
  destruct (_advance_index (bd_progress b) PSettings PBuild) as [phase p] eqn:Ha.
  pose proof (gd_build _ _ _ _ _ Hg) as [Hid Hbs Hnd Hph Hro Hst].
  unfold phase_ok, staged in *. rewrite Hp in *.
  apply hand_out_inv; [done..|]. intros e He.
  assert (Hdocs : ∀ n, index_docs e n = index_docs (w_engine w) n)
    by (intros n; eapply (apply_keeps_docs _ _ CSettings); [by left|done]).
  apply (staging_write w (w_engine w) (w_replay w) b _ [] G live CSettings e); try done.
  - apply advance_cases in Ha as [(-> & -> & _)|(-> & -> & _)]; done.
  - apply advance_cases in Ha as [(-> & -> & _)|(-> & -> & _)]; done.
  - by intros ?? ?%elem_of_nil.
  - intros k Hk. specialize (Hst k Hk). unfold staged, stage_doc, staging_of in *.
    apply advance_cases in Ha as [(-> & -> & _)|(-> & -> & _)]; simpl; rewrite Hdocs; [|done].
    right. split; [apply covered_first|done].
Qed.

(** ** The walk *)

Lemma lookup_lt_case {A} (l : list A) j p x y :
  l !! j = Some x → l !! p = Some y → (j < S p)%nat → (j < p)%nat ∨ x = y.
Proof. intros Hj Hp Hlt. destruct (decide (j = p)) as [->|]; [right; congruence|left; lia]. Qed.

(** The walk of an index is over. *)
Lemma walk_ends w e rep b live k :
  staged w e rep b k → bd_phase b = PBuild →
  pr_indexes (bd_progress b) !! pr_position (bd_progress b) = Some live →
  identities_after w live (pr_cursor (bd_progress b)) = [] →
  (∃ j, pr_indexes (bd_progress b) !! j = Some k.1 ∧ (j < S (pr_position (bd_progress b)))%nat) →
  clean w (replay_acks rep b) (stage_doc e b k) k.
Proof.
  intros Hst Hp Hlive Hids (j & Hj & Hlt). unfold staged in Hst. rewrite Hp in Hst.
  destruct Hst as [|[Hnc Hnone]]; [done|]. left. rewrite Hnone. symmetry.
  destruct (lookup_lt_case _ _ _ _ _ Hj Hlive Hlt) as [Hlt'| Heq].
  { destruct Hnc. exists j. by split; [|left]. }
  apply eq_None_not_Some. intros Hsome. apply current_domain in Hsome.
  assert (k.2 ∈ identities_after w live (pr_cursor (bd_progress b))) as Hin.
  { apply identities_after_elem. rewrite <-Heq. split; [by destruct k|].
    destruct (pr_cursor (bd_progress b)) as [|last|] eqn:Hc; try done.
    destruct (Z.lt_ge_cases last k.2) as [|Hle]; [done|]. destruct Hnc.
    exists (pr_position (bd_progress b)). rewrite Heq. split; [done|]. right. split; [done|]. by exists last. }
  rewrite Hids in Hin. by apply elem_of_nil in Hin.
Qed.

(** The walk moves on to [last] and sends [payload]. *)
Lemma walk_moves w e e' rep b b' live n payload last k :
  staged w e rep b k → bd_phase b = PBuild → bd_phase b' = PBuild → bd_id b' = bd_id b →
  pr_indexes (bd_progress b) !! pr_position (bd_progress b) = Some live →
  pr_indexes (bd_progress b') = pr_indexes (bd_progress b) → NoDup (pr_indexes (bd_progress b)) →
  pr_position (bd_progress b') = pr_position (bd_progress b) → pr_cursor (bd_progress b') = IdCursor last →
  covered_prefix w live payload (take n (identities_after w live (pr_cursor (bd_progress b)))) None = Some last →
  stage_doc e' b k = (if bool_decide (k.1 = live ∧ k.2 ∈ payload) then current w k else stage_doc e b k) →
  staged w e' rep b' k.
Proof.
  intros Hst Hp Hp' Hid Hlive Hix Hnd Hpos Hcur Hwalk Heff.
  assert (Hsd : stage_doc e' b' k = stage_doc e' b k) by (unfold stage_doc, staging_of; by rewrite Hid).
  assert (Hra : replay_acks rep b' = replay_acks rep b) by (unfold replay_acks; by rewrite Hid).
  unfold staged in *. rewrite Hp in Hst. rewrite Hp', Hsd, Hra, Heff.
  case_bool_decide as Hin; [by left; left|]. destruct Hst as [|[Hnc Hnone]]; [by left|].
  destruct (decide (k.1 = live ∧ k.2 <= last)) as [[Hk Hle]|Hno].
  - left. left. rewrite Hnone. symmetry. destruct k as [i id]. simpl in *. subst i.
    destruct (walk_covers _ _ _ _ _ _ _ Hwalk Hle) as [|?]; [|done|naive_solver].
    destruct (pr_cursor (bd_progress b)) as [|x|] eqn:Hc; try done.
    destruct (Z.lt_ge_cases x id) as [|Hx]; [done|]. destruct Hnc.
    exists (pr_position (bd_progress b)). split; [done|]. right. split; [done|]. by exists x.
  - right. split; [|done]. intros (j & Hj & Hc). rewrite Hix in Hj. rewrite Hpos, Hcur in Hc.
    destruct Hc as [Hlt|(-> & x & [= <-] & Hx)].
    + destruct Hnc. exists j. by split; [|left].
    + destruct Hno. split; [congruence|done].
Qed.

Lemma take_pos_nil {A} n (l : list A) : (0 < n)%nat → take n l = [] → l = [].
Proof. destruct l, n; simpl; intros; done || lia. Qed.

Lemma upsert_stage w e b live payload e' k :
  (∀ id d, (id, d) ∈ payload → current w (live, id) = Some d) →
  apply_command e (staging_of b live) (CUpsert payload) = Some e' →
  stage_doc e' b k = if bool_decide (k.1 = live ∧ k.2 ∈ payload.*1) then current w k else stage_doc e b k.
Proof.
  intros Hdocs He. unfold stage_doc. destruct k as [i id]. simpl. destruct (decide (i = live)) as [->|Hne].
  - rewrite (upsert_effect w live _ _ _ _ _ Hdocs He).
    apply (f_equal (λ c : bool, if c then _ else _)). apply bool_decide_ext. tauto.
  - rewrite bool_decide_false by (by intros []).
    rewrite (index_docs_elsewhere e (staging_of b live) (CUpsert payload) e'); [done..|].
    unfold staging_of. congruence.
Qed.

(** The walk goes on with the next index. *)
Lemma walk_next w e rep b live now k :
  staged w e rep b k → bd_phase b = PBuild → NoDup (pr_indexes (bd_progress b)) →
  pr_indexes (bd_progress b) !! pr_position (bd_progress b) = Some live →
  identities_after w live (pr_cursor (bd_progress b)) = [] → k.1 ∈ pr_indexes (bd_progress b) →
  staged w e rep (move PBuild (at_index (S (pr_position (bd_progress b))) NoCursor (bd_progress b)) now b) k.
Proof.
  intros Hst Hp Hnd Hlive Hids Hk. apply list_elem_of_lookup_1 in Hk as [j Hj].
  destruct (decide (j < S (pr_position (bd_progress b)))%nat) as [Hlt|Hge].
  - left. apply (walk_ends w e rep b live k); eauto.
  - unfold staged in Hst. rewrite Hp in Hst. destruct Hst as [?|[_ Hnone]]; [by left|right].
    split; [|done]. intros (j' & Hj' & Hc). assert (j' = j) as -> by (by eapply NoDup_lookup).
    simpl in Hc. destruct Hc as [?|(? & ? & [=] & _)]. lia.
Qed.

(** ** Replay *)

Lemma events_after_elem w index since c ke :
  ke ∈ events_after w index since c → w_outbox w !! ke.1 = Some ke.2 ∧ ke.1.1 = index.
Proof.
  unfold events_after. rewrite merge_sort_Permutation, list_elem_of_In, List.filter_In, <-list_elem_of_In.
  intros [Hin Hc]. destruct ke as [k row]. apply elem_of_map_to_list in Hin. split; [done|].
  rewrite !andb_true_iff, bool_decide_eq_true in Hc. tauto.
Qed.

Lemma request_versions w b index a rows :
  index ∈ pr_indexes (bd_progress b) → request_rows w index a rows → versions_read w b (versions_of rows).
Proof.
  intros Hix Hrows id v ([k row] & Heq & Hin)%list_elem_of_fmap. simplify_eq/=.
  destruct (Hrows _ Hin) as (Ho & Hk & _). exists k, row. simpl in *. by rewrite Hk.
Qed.

(** Documents of an index after a request, with the versions it acknowledges. *)
Lemma request_clean w index a rows e name e' ak k :
  table_ok w → request_rows w index a rows → k.1 = index →
  apply_command e name (replay_command w index a rows) = Some e' →
  clean w ak (index_docs e name !! k.2) k →
  clean w (λ id v, (id, v) ∈ versions_of rows ∨ ak id v) (index_docs e' name !! k.2) k.
Proof.
  intros Ht Hrows Hk He. destruct k as [i id]. simpl in *. subst i.
  rewrite (request_effect w index a rows e name e' id Ht Hrows He).
  case_bool_decide as Hin; [by left|]. intros [?|(row & Ho & Hc & Hn)]; [by left|right].
  exists row. split_and!; [done..|]. intros [Hv|]; [|done]. destruct Hin.
  apply list_elem_of_fmap in Hv as ([k' row'] & Heq & Hin). simplify_eq/=.
  destruct (Hrows _ Hin) as (Ho' & _ & _). simpl in Ho'.
  assert (k' = (index, id)) as -> by (by eapply to_inj).
  apply list_elem_of_fmap. by exists (index, id, row').
Qed.

(** The other indexes have no row among those of the request. *)
Lemma request_elsewhere w index a rows doc ak k :
  table_ok w → request_rows w index a rows → k.1 ≠ index → clean w ak doc k →
  clean w (λ id v, (id, v) ∈ versions_of rows ∨ ak id v) doc k.
Proof.
  intros Ht Hrows Hk [?|(row & Ho & Hc & Hn)]; [by left|right]. exists row. split_and!; [done..|].
  intros [Hv|]; [|done]. apply list_elem_of_fmap in Hv as ([k' row'] & Heq & Hin). simplify_eq/=.
  destruct (Hrows _ Hin) as (Ho' & Hk' & _). simpl in *. destruct Hk. rewrite <-Hk'.
  by assert (k = k') as -> by (by eapply to_inj).
Qed.

Lemma replay_staged w e rep b b' live a rows e' k :
  table_ok w → request_rows w live a rows → staged w e rep b k → bd_phase b = PReplay → bd_phase b' = PReplay →
  bd_id b' = bd_id b → apply_command e (staging_of b live) (replay_command w live a rows) = Some e' →
  staged w e' (insert_replay (bd_id b) (versions_of rows) rep) b' k.
Proof.
  intros Ht Hrows Hst Hp Hp' Hid He. unfold staged in *. rewrite Hp in Hst. rewrite Hp'.
  apply clean_weaken with (λ id v, (id, v) ∈ versions_of rows ∨ replay_acks rep b id v).
  { intros id v. unfold replay_acks. rewrite Hid. intros [[_ ?]|?]%insert_replay_lookup; tauto. }
  unfold stage_doc, staging_of in *. rewrite Hid. destruct (decide (k.1 = live)) as [Heq|Hne].
  - rewrite Heq in *. eapply request_clean; eauto.
  - eapply request_elsewhere; [done..|].
    rewrite (index_docs_elsewhere e (staging_of b live) (replay_command w live a rows) e'); [done|by destruct a|done|].
    unfold staging_of. congruence.
Qed.

(** ** The other phases *)

Lemma prepare_ensure_live_inv answers w b live G w' :
  table_ok w → good w (w_engine w) (w_replay w) (Some b) G → bd_phase b = PEnsureLive →
  prepare_ensure_live answers b live w = Ok w' → inv w' G.
Proof.
  intros Ht Hg Hp. unfold prepare_ensure_live. destruct answers; simpl; [|done].
  pose proof (gd_build _ _ _ _ _ Hg) as [Hid Hbs Hnd Hph Hro Hst]. unfold phase_ok, staged in *. rewrite Hp in *.
  destruct (_advance_index (bd_progress b) PEnsureLive PSwap) as [phase p] eqn:Ha.
  case_bool_decide; intros [= <-].
  - apply hand_out_inv; [done..|]. intros e He.
    assert (Hdocs : ∀ n, index_docs e n = index_docs (w_engine w) n)
      by (intros n; eapply (apply_keeps_docs _ _ CCreate); [by right|done]).
    apply (good_write w (w_engine w) (w_replay w) b _ [] G e); try done.
    + apply advance_cases in Ha as [(-> & -> & _)|(-> & -> & _)]; done.
    + apply advance_cases in Ha as [(-> & -> & _)|(-> & -> & _)]; done.
    + by intros ?? ?%elem_of_nil.
    + by apply (apply_fresh w (w_engine w) (LiveIndex live) CCreate); [| | |apply Hg].
    + intros k Hk. specialize (Hst k Hk). unfold staged, stage_doc, staging_of in *.
      apply advance_cases in Ha as [(-> & -> & _)|(-> & -> & _)]; simpl; by rewrite Hdocs.
  - apply stay_inv; [done|].
    apply advance_cases in Ha as [(-> & -> & _)|(-> & -> & _)]; (eapply good_move; [done..| |]); done.
Qed.

(** Rows of other indexes are not among the replay rows of the build. *)
Lemma clean_unreplayed w rep b doc k :
  replay_of w rep b → k.1 ∉ pr_indexes (bd_progress b) → clean w no_acks doc k → clean w (replay_acks rep b) doc k.
Proof.
  intros Hr Hk [?|(row & Ho & Hc & _)]; [by left|right]. exists row. split_and!; [done..|].
  intros Hv. apply Hk. by eapply Hr.
Qed.

Lemma prepare_swap_inv w b live G :
  table_ok w → good w (w_engine w) (w_replay w) (Some b) G → bd_phase b = PSwap → inv (prepare_swap b live w) G.
Proof.
  intros Ht Hg Hp. pose proof Hg as [Hf Hr [Hid Hbs Hnd Hph Hro Hst] Hl].
  unfold phase_ok, staged in *. rewrite Hp in *. simpl in Hl. rewrite Hph in Hl.
  apply hand_out_inv; [done..|]. intros e He. simpl in He.
  apply (swap_effect b) in He as [Sl So Sk Sb]; [|done].
  unfold swap_names; simpl. rewrite swap_pairs_names. split.
  - intros i n Hn. rewrite Sb by lia. by apply Hf.
  - done.
  - by split.
  - intros k Hk. simpl. destruct (decide (k.1 ∈ pr_indexes (bd_progress b))) as [Hin|Hni].
    + unfold live_doc, index_docs. rewrite Sl by done. by apply Hst.
    + apply elem_of_app in Hk as [?|Hk]; [done|]. apply clean_unreplayed; [done..|].
      unfold live_doc, index_docs. rewrite So by done. by apply Hl.
Qed.

Lemma complete_lookup (now : Z) (versions : list (Z * Z)) (o : gmap entity OutboxRow) k (row : OutboxRow) :
  complete_versions now versions o !! k = Some row →
  ∃ row', o !! k = Some row' ∧ ob_id row = ob_id row' ∧ ob_version row = ob_version row' ∧
    ob_action row = ob_action row'.
Proof.
  unfold complete_versions. rewrite lookup_fmap. intros (row' & Ho & ->)%fmap_Some.
  exists row'. by case_bool_decide.
Qed.

(** Completing rows at versions that may be acknowledged. *)
Lemma complete_clean w now versions rep' a doc k :
  (∀ id v, (id, v) ∈ versions → a id v) → clean w a doc k →
  clean (set_tables (complete_versions now versions (w_outbox w)) rep' w) a doc k.
Proof.
  intros Hv [?|(row & Ho & Hc & Hn)]; [by left|right]. exists row. split_and!; [|done..]. simpl.
  unfold complete_versions. rewrite lookup_fmap, Ho. simpl. rewrite bool_decide_false; [done|naive_solver].
Qed.

Lemma complete_bounded w now versions rep' a :
  bounded w a → bounded (set_tables (complete_versions now versions (w_outbox w)) rep' w) a.
Proof.
  intros Hb id v [Hlt Hle]%Hb. split; [done|]. simpl.
  intros k row (row' & Ho & Hid & -> & _)%complete_lookup Heq. apply (Hle k row'); congruence.
Qed.

Lemma complete_table w now versions rep' :
  table_ok w → table_ok (set_tables (complete_versions now versions (w_outbox w)) rep' w).
Proof.
  intros [Hf Hi Hd]. split; simpl.
  - intros k row (row' & Ho & -> & _)%complete_lookup. eauto.
  - intros k1 k2 r1 r2 (r1' & ? & -> & _)%complete_lookup (r2' & ? & -> & _)%complete_lookup. eauto.
  - intros k row (row' & ? & _ & _ & ->)%complete_lookup. unfold current. simpl. eauto.
Qed.

Lemma replay_rows_elem w b id v : (id, v) ∈ replay_rows b w → replay_acks (w_replay w) b id v.
Proof.
  unfold replay_rows. rewrite list_elem_of_fmap. intros ([[build id'] v'] & Heq & Hin). simplify_eq/=.
  rewrite list_elem_of_In, List.filter_In, <-list_elem_of_In in Hin. destruct Hin as [Hin Hb].
  apply bool_decide_eq_true in Hb. simpl in Hb. subst. by apply elem_of_map_to_list in Hin.
Qed.

Lemma drop_replay_lookup b rows rep build id v : drop_replay b rows rep !! (build, id) = Some v →
  rep !! (build, id) = Some v.
Proof. unfold drop_replay. rewrite map_lookup_filter_Some. tauto. Qed.

(** Fewer replay rows are no harm. *)
Lemma good_fewer w e rep rep' ob G :
  (∀ build id v, rep' !! (build, id) = Some v → rep !! (build, id) = Some v) →
  good w e rep ob G → good w e rep' ob G.
Proof.
  intros Hsub [Hf [Hr1 Hr2] Hb Hl]. split; try done.
  - split; [naive_solver|]. intros build id v Hv. apply (Hr2 build). by apply Hsub.
  - destruct ob as [b|]; [|done]. destruct Hb as [Hid Hbs Hnd Hph Hro Hst]. split; try done.
    + intros k row v Ho Hv. by eapply Hro, Hsub.
    + intros k Hk. specialize (Hst k Hk). unfold staged in *.
      assert (Hw : ∀ doc, clean w (replay_acks rep b) doc k → clean w (replay_acks rep' b) doc k).
      { intros doc. apply clean_weaken. intros id v. apply Hsub. }
      destruct (bd_phase b); naive_solver.
  - intros k Hk. eapply clean_weaken, Hl, Hk. destruct ob as [b|]; [|done]. simpl. case_match; [|done].
    intros id v. apply Hsub.
Qed.

Lemma good_complete w e rep b now versions rep' G :
  good w e rep (Some b) G → bd_phase b = PAcknowledge →
  (∀ id v, (id, v) ∈ versions → replay_acks rep b id v) →
  good (set_tables (complete_versions now versions (w_outbox w)) rep' w) e rep (Some b) G.
Proof.
  intros [Hf [Hr1 Hr2] [Hid Hbs Hnd Hph Hro Hst] Hl] Hp Hv. split; try done.
  - split; [done|]. intros build. by apply complete_bounded.
  - split; try done.
    + intros k row v (row' & Ho & -> & _)%complete_lookup Hv'. by eapply Hro.
    + intros k Hk. unfold staged. by rewrite Hp.
  - intros k Hk. unfold phase_ok in Hph. rewrite Hp in Hph. simpl in *. rewrite Hph in *.
    apply complete_clean; [done|]. by apply Hl.
Qed.

Lemma prepare_acknowledge_inv w b G :
  w_receipt w = None → w_build w = Some b → table_ok w → good w (w_engine w) (w_replay w) (Some b) G →
  bd_phase b = PAcknowledge ∨ bd_phase b = PDiscardReplay → inv (prepare_acknowledge b w) G.
Proof.
  intros Hr Hb Ht Hg Hp. unfold prepare_acknowledge. case_bool_decide as Hrows.
  - apply stay_inv; [done|]. by eapply good_move.
  - assert (Hv : ∀ id v, (id, v) ∈ take 500 (replay_rows b w) → replay_acks (w_replay w) b id v).
    { intros id v Hin. apply replay_rows_elem. by eapply subseteq_take. }
    assert (Hfew : ∀ build id v, drop_replay b (take 500 (replay_rows b w)).*1 (w_replay w) !! (build, id) = Some v →
      w_replay w !! (build, id) = Some v) by (intros ???; apply drop_replay_lookup).
    unfold inv, receipt_ok. simpl. rewrite Hr, Hb. destruct Hp as [Hp|Hp]; rewrite Hp.
    + rewrite bool_decide_true by done. split; [by apply complete_table|].
      eapply good_fewer; [exact Hfew|]. by apply good_complete.
    + rewrite bool_decide_false by done. split; [by apply (same_table w)|].
      eapply good_fewer; [exact Hfew|]. apply (carries_good w); [by apply same_carries|done].
Qed.

Lemma prepare_cleanup_inv w b live G :
  table_ok w → good w (w_engine w) (w_replay w) (Some b) G → bd_phase b = PCleanup →
  inv (prepare_cleanup b live w) G.
Proof.
  intros Ht Hg Hp. unfold prepare_cleanup.
  destruct (_advance_index (bd_progress b) PCleanup PComplete) as [phase p] eqn:Ha.
  assert (Hb' : ∀ e, fresh_staging w e → (∀ i, index_docs e (LiveIndex i) = index_docs (w_engine w) (LiveIndex i)) →
    good w e (w_replay w) (Some (set_build (bd_state b) phase p (bd_last_error b) (bd_updated_at b) b)) G).
  { intros e Hf Hd. apply (good_write w (w_engine w) (w_replay w) b _ [] G e); try done.
    - apply advance_cases in Ha as [(-> & -> & _)|(-> & -> & _)]; done.
    - apply advance_cases in Ha as [(-> & -> & _)|(-> & -> & _)]; done.
    - by intros ?? ?%elem_of_nil.
    - intros k Hk. unfold staged.
      apply advance_cases in Ha as [(-> & -> & _)|(-> & -> & _)]; done. }
  apply hand_out_inv; [done..| |].
  - intros _. apply Hb'; [apply Hg|done].
  - intros e He. apply Hb'.
    + apply (apply_fresh w (w_engine w) (staging_of b live) CDrop); [done| |done|apply Hg].
      apply (gd_build _ _ _ _ _ Hg).
    + intros i. by apply (index_docs_elsewhere (w_engine w) (staging_of b live) CDrop).
Qed.

End Phases.

(** ** The phases that read documents *)

Section Reading.
Context {D : Type} (doc_bytes : D → Z) (id_bytes : Z → Z).
Implicit Types (w : @World D) (b : Build).

Lemma first_batch_elem docs batch size payload x :
  first_batch doc_bytes docs batch size = Ok payload → x ∈ payload → x ∈ batch ∨ x ∈ docs.
Proof.
  revert batch size. induction docs as [|d docs IH]; intros batch size; simpl.
  - intros [= <-]. by left.
  - case_match; [done|]. case_match.
    + intros [= <-]. by left.
    + intros Hf Hx. destruct (IH _ _ Hf Hx); set_solver.
Qed.

Lemma prepare_build_inv limit w b live G w' :
  table_ok w → good w (w_engine w) (w_replay w) (Some b) G → bd_phase b = PBuild → 0 < limit →
  pr_indexes (bd_progress b) !! pr_position (bd_progress b) = Some live →
  prepare_build doc_bytes limit b live w = Ok w' → inv w' G.
Proof.
  intros Ht Hg Hp Hlimit Hlive. unfold prepare_build.
  pose proof (gd_build _ _ _ _ _ Hg) as [Hid Hbs Hnd Hph Hro Hst]. unfold phase_ok in Hph. rewrite Hp in Hph.
  set (n := Z.to_nat (Z.min limit (pr_batch_size (bd_progress b)))).
  assert (0 < n)%nat by (unfold n; lia).
  case_bool_decide as Hids.
  - apply take_pos_nil in Hids; [|done].
    destruct (_advance_index (bd_progress b) PBuild PReplay) as [phase p] eqn:Ha. intros [= <-].
    apply stay_inv; [done|].
    apply advance_cases in Ha as [(-> & -> & Hlen)|(-> & -> & Hlen)]; (eapply good_move; [done..| |]); try done.
    + intros k Hk. apply (walk_ends w (w_engine w) (w_replay w) b live k); auto.
      apply list_elem_of_lookup_1 in Hk as [j Hj]. exists j. split; [done|].
      apply lookup_lt_Some in Hj. lia.
    + intros k Hk. eapply walk_next; eauto.
  - destruct (first_batch doc_bytes _ [] 2) as [payload|] eqn:Hfb; [|done].
    destruct (covered_prefix w live payload.*1 _ None) as [last|] eqn:Hwalk; [|done].
    assert (Hdocs : ∀ id d, (id, d) ∈ payload → current w (live, id) = Some d).
    { intros id d Hin. apply (first_batch_elem _ _ _ _ _ Hfb) in Hin as [[]%elem_of_nil|Hin].
      by eapply documents_of_current. }
    case_bool_decide as Hnil; intros [= <-].
    + apply stay_inv; [done|]. eapply good_move; [done..| |]; try done.
      intros k Hk. eapply walk_moves; eauto. rewrite Hnil. rewrite bool_decide_false; [done|].
      by intros [_ []%elem_of_nil].
    + apply hand_out_inv; [done..|]. intros e He.
      apply (staging_write w (w_engine w) (w_replay w) b _ [] G live (CUpsert payload) e); try done.
      * by intros ?? ?%elem_of_nil.
      * intros k Hk. eapply walk_moves; eauto. by eapply upsert_stage.
Qed.

Lemma replay_run_elem w a events taken size taken' ke :
  replay_run doc_bytes id_bytes w a events taken size = Ok taken' → ke ∈ taken' →
  ke ∈ taken ∨ (ke ∈ events ∧ actual_action w ke = a).
Proof.
  revert taken size. induction events as [|ke' events IH]; intros taken size; simpl.
  - intros [= <-]. by left.
  - case_bool_decide as Ha; simpl; [|intros [= <-]; by left].
    destruct (_ <? _); [case_bool_decide; [done|intros [= <-]; by left]|].
    intros Hr Hin. destruct (IH _ _ Hr Hin) as [Hin'|[? ?]]; [|set_solver].
    apply elem_of_app in Hin' as [?|Heq%list_elem_of_singleton]; [by left|subst]. right. set_solver.
Qed.

Lemma prepare_replay_inv limit w b live G w' :
  table_ok w → good w (w_engine w) (w_replay w) (Some b) G → bd_phase b = PReplay →
  pr_indexes (bd_progress b) !! pr_position (bd_progress b) = Some live →
  prepare_replay doc_bytes id_bytes limit b live w = Ok w' → inv w' G.
Proof.
  intros Ht Hg Hp Hlive. unfold prepare_replay.
  pose proof (gd_build _ _ _ _ _ Hg) as [Hid Hbs Hnd Hph Hro Hst]. unfold phase_ok in Hph. rewrite Hp in Hph.
  set (events := take _ _). assert (Hev : ∀ ke, ke ∈ events → w_outbox w !! ke.1 = Some ke.2 ∧ ke.1.1 = live).
  { intros ke Hin. eapply events_after_elem. eapply subseteq_take. exact Hin. }
  clearbody events. destruct events as [|first events].
  - destruct (_advance_index (bd_progress b) PReplay PEnsureLive) as [phase p] eqn:Ha. intros [= <-].
    apply stay_inv; [done|]. unfold staged in Hst. rewrite Hp in Hst.
    apply advance_cases in Ha as [(-> & -> & Hlen)|(-> & -> & Hlen)]; (eapply good_move; [done..| |]); done.
  - set (a := actual_action w first).
    destruct (replay_run doc_bytes id_bytes w a _ [] 2) as [taken|] eqn:Hrun; [|done].
    assert (Hrows : request_rows w live a taken).
    { intros ke Hin. apply (replay_run_elem _ _ _ _ _ _ _ Hrun) in Hin as [[]%elem_of_nil|[Hin ?]].
      destruct (Hev _ Hin). done. }
    case_match; [done|]. intros [= <-]. apply hand_out_inv; [done..|by destruct a|]. intros e He.
    assert (Hswap : swap_names (_receipt b (staging_of b live) (replay_command w live a taken)
      (versions_of taken) PReplay (replaying (cursor_after taken (pr_cursor (bd_progress b)))
         (Z.of_nat (length taken)) (bd_progress b))) = []) by by destruct a.
    rewrite Hswap. eapply (staging_write w (w_engine w) (w_replay w)); try done.
    + by destruct a.
    + congruence.
    + eapply request_versions; [|done]. by eapply list_elem_of_lookup_2.
    + intros k Hk. eapply replay_staged; eauto.
Qed.

Lemma prepare_phase_inv limit answers w b G w' :
  w_receipt w = None → w_build w = Some b → table_ok w → good w (w_engine w) (w_replay w) (Some b) G → 0 < limit →
  prepare_phase doc_bytes id_bytes limit answers b w = Ok w' → inv w' G.
Proof.
  intros Hr Hb Ht Hg Hlimit. unfold prepare_phase. destruct (_ !! _) as [live|] eqn:Hlive; [|done].
  destruct (bd_phase b) eqn:Hp; intros H; simplify_eq.
  - by apply prepare_settings_inv.
  - by eapply prepare_build_inv.
  - by eapply prepare_replay_inv.
  - by eapply prepare_ensure_live_inv.
  - by apply prepare_swap_inv.
  - apply prepare_acknowledge_inv; auto.
  - apply prepare_acknowledge_inv; auto.
  - by apply prepare_cleanup_inv.
  - by apply stay_inv.
Qed.

End Reading.
