(* ===== verification/SearchRebuildSpec.v ===== *)
(** * A rebuilt index answers from the database

    Every step keeps the invariant, so once a rebuild has swapped an index in,
    each document of the live index is the current one or the outbox still has
    to deliver it; and a rebuild that is not swapped in changes nothing live. *)

From stdpp Require Import base gmap strings list numbers sorting relations.
From S2P Require Import Prelude SearchRebuild SearchRebuildFacts.

Open Scope Z_scope.

Section Spec.
Context {D : Type} (doc_bytes : D → Z) (id_bytes : Z → Z).
Implicit Types (w : @World D) (e : gmap index_name (gmap Z D)) (rep : gmap (Z * Z) Z) (k : entity) (b : Build).

Lemma inv_evolves w w' G : evolves w w' → table_ok w' → inv w G → inv w' G.
Proof. intros Hev Ht [_ Hr]. split; [done|]. by eapply evolves_receipt. Qed.

Lemma good_begin_failure w e rep b error now G :
  table_ok w → good w e rep (Some b) G → good w e rep (Some (_begin_failure error now b)) G.
Proof.
  intros Ht Hg. unfold _begin_failure. case_bool_decide; [done|]. eapply good_move; [done..| |].
  - unfold phase_ok. simpl. by destruct (pr_swapped (bd_progress b)) eqn:Hs.
  - intros k Hk. unfold staged. simpl. by destruct (pr_swapped (bd_progress b)).
Qed.

(** ** Starting *)

Lemma good_start w e rep owner indexes batch G :
  table_ok w → good w e rep None G →
  let b := new_build w owner indexes batch in good (add_build b w) e rep (Some b) G.
Proof.
  intros Ht [Hf [Hr1 Hr2] _ Hl] b. split; try done.
  - intros i n Hn. apply Hf. simpl in Hn. lia.
  - split; [|done]. intros build id v Hv. apply Hr1 in Hv. simpl. lia.
  - split; simpl; try done; try lia.
    + apply fromkeys_NoDup.
    + intros k row v _ Hv. apply Hr1 in Hv. simpl in Hv. lia.
    + intros k _. unfold staged, stage_doc, index_docs, staging_of. simpl. rewrite Hf; [done|lia].
Qed.

Lemma start_cases w specs indexes batch owner w' status :
  start_rebuild specs indexes batch owner w = Ok (w', status) →
  w' = w ∨ (w_build w = None ∧ w' = add_build (new_build w owner indexes batch) w).
Proof.
  unfold start_rebuild. destruct (w_build w) as [b|].
  - case_match; [|done]. intros [= <- _]. by left.
  - destruct (if bool_decide (is_Some owner) then _ else _); [intros [= <- _]; by left|].
    destruct (_ || _); [done|]. intros [= <- _]. by right.
Qed.

Lemma inv_start w owner indexes batch G : w_build w = None → inv w G →
  inv (add_build (new_build w owner indexes batch) w) G.
Proof.
  intros Hb [Ht Hr]. set (b := new_build w owner indexes batch).
  assert (Hgood : ∀ e rep, good w e rep None G → good (add_build b w) e rep (Some b) G)
    by (intros; by apply good_start).
  split; [by apply (same_table w)|]. unfold receipt_ok in *. simpl.
  destruct (w_receipt w) as [r|]; [|rewrite Hb in Hr; by apply Hgood].
  destruct (re_build r) as [id|]; [destruct Hr as (b' & ? & _); congruence|].
  destruct Hr as [Hv Hs Hg Hsb Ha]. rewrite Hb in *. split; try done.
  - by apply Hgood.
  - intros b' [= <-]. done.
  - unfold after_success in *. simpl. case_match; try done.
    + intros e He. rewrite Hs in *. simpl in *. destruct (Ha e He) as [Hge Hle]. split; [by apply Hgood|done].
    + destruct Ha as [Hge Hle]. split; [by apply Hgood|done].
Qed.

(** ** Slices *)

Lemma prepare_next_inv limit stopped answers w w' G :
  w_receipt w = None → 0 < limit → inv w G →
  prepare_next doc_bytes id_bytes limit stopped answers w = Some (Ok w') → inv w' G.
Proof.
  intros Hr Hlimit Hinv. unfold prepare_next.
  assert (Hstart : ∀ w1, match w_build w with Some _ => Some w | None => _bootstrap_memberships limit w end = Some w1 →
    inv w1 G ∧ w_receipt w1 = None).
  { intros w1. destruct (w_build w) as [b|] eqn:Hb; [by intros [= <-]|].
    unfold _bootstrap_memberships. case_match; [|done]. intros [= <-]. split; [by apply inv_start|done]. }
  destruct (match w_build w with Some _ => _ | None => _ end) as [w1|]; [|done].
  destruct (Hstart w1 eq_refl) as [[Ht1 Hok1] Hr1]. destruct (w_build w1) as [b|] eqn:Hb1; [|done].
  unfold receipt_ok in Hok1. rewrite Hr1, Hb1 in Hok1. case_match.
  - intros [= <-]. apply stay_inv; [done|]. by apply good_begin_failure.
  - intros [= H']. by eapply prepare_phase_inv.
Qed.

Lemma fail_active_inv error w G : w_receipt w = None → inv w G → inv (fail_active error w) G.
Proof.
  intros Hr [Ht Hok]. unfold fail_active. destruct (w_build w) as [b|] eqn:Hb; [|done].
  unfold receipt_ok in Hok. rewrite Hr, Hb in Hok. rewrite Hr. apply stay_inv; [done|].
  by apply good_begin_failure.
Qed.

Lemma rebuild_slice_inv limit stopped answers w w' G :
  w_receipt w = None → 0 < limit → inv w G →
  rebuild_slice doc_bytes id_bytes limit stopped answers w = Some w' → inv w' G.
Proof.
  intros Hr Hlimit Hinv. unfold rebuild_slice.
  destruct (prepare_next doc_bytes id_bytes limit stopped answers w) as [[w1|err]|] eqn:Hp; [|..|done]; intros [= <-].
  - by eapply prepare_next_inv.
  - destruct (gives_up err); [by apply fail_active_inv|done].
Qed.

Lemma no_rebuild limit stopped answers w :
  rebuild_slice doc_bytes id_bytes limit stopped answers w = None → w_build w = None.
Proof.
  unfold rebuild_slice, prepare_next. destruct (w_build w) as [b|] eqn:Hb; [|done]. rewrite Hb.
  destruct (_ && _); [done|]. by destruct (prepare_phase doc_bytes id_bytes limit answers b w).
Qed.

(** ** Ordinary delivery *)

Lemma ordinary_rows w index a rows : ordinary_batch w index a rows = true → request_rows w index a rows.
Proof.
  unfold ordinary_batch. rewrite forallb_forall. intros H ke Hin%list_elem_of_In. apply H in Hin.
  rewrite !andb_true_iff, !bool_decide_eq_true in Hin. tauto.
Qed.

Lemma inv_ordinary w index a rows G :
  w_receipt w = None → w_build w = None → ordinary_batch w index a rows = true → inv w G →
  inv (set_rebuild (w_build w) (Some (ordinary_receipt w index a rows)) w) G.
Proof.
  intros Hr Hb Hrows%ordinary_rows [Ht Hok]. unfold receipt_ok in Hok. rewrite Hr, Hb in Hok. rewrite Hb.
  split; [by apply (same_table w)|]. split; simpl.
  - intros id v Hin. apply list_elem_of_fmap in Hin as ([k row] & Heq & Hin). simplify_eq/=.
    destruct (Hrows _ Hin) as (Ho & _ & _). simpl in Ho. split; [by eapply to_fresh|].
    intros k' row' Ho' Heq. assert (k' = k) as -> by (by eapply to_inj). by simplify_eq.
  - by destruct a.
  - by apply good_rebuild.
  - done.
  - intros e He. simpl in He. assert (swap_names (ordinary_receipt w index a rows) = []) as -> by by destruct a.
    destruct Hok as [Hf Hrep _ Hl]. simpl.
    assert (Hl' : live_clean w e (version_acks (versions_of rows)) G).
    { intros k Hk. specialize (Hl k Hk). unfold live_doc in *. destruct (decide (k.1 = index)) as [Heq|Hne].
      - rewrite Heq in *. eapply clean_weaken; [|by eapply request_clean]. by left.
      - eapply clean_weaken; [|eapply request_elsewhere; [done..|]]; [by left|].
        rewrite (index_docs_elsewhere (w_engine w) (LiveIndex index) (replay_command w index a rows) e);
          [done|by destruct a|done|congruence]. }
    split; [|exact Hl']. split; try done.
    + apply (apply_fresh w (w_engine w) (LiveIndex index) (replay_command w index a rows)); try done. by destruct a.
    + intros k Hk. eapply clean_none, (Hl' k Hk).
Qed.

(** ** Outcomes *)

Lemma good_engine w e rep ob G e' r' : good w e rep ob G → good (set_engine e' r' w) e rep ob G.
Proof. apply carries_good. by apply same_carries. Qed.

Lemma inv_succeed w r e G :
  w_receipt w = Some r → re_outcome r = Prepared → apply_command (w_engine w) (re_index r) (re_command r) = Some e →
  inv w G → inv (set_engine e (Some (with_outcome Succeeded r)) w) (swap_names r ++ G).
Proof.
  intros Hr Ho He [Ht Hok]. split; [by apply (same_table w)|].
  unfold receipt_ok in *. rewrite Hr in Hok. simpl. destruct (re_build r) as [id|].
  - destruct Hok as (b & Hb & Hid & [_ _ Ha]). exists b. split_and!; [done..|]. split; [done..|].
    unfold after_success in *. rewrite Ho in Ha. simpl. apply good_engine. by apply Ha.
  - destruct Hok as [Hv Hs Hg Hsb Ha]. rewrite Hs. unfold after_success in Ha. rewrite Ho in Ha.
    destruct (Ha e He) as [Hge Hle]. rewrite Hs in Hge, Hle. simpl in *. split; try done.
    + by apply good_engine.
    + split; [by apply good_engine|done].
Qed.

Lemma inv_refuse w r error G :
  w_receipt w = Some r → re_outcome r = Prepared → inv w G →
  inv (set_engine (w_engine w) (Some (with_outcome (Refused error) r)) w) G.
Proof.
  intros Hr Ho [Ht Hok]. split; [by apply (same_table w)|].
  unfold receipt_ok in *. rewrite Hr in Hok. simpl. destruct (re_build r) as [id|].
  - destruct Hok as (b & Hb & Hid & [Hbe Hd _]). unfold before_success in *. rewrite Ho in *.
    exists b. split_and!; [done..|]. split; [..|done].
    + intros _. apply good_engine. by apply Hbe.
    + intros _ Hdrop. apply good_engine. by apply Hd.
  - destruct Hok as [Hv Hs Hg Hsb _]. split; try done. by apply good_engine.
Qed.

(** ** Receipts *)

Lemma good_finished w e rep b G : good w e rep (Some b) G → good w e rep None G.
Proof. intros [Hf Hr _ Hl]. split; try done. intros k Hk. by eapply clean_none, Hl. Qed.

Lemma good_tables w e rep ob G rep' : good w e rep ob G → good (set_tables (w_outbox w) rep' w) e rep ob G.
Proof. apply carries_good. by apply same_carries. Qed.

Lemma continue_inv error r b w G :
  table_ok w → good w (w_engine w) (continued_replay r (w_replay w) b) (Some (continued r b)) G →
  inv (close_receipt (continue_build error r b w)) G.
Proof.
  intros Ht Hg. unfold continue_build. case_bool_decide as Hp.
  - split; [by apply (same_table w)|]. eapply (carries_good w); [by apply same_carries|].
    by eapply good_finished.
  - split; [by apply (same_table w)|]. eapply (carries_good w); [by apply same_carries|].
    apply (good_move w _ _ (continued r b)); [done|done|done|apply (gd_build _ _ _ _ _ Hg)|].
    apply (bo_staged _ _ _ _ (gd_build _ _ _ _ _ Hg)).
Qed.

Lemma complete_receipt_inv r b w G :
  w_build w = Some b → table_ok w → rebuild_ok w r b G → re_outcome r ≠ Prepared →
  inv (close_receipt (complete_receipt r b w)) G.
Proof.
  intros Hb Ht [Hbe Hd Ha] Ho. unfold complete_receipt, before_success, after_success in *.
  destruct (re_outcome r) as [| |error]; [done|by apply continue_inv|].
  assert (Hg : good w (w_engine w) (w_replay w) (Some b) G) by by apply Hbe.
  destruct (is_drop (re_command r)); simpl.
  - case_bool_decide; [|by apply continue_inv, Hd].
    split; [by apply (same_table w)|]. eapply (carries_good w); [by apply same_carries|]. simpl. by rewrite Hb.
  - unfold fail_active. rewrite Hb. split; [by apply (same_table w)|].
    eapply (carries_good w); [by apply same_carries|]. simpl. by apply good_begin_failure.
Qed.

Lemma good_delivered w now versions G :
  good w (w_engine w) (w_replay w) (w_build w) G → (∀ b, w_build w = Some b → bd_phase b = PSettings) →
  live_clean w (w_engine w) (version_acks versions) G →
  good (set_tables (complete_versions now versions (w_outbox w)) (w_replay w) w)
    (w_engine w) (w_replay w) (w_build w) G.
Proof.
  intros [Hf [Hr1 Hr2] Hb Hl] Hp Hlive. split; try done.
  - split; [done|]. intros build. by apply complete_bounded.
  - destruct (w_build w) as [b|]; [|done]. specialize (Hp b eq_refl). destruct Hb as [Hid Hbs Hnd Hph Hro Hst].
    split; try done.
    + intros k row v (row' & Ho & -> & _)%complete_lookup Hv'. by eapply Hro.
    + intros k Hk. specialize (Hst k Hk). unfold staged in *. by rewrite Hp in *.
  - assert (live_acks (w_replay w) (w_build w) = no_acks) as ->.
    { destruct (w_build w) as [b|]; [|done]. simpl. destruct Hb as [_ _ _ Hph _ _]. unfold phase_ok in Hph.
      rewrite (Hp b eq_refl) in Hph. by rewrite Hph. }
    intros k Hk. eapply clean_none, complete_clean; [|by apply Hlive]. done.
Qed.

Lemma finalize_inv r w w' G :
  w_receipt w = Some r → re_outcome r ≠ Prepared → inv w G → _finalize r w = Some w' → inv w' G.
Proof.
  intros Hr Ho [Ht Hok]. unfold _finalize. unfold receipt_ok in Hok. rewrite Hr in Hok.
  destruct (re_build r) as [id|].
  - destruct Hok as (b & Hb & Hid & Hrb). rewrite Hb. case_bool_decide; [|done]. intros [= <-].
    by apply complete_receipt_inv.
  - destruct Hok as [Hv Hs Hg Hsb Ha]. intros [= <-]. unfold refused, after_success in *.
    destruct (re_outcome r); [done| |].
    + split; [apply (same_table (set_tables (complete_versions (w_now w) (re_versions r) (w_outbox w))
        (w_replay w) w)); [done..|by apply complete_table]|].
      eapply (carries_good (set_tables (complete_versions (w_now w) (re_versions r) (w_outbox w)) (w_replay w) w));
        [by apply same_carries|]. simpl. apply good_delivered; [done..|]. apply Ha.
    + split; [by apply (same_table w)|]. eapply (carries_good w); [by apply same_carries|done].
Qed.

(** ** Runs *)

(** The indexes a step swaps in. *)
Definition swapped_now w w' : list string :=
  match w_receipt w, w_receipt w' with
  | Some r, Some r' =>
      match re_outcome r, re_outcome r' with Prepared, Succeeded => swap_names r | _, _ => [] end
  | _, _ => []
  end.

(** A run with the indexes swapped in so far. *)
Inductive rebuilt : list string → World → Prop :=
| rebuilt_initial w : initial w → rebuilt [] w
| rebuilt_step G w w' : rebuilt G w → step doc_bytes id_bytes w w' → rebuilt (swapped_now w w' ++ G) w'.

Lemma swapped_now_same w w' : w_receipt w' = w_receipt w → swapped_now w w' = [].
Proof. unfold swapped_now. intros ->. destruct (w_receipt w) as [r|]; [|done]. by destruct (re_outcome r). Qed.

Lemma swapped_now_none w w' : w_receipt w = None → swapped_now w w' = [].
Proof. unfold swapped_now. by intros ->. Qed.

Lemma step_inv w w' G : step doc_bytes id_bytes w w' → inv w G → inv w' (swapped_now w w' ++ G).
Proof.
  destruct 1 as [w k x a Hx|w t Ht|w k row Ho Hc|w w' specs indexes batch owner status Hs|
    w w' limit stopped answers Hr Hlimit Hs|w limit stopped answers index a rows Hr Hn Hrows|
    w r e Hr Ho He|w r error Hr Ho|w w' r Hr Ho Hf]; intros Hinv.
  - rewrite swapped_now_same by done.
    apply (inv_evolves w); [apply change_evolves, Hinv|by apply change_table, Hinv|done].
  - rewrite swapped_now_same by done. apply (inv_evolves w); [apply clock_evolves|apply clock_table, Hinv|done].
  - rewrite swapped_now_same by done.
    apply (inv_evolves w); [by apply (prune_evolves w k row)|apply prune_table, Hinv|done].
  - apply start_cases in Hs as [->|[Hb ->]]; rewrite swapped_now_same by done; [done|]. by apply inv_start.
  - rewrite swapped_now_none by done. by eapply rebuild_slice_inv.
  - rewrite swapped_now_none by done. apply inv_ordinary; try done. by eapply no_rebuild.
  - unfold swapped_now. rewrite Hr. simpl. rewrite Ho. by apply inv_succeed.
  - unfold swapped_now. rewrite Hr. simpl. rewrite Ho. by apply inv_refuse.
  - assert (swapped_now w w' = []) as ->; [|by eapply finalize_inv].
    unfold swapped_now. rewrite Hr. destruct (w_receipt w'); [|done]. by destruct (re_outcome r).
Qed.

Lemma inv_initial w : initial w → inv w [].
Proof.
  intros (Ho & Hrep & Hb & _ & Hr & Hf). split.
  - split; rewrite Ho; intros *; by rewrite lookup_empty.
  - unfold receipt_ok. rewrite Hr, Hb, Hrep. split; [exact Hf| |done|].
    + split; [by intros ??? ?%lookup_empty_Some|]. by intros ??? ?%lookup_empty_Some.
    + by intros k ?%elem_of_nil.
Qed.

Lemma rebuilt_inv G w : rebuilt G w → inv w G.
Proof. induction 1; [by apply inv_initial|by eapply step_inv]. Qed.

Lemma inv_live w G k : inv w G → k.1 ∈ G → pending w k ∨ live_doc (w_engine w) k = current w k.
Proof.
  intros [_ Hok] Hk. unfold receipt_ok in Hok. destruct (w_receipt w) as [r|].
  - destruct (re_build r) as [id|].
    + destruct Hok as (b & _ & _ & [Hbe _ Ha]). unfold before_success, after_success in *.
      destruct (re_outcome r); [specialize (Hbe eq_refl)| |specialize (Hbe eq_refl)]; try (by eapply clean_pending, Hbe).
      by eapply clean_pending, Ha.
    + by eapply clean_pending, (oo_good _ _ _ Hok).
  - by eapply clean_pending, Hok.
Qed.

(** C1: From any content of the live indexes, once the swap of a rebuild has
    succeeded for an index, every document of that index is the one the
    database gives, or its entity has a pending row in the outbox, at every
    later moment: whatever changed during the walk, whatever was replayed or
    acknowledged, and through later deliveries, failures and rebuilds. *)
Theorem rebuilt_index_current G w k :
  rebuilt G w → k.1 ∈ G → pending w k ∨ live_doc (w_engine w) k = current w k.
Proof. intros Hr. apply inv_live. by apply rebuilt_inv. Qed.

End Spec.
