(* ===== verification/SearchRebuildRun.v ===== *)
(** * Runs of a rebuild

    A rebuild that is not swapped in leaves the live indexes and the pending
    rows alone, and a rebuild that is left to itself ends. *)

From stdpp Require Import base gmap strings list numbers sorting relations.
From S2P Require Import Prelude SearchRebuild SearchRebuildFacts SearchRebuildSpec.

Open Scope Z_scope.

Section Shape.
Context {D : Type}.
Implicit Types (w : @World D) (b : Build) (r : @Receipt D).

Definition cleaning (phase : build_phase) : bool :=
  bool_decide (phase ∈ [PAcknowledge; PDiscardReplay; PCleanup; PComplete]).

Definition position_ok (p : Progress) : Prop := (pr_position p < length (pr_indexes p))%nat.

Definition rank (phase : build_phase) : nat :=
  match phase with
  | PSettings => 7 | PBuild => 6 | PReplay => 5 | PEnsureLive => 4 | PSwap => 3
  | PAcknowledge | PDiscardReplay => 2 | PCleanup => 1 | PComplete => 0
  end.

(** What holds of an active build and of its receipt. *)
Record build_shape b : Prop := {
  bs_position : position_ok (bd_progress b);
  bs_active : bd_phase b ≠ PComplete;
  bs_cleaning : bd_state b = BCleaningFailure → cleaning (bd_phase b) = true }.

Definition command_shape b r : Prop :=
  (∃ index, re_index r = staging_of b index ∧ is_swap (re_command r) = false) ∨
  re_command r = CCreate ∨ re_command r = CSwap (swap_pairs b).

Record receipt_shape b r : Prop := {
  rs_build : re_build r = Some (bd_id b);
  rs_position : position_ok (re_progress r);
  rs_command : command_shape b r;
  rs_cleaning : bd_state b = BCleaningFailure → cleaning (re_phase r) = true;
  rs_drop : is_drop (re_command r) = true → (rank (re_phase r) <= 1)%nat;
  rs_running : is_drop (re_command r) = false → (3 <= rank (bd_phase b))%nat }.

Definition shape w : Prop :=
  match w_build w with
  | Some b => build_shape b ∧ ∀ r, w_receipt w = Some r → re_build r = None ∨ receipt_shape b r
  | None => ∀ r, w_receipt w = Some r → re_build r = None
  end.

(** ** Measures *)

(** The replay rows of a build. *)
Definition own_replay b w : gmap (Z * Z) Z := filter (λ kv, kv.1.1 = bd_id b) (w_replay w).

Definition items w b : nat :=
  let p := bd_progress b in
  let live := default ""%string (pr_indexes p !! pr_position p) in
  match bd_phase b with
  | PBuild => length (identities_after w live (pr_cursor p))
  | PReplay => length (events_after w live (pr_since p) (pr_cursor p))
  | PAcknowledge | PDiscardReplay => size (own_replay b w)
  | _ => 0
  end.

Definition measure w b : nat * nat * nat :=
  (rank (bd_phase b), (length (pr_indexes (bd_progress b)) - pr_position (bd_progress b))%nat, items w b).

Definition lower (x y : nat * nat * nat) : Prop :=
  (x.1.1 < y.1.1)%nat ∨ (x.1.1 = y.1.1 ∧ ((x.1.2 < y.1.2)%nat ∨ (x.1.2 = y.1.2 ∧ (x.2 < y.2)%nat))).

Lemma lower_wf : well_founded lower.
Proof.
  assert (∀ a b c : nat, Acc lower (a, b, c)) as H.
  { intros a. induction (lt_wf a) as [a _ IHa]. intros b. induction (lt_wf b) as [b _ IHb].
    intros c. induction (lt_wf c) as [c _ IHc]. constructor. intros [[a' b'] c'].
    intros [H|[H1 [H|[H2 H]]]]; simpl in *; subst; auto. }
  intros [[a b] c]. apply H.
Qed.

Lemma filter_shrinks {A} (P Q : A → bool) (l : list A) x :
  (∀ y, Q y = true → P y = true) → x ∈ l → P x = true → Q x = false →
  (length (List.filter Q l) < length (List.filter P l))%nat.
Proof.
  intros HQP Hx HP HQ.
  assert (Hle : ∀ l, (length (List.filter Q l) <= length (List.filter P l))%nat).
  { clear l Hx. induction l as [|y l IH]; [done|]. simpl. specialize (HQP y).
    destruct (Q y), (P y); simpl; naive_solver lia. }
  induction l as [|y l IH]; [by apply elem_of_nil in Hx|]. simpl. specialize (HQP y) as HQPy.
  apply elem_of_cons in Hx as [<-|Hx].
  - rewrite HP, HQ. simpl. specialize (Hle l). lia.
  - specialize (IH Hx). destruct (Q y), (P y); simpl; naive_solver lia.
Qed.

Lemma walk_shrinks w index c last :
  last ∈ identities_after w index c →
  (length (identities_after w index (IdCursor last)) < length (identities_after w index c))%nat.
Proof.
  intros Hin. pose proof Hin as [_ Hc]%identities_after_elem.
  unfold identities_after in *. rewrite !merge_sort_Permutation in *.
  rewrite list_elem_of_In, List.filter_In, <-list_elem_of_In in Hin. destruct Hin as [Hin Hlast].
  apply (filter_shrinks _ _ _ last); [|done|done|lia].
  intros id Hid. destruct c; [done| |done]. lia.
Qed.

Lemma replay_shrinks w index since c ke :
  ke ∈ events_after w index since c →
  (length (events_after w index since (EventCursor (ob_updated_at ke.2) (ob_id ke.2))) <
   length (events_after w index since c))%nat.
Proof.
  unfold events_after. rewrite !merge_sort_Permutation. intros Hin.
  rewrite list_elem_of_In, List.filter_In, <-list_elem_of_In in Hin. destruct Hin as [Hin Hke].
  apply (filter_shrinks _ _ _ ke); [|done|done|].
  - intros ke'. rewrite !andb_true_iff. intros [[? ?] Hlt]. split_and!; try done.
    rewrite !andb_true_iff in Hke. destruct Hke as [_ Hc]. unfold after_cursor in *.
    destruct c; try done. lia.
  - unfold after_cursor. rewrite andb_false_iff. right. lia.
Qed.

Lemma acknowledge_shrinks b w o :
  take 500 (replay_rows b w) ≠ [] →
  (size (own_replay b (set_tables o (drop_replay b (take 500 (replay_rows b w)).*1 (w_replay w)) w)) <
   size (own_replay b w))%nat.
Proof.
  intros Hne. apply map_subset_size. unfold own_replay, drop_replay. simpl. split.
  - apply map_subseteq_spec. intros i x. rewrite !map_lookup_filter_Some. tauto.
  - intros Hsub. destruct (take 500 (replay_rows b w)) as [|[id v] rows] eqn:Hrows; [done|].
    assert (Hin : (id, v) ∈ replay_rows b w).
    { apply (subseteq_take 500). rewrite Hrows. by left. }
    apply replay_rows_elem in Hin. unfold replay_acks in Hin.
    assert (Hl : filter (λ kv : Z * Z * Z, kv.1.1 = bd_id b) (w_replay w) !! (bd_id b, id) = Some v)
      by by apply map_lookup_filter_Some.
    apply (map_subseteq_spec _ _) with (i := (bd_id b, id)) (x := v) in Hsub; [|done].
    rewrite !map_lookup_filter_Some in Hsub. simpl in Hsub. set_solver.
Qed.

(** ** What a slice does *)

Record moved w b b' : Prop := {
  mv_id : bd_id b' = bd_id b;
  mv_shape : build_shape b';
  mv_lower : lower (measure w b') (measure w b) }.

Record handed w b r : Prop := {
  hd_shape : receipt_shape b r;
  hd_outcome : re_outcome r = Prepared;
  hd_lower : lower (measure w (continued r b)) (measure w b) }.

Inductive prepared w b : World → Prop :=
| prepared_stay b' : moved w b b' → prepared w b (stay b' w)
| prepared_receipt r : handed w b r → prepared w b (hand_out b r w)
| prepared_tables o rep :
    bd_phase b = PAcknowledge ∨ (bd_phase b = PDiscardReplay ∧ o = w_outbox w) →
    (size (own_replay b (set_tables o rep w)) < size (own_replay b w))%nat →
    prepared w b (set_tables o rep w).

Lemma advance_position p phase next phase' p' :
  position_ok p → _advance_index p phase next = (phase', p') → position_ok p'.
Proof.
  intros Hp. unfold position_ok in *. intros [(_ & -> & ?)|(_ & -> & ?)]%advance_cases; simpl; lia.
Qed.

(** The next index, or the next phase. *)
Lemma advance_lower w b b' next p :
  position_ok (bd_progress b) → (rank next < rank (bd_phase b))%nat →
  _advance_index (bd_progress b) (bd_phase b) next = (bd_phase b', p) → bd_progress b' = p →
  lower (measure w b') (measure w b).
Proof.
  unfold position_ok, lower, measure. simpl. intros Hp Hr Ha <-.
  apply advance_cases in Ha as [(-> & -> & _)|(-> & -> & ?)]; [by left|]. right. split; [done|]. left. simpl. lia.
Qed.

Lemma rank_cleaning phase : cleaning phase = true → (rank phase <= 2)%nat.
Proof. by destruct phase; simpl; try lia. Qed.

Lemma running_phase b : build_shape b → (3 <= rank (bd_phase b))%nat → bd_state b ≠ BCleaningFailure.
Proof. intros Hs Hr Hc%(bs_cleaning _ Hs)%rank_cleaning. lia. Qed.

End Shape.

Section Slices.
Context {D : Type} (doc_bytes : D → Z) (id_bytes : Z → Z).
Implicit Types (w : @World D) (b : Build) (r : @Receipt D).

Lemma handed_running w b name c versions phase p :
  let r := _receipt b name c versions phase p in
  build_shape b → (3 <= rank (bd_phase b))%nat → position_ok p → command_shape b r → is_drop c = false →
  lower (measure w (continued r b)) (measure w b) → prepared w b (hand_out b r w).
Proof.
  intros r Hs Hr Hp Hc Hd Hl. pose proof (running_phase b Hs Hr) as Hrun. constructor.
  split; [split|done|done]; try done. simpl. by rewrite Hd.
Qed.

Lemma moved_running w b phase p :
  build_shape b → (3 <= rank (bd_phase b))%nat → position_ok p → phase ≠ PComplete →
  lower (measure w (move phase p (w_now w) b)) (measure w b) →
  prepared w b (stay (move phase p (w_now w) b) w).
Proof.
  intros Hs Hr Hp Hc Hl. pose proof (running_phase b Hs Hr) as Hrun. constructor. by split; [|split|].
Qed.

(** One more index or the next phase, with or without a command. *)
Lemma advance_handed w b name c next phase p :
  build_shape b → (3 <= rank (bd_phase b))%nat → (rank next < rank (bd_phase b))%nat →
  (∃ index, name = staging_of b index ∧ is_swap c = false) ∨ c = CCreate → is_drop c = false →
  _advance_index (bd_progress b) (bd_phase b) next = (phase, p) →
  prepared w b (hand_out b (_receipt b name c [] phase p) w).
Proof.
  intros Hs Hr Hn Hc Hd Ha. apply handed_running; try done.
  - eapply advance_position; [apply Hs|done].
  - destruct Hc as [(index & -> & ?)|?]; [left; by exists index|by right; left].
  - eapply (advance_lower w b _ next); [apply Hs|done|exact Ha|done].
Qed.

Lemma advance_moved w b next phase p :
  build_shape b → (3 <= rank (bd_phase b))%nat → (0 < rank next < rank (bd_phase b))%nat →
  _advance_index (bd_progress b) (bd_phase b) next = (phase, p) →
  prepared w b (stay (move phase p (w_now w) b) w).
Proof.
  intros Hs Hr Hn Ha. apply moved_running; try done.
  - eapply advance_position; [apply Hs|done].
  - intros ->. apply advance_cases in Ha as [(Heq & _)|(Heq & _)]; rewrite <-Heq in *; simpl in *; lia.
  - eapply (advance_lower w b _ next); [apply Hs|lia|exact Ha|done].
Qed.

Lemma prepared_build limit w b live w' :
  build_shape b → bd_phase b = PBuild → pr_indexes (bd_progress b) !! pr_position (bd_progress b) = Some live →
  prepare_build doc_bytes limit b live w = Ok w' → prepared w b w'.
Proof.
  intros Hs Hp Hlive. unfold prepare_build. assert (Hr : (3 <= rank (bd_phase b))%nat) by (rewrite Hp; simpl; lia).
  case_bool_decide as Hids.
  - destruct (_advance_index (bd_progress b) PBuild PReplay) as [phase p] eqn:Ha. intros [= <-].
    apply (advance_moved w b PReplay); [done|done|rewrite Hp; simpl; lia|by rewrite Hp].
  - destruct (first_batch doc_bytes _ [] 2) as [payload|]; [|done].
    destruct (covered_prefix w live payload.*1 _ None) as [last|] eqn:Hwalk; [|done].
    assert (Hl : ∀ b', bd_phase b' = PBuild → bd_progress b' =
      counting (IdCursor last) live (Z.of_nat (length payload)) (bd_progress b) → lower (measure w b') (measure w b)).
    { intros b' Hp' Hpr. unfold lower, measure, items. rewrite Hp, Hp', Hpr. simpl. rewrite Hlive. simpl.
      right. split; [done|]. right. split; [done|]. apply walk_shrinks.
      destruct (covered_prefix_split w live payload.*1 (take (Z.to_nat (Z.min limit (pr_batch_size (bd_progress b))))
        (identities_after w live (pr_cursor (bd_progress b)))) None) as (l1 & l2 & Hl & _ & Heq).
      rewrite Hwalk in Heq. destruct (list.last l1) eqn:Hx; simplify_eq. apply last_elem in Hx.
      eapply subseteq_take. rewrite Hl. apply elem_of_app. by left. }
    case_bool_decide; intros [= <-].
    + apply moved_running; try done; [apply Hs|by apply Hl].
    + apply handed_running; try done; [apply Hs|left; by exists live|by apply Hl].
Qed.

Lemma replay_run_first w a first events taken :
  actual_action w first = a → replay_run doc_bytes id_bytes w a (first :: events) [] 2 = Ok taken → taken ≠ [].
Proof.
  intros Ha. simpl. rewrite bool_decide_true by done. simpl. destruct (_ <? _); [done|]. intros Hr ->.
  assert (Hkeep : ∀ events taken size taken', replay_run doc_bytes id_bytes w a events taken size = Ok taken' →
    taken ≠ [] → taken' ≠ []).
  { clear. induction events as [|ke events IH]; intros taken size taken'; simpl; [by intros [= <-]|].
    case_bool_decide; simpl; [|by intros [= <-]]. destruct (_ <? _).
    - case_bool_decide; [done|by intros [= <-]].
    - intros Hrun _. apply IH in Hrun; [done|]. by destruct taken. }
  by apply Hkeep in Hr.
Qed.

Lemma prepared_replay limit w b live w' :
  build_shape b → bd_phase b = PReplay → pr_indexes (bd_progress b) !! pr_position (bd_progress b) = Some live →
  prepare_replay doc_bytes id_bytes limit b live w = Ok w' → prepared w b w'.
Proof.
  intros Hs Hp Hlive. unfold prepare_replay. assert (Hr : (3 <= rank (bd_phase b))%nat) by (rewrite Hp; simpl; lia).
  set (events := take _ _). assert (Hev : ∀ ke, ke ∈ events →
    ke ∈ events_after w live (pr_since (bd_progress b)) (pr_cursor (bd_progress b))).
  { intros ke. apply subseteq_take. }
  clearbody events. destruct events as [|first events].
  - destruct (_advance_index (bd_progress b) PReplay PEnsureLive) as [phase p] eqn:Ha. intros [= <-].
    apply (advance_moved w b PEnsureLive); [done|done|rewrite Hp; simpl; lia|by rewrite Hp].
  - set (a := actual_action w first).
    destruct (replay_run doc_bytes id_bytes w a _ [] 2) as [taken|] eqn:Hrun; [|done].
    case_match; [done|]. intros [= <-].
    apply handed_running; try done; [apply Hs|left; exists live; by destruct a|by destruct a|].
    unfold lower, measure, items. simpl. rewrite Hp, Hlive. simpl. right. split; [done|]. right. split; [done|].
    destruct (last taken) as [ke|] eqn:Hlast.
    + unfold cursor_after. rewrite Hlast. apply replay_shrinks. apply Hev.
      apply last_elem in Hlast. by apply (replay_run_elem _ _ _ _ _ _ _ _ _ Hrun) in Hlast as [[]%elem_of_nil|[? _]].
    + apply last_None in Hlast. by apply replay_run_first in Hrun.
Qed.

Lemma prepared_cleanup w b live : build_shape b → bd_phase b = PCleanup → prepared w b (prepare_cleanup b live w).
Proof.
  intros Hs Hp. unfold prepare_cleanup.
  destruct (_advance_index (bd_progress b) PCleanup PComplete) as [phase p] eqn:Ha.
  assert (Hc : cleaning phase = true ∧ (rank phase <= 1)%nat)
    by (apply advance_cases in Ha as [(-> & _)|(-> & _)]; split; simpl; done || lia). destruct Hc.
  constructor. split; [split; simpl; try done| |].
  - eapply advance_position; [apply Hs|done].
  - left. by exists live.
  - done.
  - eapply (advance_lower w b _ PComplete); [apply Hs|rewrite Hp; simpl; lia|rewrite Hp; exact Ha|done].
Qed.

Lemma prepared_acknowledge w b :
  build_shape b → bd_phase b = PAcknowledge ∨ bd_phase b = PDiscardReplay → prepared w b (prepare_acknowledge b w).
Proof.
  intros Hs Hp. unfold prepare_acknowledge. case_bool_decide as Hrows.
  - constructor. split; [done|by split; [apply Hs|done|done]|]. left. simpl. destruct Hp as [-> | ->]; simpl; lia.
  - apply prepared_tables; [|by apply acknowledge_shrinks].
    destruct Hp as [Hp|Hp]; [by left|right]. by rewrite Hp.
Qed.

Lemma prepare_phase_prepared limit answers w b w' :
  build_shape b → prepare_phase doc_bytes id_bytes limit answers b w = Ok w' → prepared w b w'.
Proof.
  intros Hs. unfold prepare_phase. destruct (_ !! _) as [live|] eqn:Hlive; [|done].
  destruct (bd_phase b) eqn:Hp; intros H; simplify_eq.
  - unfold prepare_settings. destruct (_advance_index (bd_progress b) PSettings PBuild) as [phase p] eqn:Ha.
    apply (advance_handed w b _ _ PBuild); rewrite ?Hp; simpl; try done; try lia. left. by exists live.
  - by eapply prepared_build.
  - by eapply prepared_replay.
  - revert H. unfold prepare_ensure_live. destruct answers; simpl; [|done].
    destruct (_advance_index (bd_progress b) PEnsureLive PSwap) as [phase p] eqn:Ha.
    case_bool_decide; intros [= <-].
    + apply (advance_handed w b _ _ PSwap); rewrite ?Hp; simpl; try done; try lia. by right.
    + apply (advance_moved w b PSwap); rewrite ?Hp; simpl; done || lia.
  - apply handed_running; try done; [rewrite Hp; simpl; lia| |by right; right|].
    + pose proof (bs_position _ Hs) as Hpos. unfold position_ok in *. simpl. lia.
    + left. simpl. rewrite Hp. simpl. lia.
  - apply prepared_acknowledge; auto.
  - apply prepared_acknowledge; auto.
  - by apply prepared_cleanup.
  - by destruct (bs_active _ Hs).
Qed.

(** ** The shape is kept *)

Lemma begin_failure_shape error now b : build_shape b → build_shape (_begin_failure error now b).
Proof.
  intros Hs. unfold _begin_failure. case_bool_decide; [done|]. pose proof (bs_position _ Hs) as Hp.
  unfold position_ok in *. split; simpl; [unfold position_ok; simpl; lia|by case_match..].
Qed.

Lemma new_build_shape w owner indexes batch : indexes ≠ [] → build_shape (new_build w owner indexes batch).
Proof.
  intros Hne. split; try done. unfold position_ok. simpl. destruct indexes as [|i indexes]; [done|].
  destruct (fromkeys (i :: indexes)) eqn:Hf; simpl; [|lia].
  assert (i ∈ fromkeys (i :: indexes)) as Hin by (apply elem_of_fromkeys; by left).
  rewrite Hf in Hin. by apply elem_of_nil in Hin.
Qed.

Lemma add_build_shape w owner indexes batch : indexes ≠ [] → w_build w = None → shape w →
  shape (add_build (new_build w owner indexes batch) w).
Proof.
  intros Hne Hb Hs. unfold shape in *. rewrite Hb in Hs. simpl. split; [by apply new_build_shape|].
  intros r Hr. left. by apply Hs.
Qed.

Lemma prepared_shape w b w' :
  w_build w = Some b → w_receipt w = None → build_shape b → prepared w b w' → shape w'.
Proof.
  intros Hb Hr Hs Hp. unfold shape. destruct Hp as [b' Hm|r Hh|o rep Hp Hlt]; simpl.
  - split; [apply Hm|done].
  - split; [done|]. intros r' [= <-]. right. apply Hh.
  - rewrite Hb, Hr. by split.
Qed.

(** The world in which a slice prepares: the rebuild of the memberships may have been started. *)
Definition bootstrapped w w1 : Prop :=
  w1 = w ∨ (w_build w = None ∧ ∃ limit,
    w1 = add_build (new_build w (Some MEMBERSHIP_BOOTSTRAP_OWNER) [MEMBERSHIPS_INDEX] limit) w).

(** What a slice without a receipt may do. *)
Inductive slice_outcome w w' : Prop :=
| slice_prepared w1 b :
    bootstrapped w w1 →
    w_build w1 = Some b → prepared w1 b w' → slice_outcome w w'
| slice_stopped w1 b error :
    bootstrapped w w1 →
    w_build w1 = Some b → w' = stay (_begin_failure error (w_now w1) b) w1 → slice_outcome w w'
| slice_failed error : w' = fail_active error w → slice_outcome w w'
| slice_skipped : w' = w → slice_outcome w w'.

Lemma slice_cases limit stopped answers w w' :
  w_receipt w = None → shape w → rebuild_slice doc_bytes id_bytes limit stopped answers w = Some w' →
  slice_outcome w w'.
Proof.
  intros Hr Hs. unfold rebuild_slice, prepare_next.
  set (start := match w_build w with Some _ => Some w | None => _bootstrap_memberships limit w end).
  assert (Hstart : ∀ w1, start = Some w1 → bootstrapped w w1 ∧ shape w1).
  { intros w1. unfold start. destruct (w_build w) as [b|] eqn:Hb; [intros [= <-]; split; [by left|done]|].
    unfold _bootstrap_memberships. case_match; [|done]. intros [= <-]. split; [right; eauto|].
    by apply add_build_shape. }
  destruct start as [w1|]; [|done]. destruct (Hstart w1 eq_refl) as [Hw1 Hs1].
  destruct (w_build w1) as [b|] eqn:Hb1; [|done]. unfold shape in Hs1. rewrite Hb1 in Hs1. destruct Hs1 as [Hs1 _].
  destruct (_ && _); [intros [= <-]; by eapply slice_stopped|].
  destruct (prepare_phase doc_bytes id_bytes limit answers b w1) as [w2|err] eqn:Hp; intros [= <-].
  - eapply slice_prepared; [done..|]. by eapply prepare_phase_prepared.
  - destruct (gives_up err); [by eapply slice_failed|by apply slice_skipped].
Qed.

Lemma fail_active_shape error w : w_receipt w = None → shape w → shape (fail_active error w).
Proof.
  intros Hr. unfold shape, fail_active. destruct (w_build w) as [b|] eqn:Hb; [|by rewrite Hb].
  simpl. rewrite Hr. intros [Hs _]. split; [by apply begin_failure_shape|done].
Qed.

Lemma bootstrapped_shape w w1 :
  bootstrapped w w1 →
  w_receipt w = None → shape w → shape w1 ∧ w_receipt w1 = None.
Proof. intros [->|(Hb & limit & ->)] Hr Hs; [done|]. split; [by apply add_build_shape|done]. Qed.

Lemma slice_shape w w' : w_receipt w = None → shape w → slice_outcome w w' → shape w'.
Proof.
  intros Hr Hs [w1 b Hw1 Hb1 Hp|w1 b error Hw1 Hb1 ->|error ->| ->]; [..|done].
  - destruct (bootstrapped_shape _ _ Hw1 Hr Hs) as [Hs1 Hr1].
    eapply prepared_shape; [done..| |done]. unfold shape in Hs1. rewrite Hb1 in Hs1. apply Hs1.
  - destruct (bootstrapped_shape _ _ Hw1 Hr Hs) as [Hs1 Hr1].
    unfold shape in *. rewrite Hb1 in Hs1. simpl. split; [|done]. apply begin_failure_shape, Hs1.
  - by apply fail_active_shape.
Qed.

Lemma continue_shape error r b w :
  build_shape b → receipt_shape b r → shape (close_receipt (continue_build error r b w)).
Proof.
  intros Hs Hr. unfold continue_build, shape. case_bool_decide as Hp; simpl; [done|].
  split; [|done]. split; [apply Hr|done|apply Hr].
Qed.

Lemma complete_receipt_shape r b w :
  w_build w = Some b → build_shape b → receipt_shape b r → shape (close_receipt (complete_receipt r b w)).
Proof.
  intros Hb Hs Hr. unfold complete_receipt. case_match; [by apply continue_shape..|].
  destruct (negb _).
  - unfold fail_active. rewrite Hb. unfold shape. simpl. split; [by apply begin_failure_shape|done].
  - case_bool_decide; [|by apply continue_shape]. unfold shape. simpl. by rewrite Hb.
Qed.

Lemma finalize_shape r w w' : w_receipt w = Some r → shape w → _finalize r w = Some w' → shape w'.
Proof.
  intros Hr Hs. unfold _finalize, shape in *. destruct (re_build r) as [id|] eqn:Hrb.
  - destruct (w_build w) as [b|] eqn:Hb; [|done]. case_bool_decide; [|done]. intros [= <-].
    destruct Hs as [Hs Hrs]. destruct (Hrs r Hr) as [?|Hrs']; [congruence|].
    by apply complete_receipt_shape.
  - intros [= <-]. destruct (refused r); simpl; (destruct (w_build w) as [b|]; [|done]); by split; [apply Hs|].
Qed.

Lemma outcome_shape w e r o :
  w_receipt w = Some r → shape w → shape (set_engine e (Some (with_outcome o r)) w).
Proof.
  intros Hr Hs. unfold shape in *. simpl. destruct (w_build w) as [b|].
  - destruct Hs as [Hs Hrs]. split; [done|]. intros r' [= <-]. destruct (Hrs r Hr) as [?|[]]; [by left|right].
    by split.
  - intros r' [= <-]. simpl. by apply Hs.
Qed.

Lemma step_shape w w' : step doc_bytes id_bytes w w' → shape w → shape w'.
Proof.
  destruct 1 as [w k x a Hx|w t Ht|w k row Ho Hc|w w' specs indexes batch owner status Hst|
    w w' limit stopped answers Hr Hlimit Hst|w limit stopped answers index a rows Hr Hn Hrows|
    w r e Hr Ho He|w r error Hr Ho|w w' r Hr Ho Hf]; intros Hs; try done.
  - revert Hst. unfold start_rebuild. destruct (w_build w) as [b|] eqn:Hb; [case_match; [by intros [= <- _]|done]|].
    destruct (if bool_decide (is_Some owner) then _ else _); [by intros [= <- _]|].
    destruct (bool_decide (indexes = []) || _) eqn:Hi; [done|]. intros [= <- _].
    apply orb_false_iff in Hi as [Hi _]. apply bool_decide_eq_false in Hi. by apply add_build_shape.
  - eapply slice_shape; [done..|]. by eapply slice_cases.
  - apply no_rebuild in Hn. unfold shape. simpl. rewrite Hn. by intros r [= <-].
  - by apply outcome_shape.
  - by apply outcome_shape.
  - by eapply finalize_shape.
Qed.

Lemma reachable_shape w : reachable doc_bytes id_bytes w → shape w.
Proof.
  induction 1 as [w Hi|w w' _ IH Hstep]; [|by eapply step_shape].
  destruct Hi as (_ & _ & Hb & _ & Hr & _). unfold shape. by rewrite Hb, Hr.
Qed.

Lemma reachable_rebuilt w : reachable doc_bytes id_bytes w → ∃ G, rebuilt doc_bytes id_bytes G w.
Proof.
  induction 1 as [w Hi|w w' _ [G IH] Hstep]; [exists []; by constructor|].
  eexists. by eapply rebuilt_step.
Qed.

(** ** Before the swap *)

Lemma prepared_leaves_live w b w' : prepared w b w' → bd_phase b ≠ PAcknowledge →
  w_engine w' = w_engine w ∧ w_outbox w' = w_outbox w.
Proof. intros [b' _|r _|o rep [?|[_ ->]] _] Hp; done. Qed.

Lemma slice_quiet w w' b :
  w_build w = Some b → bd_phase b ≠ PAcknowledge → slice_outcome w w' →
  w_engine w' = w_engine w ∧ w_outbox w' = w_outbox w.
Proof.
  intros Hb Hp [w1 b1 Hw1 Hb1 Hpr|w1 b1 error Hw1 Hb1 ->|error ->| ->]; [..|done].
  - destruct Hw1 as [->|[? _]]; [|congruence]. rewrite Hb in Hb1. injection Hb1 as <-. by eapply prepared_leaves_live.
  - by destruct Hw1 as [->|[? _]]; [|congruence].
  - unfold fail_active. by rewrite Hb.
Qed.

(** A command of a rebuild other than its swap. *)
Lemma command_keeps_live b r e e' k :
  command_shape b r → is_swap (re_command r) = false → apply_command e (re_index r) (re_command r) = Some e' →
  live_doc e' k = live_doc e k.
Proof.
  intros Hc Hs He. unfold live_doc. f_equal. destruct Hc as [(index & Hi & _)|[Hc|Hc]].
  - eapply (index_docs_elsewhere e (re_index r)); eauto. by rewrite Hi.
  - eapply (apply_keeps_docs e (re_index r)); [|done]. by right.
  - by rewrite Hc in Hs.
Qed.

Lemma complete_quiet r b w : w_engine (complete_receipt r b w) = w_engine w ∧
  w_outbox (complete_receipt r b w) = w_outbox w.
Proof.
  unfold complete_receipt, continue_build, fail_active.
  repeat case_match; done.
Qed.

Lemma change_pending w k k' x a : pending w k' → pending (change k x a w) k'.
Proof.
  intros (row & Ho & Hc). unfold pending. rewrite outbox_change. destruct (decide (k = k')) as [<-|Hne].
  - exists (enqueued_row w a k). rewrite lookup_insert_eq. split; [done|]. unfold enqueued_row. by rewrite Ho.
  - exists row. by rewrite lookup_insert_ne.
Qed.

Lemma inv_phase w G b : inv w G → w_receipt w = None → w_build w = Some b →
  pr_swapped (bd_progress b) = false → bd_phase b ≠ PAcknowledge.
Proof.
  intros [_ Hok] Hr Hb Hs Hp. unfold receipt_ok in Hok. rewrite Hr, Hb in Hok.
  pose proof (bo_phase _ _ _ _ (gd_build _ _ _ _ _ Hok)) as Hph. unfold phase_ok in Hph. rewrite Hp in Hph. congruence.
Qed.


(** ** A rebuild left to itself *)

(** The next thing that happens when nobody changes the domain: a slice, the
    engine running the command of the receipt, or its completion. *)
Definition turn (limit : Z) w : World :=
  match w_receipt w with
  | None => default w (rebuild_slice doc_bytes id_bytes limit (λ _, false) true w)
  | Some r =>
      match re_outcome r with
      | Prepared =>
          match apply_command (w_engine w) (re_index r) (re_command r) with
          | Some e => set_engine e (Some (with_outcome Succeeded r)) w
          | None => set_engine (w_engine w) (Some (with_outcome (Refused "invalid") r)) w
          end
      | _ => default w (_finalize r w)
      end
  end.

Definition finished b : Prop := bd_state b ∈ [BComplete; BFailed].

(** A build is still active, at a state that satisfies [P], or it has ended. *)
Definition goes_on (P : World → Build → Prop) w b w' : Prop :=
  w_receipt w' = None ∧ shape w' ∧
  ((∃ b', w_build w' = Some b' ∧ bd_id b' = bd_id b ∧ w_history w' = w_history w ∧ P w' b') ∨
   (w_build w' = None ∧ ∃ b', w_history w' = b' :: w_history w ∧ bd_id b' = bd_id b ∧ finished b')).

Lemma begin_failure_id error now b : bd_id (_begin_failure error now b) = bd_id b.
Proof. unfold _begin_failure. by case_bool_decide. Qed.

(** The build after the completion of its receipt. *)
Definition completed_build r b b' : Prop :=
  (bd_phase b' = re_phase r ∧ bd_progress b' = re_progress r) ∨
  (refused r = true ∧ if is_drop (re_command r) then b' = b else ∃ error now, b' = _begin_failure error now b).

Lemma complete_goes_on w r b :
  w_receipt w = Some r → re_outcome r ≠ Prepared → w_build w = Some b → build_shape b → receipt_shape b r →
  goes_on (λ _, completed_build r b) w b (default w (_finalize r w)).
Proof.
  intros Hr Ho Hb Hs Hrs.
  assert (Hsh : shape w) by (unfold shape; rewrite Hb; split; [done|]; intros r'; rewrite Hr; intros [= <-]; by right).
  assert (Hfin : _finalize r w = Some (close_receipt (complete_receipt r b w))).
  { unfold _finalize. rewrite (rs_build _ _ Hrs), Hb. by rewrite bool_decide_true. }
  pose proof (finalize_shape r w _ Hr Hsh Hfin) as Hsh'. rewrite Hfin. simpl. split; [done|]. split; [done|].
  assert (Hcont : ∀ error, (∃ b', w_build (close_receipt (continue_build error r b w)) = Some b' ∧ bd_id b' = bd_id b ∧
      w_history (close_receipt (continue_build error r b w)) = w_history w ∧
      bd_phase b' = re_phase r ∧ bd_progress b' = re_progress r) ∨
    (w_build (close_receipt (continue_build error r b w)) = None ∧ ∃ b',
      w_history (close_receipt (continue_build error r b w)) = b' :: w_history w ∧ bd_id b' = bd_id b ∧ finished b')).
  { intros error. unfold continue_build. case_bool_decide; simpl; [right|left; eauto 10].
    split; [done|]. eexists. split; [done|]. split; [done|]. unfold finished. simpl. case_bool_decide; set_solver. }
  unfold complete_receipt, completed_build, refused. destruct (re_outcome r) as [| |error] eqn:Hout; [done|..].
  - destruct (Hcont (bd_last_error b)) as [(b' & ? & ? & ? & ?)|?]; [left|by right]. exists b'. auto 10.
  - destruct (is_drop (re_command r)); simpl.
    2: { left. unfold fail_active. rewrite Hb. simpl. eexists. split; [done|]. rewrite begin_failure_id. eauto 10. }
    + case_bool_decide; [left; simpl; rewrite Hb; eauto 10|].
      destruct (Hcont (Some ("Old index cleanup failed: " ++ error)%string)) as [(b' & ? & ? & ? & ?)|?];
        [left|by right]. exists b'. auto 10.
Qed.

Lemma items_tables w w' b :
  w_domain w' = w_domain w → w_outbox w' = w_outbox w → rank (bd_phase b) ≠ 2%nat → items w' b = items w b.
Proof.
  intros Hd Ho Hr. unfold items, identities_after, events_after. rewrite Hd, Ho.
  by destruct (bd_phase b).
Qed.

Lemma lower_first w w' b b' : (rank (bd_phase b') < rank (bd_phase b))%nat → lower (measure w' b') (measure w b).
Proof. by left. Qed.

Lemma failure_lower error now w w' b :
  build_shape b → (3 <= rank (bd_phase b))%nat → lower (measure w' (_begin_failure error now b)) (measure w b).
Proof.
  intros Hs Hr. apply lower_first. unfold _begin_failure.
  rewrite bool_decide_false by by apply running_phase. simpl. case_match; simpl; lia.
Qed.

(** The completion of a receipt that was handed out and not refused for a
    dropped index is progress. *)
Lemma completed_lower w w' b b' r :
  build_shape b → handed w b r → w_domain w' = w_domain w → w_outbox w' = w_outbox w →
  ∀ r', re_phase r' = re_phase r → re_progress r' = re_progress r → re_command r' = re_command r →
  (refused r' = true → is_drop (re_command r) = false) →
  completed_build r' b b' → bd_id b' = bd_id b → lower (measure w' b') (measure w b).
Proof.
  intros Hs [Hrs Ho Hl] Hd Hob r' Hph Hpr Hc Hnd [[Hp' Hpr']|[Href Hb']] Hid.
  - assert (Hm : (rank (re_phase r) = 2%nat → 2 < rank (bd_phase b))%nat).
    { destruct (is_drop (re_command r)) eqn:Hdr; [apply (rs_drop _ _ Hrs) in Hdr; lia|].
      apply (rs_running _ _ Hrs) in Hdr. lia. }
    destruct (decide (rank (re_phase r) = 2%nat)) as [H2|H2].
    { apply lower_first. rewrite Hp', Hph. specialize (Hm H2). lia. }
    assert (Hit : items w' b' = items w (continued r b)).
    { rewrite (items_tables w w' b') by (try done; by rewrite Hp', Hph).
      unfold items. simpl. rewrite Hp', Hpr', Hph, Hpr. by destruct (re_phase r). }
    unfold measure in *. rewrite Hit, Hp', Hpr', Hph, Hpr. exact Hl.
  - rewrite Hc in Hb'. rewrite (Hnd Href) in Hb'. destruct Hb' as (error & now & ->).
    apply failure_lower; [done|]. apply (rs_running _ _ Hrs). by apply Hnd.
Qed.

Abbreviation turns limit n w := (Nat.iter n (turn limit) w).

(** The engine's answer and the completion, for a receipt at hand. *)
Lemma receipt_turns limit w r b :
  w_receipt w = Some r → re_outcome r = Prepared → w_build w = Some b → build_shape b → receipt_shape b r →
  ∃ r' w1, turns limit 1 w = w1 ∧ w_receipt w1 = Some r' ∧ re_outcome r' ≠ Prepared ∧
    (refused r' = true → is_drop (re_command r) = false) ∧
    re_phase r' = re_phase r ∧ re_progress r' = re_progress r ∧ re_command r' = re_command r ∧
    receipt_shape b r' ∧ w_build w1 = Some b ∧ w_history w1 = w_history w ∧
    w_domain w1 = w_domain w ∧ w_outbox w1 = w_outbox w.
Proof.
  intros Hr Ho Hb Hs Hrs.
  assert (Hshape : ∀ o, receipt_shape b (with_outcome o r)) by (intros o; by destruct Hrs; split).
  simpl. unfold turn. rewrite Hr, Ho.
  destruct (apply_command (w_engine w) (re_index r) (re_command r)) as [e|] eqn:He.
  - by exists (with_outcome Succeeded r), (set_engine e (Some (with_outcome Succeeded r)) w).
  - exists (with_outcome (Refused "invalid") r),
      (set_engine (w_engine w) (Some (with_outcome (Refused "invalid") r)) w).
    split_and!; try done. intros _. by destruct (re_command r).
Qed.

Lemma finalize_keeps_tables r w : re_build r ≠ None →
  w_domain (default w (_finalize r w)) = w_domain w ∧ w_outbox (default w (_finalize r w)) = w_outbox w.
Proof.
  intros Hr. unfold _finalize. destruct (re_build r) as [id|]; [|done]. destruct (w_build w) as [b|]; [|done].
  case_bool_decide; [|done]. simpl. split; [|by apply (complete_quiet r b w)].
  unfold complete_receipt, continue_build, fail_active. repeat case_match; done.
Qed.

Lemma turn_complete limit w r : w_receipt w = Some r → re_outcome r ≠ Prepared →
  turn limit w = default w (_finalize r w).
Proof. intros Hr Ho. unfold turn. rewrite Hr. by destruct (re_outcome r). Qed.

Lemma handed_turns limit w b r :
  w_receipt w = None → w_build w = Some b → build_shape b → handed w b r →
  goes_on (λ w' b', lower (measure w' b') (measure w b)) w b (turns limit 2 (hand_out b r w)).
Proof.
  intros Hr Hb Hs Hh. pose proof (hd_shape _ _ _ Hh) as Hrs.
  destruct (receipt_turns limit (hand_out b r w) r b) as
    (r' & w1 & Hw1 & Hr1 & Ho1 & Hnd & Hph & Hpr & Hc & Hrs' & Hb1 & Hh1 & Hd1 & Hob1); try done; [apply Hh|].
  change (turns limit 2 (hand_out b r w)) with (turn limit (turns limit 1 (hand_out b r w))).
  rewrite Hw1, (turn_complete _ _ _ Hr1 Ho1).
  destruct (complete_goes_on w1 r' b) as (Hn & Hsh & Hcase); try done.
  assert (Hrb : re_build r' ≠ None) by (rewrite (rs_build _ _ Hrs'); done).
  destruct (finalize_keeps_tables r' w1 Hrb) as [Hd2 Ho2].
  split; [done|]. split; [done|]. rewrite Hh1 in Hcase.
  destruct Hcase as [(b' & Hb' & Hid & Hhist & Hcb)|Hend]; [left|by right].
  exists b'. split_and!; try done. eapply completed_lower; eauto; [by rewrite Hd2, Hd1|by rewrite Ho2, Hob1].
Qed.

Lemma first_batch_err docs batch size err : first_batch doc_bytes docs batch size = Err err → err = TooLarge.
Proof.
  revert batch size. induction docs as [|d docs IH]; intros batch size; simpl; [done|].
  case_match; [by intros [= <-]|]. case_match; [done|]. apply IH.
Qed.

Lemma replay_run_err w a events taken size err :
  replay_run doc_bytes id_bytes w a events taken size = Err err → err = TooLarge.
Proof.
  revert taken size. induction events as [|ke events IH]; intros taken size; simpl; [done|].
  case_bool_decide; simpl; [|done]. destruct (_ <? _); [|apply IH]. case_bool_decide; [by intros [= <-]|done].
Qed.

(** Errors happen while documents are read, and the build is given up. *)
Lemma prepare_phase_err limit b w err :
  build_shape b → prepare_phase doc_bytes id_bytes limit true b w = Err err →
  (3 <= rank (bd_phase b))%nat ∧ is_Some (gives_up err).
Proof.
  intros Hs. unfold prepare_phase.
  destruct (lookup_lt_is_Some_2 _ _ (bs_position _ Hs)) as [live ->].
  intros H. destruct (bd_phase b) eqn:Hp; try done; simpl; (split; [lia|]); revert H.
  - unfold prepare_build. case_bool_decide; [by destruct (_advance_index _ _ _)|].
    destruct (first_batch _ _ _ _) eqn:Hf; [|intros [= <-]; apply first_batch_err in Hf; by subst].
    case_match; [by case_bool_decide|by intros [= <-]].
  - unfold prepare_replay. case_match; [by destruct (_advance_index _ _ _)|].
    destruct (replay_run _ _ _ _ _ _ _) eqn:Hf; [|intros [= <-]; apply replay_run_err in Hf; by subst].
    case_match; [by intros [= <-]|done].
  - unfold prepare_ensure_live. simpl. destruct (_advance_index _ _ _). by case_bool_decide.
Qed.

Lemma round limit w b :
  w_receipt w = None → w_build w = Some b → build_shape b →
  ∃ n, goes_on (λ w' b', lower (measure w' b') (measure w b)) w b (turns limit n w).
Proof.
  intros Hr Hb Hs.
  assert (Hturn : ∀ w', rebuild_slice doc_bytes id_bytes limit (λ _, false) true w = Some w' → turn limit w = w').
  { intros w' H. unfold turn. by rewrite Hr, H. }
  assert (Hsl : rebuild_slice doc_bytes id_bytes limit (λ _, false) true w =
    match prepare_phase doc_bytes id_bytes limit true b w with
    | Ok w' => Some w'
    | Err err => Some (match gives_up err with Some text => fail_active text w | None => w end)
    end).
  { unfold rebuild_slice, prepare_next. rewrite Hb, Hb.
    destruct (bd_owner b); simpl; by destruct (prepare_phase doc_bytes id_bytes limit true b w). }
  destruct (prepare_phase doc_bytes id_bytes limit true b w) as [w'|err] eqn:Hp.
  - apply Hturn in Hsl. pose proof (prepare_phase_prepared limit true w b w' Hs Hp) as Hpr.
    pose proof (prepared_shape w b w' Hb Hr Hs Hpr) as Hsh.
    destruct Hpr as [b' Hm|r Hh|o rep Hph Hlt].
    + exists 1%nat. simpl. rewrite Hsl. split; [done|]. split; [done|]. left. exists b'.
      split_and!; try done; [apply Hm|]. apply (mv_lower _ _ _ Hm).
    + exists 3%nat. change (turns limit 3 w) with (turn limit (turn limit (turn limit w))). rewrite Hsl.
      by apply handed_turns.
    + exists 1%nat. simpl. rewrite Hsl. split; [done|]. split; [done|]. left. exists b. split_and!; try done.
      right. split; [done|]. right. split; [done|]. simpl. unfold items.
      destruct Hph as [->|[-> _]]; done.
  - destruct (prepare_phase_err limit b w err Hs Hp) as [Hrk [text Htext]]. rewrite Htext in Hsl.
    apply Hturn in Hsl. exists 1%nat. simpl. rewrite Hsl. split.
    { unfold fail_active. by rewrite Hb. }
    split. { apply fail_active_shape; [done|]. unfold shape. rewrite Hb, Hr. by split. }
    left. unfold fail_active. rewrite Hb. simpl. eexists. split; [done|]. rewrite begin_failure_id.
    split_and!; try done. by apply failure_lower.
Qed.

Lemma rounds limit w b :
  w_receipt w = None → w_build w = Some b → build_shape b →
  ∃ n b', w_build (turns limit n w) = None ∧ w_history (turns limit n w) = b' :: w_history w ∧
    bd_id b' = bd_id b ∧ finished b'.
Proof.
  remember (measure w b) as m eqn:Hm. revert w b Hm. induction (lower_wf m) as [m _ IH]. intros w b -> Hr Hb Hs.
  destruct (round limit w b Hr Hb Hs) as (n & Hr' & Hsh & [(b' & Hb' & Hid & Hhist & Hlow)|(Hn & b' & Hend)]);
    [|by exists n, b'].
  unfold shape in Hsh. rewrite Hb' in Hsh. destruct Hsh as [Hs' _].
  destruct (IH _ Hlow _ _ eq_refl Hr' Hb' Hs') as (m' & b'' & Hnone & Hhist' & Hid' & Hfin).
  exists (m' + n)%nat, b''. rewrite Nat.iter_add. split_and!; [done| |congruence|done]. by rewrite Hhist', Hhist.
Qed.

(** The receipt at hand, the build's own or an ordinary one, is completed. *)
Lemma settles limit w b : shape w → w_build w = Some b → ∃ n, goes_on (λ _ _, True) w b (turns limit n w).
Proof.
  intros Hsh Hb. destruct (w_receipt w) as [r|] eqn:Hr.
  2: { exists 0%nat. split; [done|]. split; [done|]. left. by exists b. }
  assert (Hdone : ∀ w1 r1, w_receipt w1 = Some r1 → re_outcome r1 ≠ Prepared → shape w1 → w_build w1 = Some b →
    w_history w1 = w_history w → goes_on (λ _ _, True) w b (turn limit w1)).
  { intros w1 r1 Hr1 Ho1 Hsh1 Hb1 Hh1. rewrite (turn_complete _ _ _ Hr1 Ho1).
    pose proof Hsh1 as Hsh1'. unfold shape in Hsh1'. rewrite Hb1 in Hsh1'. destruct Hsh1' as [Hs1 Hrs1].
    destruct (Hrs1 r1 Hr1) as [Hn|Hrs].
    - destruct (_finalize r1 w1) as [w2|] eqn:Hf; [|unfold _finalize in Hf; by rewrite Hn in Hf].
      pose proof (finalize_shape r1 w1 w2 Hr1 Hsh1 Hf) as Hsh2. unfold _finalize in Hf. rewrite Hn in Hf.
      injection Hf as <-. simpl. split; [done|]. split; [done|]. left. exists b.
      by destruct (refused r1).
    - destruct (complete_goes_on w1 r1 b) as (? & ? & Hcase); try done. split; [done|]. split; [done|].
      rewrite Hh1 in Hcase. destruct Hcase as [(b' & ? & ? & ? & _)|?]; [left; by exists b'|by right]. }
  destruct (re_outcome r) as [| |error] eqn:Ho.
  - assert (∃ o e, o ≠ Prepared ∧ turn limit w = set_engine e (Some (with_outcome o r)) w) as (o & e & Hne & Ht).
    { unfold turn. rewrite Hr, Ho. destruct (apply_command _ _ _) as [e|].
      - by exists Succeeded, e.
      - by exists (Refused "invalid"), (w_engine w). }
    exists 2%nat. simpl. rewrite Ht. eapply Hdone; try done. by apply outcome_shape.
  - exists 1%nat. eapply Hdone; try done. by rewrite Ho.
  - exists 1%nat. eapply Hdone; try done. by rewrite Ho.
Qed.

(** C3: A rebuild that is left to itself ends: from every reachable state with
    an active build, whatever receipt is in flight, after finitely many slices,
    engine runs and completions the build is in the history as complete or
    failed and no build is active. *)
Theorem quiet_rebuild_ends limit w b :
  reachable doc_bytes id_bytes w → w_build w = Some b →
  ∃ n b', w_build (turns limit n w) = None ∧ w_history (turns limit n w) = b' :: w_history w ∧
    bd_id b' = bd_id b ∧ finished b'.
Proof.
  intros Hreach%reachable_shape Hb.
  destruct (settles limit w b Hreach Hb) as (n & Hr & Hsh & [(b1 & Hb1 & Hid1 & Hh1 & _)|(Hn & b' & Hend)]);
    [|by exists n, b'].
  unfold shape in Hsh. rewrite Hb1 in Hsh. destruct Hsh as [Hs _].
  destruct (rounds limit _ b1 Hr Hb1 Hs) as (m & b2 & Hnone & Hh2 & Hid2 & Hfin).
  exists (m + n)%nat, b2. rewrite Nat.iter_add. split_and!; [done| |congruence|done]. by rewrite Hh2, Hh1.
Qed.

(** ** Turns are steps *)

Lemma turn_step limit w : 0 < limit → turn limit w = w ∨ step doc_bytes id_bytes w (turn limit w).
Proof.
  intros Hlimit. unfold turn. destruct (w_receipt w) as [r|] eqn:Hr.
  - destruct (re_outcome r) eqn:Ho.
    + destruct (apply_command _ _ _) eqn:He; right; [by eapply step_succeed|by eapply step_refuse].
    + destruct (_finalize r w) eqn:Hf; [right|by left]. by eapply step_finalize; [done|rewrite Ho|].
    + destruct (_finalize r w) eqn:Hf; [right|by left]. by eapply step_finalize; [done|rewrite Ho|].
  - destruct (rebuild_slice _ _ _ _ _ w) eqn:Hs; [right|by left]. by eapply step_prepare.
Qed.

(** The indexes swapped in by a number of turns. *)
Fixpoint swaps (limit : Z) (n : nat) w : list string :=
  match n with
  | O => []
  | S n => swapped_now (turns limit n w) (turns limit (S n) w) ++ swaps limit n w
  end.

Lemma turns_rebuilt limit n G w : 0 < limit → rebuilt doc_bytes id_bytes G w →
  rebuilt doc_bytes id_bytes (swaps limit n w ++ G) (turns limit n w).
Proof.
  intros Hlimit HG. induction n as [|n IH]; [done|]. simpl. rewrite <-app_assoc.
  destruct (turn_step limit (turns limit n w) Hlimit) as [Heq|Hstep].
  - rewrite Heq. by rewrite swapped_now_same.
  - by eapply rebuilt_step.
Qed.

Lemma change_rebuilt G w k x a : (a = EDelete → x ≫= id = None) → rebuilt doc_bytes id_bytes G w →
  rebuilt doc_bytes id_bytes G (change k x a w).
Proof.
  intros Hx HG. change G with ([] ++ G). rewrite <-(swapped_now_same w (change k x a w)) by done.
  eapply rebuilt_step; [done|]. by apply step_change.
Qed.

Lemma rebuilt_reachable G w : rebuilt doc_bytes id_bytes G w → reachable doc_bytes id_bytes w.
Proof. induction 1; [by constructor|by eapply reachable_step]. Qed.

End Slices.

(** ** A rebuild of an index with stale documents *)

Module Rebuilding.

Abbreviation turns doc_bytes id_bytes limit n w := (Nat.iter n (turn doc_bytes id_bytes limit) w).

Definition doc_bytes (d : string) : Z := Z.of_nat (String.length d).
Definition id_bytes (id : Z) : Z := 38.

(** Two works, of which one has a document; the live index has an old document
    for it and one of a work that is gone. *)
Definition start : @World string :=
  mkWorld 100 (<[("works", 1) := Some "one"]> (<[("works", 2) := None]> ∅)) ∅ 10 ∅
    {[LiveIndex "works" := <[1 := "stale"]> {[9 := "gone"]}]} None [] 1 None.

Definition opened : @World string :=
  match start_rebuild ["works"; "tags"] ["works"; "works"] 500 None start with Ok (w, _) => w | Err _ => start end.

(** The settings are in place and the first documents are sent; then the works change. *)
Definition changed : @World string :=
  change ("works", 1) (Some (Some "uno")) EUpsert
    (change ("works", 3) (Some (Some "three")) EUpsert (turns doc_bytes id_bytes 10 5 opened)).

(** The rebuild ends and the one of the memberships, which was due, follows. *)
Definition final : @World string := turns doc_bytes id_bytes 10 60 changed.

Lemma opened_rebuilt : rebuilt doc_bytes id_bytes [] opened.
Proof.
  change [] with (swapped_now start opened ++ []). eapply rebuilt_step.
  - constructor. split_and!; reflexivity.
  - eapply (step_start _ _ start opened ["works"; "tags"] ["works"; "works"] 500 None). reflexivity.
Qed.

Lemma changed_rebuilt : rebuilt doc_bytes id_bytes (swaps doc_bytes id_bytes 10 5 opened ++ []) changed.
Proof. do 2 (apply change_rebuilt; [done|]). apply turns_rebuilt; [lia|apply opened_rebuilt]. Qed.

Example opened_phase : bd_phase <$> w_build (turns doc_bytes id_bytes 10 5 opened) = Some PBuild.
Proof. vm_compute. reflexivity. Qed.

(** The index has the three current documents and nothing is left to deliver. *)
Example final_live : map_to_list (index_docs (w_engine final) (LiveIndex "works")) = [(3, "three"); (1, "uno")].
Proof. vm_compute. reflexivity. Qed.

Example final_outbox : (λ kr : entity * OutboxRow, (kr.1.2, ob_version kr.2, ob_completed kr.2)) <$> map_to_list (w_outbox final) =
  [(3, 1, true); (1, 1, true)].
Proof. vm_compute. reflexivity. Qed.

Example final_history :
  (bd_state <$> w_history final, w_build final,
   bool_decide (dom (w_engine final) = {[LiveIndex "works"; LiveIndex MEMBERSHIPS_INDEX]})) =
  ([BComplete; BComplete], None, true).
Proof. vm_compute. reflexivity. Qed.

Example final_swaps : swaps doc_bytes id_bytes 10 60 changed = [MEMBERSHIPS_INDEX; "works"%string].
Proof. vm_compute. reflexivity. Qed.

Lemma rebuilt_index_current_witness :
  rebuilt doc_bytes id_bytes (swaps doc_bytes id_bytes 10 60 changed ++ swaps doc_bytes id_bytes 10 5 opened ++ []) final ∧
  (pending final ("works"%string, 1) ∨ live_doc (w_engine final) ("works"%string, 1) = current final ("works"%string, 1)).
Proof.
  assert (Hr : rebuilt doc_bytes id_bytes
    (swaps doc_bytes id_bytes 10 60 changed ++ swaps doc_bytes id_bytes 10 5 opened ++ []) final)
    by (apply turns_rebuilt; [lia|apply changed_rebuilt]).
  split; [exact Hr|]. apply (rebuilt_index_current doc_bytes id_bytes _ final ("works"%string, 1) Hr).
  rewrite final_swaps. right. left.
Defined.

(** The first documents are sent; the engine stores them next. *)
Definition sending : @World string := turns doc_bytes id_bytes 10 4 opened.

Lemma sending_reachable : reachable doc_bytes id_bytes sending.
Proof. eapply rebuilt_reachable, turns_rebuilt; [lia|apply opened_rebuilt]. Qed.

Lemma sending_step : step doc_bytes id_bytes sending (turn doc_bytes id_bytes 10 sending).
Proof.
  destruct (turn_step doc_bytes id_bytes 10 sending) as [Heq|Hs]; [lia| |exact Hs].
  apply (f_equal (λ w, re_outcome <$> w_receipt w)) in Heq. vm_compute in Heq. discriminate.
Qed.

Definition sending_build : Build := default (new_build start None [] 0) (w_build sending).


Lemma quiet_rebuild_ends_witness :
  ∃ n b', w_build (turns doc_bytes id_bytes 10 n sending) = None ∧
    w_history (turns doc_bytes id_bytes 10 n sending) = b' :: w_history sending ∧
    bd_id b' = bd_id sending_build ∧ finished b'.
Proof.
  apply (quiet_rebuild_ends doc_bytes id_bytes 10 sending sending_build).
  - exact sending_reachable.
  - vm_compute. reflexivity.
Defined.

End Rebuilding.
