(* ===== verification/WorkHeat.v ===== *)
(** * Requests to recompute the heat of works

    [app/services/work_heat_queue.py]: a request leaves one job that starts
    after it, coalescing with jobs that have not started, in two jobs of RQ for
    each source, the primary and its follow-up.

    The request is a program of its calls to Redis; a call may raise, before or
    after its effect.  The lock of a source lets one request or reconciliation
    run at a time: its lease outlives the calls it guards, and a request whose
    lease was lost raises at the next check.  RQ is not part of the repository;
    its documented behaviour is the environment: workers start queued jobs and
    end, retry or stop running ones, a finished or failed job releases the
    deferred jobs registered with it, jobs are cancelled and expire at any time
    between two calls. *)

From stdpp Require Import base list strings numbers relations.
From S2P Require Import Prelude Programs.

Open Scope Z_scope.

(** ** Sources and identifiers *)

Definition source_char (c : Ascii.ascii) : bool :=
  let n := Ascii.nat_of_ascii c in
  ((97 <=? n) && (n <=? 122) || (48 <=? n) && (n <=? 57))%nat.

Definition source_tail_char (c : Ascii.ascii) : bool :=
  source_char c || (Ascii.nat_of_ascii c =? 95)%nat || (Ascii.nat_of_ascii c =? 45)%nat.

(** [_SOURCE_PATTERN], on a source that is stripped and in lower case. *)
Definition _SOURCE_PATTERN (s : string) : bool :=
  match String.list_ascii_of_string s with
  | [] => false
  | c :: rest => source_char c && forallb source_tail_char rest && (length rest <=? 48)%nat
  end.

Definition primary_id (source : string) : string := "work-heat-" +:+ source.
Definition followup_id (source : string) : string := primary_id source +:+ "-followup".

(** ** Jobs *)

Inductive job_status := Queued | Scheduled | Deferred | Started | Finished | Failed | Stopped | Canceled.
Global Instance job_status_eq_dec : EqDecision job_status.
Proof. solve_decision. Defined.

Inductive slot := Primary | Followup.
Global Instance slot_eq_dec : EqDecision slot.
Proof. solve_decision. Defined.

Definition other (s : slot) : slot := match s with Primary => Followup | Followup => Primary end.

Definition _PENDING_STATUSES : list job_status := [Queued; Scheduled; Deferred].
Definition _RUNNING_STATUSES : list job_status := [Started].
Definition _DEPENDENCY_RELEASE_STATUSES : list job_status := [Finished; Failed].

Definition pending (st : option job_status) : bool := match st with Some s => bool_decide (s ∈ _PENDING_STATUSES) | None => false end.
Definition running (st : option job_status) : bool := match st with Some s => bool_decide (s ∈ _RUNNING_STATUSES) | None => false end.
Definition releases (st : option job_status) : bool := match st with Some s => bool_decide (s ∈ _DEPENDENCY_RELEASE_STATUSES) | None => false end.

(** [jb_registered]: listed among the dependents of the other job. *)
Record Job := mkJob { jb_status : job_status; jb_registered : bool }.
Global Instance Job_eq_dec : EqDecision Job.
Proof. solve_decision. Defined.

(** The two jobs of a source, with the number of starts and of cancellations. *)
Record Jobs := mkJobs {
  job_primary : option Job;
  job_followup : option Job;
  starts : nat;
  cancels : nat }.

Definition job (w : Jobs) (s : slot) : option Job :=
  match s with Primary => job_primary w | Followup => job_followup w end.

Definition status (w : Jobs) (s : slot) : option job_status := jb_status <$> job w s.

Definition put (s : slot) (j : option Job) (w : Jobs) : Jobs :=
  match s with
  | Primary => mkJobs j (job_followup w) (starts w) (cancels w)
  | Followup => mkJobs (job_primary w) j (starts w) (cancels w)
  end.

Definition set_status (s : slot) (st : job_status) (w : Jobs) : Jobs := put s (Some (mkJob st false)) w.

Definition count_start (w : Jobs) : Jobs := mkJobs (job_primary w) (job_followup w) (S (starts w)) (cancels w).
Definition count_cancel (w : Jobs) : Jobs := mkJobs (job_primary w) (job_followup w) (starts w) (S (cancels w)).

(** ** The queue and its workers *)

Inductive worker_step (w : Jobs) : Jobs → Prop :=
| worker_starts s : status w s = Some Queued → worker_step w (count_start (set_status s Started w))
| worker_ends s st : status w s = Some Started → st ∈ [Finished; Failed; Stopped; Scheduled; Queued] →
    worker_step w (set_status s st w)
| retry_due s : status w s = Some Scheduled → worker_step w (set_status s Queued w)
| dependency_ends s : job w s = Some (mkJob Deferred true) → releases (status w (other s)) = true →
    worker_step w (set_status s Queued w)
| canceled s : pending (status w s) = true → worker_step w (count_cancel (set_status s Canceled w))
| expires s : pending (status w s) = false → running (status w s) = false → worker_step w (put s None w).

(** ** Calls *)

Inductive call : Type → Type :=
| OOwned : call (option unit)                                  (** [ensure_owned] *)
| OFetch (s : slot) : call (option bool)                       (** [Job.fetch]; does it exist? *)
| OStatus (s : slot) : call (option (option job_status))       (** [get_status(refresh=True)] *)
| ODelete (s : slot) : call (option unit)
| OEnqueue (s : slot) (dependency : option slot) : call (option unit)   (** [checked_enqueue] *)
| OEnqueueDependents (parent : slot) : call (option unit)
| OPromote (s parent : slot) : call (option unit)              (** the transaction of a promotion *)
| ONotify : call (option unit).

(** A deferred job that is registered with a job that ended is queued. *)
Definition enqueue_dependents (parent : slot) (w : Jobs) : Jobs :=
  if bool_decide (job w (other parent) = Some (mkJob Deferred true)) && releases (status w parent)
  then set_status (other parent) Queued w else w.

(** What an accepted enqueue leaves: without a dependency the job is queued;
    with one it is deferred, with its registration or, when the dependency
    ended meanwhile, without; or queued at once when nothing is to wait for. *)
Inductive enqueued (w : Jobs) (s : slot) : option slot → Jobs → Prop :=
| enqueued_now : enqueued w s None (set_status s Queued w)
| enqueued_deferred parent registered : enqueued w s (Some parent) (put s (Some (mkJob Deferred registered)) w)
| enqueued_ready parent : pending (status w parent) = false → running (status w parent) = false →
    enqueued w s (Some parent) (set_status s Queued w).

(** A call answers, or raises with or without its effect. *)
Definition may {X} (does : X → Jobs → Prop) (w : Jobs) (r : option X) (w' : Jobs) : Prop :=
  (∃ x, does x w' ∧ (r = Some x ∨ r = None)) ∨ (r = None ∧ w' = w).

Definition answers {X} (o : call X) (w : Jobs) : X → Jobs → Prop :=
  match o in call X return X → Jobs → Prop with
  | OOwned => may (λ _ w', w' = w) w
  | OFetch s => may (λ found w', found = bool_decide (is_Some (job w s)) ∧ w' = w) w
  | OStatus s => may (λ st w', st = status w s ∧ w' = w) w
  | ODelete s => may (λ _ w', w' = put s None w) w
  | OEnqueue s dependency => may (λ _ w', enqueued w s dependency w') w
  | OEnqueueDependents parent => may (λ _ w', w' = enqueue_dependents parent w) w
  | OPromote s parent => may (λ _ w', w' = set_status s Queued w) w
  | ONotify => may (λ _ w', w' = w) w
  end.

(** ** The request *)

Abbreviation io A := (prog call (option A)).
Definition raise {A} : io A := Ret None.
Definition ret {A} (a : A) : io A := Ret (Some a).
Definition then_ {A B} (p : io A) (f : A → io B) : io B :=
  prog_bind (λ r, match r with Some a => f a | None => raise end) p.
Notation "x <-! p ; q" := (then_ p (λ x, q)) (at level 20, p at level 100, q at level 200, only parsing).
Notation "p ;;! q" := (then_ p (λ _, q)) (at level 100, right associativity, only parsing).

Definition call_ {X} (o : call (option X)) : io X := act o.
Definition _ensure_enqueue_lock_owned : io unit := call_ OOwned.
Definition _fetch (s : slot) : io bool := call_ (OFetch s).
Definition _status (s : slot) : io (option job_status) := call_ (OStatus s).

(** The status of a job that was fetched. *)
Definition status_if (s : slot) (exists_ : bool) : io (option job_status) :=
  if exists_ then _status s else ret None.

Definition _promote_deferred_job_atomically (s parent : slot) : io (option job_status) :=
  _ensure_enqueue_lock_owned ;;! _ensure_enqueue_lock_owned ;;! _ensure_enqueue_lock_owned ;;!
  _ensure_enqueue_lock_owned ;;! call_ (OPromote s parent) ;;! call_ ONotify ;;! _status s.

Definition _repair_deferred_dependency (s parent : slot) : io (option job_status) :=
  st <-! _status s;
  if negb (bool_decide (st = Some Deferred)) then ret st
  else
    found <-! _fetch parent;
    parent_status <-! status_if parent found;
    if pending parent_status || running parent_status then ret st
    else if found && releases parent_status then
      _ensure_enqueue_lock_owned ;;! call_ (OEnqueueDependents parent) ;;! call_ ONotify ;;!
      st <-! _status s;
      if negb (bool_decide (st = Some Deferred)) then ret st else _promote_deferred_job_atomically s parent
    else _promote_deferred_job_atomically s parent.

Definition repair_if (s : slot) (st : option job_status) : io (option job_status) :=
  if bool_decide (st = Some Deferred)
  then _ensure_enqueue_lock_owned ;;! _repair_deferred_dependency s (other s)
  else ret st.

Definition delete_if (s : slot) (exists_ : bool) : io unit :=
  if exists_ then _ensure_enqueue_lock_owned ;;! call_ (ODelete s) else ret tt.

Inductive outcome := Created | Coalesced.

Definition _enqueue_recompute_job (s : slot) (dependency : option slot) : io unit := call_ (OEnqueue s dependency).

(** A new job; one that waits for another is repaired at once. *)
Definition create_job (s : slot) (dependency : option slot) : io outcome :=
  _ensure_enqueue_lock_owned ;;! _enqueue_recompute_job s dependency ;;!
  match dependency with
  | Some parent => _repair_deferred_dependency s parent ;;! ret Created
  | None => ret Created
  end.

(** [request_work_heat_recompute] for one source, inside its lock; an exception
    counts as an error of the source. *)
Definition request_work_heat_recompute : io outcome :=
  _ensure_enqueue_lock_owned ;;!
  primary <-! _fetch Primary;
  followup <-! _fetch Followup;
  primary_status <-! status_if Primary primary;
  followup_status <-! status_if Followup followup;
  primary_status <-! repair_if Primary primary_status;
  followup_status <-! repair_if Followup followup_status;
  if pending primary_status then ret Coalesced
  else if running primary_status then
    if pending followup_status || running followup_status then ret Coalesced
    else delete_if Followup followup ;;! create_job Followup (Some Primary)
  else if pending followup_status then ret Coalesced
  else if running followup_status then
    delete_if Primary primary ;;! create_job Primary (Some Followup)
  else
    delete_if Followup followup ;;! delete_if Primary primary ;;! create_job Primary None.

(** [reconcile_deferred_work_heat_jobs] for one deferred job, inside the lock. *)
Inductive reconciliation := Skipped | Waiting | Recovered.

Definition reconcile_deferred_work_heat_job (s : slot) : io reconciliation :=
  _ensure_enqueue_lock_owned ;;!
  found <-! _fetch s;
  st <-! status_if s found;
  if negb (bool_decide (st = Some Deferred)) then ret Skipped
  else
    st <-! _repair_deferred_dependency s (other s);
    ret (if bool_decide (st = Some Deferred) then Waiting else Recovered).

(** ** Requests beside workers *)

(** What holds the lock: a request with the starts and cancellations before it,
    or a reconciliation. *)
Inductive activity :=
| Requesting (p : io outcome) (starts0 cancels0 : nat)
| Reconciling (p : io reconciliation).

(** [sys_served]: the starts and cancellations before each request that was
    answered. *)
Record System := mkSystem {
  sys_jobs : Jobs;
  sys_active : option activity;
  sys_served : list (nat * nat) }.

Inductive sys_step : System → System → Prop :=
| sys_worker j j' a served : worker_step j j' → sys_step (mkSystem j a served) (mkSystem j' a served)
| sys_request j served :
    sys_step (mkSystem j None served)
      (mkSystem j (Some (Requesting request_work_heat_recompute (starts j) (cancels j))) served)
| sys_reconcile j served s :
    sys_step (mkSystem j None served) (mkSystem j (Some (Reconciling (reconcile_deferred_work_heat_job s))) served)
| sys_call X (o : call X) k x j j' s0 c0 served : answers o j x j' →
    sys_step (mkSystem j (Some (Requesting (Act o k) s0 c0)) served)
      (mkSystem j' (Some (Requesting (k x) s0 c0)) served)
| sys_reconcile_call X (o : call X) k x j j' served : answers o j x j' →
    sys_step (mkSystem j (Some (Reconciling (Act o k))) served) (mkSystem j' (Some (Reconciling (k x))) served)
| sys_served_request j r s0 c0 served :
    sys_step (mkSystem j (Some (Requesting (Ret (Some r)) s0 c0)) served)
      (mkSystem j None ((s0, c0) :: served))
(** The request or reconciliation ends without an answer, or its process dies. *)
| sys_gone j a served : sys_step (mkSystem j (Some a) served) (mkSystem j None served).

Inductive sys_reachable : System → Prop :=
| sys_initial : sys_reachable (mkSystem (mkJobs None None 0 0) None [])
| sys_next x y : sys_reachable x → sys_step x y → sys_reachable y.

(** ** One at a time, without interference *)

(** The answers of calls that nothing disturbs. *)
Definition perform {X} (o : call X) (w : Jobs) : X * Jobs :=
  match o with
  | OOwned => (Some tt, w)
  | OFetch s => (Some (bool_decide (is_Some (job w s))), w)
  | OStatus s => (Some (status w s), w)
  | ODelete s => (Some tt, put s None w)
  | OEnqueue s None => (Some tt, set_status s Queued w)
  | OEnqueue s (Some parent) => (Some tt, put s (Some (mkJob Deferred true)) w)
  | OEnqueueDependents parent => (Some tt, enqueue_dependents parent w)
  | OPromote s _ => (Some tt, set_status s Queued w)
  | ONotify => (Some tt, w)
  end.

Fixpoint run_alone {A} (p : prog call A) (w : Jobs) : A * Jobs :=
  match p with
  | Ret a => (a, w)
  | Act o k => let '(x, w') := perform o w in run_alone (k x) w'
  end.
