(* ===== verification/WorkHeatSpec.v ===== *)
(** * No overlapping recomputations and no lost requests

    The invariant of the two jobs of a source and what a request knows between
    its calls, whatever the workers do in between. *)

From stdpp Require Import base list strings numbers relations.
From S2P Require Import Prelude Programs WorkHeat.

Open Scope Z_scope.

(** ** The invariant *)

(** A job that a worker may run. *)
Definition live (st : option job_status) : bool :=
  match st with Some Queued | Some Scheduled | Some Started => true | _ => false end.

(** A job that is neither pending nor running. *)
Definition idle (w : Jobs) (s : slot) : Prop := pending (status w s) = false ∧ running (status w s) = false.

(** At most one of the two jobs may run, and they do not wait for each other. *)
Definition exclusive (w : Jobs) : Prop :=
  ∀ s, (live (status w s) = true → live (status w (other s)) = false) ∧
       (status w s = Some Deferred → status w (other s) ≠ Some Deferred).

(** Since the given numbers of starts and cancellations a recomputation has
    started or was cancelled, or one is pending. *)
Definition served_since (s0 c0 : nat) (w : Jobs) : Prop :=
  (s0 < starts w)%nat ∨ (c0 < cancels w)%nat ∨ ∃ s, pending (status w s) = true.

Definition counted (s0 c0 : nat) (w : Jobs) : Prop := (s0 <= starts w)%nat ∧ (c0 <= cancels w)%nat.

Lemma other_other s : other (other s) = s.
Proof. by destruct s. Qed.

Lemma other_ne s : other s ≠ s.
Proof. by destruct s. Qed.

Lemma slot_cases s t : t = s ∨ t = other s.
Proof. destruct s, t; auto. Qed.

Lemma status_put_eq s j w : status (put s j w) s = jb_status <$> j.
Proof. by destruct s. Qed.

Lemma status_put_ne s t j w : t ≠ s → status (put s j w) t = status w t.
Proof. by destruct s, t. Qed.

Lemma status_put_other s j w : status (put s j w) (other s) = status w (other s).
Proof. apply status_put_ne, other_ne. Qed.

Lemma starts_put s j w : starts (put s j w) = starts w.
Proof. by destruct s. Qed.

Lemma cancels_put s j w : cancels (put s j w) = cancels w.
Proof. by destruct s. Qed.

Lemma live_idle w s : idle w s → live (status w s) = false.
Proof. unfold idle. by destruct (status w s) as [[]|]; simpl; intros []. Qed.

Lemma idle_not_deferred w s : idle w s → status w s ≠ Some Deferred.
Proof. unfold idle. by destruct (status w s) as [[]|]; simpl; intros []. Qed.

Lemma exclusive_put w s j :
  exclusive w → (live (jb_status <$> j) = true → live (status w (other s)) = false) →
  (jb_status <$> j = Some Deferred → status w (other s) ≠ Some Deferred) → exclusive (put s j w).
Proof.
  intros Hx Hl Hd t. destruct (slot_cases s t) as [->| ->]; rewrite ?other_other, ?status_put_eq, ?status_put_other.
  - by split.
  - split.
    + intros Ho. destruct (live (jb_status <$> j)) eqn:He; [|done]. rewrite Hl in Ho; done.
    + intros Ho He. by apply Hd in He.
Qed.

(** A job that keeps its turn. *)
Lemma exclusive_same w s j :
  exclusive w → (live (jb_status <$> j) = true → live (status w s) = true) →
  (jb_status <$> j = Some Deferred → status w s = Some Deferred) → exclusive (put s j w).
Proof. intros Hx Hl Hd. apply exclusive_put; [done|..]; intros H; apply Hx; auto. Qed.

Lemma exclusive_counts w n m :
  exclusive w → exclusive (mkJobs (job_primary w) (job_followup w) n m).
Proof. intros Hx s. specialize (Hx s). by destruct s. Qed.

(** ** The workers *)

Lemma worker_exclusive w w' : worker_step w w' → exclusive w → exclusive w'.
Proof.
  destruct 1 as [s Hs|s st Hs Hst|s Hs|s Hs Hr|s Hp|s Hp Hr]; intros Hx;
    try (apply (exclusive_counts (set_status s _ w))); unfold set_status.
  - apply exclusive_same; [done|by rewrite Hs|done].
  - apply exclusive_same; [done|by rewrite Hs|]. simpl. intros [= ->]. set_solver.
  - apply exclusive_same; [done|by rewrite Hs|done].
  - apply exclusive_put; [done| |done]. intros _. by destruct (status w (other s)) as [[]|].
  - by apply exclusive_same.
  - by apply exclusive_same.
Qed.

Lemma worker_counts w w' : worker_step w w' → (starts w <= starts w')%nat ∧ (cancels w <= cancels w')%nat.
Proof.
  destruct 1; unfold set_status, count_start, count_cancel; simpl; rewrite ?starts_put, ?cancels_put; lia.
Qed.

Lemma worker_idle w w' s : worker_step w w' → idle w s → idle w' s.
Proof.
  unfold idle. intros Hstep [Hp Hr]. destruct Hstep as [t Ht|t st Ht Hst|t Ht|t Ht Hrel|t Ht|t Ht1 Ht2];
    (destruct (decide (s = t)) as [->|Hne]; [|by destruct s, t]);
    try (rewrite Ht in *; done); try congruence.
  - unfold status in *. by rewrite Ht in *.
  - by rewrite status_put_eq.
Qed.

(** A job starts only by a start. *)
Lemma worker_running w w' s : worker_step w w' → status w s ≠ Some Started →
  status w' s ≠ Some Started ∨ (starts w < starts w')%nat.
Proof.
  intros Hstep Hs. destruct Hstep as [t Ht|t st Ht Hst|t Ht|t Ht Hrel|t Ht|t Ht1 Ht2];
    (destruct (decide (s = t)) as [->|Hne]; [|left; by destruct s, t]).
  - right. by destruct t; simpl; lia.
  - done.
  - left. unfold set_status. by rewrite status_put_eq.
  - left. unfold set_status. by rewrite status_put_eq.
  - left. by destruct t.
  - left. by rewrite status_put_eq.
Qed.

(** A job becomes deferred only by a request. *)
Lemma worker_deferred w w' s : worker_step w w' → status w s ≠ Some Deferred → status w' s ≠ Some Deferred.
Proof.
  intros Hstep Hs. destruct Hstep as [t Ht|t st Ht Hst|t Ht|t Ht Hrel|t Ht|t Ht1 Ht2];
    (destruct (decide (s = t)) as [->|Hne]; [|by destruct s, t]);
    try (by destruct t).
  - unfold set_status. rewrite status_put_eq. simpl. set_solver.
Qed.

Lemma worker_counted s0 c0 w w' : worker_step w w' → counted s0 c0 w → counted s0 c0 w'.
Proof. intros Hstep%worker_counts []. unfold counted. lia. Qed.

(** A pending job stays pending until it starts or is cancelled. *)
Lemma worker_pending w w' s : worker_step w w' → pending (status w s) = true →
  pending (status w' s) = true ∨ (starts w < starts w')%nat ∨ (cancels w < cancels w')%nat.
Proof.
  intros Hstep Hs. destruct Hstep as [t Ht|t st Ht Hst|t Ht|t Ht Hrel|t Ht|t Ht1 Ht2];
    (destruct (decide (s = t)) as [->|Hne]; [|left; by destruct s, t]).
  - right. left. by destruct t; simpl; lia.
  - by rewrite Ht in Hs.
  - left. unfold set_status. by rewrite status_put_eq.
  - left. unfold set_status. by rewrite status_put_eq.
  - right. right. by destruct t; simpl; lia.
  - congruence.
Qed.

Lemma worker_served w w' s0 c0 : worker_step w w' → counted s0 c0 w → served_since s0 c0 w → served_since s0 c0 w'.
Proof.
  intros Hstep [Hs0 Hc0] Hsv. pose proof (worker_counts w w' Hstep). unfold served_since in *.
  destruct Hsv as [H1|[H1|[s Hs]]]; [left; lia|right; left; lia|].
  apply (worker_pending w w' s Hstep) in Hs as [?|[?|?]]; [right; right; by exists s|left; lia|right; left; lia].
Qed.

(** ** Between two calls *)

Abbreviation later := (rtc worker_step).

(** Assertions that the workers leave true. *)
Class Stable (P : Jobs → Prop) := stable : ∀ w w', worker_step w w' → P w → P w'.

Lemma stable_later P `{!Stable P} w w' : later w w' → P w → P w'.
Proof. induction 1 as [|x y z Hs _ IH]; [done|]. intros Hx. by apply IH, (stable x). Qed.

Global Instance stable_and P Q : Stable P → Stable Q → Stable (λ w, P w ∧ Q w).
Proof. intros HP HQ w w' Hs []. split; eapply stable; eauto. Qed.

Global Instance stable_pure (P : Prop) : Stable (λ _, P).
Proof. by intros w w' _. Qed.

Global Instance stable_imp (P : Prop) Q : Stable Q → Stable (λ w, P → Q w).
Proof. intros HQ w w' Hs H HP. eapply stable; eauto. Qed.

Global Instance stable_idle s : Stable (λ w, idle w s).
Proof. intros w w' Hs. by apply worker_idle. Qed.

Global Instance stable_exclusive : Stable exclusive.
Proof. intros w w' Hs. by apply worker_exclusive. Qed.

Global Instance stable_counted s0 c0 : Stable (counted s0 c0).
Proof. intros w w' Hs. by apply worker_counted. Qed.

Global Instance stable_served s0 c0 : Stable (λ w, counted s0 c0 w ∧ served_since s0 c0 w).
Proof. intros w w' Hs [Hc Hv]. split; [by eapply worker_counted|by eapply worker_served]. Qed.

Global Instance stable_not_deferred s : Stable (λ w, status w s ≠ Some Deferred).
Proof. intros w w' Hs. by apply worker_deferred. Qed.

(** A recomputation of the slot that runs started after the request. *)
Definition not_before (s0 : nat) (s : slot) (w : Jobs) : Prop :=
  (s0 <= starts w)%nat ∧ (status w s ≠ Some Started ∨ (s0 < starts w)%nat).

Global Instance stable_not_before s0 s : Stable (not_before s0 s).
Proof.
  intros w w' Hs [Hle H]. pose proof (worker_counts w w' Hs). split; [lia|].
  destruct H as [H|H]; [|right; lia]. apply (worker_running w w' s Hs) in H as [?|?]; [by left|right; lia].
Qed.

(** What a call must keep. *)
Record keeps (w w' : Jobs) : Prop := {
  kp_exclusive : exclusive w';
  kp_starts : starts w' = starts w;
  kp_cancels : cancels w' = cancels w;
  kp_pending : ∀ s, pending (status w s) = true → ∃ t, pending (status w' t) = true }.

Lemma keeps_served w w' s0 c0 : keeps w w' → served_since s0 c0 w → served_since s0 c0 w'.
Proof.
  intros [_ Hs Hc Hp]. unfold served_since. rewrite Hs, Hc. intros [?|[?|[s ?]]]; [by left|by right; left|].
  right. right. by eapply Hp.
Qed.

Lemma keeps_counted w w' s0 c0 : keeps w w' → counted s0 c0 w → counted s0 c0 w'.
Proof. intros [_ Hs Hc _]. unfold counted. by rewrite Hs, Hc. Qed.

(** The program is right from [w] on: its calls keep the invariant and its
    answer satisfies [Q], whatever the workers do between the calls. *)
Fixpoint good {A} (Q : A → Jobs → Prop) (p : prog call A) (w : Jobs) : Prop :=
  match p with
  | Ret a => ∀ w', later w w' → Q a w'
  | Act o k => ∀ w' x w'', later w w' → exclusive w' → answers o w' x w'' → keeps w' w'' ∧ good Q (k x) w''
  end.

Lemma good_later {A} (Q : A → Jobs → Prop) p w w' : later w w' → good Q p w → good Q p w'.
Proof.
  intros Hl. destruct p as [a|X o k]; cbn; intros H.
  - intros w'' Hl'. apply H. by etrans.
  - intros w1 x w2 Hl' Hx Ha. eapply H; [|done..]. by etrans.
Qed.

Lemma good_bind {A B} (Q : B → Jobs → Prop) (f : A → prog call B) p w :
  good (λ a w', good Q (f a) w') p w → good Q (prog_bind f p) w.
Proof.
  revert w. induction p as [a|X o k IH]; intros w; cbn.
  - intros H. eapply H. done.
  - intros H w' x w'' Hl Hx Ha. destruct (H w' x w'' Hl Hx Ha). split; [done|]. by apply IH.
Qed.

(** The answer of a program that may raise. *)
Definition answer_ok {A} (Q : A → Jobs → Prop) (r : option A) (w : Jobs) : Prop :=
  match r with Some a => Q a w | None => True end.

Abbreviation goodE Q p w := (good (answer_ok Q) p w).

Lemma good_then {A B} (Q : B → Jobs → Prop) (p : io A) (f : A → io B) w :
  goodE (λ a w', goodE Q (f a) w') p w → goodE Q (then_ p f) w.
Proof.
  intros H. apply good_bind. revert H. generalize w. clear w. induction p as [r|X o k IH]; intros w; cbn.
  - intros H w' Hl. specialize (H w' Hl). destruct r; [done|]. by cbn.
  - intros H w' x w'' Hl Hx Ha. destruct (H w' x w'' Hl Hx Ha). split; [done|]. by apply IH.
Qed.

Lemma good_ret {A} (Q : A → Jobs → Prop) (a : A) w `{!Stable (Q a)} : Q a w → goodE Q (ret a) w.
Proof. intros H w' Hl. cbn. by eapply (stable_later (Q a)). Qed.

Lemma good_mono {A} (Q R : A → Jobs → Prop) p w : (∀ a w, Q a w → R a w) → good Q p w → good R p w.
Proof.
  intros HQR. revert w. induction p as [a|X o k IH]; intros w; cbn; [auto|].
  intros H w' x w'' Hl Hx Ha. destruct (H w' x w'' Hl Hx Ha). auto.
Qed.

Lemma keeps_refl w : exclusive w → keeps w w.
Proof. intros. split; eauto. Qed.

(** One call, from a stable assertion, with [does] its effect. *)
Section Call.
Context {X : Type} (P : Jobs → Prop) `{!Stable P} (o : call (option X)) (does : Jobs → X → Jobs → Prop).
Context (Ho : ∀ w, answers o w = may (does w) w).

Lemma good_last (Q : X → Jobs → Prop) w :
  P w → (∀ w' x w'', P w' → exclusive w' → does w' x w'' →
    keeps w' w'' ∧ ∀ w3, later w'' w3 → Q x w3) → goodE Q (call_ o) w.
Proof.
  intros HP H w' r w'' Hl Hx Ha. assert (HP' : P w') by by eapply (stable_later P).
  rewrite Ho in Ha. destruct Ha as [(x & Hd & Hr)|[-> ->]].
  - destruct (H w' x w'' HP' Hx Hd) as [Hk HQ]. split; [done|]. destruct Hr as [->| ->]; [done|by intros w3 _].
  - split; [by apply keeps_refl|]. by intros w3 _.
Qed.

Lemma good_step {B} (Q : B → Jobs → Prop) (f : X → io B) w :
  P w → (∀ w' x w'', P w' → exclusive w' → does w' x w'' → keeps w' w'' ∧ goodE Q (f x) w'') →
  goodE Q (then_ (call_ o) f) w.
Proof.
  intros HP H. apply good_then. eapply good_last; [done|]. intros w' x w'' HP' Hx Hd.
  destruct (H w' x w'' HP' Hx Hd) as [Hk HQ]. split; [done|]. intros w3 Hl. by eapply good_later.
Qed.
End Call.

(** Calls that only read. *)
Lemma good_owned {B} P `{!Stable P} (Q : B → Jobs → Prop) (f : unit → io B) w :
  P w → (∀ w, P w → goodE Q (f tt) w) → goodE Q (then_ _ensure_enqueue_lock_owned f) w.
Proof.
  intros HP H. eapply (good_step P OOwned); [done..|]. intros w' [] w'' HP' Hx ->.
  split; [by apply keeps_refl|auto].
Qed.

Lemma good_notify {B} P `{!Stable P} (Q : B → Jobs → Prop) (f : unit → io B) w :
  P w → (∀ w, P w → goodE Q (f tt) w) → goodE Q (then_ (call_ ONotify) f) w.
Proof.
  intros HP H. eapply (good_step P ONotify); [done..|]. intros w' [] w'' HP' Hx ->.
  split; [by apply keeps_refl|auto].
Qed.

Lemma good_status {B} P `{!Stable P} (Q : B → Jobs → Prop) (f : option job_status → io B) s w :
  P w → (∀ w, P w → exclusive w → goodE Q (f (status w s)) w) → goodE Q (then_ (_status s) f) w.
Proof.
  intros HP H. eapply (good_step P (OStatus s)); [done..|]. intros w' st w'' HP' Hx [-> ->].
  split; [by apply keeps_refl|auto].
Qed.

Lemma good_status_last P `{!Stable P} (Q : option job_status → Jobs → Prop) s w :
  (∀ st, Stable (Q st)) → P w → (∀ w, P w → exclusive w → Q (status w s) w) → goodE Q (_status s) w.
Proof.
  intros HQ HP H. eapply (good_last P (OStatus s)); [done..|]. intros w' st w'' HP' Hx [-> ->].
  split; [by apply keeps_refl|]. intros w3 Hl. eapply (stable_later (Q _)); [done|]. auto.
Qed.

Lemma good_fetch {B} P `{!Stable P} (Q : B → Jobs → Prop) (f : bool → io B) s w :
  P w → (∀ w found, P w → (found = false → idle w s) → goodE Q (f found) w) → goodE Q (then_ (_fetch s) f) w.
Proof.
  intros HP H. eapply (good_step P (OFetch s)); [done..|]. intros w' found w'' HP' Hx [-> ->].
  split; [by apply keeps_refl|]. apply H; [done|]. intros Hf. apply bool_decide_eq_false in Hf.
  unfold idle, status. destruct (job w' s); [|done]. by destruct Hf.
Qed.

Lemma good_seq {A B} (R : A → Jobs → Prop) (Q : B → Jobs → Prop) (p : io A) (f : A → io B) w :
  goodE R p w → (∀ a w, R a w → goodE Q (f a) w) → goodE Q (then_ p f) w.
Proof.
  intros Hp Hf. apply good_then. revert Hp. apply good_mono. intros [a|] w'; simpl; auto.
Qed.

Lemma good_status_if P `{!Stable P} s found w :
  P w → (found = false → idle w s) →
  goodE (λ st w, P w ∧ (pending st = false → running st = false → idle w s)) (status_if s found) w.
Proof.
  intros HP Hf. unfold status_if. destruct found.
  - apply (good_status_last P); [intros st; apply _|done|]. intros w' HP' _. split; [done|]. by split.
  - apply good_ret; [apply _|]. split; [done|]. auto.
Qed.

(** ** Writing *)

Lemma keeps_put w s j :
  exclusive w → (live (jb_status <$> j) = true → live (status w (other s)) = false) →
  (jb_status <$> j = Some Deferred → status w (other s) ≠ Some Deferred) →
  (pending (jb_status <$> j) = true ∨ pending (status w s) = false) → keeps w (put s j w).
Proof.
  intros Hx Hl Hd Hp. split; [by apply exclusive_put|apply starts_put|apply cancels_put|].
  intros t Ht. destruct Hp as [Hp|Hp]; [exists s; by rewrite status_put_eq|].
  destruct (slot_cases s t) as [->| ->]; [congruence|]. exists (other s). by rewrite status_put_other.
Qed.

Lemma keeps_queue w s : exclusive w → idle w (other s) → keeps w (set_status s Queued w).
Proof. intros Hx Hi. apply keeps_put; [done| |done|by left]. intros _. by apply live_idle. Qed.

Lemma keeps_delete w s : exclusive w → idle w s → keeps w (put s None w).
Proof. intros Hx [Hp _]. apply keeps_put; [done..|by right]. Qed.

Lemma keeps_enqueued w s dependency w' :
  exclusive w → enqueued w s dependency w' →
  match dependency with
  | None => idle w (other s)
  | Some parent => parent = other s ∧ status w (other s) ≠ Some Deferred
  end → keeps w w' ∧ pending (status w' s) = true.
Proof.
  intros Hx [|parent registered|parent Hp Hr] Hd; unfold set_status; rewrite status_put_eq; (split; [|done]).
  - by apply keeps_queue.
  - destruct Hd as [-> Hd]. by apply keeps_put; [..|left].
  - destruct Hd as [-> Hd]. by apply keeps_queue.
Qed.

(** A frame: what is known of the other job while one is written. *)
Definition frame (s : slot) (F : Jobs → Prop) : Prop :=
  ∀ w j, F w → keeps w (put s j w) → jb_status <$> j ≠ Some Started → F (put s j w).

Section Repair.
Context (F : Jobs → Prop) `{!Stable F} (R : option job_status → Jobs → Prop) `{!∀ st, Stable (R st)} (s : slot).
Context (HF : frame s F) (HR : ∀ w, F w → exclusive w → R (status w s) w).

Lemma good_promote w : F w → idle w (other s) →
  goodE (λ st w, F w ∧ R st w) (_promote_deferred_job_atomically s (other s)) w.
Proof.
  intros Hw Hi. unfold _promote_deferred_job_atomically.
  do 4 (apply (good_owned (λ w, F w ∧ idle w (other s))); [done|]; clear w Hw Hi; intros w [Hw Hi]).
  eapply (good_step (λ w, F w ∧ idle w (other s)) (OPromote s (other s))); [done..|].
  clear w Hw Hi. intros w [] w' [Hw Hi] Hx ->. pose proof (keeps_queue w s Hx Hi) as Hk. split; [done|].
  apply (good_notify F); [by apply HF|]. clear w Hw Hi Hx Hk. intros w Hw.
  apply (good_status_last F); [intros st; apply _|done|]. auto.
Qed.

Lemma good_dependents {B} (Q : B → Jobs → Prop) (f : unit → io B) w :
  F w → idle w (other s) → (∀ w, F w → idle w (other s) → goodE Q (f tt) w) →
  goodE Q (then_ (call_ (OEnqueueDependents (other s))) f) w.
Proof.
  intros Hw Hi Hf. eapply (good_step (λ w, F w ∧ idle w (other s)) (OEnqueueDependents (other s))); [done..|].
  clear w Hw Hi. intros w [] w' [Hw Hi] Hx ->. unfold enqueue_dependents. rewrite other_other.
  destruct (_ && _); [|split; [by apply keeps_refl|auto]].
  pose proof (keeps_queue w s Hx Hi) as Hk. split; [done|]. apply Hf; [by apply HF|].
  unfold idle, set_status. by rewrite status_put_other.
Qed.

Lemma good_repair w : F w → goodE (λ st w, F w ∧ R st w) (_repair_deferred_dependency s (other s)) w.
Proof.
  intros Hw. unfold _repair_deferred_dependency. apply (good_status F); [done|]. clear w Hw. intros w Hw Hx.
  pose proof (HR w Hw Hx) as Hr. destruct (negb (bool_decide (status w s = Some Deferred))).
  { apply good_ret; [apply _|done]. }
  generalize dependent (status w s). intros st0 Hr. clear Hx.
  apply (good_fetch (λ w, F w ∧ R st0 w)); [done|]. clear w Hw Hr. intros w found [Hw Hr] Hf.
  eapply good_seq; [by apply (good_status_if (λ w, F w ∧ R st0 w))|]. clear w Hw Hr Hf.
  intros pst w [[Hw Hr] Hi]. simpl in Hi.
  destruct (pending pst) eqn:Hp; cbn [orb]; [by apply good_ret; [apply _|]|].
  destruct (running pst) eqn:Hrn; cbn [orb]; [by apply good_ret; [apply _|]|]. specialize (Hi eq_refl eq_refl).
  destruct (found && releases pst); [|by apply good_promote].
  apply (good_owned (λ w, F w ∧ idle w (other s))); [done|]. clear w Hw Hr Hi. intros w [Hw Hi].
  apply good_dependents; [done..|]. clear w Hw Hi. intros w Hw Hi.
  apply (good_notify (λ w, F w ∧ idle w (other s))); [done|]. clear w Hw Hi. intros w [Hw Hi].
  apply (good_status (λ w, F w ∧ idle w (other s))); [done|]. clear w Hw Hi. intros w [Hw Hi] Hx.
  destruct (negb _); [|by apply good_promote]. apply good_ret; [apply _|auto].
Qed.

Lemma good_repair_if st w : F w → R st w → goodE (λ st w, F w ∧ R st w) (repair_if s st) w.
Proof.
  intros Hw Hr. unfold repair_if. case_bool_decide; [|by apply good_ret; [apply _|]].
  apply (good_owned F); [done|]. apply good_repair.
Qed.
End Repair.

(** ** The request *)

Section Request.
Context (s0 c0 : nat).

Definition answered (w : Jobs) : Prop := counted s0 c0 w ∧ served_since s0 c0 w.

(** What a status that was read means for the rest of the request. *)
Definition knows (s : slot) (st : option job_status) (w : Jobs) : Prop :=
  counted s0 c0 w ∧
  (pending st = true → answered w) ∧
  (pending st = false → running st = false → idle w s) ∧
  (running st = true → not_before s0 (other s) w ∧ status w s ≠ Some Deferred).

(** Two statuses: when both run, one of them started after the request did. *)
Definition apart (st st' : option job_status) (w : Jobs) : Prop :=
  running st = true → running st' = true → answered w.

Global Instance stable_answered : Stable answered.
Proof. apply stable_served. Qed.

Global Instance stable_knows s st : Stable (knows s st).
Proof. unfold knows. apply _. Qed.

Global Instance stable_apart st st' : Stable (apart st st').
Proof. unfold apart. apply _. Qed.

Lemma knows_read s w : counted s0 c0 w → exclusive w → knows s (status w s) w.
Proof.
  intros Hc Hx. split; [done|]. split_and!.
  - intros Hp. split; [done|]. right. right. by exists s.
  - by split.
  - intros Hr. destruct (status w s) as [[]|] eqn:Hs; try done. split; [|done].
    split; [apply Hc|]. left. intros Ho. destruct (Hx s) as [Hl _]. rewrite Hs, Ho in Hl. by specialize (Hl eq_refl).
Qed.

Lemma knows_none s w : counted s0 c0 w → idle w s → knows s None w.
Proof. intros Hc Hi. by split_and!. Qed.

Lemma knows_apart s st w : knows (other s) st w → exclusive w → apart st (status w s) w.
Proof.
  intros (Hc & _ & _ & Hr) _ Hst Hs. destruct (Hr Hst) as [[_ Hn] _]. rewrite other_other in Hn.
  split; [done|]. left. destruct Hn as [Hn|]; [|done]. by destruct (status w s) as [[]|].
Qed.

Lemma apart_sym st st' w : apart st st' w → apart st' st w.
Proof. unfold apart. auto. Qed.

Lemma answered_frame s : frame s answered.
Proof. intros w j [Hc Hs] Hk _. split; [by eapply keeps_counted|by eapply keeps_served]. Qed.

Lemma knows_frame s st : frame s (knows (other s) st).
Proof.
  intros w j (Hc & Hp & Hi & Hr) Hk Hj. split; [by eapply keeps_counted|]. split_and!.
  - intros H. by apply (answered_frame s w j); auto.
  - intros H1 H2. unfold idle. rewrite status_put_other. by apply Hi.
  - intros H. destruct (Hr H) as [[Hle _] Hd]. rewrite other_other. split.
    + split; [rewrite starts_put; lia|]. left. by rewrite status_put_eq.
    + by rewrite status_put_other.
Qed.

(** Reading a status when the other is known. *)
Lemma read_other s st w : knows (other s) st w → exclusive w → knows s (status w s) w ∧ apart st (status w s) w.
Proof. intros Hk Hx. pose proof Hk as [Hc _]. split; [by apply knows_read|by apply knows_apart]. Qed.

Lemma good_read F `{!Stable F} (R : option job_status → Jobs → Prop) `{!∀ st, Stable (R st)} s found w :
  (∀ w, F w → exclusive w → R (status w s) w) → (∀ w, F w → idle w s → R None w) →
  F w → (found = false → idle w s) → goodE (λ st w, F w ∧ R st w) (status_if s found) w.
Proof.
  intros HR Hn Hw Hf. unfold status_if. destruct found.
  - apply (good_status_last F); [intros st; apply _|done|auto].
  - apply good_ret; [apply _|auto].
Qed.

(** ** Replacing a job *)

Lemma good_delete_if F `{!Stable F} s found w : frame s F → F w → idle w s →
  goodE (λ _ w, F w ∧ idle w s) (delete_if s found) w.
Proof.
  intros HF Hw Hi. unfold delete_if. destruct found; [|by apply good_ret; [apply _|]].
  apply (good_owned (λ w, F w ∧ idle w s)); [done|]. clear w Hw Hi. intros w [Hw Hi].
  eapply (good_last (λ w, F w ∧ idle w s) (ODelete s)); [done..|]. clear w Hw Hi.
  intros w [] w' [Hw Hi] Hx ->. pose proof (keeps_delete w s Hx Hi) as Hk. split; [done|].
  intros w3 Hl. eapply (stable_later (λ w, F w ∧ idle w s)); [done|]. split; [by apply HF|].
  unfold idle. by rewrite status_put_eq.
Qed.

Lemma good_enqueue s dependency w :
  counted s0 c0 w →
  match dependency with
  | None => idle w (other s)
  | Some parent => parent = other s ∧ status w (other s) ≠ Some Deferred
  end → goodE (λ _, answered) (create_job s dependency) w.
Proof.
  intros Hc Hd. unfold create_job, _enqueue_recompute_job.
  set (P w := counted s0 c0 w ∧ match dependency with
    | None => idle w (other s) | Some parent => parent = other s ∧ status w (other s) ≠ Some Deferred end).
  assert (Stable P) by (unfold P; destruct dependency; apply _).
  apply (good_owned P); [done|]. clear w Hc Hd. intros w HP.
  eapply (good_step P (OEnqueue s dependency)); [done..|]. clear w HP. intros w [] w' [Hc Hd] Hx He.
  destruct (keeps_enqueued w s dependency w' Hx He Hd) as [Hk Hp]. split; [done|].
  assert (Ha : answered w') by (split; [by eapply keeps_counted|right; right; by exists s]).
  destruct dependency as [parent|]; [|by apply good_ret; [apply _|]]. destruct Hd as [-> _].
  eapply good_seq; [apply (good_repair answered (λ _ _, True)); [apply _..|apply answered_frame|done|done]|].
  intros st w3 [Hw3 _]. by apply good_ret; [apply _|].
Qed.

(** The choice between coalescing and a new job. *)
Lemma good_choice found1 found2 st1 st2 w :
  knows Primary st1 w → knows Followup st2 w → apart st1 st2 w →
  goodE (λ _, answered)
    (if pending st1 then ret Coalesced
     else if running st1 then
       if pending st2 || running st2 then ret Coalesced
       else then_ (delete_if Followup found2) (λ _, create_job Followup (Some Primary))
     else if pending st2 then ret Coalesced
     else if running st2 then
       then_ (delete_if Primary found1) (λ _, create_job Primary (Some Followup))
     else
       then_ (delete_if Followup found2) (λ _,
         then_ (delete_if Primary found1) (λ _, create_job Primary None))) w.
Proof.
  intros (Hc & Hp1 & Hi1 & Hr1) (_ & Hp2 & Hi2 & Hr2) Hap.
  destruct (pending st1) eqn:E1; [apply good_ret; [apply _|auto]|].
  destruct (running st1) eqn:E2.
  - destruct (pending st2) eqn:E3; cbn [orb]; [apply good_ret; [apply _|auto]|].
    destruct (running st2) eqn:E4; [apply good_ret; [apply _|by apply Hap]|].
    destruct (Hr1 eq_refl) as [_ Hd].
    eapply good_seq; [apply (good_delete_if (λ w, counted s0 c0 w ∧ status w Primary ≠ Some Deferred))|]; auto.
    + intros w' j [Hc' Hd'] Hk _. split; [by eapply keeps_counted|]. by rewrite (status_put_other Followup).
    + intros _ w' [[Hc' Hd'] _]. by apply good_enqueue.
  - destruct (pending st2) eqn:E3; [apply good_ret; [apply _|auto]|].
    destruct (running st2) eqn:E4.
    + destruct (Hr2 eq_refl) as [_ Hd].
      eapply good_seq; [apply (good_delete_if (λ w, counted s0 c0 w ∧ status w Followup ≠ Some Deferred))|]; auto.
      * intros w' j [Hc' Hd'] Hk _. split; [by eapply keeps_counted|]. by rewrite (status_put_other Primary).
      * intros _ w' [[Hc' Hd'] _]. by apply good_enqueue.
    + eapply good_seq; [apply (good_delete_if (λ w, counted s0 c0 w ∧ idle w Primary))|]; auto.
      * intros w' j [Hc' Hd'] Hk _. split; [by eapply keeps_counted|]. unfold idle. by rewrite (status_put_other Followup).
      * intros _ w' [[Hc' Hp'] Hf']. eapply good_seq.
        { apply (good_delete_if (λ w, counted s0 c0 w ∧ idle w Followup)); auto.
          intros w2 j [Hc2 Hd2] Hk _. split; [by eapply keeps_counted|]. unfold idle. by rewrite (status_put_other Primary). }
        intros _ w2 [[Hc2 Hf2] _]. by apply good_enqueue.
Qed.

Lemma good_request w : counted s0 c0 w → goodE (λ _, answered) request_work_heat_recompute w.
Proof.
  intros Hc. unfold request_work_heat_recompute.
  apply (good_owned (counted s0 c0)); [done|]. clear w Hc. intros w Hc.
  apply (good_fetch (counted s0 c0)); [done|]. clear w Hc. intros w found1 Hc Hf1.
  apply (good_fetch (λ w, counted s0 c0 w ∧ (found1 = false → idle w Primary))); [done|].
  clear w Hc Hf1. intros w found2 [Hc Hf1] Hf2.
  eapply good_seq.
  { apply (good_read (λ w, counted s0 c0 w ∧ (found2 = false → idle w Followup)) (knows Primary) Primary found1);
      [..|done|done].
    - intros w' [? _]. by apply knows_read.
    - intros w' [? _]. by apply knows_none. }
  clear w Hc Hf1 Hf2. intros st1 w [[Hc Hf2] Hk1]. eapply good_seq.
  { apply (good_read (knows Primary st1) (λ st w, knows Followup st w ∧ apart st1 st w) Followup found2); [..|done|done].
    - intros w' Hk Hx. by apply (read_other Followup).
    - intros w' [Hc' _] Hi. split; [by apply knows_none|]. by intros _. }
  clear w Hc Hf2 Hk1. intros st2 w [Hk1 [Hk2 Hap]]. eapply good_seq.
  { apply (good_repair_if (knows Followup st2) (λ st w, knows Primary st w ∧ apart st2 st w) Primary).
    - apply (knows_frame Primary).
    - intros w' Hk Hx. by apply (read_other Primary).
    - done.
    - split; [done|by apply apart_sym]. }
  clear w Hk1 Hk2 Hap st1. intros st1 w [Hk2 [Hk1 Hap]]. eapply good_seq.
  { apply (good_repair_if (knows Primary st1) (λ st w, knows Followup st w ∧ apart st1 st w) Followup).
    - apply (knows_frame Followup).
    - intros w' Hk Hx. by apply (read_other Followup).
    - done.
    - split; [done|by apply apart_sym]. }
  intros st2' w' [Hk1' [Hk2' Hap']]. by apply good_choice.
Qed.
End Request.

Lemma good_reconcile s w : goodE (λ _ _, True) (reconcile_deferred_work_heat_job s) w.
Proof.
  unfold reconcile_deferred_work_heat_job.
  apply (good_owned (λ _, True)); [done|]. clear w. intros w _.
  apply (good_fetch (λ _, True)); [done|]. clear w. intros w found _ Hf.
  eapply good_seq; [by apply (good_status_if (λ _, True))|]. clear w Hf. intros st w _.
  destruct (negb _); [by apply good_ret; [apply _|]|].
  eapply good_seq; [apply (good_repair (λ _, True) (λ _ _, True)); [apply _..|done|done|done]|].
  clear w. intros st' w _. by apply good_ret; [apply _|].
Qed.

(** ** The system *)

Definition activity_ok (a : option activity) (w : Jobs) : Prop :=
  match a with
  | Some (Requesting p s0 c0) => goodE (λ _, answered s0 c0) p w
  | Some (Reconciling p) => goodE (λ _ _, True) p w
  | None => True
  end.

Record sys_ok (x : System) : Prop := {
  so_exclusive : exclusive (sys_jobs x);
  so_served : ∀ s0 c0, (s0, c0) ∈ sys_served x → answered s0 c0 (sys_jobs x);
  so_active : activity_ok (sys_active x) (sys_jobs x) }.

Lemma activity_later a w w' : worker_step w w' → activity_ok a w → activity_ok a w'.
Proof. intros Hs%rtc_once. destruct a as [[p s0 c0|p]|]; [by apply good_later..|done]. Qed.

Lemma keeps_answered s0 c0 w w' : keeps w w' → answered s0 c0 w → answered s0 c0 w'.
Proof. intros Hk []. split; [by eapply keeps_counted|by eapply keeps_served]. Qed.

Lemma call_ok {A X} (Q : A → Jobs → Prop) (o : call X) k w x w' :
  exclusive w → answers o w x w' → good Q (Act o k) w → keeps w w' ∧ good Q (k x) w'.
Proof. intros Hx Ha H. by apply (H w x w'). Qed.

Lemma sys_step_ok x y : sys_step x y → sys_ok x → sys_ok y.
Proof.
  intros Hstep [Hx Hs Ha].
  destruct Hstep as [j j' a served Hw|j served|j served s|X o k r j j' s0 c0 served Hans|X o k r j j' served Hans|
    j r s0 c0 served|j a served]; simpl in *.
  - split; simpl; [by eapply worker_exclusive| |by eapply activity_later].
    intros s0 c0 Hin. by eapply (stable_answered s0 c0), Hs.
  - split; simpl; [done..|]. apply good_request. by split.
  - split; simpl; [done..|]. apply good_reconcile.
  - destruct (call_ok _ _ _ _ _ _ Hx Hans Ha) as [Hk Hg]. split; simpl; [apply Hk| |done].
    intros s1 c1 Hin. by eapply keeps_answered, Hs.
  - destruct (call_ok _ _ _ _ _ _ Hx Hans Ha) as [Hk Hg]. split; simpl; [apply Hk| |done].
    intros s1 c1 Hin. by eapply keeps_answered, Hs.
  - split; simpl; [done| |done]. intros s1 c1 [[= -> ->]|Hin]%elem_of_cons; [|by apply Hs].
    by apply (Ha j).
  - by split.
Qed.

Lemma heat_reachable_ok x : sys_reachable x → sys_ok x.
Proof.
  induction 1 as [|x y _ IH Hs]; [|by eapply sys_step_ok].
  split; simpl; [|set_solver|done]. by intros [].
Qed.

(** C20: The recomputations of a source never overlap: whatever requests,
    reconciliations and workers do, with calls that raise, requests that die and
    jobs that are retried, stopped, cancelled or expire, the primary and the
    follow-up job are not running at the same time. *)
Theorem recomputations_never_overlap x :
  sys_reachable x → ¬ (status (sys_jobs x) Primary = Some Started ∧ status (sys_jobs x) Followup = Some Started).
Proof.
  intros [Hx _ _]%heat_reachable_ok [H1 H2]. destruct (Hx Primary) as [Hl _]. simpl in Hl. rewrite H1, H2 in Hl.
  by specialize (Hl eq_refl).
Qed.

(** C21: No request is lost: after a request was answered, created or coalesced,
    a recomputation has started after the request began or one is pending,
    unless one was cancelled meanwhile; coalescing with a job that runs is right
    only because the recomputations do not overlap. *)
Theorem requests_not_lost x s0 c0 :
  sys_reachable x → (s0, c0) ∈ sys_served x →
  (s0 < starts (sys_jobs x))%nat ∨ (c0 < cancels (sys_jobs x))%nat ∨ ∃ s, pending (status (sys_jobs x) s) = true.
Proof. intros [_ Hs _]%heat_reachable_ok Hin. by destruct (Hs s0 c0 Hin). Qed.

(** C22: A deferred recomputation is never stuck: the job it waits for may still
    run, or a reconciliation that nothing disturbs queues it, whatever became
    of that job. *)
Theorem deferred_jobs_recovered x s :
  sys_reachable x → status (sys_jobs x) s = Some Deferred →
  live (status (sys_jobs x) (other s)) = true ∨
  ∃ w, run_alone (reconcile_deferred_work_heat_job s) (sys_jobs x) = (Some Recovered, w) ∧
    status w s = Some Queued.
Proof.
  intros [Hx _ _]%heat_reachable_ok Hs. destruct (Hx s) as [_ Hd]. specialize (Hd Hs).
  destruct (sys_jobs x) as [p f n m]. clear x Hx. destruct s; simpl in *; unfold status in *; simpl in *.
  - destruct p as [[st reg]|]; simplify_eq/=. destruct f as [[[] fr]|]; simpl in *; try (by left); try done; right;
      destruct reg; eexists; (split; [reflexivity|done]).
  - destruct f as [[st reg]|]; simplify_eq/=. destruct p as [[[] fr]|]; simpl in *; try (by left); try done; right;
      destruct reg; eexists; (split; [reflexivity|done]).
Qed.

(** ** Identifiers *)

(** The jobs of two sources are different, unless one source is named like the
    follow-up of the other. *)
Lemma string_app_inv (a s t : string) : a +:+ s = a +:+ t → s = t.
Proof. induction a as [|c a IH]; simpl; [done|]. intros [= H]. by apply IH. Qed.

Lemma string_app_assoc (a s t : string) : (a +:+ s) +:+ t = a +:+ (s +:+ t).
Proof.
  induction a as [|c a IH]; [done|]. change (String c ((a +:+ s) +:+ t) = String c (a +:+ (s +:+ t))). by rewrite IH.
Qed.

Lemma source_jobs_apart s t : s ≠ t → s ≠ t +:+ "-followup" →
  primary_id s ≠ primary_id t ∧ primary_id s ≠ followup_id t.
Proof.
  intros H1 H2. unfold primary_id, followup_id, primary_id. split; intros Heq.
  - by apply string_app_inv in Heq.
  - rewrite string_app_assoc in Heq. by apply string_app_inv in Heq.
Qed.

(** Both names are accepted, and a job of the one is a job of the other. *)
Example source_jobs_collide :
  _SOURCE_PATTERN "pixiv" = true ∧ _SOURCE_PATTERN "pixiv-followup" = true ∧
  primary_id "pixiv-followup" = followup_id "pixiv".
Proof. by vm_compute. Qed.

(** ** A busy source *)

Lemma perform_answers {X} (o : call X) w : answers o w (perform o w).1 (perform o w).2.
Proof. destruct o as [|s|s|s|s [parent|]|parent|s parent|]; left; eexists; split; try (left; reflexivity); by constructor. Qed.

Lemma alone_reachable p j s0 c0 served :
  sys_reachable (mkSystem j (Some (Requesting p s0 c0)) served) →
  sys_reachable (mkSystem (run_alone p j).2 (Some (Requesting (Ret (run_alone p j).1) s0 c0)) served).
Proof.
  revert j. induction p as [r|X o k IH]; intros j H; cbn; [done|].
  destruct (perform o j) as [x j'] eqn:Hp. apply IH. eapply sys_next; [done|].
  eapply (sys_call X o k x j j'). pose proof (perform_answers o j) as Ha. by rewrite Hp in Ha.
Qed.

Lemma request_reachable j served r j' :
  run_alone request_work_heat_recompute j = (Some r, j') → sys_reachable (mkSystem j None served) →
  sys_reachable (mkSystem j' None ((starts j, cancels j) :: served)).
Proof.
  intros Hr H. eapply sys_next; [|apply (sys_served_request j' r)].
  pose proof (alone_reachable request_work_heat_recompute j (starts j) (cancels j) served) as Ha.
  rewrite Hr in Ha. apply Ha. eapply sys_next; [done|]. apply sys_request.
Qed.

(** A request is served, its job starts, and a second request defers a
    follow-up that waits for it. *)
Definition busy : Jobs := mkJobs (Some (mkJob Started false)) (Some (mkJob Deferred true)) 1 0.
Definition busy_system : System := mkSystem busy None [(1%nat, 0%nat); (0%nat, 0%nat)].

Lemma busy_reachable : sys_reachable busy_system.
Proof.
  apply (request_reachable (mkJobs (Some (mkJob Started false)) None 1 0) [(0%nat, 0%nat)] Created); [reflexivity|].
  eapply sys_next.
  - apply (request_reachable (mkJobs None None 0 0) [] Created (mkJobs (Some (mkJob Queued false)) None 0 0));
      [reflexivity|apply sys_initial].
  - apply sys_worker. by apply (worker_starts (mkJobs (Some (mkJob Queued false)) None 0 0) Primary).
Qed.

(** The first job is stopped and expires; its follow-up is left deferred. *)
Definition orphaned : System := mkSystem (put Primary None busy) None (sys_served busy_system).

Lemma orphaned_reachable : sys_reachable orphaned.
Proof.
  eapply sys_next; [eapply sys_next; [exact busy_reachable|]|].
  - apply sys_worker. by apply (worker_ends busy Primary Stopped); [reflexivity|set_solver].
  - apply sys_worker. by apply (expires (set_status Primary Stopped busy) Primary).
Qed.

Lemma recomputations_never_overlap_witness :
  ¬ (status (sys_jobs busy_system) Primary = Some Started ∧ status (sys_jobs busy_system) Followup = Some Started).
Proof. exact (recomputations_never_overlap busy_system busy_reachable). Defined.

Lemma requests_not_lost_witness :
  (1 < starts busy)%nat ∨ (0 < cancels busy)%nat ∨ ∃ s, pending (status busy s) = true.
Proof.
  apply (requests_not_lost busy_system 1 0).
  - exact busy_reachable.
  - left.
Defined.

Lemma deferred_jobs_recovered_witness :
  live (status (sys_jobs orphaned) Primary) = true ∨
  ∃ w, run_alone (reconcile_deferred_work_heat_job Followup) (sys_jobs orphaned) = (Some Recovered, w) ∧
    status w Followup = Some Queued.
Proof.
  apply (deferred_jobs_recovered orphaned Followup).
  - exact orphaned_reachable.
  - reflexivity.
Defined.
